(* ===== verification/_CoqProject ===== *)
-Q . S2P
Prelude.v
Resources.v
Negotiation.v
NegotiationSpec.v
TerminalState.v
TerminalStateSpec.v
TerminalSync.v
TerminalSyncSpec.v
ViewportDelta.v
ViewportDeltaSpec.v
Payload.v
Transfer.v
TransferSpec.v
DatagramV3.v
DatagramV3Spec.v
Streaming.v
StreamingSpec.v
StreamingNet.v
Lease.v
LeaseSpec.v
Framing.v
FramingSpec.v
Gateway.v
Files.v
FilesSpec.v
Text.v
Messages.v
StreamChannels.v
StreamChannelsSpec.v
QueuedWriter.v
Environment.v
Sessions.v
SessionsSpec.v
SessionsInv.v
Engine.v
EngineSpec.v
Renderer.v
KnownHosts.v
AttachServer.v
AttachClient.v
AttachSpec.v
AttachNet.v
AttachInput.v
LiveClient.v
FileReads.v
FileReadsSpec.v
FileClient.v
FileClientSpec.v
DownloadSpec.v
Utf8.v
GitStatus.v
GitStatusSpec.v
FileWatch.v
Authentication.v
AuthenticationSpec.v
Requests.v
RequestsSpec.v
Policy.v
WorkerRouter.v
WorkerRouterSpec.v
WorkerProcess.v
StateDir.v
StateDirSpec.v
Forwarding.v
ForwardingSpec.v
AnsiClient.v
AnsiSpec.v
CommandLine.v
CommandLineSpec.v
StreamingCli.v
TerminalProcess.v
TerminalProcessSpec.v
Connections.v
ConnectionsSpec.v
ClientConnect.v
Startup.v
