(* ===== verification/Prelude.v ===== *)
(** * Astra Shell: a verification development

    Astra Shell keeps terminals alive on a server and shows them on clients over
    QUIC.  A gateway ([src/src/server.rs]) authenticates a connection, negotiates
    a protocol version and a set of capabilities ([negotiation.rs]), and hands the
    streams to a worker of the user's own ([worker.rs], [worker_identity.rs]).
    The worker holds the sessions ([session.rs]), each terminal with its PTY, its
    input lease and its VT engine ([terminal.rs], [terminal_engine.rs]), and the
    file service ([files.rs]); everything it allocates is charged to a resource
    account ([resources.rs]).  What a client sees of a terminal is a [State]
    ([terminal_state_v2.rs]), a bounded semantic picture of the screen.  It
    reaches the client in one of two ways: over a reliable stream, one
    acknowledged update at a time ([terminal_sync.rs]), or over QUIC datagrams,
    where the sender keeps a window of generations, every datagram is a cumulative
    difference to the last acknowledged one, and keyframes repair what is lost
    ([terminal_streaming.rs], [terminal_datagram_v3.rs]).  Large payloads are
    compressed ([compression.rs]) and cut into chunks ([server.rs]).

    ** How the code is modelled

    Every definition is a function of the source with its name, on explicit state:
    a method on [&mut self] takes the old value and returns the new one beside its
    result.  [anyhow::Result] is [result] of this file, whose errors carry the
    fixed part of the source's message; an index out of bounds or a failed
    [expect] is the error [PANIC], and the theorems show which functions never
    return it.  Unsigned integers are [N], with the width written out where the
    source checks, saturates or truncates; [usize] has 64 bits.  [HashMap],
    [BTreeMap] and the sets are [gmap] and [gset], the smallest key of a
    [BTreeMap] being computed by [first_key].  A mutex-protected method is one
    atomic step; where a method takes a lock twice it is two.

    Code outside the repository is a parameter with its documented laws, in type
    classes that a witness instantiates with concrete functions: the protobuf
    lengths and the grapheme count ([StateLib], [SyncLib]), zstd and SHA-256
    ([PayloadLib], [PayloadLaws]), the protobuf codec of states, pages and
    differences ([WireLib], [WireLaws]), of datagrams ([DatagramLib],
    [DatagramLaws], [StreamLib]), of messages ([FrameLib], [FrameLaws]), of what an
    attachment exchanges ([AttachLib], [AttachLaws]) and of the catalog
    ([SessionLib], [SessionLaws]), the canonical form of host names ([HostLib],
    [HostLaws]), SSH keys and signatures ([SshLib], [SshLaws]), the option parser
    ([ClapLib], [ClapLaws]), the sizes and identifiers that the admission of a
    stream looks at ([AdmissionLib]) and the vendored emulator ([Emulator]).
    UUID syntax, [Path::canonicalize] and the output of Git are arguments of the
    definitions that use them.  Random identifiers, clocks and the outcome of
    system calls are arguments; [Io] of [Files] says which call of an operation
    fails and how much a failing write stores, [Host] of [Authentication] what the
    account database and the file system answer.  Tasks and threads that run at
    the same time are step relations: one step is what one of them does between
    two points where another can act.

    ** The files

    - [Prelude]: results, machine integers, ordered maps, tactics and hint
      databases, and the lemmas all components share.
    - [Resources] ([resources.rs]): claims, limits, policy, pools shared through a
      store, reservations with their drop, accounts and the governor.  The usage
      of a pool is the sum of its live reservations and within its limits in
      every reachable state; a layered reservation is all or nothing; a validated
      policy admits what it promises; users do not share a pool.
    - [Negotiation], [NegotiationSpec] ([negotiation.rs]): the negotiated protocol
      is the greatest that both sides and the capability dependencies allow,
      negotiation fails exactly when there is none, and server, client and worker
      reconstruct the same value.
    - [TerminalState], [TerminalStateSpec] ([terminal_state_v2.rs]): the schema and
      its validation; a validated state is a drawable grid, and validation of
      hostile input never panics.
    - [TerminalSync], [TerminalSyncSpec] ([terminal_sync.rs]): row differences
      between states and the stop-and-wait window over a reliable link: round
      trip, safety on hostile input, consistency and convergence of the system.
    - [ViewportDelta], [ViewportDeltaSpec] ([terminal_streaming.rs], the delta
      functions): cell splices, inherited fields, and their application.
    - [Payload] ([compression.rs]): encoded payloads and file chunks.
    - [Transfer], [TransferSpec] ([terminal_streaming.rs], the assemblers, and the
      chunkers of [server.rs]): chunked transfers deliver what was sent under
      reordering and repetition.
    - [DatagramV3], [DatagramV3Spec] ([terminal_datagram_v3.rs]): fragments fit
      the datagram budget and reassemble.
    - [Streaming], [StreamingSpec], [StreamingNet] ([terminal_streaming.rs], the
      window and the replica): the sender and the receiver against a network that
      loses, repeats and reorders.  The replica shows only states the terminal
      really had, never goes back, no operation fails, memory is bounded, and the
      newest state can always be reached.
    - [Lease], [LeaseSpec] ([terminal.rs], the input lease): commands of any
      interleaving of threads are fenced by lease and sequence, recovery tokens
      authorize only the newest generation, and deadlines are enforced.
    - [Framing], [FramingSpec] ([protocol.rs], the framing): the incremental reader
      is the one-shot parser of the byte stream, however the bytes arrive and
      wherever a read is cancelled.
    - [Gateway] ([worker.rs], [worker_identity.rs], [auth.rs]): the checks at the
      gateway: the envelope of a worker's datagram, the worker's identity and the
      signed transcript.
    - [Files], [FilesSpec] ([files.rs], paths and uploads): operations over a file
      system whose calls may fail.  They change nothing outside the root; a commit
      publishes exactly the data that was sent, whatever failed before; and an
      upload can always be resumed and completed.
    - [Text], [Utf8]: Rust's strings as scalar values and as bytes, and the
      numbers printed in them.
    - [Messages], [StreamChannels], [StreamChannelsSpec] ([protocol.rs],
      [stream_channels.rs] and its callers): the way of a request stream through
      client, gateway and worker, on which all three agree.
    - [QueuedWriter] ([queued_writer.rs]): producer and drain in any interleaving;
      output is complete and in order, and waiting for the queue ends.
    - [Environment] ([terminal.rs]): what a spawned shell is given, and the checks
      that keep hostile values out of it.
    - [Sessions], [SessionsSpec], [SessionsInv] ([session.rs], the manager of
      [terminal.rs]): workspaces, terminals and attachments; what an acknowledged
      change leaves after a crash, and what every resource is reserved for.
    - [Engine], [EngineSpec], [Renderer] ([terminal_engine.rs]): the export of the
      screens of the emulator to a [State] and its pages of history, and the
      incremental drawing of a [State] on a local terminal.
    - [KnownHosts] ([known_hosts.rs]): trust on first use.
    - [AttachServer], [AttachSpec] ([server.rs], [handle_attach_inner]),
      [AttachClient] ([client.rs], the attachment and the router of datagrams),
      [AttachNet] and [AttachInput]: the handler, the relay, the network and the
      client together refine the protocol of [StreamingNet]; neither side treats
      the other as faulty; what is typed reaches the PTY.
    - [LiveClient] ([streaming_client.rs]): the driver that attaches again after a
      loss; input is never sent twice.
    - [FileReads], [FileReadsSpec] ([files.rs], what [Files] leaves),
      [FileClient], [FileClientSpec], [DownloadSpec] ([bin/astra.rs] and the calls of
      [client.rs]): listings, downloads and changes of the tree, and transfers over
      connections that break.
    - [GitStatus], [GitStatusSpec], [FileWatch] ([files.rs]): the porcelain output of
      Git is read back exactly; a watch loses no event.
    - [Authentication], [AuthenticationSpec] ([auth.rs], [accounts.rs] and both ends
      of the exchange): who gets in, and that both sides agree.
    - [Requests], [RequestsSpec] ([server.rs], [handle_worker_message], and the calls
      of [client.rs]): a call is the operation of its component.
    - [Policy] ([astrad.rs], [worker.rs]): limits written into command lines and
      read back.
    - [WorkerRouter], [WorkerRouterSpec], [WorkerProcess] ([worker.rs],
      [process_lock.rs]): the workers of the gateway, accounted for in every
      interleaving; one worker serves a user, whatever starts and dies.
    - [StateDir], [StateDirSpec] ([server.rs], [worker.rs]): the state directories
      under failing calls.
    - [Forwarding], [ForwardingSpec] ([forwarding.rs]): forwarded connections are
      two exact pipes, and accounted for.
    - [AnsiClient], [AnsiSpec], [StreamingCli], [CommandLine], [CommandLineSpec]
      ([bin/astra.rs]): the two attachments of the command line, its arguments and
      the names of terminals.
    - [TerminalProcess], [TerminalProcessSpec] ([terminal.rs]): reader, monitors
      and subscriptions of one terminal in any interleaving.
    - [Connections], [ConnectionsSpec] ([server.rs], [handle_connection];
      [worker.rs], [proxy_stream]): the tasks of all connections in any
      interleaving, on one router and one set of pools; a connection keeps its
      worker.
    - [ClientConnect] ([client.rs], [connect_with_config]): whom a client trusts
      before it sends anything, over all its reconnections.
    - [Startup] ([server.rs], [serve]): the daemon starts only from a sound state
      directory, in a state from which the invariants of the others hold.

    ** Bounds

    The eviction loops of the streaming window and replica remove one generation
    per turn, so the number of retained generations is enough fuel; a varint of a
    64-bit value has at most ten bytes, the fuel of [varint_len_from].  Pages of
    history are read with one unit of fuel per row of the scrollback.  A transfer
    of [FileClient] has a [Run] with fuel: that it is safe is proved for every
    fuel, that it ends with a bound computed from the file and the losses.  The start
    of a worker tries its socket [START_ATTEMPTS] times, as the code does.  All other
    recursion is on lists.  [StreamingNet] assumes of the states the terminal
    produces ([truth]) that they are valid, that a generation of an epoch names
    one state, and that epochs are not reused; its witnesses build such a set.

    ** Not modelled

    Listening, TLS and QUIC ([transport.rs]), the tasks that move bytes between
    a socket and a reader, and the reading of datagrams from the transport; the
    system calls that create a process, open a PTY and change credentials; the
    job pools of [compression.rs], which only schedule; the main functions,
    signals and raw mode of the two binaries; the branches for Windows; and the
    vendored emulator.  [Files] takes the file system as the operations of the
    service see it: another process that swaps a directory for a link between
    two operations is not modelled.  Timeouts around an exchange are ends of the
    exchange at any point. *)
From stdpp Require Export base list gmap strings numbers sorting.

(** The development's own notations live in [rust_scope]. *)
Declare Scope rust_scope.
Delimit Scope rust_scope with rust.
#[global] Open Scope rust_scope.

(** ** Results

    [anyhow::Result<T>] is a value or an error.  An error is represented by the
    fixed part of the message that the source attaches to it. *)
Inductive result (A : Type) : Type :=
| Ok (a : A)
| Err (e : string).
Arguments Ok {_} _.
Arguments Err {_} _%_string.

#[global] Instance result_ret : MRet result := @Ok.
#[global] Instance result_bind : MBind result := fun A B f m =>
  match m with Ok a => f a | Err e => Err e end.
#[global] Instance result_fmap : FMap result := fun A B f m =>
  match m with Ok a => Ok (f a) | Err e => Err e end.
#[global] Instance result_eq_dec `{EqDecision A} : EqDecision (result A).
Proof. solve_decision. Defined.

(** [Option::context] / [ok_or_else]. *)
Definition ok_or {A} (o : option A) (e : string) : result A :=
  match o with Some a => Ok a | None => Err e end.

(** [Result::is_ok]. *)
Definition is_ok {A} (r : result A) : bool :=
  match r with Ok _ => true | Err _ => false end.

(** A panic (an index out of bounds, a failed [expect], an overflow in a checked
    build).  The theorems show which operations never reach it. *)
Definition PANIC : string := "panicked".
Definition panic {A} : result A := Err PANIC.

(** [anyhow::Context]: an error is wrapped in the new message. *)
Definition with_context {A} (r : result A) (e : string) : result A :=
  match r with
  | Ok a => Ok a
  | Err e' => if bool_decide (e' = PANIC) then panic else Err e
  end.

(** [ensure!(b, e); k] *)
Notation "'ensure!' b , e ; k" := (if b then k else Err e)
  (at level 10, b at level 100, e at level 100, k at level 200,
   format "'ensure!'  b ,  e ; '//' k") : rust_scope.

(** A [for] loop whose body may return early with an error. *)
Fixpoint try_fold {A B} (f : B -> A -> result B) (b : B) (l : list A) : result B :=
  match l with
  | [] => Ok b
  | x :: l => b' ← f b x; try_fold f b' l
  end.

(** [Iterator::find_map]. *)
Fixpoint find_map {A B} (f : A -> option B) (l : list A) : option B :=
  match l with
  | [] => None
  | x :: l => match f x with Some y => Some y | None => find_map f l end
  end.

(** A call with a structured error type that may also panic. *)
Inductive outcome (E A : Type) : Type :=
| Returned (a : A)
| Failed (e : E)
| Panicked.
Arguments Returned {_ _} _.
Arguments Failed {_ _} _.
Arguments Panicked {_ _}.

(** ** Machine integers

    Unsigned integers are [N]; the width is written out where the source uses a
    checked, saturating or truncating operation.  [usize] has 64 bits. *)
Definition U16_MAX : N := 65535.
Definition U32_MAX : N := 4294967295.
Definition U64_MAX : N := 18446744073709551615.

Definition checked_add (max a b : N) : option N :=
  if (a + b <=? max)%N then Some (a + b)%N else None.
Definition checked_sub (a b : N) : option N :=
  if (b <=? a)%N then Some (a - b)%N else None.
Definition checked_mul (max a b : N) : option N :=
  if (a * b <=? max)%N then Some (a * b)%N else None.
Definition saturating_add (max a b : N) : N := N.min max (a + b).

(** [x as u32] of a wider unsigned value. *)
Definition as_u32 (n : N) : N := (n mod (U32_MAX + 1))%N.
(** [u32::try_from]. *)
Definition try_u32 (n : N) : result N :=
  if (n <=? U32_MAX)%N then Ok n else Err "out of range integral type conversion attempted".

(** [Vec::len] and [str::len] (bytes). *)
Definition llen {A} (l : list A) : N := N.of_nat (length l).
Definition slen (s : string) : N := N.of_nat (String.length s).
Arguments llen {_} _ : simpl never.
Arguments slen _ : simpl never.

(** A byte string. *)
Abbreviation bytes := (list N).

(** [u32::to_be_bytes] and [u32::from_be_bytes]. *)
Definition to_be_bytes (v : N) : bytes :=
  [N.shiftr v 24 mod 256; N.shiftr v 16 mod 256; N.shiftr v 8 mod 256; v mod 256]%N.
Definition from_be_bytes (b : bytes) : N := foldl (fun acc x => acc * 256 + x)%N 0%N b.

(** ** Ordered maps

    [BTreeMap<u64, _>] is a [gmap N _] with its smallest key computed. *)
Definition first_key {A} (m : gmap N A) : option N :=
  foldr (fun k acc => match acc with
                      | None => Some k
                      | Some k' => Some (N.min k k')
                      end) None ((map_to_list m).*1).

(** ** Tactics *)

(** Turn boolean tests of the hypotheses into propositions. *)
Ltac bool_prop :=
  repeat match goal with
  | H : _ && _ = true |- _ => apply andb_prop in H; destruct H
  | H : _ || _ = false |- _ => apply orb_false_elim in H; destruct H
  | H : negb _ = true |- _ => apply negb_true_iff in H
  | H : negb _ = false |- _ => apply negb_false_iff in H
  | H : (_ <=? _)%N = true |- _ => apply N.leb_le in H
  | H : (_ <=? _)%N = false |- _ => apply N.leb_gt in H
  | H : (_ <? _)%N = true |- _ => apply N.ltb_lt in H
  | H : (_ <? _)%N = false |- _ => apply N.ltb_ge in H
  | H : (_ =? _)%N = true |- _ => apply N.eqb_eq in H
  | H : (_ =? _)%N = false |- _ => apply N.eqb_neq in H
  | H : bool_decide _ = true |- _ => apply bool_decide_eq_true in H
  | H : bool_decide _ = false |- _ => apply bool_decide_eq_false in H
  end.

(** One step of inverting [H : m = Ok x]: the guard held, the sub-computation
    returned, the option was [Some]. *)
Ltac ok_step H :=
  cbv beta in H;
  lazymatch type of H with
  | Ok _ = Ok _ => first [injection H as H; subst | injection H as H]
  | Err _ = Ok _ => discriminate H
  | mbind _ ?m = Ok _ =>
      let E := fresh "Hr" in
      destruct m eqn:E; cbn [mbind result_bind] in H; [|discriminate H]
  | result_bind _ _ _ ?m = Ok _ =>
      let E := fresh "Hr" in
      destruct m eqn:E; cbn [result_bind] in H; [|discriminate H]
  | fmap _ ?m = Ok _ =>
      let E := fresh "Hr" in
      destruct m eqn:E; cbn [fmap result_fmap] in H; [|discriminate H]
  | (if ?b then _ else _) = Ok _ =>
      let E := fresh "Hb" in destruct b eqn:E; try discriminate H
  | (match ?m with _ => _ end) = Ok _ =>
      let E := fresh "Hm" in destruct m eqn:E; try discriminate H
  | ok_or ?o _ = Ok _ =>
      let E := fresh "Ho" in
      destruct o eqn:E; cbn [ok_or] in H; [|discriminate H]
  end.
Ltac ok_inv H := repeat ok_step H.

(** Show that a computation does not panic by walking through its binds, guards
    and matches; what is left are the calls that no hint covers. *)
Create HintDb no_panic.
Lemma no_panic_bind {A B} (r : result A) (f : A -> result B) :
  r <> panic -> (forall a, r = Ok a -> f a <> panic) -> (r ≫= f) <> panic.
Proof. destruct r as [a|e]; cbn; [by auto|]. intros Hr _ Heq. apply Hr. unfold panic in *. congruence. Qed.
Lemma no_panic_ok_or {A} (o : option A) e : e <> PANIC -> ok_or o e <> panic.
Proof. destruct o; cbn; [done|]. intros ? [= ?]. done. Qed.
Lemma no_panic_with_context {A} (r : result A) e :
  r <> panic -> e <> PANIC -> with_context r e <> panic.
Proof.
  destruct r as [|e']; cbn; [done|]. intros H He. case_bool_decide; [by subst|]. intros [= ?]. done.
Qed.
Lemma no_panic_try_fold {A B} (f : B -> A -> result B) b l :
  (forall b x, f b x <> panic) -> try_fold f b l <> panic.
Proof.
  intros Hf. revert b. induction l as [|x l IH]; intros b; cbn [try_fold]; [done|].
  apply no_panic_bind; auto.
Qed.
Ltac no_panic_step :=
  lazymatch goal with
  | |- (if ?b then _ else Err _) <> panic => destruct b eqn:?; [|discriminate]
  | |- (if ?b then _ else _) <> panic => destruct b eqn:?
  | |- Ok _ <> panic => discriminate
  | |- Err _ <> panic => discriminate
  | |- mbind _ _ <> panic => apply no_panic_bind; [|intros ? ?]
  | |- ok_or _ _ <> panic => apply no_panic_ok_or; discriminate
  | |- with_context _ _ <> panic => apply no_panic_with_context; [|discriminate]
  | |- try_fold _ _ _ <> panic => apply no_panic_try_fold; intros ? ?
  | |- match ?x with _ => _ end <> panic => destruct x eqn:?
  end.
Ltac no_panic := cbv zeta beta; repeat (no_panic_step; cbv zeta beta); eauto with no_panic.

(** Invert a chain of option binds [H : m = Some x]. *)
Ltac opt_inv H :=
  repeat lazymatch type of H with
  | mbind _ _ = Some _ =>
      let x := fresh "x" in let Hx := fresh "Hx" in
      apply bind_Some in H; destruct H as (x & Hx & H)
  | Some _ = Some _ => injection H as H; subst
  end.

(** ** Shared lemmas *)

Lemma llen_nil {A} : llen (@nil A) = 0%N.
Proof. reflexivity. Qed.
Lemma llen_cons {A} (x : A) l : llen (x :: l) = N.succ (llen l).
Proof. unfold llen. cbn [length]. lia. Qed.
Lemma llen_app {A} (l k : list A) : llen (l ++ k) = (llen l + llen k)%N.
Proof. unfold llen. rewrite length_app. lia. Qed.
Lemma llen_zero {A} (l : list A) : llen l = 0%N <-> l = [].
Proof. destruct l; [done|]. rewrite llen_cons. split; [lia|done]. Qed.

Lemma checked_add_Some max a b c :
  checked_add max a b = Some c <-> c = (a + b)%N /\ (a + b <= max)%N.
Proof.
  unfold checked_add. destruct (N.leb_spec (a + b) max); split; intros; simplify_eq; auto.
  - intuition congruence.
  - intuition lia.
Qed.
Lemma checked_add_None max a b : checked_add max a b = None <-> (max < a + b)%N.
Proof. unfold checked_add. destruct (N.leb_spec (a + b) max); split; intros; simplify_eq; auto; lia. Qed.
Lemma checked_sub_Some a b c : checked_sub a b = Some c <-> c = (a - b)%N /\ (b <= a)%N.
Proof.
  unfold checked_sub. destruct (N.leb_spec b a); split; intros; simplify_eq; auto.
  - intuition congruence.
  - intuition lia.
Qed.

Lemma as_u32_small n : (n <= U32_MAX)%N -> as_u32 n = n.
Proof. unfold as_u32, U32_MAX. intros. apply N.mod_small. lia. Qed.

Lemma be_bytes_roundtrip v : (v <= U32_MAX)%N -> from_be_bytes (to_be_bytes v) = v.
Proof.
  unfold U32_MAX, from_be_bytes, to_be_bytes. intros Hv. cbn [foldl].
  rewrite !N.shiftr_div_pow2. change (2 ^ 24)%N with (256 * 256 * 256)%N.
  change (2 ^ 16)%N with (256 * 256)%N. change (2 ^ 8)%N with 256%N.
  rewrite <- !N.Div0.div_div.
  pose proof (N.div_mod v 256). pose proof (N.div_mod (v / 256) 256).
  pose proof (N.div_mod (v / 256 / 256) 256).
  rewrite (N.mod_small (v / 256 / 256 / 256) 256); [lia|].
  apply N.Div0.div_lt_upper_bound, N.Div0.div_lt_upper_bound, N.Div0.div_lt_upper_bound. lia.
Qed.
Lemma be_bytes_inverse b :
  length b = 4%nat -> Forall (fun x => x < 256)%N b -> to_be_bytes (from_be_bytes b) = b.
Proof.
  destruct b as [|b0 [|b1 [|b2 [|b3 [|]]]]]; try discriminate. intros _ Hb.
  rewrite !Forall_cons in Hb. destruct Hb as (H0 & H1 & H2 & H3 & _).
  unfold to_be_bytes, from_be_bytes. cbn [foldl]. rewrite !N.shiftr_div_pow2.
  change (2 ^ 24)%N with (256 * 256 * 256)%N. change (2 ^ 16)%N with (256 * 256)%N.
  change (2 ^ 8)%N with 256%N. rewrite <- !N.Div0.div_div.
  assert (Hs : forall a x, (x < 256)%N -> ((a * 256 + x) / 256 = a /\ (a * 256 + x) mod 256 = x)%N).
  { intros a x Hx. rewrite N.add_comm, N.div_add, N.Div0.mod_add by lia.
    split; [rewrite N.div_small by done; done|by apply N.mod_small]. }
  rewrite N.mul_0_l, N.add_0_l.
  destruct (Hs ((b0 * 256 + b1) * 256 + b2)%N b3 H3) as [-> ->].
  destruct (Hs (b0 * 256 + b1)%N b2 H2) as [-> ->].
  destruct (Hs b0 b1 H1) as [-> ->]. by rewrite N.mod_small.
Qed.
Lemma length_to_be_bytes v : length (to_be_bytes v) = 4%nat.
Proof. reflexivity. Qed.

Lemma from_be_bytes_bound b :
  length b = 4%nat -> Forall (fun x => x < 256)%N b -> (from_be_bytes b <= U32_MAX)%N.
Proof.
  destruct b as [|b0 [|b1 [|b2 [|b3 [|]]]]]; try discriminate. intros _ Hb.
  rewrite !Forall_cons in Hb. destruct Hb as (H0 & H1 & H2 & H3 & _).
  unfold from_be_bytes, U32_MAX. cbn [foldl]. lia.
Qed.
Lemma to_be_bytes_bytes v : Forall (fun x => x < 256)%N (to_be_bytes v).
Proof. repeat constructor; apply N.mod_lt; lia. Qed.

Lemma elem_of_middle {A} (x y : A) l k : x ∈ l ++ k -> x ∈ l ++ y :: k.
Proof. rewrite !elem_of_app, elem_of_cons. tauto. Qed.

(** Rule induction: a predicate that every step preserves holds of every
    reachable state. *)
Lemma rtc_invariant {A} (R : relation A) (P : A -> Prop) x y :
  P x -> (forall a b, P a -> R a b -> P b) -> rtc R x y -> P y.
Proof. intros Hx Hs. induction 1; eauto. Qed.

(** Induction principle of [try_fold] as an invariant. *)
Lemma try_fold_app {A B} (f : B -> A -> result B) b l k :
  try_fold f b (l ++ k) = (b' ← try_fold f b l; try_fold f b' k).
Proof.
  revert b. induction l as [|x l IH]; intros b; [done|]. cbn.
  destruct (f b x); cbn; [apply IH|done].
Qed.

Lemma try_fold_inv {A B} (f : B -> A -> result B) (P : list A -> B -> Prop) b l b' :
  P [] b ->
  (forall k x b1 b2, P k b1 -> f b1 x = Ok b2 -> P (k ++ [x]) b2) ->
  try_fold f b l = Ok b' -> P l b'.
Proof.
  intros H0 Hs. revert b'. induction l as [|x l IH] using rev_ind; intros b' H.
  - cbn in H. by simplify_eq.
  - rewrite try_fold_app in H. ok_inv H. cbn in H. ok_inv H. eauto.
Qed.

(** A loop that only checks its elements. *)
Lemma try_fold_unit_Ok {A} (f : unit -> A -> result unit) l :
  try_fold f tt l = Ok tt <-> Forall (fun x => f tt x = Ok tt) l.
Proof.
  induction l as [|x l IH]; cbn; [by split; constructor|].
  rewrite Forall_cons. destruct (f tt x) as [[]|e]; cbn; [rewrite IH|]; intuition congruence.
Qed.

Lemma mapM_result_Ok {A B} (f : A -> result B) l k :
  mapM f l = Ok k <-> Forall2 (fun x y => f x = Ok y) l k.
Proof.
  revert k. induction l as [|x l IH]; intros k; cbn.
  - split; intros H; [injection H as <-; constructor|by inversion H].
  - destruct (f x) as [y|e] eqn:E; cbn.
    + destruct (mapM f l) as [ys|] eqn:E2; cbn; split.
      * intros H. injection H as <-. constructor; [done|by apply IH].
      * inversion 1 as [|???? Hx Hk]; subst. f_equal. apply IH in Hk. congruence.
      * done.
      * inversion 1 as [|???? Hx Hk]; subst. apply IH in Hk. congruence.
    + split; [done|inversion 1; congruence].
Qed.

(** The smallest key is a key and a lower bound. *)
Lemma first_key_Some {A} (m : gmap N A) k :
  first_key m = Some k <-> is_Some (m !! k) /\ forall k', is_Some (m !! k') -> (k <= k')%N.
Proof.
  unfold first_key.
  assert (Hd : forall k', is_Some (m !! k') <-> k' ∈ (map_to_list m).*1).
  { intros k'. rewrite <- elem_of_dom. rewrite list_elem_of_fmap. split.
    - intros [v Hv]%elem_of_dom. exists (k', v). split; [done|by apply elem_of_map_to_list].
    - intros ([k1 v] & -> & Hin). apply elem_of_dom. exists v. by apply elem_of_map_to_list. }
  setoid_rewrite Hd. generalize ((map_to_list m).*1) as l. clear Hd m.
  induction l as [|x l IH] in k |- *; cbn.
  - split; [done|]. intros [H _]. by apply elem_of_nil in H.
  - match goal with |- context [foldr ?f None l] => set (o := foldr f None l) in * end.
    destruct o as [k0|] eqn:Eo.
    + assert (Hk0 : k0 ∈ l /\ forall k', k' ∈ l -> (k0 <= k')%N) by (by apply IH).
      destruct Hk0 as [Hin Hmin]. split.
      * intros [= <-]. split.
        -- destruct (N.min_spec x k0) as [[_ ->]|[_ ->]]; set_solver.
        -- intros k' [->|H]%elem_of_cons; [lia|]. specialize (Hmin _ H). lia.
      * intros [[->|H]%elem_of_cons Hb]; f_equal.
        -- specialize (Hb k0). set_unfold. specialize (Hb (or_intror Hin)). lia.
        -- specialize (Hmin _ H). pose proof (Hb x ltac:(set_solver)).
           pose proof (Hb k0 ltac:(set_solver)). lia.
    + assert (l = []) as ->.
      { destruct l as [|y l]; [done|]. cbn in Eo. subst o. by case_match. }
      split; [intros [= <-]|intros [H _]; f_equal; set_solver].
      split; [set_solver|]. intros k' H. set_unfold. destruct H; [lia|done].
Qed.

Lemma first_key_None {A} (m : gmap N A) : first_key m = None <-> m = ∅.
Proof.
  split.
  - intros H. apply map_eq. intros k. rewrite lookup_empty.
    destruct (m !! k) eqn:E; [|done]. exfalso.
    unfold first_key in H. destruct ((map_to_list m).*1) eqn:El; cbn in H.
    + apply fmap_nil_inv in El. apply map_to_list_empty_iff in El. by rewrite El, lookup_empty in E.
    + by case_match.
  - intros ->. unfold first_key. by rewrite map_to_list_empty.
Qed.

(** ** Loops that build a map and refuse duplicate keys

    The source validates repeated tables with a loop that checks an element and
    inserts it under its key, failing when the key is already present.  [f] is
    such a loop body: it succeeds exactly on elements that satisfy [chk] and
    whose key is new. *)
Section insert_loop.
Context {A K V : Type} `{Countable K}.
Context (f : gmap K V -> A -> result (gmap K V)) (chk : A -> Prop) (key : A -> K) (val : A -> V).
Hypothesis f_spec : forall m x m',
  f m x = Ok m' <-> chk x /\ m !! key x = None /\ m' = <[key x := val x]> m.

Lemma insert_loop_sound l m' :
  try_fold f ∅ l = Ok m' ->
  Forall chk l /\ NoDup (key <$> l) /\
  forall k v, m' !! k = Some v <-> exists x, x ∈ l /\ key x = k /\ val x = v.
Proof.
  apply (try_fold_inv f (fun l m' => Forall chk l /\ NoDup (key <$> l) /\
    forall k v, m' !! k = Some v <-> exists x, x ∈ l /\ key x = k /\ val x = v)).
  - split_and!; [constructor|constructor|]. intros k v. rewrite lookup_empty.
    split; [done|]. intros (x & Hx & _). by apply elem_of_nil in Hx.
  - intros l0 x b1 b2 (Hc & Hnd & Hl) (Hx & Hnone & ->)%f_spec. split_and!.
    + apply Forall_app. by repeat constructor.
    + rewrite fmap_app. apply NoDup_app. split_and!; [done| |apply NoDup_singleton].
      intros k (y & -> & Hy)%list_elem_of_fmap Hk%list_elem_of_singleton.
      assert (b1 !! key y = Some (val y)) by (apply Hl; eauto). congruence.
    + intros k v. rewrite lookup_insert. case_decide as Hk.
      * subst k. split; [intros [= <-]; exists x; set_solver|].
        intros (y & [Hy|Hy%list_elem_of_singleton]%elem_of_app & Hky & <-); [|by subst].
        assert (b1 !! key y = Some (val y)) by (apply Hl; eauto). congruence.
      * rewrite Hl. split; [intros (y & ? & ?); exists y; set_solver|].
        intros (y & [Hy|Hy%list_elem_of_singleton]%elem_of_app & Hky & <-); [eauto|by subst].
Qed.

Lemma insert_loop_complete_from m l :
  Forall chk l -> NoDup (key <$> l) -> (forall x, x ∈ l -> m !! key x = None) ->
  exists m', try_fold f m l = Ok m'.
Proof.
  revert m. induction l as [|x l IH]; intros m Hc Hnd Hm; [by eexists|].
  apply Forall_cons in Hc as [Hx Hc]. cbn in Hnd. apply NoDup_cons in Hnd as [Hni Hnd]. cbn [try_fold].
  assert (f m x = Ok (<[key x := val x]> m)) as ->
    by (apply f_spec; split_and!; [done|apply Hm; left|done]).
  apply IH; [done|done|]. intros y Hy. rewrite lookup_insert_ne; [apply Hm; by right|].
  intros Heq. apply Hni. rewrite Heq. by apply list_elem_of_fmap_2.
Qed.

Lemma insert_loop_complete l :
  Forall chk l -> NoDup (key <$> l) -> exists m', try_fold f ∅ l = Ok m'.
Proof. intros. apply insert_loop_complete_from; [done|done|]. intros. apply lookup_empty. Qed.
End insert_loop.

(** The same loop over a set of the keys seen so far. *)
Section insert_set_loop.
Context {A K : Type} `{Countable K}.
Context (f : gset K -> A -> result (gset K)) (chk : A -> Prop) (key : A -> K).
Hypothesis f_spec : forall m x m',
  f m x = Ok m' <-> chk x /\ (key x ∉ m) /\ m' = {[key x]} ∪ m.

Lemma insert_set_loop_from m l :
  is_ok (try_fold f m l) = true <->
  Forall chk l /\ NoDup (key <$> l) /\ forall x, x ∈ l -> key x ∉ m.
Proof.
  revert m. induction l as [|x l IH]; intros m; cbn [try_fold].
  - cbn. split; [|done]. intros _. split_and!; [constructor|constructor|].
    intros x Hx. by apply elem_of_nil in Hx.
  - rewrite fmap_cons, NoDup_cons, Forall_cons.
    destruct (f m x) as [m'|e] eqn:E; cbn [mbind result_bind].
    + apply f_spec in E as (Hx & Hn & ->). rewrite IH. split.
      * intros (Hc & Hnd & Hm). split_and!; [done|done| |done|].
        -- intros (y & Hk & Hy)%list_elem_of_fmap. specialize (Hm y Hy). set_solver.
        -- intros y [->|Hy]%elem_of_cons; [done|]. specialize (Hm y Hy). set_solver.
      * intros ((_ & Hc) & (Hni & Hnd) & Hm). split_and!; [done|done|].
        intros y Hy Hin. apply elem_of_union in Hin as [Hin%elem_of_singleton|Hin].
        -- apply Hni. rewrite <- Hin. by apply list_elem_of_fmap_2.
        -- apply (Hm y); [by right|done].
    + split; [done|]. intros ((Hx & _) & _ & Hm).
      assert (f m x = Ok ({[key x]} ∪ m)) by (apply f_spec; split_and!; [done|apply Hm; left|done]).
      congruence.
Qed.

Lemma insert_set_loop l :
  is_ok (try_fold f ∅ l) = true <-> Forall chk l /\ NoDup (key <$> l).
Proof. rewrite insert_set_loop_from. split; [tauto|]. intros [? ?]. split_and!; set_solver. Qed.
End insert_set_loop.
