(* ===== verification/Resources.v ===== *)
(** * Resource accounting (src/src/resources.rs)

    Claims, limits and policies; resource pools guarded by one mutex each;
    layered accounts (global pool, then user pool); the governor's registry of
    user pools.  Pools are shared between threads ([Arc]), so they live in a
    store indexed by pool identity; one critical section of a pool's mutex is
    one step of the transition system [pool_step]. *)
From S2P Require Import Prelude.
Open Scope N_scope.

Definition MIB : N := 1024 * 1024.
Definition GIB : N := 1024 * MIB.
Definition DEFAULT_TERMINAL_HISTORY_ROWS : N := 10000.
Definition MAX_TERMINAL_HISTORY_ROWS : N := 1000000.
Definition MAX_TERMINAL_HISTORY_BYTES : N := GIB.

Record ResourceClaim := mkClaim {
  rc_connections : N;
  rc_streams : N;
  rc_workers : N;
  rc_terminals : N;
  rc_attachments : N;
  rc_terminal_memory_bytes : N;
  rc_history_bytes : N;
  rc_forward_connections : N;
  rc_forward_buffer_bytes : N;
  rc_file_handles : N;
  rc_uploads : N;
  rc_upload_bytes : N
}.
#[global] Instance ResourceClaim_eq_dec : EqDecision ResourceClaim.
Proof. solve_decision. Defined.

(** [ResourceClaim::default()] (derived). *)
Definition claim_default : ResourceClaim := mkClaim 0 0 0 0 0 0 0 0 0 0 0 0.

Definition claim_connection : ResourceClaim := mkClaim 1 0 0 0 0 0 0 0 0 0 0 0.
Definition claim_stream : ResourceClaim := mkClaim 0 1 0 0 0 0 0 0 0 0 0 0.
Definition claim_attachment : ResourceClaim := mkClaim 0 0 0 0 1 0 0 0 0 0 0 0.
Definition claim_file_handle : ResourceClaim := mkClaim 0 0 0 0 0 0 0 0 0 1 0 0.
Definition claim_upload (n : N) : ResourceClaim := mkClaim 0 0 0 0 0 0 0 0 0 0 1 n.

Definition claim_checked_add (a b : ResourceClaim) : option ResourceClaim :=
  connections ← checked_add U64_MAX (rc_connections a) (rc_connections b);
  streams ← checked_add U64_MAX (rc_streams a) (rc_streams b);
  workers ← checked_add U64_MAX (rc_workers a) (rc_workers b);
  terminals ← checked_add U64_MAX (rc_terminals a) (rc_terminals b);
  attachments ← checked_add U64_MAX (rc_attachments a) (rc_attachments b);
  terminal_memory_bytes ← checked_add U64_MAX (rc_terminal_memory_bytes a) (rc_terminal_memory_bytes b);
  history_bytes ← checked_add U64_MAX (rc_history_bytes a) (rc_history_bytes b);
  forward_connections ← checked_add U64_MAX (rc_forward_connections a) (rc_forward_connections b);
  forward_buffer_bytes ← checked_add U64_MAX (rc_forward_buffer_bytes a) (rc_forward_buffer_bytes b);
  file_handles ← checked_add U64_MAX (rc_file_handles a) (rc_file_handles b);
  uploads ← checked_add U64_MAX (rc_uploads a) (rc_uploads b);
  upload_bytes ← checked_add U64_MAX (rc_upload_bytes a) (rc_upload_bytes b);
  Some (mkClaim connections streams workers terminals attachments terminal_memory_bytes
          history_bytes forward_connections forward_buffer_bytes file_handles uploads upload_bytes).

Definition claim_checked_sub (a b : ResourceClaim) : option ResourceClaim :=
  connections ← checked_sub (rc_connections a) (rc_connections b);
  streams ← checked_sub (rc_streams a) (rc_streams b);
  workers ← checked_sub (rc_workers a) (rc_workers b);
  terminals ← checked_sub (rc_terminals a) (rc_terminals b);
  attachments ← checked_sub (rc_attachments a) (rc_attachments b);
  terminal_memory_bytes ← checked_sub (rc_terminal_memory_bytes a) (rc_terminal_memory_bytes b);
  history_bytes ← checked_sub (rc_history_bytes a) (rc_history_bytes b);
  forward_connections ← checked_sub (rc_forward_connections a) (rc_forward_connections b);
  forward_buffer_bytes ← checked_sub (rc_forward_buffer_bytes a) (rc_forward_buffer_bytes b);
  file_handles ← checked_sub (rc_file_handles a) (rc_file_handles b);
  uploads ← checked_sub (rc_uploads a) (rc_uploads b);
  upload_bytes ← checked_sub (rc_upload_bytes a) (rc_upload_bytes b);
  Some (mkClaim connections streams workers terminals attachments terminal_memory_bytes
          history_bytes forward_connections forward_buffer_bytes file_handles uploads upload_bytes).

Definition dimensions (c : ResourceClaim) : list (string * N) :=
  [("connections", rc_connections c);
   ("streams", rc_streams c);
   ("workers", rc_workers c);
   ("terminals", rc_terminals c);
   ("attachments", rc_attachments c);
   ("terminal_memory_bytes", rc_terminal_memory_bytes c);
   ("history_bytes", rc_history_bytes c);
   ("forward_connections", rc_forward_connections c);
   ("forward_buffer_bytes", rc_forward_buffer_bytes c);
   ("file_handles", rc_file_handles c);
   ("uploads", rc_uploads c);
   ("upload_bytes", rc_upload_bytes c)]%string.

(** [None] is the panic of the final [expect]. *)
Definition value (c : ResourceClaim) (name : string) : option N :=
  find_map (fun '(candidate, v) => if bool_decide (candidate = name) then Some v else None)
    (dimensions c).

Record ResourceLimits := mkLimits {
  rl_connections : N;
  rl_streams : N;
  rl_workers : N;
  rl_terminals : N;
  rl_attachments : N;
  rl_terminal_memory_bytes : N;
  rl_history_bytes : N;
  rl_forward_connections : N;
  rl_forward_buffer_bytes : N;
  rl_file_handles : N;
  rl_uploads : N;
  rl_upload_bytes : N
}.
#[global] Instance ResourceLimits_eq_dec : EqDecision ResourceLimits.
Proof. solve_decision. Defined.

Definition global_defaults : ResourceLimits := {|
  rl_connections := 1024;
  rl_streams := 8192;
  rl_workers := 64;
  rl_terminals := 4096;
  rl_attachments := 16384;
  rl_terminal_memory_bytes := 16 * GIB;
  rl_history_bytes := 32 * GIB;
  rl_forward_connections := 256;
  rl_forward_buffer_bytes := 64 * MIB;
  rl_file_handles := 16384;
  rl_uploads := 1024;
  rl_upload_bytes := 512 * GIB
|}.

Definition user_defaults : ResourceLimits := {|
  rl_connections := 8;
  rl_streams := 256;
  rl_workers := 1;
  rl_terminals := 64;
  rl_attachments := 256;
  rl_terminal_memory_bytes := 256 * MIB;
  rl_history_bytes := 512 * MIB;
  rl_forward_connections := 32;
  rl_forward_buffer_bytes := 8 * MIB;
  rl_file_handles := 256;
  rl_uploads := 16;
  rl_upload_bytes := 8 * GIB
|}.

Definition as_claim (l : ResourceLimits) : ResourceClaim := {|
  rc_connections := rl_connections l;
  rc_streams := rl_streams l;
  rc_workers := rl_workers l;
  rc_terminals := rl_terminals l;
  rc_attachments := rl_attachments l;
  rc_terminal_memory_bytes := rl_terminal_memory_bytes l;
  rc_history_bytes := rl_history_bytes l;
  rc_forward_connections := rl_forward_connections l;
  rc_forward_buffer_bytes := rl_forward_buffer_bytes l;
  rc_file_handles := rl_file_handles l;
  rc_uploads := rl_uploads l;
  rc_upload_bytes := rl_upload_bytes l
|}.

Definition limits_validate (l : ResourceLimits) : result unit :=
  try_fold (fun _ '(resource, limit) =>
    ensure! (0 <? limit) || String.prefix "forward_" resource, "limit must be nonzero";
    Ok tt) tt (dimensions (as_claim l)).

Record ResourcePolicy := mkPolicy {
  rp_global : ResourceLimits;
  rp_user : ResourceLimits;
  rp_terminal_base_memory_bytes : N;
  rp_terminal_cell_memory_bytes : N;
  rp_terminal_history_rows : N;
  rp_terminal_history_bytes : N
}.

Definition policy_default : ResourcePolicy := {|
  rp_global := global_defaults;
  rp_user := user_defaults;
  rp_terminal_base_memory_bytes := 4 * MIB;
  rp_terminal_cell_memory_bytes := 64;
  rp_terminal_history_rows := DEFAULT_TERMINAL_HISTORY_ROWS;
  rp_terminal_history_bytes := 8 * MIB
|}.

Definition policy_validate (p : ResourcePolicy) : result unit :=
  _ ← limits_validate (rp_global p);
  _ ← limits_validate (rp_user p);
  ensure! rl_workers (rp_user p) =? 1,
    "each Unix user must own exactly one managed worker capacity";
  ensure! (0 <? rp_terminal_base_memory_bytes p) && (0 <? rp_terminal_cell_memory_bytes p)
          && (0 <? rp_terminal_history_rows p) && (0 <? rp_terminal_history_bytes p),
    "per-terminal capacity values must be nonzero";
  ensure! rp_terminal_history_rows p <=? MAX_TERMINAL_HISTORY_ROWS,
    "per-terminal history rows exceed the server hard limit";
  ensure! rp_terminal_history_bytes p <=? MAX_TERMINAL_HISTORY_BYTES,
    "per-terminal history bytes exceed the server hard limit";
  ensure! rp_terminal_base_memory_bytes p <=? rl_terminal_memory_bytes (rp_user p),
    "user terminal memory must fit one terminal base reservation";
  ensure! rp_terminal_history_bytes p <=? rl_history_bytes (rp_user p),
    "user history capacity must fit one terminal reservation";
  try_fold (fun _ '(resource, user_limit) =>
    global_limit ← ok_or (value (as_claim (rp_global p)) resource) "resource dimension must exist";
    ensure! user_limit <=? global_limit, "global limit must fit one complete user capacity";
    Ok tt) tt (dimensions (as_claim (rp_user p))).

Definition worker_capacity_claim (p : ResourcePolicy) : ResourceClaim := {|
  rc_connections := 0;
  rc_streams := 0;
  rc_workers := 1;
  rc_terminals := rl_terminals (rp_user p);
  rc_attachments := rl_attachments (rp_user p);
  rc_terminal_memory_bytes := rl_terminal_memory_bytes (rp_user p);
  rc_history_bytes := rl_history_bytes (rp_user p);
  rc_forward_connections := rl_forward_connections (rp_user p);
  rc_forward_buffer_bytes := rl_forward_buffer_bytes (rp_user p);
  rc_file_handles := rl_file_handles (rp_user p);
  rc_uploads := rl_uploads (rp_user p);
  rc_upload_bytes := rl_upload_bytes (rp_user p)
|}.

(** [ResourceClaim::terminal]. *)
Definition claim_terminal (rows columns : N) (policy : ResourcePolicy) : result ResourceClaim :=
  cells ← ok_or (checked_mul U64_MAX rows columns) "terminal cell count overflow";
  grid_bytes ← ok_or (checked_mul U64_MAX cells (rp_terminal_cell_memory_bytes policy))
                 "terminal memory claim overflow";
  Ok (mkClaim 0 0 0 1 0 (N.max grid_bytes (rp_terminal_base_memory_bytes policy))
        (rp_terminal_history_bytes policy) 0 0 0 0 0).

Record QuotaExceeded := mkQuota {
  q_scope : string;
  q_resource : string;
  q_requested : N;
  q_current : N;
  q_limit : N
}.

(** [ResourcePoolInner]: the mutex-guarded usage of one pool. *)
Record ResourcePoolInner := mkPool {
  pool_scope : string;
  pool_limits : ResourceLimits;
  pool_usage : ResourceClaim
}.

Definition pool_new (scope : string) (limits : ResourceLimits) : result ResourcePoolInner :=
  _ ← limits_validate limits;
  Ok (mkPool scope limits claim_default).

Definition set_usage (u : ResourceClaim) (p : ResourcePoolInner) : ResourcePoolInner :=
  mkPool (pool_scope p) (pool_limits p) u.

(** The loop of [ResourcePool::reserve] over the claim's dimensions: the first
    dimension of [next] over its limit, or a panic of [value]. *)
Fixpoint reserve_check (p : ResourcePoolInner) (next : ResourceClaim) (dims : list (string * N))
    : outcome QuotaExceeded unit :=
  match dims with
  | [] => Returned tt
  | (resource, requested) :: dims =>
      match value (pool_usage p) resource, value (as_claim (pool_limits p)) resource,
            value next resource with
      | Some current, Some limit, Some n =>
          if limit <? n
          then Failed (mkQuota (pool_scope p) resource requested current limit)
          else reserve_check p next dims
      | _, _, _ => Panicked
      end
  end.

(** [ResourcePool::reserve]: one critical section. *)
Definition pool_reserve (p : ResourcePoolInner) (claim : ResourceClaim)
    : outcome QuotaExceeded ResourcePoolInner :=
  match claim_checked_add (pool_usage p) claim with
  | None => Failed (mkQuota (pool_scope p) "counter" 1 U64_MAX U64_MAX)
  | Some next =>
      match reserve_check p next (dimensions claim) with
      | Returned _ => Returned (set_usage next p)
      | Failed q => Failed q
      | Panicked => Panicked
      end
  end.

(** [PoolReservation::drop]: one critical section; [None] is the panic
    "resource reservation accounting underflow". *)
Definition pool_drop (p : ResourcePoolInner) (claim : ResourceClaim) : option ResourcePoolInner :=
  u ← claim_checked_sub (pool_usage p) claim; Some (set_usage u p).

(** ** Shared pools, accounts, governor *)

(** A pool handle ([Arc<ResourcePoolInner>]) is a key (a number) of the store. *)
Abbreviation PoolStore := (gmap N ResourcePoolInner).

Record PoolReservation := mkReservation { res_pool : N; res_claim : ResourceClaim }.
Definition ResourceAccount := list N.

(** Dropping the reservations of a vector, in order. *)
Fixpoint drop_reservations (s : PoolStore) (rs : list PoolReservation) : option PoolStore :=
  match rs with
  | [] => Some s
  | r :: rs =>
      p ← s !! res_pool r;
      p' ← pool_drop p (res_claim r);
      drop_reservations (<[res_pool r := p']> s) rs
  end.

(** The loop of [ResourceAccount::reserve]; [reservations] is the vector built
    so far, dropped when a pool refuses. *)
Fixpoint account_reserve_loop (s : PoolStore) (pools : ResourceAccount) (claim : ResourceClaim)
    (reservations : list PoolReservation)
    : PoolStore * outcome QuotaExceeded (list PoolReservation) :=
  match pools with
  | [] => (s, Returned reservations)
  | pool :: pools =>
      match s !! pool with
      | None => (s, Panicked)
      | Some p =>
          match pool_reserve p claim with
          | Returned p' =>
              account_reserve_loop (<[pool := p']> s) pools claim
                (reservations ++ [mkReservation pool claim])
          | Failed q =>
              match drop_reservations s reservations with
              | Some s' => (s', Failed q)
              | None => (s, Panicked)
              end
          | Panicked => (s, Panicked)
          end
      end
  end.

Definition account_reserve (s : PoolStore) (account : ResourceAccount) (claim : ResourceClaim)
    : PoolStore * outcome QuotaExceeded (list PoolReservation) :=
  account_reserve_loop s account claim [].

Record ResourceGovernor := mkGovernor {
  gov_global : N;
  gov_users : gmap string N;
  gov_user_limits : ResourceLimits
}.

(** [ResourceGovernor::new], allocating the global pool under a fresh handle. *)
Definition governor_new (s : PoolStore) (fresh : N) (policy : ResourcePolicy)
    : result (PoolStore * ResourceGovernor) :=
  _ ← policy_validate policy;
  global ← pool_new "global" (rp_global policy);
  Ok (<[fresh := global]> s, mkGovernor fresh ∅ (rp_user policy)).

(** [ResourceGovernor::account]; [fresh] is the handle of a new pool. *)
Definition governor_account (s : PoolStore) (g : ResourceGovernor) (fresh : N) (user : string)
    : result (PoolStore * ResourceGovernor * ResourceAccount) :=
  ensure! negb (bool_decide (user = "")), "resource account user is empty";
  match gov_users g !! user with
  | Some pool => Ok (s, g, [gov_global g; pool])
  | None =>
      pool ← pool_new ("user " +:+ user) (gov_user_limits g);
      Ok (<[fresh := pool]> s,
          mkGovernor (gov_global g) (<[user := fresh]> (gov_users g)) (gov_user_limits g),
          [gov_global g; fresh])
  end.

(** ** Interleaved threads

    The state other threads observe: the pools and the reservations that are
    alive.  A step is one critical section. *)
Record PoolSystem := mkPoolSystem {
  ps_pools : PoolStore;
  ps_live : list PoolReservation
}.

Inductive pool_step : PoolSystem -> PoolSystem -> Prop :=
| step_create st id scope limits p :
    ps_pools st !! id = None ->
    pool_new scope limits = Ok p ->
    pool_step st (mkPoolSystem (<[id := p]> (ps_pools st)) (ps_live st))
| step_reserve st id p claim p' :
    ps_pools st !! id = Some p ->
    pool_reserve p claim = Returned p' ->
    pool_step st (mkPoolSystem (<[id := p']> (ps_pools st)) (mkReservation id claim :: ps_live st))
| step_refuse st id p claim q :
    ps_pools st !! id = Some p ->
    pool_reserve p claim = Failed q ->
    pool_step st st
| step_drop st before r after p p' :
    ps_live st = before ++ r :: after ->
    ps_pools st !! res_pool r = Some p ->
    pool_drop p (res_claim r) = Some p' ->
    pool_step st (mkPoolSystem (<[res_pool r := p']> (ps_pools st)) (before ++ after)).

Definition pool_init : PoolSystem := mkPoolSystem ∅ [].
Definition pool_reachable (st : PoolSystem) : Prop := rtc pool_step pool_init st.

(** ** Lemmas *)

Definition claim_add (a b : ResourceClaim) : ResourceClaim :=
  mkClaim (rc_connections a + rc_connections b) (rc_streams a + rc_streams b)
    (rc_workers a + rc_workers b) (rc_terminals a + rc_terminals b)
    (rc_attachments a + rc_attachments b)
    (rc_terminal_memory_bytes a + rc_terminal_memory_bytes b)
    (rc_history_bytes a + rc_history_bytes b)
    (rc_forward_connections a + rc_forward_connections b)
    (rc_forward_buffer_bytes a + rc_forward_buffer_bytes b)
    (rc_file_handles a + rc_file_handles b) (rc_uploads a + rc_uploads b)
    (rc_upload_bytes a + rc_upload_bytes b).

Definition claim_le (a b : ResourceClaim) : Prop :=
  rc_connections a <= rc_connections b /\ rc_streams a <= rc_streams b /\
  rc_workers a <= rc_workers b /\ rc_terminals a <= rc_terminals b /\
  rc_attachments a <= rc_attachments b /\
  rc_terminal_memory_bytes a <= rc_terminal_memory_bytes b /\
  rc_history_bytes a <= rc_history_bytes b /\
  rc_forward_connections a <= rc_forward_connections b /\
  rc_forward_buffer_bytes a <= rc_forward_buffer_bytes b /\
  rc_file_handles a <= rc_file_handles b /\ rc_uploads a <= rc_uploads b /\
  rc_upload_bytes a <= rc_upload_bytes b.

Definition claim_max : ResourceClaim :=
  mkClaim U64_MAX U64_MAX U64_MAX U64_MAX U64_MAX U64_MAX U64_MAX U64_MAX U64_MAX U64_MAX U64_MAX U64_MAX.

Definition claim_sum (l : list ResourceClaim) : ResourceClaim := foldr claim_add claim_default l.

(** Claims are compared and added field by field. *)
Ltac claim_crush :=
  repeat match goal with c : ResourceClaim |- _ => destruct c end;
  unfold claim_le, claim_add, claim_default, claim_max in *; cbn in *.

Lemma claim_add_assoc a b c : claim_add a (claim_add b c) = claim_add (claim_add a b) c.
Proof. claim_crush. f_equal; lia. Qed.
Lemma claim_add_comm a b : claim_add a b = claim_add b a.
Proof. claim_crush. f_equal; lia. Qed.
Lemma claim_add_0_r a : claim_add a claim_default = a.
Proof. claim_crush. f_equal; lia. Qed.
Lemma claim_le_trans a b c : claim_le a b -> claim_le b c -> claim_le a c.
Proof. claim_crush. intros. intuition lia. Qed.
Lemma claim_le_add_l a b : claim_le a (claim_add b a).
Proof. claim_crush. intuition lia. Qed.

Lemma claim_sum_app l k : claim_sum (l ++ k) = claim_add (claim_sum l) (claim_sum k).
Proof.
  induction l as [|c l IH]; cbn [app claim_sum foldr].
  - rewrite claim_add_comm. symmetry. apply claim_add_0_r.
  - fold (claim_sum (l ++ k)) (claim_sum l). by rewrite IH, claim_add_assoc.
Qed.

Lemma claim_checked_add_Some a b c :
  claim_checked_add a b = Some c <-> c = claim_add a b /\ claim_le (claim_add a b) claim_max.
Proof.
  unfold claim_checked_add. split.
  - intros H. opt_inv H. repeat match goal with
    | H : checked_add _ _ _ = Some _ |- _ => apply checked_add_Some in H as [-> ?] end. split; [done|]. unfold claim_le, claim_add, claim_max. cbn. tauto.
  - intros [-> H]. unfold claim_le, claim_add, claim_max in H. cbn in H. destruct_and! H.
    repeat (apply bind_Some; eexists; split; [apply checked_add_Some; split; [reflexivity|done]|]).
    done.
Qed.

Lemma claim_checked_sub_add a b : claim_checked_sub (claim_add a b) b = Some a.
Proof.
  unfold claim_checked_sub.
  repeat (apply bind_Some; eexists; split; [apply checked_sub_Some; split; [reflexivity|cbn; lia]|]).
  claim_crush. do 2 f_equal; lia.
Qed.

(** The dimension names are distinct, so [value] reads the named field. *)
Lemma value_dimension c c' r q :
  (r, q) ∈ dimensions c -> value c r = Some q /\ is_Some (value c' r).
Proof.
  unfold dimensions. intros H.
  repeat (apply elem_of_cons in H as [H|H]; [injection H as -> ->; split; [reflexivity|by eexists]|]).
  by apply elem_of_nil in H.
Qed.

Lemma value_Some_in c r n : value c r = Some n -> (r, n) ∈ dimensions c.
Proof.
  unfold value. induction (dimensions c) as [|[r' x] dims IH]; cbn [find_map]; [done|].
  case_bool_decide; [intros [= <-]; subst; left|]. intros Hf. right. by apply IH.
Qed.

Lemma claim_le_dimensions c a b :
  claim_le a b <-> Forall (fun d => exists n m, value a (fst d) = Some n /\ value b (fst d) = Some m /\ n <= m)
                     (dimensions c).
Proof.
  assert (Hv : forall (r : string) n m, value a r = Some n -> value b r = Some m ->
    (exists n m, value a r = Some n /\ value b r = Some m /\ n <= m) <-> n <= m).
  { intros r n m -> ->. split; [by intros (? & ? & ? & ? & ?); simplify_eq|eauto]. }
  unfold dimensions, claim_le. rewrite !Forall_cons, Forall_nil. cbn [fst].
  repeat (erewrite Hv by reflexivity). tauto.
Qed.

(** The limit check accepts exactly the claims below every limit. *)
Lemma reserve_check_list p next claim dims :
  (forall d, d ∈ dims -> d ∈ dimensions claim) ->
  match reserve_check p next dims with
  | Returned _ =>
      Forall (fun d => exists n m, value next (fst d) = Some n /\
                value (as_claim (pool_limits p)) (fst d) = Some m /\ n <= m) dims
  | Failed q =>
      exists l n, value (as_claim (pool_limits p)) (q_resource q) = Some l /\
                  value next (q_resource q) = Some n /\ l < n /\ q_limit q = l /\
                  value (pool_usage p) (q_resource q) = Some (q_current q) /\
                  value claim (q_resource q) = Some (q_requested q)
  | Panicked => False
  end.
Proof.
  induction dims as [|[r q] dims IH]; intros Hd; [by constructor|]. cbn [reserve_check].
  assert (Hr : (r, q) ∈ dimensions claim) by (apply Hd; left).
  destruct (value_dimension _ (pool_usage p) _ _ Hr) as [Hc [u Hu]].
  destruct (value_dimension _ (as_claim (pool_limits p)) _ _ Hr) as [_ [l Hl]].
  destruct (value_dimension _ next _ _ Hr) as [_ [n Hn]]. rewrite Hu, Hl, Hn.
  destruct (N.ltb_spec l n); [exists l, n; cbn; tauto|].
  specialize (IH (fun d Hin => Hd d (list_elem_of_further _ _ _ Hin))).
  destruct (reserve_check p next dims); try done.
  constructor; [exists n, l; cbn; tauto|done].
Qed.

Lemma reserve_check_spec p next claim :
  match reserve_check p next (dimensions claim) with
  | Returned _ => claim_le next (as_claim (pool_limits p))
  | Failed q => ~ claim_le next (as_claim (pool_limits p))
  | Panicked => False
  end.
Proof.
  pose proof (reserve_check_list p next claim (dimensions claim) ltac:(done)) as H.
  destruct (reserve_check _ _ _); [by rewrite (claim_le_dimensions claim)| |done].
  rewrite (claim_le_dimensions next).
  destruct H as (l & n & Hl & Hn & Hlt & _ & _ & Hq). rewrite Forall_forall. intros Hall.
  destruct (Hall _ (value_Some_in _ _ _ Hn)) as (n' & m & ? & ? & ?). cbn in *. simplify_eq. lia.
Qed.

Lemma pool_reserve_Returned p claim p' :
  pool_reserve p claim = Returned p' <->
  p' = set_usage (claim_add (pool_usage p) claim) p /\
  claim_le (claim_add (pool_usage p) claim) claim_max /\
  claim_le (claim_add (pool_usage p) claim) (as_claim (pool_limits p)).
Proof.
  unfold pool_reserve. destruct (claim_checked_add _ _) as [next|] eqn:E.
  - apply claim_checked_add_Some in E as [-> Hmax].
    pose proof (reserve_check_spec p (claim_add (pool_usage p) claim) claim) as Hs.
    destruct (reserve_check _ _ _) as [[]|q|]; [|split; [done|tauto]|done].
    split; [by intros [= <-]|by intros [-> _]].
  - split; [done|]. intros (_ & Hmax & _).
    assert (claim_checked_add (pool_usage p) claim = Some (claim_add (pool_usage p) claim))
      by (by apply claim_checked_add_Some). congruence.
Qed.

Lemma pool_reserve_not_Panicked p claim : pool_reserve p claim <> Panicked.
Proof.
  unfold pool_reserve. case_match; [|done].
  match goal with |- context [reserve_check ?p ?n (dimensions ?c)] =>
    pose proof (reserve_check_spec p n c) end.
  by case_match.
Qed.

Lemma pool_drop_reserve p claim p' :
  pool_reserve p claim = Returned p' -> pool_drop p' claim = Some p.
Proof.
  intros [-> _]%pool_reserve_Returned. unfold pool_drop. cbn.
  rewrite claim_checked_sub_add. cbn. by destruct p.
Qed.

(** *** Reachable pool systems *)

(** The claims alive in pool [id]. *)
Definition live_claims (id : N) (rs : list PoolReservation) : list ResourceClaim :=
  res_claim <$> filter (fun r => res_pool r = id) rs.

Definition pool_inv (st : PoolSystem) : Prop :=
  (forall id p, ps_pools st !! id = Some p ->
     pool_usage p = claim_sum (live_claims id (ps_live st)) /\
     claim_le (pool_usage p) (as_claim (pool_limits p))) /\
  (forall r, r ∈ ps_live st -> is_Some (ps_pools st !! res_pool r)).

Lemma live_claims_app id l k : live_claims id (l ++ k) = live_claims id l ++ live_claims id k.
Proof. unfold live_claims. by rewrite filter_app, fmap_app. Qed.
Lemma live_claims_cons id r l :
  live_claims id (r :: l) =
  if decide (res_pool r = id) then res_claim r :: live_claims id l else live_claims id l.
Proof. unfold live_claims. rewrite filter_cons. by case_decide. Qed.

Lemma claim_sum_middle id l r k :
  res_pool r = id ->
  claim_sum (live_claims id (l ++ r :: k)) =
  claim_add (claim_sum (live_claims id (l ++ k))) (res_claim r).
Proof.
  intros H. rewrite !live_claims_app, live_claims_cons, decide_True by done.
  rewrite !claim_sum_app. cbn [claim_sum foldr].
  fold (claim_sum (live_claims id k)).
  by rewrite <- claim_add_assoc, (claim_add_comm (res_claim r)).
Qed.

Lemma claim_sum_empty_pool id rs :
  (forall r, r ∈ rs -> res_pool r <> id) -> live_claims id rs = [].
Proof.
  intros H. induction rs as [|r rs IH]; [done|].
  rewrite live_claims_cons, decide_False by (apply H; set_solver).
  apply IH. set_solver.
Qed.

Lemma claim_default_le c : claim_le claim_default c.
Proof. claim_crush. intuition lia. Qed.

Lemma pool_inv_init : pool_inv pool_init.
Proof. split; cbn; [intros ??; by rewrite lookup_empty|set_solver]. Qed.

Lemma pool_inv_step st st' : pool_inv st -> pool_step st st' -> pool_inv st'.
Proof.
  intros [Hp Hl] Hstep. destruct Hstep as
    [st id scope limits p Hid Hnew|st id p claim p' Hid Hres|st id p claim q|st l r k p p' Hlive Hid Hdrop].
  - unfold pool_new in Hnew. ok_inv Hnew. split; cbn [ps_pools ps_live].
    + intros id' p'. rewrite lookup_insert. case_decide; [|by auto].
      intros [= <-]; subst. split; [|apply claim_default_le].
      rewrite claim_sum_empty_pool; [done|]. intros r Hin <-. apply Hl in Hin. rewrite Hid in Hin.
      by destruct Hin.
    + intros r Hin. rewrite lookup_insert. case_decide; [eauto|by apply Hl].
  - apply pool_reserve_Returned in Hres as (-> & _ & Hle). destruct (Hp _ _ Hid) as [Hu _]. split; cbn [ps_pools ps_live].
    + intros id' p'. rewrite live_claims_cons; cbn [res_pool res_claim].
      rewrite lookup_insert. case_decide as Heq.
      * intros [= <-]; subst. split; [|done]. cbn.
        fold (claim_sum (live_claims id' (ps_live st))). by rewrite <- Hu, claim_add_comm.
      * by auto.
    + intros r Hr. rewrite lookup_insert. case_decide as Hd; [eauto|].
      apply Hl. apply elem_of_cons in Hr as [->|Hr]; [by destruct Hd|done].
  - by split.
  - destruct (Hp _ _ Hid) as [Hu Hle]. rewrite Hlive, (claim_sum_middle _ _ _ _ eq_refl) in Hu.
    unfold pool_drop in Hdrop. rewrite Hu, claim_checked_sub_add in Hdrop. cbn in Hdrop.
    injection Hdrop as <-. split; cbn [ps_pools ps_live].
    + intros id' p'. rewrite lookup_insert. case_decide as Heq.
      * intros [= <-]; subst. split; [done|]. cbn. eapply claim_le_trans; [|exact Hle].
        rewrite Hu, claim_add_comm. apply claim_le_add_l.
      * intros H'. destruct (Hp _ _ H') as [-> Hle']. split; [|done].
        rewrite Hlive, !live_claims_app, live_claims_cons, decide_False by done. done.
    + intros r' Hr'. rewrite lookup_insert. case_decide; [eauto|]. apply Hl.
      rewrite Hlive. by apply elem_of_middle.
Qed.

Lemma pool_reachable_inv st : pool_reachable st -> pool_inv st.
Proof.
  apply rtc_invariant; [apply pool_inv_init|apply pool_inv_step].
Qed.

(** *** Accounts *)

Lemma drop_reservations_frame s rs id p :
  id ∉ (res_pool <$> rs) ->
  drop_reservations (<[id := p]> s) rs = (fun s' => <[id := p]> s') <$> drop_reservations s rs.
Proof.
  revert s. induction rs as [|r rs IH]; intros s Hid; [done|]. cbn.
  cbn in Hid. apply not_elem_of_cons in Hid as [Hne Hid].
  rewrite lookup_insert_ne by done. destruct (s !! res_pool r) as [p0|]; cbn; [|done].
  destruct (pool_drop p0 (res_claim r)); cbn; [|done].
  rewrite insert_insert_ne by done. by apply IH.
Qed.

Lemma drop_reservations_app s rs rs' :
  drop_reservations s (rs ++ rs') = (s' ← drop_reservations s rs; drop_reservations s' rs').
Proof.
  revert s. induction rs as [|r rs IH]; intros s; [done|]. cbn.
  destruct (s !! res_pool r); cbn; [|done]. destruct (pool_drop _ _); cbn; [apply IH|done].
Qed.

Lemma drop_reservations_lookup s rs s' id :
  id ∉ (res_pool <$> rs) -> drop_reservations s rs = Some s' -> s' !! id = s !! id.
Proof.
  revert s. induction rs as [|r rs IH]; intros s Hid Hd; cbn in *; [by simplify_eq|].
  apply not_elem_of_cons in Hid as [Hne Hid]. opt_inv Hd.
  rewrite (IH _ Hid Hd). by rewrite lookup_insert_ne.
Qed.

(** What [account_reserve] promises: all pools or none. *)
Definition account_reserve_post (s : PoolStore) (account : ResourceAccount) (claim : ResourceClaim)
    (res : PoolStore * outcome QuotaExceeded (list PoolReservation)) : Prop :=
  match res with
  | (s', Returned rs) =>
      rs = (fun id => mkReservation id claim) <$> account /\
      (forall id, id ∈ account -> exists p,
         s !! id = Some p /\ s' !! id = Some (set_usage (claim_add (pool_usage p) claim) p) /\
         claim_le (claim_add (pool_usage p) claim) (as_claim (pool_limits p))) /\
      (forall id, id ∉ account -> s' !! id = s !! id) /\
      drop_reservations s' rs = Some s
  | (s', Failed q) =>
      s' = s /\ exists id p, id ∈ account /\ s !! id = Some p /\ pool_reserve p claim = Failed q
  | (_, Panicked) => False
  end.

Lemma account_reserve_loop_post s0 done_ids ids s claim :
  NoDup (done_ids ++ ids) ->
  (forall id, id ∈ ids -> is_Some (s !! id)) ->
  let rs := (fun id => mkReservation id claim) <$> done_ids in
  drop_reservations s rs = Some s0 ->
  (forall id, id ∈ done_ids -> exists p,
     s0 !! id = Some p /\ s !! id = Some (set_usage (claim_add (pool_usage p) claim) p) /\
     claim_le (claim_add (pool_usage p) claim) (as_claim (pool_limits p))) ->
  (forall id, id ∉ done_ids -> s !! id = s0 !! id) ->
  account_reserve_post s0 (done_ids ++ ids) claim (account_reserve_loop s ids claim rs).
Proof.
  revert done_ids s. induction ids as [|id ids IH]; intros done_ids s Hnd Hex rs Hdrop Hin Hout; cbn.
  - rewrite app_nil_r. repeat split; try done; by auto.
  - destruct (Hex id) as [p Hp]; [set_solver|]. rewrite Hp.
    assert (Hid : id ∉ done_ids) by (apply NoDup_app in Hnd; set_solver).
    assert (Hrs : id ∉ (res_pool <$> rs)).
    { unfold rs. rewrite <- list_fmap_compose. intros (x & Hx & Hx')%list_elem_of_fmap.
      cbn in Hx. by subst. }
    subst rs. destruct (pool_reserve p claim) as [p'|q|] eqn:Er; [| |by apply pool_reserve_not_Panicked in Er].
    + pose proof (pool_drop_reserve _ _ _ Er) as Hback.
      apply pool_reserve_Returned in Er as (-> & _ & Hle).
      specialize (IH (done_ids ++ [id]) (<[id := set_usage (claim_add (pool_usage p) claim) p]> s)).
      rewrite <- app_assoc in IH. cbn [app] in IH. rewrite fmap_app in IH. cbn in IH. apply IH.
      * done.
      * intros id' Hid'. apply lookup_insert_is_Some'. right. apply Hex. set_solver.
      * rewrite drop_reservations_app, drop_reservations_frame, Hdrop by done. cbn.
        rewrite lookup_insert_eq. cbn. rewrite Hback. cbn. rewrite insert_insert_eq.
        f_equal. apply insert_id. by rewrite <- (Hout id Hid).
      * intros id' [Hin'|Hx%list_elem_of_singleton]%elem_of_app.
        -- rewrite lookup_insert_ne by set_solver. by auto.
        -- subst id'. exists p. rewrite lookup_insert_eq, <- (Hout _ Hid). done.
      * intros id' Hn. rewrite lookup_insert_ne by set_solver. apply Hout. set_solver.
    + rewrite Hdrop. split; [done|]. exists id, p. rewrite <- (Hout id Hid). set_solver.
Qed.

Lemma account_reserve_spec s account claim :
  NoDup account -> (forall id, id ∈ account -> is_Some (s !! id)) ->
  account_reserve_post s account claim (account_reserve s account claim).
Proof.
  intros Hnd Hex. apply (account_reserve_loop_post s [] account s claim); try done.
  intros id Hid. by apply elem_of_nil in Hid.
Qed.

Lemma account_reserve_untouched s account claim id :
  NoDup account -> (forall i, i ∈ account -> is_Some (s !! i)) -> id ∉ account ->
  (account_reserve s account claim).1 !! id = s !! id.
Proof.
  intros Hnd Hex Hid. pose proof (account_reserve_spec s account claim Hnd Hex) as H.
  destruct (account_reserve s account claim) as [s' [rs|q|]]; cbn in *; [|by destruct H as [-> _]|done].
  destruct H as (_ & _ & H & _). by apply H.
Qed.

(** *** Reservations that are held

    What a component needs that keeps reservations for a while: a reservation it
    holds can be dropped at any time, in any order. *)
Lemma claim_sum_perm l l' : l ≡ₚ l' -> claim_sum l = claim_sum l'.
Proof.
  unfold claim_sum. intros Hp. induction Hp as [|x l l' _ IH|x y l|l l' l'' _ IH1 _ IH2]; cbn [foldr].
  - done.
  - by rewrite IH.
  - rewrite !claim_add_assoc. by rewrite (claim_add_comm y).
  - by etrans.
Qed.
Lemma pool_inv_perm s live live' : live ≡ₚ live' -> pool_inv (mkPoolSystem s live) -> pool_inv (mkPoolSystem s live').
Proof.
  intros Hp [Hu Hl]. split; cbn in *; [|intros r Hr; apply Hl; by rewrite Hp].
  intros id p Hid. destruct (Hu _ _ Hid) as [-> Hle]. split; [|done].
  apply claim_sum_perm. unfold live_claims. by rewrite Hp.
Qed.

Lemma drop_reservations_inv s rs rest :
  pool_inv (mkPoolSystem s (rs ++ rest)) ->
  exists s', drop_reservations s rs = Some s' /\ pool_inv (mkPoolSystem s' rest) /\
             forall id, is_Some (s' !! id) <-> is_Some (s !! id).
Proof.
  revert s. induction rs as [|r rs IH]; intros s Hinv; cbn [drop_reservations]; [by exists s|].
  destruct Hinv as [Hu Hl] eqn:E. clear E. destruct (Hl r) as [p Hp]; [cbn; left|]. cbn in Hp. rewrite Hp. cbn.
  destruct (Hu _ _ Hp) as [Husage _]. cbn [ps_live app] in Husage.
  rewrite live_claims_cons, decide_True in Husage by done. cbn in Husage. fold (claim_sum (live_claims (res_pool r) (rs ++ rest))) in Husage.
  assert (Hd : pool_drop p (res_claim r) = Some (set_usage (claim_sum (live_claims (res_pool r) (rs ++ rest))) p)).
  { unfold pool_drop. by rewrite Husage, claim_add_comm, claim_checked_sub_add. }
  rewrite Hd. cbn.
  destruct (IH (<[res_pool r := set_usage (claim_sum (live_claims (res_pool r) (rs ++ rest))) p]> s)) as (s' & Hs' & Hi & Hdom).
  { apply (pool_inv_step (mkPoolSystem s (r :: rs ++ rest))); [done|].
    eapply (step_drop (mkPoolSystem s (r :: rs ++ rest)) [] r (rs ++ rest)); done. }
  exists s'. split; [done|]. split; [done|]. intros id. rewrite Hdom, lookup_insert_is_Some'. split; [|auto].
  by intros [<-|?]; [eexists|].
Qed.

Lemma live_claims_account account claim id :
  NoDup account ->
  live_claims id ((fun id => mkReservation id claim) <$> account) = if decide (id ∈ account) then [claim] else [].
Proof.
  induction account as [|x l IH]; intros Hnd; [by rewrite decide_False by (by intros ?%elem_of_nil)|].
  apply NoDup_cons in Hnd as [Hx Hnd]. rewrite fmap_cons, live_claims_cons, IH by done. cbn [res_pool res_claim].
  destruct (decide (x = id)) as [->|Hne].
  - rewrite decide_False, decide_True by (done || left). done.
  - destruct (decide (id ∈ l)); [rewrite decide_True by (by right)|rewrite decide_False by (rewrite elem_of_cons; naive_solver)]; done.
Qed.

Lemma account_reserve_inv s account claim live :
  NoDup account -> (forall id, id ∈ account -> is_Some (s !! id)) -> pool_inv (mkPoolSystem s live) ->
  match account_reserve s account claim with
  | (s', Returned rs) => pool_inv (mkPoolSystem s' (rs ++ live)) /\ forall id, is_Some (s' !! id) <-> is_Some (s !! id)
  | (s', Failed _) => s' = s
  | (_, Panicked) => False
  end.
Proof.
  intros Hnd Hex [Hu Hl]. pose proof (account_reserve_spec s account claim Hnd Hex) as H.
  destruct (account_reserve s account claim) as [s' [rs|q|]]; cbn in H; [|by destruct H|done].
  destruct H as (-> & Hin & Hout & _). cbn [ps_pools ps_live] in Hu, Hl.
  assert (Hdom : forall id, is_Some (s' !! id) <-> is_Some (s !! id)).
  { intros id. destruct (decide (id ∈ account)) as [Hid|Hid]; [|by rewrite Hout].
    destruct (Hin _ Hid) as (p & -> & -> & _). split; intros _; by eexists. }
  split; [|done]. split; cbn [ps_pools ps_live].
  - intros id p Hid. rewrite live_claims_app, live_claims_account by done.
    destruct (decide (id ∈ account)) as [Hia|Hia].
    + destruct (Hin _ Hia) as (p0 & Hp0 & Hp & Hle). rewrite Hp in Hid. injection Hid as <-. cbn.
      destruct (Hu _ _ Hp0) as [-> _] in Hle |- *. split; [|done].
      fold (claim_sum (live_claims id live)). apply claim_add_comm.
    + rewrite Hout in Hid by done. destruct (Hu _ _ Hid) as [-> Hle]. by split.
  - intros r [Hr|Hr]%elem_of_app; apply Hdom; [|by apply Hl].
    apply list_elem_of_fmap in Hr as (id & -> & Hid). by apply Hex.
Qed.

(** The reservations that the entries of a map hold. *)
Section bags.
Context `{Countable K}.
Definition bag {A} (f : A -> list PoolReservation) (m : gmap K A) : list PoolReservation :=
  concat ((fun kv => f kv.2) <$> map_to_list m).

Lemma bag_empty {A} (f : A -> list PoolReservation) : bag f ∅ = [].
Proof. unfold bag. by rewrite map_to_list_empty. Qed.
Lemma bag_insert {A} (f : A -> list PoolReservation) m i x :
  m !! i = None -> bag f (<[i := x]> m) ≡ₚ f x ++ bag f m.
Proof. intros Hi. unfold bag. rewrite map_to_list_insert by done. by rewrite fmap_cons. Qed.
Lemma bag_delete {A} (f : A -> list PoolReservation) m i x :
  m !! i = Some x -> bag f m ≡ₚ f x ++ bag f (delete i m).
Proof.
  intros Hi. rewrite <- (insert_delete_id m i x Hi) at 1. apply bag_insert. apply lookup_delete_eq.
Qed.
Lemma bag_update {A} (f : A -> list PoolReservation) m i x y :
  m !! i = Some x -> f y = f x -> bag f (<[i := y]> m) ≡ₚ bag f m.
Proof.
  intros Hi Hf. rewrite (bag_delete f m i x Hi), <- insert_delete_eq, bag_insert by apply lookup_delete_eq.
  by rewrite Hf.
Qed.
Lemma bag_filter {A} (f : A -> list PoolReservation) (P : K * A -> Prop) `{forall x, Decision (P x)} m :
  bag f m ≡ₚ bag f (filter P m) ++ bag f (filter (fun kv => ~ P kv) m).
Proof.
  induction m as [|i x m Hi IH] using map_ind; [by rewrite !map_filter_empty, !bag_empty|].
  assert (Hf : forall (Q : K * A -> Prop) (HQ : forall y, Decision (Q y)), filter Q m !! i = None)
    by (intros Q HQ; apply (proj2 (map_lookup_filter_None Q m i)); by left).
  rewrite bag_insert, IH by done. destruct (decide (P (i, x))) as [Hp|Hp].
  - rewrite map_filter_insert_True by done. rewrite (map_filter_insert_not' (fun kv => ~ P kv)) by (naive_solver congruence).
    rewrite bag_insert by apply Hf. by rewrite app_assoc.
  - rewrite (map_filter_insert_True (fun kv => ~ P kv)) by done. rewrite (map_filter_insert_not' P) by (naive_solver congruence).
    rewrite bag_insert by apply (Hf (fun kv => ~ P kv)). solve_Permutation.
Qed.

(** One claim on every pool of an account. *)
Definition claims (a : ResourceAccount) (P : ResourceClaim -> Prop) (rs : list PoolReservation) : Prop :=
  exists claim, P claim /\ rs = (fun id => mkReservation id claim) <$> a.
Definition additive (g : ResourceClaim -> N) : Prop :=
  g claim_default = 0 /\ forall a b, g (claim_add a b) = g a + g b.
Lemma additive_sum_app g l k : additive g -> g (claim_sum (l ++ k)) = g (claim_sum l) + g (claim_sum k).
Proof. intros [Hz Ha]. induction l as [|c l IH]; cbn [app]; [by unfold claim_sum at 2; cbn; rewrite Hz|]. cbn. fold (claim_sum (l ++ k)) (claim_sum l). rewrite !Ha, IH. lia. Qed.
Lemma live_claims_perm id l k : l ≡ₚ k -> live_claims id l ≡ₚ live_claims id k.
Proof. intros Hp. unfold live_claims. by rewrite Hp. Qed.
Lemma bag_count {A} (f : A -> list PoolReservation) (g : ResourceClaim -> N) n id (m : gmap K A) :
  additive g ->
  map_Forall (fun _ x => exists account, NoDup account /\ id ∈ account /\ claims account (fun c => g c = n) (f x)) m ->
  g (claim_sum (live_claims id (bag f m))) = n * N.of_nat (size m).
Proof.
  intros Hg. induction m as [|i x m Hi IH] using map_ind; intros Hm.
  - rewrite bag_empty, map_size_empty. cbn. rewrite (proj1 Hg). lia.
  - apply map_Forall_insert in Hm as [(account & Hnd & Hid & c & Hc & Hx) Hm]; [|done].
    rewrite (claim_sum_perm _ _ (live_claims_perm id _ _ (bag_insert f m i x Hi))).
    rewrite live_claims_app, additive_sum_app, IH by done. rewrite Hx, live_claims_account, decide_True by done.
    cbn. rewrite (proj2 Hg), (proj1 Hg), Hc, map_size_insert_None by done. lia.
Qed.
End bags.

(** *** Policies and the governor *)

Lemma limits_validate_Ok l :
  limits_validate l = Ok tt ->
  0 < rl_connections l /\ 0 < rl_streams l /\ 0 < rl_workers l /\ 0 < rl_terminals l /\
  0 < rl_attachments l /\ 0 < rl_terminal_memory_bytes l /\ 0 < rl_history_bytes l /\
  0 < rl_file_handles l /\ 0 < rl_uploads l /\ 0 < rl_upload_bytes l.
Proof.
  unfold limits_validate. rewrite try_fold_unit_Ok. unfold dimensions.
  rewrite !Forall_cons. cbn [as_claim rc_connections rc_streams rc_workers rc_terminals rc_attachments
    rc_terminal_memory_bytes rc_history_bytes rc_file_handles rc_uploads rc_upload_bytes].
  intros H. destruct_and! H.
  repeat match goal with
  | H : (if (0 <? ?a) || _ then _ else _) = _ |- _ =>
      destruct (N.ltb_spec 0 a); [clear H|try discriminate H; clear H]
  end; repeat split; done.
Qed.

(** A policy the daemon accepts fits one complete user capacity in the global
    limits, dimension by dimension. *)
Lemma policy_validate_fits p :
  policy_validate p = Ok tt -> claim_le (as_claim (rp_user p)) (as_claim (rp_global p)).
Proof.
  unfold policy_validate. intros H. do 8 ok_step H.
  apply try_fold_unit_Ok in H. apply (claim_le_dimensions (as_claim (rp_user p))).
  rewrite Forall_forall in *. intros [r u] Hin. specialize (H _ Hin). cbv beta iota in H. cbn [fst].
  destruct (value_dimension _ (as_claim (rp_global p)) _ _ Hin) as [Hu [g Hg]].
  rewrite Hg in H. cbn [ok_or mbind result_bind] in H. destruct (N.leb_spec u g); [eauto|done].
Qed.

(** Limits are [u64] values. *)
Definition limits_u64 (l : ResourceLimits) : Prop := claim_le (as_claim l) claim_max.

Definition governor_wf (s : PoolStore) (g : ResourceGovernor) : Prop :=
  is_Some (s !! gov_global g) /\
  (forall u id, gov_users g !! u = Some id -> is_Some (s !! id) /\ id <> gov_global g) /\
  (forall u v id, gov_users g !! u = Some id -> gov_users g !! v = Some id -> u = v).

Lemma governor_account_wf s g fresh user s' g' account :
  governor_wf s g -> s !! fresh = None ->
  governor_account s g fresh user = Ok (s', g', account) ->
  governor_wf s' g' /\
  exists pool, gov_users g' !! user = Some pool /\ account = [gov_global g'; pool].
Proof.
  intros (Hg & Hu & Hinj) Hf H. unfold governor_account in H. do 2 ok_step H.
  - injection H as <- <- <-. split; [by split_and!|eauto].
  - ok_step H. injection H as <- <- <-. cbn. split; [|rewrite lookup_insert_eq; eauto].
    assert (Hne : fresh <> gov_global g) by (intros ->; rewrite Hf in Hg; by destruct Hg).
    split_and!; cbn.
    + by rewrite lookup_insert_ne.
    + intros u id. destruct (decide (user = u)) as [<-|Hu'].
      * rewrite lookup_insert_eq. intros [= <-]. rewrite lookup_insert_eq. eauto.
      * rewrite lookup_insert_ne by done. intros [Hs ?]%Hu.
        split; [|done]. apply lookup_insert_is_Some'. by right.
    + intros u v id. rewrite !lookup_insert.
      assert (Hno : forall w, gov_users g !! w <> Some fresh).
      { intros w Hw. apply Hu in Hw as [Hw _]. rewrite Hf in Hw. by destruct Hw. }
      repeat case_decide; intros; simplify_eq; try done; [by destruct (Hno v)|by destruct (Hno u)|eauto].
Qed.

Lemma governor_account_reserve s g fresh user s' g' account claim : governor_wf s g -> s !! fresh = None ->
  governor_account s g fresh user = Ok (s', g', account) -> account_reserve_post s' account claim (account_reserve s' account claim).
Proof.
  intros Hwf Hf Ha. destruct (governor_account_wf _ _ _ _ _ _ _ Hwf Hf Ha) as ((Hg & Hu & _) & pool & Hp & ->).
  destruct (Hu _ _ Hp) as [Hs Hne]. apply account_reserve_spec.
  - apply NoDup_cons. split; [|apply NoDup_singleton]. by intros ?%list_elem_of_singleton.
  - intros id [->|Hid%list_elem_of_singleton]%elem_of_cons; [done|by subst].
Qed.

(** ** Properties *)

(** However threads interleave pool creation, reservation, refusal and
    release, every pool's recorded usage is exactly the sum of the live
    reservations against it, stays within the pool's limits in every dimension,
    and releasing any live reservation never underflows (the [expect] of
    [PoolReservation::drop] cannot panic). *)
Theorem reservation_accounting st :
  pool_reachable st ->
  (forall id p, ps_pools st !! id = Some p ->
     pool_usage p = claim_sum (live_claims id (ps_live st)) /\
     claim_le (pool_usage p) (as_claim (pool_limits p))) /\
  (forall r, r ∈ ps_live st -> exists p p',
     ps_pools st !! res_pool r = Some p /\ pool_drop p (res_claim r) = Some p').
Proof.
  intros [Hp Hl]%pool_reachable_inv. split; [done|]. intros r Hr.
  destruct (Hl r Hr) as [p Hpr]. destruct (Hp _ _ Hpr) as [Hu _].
  apply list_elem_of_split in Hr as (l & k & Hlk).
  rewrite Hlk, (claim_sum_middle _ _ _ _ eq_refl) in Hu.
  exists p. eexists. split; [done|]. unfold pool_drop. rewrite Hu, claim_checked_sub_add. done.
Qed.

(** Reserving on an account (the global pool and the user's pool) is all or
    nothing: on success every pool of the account is charged exactly the claim
    and stays within its limits, no other pool changes, and dropping the
    reservation restores the store; on a quota failure the store is exactly as
    before and some pool of the account refused the claim; it never panics. *)
Theorem account_reserve_all_or_nothing s account claim :
  NoDup account -> (forall id, id ∈ account -> is_Some (s !! id)) ->
  match account_reserve s account claim with
  | (s', Returned rs) =>
      (forall id, id ∈ account -> exists p,
         s !! id = Some p /\ s' !! id = Some (set_usage (claim_add (pool_usage p) claim) p) /\
         claim_le (claim_add (pool_usage p) claim) (as_claim (pool_limits p))) /\
      (forall id, id ∉ account -> s' !! id = s !! id) /\
      drop_reservations s' rs = Some s
  | (s', Failed q) =>
      s' = s /\ exists id p, id ∈ account /\ s !! id = Some p /\ pool_reserve p claim = Failed q
  | (_, Panicked) => False
  end.
Proof.
  intros Hnd Hex. pose proof (account_reserve_spec s account claim Hnd Hex) as H.
  destruct (account_reserve s account claim) as [s' [rs|q|]]; cbn in H; tauto.
Qed.

(** A policy that passes [ResourcePolicy::validate] starts a governor whose
    empty global pool admits the complete capacity of one user worker, and whose
    user limits admit any terminal whose grid fits the user's memory limit. *)
Theorem validated_policy_admits_worker_and_terminal p rows columns claim :
  limits_u64 (rp_global p) -> limits_u64 (rp_user p) ->
  policy_validate p = Ok tt ->
  claim_terminal rows columns p = Ok claim ->
  rows * columns * rp_terminal_cell_memory_bytes p <= rl_terminal_memory_bytes (rp_user p) ->
  exists s g pool pool',
    governor_new ∅ 0 p = Ok (s, g) /\ s !! gov_global g = Some pool /\
    pool_reserve pool (worker_capacity_claim p) = Returned pool' /\
    exists upool upool', pool_new "user" (rp_user p) = Ok upool /\
      pool_reserve upool claim = Returned upool'.
Proof.
  intros Hg64 Hu64 Hv Hc Hfit. pose proof (policy_validate_fits p Hv) as Hle.
  assert (Hv' := Hv). unfold policy_validate in Hv. do 8 ok_step Hv. clear Hv.
  repeat match goal with u : unit |- _ => destruct u end.
  match goal with H : limits_validate (rp_global p) = _ |- _ => pose proof (limits_validate_Ok _ H) as Hgpos; rename H into Hgv end.
  match goal with H : limits_validate (rp_user p) = _ |- _ => pose proof (limits_validate_Ok _ H) as Hupos; rename H into Huv end.
  bool_prop. unfold claim_terminal, checked_mul in Hc.
  destruct (N.leb_spec (rows * columns) U64_MAX); cbn in Hc; [|done].
  destruct (N.leb_spec (rows * columns * rp_terminal_cell_memory_bytes p) U64_MAX); cbn in Hc; [|done].
  injection Hc as <-.
  exists (<[0 := mkPool "global" (rp_global p) claim_default]> ∅), (mkGovernor 0 ∅ (rp_user p)),
    (mkPool "global" (rp_global p) claim_default). eexists.
  unfold governor_new, pool_new. rewrite Hv', Hgv, Huv. cbn [mbind result_bind].
  split; [done|]. split; [apply lookup_insert_eq|]. split.
  - apply pool_reserve_Returned. split; [done|]. unfold limits_u64, claim_le in *.
    cbn in *. unfold U64_MAX in *. lia.
  - eexists _, _. split; [done|]. apply pool_reserve_Returned. split; [done|].
    unfold limits_u64, claim_le in *. cbn in *. unfold U64_MAX in *. lia.
Qed.

(** [ResourceGovernor::account] hands out the same user pool for the same
    user and a separate one for each other user, and a reservation on one user's
    account, granted or refused, never changes the pool of another user. *)
Theorem governor_user_isolation s g fresh user s1 g1 account claim :
  governor_wf s g -> s !! fresh = None ->
  governor_account s g fresh user = Ok (s1, g1, account) ->
  governor_wf s1 g1 /\
  governor_account s1 g1 fresh user = Ok (s1, g1, account) /\
  (forall v id, v <> user -> gov_users g1 !! v = Some id ->
     (account_reserve s1 account claim).1 !! id = s1 !! id).
Proof.
  intros Hwf Hf H. assert (Hne : user <> ""). { intros ->. by cbn in H. }
  destruct (governor_account_wf _ _ _ _ _ _ _ Hwf Hf H) as (Hwf1 & pool & Hpool & ->).
  split; [done|]. split.
  - unfold governor_account. rewrite bool_decide_eq_false_2 by done. cbn. by rewrite Hpool.
  - intros v id Hv Hid. destruct Hwf1 as (Hg & Hu & Hinj).
    destruct (Hu _ _ Hpool) as [Hs Hng]. destruct (Hu _ _ Hid) as [Hs' Hng'].
    apply account_reserve_untouched.
    + apply NoDup_cons. split; [|apply NoDup_singleton]. by intros ?%list_elem_of_singleton.
    + intros i [->|Hi%list_elem_of_singleton]%elem_of_cons; subst; done.
    + intros [?|Hi%list_elem_of_singleton]%elem_of_cons; [done|]. subst.
      apply Hv. by eapply Hinj.
Qed.

(** ** Witnesses *)

Definition ex_pool : ResourcePoolInner := mkPool "global" user_defaults claim_default.
Definition ex_pool_used : ResourcePoolInner := mkPool "global" user_defaults claim_connection.
Definition ex_system : PoolSystem :=
  mkPoolSystem {[0 := ex_pool_used]} [mkReservation 0 claim_connection].

Lemma ex_system_reachable : pool_reachable ex_system.
Proof.
  eapply rtc_l; [apply (step_create pool_init 0 "global" user_defaults ex_pool)|].
  { reflexivity. } { reflexivity. }
  eapply rtc_l; [apply (step_reserve _ 0 ex_pool claim_connection ex_pool_used)|].
  { reflexivity. } { vm_compute. reflexivity. }
  apply rtc_refl.
Qed.

Lemma reservation_accounting_witness :
  pool_reachable ex_system /\
  exists p p', ps_pools ex_system !! 0 = Some p /\ pool_drop p claim_connection = Some p'.
Proof.
  split; [exact ex_system_reachable|].
  exact (proj2 (reservation_accounting ex_system ex_system_reachable)
           (mkReservation 0 claim_connection) (list_elem_of_here _ _)).
Defined.

Definition ex_store : PoolStore := {[0 := ex_pool; 1 := ex_pool_used]}.

Lemma account_reserve_all_or_nothing_witness :
  NoDup [0; 1] /\
  drop_reservations (account_reserve ex_store [0; 1] claim_connection).1
    [mkReservation 0 claim_connection; mkReservation 1 claim_connection] = Some ex_store.
Proof.
  assert (Hnd : NoDup [0; 1]) by (apply (bool_decide_unpack _); vm_compute; exact I).
  assert (Hex : forall id, id ∈ [0; 1] -> is_Some (ex_store !! id)).
  { intros id [->|Hi%list_elem_of_singleton]%elem_of_cons; subst; by eexists. }
  split; [exact Hnd|].
  pose proof (account_reserve_all_or_nothing ex_store [0; 1] claim_connection Hnd Hex) as H.
  vm_compute in H |- *. exact (proj2 (proj2 H)).
Defined.

Lemma validated_policy_admits_worker_and_terminal_witness :
  policy_validate policy_default = Ok tt /\
  exists s g, governor_new ∅ 0 policy_default = Ok (s, g).
Proof.
  split; [vm_compute; reflexivity|].
  destruct (validated_policy_admits_worker_and_terminal policy_default 24 80
              (mkClaim 0 0 0 1 0 (4 * MIB) (8 * MIB) 0 0 0 0 0)) as (s & g & pool & pool' & H & _).
  - vm_compute. repeat split; discriminate.
  - vm_compute. repeat split; discriminate.
  - vm_compute. reflexivity.
  - vm_compute. reflexivity.
  - vm_compute. discriminate.
  - exists s, g. exact H.
Defined.

Lemma governor_user_isolation_witness :
  governor_wf {[0 := ex_pool]} (mkGovernor 0 ∅ user_defaults) /\
  (exists s1 g1 account,
     governor_account {[0 := ex_pool]} (mkGovernor 0 ∅ user_defaults) 1 "mimi" = Ok (s1, g1, account) /\
     governor_account s1 g1 1 "mimi" = Ok (s1, g1, account)).
Proof.
  assert (Hwf : governor_wf {[0 := ex_pool]} (mkGovernor 0 ∅ user_defaults)).
  { split_and!; cbn; [by eexists|done|done]. }
  split; [exact Hwf|].
  destruct (governor_account {[0 := ex_pool]} (mkGovernor 0 ∅ user_defaults) 1 "mimi")
    as [[[s1 g1] account]|e] eqn:E; [|vm_compute in E; discriminate E].
  exists s1, g1, account. split; [reflexivity|].
  exact (proj1 (proj2 (governor_user_isolation _ _ 1 "mimi" s1 g1 account claim_connection Hwf eq_refl E))).
Defined.
