(* ===== verification/Negotiation.v ===== *)
(** * Protocol and capability negotiation (src/src/negotiation.rs)

    The client offers version ranges, the server selects; the client checks the
    selection, and a worker checks the selection the gateway forwards.  Maps
    keyed by capability name are [gmap string _]. *)
From S2P Require Import Prelude.
Open Scope N_scope.

Definition LEGACY_CLIENT_HELLO_VERSION : N := 1.
Definition MINIMUM_PROTOCOL_VERSION : N := 1.
Definition PROTOCOL_VERSION : N := 2.
Definition MAX_CAPABILITIES : N := 64.
Definition MAX_CAPABILITY_NAME_BYTES : N := 64.

Definition CAPABILITY_LEGACY_ANSI_SNAPSHOT : string := "terminal.legacy_ansi_snapshot".
Definition CAPABILITY_SEMANTIC_STATE : string := "terminal.semantic_state".
Definition CAPABILITY_HISTORY_PAGING : string := "terminal.history_paging".
Definition CAPABILITY_DATAGRAM_STATE : string := "terminal.datagram_state".
Definition CAPABILITY_STATE_ACK : string := "terminal.state_ack".
Definition CAPABILITY_SEMANTIC_DIFF : string := "terminal.semantic_diff".
Definition CAPABILITY_CLIPBOARD_WRITE : string := "terminal.clipboard_write".
Definition CAPABILITY_SESSION_OBJECTS : string := "session.objects".
Definition CAPABILITY_INPUT_RESUME : string := "terminal.input_resume".
Definition CAPABILITY_INPUT_LEASE : string := "terminal.input_lease".
Definition CAPABILITY_PAYLOAD_ZSTD : string := "payload.zstd".
Definition CAPABILITY_TCP_FORWARD : string := "forward.tcp".
Definition CAPABILITY_STREAM_CHANNELS : string := "transport.stream_channels".

(** ** Messages and data *)

Record CapabilityOffer := mkOffer {
  co_name : string; co_minimum_version : N; co_maximum_version : N }.
Record CapabilitySelection := mkSelection { cs_name : string; cs_version : N }.

Record ClientHello := mkClientHello {
  ch_protocol_version : N;
  ch_username : string;
  ch_minimum_protocol_version : N;
  ch_maximum_protocol_version : N;
  ch_capabilities : list CapabilityOffer
}.
Record ServerHello := mkServerHello {
  sh_protocol_version : N;
  sh_challenge : bytes;
  sh_server_instance : string;
  sh_capabilities : list CapabilitySelection
}.

Record CapabilityRange := mkRange {
  cr_name : string; cr_minimum_version : N; cr_maximum_version : N }.
Record ProtocolSupport := mkSupport {
  sup_minimum_version : N;
  sup_maximum_version : N;
  sup_capabilities : list CapabilityRange
}.

Definition support_runtime : ProtocolSupport :=
  mkSupport MINIMUM_PROTOCOL_VERSION PROTOCOL_VERSION
    [mkRange CAPABILITY_TCP_FORWARD 1 1;
     mkRange CAPABILITY_STREAM_CHANNELS 1 1;
     mkRange CAPABILITY_PAYLOAD_ZSTD 1 1;
     mkRange CAPABILITY_LEGACY_ANSI_SNAPSHOT 1 1;
     mkRange CAPABILITY_SEMANTIC_STATE 2 2;
     mkRange CAPABILITY_HISTORY_PAGING 1 1;
     mkRange CAPABILITY_STATE_ACK 1 1;
     mkRange CAPABILITY_SEMANTIC_DIFF 1 1;
     mkRange CAPABILITY_DATAGRAM_STATE 2 2;
     mkRange CAPABILITY_CLIPBOARD_WRITE 1 1;
     mkRange CAPABILITY_SESSION_OBJECTS 1 1;
     mkRange CAPABILITY_INPUT_RESUME 2 2;
     mkRange CAPABILITY_INPUT_LEASE 1 1].

Definition command_line_client : ProtocolSupport :=
  mkSupport MINIMUM_PROTOCOL_VERSION PROTOCOL_VERSION
    [mkRange CAPABILITY_TCP_FORWARD 1 1;
     mkRange CAPABILITY_STREAM_CHANNELS 1 1;
     mkRange CAPABILITY_LEGACY_ANSI_SNAPSHOT 1 1;
     mkRange CAPABILITY_PAYLOAD_ZSTD 1 1].

Definition rust_semantic_client : ProtocolSupport := support_runtime.

Record NegotiatedProtocol := mkNegotiated {
  np_version : N;
  np_capabilities : gmap string N
}.

Definition negotiated_has (np : NegotiatedProtocol) (name : string) (minimum_version : N) : bool :=
  match np_capabilities np !! name with
  | Some version => minimum_version <=? version
  | None => false
  end.

Definition client_hello (username : string) (support : ProtocolSupport) : ClientHello :=
  mkClientHello LEGACY_CLIENT_HELLO_VERSION username
    (sup_minimum_version support) (sup_maximum_version support)
    ((fun c => mkOffer (cr_name c) (cr_minimum_version c) (cr_maximum_version c))
       <$> sup_capabilities support).

(** ** Validation helpers *)

(** [(lo..=hi).contains(&v)] *)
Definition contains (lo hi v : N) : bool := (lo <=? v) && (v <=? hi).

(** [contains_key]; [get(k).is_some_and(|v| *v >= min)] *)
Definition has_key {A} (m : gmap string A) (k : string) : bool := bool_decide (is_Some (m !! k)).
Definition at_least (m : gmap string N) (k : string) (min : N) : bool :=
  match m !! k with Some v => min <=? v | None => false end.

Definition hello_version_range (hello : ClientHello) : result (N * N) :=
  if (ch_minimum_protocol_version hello =? 0) && (ch_maximum_protocol_version hello =? 0) then
    ensure! 0 <? ch_protocol_version hello, "legacy client protocol version is zero";
    Ok (ch_protocol_version hello, ch_protocol_version hello)
  else
    ensure! (0 <? ch_minimum_protocol_version hello)
            && (ch_minimum_protocol_version hello <=? ch_maximum_protocol_version hello),
      "client protocol version range is invalid";
    ensure! contains (ch_minimum_protocol_version hello) (ch_maximum_protocol_version hello)
              (ch_protocol_version hello),
      "legacy protocol hint is outside the advertised client range";
    Ok (ch_minimum_protocol_version hello, ch_maximum_protocol_version hello).

(** [is_ascii_lowercase() || is_ascii_digit() || matches!(byte, b'.' | b'_')] *)
Definition capability_byte (a : Ascii.ascii) : bool :=
  let b := Ascii.N_of_ascii a in
  contains 97 122 b || contains 48 57 b || (b =? 46) || (b =? 95).

Definition validate_capability_name (name : string) : result unit :=
  ensure! negb (bool_decide (name = "")) && (slen name <=? MAX_CAPABILITY_NAME_BYTES)
          && forallb capability_byte (String.list_ascii_of_string name),
    "invalid protocol capability name";
  Ok tt.

Definition validate_support (support : ProtocolSupport) : result unit :=
  ensure! (0 <? sup_minimum_version support)
          && (sup_minimum_version support <=? sup_maximum_version support),
    "server protocol support range is invalid";
  ensure! llen (sup_capabilities support) <=? MAX_CAPABILITIES,
    "server supports too many capabilities";
  _ ← try_fold (fun (names : gset string) capability =>
    _ ← validate_capability_name (cr_name capability);
    ensure! (0 <? cr_minimum_version capability)
            && (cr_minimum_version capability <=? cr_maximum_version capability),
      "server capability has an invalid version range";
    ensure! negb (bool_decide (cr_name capability ∈ names)), "server capability is duplicated";
    Ok ({[cr_name capability]} ∪ names)) ∅ (sup_capabilities support);
  Ok tt.

Definition validate_offers (offers : list CapabilityOffer) : result (gmap string (N * N)) :=
  ensure! llen offers <=? MAX_CAPABILITIES, "client offered too many capabilities";
  try_fold (fun (res : gmap string (N * N)) offer =>
    _ ← validate_capability_name (co_name offer);
    ensure! (0 <? co_minimum_version offer)
            && (co_minimum_version offer <=? co_maximum_version offer),
      "client capability has an invalid version range";
    ensure! negb (has_key res (co_name offer)), "client capability is duplicated";
    Ok (<[co_name offer := (co_minimum_version offer, co_maximum_version offer)]> res)) ∅ offers.

Definition validate_capability_dependencies (m : gmap string N) : result unit :=
  ensure! negb (has_key m CAPABILITY_TCP_FORWARD) || has_key m CAPABILITY_STREAM_CHANNELS,
    "forward.tcp requires transport.stream_channels v1";
  ensure! negb (has_key m CAPABILITY_CLIPBOARD_WRITE) || at_least m CAPABILITY_SEMANTIC_STATE 2,
    "terminal.clipboard_write requires terminal.semantic_state v2";
  ensure! negb (has_key m CAPABILITY_HISTORY_PAGING) || at_least m CAPABILITY_SEMANTIC_STATE 2,
    "terminal.history_paging requires terminal.semantic_state v2";
  ensure! negb (has_key m CAPABILITY_STATE_ACK) || at_least m CAPABILITY_SEMANTIC_STATE 2,
    "terminal.state_ack requires terminal.semantic_state v2";
  ensure! negb (has_key m CAPABILITY_SEMANTIC_DIFF)
          || (has_key m CAPABILITY_STATE_ACK && at_least m CAPABILITY_SEMANTIC_STATE 2),
    "terminal.semantic_diff requires terminal.state_ack and terminal.semantic_state v2";
  ensure! negb (has_key m CAPABILITY_DATAGRAM_STATE)
          || (has_key m CAPABILITY_STATE_ACK && has_key m CAPABILITY_SESSION_OBJECTS
              && at_least m CAPABILITY_SEMANTIC_STATE 2),
    "terminal.datagram_state requires terminal.state_ack, session.objects, and terminal.semantic_state v2";
  ensure! negb (has_key m CAPABILITY_INPUT_LEASE) || has_key m CAPABILITY_SESSION_OBJECTS,
    "terminal.input_lease requires session.objects v1";
  ensure! negb (has_key m CAPABILITY_INPUT_RESUME) || has_key m CAPABILITY_INPUT_LEASE,
    "terminal.input_resume requires terminal.input_lease v1";
  Ok tt.

(** ** Negotiation *)

(** The loop of [negotiate_client_hello] over the server's capabilities. *)
Definition common_capabilities (supported : list CapabilityRange)
    (client : gmap string (N * N)) : gmap string N :=
  foldl (fun (m : gmap string N) s =>
    match client !! cr_name s with
    | None => m
    | Some (lo, hi) =>
        let capability_minimum := N.max lo (cr_minimum_version s) in
        let capability_maximum := N.min hi (cr_maximum_version s) in
        if capability_minimum <=? capability_maximum
        then <[cr_name s := capability_maximum]> m else m
    end) ∅ supported.

(** The removals that follow it, in the source's order. *)
Definition prune_capabilities (m : gmap string N) : gmap string N :=
  let m := if has_key m CAPABILITY_CLIPBOARD_WRITE && negb (at_least m CAPABILITY_SEMANTIC_STATE 2)
           then delete CAPABILITY_CLIPBOARD_WRITE m else m in
  let m := if has_key m CAPABILITY_HISTORY_PAGING && negb (at_least m CAPABILITY_SEMANTIC_STATE 2)
           then delete CAPABILITY_HISTORY_PAGING m else m in
  let m := if has_key m CAPABILITY_STATE_ACK && negb (at_least m CAPABILITY_SEMANTIC_STATE 2)
           then delete CAPABILITY_STATE_ACK m else m in
  let m := if has_key m CAPABILITY_SEMANTIC_DIFF
              && (negb (has_key m CAPABILITY_STATE_ACK)
                  || negb (at_least m CAPABILITY_SEMANTIC_STATE 2))
           then delete CAPABILITY_SEMANTIC_DIFF m else m in
  let m := if has_key m CAPABILITY_DATAGRAM_STATE
              && (negb (has_key m CAPABILITY_STATE_ACK)
                  || negb (has_key m CAPABILITY_SESSION_OBJECTS)
                  || negb (at_least m CAPABILITY_SEMANTIC_STATE 2))
           then delete CAPABILITY_DATAGRAM_STATE m else m in
  let m := if has_key m CAPABILITY_INPUT_LEASE && negb (has_key m CAPABILITY_SESSION_OBJECTS)
           then delete CAPABILITY_INPUT_LEASE m else m in
  let m := if negb (has_key m CAPABILITY_INPUT_LEASE)
           then delete CAPABILITY_INPUT_RESUME m else m in
  if negb (has_key m CAPABILITY_STREAM_CHANNELS)
  then delete CAPABILITY_TCP_FORWARD m else m.

Definition negotiate_client_hello (hello : ClientHello) (server : ProtocolSupport)
    : result NegotiatedProtocol :=
  _ ← validate_support server;
  '(client_minimum, client_maximum) ← hello_version_range hello;
  let minimum := N.max client_minimum (sup_minimum_version server) in
  let maximum := N.min client_maximum (sup_maximum_version server) in
  ensure! minimum <=? maximum, "client protocol range does not overlap server range";
  client_capabilities ← validate_offers (ch_capabilities hello);
  Ok (mkNegotiated maximum
        (prune_capabilities (common_capabilities (sup_capabilities server) client_capabilities))).

(** [BTreeMap] iteration is in key order. *)
Definition selections (np : NegotiatedProtocol) : list CapabilitySelection :=
  (fun '(name, version) => mkSelection name version)
    <$> merge_sort (fun a b => String.le a.1 b.1) (map_to_list (np_capabilities np)).

Definition validate_worker_selection (version : N) (selected : list CapabilitySelection)
    (support : ProtocolSupport) : result NegotiatedProtocol :=
  _ ← validate_support support;
  ensure! contains (sup_minimum_version support) (sup_maximum_version support) version,
    "worker stream selected an unsupported protocol version";
  ensure! llen selected <=? MAX_CAPABILITIES, "worker stream selected too many capabilities";
  let supported : gmap string CapabilityRange :=
    foldl (fun m c => <[cr_name c := c]> m) ∅ (sup_capabilities support) in
  capabilities ← try_fold (fun (m : gmap string N) selection =>
    _ ← validate_capability_name (cs_name selection);
    capability ← ok_or (supported !! cs_name selection)
                   "worker stream selected an unknown capability";
    ensure! contains (cr_minimum_version capability) (cr_maximum_version capability)
              (cs_version selection),
      "worker stream selected an unsupported capability version";
    ensure! negb (has_key m (cs_name selection)),
      "worker stream selected a capability more than once";
    Ok (<[cs_name selection := cs_version selection]> m)) ∅ selected;
  _ ← validate_capability_dependencies capabilities;
  Ok (mkNegotiated version capabilities).

Definition validate_server_hello (client : ClientHello) (server : ServerHello)
    : result NegotiatedProtocol :=
  '(minimum, maximum) ← hello_version_range client;
  ensure! contains minimum maximum (sh_protocol_version server),
    "server selected protocol version outside client range";
  offers ← validate_offers (ch_capabilities client);
  ensure! llen (sh_capabilities server) <=? MAX_CAPABILITIES,
    "server selected too many capabilities";
  capabilities ← try_fold (fun (m : gmap string N) selected =>
    _ ← validate_capability_name (cs_name selected);
    ensure! 0 <? cs_version selected, "selected capability version is zero";
    match offers !! cs_name selected with
    | None => Err "server selected unoffered capability"
    | Some (offered_minimum, offered_maximum) =>
        ensure! contains offered_minimum offered_maximum (cs_version selected),
          "server selected unsupported version for capability";
        ensure! negb (has_key m (cs_name selected)),
          "server selected capability more than once";
        Ok (<[cs_name selected := cs_version selected]> m)
    end) ∅ (sh_capabilities server);
  _ ← validate_capability_dependencies capabilities;
  Ok (mkNegotiated (sh_protocol_version server) capabilities).

(** ** The dependency table

    The dependencies between capabilities as data: a capability and the
    capabilities (with a minimum version) it needs.  [prune_capabilities] and
    [validate_capability_dependencies] are both read off this table below. *)
Abbreviation dependency := (string * list (string * N))%type.
Definition dependencies : list dependency :=
  [(CAPABILITY_CLIPBOARD_WRITE, [(CAPABILITY_SEMANTIC_STATE, 2)]);
   (CAPABILITY_HISTORY_PAGING, [(CAPABILITY_SEMANTIC_STATE, 2)]);
   (CAPABILITY_STATE_ACK, [(CAPABILITY_SEMANTIC_STATE, 2)]);
   (CAPABILITY_SEMANTIC_DIFF, [(CAPABILITY_STATE_ACK, 0); (CAPABILITY_SEMANTIC_STATE, 2)]);
   (CAPABILITY_DATAGRAM_STATE,
     [(CAPABILITY_STATE_ACK, 0); (CAPABILITY_SESSION_OBJECTS, 0); (CAPABILITY_SEMANTIC_STATE, 2)]);
   (CAPABILITY_INPUT_LEASE, [(CAPABILITY_SESSION_OBJECTS, 0)]);
   (CAPABILITY_INPUT_RESUME, [(CAPABILITY_INPUT_LEASE, 0)]);
   (CAPABILITY_TCP_FORWARD, [(CAPABILITY_STREAM_CHANNELS, 0)])].

Definition reqs_met (m : gmap string N) (reqs : list (string * N)) : bool :=
  forallb (fun r => at_least m r.1 r.2) reqs.
Definition dep_ok (m : gmap string N) (d : dependency) : Prop :=
  is_Some (m !! d.1) -> reqs_met m d.2 = true.
Definition dep_step (m : gmap string N) (d : dependency) : gmap string N :=
  if has_key m d.1 && negb (reqs_met m d.2) then delete d.1 m else m.

(** A table is ordered when no capability is needed by itself or by an earlier
    entry, so that one pass of removals is enough. *)
Fixpoint ordered (ds : list dependency) : Prop :=
  match ds with
  | [] => True
  | d :: ds => (d.1 ∉ d.2.*1) /\ Forall (fun d' => d'.1 ∉ d.2.*1) ds /\ ordered ds
  end.

Lemma has_key_true {A} (m : gmap string A) k : has_key m k = true <-> is_Some (m !! k).
Proof. unfold has_key. apply bool_decide_eq_true. Qed.
Lemma has_key_false {A} (m : gmap string A) k : has_key m k = false <-> m !! k = None.
Proof. unfold has_key. rewrite bool_decide_eq_false. symmetry. apply eq_None_not_Some. Qed.
Lemma at_least_0 m k : at_least m k 0 = has_key m k.
Proof.
  unfold at_least. destruct (m !! k) eqn:E.
  - rewrite (proj2 (has_key_true m k)) by eauto. apply N.leb_le. lia.
  - by rewrite (proj2 (has_key_false m k)).
Qed.

Lemma at_least_mono m m' k v : m ⊆ m' -> at_least m k v = true -> at_least m' k v = true.
Proof.
  unfold at_least. intros Hsub. destruct (m !! k) eqn:E; [|done].
  by rewrite (lookup_weaken _ _ _ _ E Hsub).
Qed.
Lemma reqs_met_mono m m' reqs : m ⊆ m' -> reqs_met m reqs = true -> reqs_met m' reqs = true.
Proof.
  unfold reqs_met. rewrite !forallb_forall. intros Hsub H x Hx. eauto using at_least_mono.
Qed.
Lemma reqs_met_delete m k reqs : k ∉ reqs.*1 -> reqs_met (delete k m) reqs = reqs_met m reqs.
Proof.
  induction reqs as [|[r v] reqs IH]; cbn; [done|]. intros Hk.
  apply not_elem_of_cons in Hk as [Hne Hk]. unfold reqs_met in IH. rewrite IH by done.
  unfold at_least. by rewrite lookup_delete_ne.
Qed.

Lemma dep_step_subseteq m d : dep_step m d ⊆ m.
Proof. unfold dep_step. case_match; [apply delete_subseteq|done]. Qed.
Lemma foldl_dep_step_subseteq m ds : foldl dep_step m ds ⊆ m.
Proof.
  revert m. induction ds as [|d ds IH]; intros m; [done|]. cbn.
  etrans; [apply IH|apply dep_step_subseteq].
Qed.

Lemma dep_step_establishes m d : d.1 ∉ d.2.*1 -> dep_ok (dep_step m d) d.
Proof.
  intros Hd. unfold dep_step. case_match eqn:E; intros Hs.
  - rewrite lookup_delete_eq in Hs. by destruct Hs.
  - apply has_key_true in Hs. rewrite Hs in E. cbn in E. by apply negb_false_iff in E.
Qed.
Lemma dep_step_preserves m d d' : d'.1 ∉ d.2.*1 -> dep_ok m d -> dep_ok (dep_step m d') d.
Proof.
  intros Hd Hok. unfold dep_step. case_match; [|done]. intros Hs.
  rewrite reqs_met_delete by done. apply Hok.
  rewrite lookup_delete in Hs. case_decide; [by destruct Hs|done].
Qed.

Lemma foldl_dep_step_closed ds m : ordered ds -> Forall (dep_ok (foldl dep_step m ds)) ds.
Proof.
  revert m. induction ds as [|d ds IH]; intros m Ho; [constructor|].
  destruct Ho as (Hd & Hlater & Ho). constructor; [|by apply IH].
  cbn. assert (Hok : dep_ok (dep_step m d) d) by (by apply dep_step_establishes).
  clear IH Ho. revert Hok. generalize (dep_step m d). clear m.
  induction Hlater as [|d' ds Hd' _ IH]; intros m Hok; [done|]. cbn.
  apply IH. by apply dep_step_preserves.
Qed.

Lemma foldl_dep_step_greatest ds m m' :
  m' ⊆ m -> Forall (dep_ok m') ds -> m' ⊆ foldl dep_step m ds.
Proof.
  revert m. induction ds as [|d ds IH]; intros m Hsub Hok; [done|]. cbn.
  apply Forall_cons in Hok as [Hd Hok]. apply IH; [|done].
  unfold dep_step. case_match eqn:E; [|done].
  apply andb_prop in E as [_ E]. apply negb_true_iff in E.
  apply map_subseteq_spec. intros k v Hk. rewrite lookup_delete_ne.
  - by eapply lookup_weaken.
  - intros <-. rewrite (reqs_met_mono m' m) in E; [done|done|]. apply Hd. eauto.
Qed.

Lemma dependencies_ordered : ordered dependencies.
Proof. repeat split; repeat (apply Forall_cons; split); try apply Forall_nil; try done;
  apply (bool_decide_unpack _); vm_compute; exact I. Qed.

Lemma dep_okb m d : dep_ok m d <-> negb (has_key m d.1) || reqs_met m d.2 = true.
Proof.
  unfold dep_ok. destruct (has_key m d.1) eqn:E; cbn.
  - apply has_key_true in E. tauto.
  - apply has_key_false in E. rewrite E. split; [done|]. intros _ [? ?]. done.
Qed.

Lemma validate_dependencies_table m :
  validate_capability_dependencies m = Ok tt <-> Forall (dep_ok m) dependencies.
Proof.
  unfold validate_capability_dependencies, dependencies.
  rewrite !Forall_cons, Forall_nil, !dep_okb. unfold reqs_met. cbn [fst snd forallb].
  rewrite !at_least_0, !andb_true_r, <- !andb_assoc.
  repeat match goal with |- context [if ?b then _ else _] => destruct b eqn:? end;
    intuition congruence.
Qed.

Lemma dep_step_absent m d : negb (reqs_met m d.2) = true -> dep_step m d = delete d.1 m.
Proof.
  unfold dep_step. intros ->. destruct (has_key m d.1) eqn:E; cbn; [done|].
  apply has_key_false in E. by rewrite delete_id.
Qed.

(** One removal of the source is one step of the table. *)
Definition remove_when (bad : gmap string N -> bool) (k : string) (m : gmap string N) :=
  if bad m then delete k m else m.

Lemma remove_when_step bad k reqs m :
  bad m = has_key m k && negb (reqs_met m reqs) \/ bad m = negb (reqs_met m reqs) ->
  remove_when bad k m = dep_step m (k, reqs).
Proof.
  unfold remove_when. intros [->| ->]; [done|].
  destruct (negb (reqs_met m reqs)) eqn:E; [by rewrite dep_step_absent|].
  unfold dep_step. cbn [fst snd]. by rewrite E, andb_false_r.
Qed.

Lemma prune_capabilities_table m : prune_capabilities m = foldl dep_step m dependencies.
Proof.
  change (prune_capabilities m) with
   (remove_when (fun m => negb (has_key m CAPABILITY_STREAM_CHANNELS)) CAPABILITY_TCP_FORWARD
   (remove_when (fun m => negb (has_key m CAPABILITY_INPUT_LEASE)) CAPABILITY_INPUT_RESUME
   (remove_when (fun m => has_key m CAPABILITY_INPUT_LEASE && negb (has_key m CAPABILITY_SESSION_OBJECTS))
      CAPABILITY_INPUT_LEASE
   (remove_when (fun m => has_key m CAPABILITY_DATAGRAM_STATE
      && (negb (has_key m CAPABILITY_STATE_ACK) || negb (has_key m CAPABILITY_SESSION_OBJECTS)
          || negb (at_least m CAPABILITY_SEMANTIC_STATE 2))) CAPABILITY_DATAGRAM_STATE
   (remove_when (fun m => has_key m CAPABILITY_SEMANTIC_DIFF
      && (negb (has_key m CAPABILITY_STATE_ACK) || negb (at_least m CAPABILITY_SEMANTIC_STATE 2)))
      CAPABILITY_SEMANTIC_DIFF
   (remove_when (fun m => has_key m CAPABILITY_STATE_ACK && negb (at_least m CAPABILITY_SEMANTIC_STATE 2))
      CAPABILITY_STATE_ACK
   (remove_when (fun m => has_key m CAPABILITY_HISTORY_PAGING && negb (at_least m CAPABILITY_SEMANTIC_STATE 2))
      CAPABILITY_HISTORY_PAGING
   (remove_when (fun m => has_key m CAPABILITY_CLIPBOARD_WRITE && negb (at_least m CAPABILITY_SEMANTIC_STATE 2))
      CAPABILITY_CLIPBOARD_WRITE m)))))))).
  unfold dependencies. cbn [foldl].
  assert (H : forall m m' bad k reqs, m = m' ->
    bad m = has_key m k && negb (reqs_met m reqs) \/ bad m = negb (reqs_met m reqs) ->
    remove_when bad k m = dep_step m' (k, reqs)).
  { intros ? ? ? ? ? <-. apply remove_when_step. }
  repeat (apply H; [|unfold reqs_met; cbn [forallb fst snd];
    rewrite ?at_least_0, ?andb_true_r, ?negb_andb, ?orb_assoc; tauto]). reflexivity.
Qed.
