(* ===== verification/NegotiationSpec.v ===== *)
(** * What negotiation promises

    An abstract specification of [Negotiation]: which protocol choices are
    acceptable to both sides, the preference order on them, and the theorems
    that the server picks the best acceptable choice and that the client and
    the worker accept exactly such choices. *)
From S2P Require Import Prelude Negotiation.
Open Scope N_scope.

(** ** Acceptable choices *)

Definition range_ok (lo hi : N) : Prop := 0 < lo /\ lo <= hi.
Definition offer_ok (o : CapabilityOffer) : Prop :=
  validate_capability_name (co_name o) = Ok tt /\ range_ok (co_minimum_version o) (co_maximum_version o).
Definition offers_ok (l : list CapabilityOffer) : Prop :=
  llen l <= MAX_CAPABILITIES /\ Forall offer_ok l /\ NoDup (co_name <$> l).

Definition cap_ok (c : CapabilityRange) : Prop :=
  validate_capability_name (cr_name c) = Ok tt /\ range_ok (cr_minimum_version c) (cr_maximum_version c).
Definition support_ok (s : ProtocolSupport) : Prop :=
  range_ok (sup_minimum_version s) (sup_maximum_version s) /\
  llen (sup_capabilities s) <= MAX_CAPABILITIES /\
  Forall cap_ok (sup_capabilities s) /\ NoDup (cr_name <$> sup_capabilities s).

(** A choice the client's offer allows, and one the server's support allows. *)
Definition client_allows (hello : ClientHello) (np : NegotiatedProtocol) : Prop :=
  (exists lo hi, hello_version_range hello = Ok (lo, hi) /\ lo <= np_version np <= hi) /\
  forall name v, np_capabilities np !! name = Some v ->
    exists o, o ∈ ch_capabilities hello /\ co_name o = name /\
              co_minimum_version o <= v <= co_maximum_version o.
Definition server_allows (s : ProtocolSupport) (np : NegotiatedProtocol) : Prop :=
  (sup_minimum_version s <= np_version np <= sup_maximum_version s) /\
  forall name v, np_capabilities np !! name = Some v ->
    exists c, c ∈ sup_capabilities s /\ cr_name c = name /\
              cr_minimum_version c <= v <= cr_maximum_version c.
Definition closed (np : NegotiatedProtocol) : Prop :=
  validate_capability_dependencies (np_capabilities np) = Ok tt.

(** [np] is at most as good as [np']. *)
Definition caps_le (m m' : gmap string N) : Prop :=
  forall name v, m !! name = Some v -> exists v', m' !! name = Some v' /\ v <= v'.
Definition protocol_le (np np' : NegotiatedProtocol) : Prop :=
  np_version np <= np_version np' /\ caps_le (np_capabilities np) (np_capabilities np').

(** ** The validation loops *)

Lemma name_unit name u : validate_capability_name name = Ok u <-> validate_capability_name name = Ok tt.
Proof. by destruct u. Qed.

Lemma range_okb lo hi : (0 <? lo) && (lo <=? hi) = true <-> range_ok lo hi.
Proof. unfold range_ok. rewrite andb_true_iff, N.ltb_lt, N.leb_le. done. Qed.

Lemma contains_spec lo hi v : contains lo hi v = true <-> lo <= v <= hi.
Proof. unfold contains. rewrite andb_true_iff, !N.leb_le. done. Qed.

Lemma validate_support_spec s : validate_support s = Ok tt <-> support_ok s.
Proof.
  unfold validate_support, support_ok. rewrite <- range_okb.
  destruct (_ && _); [|split; [done|intros [? _]; done]].
  destruct (N.leb_spec (llen (sup_capabilities s)) MAX_CAPABILITIES) as [Hl|Hl];
    [|split; [done|intros (_ & ? & _); lia]].
  match goal with |- context [try_fold ?f _ _] => set (body := f) end.
  pose proof (insert_set_loop body cap_ok cr_name) as Hloop.
  transitivity (is_ok (try_fold body ∅ (sup_capabilities s)) = true).
  { destruct (try_fold _ _ _); cbn; split; done. }
  rewrite Hloop; [tauto|]. intros m x m'. subst body. cbv beta. unfold cap_ok.
  rewrite <- range_okb. destruct (validate_capability_name _) as [[]|]; cbn [mbind result_bind];
    [|split; [done|intros [[? _] _]; done]].
  destruct (_ && _); [|split; [done|intros [[_ ?] _]; done]].
  case_bool_decide; cbn [negb]; [split; [done|tauto]|].
  split; [intros [= <-]; tauto|]. by intros (_ & _ & ->).
Qed.

Section offers.
Context (offers : list CapabilityOffer).

Let body := fun (res : gmap string (N * N)) offer =>
  _ ← validate_capability_name (co_name offer);
  ensure! (0 <? co_minimum_version offer)
          && (co_minimum_version offer <=? co_maximum_version offer),
    "client capability has an invalid version range";
  ensure! negb (has_key res (co_name offer)), "client capability is duplicated";
  Ok (<[co_name offer := (co_minimum_version offer, co_maximum_version offer)]> res).

Lemma offers_body m x m' : body m x = Ok m' <->
  offer_ok x /\ m !! co_name x = None /\
  m' = <[co_name x := (co_minimum_version x, co_maximum_version x)]> m.
Proof.
  unfold body, offer_ok. rewrite <- range_okb.
  destruct (validate_capability_name _) as [[]|]; cbn [mbind result_bind];
    [|split; [done|intros [[? _] _]; done]].
  destruct (_ && _); [|split; [done|intros [[_ ?] _]; done]].
  destruct (has_key _ _) eqn:E; cbn [negb].
  - apply has_key_true in E as [? E]. rewrite E. split; [done|]. by intros (_ & ? & _).
  - apply has_key_false in E. split; [intros [= <-]; tauto|]. by intros (_ & _ & ->).
Qed.

Lemma validate_offers_sound m : validate_offers offers = Ok m ->
  offers_ok offers /\
  forall name lo hi, m !! name = Some (lo, hi) <->
    exists o, o ∈ offers /\ co_name o = name /\
              co_minimum_version o = lo /\ co_maximum_version o = hi.
Proof.
  unfold validate_offers. fold body. intros H. ok_step H. bool_prop.
  apply (insert_loop_sound body offer_ok co_name _ offers_body) in H as (Hc & Hnd & Hl).
  split; [done|]. intros name lo hi. rewrite Hl.
  split; intros (o & Hin & Hn & Hv); exists o; [simplify_eq; tauto|].
  destruct Hv as [<- <-]. tauto.
Qed.

Lemma validate_offers_complete : offers_ok offers -> exists m, validate_offers offers = Ok m.
Proof.
  unfold validate_offers, offers_ok. fold body. intros (Hl & Hc & Hnd).
  rewrite (proj2 (N.leb_le _ _) Hl).
  by apply (insert_loop_complete body offer_ok co_name _ offers_body).
Qed.
End offers.

(** ** The common capabilities *)

Lemma common_capabilities_absent l client name :
  name ∉ cr_name <$> l -> common_capabilities l client !! name = None.
Proof.
  unfold common_capabilities. induction l as [|s l IH] using rev_ind; [done|].
  rewrite fmap_app, not_elem_of_app, foldl_app. cbn [foldl fmap list_fmap].
  rewrite list_elem_of_singleton. intros [Hl Hne].
  repeat case_match; rewrite ?lookup_insert_ne by done; by apply IH.
Qed.

Lemma common_capabilities_spec l client name v :
  NoDup (cr_name <$> l) ->
  common_capabilities l client !! name = Some v <->
  exists s lo hi, s ∈ l /\ cr_name s = name /\ client !! name = Some (lo, hi) /\
    v = N.min hi (cr_maximum_version s) /\ N.max lo (cr_minimum_version s) <= v.
Proof.
  unfold common_capabilities. induction l as [|s l IH] using rev_ind; intros Hnd.
  { cbn. rewrite lookup_empty. split; [done|]. intros (? & ? & ? & H & _). by apply elem_of_nil in H. }
  rewrite fmap_app in Hnd. apply NoDup_app in Hnd as (Hnd & Hni & _). specialize (IH Hnd).
  rewrite foldl_app. cbn [foldl].
  match goal with |- context [foldl ?f ∅ l] => set (m := foldl f ∅ l) in * end.
  assert (Hnew : forall s', s' ∈ l -> cr_name s' <> cr_name s).
  { intros s' Hs' Heq. apply (Hni (cr_name s')); [by apply list_elem_of_fmap_2|].
    rewrite Heq. by apply list_elem_of_singleton. }
  assert (Hold : name <> cr_name s -> (m !! name = Some v <->
    exists s0 lo hi, s0 ∈ l ++ [s] /\ cr_name s0 = name /\ client !! name = Some (lo, hi) /\
    v = N.min hi (cr_maximum_version s0) /\ N.max lo (cr_minimum_version s0) <= v)).
  { intros Hne. rewrite IH. split; intros (s0 & lo & hi & Hin & Hn & H); exists s0, lo, hi.
    - rewrite elem_of_app. tauto.
    - apply elem_of_app in Hin as [Hin|Hin%list_elem_of_singleton]; [tauto|congruence]. }
  assert (Hm : m !! cr_name s = None).
  { apply common_capabilities_absent. intros (s' & Hn & Hs')%list_elem_of_fmap.
    by apply (Hnew s' Hs'). }
  destruct (decide (name = cr_name s)) as [->|Hne].
  - assert (Hs : (exists s0 lo hi, s0 ∈ l ++ [s] /\ cr_name s0 = cr_name s /\
      client !! cr_name s = Some (lo, hi) /\ v = N.min hi (cr_maximum_version s0) /\
      N.max lo (cr_minimum_version s0) <= v) <->
      exists lo hi, client !! cr_name s = Some (lo, hi) /\ v = N.min hi (cr_maximum_version s) /\
        N.max lo (cr_minimum_version s) <= v).
    { split; intros H.
      - destruct H as (s0 & lo & hi & [Hin|Hin%list_elem_of_singleton]%elem_of_app & Hn & H);
          [by apply Hnew in Hin|subst; eauto].
      - destruct H as (lo & hi & H). exists s, lo, hi. split; [|tauto].
        apply elem_of_app. right. by left. }
    rewrite Hs. destruct (client !! cr_name s) as [[lo hi]|].
    + case_match eqn:E; bool_prop.
      * rewrite lookup_insert_eq. split; [intros [= <-]; eauto|].
        intros (? & ? & [= <- <-] & -> & _). done.
      * rewrite Hm. split; [done|]. intros (? & ? & [= <- <-] & -> & ?). lia.
    + rewrite Hm. split; [done|]. by intros (? & ? & ? & _).
  - rewrite <- Hold by done. repeat case_match; rewrite ?lookup_insert_ne by done; done.
Qed.

(** ** Pruning keeps the best closed choice *)

Lemma at_least_caps_le m m' k v : caps_le m m' -> at_least m k v = true -> at_least m' k v = true.
Proof.
  unfold at_least. intros Hle. destruct (m !! k) as [w|] eqn:E; [|done].
  destruct (Hle _ _ E) as (w' & -> & Hw). rewrite !N.leb_le. lia.
Qed.
Lemma reqs_met_caps_le m m' reqs : caps_le m m' -> reqs_met m reqs = true -> reqs_met m' reqs = true.
Proof. unfold reqs_met. rewrite !forallb_forall. intros Hsub H x Hx. eauto using at_least_caps_le. Qed.

Lemma foldl_dep_step_best ds m m' :
  caps_le m' m -> Forall (dep_ok m') ds -> caps_le m' (foldl dep_step m ds).
Proof.
  revert m. induction ds as [|d ds IH]; intros m Hle Hok; [done|]. cbn.
  apply Forall_cons in Hok as [Hd Hok]. apply IH; [|done].
  unfold dep_step. case_match eqn:E; [|done].
  apply andb_prop in E as [_ E]. apply negb_true_iff in E.
  intros k v Hk. rewrite lookup_delete_ne; [by apply Hle|].
  intros <-. rewrite (reqs_met_caps_le m' m) in E; [done|done|]. apply Hd. eauto.
Qed.

Lemma prune_closed m : validate_capability_dependencies (prune_capabilities m) = Ok tt.
Proof.
  apply validate_dependencies_table. rewrite prune_capabilities_table.
  apply foldl_dep_step_closed, dependencies_ordered.
Qed.
Lemma prune_subseteq m : prune_capabilities m ⊆ m.
Proof. rewrite prune_capabilities_table. apply foldl_dep_step_subseteq. Qed.
Lemma prune_best m m' :
  caps_le m' m -> validate_capability_dependencies m' = Ok tt -> caps_le m' (prune_capabilities m).
Proof.
  intros Hle Hd%validate_dependencies_table. rewrite prune_capabilities_table.
  by apply foldl_dep_step_best.
Qed.

Section common.
Context (hello : ClientHello) (server : ProtocolSupport) (client : gmap string (N * N)).
Context (Hclient : validate_offers (ch_capabilities hello) = Ok client) (Hserver : support_ok server).

Lemma common_allowed name v :
  common_capabilities (sup_capabilities server) client !! name = Some v ->
  (exists o, o ∈ ch_capabilities hello /\ co_name o = name /\
             co_minimum_version o <= v <= co_maximum_version o) /\
  (exists c, c ∈ sup_capabilities server /\ cr_name c = name /\
             cr_minimum_version c <= v <= cr_maximum_version c).
Proof using Hclient Hserver.
  apply validate_offers_sound in Hclient as [_ Hl]. destruct Hserver as (_ & _ & _ & Hnd).
  intros (s & lo & hi & Hin & Hn & Hlo & -> & Hv)%common_capabilities_spec; [|done].
  apply Hl in Hlo as (o & Ho & Hon & <- & <-). split; eexists; split_and!; [done..|lia|lia|done|done|lia|lia].
Qed.

Lemma common_best m :
  (forall name v, m !! name = Some v ->
    (exists o, o ∈ ch_capabilities hello /\ co_name o = name /\
               co_minimum_version o <= v <= co_maximum_version o) /\
    (exists c, c ∈ sup_capabilities server /\ cr_name c = name /\
               cr_minimum_version c <= v <= cr_maximum_version c)) ->
  caps_le m (common_capabilities (sup_capabilities server) client).
Proof using Hclient Hserver.
  apply validate_offers_sound in Hclient as [_ Hl]. destruct Hserver as (_ & _ & _ & Hnd).
  intros Hm name v [(o & Ho & Hon & Hov) (c & Hc & Hcn & Hcv)]%Hm.
  eexists. rewrite common_capabilities_spec by done. split.
  - exists c, (co_minimum_version o), (co_maximum_version o).
    rewrite Hl. split_and!; [done|done|exists o; by split_and!|done|lia].
  - lia.
Qed.
End common.

(** ** Selections *)

(** The selections [l] for version [version] denote the choice [np]. *)
Definition selects (version : N) (l : list CapabilitySelection) (np : NegotiatedProtocol) : Prop :=
  np_version np = version /\ llen l <= MAX_CAPABILITIES /\ NoDup (cs_name <$> l) /\
  forall name v, np_capabilities np !! name = Some v <-> mkSelection name v ∈ l.

Lemma selections_perm np :
  selections np ≡ₚ (fun '(name, version) => mkSelection name version) <$> map_to_list (np_capabilities np).
Proof. unfold selections. apply fmap_Permutation, merge_sort_Permutation. Qed.

Lemma selections_selects np :
  N.of_nat (size (np_capabilities np)) <= MAX_CAPABILITIES ->
  selects (np_version np) (selections np) np.
Proof.
  intros Hsize. pose proof (selections_perm np) as Hp. split_and!; [done| | |].
  - unfold llen. rewrite Hp, length_fmap, length_map_to_list. done.
  - rewrite Hp, <- list_fmap_compose. erewrite list_fmap_ext; [apply NoDup_fst_map_to_list|].
    by intros i [k v] _.
  - intros name v. rewrite Hp, list_elem_of_fmap, <- elem_of_map_to_list. split.
    + intros H. by exists (name, v).
    + intros ([n w] & [= -> ->] & H). done.
Qed.

Section selection_loop.
Context (f : gmap string N -> CapabilitySelection -> result (gmap string N)).
Context (chk : CapabilitySelection -> Prop).
Hypothesis f_spec : forall m x m',
  f m x = Ok m' <-> chk x /\ m !! cs_name x = None /\ m' = <[cs_name x := cs_version x]> m.

Lemma selection_loop version l np :
  llen l <= MAX_CAPABILITIES ->
  (np_version np = version /\ try_fold f ∅ l = Ok (np_capabilities np)) <->
  (selects version l np /\ forall name v, np_capabilities np !! name = Some v -> chk (mkSelection name v)).
Proof using f_spec.
  intros Hlen. unfold selects. split.
  - intros [Hv H]. apply (insert_loop_sound f chk cs_name _ f_spec) in H as (Hc & Hnd & Hl).
    assert (Hl' : forall name v, np_capabilities np !! name = Some v <-> mkSelection name v ∈ l).
    { intros name v. rewrite Hl. split; [|by eauto]. by intros ([? ?] & ? & <- & <-). }
    split_and!; [done..|]. intros name v Hin%Hl'. rewrite Forall_forall in Hc. by apply Hc.
  - intros [(Hv & _ & Hnd & Hl) Hchk]. split; [done|].
    assert (Hc : Forall chk l).
    { apply Forall_forall. intros [name v] Hin%Hl. by apply Hchk. }
    destruct (insert_loop_complete f chk cs_name _ f_spec l Hc Hnd) as [m Hm].
    rewrite Hm. f_equal. apply (insert_loop_sound f chk cs_name _ f_spec) in Hm as (_ & _ & Hm).
    apply map_eq. intros name. apply option_eq. intros v. rewrite Hl, Hm.
    split; [by intros ([? ?] & ? & <- & <-)|by eauto].
Qed.
End selection_loop.

Lemma guard_new {A} (m : gmap string A) k v e (m' : gmap string A) :
  (if negb (has_key m k) then Ok (<[k := v]> m) else Err e) = Ok m' <->
  m !! k = None /\ m' = <[k := v]> m.
Proof.
  destruct (has_key m k) eqn:E; cbn.
  - apply has_key_true in E as [? E]. rewrite E. split; [done|]. by intros [? _].
  - apply has_key_false in E. split; [by intros [= <-]|by intros [_ ->]].
Qed.

Lemma validate_offers_range l m o :
  validate_offers l = Ok m -> o ∈ l ->
  offer_ok o /\ m !! co_name o = Some (co_minimum_version o, co_maximum_version o).
Proof.
  intros [(_ & Hok & _) Hl]%validate_offers_sound Hin. split.
  - rewrite Forall_forall in Hok. by apply Hok.
  - apply Hl. by exists o.
Qed.

Lemma validate_server_hello_iff hello sh np :
  validate_server_hello hello sh = Ok np <->
  offers_ok (ch_capabilities hello) /\ selects (sh_protocol_version sh) (sh_capabilities sh) np /\
  client_allows hello np /\ closed np.
Proof.
  unfold validate_server_hello.
  destruct (hello_version_range hello) as [[lo hi]|e] eqn:Er; cbn [mbind result_bind];
    [|split; [done|by intros (_ & _ & [(? & ? & H & _) _] & _); rewrite Er in H]].
  destruct (contains lo hi _) eqn:Ec;
    [|split; [done|intros (_ & (Hv & _) & [(? & ? & H & Hin) _] & _)];
      rewrite Er in H; simplify_eq; rewrite Hv in Hin; apply contains_spec in Hin; congruence].
  destruct (validate_offers (ch_capabilities hello)) as [offers|e] eqn:Eo; cbn [mbind result_bind];
    [|split; [done|intros (H & _); apply validate_offers_complete in H as [? H]; congruence]].
  destruct (N.leb_spec (llen (sh_capabilities sh)) MAX_CAPABILITIES) as [Hl|Hl];
    [|split; [done|intros (_ & (_ & ? & _) & _); lia]].
  match goal with |- context [try_fold ?f _ _] => set (body := f) end.
  pose (chk := fun s => exists o, o ∈ ch_capabilities hello /\ co_name o = cs_name s /\
    co_minimum_version o <= cs_version s <= co_maximum_version o).
  assert (Hbody : forall m x m', body m x = Ok m' <->
    chk x /\ m !! cs_name x = None /\ m' = <[cs_name x := cs_version x]> m).
  { intros m x m'. subst body. cbv beta. split.
    - intros H. do 5 ok_step H. subst. apply guard_new in H as [Hn ->]. split_and!; [|done|done].
      apply validate_offers_sound in Eo as [_ Eo]. apply Eo in Hm as (o & ? & ? & <- & <-).
      apply contains_spec in Hb0. by exists o.
    - intros ((o & Ho & Hn & Hv) & Hnone & ->).
      destruct (validate_offers_range _ _ _ Eo Ho) as [[Hname [Hpos _]] Hlook].
      rewrite Hn in Hname, Hlook. rewrite Hname, Hlook. cbn [mbind result_bind].
      rewrite (proj2 (N.ltb_lt _ _)) by lia. rewrite (proj2 (contains_spec _ _ _)) by done.
      by apply guard_new. }
  pose proof (selection_loop body chk Hbody (sh_protocol_version sh) _ np Hl) as Hloop.
  transitivity ((np_version np = sh_protocol_version sh /\
    try_fold body ∅ (sh_capabilities sh) = Ok (np_capabilities np)) /\ closed np).
  { unfold closed. destruct np as [v caps]. cbn [np_version np_capabilities].
    destruct (try_fold body ∅ _) as [m|]; cbn [mbind result_bind]; [|split; [done|by intros [[_ ?] _]]].
    split.
    - destruct (validate_capability_dependencies m) as [[]|] eqn:Ed; cbn; [|done].
      intros [= <- <-]. done.
    - by intros [[<- [= ->]] ->]. }
  rewrite Hloop. unfold client_allows. rewrite Er.
  apply validate_offers_sound in Eo as [Eo _]. apply contains_spec in Ec. split.
  - intros [[Hs Hc] Hd]. split; [done|]. split; [done|]. split; [|done].
    split; [|exact Hc]. destruct Hs as [-> _]. eauto.
  - intros (_ & Hs & [_ Hc] & Hd). done.
Qed.

Lemma supported_map_spec l :
  NoDup (cr_name <$> l) -> forall name c,
  foldl (fun (m : gmap string CapabilityRange) c => <[cr_name c := c]> m) ∅ l !! name = Some c <->
  c ∈ l /\ cr_name c = name.
Proof.
  induction l as [|s l IH] using rev_ind; intros Hnd name c.
  { cbn. rewrite lookup_empty. split; [done|]. by intros [H%elem_of_nil _]. }
  rewrite fmap_app in Hnd. apply NoDup_app in Hnd as (Hnd & Hni & _).
  rewrite foldl_app. cbn [foldl]. rewrite elem_of_app, list_elem_of_singleton.
  destruct (decide (name = cr_name s)) as [->|Hne].
  - rewrite lookup_insert_eq. split; [intros [= <-]; tauto|].
    intros [[Hin| ->] Hn]; [|done]. exfalso. apply (Hni (cr_name c)); [by apply list_elem_of_fmap_2|].
    rewrite Hn. by apply list_elem_of_singleton.
  - rewrite lookup_insert_ne, IH by done. split; [tauto|]. intros [[Hin| ->] Hn]; [done|congruence].
Qed.

Lemma validate_worker_selection_iff version l s np :
  validate_worker_selection version l s = Ok np <->
  support_ok s /\ selects version l np /\ server_allows s np /\ closed np.
Proof.
  unfold validate_worker_selection.
  destruct (validate_support s) as [[]|e] eqn:Es; cbn [mbind result_bind];
    [|split; [done|by intros (H & _); apply validate_support_spec in H; congruence]].
  apply validate_support_spec in Es as Hs.
  destruct (contains _ _ version) eqn:Ec;
    [|split; [done|intros (_ & (Hv & _) & [Hin _] & _)];
      rewrite Hv in Hin; apply contains_spec in Hin; congruence].
  destruct (N.leb_spec (llen l) MAX_CAPABILITIES) as [Hl|Hl];
    [|split; [done|intros (_ & (_ & ? & _) & _); lia]].
  pose proof (supported_map_spec (sup_capabilities s)) as Hmap.
  set (supported := foldl _ _ _) in *. specialize (Hmap ltac:(apply Hs)).
  match goal with |- context [try_fold ?f _ _] => set (body := f) end.
  pose (chk := fun x => exists c, c ∈ sup_capabilities s /\ cr_name c = cs_name x /\
    cr_minimum_version c <= cs_version x <= cr_maximum_version c).
  assert (Hbody : forall m x m', body m x = Ok m' <->
    chk x /\ m !! cs_name x = None /\ m' = <[cs_name x := cs_version x]> m).
  { intros m x m'. subst body. cbv beta. split.
    - intros H. do 3 ok_step H. ok_inv Hr0. apply guard_new in H as [Hn ->]. split_and!; [|done|done].
      apply Hmap in Ho as [? ?]. apply contains_spec in Hb. by eexists.
    - intros ((c & Hc & Hn & Hv) & Hnone & ->).
      assert (Hname : cap_ok c) by (destruct Hs as (_ & _ & Hs & _); rewrite Forall_forall in Hs; auto).
      destruct Hname as [Hname _]. rewrite Hn in Hname. rewrite Hname.
      rewrite (proj2 (Hmap _ _) (conj Hc Hn)). cbn [mbind result_bind ok_or].
      rewrite (proj2 (contains_spec _ _ _)) by done. by apply guard_new. }
  pose proof (selection_loop body chk Hbody version _ np Hl) as Hloop.
  transitivity ((np_version np = version /\
    try_fold body ∅ l = Ok (np_capabilities np)) /\ closed np).
  { unfold closed. destruct np as [v caps]. cbn [np_version np_capabilities].
    destruct (try_fold body ∅ _) as [m|]; cbn [mbind result_bind]; [|split; [done|by intros [[_ ?] _]]].
    split.
    - destruct (validate_capability_dependencies m) as [[]|] eqn:Ed; cbn; [|done].
      intros [= <- <-]. done.
    - by intros [[<- [= ->]] ->]. }
  rewrite Hloop. unfold server_allows. apply contains_spec in Ec. split.
  - intros [[Hsel Hc] Hd]. split; [done|]. split; [done|]. split; [|done].
    split; [|exact Hc]. destruct Hsel as [-> _]. done.
  - intros (_ & Hsel & [_ Hc] & Hd). done.
Qed.

(** ** The theorems *)

Lemma negotiate_Ok hello server np :
  negotiate_client_hello hello server = Ok np <->
  support_ok server /\ exists lo hi client,
    hello_version_range hello = Ok (lo, hi) /\ validate_offers (ch_capabilities hello) = Ok client /\
    N.max lo (sup_minimum_version server) <= N.min hi (sup_maximum_version server) /\
    np = mkNegotiated (N.min hi (sup_maximum_version server))
           (prune_capabilities (common_capabilities (sup_capabilities server) client)).
Proof.
  unfold negotiate_client_hello. rewrite <- validate_support_spec. split.
  - intros H. ok_inv H. destruct a. bool_prop. split; [done|]. do 3 eexists. split_and!; done.
  - intros [-> (lo & hi & client & -> & -> & Hle & ->)]. cbn [mbind result_bind].
    by rewrite (proj2 (N.leb_le _ _) Hle).
Qed.

Lemma negotiate_allowed hello server np :
  negotiate_client_hello hello server = Ok np ->
  client_allows hello np /\ server_allows server np /\ closed np.
Proof.
  intros (Hs & lo & hi & client & Hr & Hc & Hle & ->)%negotiate_Ok.
  split; [|split; [|apply prune_closed]]; (split; [|intros name v Hv; cbn in Hv]).
  - exists lo, hi. split; [done|]. cbn. lia.
  - eapply common_allowed; [done..|]. eapply lookup_weaken; [done|apply prune_subseteq].
  - cbn. lia.
  - eapply common_allowed; [done..|]. eapply lookup_weaken; [done|apply prune_subseteq].
Qed.

(** A choice the server allows has at most as many capabilities as it supports. *)
Lemma server_allows_size s np :
  support_ok s -> server_allows s np -> N.of_nat (size (np_capabilities np)) <= MAX_CAPABILITIES.
Proof.
  intros (_ & Hl & _) [_ Hc]. unfold llen in Hl.
  enough (size (np_capabilities np) <= length (sup_capabilities s))%nat by lia.
  rewrite <- size_dom. transitivity (size (list_to_set (cr_name <$> sup_capabilities s) : gset string)).
  - apply subseteq_size. intros name [v Hv]%elem_of_dom. apply elem_of_list_to_set.
    destruct (Hc _ _ Hv) as (c & Hin & <- & _). by apply list_elem_of_fmap_2.
  - rewrite <- (length_fmap cr_name). generalize (cr_name <$> sup_capabilities s). clear.
    induction l as [|x l IH]; [done|]. cbn [list_to_set length].
    rewrite size_union_alt, size_singleton.
    assert (size (list_to_set l ∖ {[x]} : gset string) <= size (list_to_set l : gset string))%nat
      by (apply subseteq_size; set_solver). lia.
Qed.

(** C32: the outcome of [negotiate_client_hello] is acceptable to the client and
    to the server and respects every capability dependency, and it is the best
    such choice: no acceptable choice has a higher protocol version, offers a
    capability the outcome lacks, or has a higher version of one. *)
Theorem negotiation_optimal hello server np :
  negotiate_client_hello hello server = Ok np ->
  (client_allows hello np /\ server_allows server np /\ closed np) /\
  forall np', client_allows hello np' -> server_allows server np' -> closed np' ->
    protocol_le np' np.
Proof.
  intros H. split; [by apply negotiate_allowed|].
  apply negotiate_Ok in H as (Hs & lo & hi & client & Hr & Hc & Hle & ->).
  intros np' [(lo' & hi' & Hr' & Hv) Hcc] [Hsv Hsc] Hd. rewrite Hr in Hr'. simplify_eq.
  split; cbn; [lia|]. apply prune_best; [|done]. eapply common_best; [done..|].
  intros name v Hnv. auto.
Qed.

Lemma negotiation_optimal_witness :
  exists np, negotiate_client_hello (client_hello "alice" command_line_client) support_runtime = Ok np /\
  np_capabilities np !! CAPABILITY_TCP_FORWARD = Some 1 /\
  (client_allows (client_hello "alice" command_line_client) np /\
   server_allows support_runtime np /\ closed np) /\
  forall np', client_allows (client_hello "alice" command_line_client) np' ->
    server_allows support_runtime np' -> closed np' -> protocol_le np' np.
Proof.
  eexists. split; [vm_compute; reflexivity|]. split; [vm_compute; reflexivity|].
  apply negotiation_optimal. vm_compute. reflexivity.
Defined.

(** Negotiation fails only for a reason: it succeeds exactly when the
    server's support and the client's offers are well formed and some protocol
    choice is acceptable to both. *)
Theorem negotiation_complete hello server :
  is_ok (negotiate_client_hello hello server) = true <->
  support_ok server /\ offers_ok (ch_capabilities hello) /\
  exists np, client_allows hello np /\ server_allows server np /\ closed np.
Proof.
  split.
  - destruct (negotiate_client_hello hello server) as [np|] eqn:E; [|done]. intros _.
    pose proof (negotiate_allowed _ _ _ E) as Hall.
    apply negotiate_Ok in E as (Hs & lo & hi & client & Hr & Hc & _).
    apply validate_offers_sound in Hc as [Hc _]. eauto.
  - intros (Hs & Ho & np & [(lo & hi & Hr & Hv) _] & [Hsv _] & _).
    apply validate_offers_complete in Ho as [client Hc].
    erewrite (proj2 (negotiate_Ok hello server _)); [done|]. split; [done|].
    exists lo, hi, client. split_and!; [done|done|lia|done].
Qed.

(** Every party reaches the same protocol: the hello the server sends for
    its choice is accepted by the client, and the selection the gateway
    forwards is accepted by a worker with the same support, both with exactly
    the negotiated version and capabilities. *)
Theorem negotiation_agreement hello server np challenge inst :
  negotiate_client_hello hello server = Ok np ->
  validate_server_hello hello (mkServerHello (np_version np) challenge inst (selections np)) = Ok np /\
  validate_worker_selection (np_version np) (selections np) server = Ok np.
Proof.
  intros H. pose proof (negotiate_allowed _ _ _ H) as (Hca & Hsa & Hd).
  apply negotiate_Ok in H as (Hs & lo & hi & client & Hr & Hc & _).
  apply validate_offers_sound in Hc as [Hc _].
  pose proof (selections_selects np (server_allows_size _ _ Hs Hsa)) as Hsel. split.
  - by apply validate_server_hello_iff.
  - by apply validate_worker_selection_iff.
Qed.

Lemma negotiation_agreement_witness :
  exists np, negotiate_client_hello (client_hello "bob" rust_semantic_client) support_runtime = Ok np /\
  validate_server_hello (client_hello "bob" rust_semantic_client)
    (mkServerHello (np_version np) [1; 2] "i" (selections np)) = Ok np /\
  validate_worker_selection (np_version np) (selections np) support_runtime = Ok np.
Proof.
  eexists. split; [vm_compute; reflexivity|].
  apply negotiation_agreement. vm_compute. reflexivity.
Defined.

(** The client accepts a server hello, and the worker a forwarded
    selection, exactly when the selections are at most [MAX_CAPABILITIES]
    distinct capabilities, each inside a range that was offered (supported),
    the version is inside the offered (supported) range and the dependencies
    are respected; what is returned is the selection that was sent. *)
Theorem selections_accepted_iff :
  (forall hello sh np, validate_server_hello hello sh = Ok np <->
    offers_ok (ch_capabilities hello) /\ selects (sh_protocol_version sh) (sh_capabilities sh) np /\
    client_allows hello np /\ closed np) /\
  (forall version l s np, validate_worker_selection version l s = Ok np <->
    support_ok s /\ selects version l np /\ server_allows s np /\ closed np).
Proof. split; [exact validate_server_hello_iff|exact validate_worker_selection_iff]. Qed.
