(* ===== verification/TerminalState.v ===== *)
(** * Terminal states and their validation (src/src/terminal_state_v2.rs)

    The semantic terminal state the server sends, with every check [validate]
    and [validate_history_page] make on one.  Vectors are lists, [i32]
    enumeration fields are [Z], the other integers [N]; hash sets of identifiers
    are [gset N].  The size of a protobuf encoding and the grapheme count come
    from libraries and are operations of the class [StateLib]. *)
From S2P Require Import Prelude.
Open Scope N_scope.

Definition SCHEMA_VERSION : N := 2.
Definition EPOCH_BYTES : N := 16.
Definition MAX_ENCODED_STATE_BYTES : N := 8 * 1024 * 1024.
Definition MAX_ENCODED_HISTORY_PAGE_BYTES : N := 4 * 1024 * 1024.
Definition MAX_DIMENSION : N := 1000.
Definition MAX_INCLUDED_ROWS : N := 4096.
Definition MAX_HISTORY_PAGE_ROWS : N := 512.
Definition MAX_CELLS : N := 1000000.
Definition MAX_GRAPHEME_BYTES : N := 256.
Definition MAX_STYLES : N := 4096.
Definition MAX_HYPERLINKS : N := 4096.
Definition MAX_HYPERLINK_URI_BYTES : N := 16 * 1024.
Definition MAX_HYPERLINK_EXPLICIT_ID_BYTES : N := 1024.
Definition MAX_TITLE_BYTES : N := 512.
Definition MAX_WORKING_DIRECTORY_BYTES : N := 16 * 1024.

(** ** Data *)

Record Anchor := mkAnchor { an_logical_line_id : N; an_cell_offset : N }.
#[global] Instance Anchor_eq_dec : EqDecision Anchor.
Proof. solve_decision. Defined.

Record Cell := mkCell {
  cell_column : N; cell_grapheme : string; cell_width : N;
  cell_style_id : N; cell_hyperlink_id : N }.
#[global] Instance Cell_eq_dec : EqDecision Cell.
Proof. solve_decision. Defined.

Record Row := mkRow {
  row_start : option Anchor; row_version : N; row_cells : list Cell; row_wrapped_to_next : bool }.
#[global] Instance Row_eq_dec : EqDecision Row.
Proof. solve_decision. Defined.

Record Cursor := mkCursor {
  cur_x : N; cur_y : N; cur_anchor : option Anchor; cur_shape : Z;
  cur_visible : bool; cur_version : N; cur_wrap_pending : bool }.
#[global] Instance Cursor_eq_dec : EqDecision Cursor.
Proof. solve_decision. Defined.

Record Screen := mkScreen {
  sc_included_rows : list Row;
  sc_viewport_start : N;
  sc_cursor : option Cursor;
  sc_saved_cursor : option Cursor;
  sc_oldest_available : option Anchor;
  sc_newest_available : option Anchor;
  sc_included_start : option Anchor;
  sc_included_end : option Anchor;
  sc_scroll_margin_top : N;
  sc_scroll_margin_bottom : N;
  sc_scroll_margin_left : N;
  sc_scroll_margin_right : N;
  sc_tab_stops : list N
}.
#[global] Instance Screen_eq_dec : EqDecision Screen.
Proof. solve_decision. Defined.

(** [color::Value] and [Color]. *)
Inductive ColorValue :=
| DefaultColor (b : bool)
| PaletteIndex (index : N)
| Rgb (rgb : N).
#[global] Instance ColorValue_eq_dec : EqDecision ColorValue.
Proof. solve_decision. Defined.
Record Color := mkColor { col_value : option ColorValue }.
#[global] Instance Color_eq_dec : EqDecision Color.
Proof. solve_decision. Defined.

Record Style := mkStyle {
  sty_id : N;
  sty_foreground : option Color;
  sty_background : option Color;
  sty_underline_color : option Color;
  sty_intensity : Z;
  sty_underline : Z;
  sty_blink : Z;
  sty_italic : bool;
  sty_reverse : bool;
  sty_strikethrough : bool;
  sty_invisible : bool;
  sty_overline : bool;
  sty_semantic_type : Z;
  sty_vertical_align : Z
}.
#[global] Instance Style_eq_dec : EqDecision Style.
Proof. solve_decision. Defined.

Record Hyperlink := mkHyperlink { hl_id : N; hl_uri : string; hl_explicit_id : string }.
#[global] Instance Hyperlink_eq_dec : EqDecision Hyperlink.
Proof. solve_decision. Defined.

Record Modes := mkModes {
  md_application_cursor_keys : bool;
  md_application_keypad : bool;
  md_bracketed_paste : bool;
  md_focus_tracking : bool;
  md_origin : bool;
  md_insert : bool;
  md_auto_wrap : bool;
  md_reverse_wraparound : bool;
  md_newline : bool;
  md_left_right_margin : bool;
  md_reverse_video : bool;
  md_mouse_tracking : Z;
  md_mouse_encoding : Z;
  md_keyboard_encoding : Z;
  md_keyboard_flags : N;
  md_alternate_scroll : bool
}.
#[global] Instance Modes_eq_dec : EqDecision Modes.
Proof. solve_decision. Defined.

Record Palette := mkPalette {
  pal_indexed_rgb : list N;
  pal_foreground_rgb : N;
  pal_background_rgb : N;
  pal_cursor_fg_rgb : N;
  pal_cursor_bg_rgb : N;
  pal_selection_fg_rgb : N;
  pal_selection_bg_rgb : N
}.
#[global] Instance Palette_eq_dec : EqDecision Palette.
Proof. solve_decision. Defined.

Record State := mkState {
  st_schema_version : N;
  st_epoch : bytes;
  st_generation : N;
  st_rows : N;
  st_cols : N;
  st_primary : option Screen;
  st_alternate : option Screen;
  st_active_screen : Z;
  st_styles : list Style;
  st_hyperlinks : list Hyperlink;
  st_modes : option Modes;
  st_title : string;
  st_working_directory : string;
  st_palette : option Palette
}.
#[global] Instance State_eq_dec : EqDecision State.
Proof. solve_decision. Defined.

Record HistoryPageRequest := mkHistoryPageRequest {
  hpr_epoch : bytes; hpr_before : option Anchor; hpr_maximum_rows : N }.

Record HistoryPage := mkHistoryPage {
  hp_request_id : N;
  hp_epoch : bytes;
  hp_generation : N;
  hp_cols : N;
  hp_included_rows : list Row;
  hp_oldest_available : option Anchor;
  hp_newest_available : option Anchor;
  hp_included_start : option Anchor;
  hp_included_end : option Anchor;
  hp_styles : list Style;
  hp_hyperlinks : list Hyperlink;
  hp_more_before : bool;
  hp_reset_required : bool
}.

(** ** Enumerations: [try_from(i32)] *)

Fixpoint enum_try_from {A} (variants : list (Z * A)) (e : string) (z : Z) : result A :=
  match variants with
  | [] => Err e
  | (v, a) :: variants => if (v =? z)%Z then Ok a else enum_try_from variants e z
  end.

Inductive ScreenKind := ScreenKind_Unspecified | ScreenKind_Primary | ScreenKind_Alternate.
#[global] Instance ScreenKind_eq_dec : EqDecision ScreenKind.
Proof. solve_decision. Defined.
Definition ScreenKind_try_from : Z -> result ScreenKind :=
  enum_try_from [(0%Z, ScreenKind_Unspecified); (1%Z, ScreenKind_Primary); (2%Z, ScreenKind_Alternate)]
    "unknown active screen enum".

Inductive CursorShape :=
  CursorShape_Unspecified | CursorShape_Block | CursorShape_Underline | CursorShape_Bar.
#[global] Instance CursorShape_eq_dec : EqDecision CursorShape.
Proof. solve_decision. Defined.
Definition CursorShape_try_from : Z -> result CursorShape :=
  enum_try_from [(0%Z, CursorShape_Unspecified); (1%Z, CursorShape_Block);
                 (2%Z, CursorShape_Underline); (3%Z, CursorShape_Bar)]
    "unknown cursor shape enum".

Inductive Intensity := Intensity_Normal | Intensity_Bold | Intensity_Faint.
Definition Intensity_try_from : Z -> result Intensity :=
  enum_try_from [(0%Z, Intensity_Normal); (1%Z, Intensity_Bold); (2%Z, Intensity_Faint)]
    "unknown intensity enum".

Inductive Underline :=
  Underline_None | Underline_Single | Underline_Double | Underline_Curly
| Underline_Dotted | Underline_Dashed.
Definition Underline_try_from : Z -> result Underline :=
  enum_try_from [(0%Z, Underline_None); (1%Z, Underline_Single); (2%Z, Underline_Double);
                 (3%Z, Underline_Curly); (4%Z, Underline_Dotted); (5%Z, Underline_Dashed)]
    "unknown underline enum".

Inductive Blink := Blink_None | Blink_Slow | Blink_Rapid.
Definition Blink_try_from : Z -> result Blink :=
  enum_try_from [(0%Z, Blink_None); (1%Z, Blink_Slow); (2%Z, Blink_Rapid)] "unknown blink enum".

Inductive SemanticType := SemanticType_Output | SemanticType_Input | SemanticType_Prompt.
Definition SemanticType_try_from : Z -> result SemanticType :=
  enum_try_from [(0%Z, SemanticType_Output); (1%Z, SemanticType_Input); (2%Z, SemanticType_Prompt)]
    "unknown semantic type enum".

Inductive VerticalAlign :=
  VerticalAlign_Baseline | VerticalAlign_Superscript | VerticalAlign_Subscript.
Definition VerticalAlign_try_from : Z -> result VerticalAlign :=
  enum_try_from [(0%Z, VerticalAlign_Baseline); (1%Z, VerticalAlign_Superscript);
                 (2%Z, VerticalAlign_Subscript)]
    "unknown vertical align enum".

Inductive MouseTracking :=
  MouseTracking_None | MouseTracking_X10 | MouseTracking_Vt200
| MouseTracking_ButtonEvent | MouseTracking_AnyEvent.
Definition MouseTracking_try_from : Z -> result MouseTracking :=
  enum_try_from [(0%Z, MouseTracking_None); (1%Z, MouseTracking_X10); (2%Z, MouseTracking_Vt200);
                 (3%Z, MouseTracking_ButtonEvent); (4%Z, MouseTracking_AnyEvent)]
    "unknown mouse tracking enum".

Inductive MouseEncoding :=
  MouseEncoding_Default | MouseEncoding_Utf8 | MouseEncoding_Sgr | MouseEncoding_SgrPixels.
Definition MouseEncoding_try_from : Z -> result MouseEncoding :=
  enum_try_from [(0%Z, MouseEncoding_Default); (1%Z, MouseEncoding_Utf8); (2%Z, MouseEncoding_Sgr);
                 (3%Z, MouseEncoding_SgrPixels)]
    "unknown mouse encoding enum".

Inductive KeyboardEncoding := KeyboardEncoding_Xterm | KeyboardEncoding_CsiU | KeyboardEncoding_Kitty.
Definition KeyboardEncoding_try_from : Z -> result KeyboardEncoding :=
  enum_try_from [(0%Z, KeyboardEncoding_Xterm); (1%Z, KeyboardEncoding_CsiU);
                 (2%Z, KeyboardEncoding_Kitty)]
    "unknown keyboard encoding enum".

(** ** What the libraries provide

    [prost]'s [Message::encoded_len] of the two messages that are limited by
    their encoded size, and [unicode_segmentation]'s grapheme count. *)
Class StateLib := {
  state_encoded_len : State -> N;
  page_encoded_len : HistoryPage -> N;
  grapheme_count : string -> N
}.

(** ** Validation *)

Definition anchor_key (a : Anchor) : N * N := (an_logical_line_id a, an_cell_offset a).

(** The derived lexicographic order on [(u64, u32)]. *)
Definition key_ltb (a b : N * N) : bool := (a.1 <? b.1) || ((a.1 =? b.1) && (a.2 <? b.2)).
Definition key_leb (a b : N * N) : bool := (a.1 <? b.1) || ((a.1 =? b.1) && (a.2 <=? b.2)).

(** [(lo..=hi).contains(&v)] *)
Definition in_range (lo hi v : N) : bool := (lo <=? v) && (v <=? hi).

Definition is_none {A} (o : option A) : bool := match o with None => true | Some _ => false end.
Definition is_empty {A} (l : list A) : bool := match l with [] => true | _ => false end.

Definition required_anchor (anchor : option Anchor) (name : string) : result Anchor :=
  anchor ← ok_or anchor (name +:+ " is missing");
  ensure! negb (an_logical_line_id anchor =? 0), (name +:+ " has logical line ID zero");
  Ok anchor.

Definition required_cursor (cursor : option Cursor) (name : string) : result Cursor :=
  ok_or cursor (name +:+ " is missing").

Definition validate_color (color : Color) : result unit :=
  v ← ok_or (col_value color) "style color is missing a value";
  match v with
  | DefaultColor _ => Ok tt
  | PaletteIndex index => ensure! index <? 256, "style palette index is out of range"; Ok tt
  | Rgb rgb => ensure! rgb <=? 0x00ffffff, "style RGB is out of range"; Ok tt
  end.

Definition validate_style (style : Style) : result unit :=
  foreground ← ok_or (sty_foreground style) "style foreground is missing";
  _ ← validate_color foreground;
  background ← ok_or (sty_background style) "style background is missing";
  _ ← validate_color background;
  underline_color ← ok_or (sty_underline_color style) "style underline color is missing";
  _ ← validate_color underline_color;
  _ ← Intensity_try_from (sty_intensity style);
  _ ← Underline_try_from (sty_underline style);
  _ ← Blink_try_from (sty_blink style);
  _ ← SemanticType_try_from (sty_semantic_type style);
  _ ← VerticalAlign_try_from (sty_vertical_align style);
  Ok tt.

Definition validate_palette (palette : Palette) : result unit :=
  ensure! llen (pal_indexed_rgb palette) =? 256, "terminal palette must contain 256 indexed colors";
  try_fold (fun _ rgb => ensure! rgb <=? 0x00ffffff, "terminal palette RGB is out of range"; Ok tt) tt
    (pal_indexed_rgb palette ++
      [pal_foreground_rgb palette; pal_background_rgb palette; pal_cursor_fg_rgb palette;
       pal_cursor_bg_rgb palette; pal_selection_fg_rgb palette; pal_selection_bg_rgb palette]).

Definition validate_modes (modes : Modes) : result unit :=
  _ ← MouseTracking_try_from (md_mouse_tracking modes);
  _ ← MouseEncoding_try_from (md_mouse_encoding modes);
  keyboard_encoding ← KeyboardEncoding_try_from (md_keyboard_encoding modes);
  match keyboard_encoding with
  | KeyboardEncoding_Xterm | KeyboardEncoding_CsiU =>
      ensure! md_keyboard_flags modes =? 0, "keyboard flags require kitty encoding"; Ok tt
  | KeyboardEncoding_Kitty =>
      ensure! N.land (md_keyboard_flags modes) (N.lxor U32_MAX 0x1f) =? 0,
        "unknown kitty keyboard flags"; Ok tt
  end.

Definition validate_tables (styles : list Style) (hyperlinks : list Hyperlink)
    : result (gset N * gset N) :=
  ensure! llen styles <=? MAX_STYLES, "too many terminal styles";
  style_ids ← try_fold (fun (ids : gset N) style =>
    _ ← validate_style style;
    ensure! negb (sty_id style =? 0) && negb (bool_decide (sty_id style ∈ ids)),
      "terminal style IDs must be unique and nonzero";
    Ok ({[sty_id style]} ∪ ids)) ∅ styles;
  ensure! llen hyperlinks <=? MAX_HYPERLINKS, "too many terminal hyperlinks";
  hyperlink_ids ← try_fold (fun (ids : gset N) hyperlink =>
    ensure! negb (hl_id hyperlink =? 0) && negb (bool_decide (hl_id hyperlink ∈ ids)),
      "terminal hyperlink IDs must be unique and nonzero";
    ensure! negb (bool_decide (hl_uri hyperlink = "")), "terminal hyperlink URI is empty";
    ensure! slen (hl_uri hyperlink) <=? MAX_HYPERLINK_URI_BYTES,
      "terminal hyperlink URI is too large";
    ensure! slen (hl_explicit_id hyperlink) <=? MAX_HYPERLINK_EXPLICIT_ID_BYTES,
      "terminal hyperlink explicit ID is too large";
    Ok ({[hl_id hyperlink]} ∪ ids)) ∅ hyperlinks;
  Ok (style_ids, hyperlink_ids).

(** The loop over the tab stops; [previous] is [None] before the first one. *)
Fixpoint validate_tab_stops (cols : N) (previous : option N) (stops : list N) : result unit :=
  match stops with
  | [] => Ok tt
  | stop :: stops =>
      ensure! stop <? cols, "tab stop is outside terminal cols";
      ensure! match previous with Some previous => previous <? stop | None => true end,
        "tab stops are not strictly ordered";
      validate_tab_stops cols (Some stop) stops
  end.

Definition validate_margins_and_tabs (screen : Screen) (state : State) : result unit :=
  ensure! (sc_scroll_margin_top screen <? sc_scroll_margin_bottom screen)
          && (sc_scroll_margin_bottom screen <=? st_rows state),
    "vertical scroll margins are invalid";
  ensure! (sc_scroll_margin_left screen <? sc_scroll_margin_right screen)
          && (sc_scroll_margin_right screen <=? st_cols state),
    "horizontal scroll margins are invalid";
  ensure! llen (sc_tab_stops screen) <=? st_cols state, "too many tab stops";
  validate_tab_stops (st_cols state) None (sc_tab_stops screen).

Section validation.
Context `{StateLib}.

(** The loop over the cells of a row; the first cell has no predecessor, which
    the source tests with [index > 0]. *)
Fixpoint validate_cells_from (previous_end : option N) (cols : N) (style_ids hyperlink_ids : gset N)
    (cells : list Cell) : result unit :=
  match cells with
  | [] => Ok tt
  | cell :: cells =>
      ensure! negb (bool_decide (cell_grapheme cell = "")), "terminal grapheme is empty";
      ensure! grapheme_count (cell_grapheme cell) =? 1,
        "terminal cell must contain exactly one grapheme";
      ensure! slen (cell_grapheme cell) <=? MAX_GRAPHEME_BYTES, "terminal grapheme is too large";
      ensure! (cell_width cell =? 1) || (cell_width cell =? 2),
        "terminal grapheme width must be one or two";
      end_ ← ok_or (checked_add U32_MAX (cell_column cell) (cell_width cell))
               "terminal cell column overflows";
      ensure! end_ <=? cols, "terminal cell extends beyond terminal cols";
      ensure! match previous_end with Some p => p <=? cell_column cell | None => true end,
        "terminal cells overlap or are out of order";
      ensure! (cell_style_id cell =? 0) || bool_decide (cell_style_id cell ∈ style_ids),
        "terminal cell references an unknown style";
      ensure! (cell_hyperlink_id cell =? 0) || bool_decide (cell_hyperlink_id cell ∈ hyperlink_ids),
        "terminal cell references an unknown hyperlink";
      validate_cells_from (Some end_) cols style_ids hyperlink_ids cells
  end.

(** The caller's [cell_count] is threaded through and returned. *)
Definition validate_cells (row : Row) (cols : N) (style_ids hyperlink_ids : gset N)
    (cell_count : N) : result N :=
  cell_count ← ok_or (checked_add U64_MAX cell_count (llen (row_cells row)))
                 "terminal cell count overflows";
  ensure! cell_count <=? MAX_CELLS, "too many terminal cells";
  _ ← validate_cells_from None cols style_ids hyperlink_ids (row_cells row);
  Ok cell_count.

(** The check of a row against [rows.get(index + 1)]. *)
Definition validate_next_row (row : Row) (start : Anchor) (cols : N) (next : option Row) : result unit :=
  match next with
  | None => Ok tt
  | Some next =>
      next_start ← required_anchor (row_start next) "next row anchor";
      if row_wrapped_to_next row then
        ensure! an_logical_line_id next_start =? an_logical_line_id start,
          "wrapped rows changed logical line ID";
        expected_offset ← ok_or (checked_add U32_MAX (an_cell_offset start) cols)
                            "wrapped row offset overflows";
        ensure! an_cell_offset next_start =? expected_offset,
          "wrapped row offset does not advance by terminal cols";
        Ok tt
      else
        ensure! an_logical_line_id start <? an_logical_line_id next_start,
          "hard line break did not advance logical line ID";
        Ok tt
  end.

Fixpoint validate_rows_from (previous : option Anchor) (rows : list Row) (cols generation : N)
    (style_ids hyperlink_ids : gset N) (cell_count : N) : result N :=
  match rows with
  | [] => Ok cell_count
  | row :: rows =>
      start ← required_anchor (row_start row) "row anchor";
      ensure! (0 <? row_version row) && (row_version row <=? generation),
        "row version is outside the state generation";
      ensure! match previous with
              | Some previous => key_ltb (anchor_key previous) (anchor_key start)
              | None => true
              end, "terminal row anchors are not strictly ordered";
      _ ← validate_next_row row start cols (head rows);
      cell_count ← validate_cells row cols style_ids hyperlink_ids cell_count;
      validate_rows_from (Some start) rows cols generation style_ids hyperlink_ids cell_count
  end.
Definition validate_rows := validate_rows_from None.

(** [row_start.cell_offset + cursor.x] is an unchecked [u32] addition: it wraps
    in an optimised build. *)
Definition validate_cursor (cursor : Cursor) (screen : Screen) (state : State) : result unit :=
  ensure! (cur_x cursor <? st_cols state) && (cur_y cursor <? st_rows state),
    "terminal cursor is outside the viewport";
  ensure! (0 <? cur_version cursor) && (cur_version cursor <=? st_generation state),
    "terminal cursor version is outside the state generation";
  shape ← CursorShape_try_from (cur_shape cursor);
  ensure! negb (bool_decide (shape = CursorShape_Unspecified)), "cursor shape is unspecified";
  let viewport_index := sc_viewport_start screen + cur_y cursor in
  match sc_included_rows screen !! N.to_nat viewport_index with
  | None => panic
  | Some row =>
      row_start ← required_anchor (row_start row) "cursor row anchor";
      anchor ← required_anchor (cur_anchor cursor) "cursor anchor";
      ensure! an_logical_line_id anchor =? an_logical_line_id row_start,
        "cursor anchor has the wrong logical line ID";
      ensure! an_cell_offset anchor =? as_u32 (an_cell_offset row_start + cur_x cursor),
        "cursor anchor has the wrong cell offset";
      Ok tt
  end.

Definition validate_screen (screen : Screen) (alternate : bool) (state : State)
    (style_ids hyperlink_ids : gset N) (cell_count : N) : result N :=
  ensure! negb (is_empty (sc_included_rows screen)), "terminal screen has no included rows";
  let viewport_start := sc_viewport_start screen in
  ensure! negb alternate
          || ((viewport_start =? 0) && (llen (sc_included_rows screen) =? st_rows state)),
    "alternate screen must contain exactly one viewport and no history";
  viewport_end ← ok_or (checked_add U64_MAX viewport_start (st_rows state))
                   "terminal viewport overflows";
  ensure! viewport_end <=? llen (sc_included_rows screen), "terminal viewport is not fully included";
  _ ← validate_margins_and_tabs screen state;
  oldest ← required_anchor (sc_oldest_available screen) "oldest available anchor";
  newest ← required_anchor (sc_newest_available screen) "newest available anchor";
  included_start ← required_anchor (sc_included_start screen) "included start anchor";
  included_end ← required_anchor (sc_included_end screen) "included end anchor";
  ensure! key_leb (anchor_key oldest) (anchor_key included_start),
    "included rows start before available history";
  ensure! key_leb (anchor_key included_start) (anchor_key included_end),
    "included row range is reversed";
  ensure! key_leb (anchor_key included_end) (anchor_key newest),
    "included rows end after available history";
  match head (sc_included_rows screen), last (sc_included_rows screen) with
  | Some first_row, Some last_row =>
      first_start ← required_anchor (row_start first_row) "first row anchor";
      last_start ← required_anchor (row_start last_row) "last row anchor";
      ensure! bool_decide (first_start = included_start) && bool_decide (last_start = included_end),
        "included row boundary anchors do not match rows";
      cell_count ← validate_rows (sc_included_rows screen) (st_cols state) (st_generation state)
                     style_ids hyperlink_ids cell_count;
      cursor ← required_cursor (sc_cursor screen) "cursor";
      _ ← validate_cursor cursor screen state;
      _ ← match sc_saved_cursor screen with
          | Some saved => validate_cursor saved screen state
          | None => Ok tt
          end;
      Ok cell_count
  | _, _ => panic
  end.

Definition validate (state : State) : result unit :=
  ensure! st_schema_version state =? SCHEMA_VERSION, "unsupported terminal state schema version";
  ensure! llen (st_epoch state) =? EPOCH_BYTES, "terminal state epoch must be 16 bytes";
  ensure! 0 <? st_generation state, "terminal state generation must be nonzero";
  ensure! in_range 1 MAX_DIMENSION (st_rows state), "terminal rows are out of range";
  ensure! in_range 1 MAX_DIMENSION (st_cols state), "terminal cols are out of range";
  ensure! state_encoded_len state <=? MAX_ENCODED_STATE_BYTES,
    "terminal state exceeds the encoded size limit";
  ensure! slen (st_title state) <=? MAX_TITLE_BYTES, "terminal title is too large";
  ensure! slen (st_working_directory state) <=? MAX_WORKING_DIRECTORY_BYTES,
    "terminal working directory is too large";
  active ← ScreenKind_try_from (st_active_screen state);
  ensure! negb (bool_decide (active = ScreenKind_Unspecified)), "active screen is unspecified";
  modes ← ok_or (st_modes state) "terminal modes are missing";
  _ ← validate_modes modes;
  palette ← ok_or (st_palette state) "terminal palette is missing";
  _ ← validate_palette palette;
  '(style_ids, hyperlink_ids) ← validate_tables (st_styles state) (st_hyperlinks state);
  primary ← ok_or (st_primary state) "primary screen is missing";
  alternate ← ok_or (st_alternate state) "alternate screen is missing";
  ensure! llen (sc_included_rows primary) + llen (sc_included_rows alternate) <=? MAX_INCLUDED_ROWS,
    "too many included terminal rows";
  cell_count ← validate_screen primary false state style_ids hyperlink_ids 0;
  cell_count ← validate_screen alternate true state style_ids hyperlink_ids cell_count;
  ensure! cell_count <=? MAX_CELLS, "too many terminal cells";
  Ok tt.

Definition validate_history_page_request (request : HistoryPageRequest) : result unit :=
  ensure! llen (hpr_epoch request) =? EPOCH_BYTES, "history request epoch must be 16 bytes";
  _ ← required_anchor (hpr_before request) "history request anchor";
  ensure! in_range 1 MAX_HISTORY_PAGE_ROWS (hpr_maximum_rows request),
    "history request row count is out of range";
  Ok tt.

(** [page.included_rows.first().and_then(|row| row.start.as_ref()) == Some(a)] *)
Definition row_starts_at (row : option Row) (a : Anchor) : bool :=
  bool_decide ((row ≫= row_start) = Some a).

Definition validate_history_page (page : HistoryPage) : result unit :=
  ensure! 0 <? hp_request_id page, "history page request ID is zero";
  ensure! llen (hp_epoch page) =? EPOCH_BYTES, "history page epoch must be 16 bytes";
  ensure! 0 <? hp_generation page, "history page generation is zero";
  ensure! in_range 1 MAX_DIMENSION (hp_cols page), "history page columns are out of range";
  ensure! page_encoded_len page <=? MAX_ENCODED_HISTORY_PAGE_BYTES,
    "history page exceeds the encoded size limit";
  oldest ← required_anchor (hp_oldest_available page) "history oldest available anchor";
  newest ← required_anchor (hp_newest_available page) "history newest available anchor";
  ensure! key_leb (anchor_key oldest) (anchor_key newest), "history available range is reversed";
  if hp_reset_required page then
    ensure! is_empty (hp_included_rows page) && is_none (hp_included_start page)
            && is_none (hp_included_end page) && is_empty (hp_styles page)
            && is_empty (hp_hyperlinks page) && negb (hp_more_before page),
      "history reset page contains page data";
    Ok tt
  else
  ensure! llen (hp_included_rows page) <=? MAX_HISTORY_PAGE_ROWS, "history page contains too many rows";
  if is_empty (hp_included_rows page) then
    ensure! is_none (hp_included_start page) && is_none (hp_included_end page)
            && is_empty (hp_styles page) && is_empty (hp_hyperlinks page)
            && negb (hp_more_before page),
      "empty history page contains range data";
    Ok tt
  else
  included_start ← required_anchor (hp_included_start page) "history included start anchor";
  included_end ← required_anchor (hp_included_end page) "history included end anchor";
  ensure! key_leb (anchor_key oldest) (anchor_key included_start)
          && key_leb (anchor_key included_start) (anchor_key included_end)
          && key_leb (anchor_key included_end) (anchor_key newest),
    "history included range is outside available rows";
  ensure! row_starts_at (head (hp_included_rows page)) included_start
          && row_starts_at (last (hp_included_rows page)) included_end,
    "history page boundary anchors do not match rows";
  ensure! Bool.eqb (hp_more_before page) (key_ltb (anchor_key oldest) (anchor_key included_start)),
    "history page continuation flag is inconsistent";
  '(style_ids, hyperlink_ids) ← validate_tables (hp_styles page) (hp_hyperlinks page);
  _ ← validate_rows (hp_included_rows page) (hp_cols page) (hp_generation page)
        style_ids hyperlink_ids 0;
  Ok tt.
End validation.
