(* ===== verification/TerminalStateSpec.v ===== *)
(** * What a validated terminal state guarantees

    The loops of [TerminalState.validate] as declarative predicates: ordered
    anchors, disjoint cells, resolved references, a viewport that is present. *)
From S2P Require Import Prelude TerminalState.
Open Scope N_scope.

(** ** The order on anchors *)

Definition key_lt (a b : N * N) : Prop := key_ltb a b = true.

Lemma key_lt_spec a b : key_lt a b <-> a.1 < b.1 \/ (a.1 = b.1 /\ a.2 < b.2).
Proof. unfold key_lt, key_ltb. rewrite orb_true_iff, andb_true_iff, !N.ltb_lt, N.eqb_eq. done. Qed.
#[global] Instance key_lt_strict : StrictOrder key_lt.
Proof.
  split.
  - intros x H%key_lt_spec. lia.
  - intros x y z H1%key_lt_spec H2%key_lt_spec. apply key_lt_spec. lia.
Qed.

Definition row_key (r : Row) : option (N * N) := anchor_key <$> row_start r.

(** ** Cells *)

Section cells.
Context `{StateLib}.

Definition cell_end (c : Cell) : N := cell_column c + cell_width c.
Definition cell_ok (cols : N) (sids hids : gset N) (c : Cell) : Prop :=
  (cell_width c = 1 \/ cell_width c = 2) /\ cell_end c <= cols /\
  (cell_style_id c = 0 \/ cell_style_id c ∈ sids) /\
  (cell_hyperlink_id c = 0 \/ cell_hyperlink_id c ∈ hids) /\
  cell_grapheme c <> "" /\ grapheme_count (cell_grapheme c) = 1 /\
  slen (cell_grapheme c) <= MAX_GRAPHEME_BYTES.
Definition cells_before (a b : Cell) : Prop := cell_end a <= cell_column b.

Lemma validate_cells_from_Ok prev cols sids hids cells :
  validate_cells_from prev cols sids hids cells = Ok tt ->
  Forall (cell_ok cols sids hids) cells /\ StronglySorted cells_before cells /\
  forall p, prev = Some p -> Forall (fun c => p <= cell_column c) cells.
Proof.
  revert prev. induction cells as [|c cells IH]; intros prev Hv; cbn [validate_cells_from] in Hv.
  { split_and!; [constructor..|]. intros; constructor. }
  do 4 ok_step Hv. ok_step Hv. ok_inv Hr. apply checked_add_Some in Ho as [-> Hmax].
  do 4 ok_step Hv. apply IH in Hv as (Hok & Hs & Hp). specialize (Hp _ eq_refl).
  rewrite orb_true_iff in *. bool_prop. rewrite !N.eqb_eq, ?bool_decide_eq_true in *.
  split_and!.
  - constructor; [|done]. unfold cell_ok, cell_end. tauto.
  - constructor; [done|]. unfold cells_before, cell_end. done.
  - intros p ->. bool_prop. constructor; [done|].
    eapply Forall_impl; [done|]. cbn. lia.
Qed.
End cells.

(** ** Rows *)

Section rows.
Context `{StateLib}.

Definition row_ok (cols generation : N) (sids hids : gset N) (r : Row) : Prop :=
  0 < row_version r <= generation /\ Forall (cell_ok cols sids hids) (row_cells r) /\
  StronglySorted cells_before (row_cells r).

(** A row continues its logical line exactly [cols] cells later, or a new line
    begins. *)
Definition rows_linked (cols : N) (r r' : Row) : Prop :=
  exists a a', row_start r = Some a /\ row_start r' = Some a' /\
  if row_wrapped_to_next r
  then an_logical_line_id a' = an_logical_line_id a /\ an_cell_offset a' = an_cell_offset a + cols
  else an_logical_line_id a < an_logical_line_id a'.

Definition cell_total (rows : list Row) : N := foldr N.add 0 (llen ∘ row_cells <$> rows).

Record rows_ok (cols generation : N) (sids hids : gset N) (rows : list Row) : Prop := {
  rows_each : Forall (row_ok cols generation sids hids) rows;
  rows_anchored : Forall (fun r => exists a, row_start r = Some a /\ an_logical_line_id a <> 0) rows;
  rows_sorted : StronglySorted key_lt (omap row_key rows);
  rows_adjacent : forall i r r', rows !! i = Some r -> rows !! S i = Some r' -> rows_linked cols r r'
}.

Lemma required_anchor_Ok o name a :
  required_anchor o name = Ok a <-> o = Some a /\ an_logical_line_id a <> 0.
Proof.
  unfold required_anchor. destruct o as [b|]; cbn; [|split; [done|by intros [? _]]].
  destruct (N.eqb_spec (an_logical_line_id b) 0); cbn; split; intros; simplify_eq; intuition congruence.
Qed.

Lemma validate_cells_Ok row cols sids hids n n' :
  validate_cells row cols sids hids n = Ok n' ->
  n' = n + llen (row_cells row) /\ n' <= MAX_CELLS /\
  Forall (cell_ok cols sids hids) (row_cells row) /\ StronglySorted cells_before (row_cells row).
Proof.
  unfold validate_cells. intros Hv. ok_step Hv. ok_inv Hr. apply checked_add_Some in Ho as [-> _].
  ok_inv Hv. destruct a. apply validate_cells_from_Ok in Hr as (? & ? & _). bool_prop. done.
Qed.

Lemma validate_next_row_Ok row start cols next :
  row_start row = Some start -> validate_next_row row start cols (Some next) = Ok tt ->
  rows_linked cols row next.
Proof.
  unfold validate_next_row, rows_linked. intros Hs Hv. ok_step Hv.
  apply required_anchor_Ok in Hr as [-> _]. exists start, a. split_and!; [done..|].
  destruct (row_wrapped_to_next row); ok_inv Hv; [|by bool_prop].
  ok_inv Hr. apply checked_add_Some in Ho as [-> _]. bool_prop. done.
Qed.

Lemma validate_rows_from_Ok prev rows cols generation sids hids n n' :
  validate_rows_from prev rows cols generation sids hids n = Ok n' ->
  rows_ok cols generation sids hids rows /\ n' = n + cell_total rows /\ (rows <> [] -> n' <= MAX_CELLS) /\
  forall p, prev = Some p -> Forall (key_lt (anchor_key p)) (omap row_key rows).
Proof.
  revert prev n. induction rows as [|row rows IH]; intros prev n Hv; cbn [validate_rows_from] in Hv.
  { ok_inv Hv. split_and!; [split; try constructor; done|unfold cell_total; cbn; lia|done|constructor]. }
  ok_step Hv. apply required_anchor_Ok in Hr as [Hs Hz]. ok_step Hv. ok_step Hv. ok_step Hv. ok_step Hv.
  apply validate_cells_Ok in Hr0 as (-> & Hmax & Hc & Hcs).
  apply IH in Hv as ([He Ha Hsort Hadj] & -> & Hmax' & Hp). specialize (Hp _ eq_refl). bool_prop.
  assert (Hk : omap row_key (row :: rows) = anchor_key a :: omap row_key rows).
  { cbn. unfold row_key at 1. by rewrite Hs. }
  destruct a0. split_and!.
  - split.
    + by constructor.
    + constructor; [eauto|done].
    + rewrite Hk. by constructor.
    + intros [|i] r r' Hr1 Hr2; [|by eapply Hadj]. cbn in Hr1. simplify_eq.
      rewrite head_lookup in Hr. change (rows !! 0%nat = Some r') in Hr2. rewrite Hr2 in Hr.
      by eapply validate_next_row_Ok.
  - unfold cell_total. rewrite fmap_cons. cbn [foldr compose]. lia.
  - intros _. destruct rows; [cbn; unfold cell_total; cbn; lia|]. by apply Hmax'.
  - intros p ->. rewrite Hk. constructor; [done|].
    eapply Forall_impl; [done|]. intros k Hk'. by etrans.
Qed.

(** Strictly ordered anchors are distinct. *)
Lemma rows_ok_NoDup cols generation sids hids rows :
  rows_ok cols generation sids hids rows -> NoDup (omap row_key rows).
Proof.
  intros [_ _ Hs _]. induction Hs as [|k l _ IH Hf]; [constructor|].
  constructor; [|done]. intros Hin. rewrite Forall_forall in Hf.
  apply (irreflexivity key_lt k). by apply Hf.
Qed.
End rows.

(** ** Tables *)

Lemma collect_ids {A} (f : gset N -> A -> result (gset N)) (id : A -> N) l ids :
  (forall s x s', f s x = Ok s' -> id x <> 0 /\ (id x ∉ s) /\ s' = {[id x]} ∪ s) ->
  try_fold f ∅ l = Ok ids ->
  ids = list_to_set (id <$> l) /\ NoDup (id <$> l) /\ Forall (fun x => id x <> 0) l.
Proof.
  intros Hf. apply (try_fold_inv f (fun l ids =>
    ids = list_to_set (id <$> l) /\ NoDup (id <$> l) /\ Forall (fun x => id x <> 0) l)).
  - split_and!; [done|constructor|constructor].
  - intros k x b1 b2 (-> & Hnd & Hz) (Hx & Hn & ->)%Hf. rewrite fmap_app, list_to_set_app_L.
    rewrite elem_of_list_to_set in Hn. split_and!.
    + set_solver.
    + apply NoDup_app. split_and!; [done| |apply NoDup_singleton].
      intros y Hy Hin. apply list_elem_of_singleton in Hin. by subst.
    + apply Forall_app. by repeat constructor.
Qed.

Record tables_ok (styles : list Style) (links : list Hyperlink) (sids hids : gset N) : Prop := {
  tables_styles : sids = list_to_set (sty_id <$> styles);
  tables_links : hids = list_to_set (hl_id <$> links);
  tables_styles_unique : NoDup (sty_id <$> styles);
  tables_links_unique : NoDup (hl_id <$> links);
  tables_links_uri : Forall (fun l => hl_uri l <> "") links
}.

Lemma validate_tables_Ok styles links sids hids :
  validate_tables styles links = Ok (sids, hids) -> tables_ok styles links sids hids.
Proof.
  unfold validate_tables. intros Hv. do 4 ok_step Hv. ok_step Hv.
  apply (collect_ids _ sty_id) in Hr as (-> & ? & ?).
  - assert (Huri : Forall (fun l => hl_uri l <> "") links).
    { revert Hr0. apply (try_fold_inv _ (fun links _ => Forall (fun l => hl_uri l <> "") links)).
      - constructor.
      - intros k x b1 b2 Hk Hx. ok_inv Hx. bool_prop. apply Forall_app. by repeat constructor. }
    apply (collect_ids _ hl_id) in Hr0 as (-> & ? & ?); [done|].
    intros s x s' Hx. ok_inv Hx. bool_prop. done.
  - intros s x s' Hx. ok_inv Hx. bool_prop. done.
Qed.

(** ** Screens *)

Section screens.
Context `{StateLib}.

Definition cursor_ok (screen : Screen) (state : State) (c : Cursor) : Prop :=
  cur_x c < st_cols state /\ cur_y c < st_rows state /\ 0 < cur_version c <= st_generation state /\
  exists row a a', sc_included_rows screen !! N.to_nat (sc_viewport_start screen + cur_y c) = Some row /\
    row_start row = Some a /\ cur_anchor c = Some a' /\
    an_logical_line_id a' = an_logical_line_id a /\
    an_cell_offset a' = as_u32 (an_cell_offset a + cur_x c).

Record screen_ok (state : State) (sids hids : gset N) (screen : Screen) : Prop := {
  screen_rows : rows_ok (st_cols state) (st_generation state) sids hids (sc_included_rows screen);
  screen_viewport : sc_viewport_start screen + st_rows state <= llen (sc_included_rows screen);
  screen_tabs : StronglySorted N.lt (sc_tab_stops screen) /\
                Forall (fun t => t < st_cols state) (sc_tab_stops screen);
  screen_margins : sc_scroll_margin_top screen < sc_scroll_margin_bottom screen <= st_rows state /\
                   sc_scroll_margin_left screen < sc_scroll_margin_right screen <= st_cols state;
  screen_bounds : (head (sc_included_rows screen) ≫= row_start) = sc_included_start screen /\
                  (last (sc_included_rows screen) ≫= row_start) = sc_included_end screen;
  screen_cursor : exists c, sc_cursor screen = Some c /\ cursor_ok screen state c;
  screen_saved : forall c, sc_saved_cursor screen = Some c -> cursor_ok screen state c
}.

Lemma validate_tab_stops_Ok cols prev stops :
  validate_tab_stops cols prev stops = Ok tt ->
  StronglySorted N.lt stops /\ Forall (fun t => t < cols) stops /\
  forall p, prev = Some p -> Forall (N.lt p) stops.
Proof.
  revert prev. induction stops as [|t stops IH]; intros prev Hv; cbn [validate_tab_stops] in Hv.
  { split_and!; constructor. }
  ok_step Hv. ok_step Hv. apply IH in Hv as (Hs & Hc & Hp). specialize (Hp _ eq_refl). bool_prop.
  split_and!; [by constructor|by constructor|]. intros p ->. bool_prop. constructor; [done|].
  eapply Forall_impl; [done|]. intros x Hx. cbn in Hx. lia.
Qed.

Lemma validate_margins_and_tabs_Ok screen state :
  validate_margins_and_tabs screen state = Ok tt ->
  (StronglySorted N.lt (sc_tab_stops screen) /\ Forall (fun t => t < st_cols state) (sc_tab_stops screen)) /\
  sc_scroll_margin_top screen < sc_scroll_margin_bottom screen <= st_rows state /\
  sc_scroll_margin_left screen < sc_scroll_margin_right screen <= st_cols state.
Proof.
  unfold validate_margins_and_tabs. intros Hv. do 3 ok_step Hv.
  apply validate_tab_stops_Ok in Hv as (? & ? & _). bool_prop. done.
Qed.

Lemma validate_cursor_Ok c screen state :
  validate_cursor c screen state = Ok tt -> cursor_ok screen state c.
Proof.
  unfold validate_cursor, cursor_ok. intros Hv. do 5 ok_step Hv. do 2 ok_step Hv.
  apply required_anchor_Ok in Hr0 as [? _], Hr1 as [? _]. ok_inv Hv. bool_prop.
  split_and!; [done..|]. do 3 eexists. split_and!; [done|done|done|congruence|congruence].
Qed.

Lemma validate_screen_Ok screen alt state sids hids n n' :
  validate_screen screen alt state sids hids n = Ok n' ->
  screen_ok state sids hids screen /\ n' = n + cell_total (sc_included_rows screen) /\ n' <= MAX_CELLS.
Proof.
  unfold validate_screen. intros Hv. do 3 ok_step Hv. ok_inv Hr. apply checked_add_Some in Ho as [-> _].
  do 2 ok_step Hv. destruct a. apply validate_margins_and_tabs_Ok in Hr as [Htabs Hmargins].
  do 4 ok_step Hv. apply required_anchor_Ok in Hr as [Ho _], Hr0 as [Hn _], Hr1 as [Hs _], Hr2 as [He _].
  do 5 ok_step Hv. do 2 ok_step Hv. apply required_anchor_Ok in Hr as [Hf _], Hr0 as [Hl _].
  do 5 ok_step Hv. ok_inv Hv. unfold required_cursor in Hr0. ok_inv Hr0. destruct a7, a8.
  bool_prop. subst.
  apply validate_rows_from_Ok in Hr as (Hrows & -> & Hmax & _).
  split_and!; [|done|apply Hmax; by destruct (sc_included_rows screen)].
  split; [done|done|done|done| | |].
  - rewrite Hm, Hm0. cbn. by rewrite Hf, Hl.
  - eexists. split; [done|]. by apply validate_cursor_Ok.
  - intros c Hc. rewrite Hc in Hr2. by apply validate_cursor_Ok.
Qed.

Record state_ok (s : State) (p a : Screen) (sids hids : gset N) : Prop := {
  state_primary : st_primary s = Some p;
  state_alternate : st_alternate s = Some a;
  state_tables : tables_ok (st_styles s) (st_hyperlinks s) sids hids;
  state_primary_ok : screen_ok s sids hids p;
  state_alternate_ok : screen_ok s sids hids a;
  state_rows : llen (sc_included_rows p) + llen (sc_included_rows a) <= MAX_INCLUDED_ROWS;
  state_cells : cell_total (sc_included_rows p) + cell_total (sc_included_rows a) <= MAX_CELLS;
  state_epoch : llen (st_epoch s) = EPOCH_BYTES;
  state_generation : 0 < st_generation s;
  state_dims : 0 < st_rows s <= MAX_DIMENSION /\ 0 < st_cols s <= MAX_DIMENSION
}.

Lemma validate_Ok s :
  validate s = Ok tt -> exists p a sids hids, state_ok s p a sids hids.
Proof.
  unfold validate, in_range. intros Hv. do 8 ok_step Hv. do 6 ok_step Hv. do 2 ok_step Hv. subst.
  do 3 ok_step Hv. do 3 ok_step Hv.
  ok_inv Hr0. ok_inv Hr2. ok_inv Hr5. ok_inv Hr6.
  exists a4, a5, g, g0. apply validate_tables_Ok in Hr4.
  apply validate_screen_Ok in Hr7 as (? & -> & _), Hr8 as (? & -> & ?).
  bool_prop. split; [done..|lia|done|done|lia].
Qed.
End screens.

(** ** Validation never panics *)

Lemma enum_no_panic {A} (v : list (Z * A)) e z : e <> PANIC -> enum_try_from v e z <> panic.
Proof.
  intros He. induction v as [|[w a] v IH]; cbn; [intros [= ?]; done|]. by case_match.
Qed.
Lemma required_anchor_no_panic o name :
  name +:+ " is missing" <> PANIC -> name +:+ " has logical line ID zero" <> PANIC ->
  required_anchor o name <> panic.
Proof.
  intros H1 H2. unfold required_anchor. apply no_panic_bind; [by apply no_panic_ok_or|].
  intros a _. case_match; [done|]. intros [= ?]. done.
Qed.
#[export] Hint Extern 1 (required_anchor _ _ <> panic) =>
  apply required_anchor_no_panic; discriminate : no_panic.
#[export] Hint Extern 1 (required_cursor _ _ <> panic) =>
  apply no_panic_ok_or; discriminate : no_panic.
#[export] Hint Extern 1 (_ <> panic) => apply enum_no_panic; discriminate : no_panic.

Section no_panic.
Context `{StateLib}.

Lemma validate_color_no_panic c : validate_color c <> panic.
Proof. unfold validate_color. no_panic. Qed.
#[local] Hint Resolve validate_color_no_panic : no_panic.
Lemma validate_style_no_panic st : validate_style st <> panic.
Proof. unfold validate_style. no_panic. Qed.
#[local] Hint Resolve validate_style_no_panic : no_panic.
Lemma validate_tables_no_panic st hl : validate_tables st hl <> panic.
Proof. unfold validate_tables. no_panic. Qed.
Lemma validate_modes_no_panic m : validate_modes m <> panic.
Proof. unfold validate_modes. no_panic. Qed.
Lemma validate_palette_no_panic p : validate_palette p <> panic.
Proof. unfold validate_palette. no_panic. Qed.
Lemma validate_tab_stops_no_panic cols prev l : validate_tab_stops cols prev l <> panic.
Proof. revert prev. induction l; intros prev; cbn [validate_tab_stops]; no_panic. Qed.
#[local] Hint Resolve validate_tab_stops_no_panic : no_panic.
Lemma validate_margins_and_tabs_no_panic sc st : validate_margins_and_tabs sc st <> panic.
Proof. unfold validate_margins_and_tabs. no_panic. Qed.
Lemma validate_cells_from_no_panic prev cols sids hids l :
  validate_cells_from prev cols sids hids l <> panic.
Proof. revert prev. induction l; intros prev; cbn [validate_cells_from]; no_panic. Qed.
#[local] Hint Resolve validate_cells_from_no_panic : no_panic.
Lemma validate_cells_no_panic row cols sids hids n : validate_cells row cols sids hids n <> panic.
Proof. unfold validate_cells. no_panic. Qed.
Lemma validate_next_row_no_panic row start cols next : validate_next_row row start cols next <> panic.
Proof. unfold validate_next_row. no_panic. Qed.
#[local] Hint Resolve validate_cells_no_panic validate_next_row_no_panic : no_panic.
Lemma validate_rows_no_panic prev rows cols g sids hids n :
  validate_rows_from prev rows cols g sids hids n <> panic.
Proof. revert prev n. induction rows; intros prev n; cbn [validate_rows_from]; no_panic. Qed.
#[local] Hint Resolve validate_tables_no_panic validate_modes_no_panic validate_palette_no_panic
  validate_margins_and_tabs_no_panic validate_rows_no_panic : no_panic.

Lemma validate_cursor_no_panic c screen state :
  sc_viewport_start screen + st_rows state <= llen (sc_included_rows screen) ->
  validate_cursor c screen state <> panic.
Proof.
  intros Hvp. unfold validate_cursor. no_panic. exfalso. bool_prop.
  apply lookup_ge_None in Heqo. unfold llen in Hvp. lia.
Qed.

Lemma validate_screen_no_panic screen alt state sids hids n :
  validate_screen screen alt state sids hids n <> panic.
Proof.
  unfold validate_screen, validate_rows.
  no_panic.
  1-2: apply validate_cursor_no_panic; ok_inv H0; apply checked_add_Some in Ho as [-> _]; by bool_prop.
  all: exfalso; destruct (sc_included_rows screen) as [|r' l]; [done|].
  - apply last_None in Heqo0. done.
  - done.
Qed.
#[local] Hint Resolve validate_screen_no_panic : no_panic.

Lemma validate_no_panic s : validate s <> panic.
Proof. unfold validate. no_panic. Qed.
Lemma validate_history_page_no_panic p : validate_history_page p <> panic.
Proof. unfold validate_history_page, validate_rows. no_panic. Qed.
End no_panic.
#[export] Hint Resolve validate_no_panic : no_panic.

(** ** Theorems *)

Section theorems.
Context `{StateLib}.

Definition covers (c : Cell) (x : N) : Prop := cell_column c <= x < cell_end c.

Lemma sorted_cells_disjoint cells i j c c' x :
  StronglySorted cells_before cells -> cells !! i = Some c -> cells !! j = Some c' ->
  covers c x -> covers c' x -> i = j.
Proof.
  intros Hs. revert i j. induction Hs as [|c0 cells _ IH Hf]; intros i j Hi Hj Hc Hc'; [done|].
  rewrite Forall_lookup in Hf. unfold covers, cells_before in *.
  destruct i as [|i], j as [|j]; cbn in Hi, Hj; simplify_eq; [done| | |f_equal; by apply (IH i j)].
  - apply Hf in Hj. lia.
  - apply Hf in Hi. lia.
Qed.

Lemma resolve_unique {A} (id : A -> N) (l : list A) n :
  NoDup (id <$> l) -> n ∈ (list_to_set (id <$> l) : gset N) ->
  exists x, x ∈ l /\ id x = n /\ forall x', x' ∈ l -> id x' = n -> x' = x.
Proof.
  intros Hnd (x & -> & Hx)%elem_of_list_to_set%list_elem_of_fmap.
  exists x. split_and!; [done..|]. intros x' Hx' Heq.
  apply list_elem_of_lookup in Hx as [i Hi], Hx' as [j Hj].
  assert (i = j) as ->; [|congruence].
  eapply NoDup_lookup; [done|rewrite list_lookup_fmap, Hi; done|].
  rewrite list_lookup_fmap, Hj. cbn. by rewrite Heq.
Qed.

(** C40: a validated state is a drawable grid.  On either screen every line of
    the viewport is a row that is present, no column of it is covered by two
    cells, every cell lies inside the terminal's columns and its style and
    hyperlink resolve to exactly one entry of the tables; the cursor is inside
    the viewport and anchored to the row it stands on. *)
Theorem validated_grid s screen :
  validate s = Ok tt -> st_primary s = Some screen \/ st_alternate s = Some screen ->
  (forall y, y < st_rows s -> exists row,
    sc_included_rows screen !! N.to_nat (sc_viewport_start screen + y) = Some row /\
    (forall i j c c' x, row_cells row !! i = Some c -> row_cells row !! j = Some c' ->
      covers c x -> covers c' x -> i = j /\ x < st_cols s) /\
    (forall c, c ∈ row_cells row ->
      (cell_style_id c = 0 \/ exists st, st ∈ st_styles s /\ sty_id st = cell_style_id c /\
         forall st', st' ∈ st_styles s -> sty_id st' = cell_style_id c -> st' = st) /\
      (cell_hyperlink_id c = 0 \/ exists l, l ∈ st_hyperlinks s /\ hl_id l = cell_hyperlink_id c /\
         forall l', l' ∈ st_hyperlinks s -> hl_id l' = cell_hyperlink_id c -> l' = l))) /\
  exists c, sc_cursor screen = Some c /\ cursor_ok screen s c.
Proof.
  intros (p & a & sids & hids & Hok)%validate_Ok Hs.
  assert (Hsc : screen_ok s sids hids screen).
  { destruct Hok as [Hp Ha _ Hpok Haok]. destruct Hs; simplify_eq; done. }
  destruct (state_tables _ _ _ _ _ Hok) as [-> -> Hus Hul _]. split; [|by destruct Hsc].
  intros y Hy. pose proof (screen_viewport _ _ _ _ Hsc) as Hvp. unfold llen in Hvp.
  destruct (lookup_lt_is_Some_2 (sc_included_rows screen)
    (N.to_nat (sc_viewport_start screen + y))) as [row Hrow]; [lia|].
  exists row. split; [done|].
  pose proof (rows_each _ _ _ _ _ (screen_rows _ _ _ _ Hsc)) as Hrows.
  rewrite Forall_lookup in Hrows. destruct (Hrows _ _ Hrow) as (_ & Hc & Hsort).
  rewrite Forall_forall in Hc. split.
  - intros i j c c' x Hi Hj Hx Hx'. split; [by eapply sorted_cells_disjoint|].
    apply list_elem_of_lookup_2 in Hi. apply Hc in Hi as (_ & Hend & _). unfold covers in Hx. lia.
  - intros c (_ & _ & Hst & Hhl & _)%Hc.
    split; [destruct Hst as [?|Hst]|destruct Hhl as [?|Hhl]]; auto using resolve_unique.
Qed.

(** Validation is total: no index is out of bounds and no check is skipped
    by a panic, for any state or history page whatsoever, however malformed. *)
Theorem validation_never_panics s page : validate s <> panic /\ validate_history_page page <> panic.
Proof. split; [apply validate_no_panic|apply validate_history_page_no_panic]. Qed.
End theorems.

(** ** A concrete state *)

Definition ex_lib : StateLib := {|
  state_encoded_len := fun _ => 1000; page_encoded_len := fun _ => 1000;
  grapheme_count := fun s => N.of_nat (String.length s) |}.
Definition ex_cell (x : N) (g : string) : Cell := mkCell x g 1 1 0.
Definition ex_row (line version : N) (cells : list Cell) : Row :=
  mkRow (Some (mkAnchor line 0)) version cells false.
Definition ex_cursor : Cursor := mkCursor 1 0 (Some (mkAnchor 1 1)) 1 true 1 false.
Definition ex_screen (rows : list Row) : Screen :=
  mkScreen rows 0 (Some ex_cursor) None (Some (mkAnchor 1 0)) (Some (mkAnchor 2 0))
    (Some (mkAnchor 1 0)) (Some (mkAnchor 2 0)) 0 2 0 3 [].
Definition ex_color : option Color := Some (mkColor (Some (DefaultColor true))).
Definition ex_style : Style :=
  mkStyle 1 ex_color ex_color ex_color 0 0 0 false false false false false 0 0.
Definition ex_modes : Modes :=
  mkModes false false false false false false true false false false false 0 0 0 0 false.
Definition ex_palette : Palette := mkPalette (replicate 256 0) 0 0 0 0 0 0.
Definition ex_state (generation : N) (rows : list Row) : State :=
  mkState 2 (replicate 16 7) generation 2 3 (Some (ex_screen rows))
    (Some (ex_screen [ex_row 1 1 []; ex_row 2 1 []])) 1 [ex_style] [] (Some ex_modes) "" ""
    (Some ex_palette).
Definition ex_rows1 : list Row := [ex_row 1 1 [ex_cell 0 "a"; ex_cell 1 "b"]; ex_row 2 1 []].
Definition ex_rows2 : list Row := [ex_row 1 1 [ex_cell 0 "a"; ex_cell 1 "b"]; ex_row 2 2 [ex_cell 2 "c"]].

Lemma validated_grid_witness :
  @validate ex_lib (ex_state 1 ex_rows1) = Ok tt /\
  exists row, sc_included_rows (ex_screen ex_rows1) !! 0%nat = Some row /\ length (row_cells row) = 2%nat.
Proof.
  split; [vm_compute; reflexivity|].
  assert (Hg := @validated_grid ex_lib (ex_state 1 ex_rows1) (ex_screen ex_rows1)).
  destruct Hg as [Hg _]; [vm_compute; reflexivity|left; reflexivity|].
  destruct (Hg 0) as (row & Hrow & _); [reflexivity|].
  exists row. split; [exact Hrow|]. cbn in Hrow. injection Hrow as <-. reflexivity.
Defined.
