(* ===== verification/TerminalSync.v ===== *)
(** * Reliable terminal synchronisation (src/src/terminal_sync.rs)

    Row-level differences between two terminal states, and the per-attachment
    window that keeps at most one state in flight.  Operations that change the
    window return the new window beside their result, because some of them
    change it before they fail. *)
From S2P Require Import Prelude TerminalState TerminalStateSpec.
Open Scope N_scope.

(** ** Messages (src/src/protocol.rs) *)

Inductive RowSource :=
| BaseAnchor (a : Anchor)
| Replacement (r : Row).
Record TerminalStateRow := mkStateRow { tsr_source : option RowSource }.

Record TerminalStateDiff := mkDiff {
  tsd_epoch : bytes;
  tsd_base_generation : N;
  tsd_target_generation : N;
  tsd_target_metadata : option State;
  tsd_primary_rows : list TerminalStateRow;
  tsd_alternate_rows : list TerminalStateRow
}.
Record TerminalStateAck := mkAck { ack_epoch : bytes; ack_generation : N }.

Inductive AckDisposition := Accepted | Duplicate.
#[global] Instance AckDisposition_eq_dec : EqDecision AckDisposition.
Proof. solve_decision. Defined.

Inductive PreparedStateUpdate :=
| Snapshot (s : State)
| Diff (d : TerminalStateDiff).

(** [Message::encoded_len] of a diff. *)
Class SyncLib := {
  sync_state_lib :: StateLib;
  diff_encoded_len : TerminalStateDiff -> N
}.

(** ** Rows by anchor *)

Definition rows_by_anchor (rows : list Row) : result (gmap (N * N) Row) :=
  try_fold (fun (m : gmap (N * N) Row) row =>
    anchor ← ok_or (row_start row) "terminal state row has no anchor";
    ensure! is_none (m !! anchor_key anchor), "terminal state repeats a row anchor";
    Ok (<[anchor_key anchor := row]> m)) ∅ rows.

Definition diff_rows (base target : Screen) : result (list TerminalStateRow) :=
  base_rows ← rows_by_anchor (sc_included_rows base);
  mapM (fun row =>
    anchor ← ok_or (row_start row) "target row has no anchor";
    Ok (mkStateRow (Some
      (if bool_decide (base_rows !! anchor_key anchor = Some row)
       then BaseAnchor anchor else Replacement row)))) (sc_included_rows target).

(** The closure of [apply_rows]; [seen] is the set of anchors so far. *)
Fixpoint apply_rows_from (base_rows : gmap (N * N) Row) (seen : gset (N * N))
    (rows : list TerminalStateRow) : result (list Row) :=
  match rows with
  | [] => Ok []
  | row :: rows =>
      source ← ok_or (tsr_source row) "terminal state diff row source is missing";
      reconstructed ← match source with
                      | BaseAnchor anchor =>
                          ok_or (base_rows !! anchor_key anchor)
                            "terminal state diff references an unavailable base row"
                      | Replacement row => Ok row
                      end;
      anchor ← ok_or (row_start reconstructed) "terminal state diff row has no anchor";
      ensure! negb (bool_decide (anchor_key anchor ∈ seen)),
        "terminal state diff repeats a row anchor";
      rest ← apply_rows_from base_rows ({[anchor_key anchor]} ∪ seen) rows;
      Ok (reconstructed :: rest)
  end.

Definition apply_rows (base : Screen) (rows : list TerminalStateRow) : result (list Row) :=
  ensure! llen rows <=? MAX_INCLUDED_ROWS, "terminal state diff contains too many rows";
  base_rows ← rows_by_anchor (sc_included_rows base);
  apply_rows_from base_rows ∅ rows.

(** ** Diffs of states *)

Definition with_rows (sc : Screen) (rows : list Row) : Screen :=
  mkScreen rows (sc_viewport_start sc) (sc_cursor sc) (sc_saved_cursor sc)
    (sc_oldest_available sc) (sc_newest_available sc) (sc_included_start sc) (sc_included_end sc)
    (sc_scroll_margin_top sc) (sc_scroll_margin_bottom sc) (sc_scroll_margin_left sc)
    (sc_scroll_margin_right sc) (sc_tab_stops sc).
Definition screen_metadata (screen : Screen) : Screen := with_rows screen [].

Definition with_screens (s : State) (primary alternate : option Screen) : State :=
  mkState (st_schema_version s) (st_epoch s) (st_generation s) (st_rows s) (st_cols s)
    primary alternate (st_active_screen s) (st_styles s) (st_hyperlinks s) (st_modes s)
    (st_title s) (st_working_directory s) (st_palette s).
Definition state_metadata (state : State) : State :=
  with_screens state (screen_metadata <$> st_primary state) (screen_metadata <$> st_alternate state).

Section sync.
Context `{SyncLib}.

Definition terminal_state_diff (base target : State) : result TerminalStateDiff :=
  _ ← with_context (validate base) "base terminal state is invalid";
  _ ← with_context (validate target) "target terminal state is invalid";
  ensure! bool_decide (st_epoch base = st_epoch target), "terminal state diff crosses epochs";
  ensure! st_generation base <? st_generation target,
    "terminal state diff target does not advance generation";
  base_primary ← ok_or (st_primary base) "base primary screen is missing";
  base_alternate ← ok_or (st_alternate base) "base alternate screen is missing";
  target_primary ← ok_or (st_primary target) "target primary screen is missing";
  target_alternate ← ok_or (st_alternate target) "target alternate screen is missing";
  let metadata := state_metadata target in
  primary_rows ← diff_rows base_primary target_primary;
  alternate_rows ← diff_rows base_alternate target_alternate;
  Ok (mkDiff (st_epoch target) (st_generation base) (st_generation target) (Some metadata)
        primary_rows alternate_rows).

Definition screen_has_no_rows (s : option Screen) : bool :=
  match s with Some sc => is_empty (sc_included_rows sc) | None => false end.

Definition apply_terminal_state_diff (base : State) (diff : TerminalStateDiff) : result State :=
  _ ← with_context (validate base) "base terminal state is invalid";
  ensure! llen (tsd_epoch diff) =? EPOCH_BYTES, "terminal state diff epoch is invalid";
  ensure! bool_decide (st_epoch base = tsd_epoch diff), "terminal state diff base epoch changed";
  ensure! st_generation base =? tsd_base_generation diff,
    "terminal state diff base generation does not match";
  ensure! tsd_base_generation diff <? tsd_target_generation diff,
    "terminal state diff target does not advance generation";
  target ← ok_or (tsd_target_metadata diff) "terminal state diff target metadata is missing";
  ensure! bool_decide (st_epoch target = tsd_epoch diff), "terminal state diff target epoch changed";
  ensure! st_generation target =? tsd_target_generation diff,
    "terminal state diff target generation does not match metadata";
  ensure! screen_has_no_rows (st_primary target) && screen_has_no_rows (st_alternate target),
    "terminal state diff metadata contains full rows";
  match st_primary target, st_alternate target with
  | Some primary, Some alternate =>
      base_primary ← ok_or (st_primary base) "base primary screen is missing";
      primary_rows ← apply_rows base_primary (tsd_primary_rows diff);
      base_alternate ← ok_or (st_alternate base) "base alternate screen is missing";
      alternate_rows ← apply_rows base_alternate (tsd_alternate_rows diff);
      let target := with_screens target (Some (with_rows primary primary_rows))
                      (Some (with_rows alternate alternate_rows)) in
      _ ← with_context (validate target) "reconstructed terminal state is invalid";
      Ok target
  | _, _ => panic
  end.

(** ** The window *)

Record StateSyncWindow := mkWindow {
  win_acknowledged : option State;
  win_in_flight : option State;
  win_dirty : bool
}.
Definition window_default : StateSyncWindow := mkWindow None None false.

Definition begin_initial (w : StateSyncWindow) (state : State) : StateSyncWindow * result unit :=
  match win_in_flight w with
  | Some _ => (w, Err "terminal state is already in flight")
  | None => (mkWindow (win_acknowledged w) (Some state) (win_dirty w), Ok tt)
  end.

Definition mark_dirty (w : StateSyncWindow) : StateSyncWindow :=
  mkWindow (win_acknowledged w) (win_in_flight w) true.

Definition needs_update (w : StateSyncWindow) : bool := win_dirty w && is_none (win_in_flight w).

(** The base of a diff: an acknowledged state of the same epoch. *)
Definition diff_base (w : StateSyncWindow) (latest : State) : option State :=
  match win_acknowledged w with
  | Some base => if bool_decide (st_epoch base = st_epoch latest)
                    && (st_generation base <? st_generation latest)
                 then Some base else None
  | None => None
  end.

Definition prepare_update (w : StateSyncWindow) (latest : State) (allow_diff : bool)
    : StateSyncWindow * result (option PreparedStateUpdate) :=
  match win_in_flight w with
  | Some _ => (w, Err "terminal state ACK is still pending")
  | None =>
      let w := mkWindow (win_acknowledged w) None false in
      let stale := match win_acknowledged w with
                   | Some base => bool_decide (st_epoch base = st_epoch latest)
                                  && (st_generation latest <=? st_generation base)
                   | None => false
                   end in
      if stale then (w, Ok None)
      else
        let update :=
          if allow_diff then
            match diff_base w latest with
            | Some base =>
                diff ← terminal_state_diff base latest;
                Ok (if diff_encoded_len diff <? state_encoded_len latest
                    then Diff diff else Snapshot latest)
            | None => Ok (Snapshot latest)
            end
          else Ok (Snapshot latest) in
        match update with
        | Ok update => (mkWindow (win_acknowledged w) (Some latest) false, Ok (Some update))
        | Err e => (w, Err e)
        end
  end.

Definition acknowledge (w : StateSyncWindow) (ack : TerminalStateAck)
    : StateSyncWindow * result AckDisposition :=
  if negb (llen (ack_epoch ack) =? EPOCH_BYTES) then (w, Err "terminal state ACK epoch is invalid") else
  if ack_generation ack =? 0 then (w, Err "terminal state ACK generation is zero") else
  let duplicate := match win_acknowledged w with
                   | Some state => bool_decide (st_epoch state = ack_epoch ack)
                                   && (ack_generation ack <=? st_generation state)
                   | None => false
                   end in
  if duplicate then (w, Ok Duplicate) else
  match win_in_flight w with
  | None => (w, Err "terminal state ACK has no matching in-flight update")
  | Some sent =>
      if bool_decide (st_epoch sent = ack_epoch ack) && (st_generation sent =? ack_generation ack)
      then (mkWindow (Some sent) None (win_dirty w), Ok Accepted)
      else (w, Err "terminal state ACK does not match the in-flight generation")
  end.
End sync.
