(* ===== verification/TerminalSyncSpec.v ===== *)
(** * Reliable synchronisation is exact

    Row and state differences reconstruct the target, and the acknowledged
    window keeps the receiver's state and the sender's view of it in step over
    any interleaving of output, transmission and acknowledgement. *)
From S2P Require Import Prelude TerminalState TerminalStateSpec TerminalSync.
Open Scope N_scope.

(** ** Rows *)

Definition row_key_default (r : Row) : N * N := default (0, 0) (row_key r).
Definition anchored (r : Row) : Prop := is_Some (row_start r).

Lemma omap_row_key rows : Forall anchored rows -> omap row_key rows = row_key_default <$> rows.
Proof.
  induction 1 as [|r rows [a Ha] _ IH]; [done|]. cbn. unfold row_key_default, row_key in *.
  rewrite Ha. cbn. by rewrite IH.
Qed.

Lemma rows_by_anchor_body (m : gmap (N * N) Row) row m' :
  (anchor ← ok_or (row_start row) "terminal state row has no anchor";
   ensure! is_none (m !! anchor_key anchor), "terminal state repeats a row anchor";
   Ok (<[anchor_key anchor := row]> m)) = Ok m' <->
  anchored row /\ m !! row_key_default row = None /\ m' = <[row_key_default row := row]> m.
Proof.
  unfold anchored, row_key_default, row_key. destruct (row_start row) as [a|]; cbn.
  - destruct (m !! anchor_key a); cbn; split.
    + done.
    + by intros (_ & ? & _).
    + intros [= <-]. eauto.
    + by intros (_ & _ & ->).
  - split; [done|]. by intros ([? ?] & _).
Qed.

Lemma rows_by_anchor_Ok rows m :
  rows_by_anchor rows = Ok m ->
  Forall anchored rows /\ NoDup (row_key_default <$> rows) /\
  forall k r, m !! k = Some r <-> r ∈ rows /\ row_key_default r = k.
Proof.
  intros Hm. apply (insert_loop_sound _ anchored row_key_default (fun r => r) rows_by_anchor_body)
    in Hm as (? & ? & Hl).
  split_and!; [done..|]. intros k r. rewrite Hl. split; [by intros (? & ? & ? & <-)|].
  intros [? ?]. by exists r.
Qed.
Lemma rows_by_anchor_total rows :
  Forall anchored rows -> NoDup (row_key_default <$> rows) -> exists m, rows_by_anchor rows = Ok m.
Proof. apply (insert_loop_complete _ anchored row_key_default (fun r => r) rows_by_anchor_body). Qed.

Section rows.
Context (base_rows : gmap (N * N) Row).

Definition encode_row (row : Row) : result TerminalStateRow :=
  anchor ← ok_or (row_start row) "target row has no anchor";
  Ok (mkStateRow (Some
    (if bool_decide (base_rows !! anchor_key anchor = Some row)
     then BaseAnchor anchor else Replacement row))).

Lemma apply_encoded_rows rows enc seen :
  mapM encode_row rows = Ok enc -> NoDup (row_key_default <$> rows) ->
  (forall r, r ∈ rows -> row_key_default r ∉ seen) ->
  apply_rows_from base_rows seen enc = Ok rows.
Proof.
  intros Henc%mapM_result_Ok. revert seen.
  induction Henc as [|row e rows enc He _ IH]; intros seen Hnd Hseen; [done|].
  rewrite fmap_cons in Hnd. apply NoDup_cons in Hnd as [Hni Hnd].
  unfold encode_row in He. ok_step He. ok_inv Hr. ok_inv He. cbn [apply_rows_from tsr_source ok_or mbind result_bind].
  assert (Hk : row_key_default row = anchor_key a) by (unfold row_key_default, row_key; by rewrite Ho).
  match goal with |- mbind _ ?m = _ => assert (m = Ok row) as -> end.
  { case_bool_decide as Hb; cbn; [by rewrite Hb|done]. }
  cbn [mbind result_bind]. rewrite Ho. cbn [ok_or mbind result_bind].
  assert (anchor_key a ∉ seen) by (rewrite <- Hk; apply Hseen; left).
  rewrite (bool_decide_eq_false_2 (anchor_key a ∈ seen)) by done. cbn [negb].
  rewrite IH; [done|done|]. intros r Hr Hin. apply elem_of_union in Hin as [Hin|Hin].
  - apply elem_of_singleton in Hin. apply Hni. rewrite Hk, <- Hin. by apply list_elem_of_fmap_2.
  - apply (Hseen r); [by right|done].
Qed.
End rows.

Lemma mapM_result_length {A B} (f : A -> result B) l k : mapM f l = Ok k -> length k = length l.
Proof. intros Hm%mapM_result_Ok. symmetry. by eapply Forall2_length. Qed.

Lemma diff_rows_apply base target enc :
  diff_rows base target = Ok enc -> llen (sc_included_rows target) <= MAX_INCLUDED_ROWS ->
  NoDup (row_key_default <$> sc_included_rows target) ->
  apply_rows base enc = Ok (sc_included_rows target).
Proof.
  unfold diff_rows, apply_rows. intros Hd Hl Hnd. ok_step Hd. fold (encode_row a) in Hd.
  assert (llen enc = llen (sc_included_rows target)) as ->
    by (unfold llen; by rewrite (mapM_result_length _ _ _ Hd)).
  rewrite (proj2 (N.leb_le _ _) Hl). cbn [mbind result_bind].
  eapply apply_encoded_rows; [done|done|]. set_solver.
Qed.

Lemma diff_rows_total base target :
  Forall anchored (sc_included_rows base) -> NoDup (row_key_default <$> sc_included_rows base) ->
  Forall anchored (sc_included_rows target) -> exists enc, diff_rows base target = Ok enc.
Proof.
  intros Ha Hnd Ht. unfold diff_rows. destruct (rows_by_anchor_total _ Ha Hnd) as [m ->].
  cbn [mbind result_bind]. fold (encode_row m).
  setoid_rewrite mapM_result_Ok.
  induction Ht as [|row rows [a Hr] _ [enc IH]]; [by eexists|].
  eexists (_ :: enc). constructor; [|done]. unfold encode_row. rewrite Hr. reflexivity.
Qed.

(** ** States *)

Section states.
Context `{SyncLib}.

Lemma with_context_Ok {A} (r : result A) e a : with_context r e = Ok a <-> r = Ok a.
Proof. destruct r as [|e']; cbn; [done|]. case_bool_decide; by split. Qed.

(** What validation gives the row encoding of one screen. *)
Lemma screen_ok_rows s sids hids sc :
  screen_ok s sids hids sc ->
  Forall anchored (sc_included_rows sc) /\ NoDup (row_key_default <$> sc_included_rows sc).
Proof.
  intros Hs%screen_rows. assert (Ha : Forall anchored (sc_included_rows sc)).
  { eapply Forall_impl; [by eapply rows_anchored|]. intros r (a & Hr & _). by exists a. }
  split; [done|]. rewrite <- omap_row_key by done. by eapply rows_ok_NoDup.
Qed.

Lemma metadata_rows s p a :
  st_primary s = Some p -> st_alternate s = Some a ->
  with_screens (with_screens s (Some (screen_metadata p)) (Some (screen_metadata a)))
    (Some (with_rows (screen_metadata p) (sc_included_rows p)))
    (Some (with_rows (screen_metadata a) (sc_included_rows a))) = s.
Proof. destruct s, p, a. cbn. by intros -> ->. Qed.

Lemma diff_apply base target d :
  terminal_state_diff base target = Ok d -> apply_terminal_state_diff base d = Ok target.
Proof.
  unfold terminal_state_diff. intros Hd. do 2 ok_step Hd. destruct a, a0.
  apply with_context_Ok in Hr as Hvb, Hr0 as Hvt. do 2 ok_step Hd. do 4 ok_step Hd.
  ok_inv Hr1. ok_inv Hr2. ok_inv Hr3. ok_inv Hr4. do 2 ok_step Hd. ok_inv Hd. bool_prop.
  destruct (validate_Ok _ Hvt) as (p & q & sids & hids & Hok). pose proof Hok as [Hp Hq _ Hps Hqs Hlen _ He _ _].
  rewrite Ho1 in Hp. rewrite Ho2 in Hq. simplify_eq.
  unfold apply_terminal_state_diff. rewrite Hr. cbn [mbind result_bind tsd_epoch tsd_base_generation
    tsd_target_generation tsd_target_metadata tsd_primary_rows tsd_alternate_rows ok_or].
  rewrite (proj2 (N.eqb_eq _ _) He), (bool_decide_eq_true_2 (st_epoch base = _)) by done.
  rewrite N.eqb_refl, (proj2 (N.ltb_lt _ _)) by done.
  rewrite bool_decide_eq_true_2 by done.
  cbn [state_metadata with_screens st_generation st_primary st_alternate]. rewrite N.eqb_refl, Ho1, Ho2.
  cbn [fmap option_fmap option_map screen_metadata with_rows screen_has_no_rows sc_included_rows is_empty andb].
  rewrite Ho. cbn [ok_or mbind result_bind].
  rewrite (diff_rows_apply _ _ _ Hr1) by (first [lia | by apply screen_ok_rows in Hps as [_ ?]]).
  rewrite Ho0. cbn [ok_or mbind result_bind].
  rewrite (diff_rows_apply _ _ _ Hr2) by (first [lia | by apply screen_ok_rows in Hqs as [_ ?]]).
  cbn [mbind result_bind].
  match goal with |- context [validate ?t] => assert (t = target) as -> end.
  { by apply (metadata_rows target). }
  by rewrite (proj2 (with_context_Ok _ _ _) Hvt).
Qed.

Lemma diff_total base target :
  validate base = Ok tt -> validate target = Ok tt -> st_epoch base = st_epoch target ->
  st_generation base < st_generation target -> exists d, terminal_state_diff base target = Ok d.
Proof.
  intros Hb Ht He Hg. unfold terminal_state_diff. rewrite Hb, Ht. cbn [with_context mbind result_bind].
  rewrite bool_decide_eq_true_2, (proj2 (N.ltb_lt _ _)) by done.
  destruct (validate_Ok _ Hb) as (p & q & sids & hids & [-> -> _ Hps Hqs]).
  destruct (validate_Ok _ Ht) as (p' & q' & sids' & hids' & [-> -> _ Hps' Hqs']).
  apply screen_ok_rows in Hps as [? ?], Hqs as [? ?], Hps' as [? ?], Hqs' as [? ?].
  cbn [ok_or mbind result_bind].
  destruct (diff_rows_total p p') as [enc ->]; [done..|]. cbn [mbind result_bind].
  destruct (diff_rows_total q q') as [enc' ->]; [done..|]. by eexists.
Qed.

Lemma apply_sound base d t :
  apply_terminal_state_diff base d = Ok t ->
  validate base = Ok tt /\ validate t = Ok tt /\ st_epoch t = st_epoch base /\
  st_generation base = tsd_base_generation d /\ st_generation t = tsd_target_generation d /\
  st_generation base < st_generation t.
Proof.
  unfold apply_terminal_state_diff. intros Ha. do 6 ok_step Ha. ok_inv Hr0. do 3 ok_step Ha.
  do 2 ok_step Ha. do 5 ok_step Ha. ok_inv Ha. destruct a, a5.
  apply with_context_Ok in Hr, Hr4. bool_prop.
  cbn [with_screens st_epoch st_generation]. split_and!; [done|done|congruence|done|done|lia].
Qed.
End states.

(** ** The window and its receiver

    The receiver keeps one state; a snapshot replaces it and a difference is
    applied to it.  The link delivers updates in order, at most one is on it;
    acknowledgements may be repeated. *)
Section window.
Context `{SyncLib}.

Definition receive (client : option State) (u : PreparedStateUpdate) : result State :=
  match u with
  | Snapshot s => _ ← validate s; Ok s
  | Diff d => base ← ok_or client "no base state"; apply_terminal_state_diff base d
  end.
Definition ack_of (s : State) : TerminalStateAck := mkAck (st_epoch s) (st_generation s).

Record SyncSystem := mkSync {
  sys_window : StateSyncWindow;
  sys_latest : State;
  sys_client : option State;
  sys_wire : option PreparedStateUpdate;
  sys_acks : option TerminalStateAck
}.

(** The terminal produces output: a newer valid state, and the dirty bit. *)
Inductive output_step : SyncSystem -> SyncSystem -> Prop :=
| Output w latest client wire acks next :
    validate next = Ok tt -> st_epoch next = st_epoch latest ->
    st_generation latest < st_generation next ->
    output_step (mkSync w latest client wire acks) (mkSync (mark_dirty w) next client wire acks).

Inductive transfer_step : SyncSystem -> SyncSystem -> Prop :=
| Begin w w' latest acks :
    win_acknowledged w = None -> begin_initial w latest = (w', Ok tt) ->
    transfer_step (mkSync w latest None None acks) (mkSync w' latest None (Some (Snapshot latest)) acks)
| Flush w w' latest client wire acks allow o :
    needs_update w = true -> prepare_update w latest allow = (w', Ok o) ->
    transfer_step (mkSync w latest client wire acks) (mkSync w' latest client o acks)
| Receive w latest client u acks s :
    receive client u = Ok s ->
    transfer_step (mkSync w latest client (Some u) acks)
                  (mkSync w latest (Some s) None (Some (ack_of s)))
| Ack w w' latest client wire a d :
    acknowledge w a = (w', Ok d) ->
    transfer_step (mkSync w latest client wire (Some a)) (mkSync w' latest client wire None)
| Reack w latest s wire :
    transfer_step (mkSync w latest (Some s) wire None) (mkSync w latest (Some s) wire (Some (ack_of s))).

Definition sync_step (a b : SyncSystem) : Prop := output_step a b \/ transfer_step a b.
Definition sync_init (s : State) : SyncSystem := mkSync window_default s None None None.
Definition sync_reachable (x : SyncSystem) : Prop :=
  exists s, validate s = Ok tt /\ rtc sync_step (sync_init s) x.

(** A state the terminal had, seen from the newest one. *)
Definition older (s latest : State) : Prop :=
  validate s = Ok tt /\ st_epoch s = st_epoch latest /\ st_generation s <= st_generation latest /\
  (st_generation s = st_generation latest -> s = latest).

Record sync_inv (x : SyncSystem) : Prop := {
  inv_latest : validate (sys_latest x) = Ok tt;
  inv_acked : forall b, win_acknowledged (sys_window x) = Some b -> older b (sys_latest x);
  inv_flight : forall s, win_in_flight (sys_window x) = Some s -> older s (sys_latest x) /\
    (win_dirty (sys_window x) = false -> s = sys_latest x) /\
    forall b, win_acknowledged (sys_window x) = Some b -> st_generation b < st_generation s;
  inv_phase :
    match win_in_flight (sys_window x) with
    | None => sys_wire x = None /\ sys_client x = win_acknowledged (sys_window x) /\
              sys_acks x ∈ [None; ack_of <$> win_acknowledged (sys_window x)] /\
              (win_dirty (sys_window x) = false ->
               win_acknowledged (sys_window x) = None \/
               win_acknowledged (sys_window x) = Some (sys_latest x))
    | Some s =>
        (exists u, sys_wire x = Some u /\ sys_client x = win_acknowledged (sys_window x) /\
           receive (sys_client x) u = Ok s /\
           sys_acks x ∈ [None; ack_of <$> win_acknowledged (sys_window x)]) \/
        (sys_wire x = None /\ sys_client x = Some s /\ sys_acks x ∈ [None; Some (ack_of s)])
    end
}.

Lemma acknowledge_current w s latest :
  older s latest -> win_in_flight w = Some s ->
  (forall b, win_acknowledged w = Some b -> st_generation b < st_generation s) ->
  acknowledge w (ack_of s) = (mkWindow (Some s) None (win_dirty w), Ok Accepted).
Proof.
  intros (Hv & _) Hf Hb. destruct (validate_Ok _ Hv) as (? & ? & ? & ? & [_ _ _ _ _ _ _ He Hg _]).
  unfold acknowledge, ack_of. cbn [ack_epoch ack_generation]. rewrite (proj2 (N.eqb_eq _ _) He). cbn [negb].
  rewrite (proj2 (N.eqb_neq _ _)) by lia. rewrite Hf.
  rewrite bool_decide_eq_true_2, N.eqb_refl by done. cbn [andb].
  destruct (win_acknowledged w) as [b|]; [|done]. specialize (Hb _ eq_refl).
  rewrite (proj2 (N.leb_gt _ _)) by lia. by rewrite andb_false_r.
Qed.

Lemma acknowledge_old w b :
  validate b = Ok tt -> win_acknowledged w = Some b -> acknowledge w (ack_of b) = (w, Ok Duplicate).
Proof.
  intros Hv Hb. destruct (validate_Ok _ Hv) as (? & ? & ? & ? & [_ _ _ _ _ _ _ He Hg _]).
  unfold acknowledge, ack_of. cbn [ack_epoch ack_generation]. rewrite (proj2 (N.eqb_eq _ _) He). cbn [negb].
  rewrite (proj2 (N.eqb_neq _ _)) by lia. rewrite Hb.
  by rewrite bool_decide_eq_true_2, N.leb_refl.
Qed.

(** Preparing an update of a clean system: nothing to send, or an update the
    receiver turns into the newest state. *)
Lemma prepare_update_spec w latest allow :
  win_in_flight w = None -> validate latest = Ok tt ->
  (forall b, win_acknowledged w = Some b -> older b latest) ->
  (prepare_update w latest allow = (mkWindow (win_acknowledged w) None false, Ok None) /\
   win_acknowledged w = Some latest) \/
  exists u, prepare_update w latest allow =
      (mkWindow (win_acknowledged w) (Some latest) false, Ok (Some u)) /\
    receive (win_acknowledged w) u = Ok latest /\
    forall b, win_acknowledged w = Some b -> st_generation b < st_generation latest.
Proof.
  intros Hf Hl Hb. unfold prepare_update, diff_base. rewrite Hf. cbn [win_acknowledged].
  assert (Hsnap : forall c, receive c (Snapshot latest) = Ok latest) by (intros c; cbn; by rewrite Hl).
  destruct (win_acknowledged w) as [b|]; [|right; exists (Snapshot latest); by destruct allow].
  destruct (Hb _ eq_refl) as (Hv & He & Hle & Heq). rewrite bool_decide_eq_true_2 by done. cbn [andb].
  destruct (N.leb_spec (st_generation latest) (st_generation b)) as [Hg|Hg].
  { left. split; [done|]. f_equal. apply Heq. lia. }
  right. rewrite (proj2 (N.ltb_lt _ _)) by lia.
  destruct (diff_total b latest Hv Hl He Hg) as [d Hd]. rewrite Hd. cbn [mbind result_bind].
  assert (Hdiff : receive (Some b) (Diff d) = Ok latest) by (cbn; by apply diff_apply).
  assert (Hlt : forall b', Some b = Some b' -> st_generation b' < st_generation latest)
    by (intros ? [= <-]; done).
  destruct allow; [case_match|]; eauto.
Qed.

Lemma older_refl s : validate s = Ok tt -> older s s.
Proof. intros. split_and!; [done|done|lia|done]. Qed.
Lemma older_next s latest next :
  older s latest -> st_epoch next = st_epoch latest -> st_generation latest < st_generation next ->
  older s next.
Proof. intros (Hv & He & Hg & _) ? ?. split_and!; [done|congruence|lia|lia]. Qed.

Lemma sync_inv_init s : validate s = Ok tt -> sync_inv (sync_init s).
Proof. intros Hs. split; cbn; [done|done|done|]. split_and!; [done|done|by left|by left]. Qed.

Lemma sync_inv_output x y : sync_inv x -> output_step x y -> sync_inv y.
Proof.
  intros [Hl Ha Hf Hp] Hs. destruct Hs as [w latest client wire acks next Hv He Hg]. cbn in *.
  split; cbn; [done| | |].
  - intros b Hb. eapply older_next; eauto.
  - intros s Hs. apply Hf in Hs as (Ho & _ & Hlt). split_and!; [by eapply older_next|done|done].
  - destruct (win_in_flight w); [done|]. destruct Hp as (? & ? & ? & _). done.
Qed.

Lemma receive_ack_of acks w : acks ∈ [None; ack_of <$> win_acknowledged w] ->
  forall a, acks = Some a -> exists b, win_acknowledged w = Some b /\ a = ack_of b.
Proof.
  intros Hin a ->. apply elem_of_cons in Hin as [?|Hin]; [done|]. apply list_elem_of_singleton in Hin.
  destruct (win_acknowledged w); cbn in Hin; simplify_eq; eauto.
Qed.

Lemma sync_inv_transfer x y : sync_inv x -> transfer_step x y -> sync_inv y.
Proof.
  intros [Hl Ha Hf Hp] Hs. destruct Hs as
    [w w' latest acks Hna Hb|w w' latest client wire acks allow o Hn Hu
    |w latest client u acks s Hr|w w' latest client wire a d Hk|w latest s wire]; cbn in *.
  - unfold begin_initial in Hb. destruct (win_in_flight w) eqn:Ew; simplify_eq. rewrite Hna in *.
    destruct Hp as (_ & _ & Hacks & _). split; cbn; rewrite ?Hna; [done|done| |].
    + intros s [= <-]. split_and!; [by apply older_refl|done|done].
    + left. exists (Snapshot latest). cbn. rewrite Hl. done.
  - unfold needs_update in Hn. destruct (win_in_flight w) eqn:Ew; [by rewrite andb_false_r in Hn|].
    destruct Hp as (-> & -> & Hacks & _).
    destruct (prepare_update_spec w latest allow Ew Hl Ha) as [[Hpr Hb]|(u & Hpr & Hrec & Hlt)];
      rewrite Hpr in Hu; simplify_eq; split; cbn; rewrite ?Hb in *; auto.
    + done.
    + intros s [= <-]. split_and!; [by apply older_refl|done|done].
    + left. exists u. done.
  - destruct (win_in_flight w) as [s'|] eqn:Ew; [|by destruct Hp].
    destruct Hp as [(u' & [= <-] & -> & Hrec & _)|[? _]]; [|done].
    rewrite Hrec in Hr. simplify_eq. split; cbn; rewrite ?Ew; [done|done|done|].
    right. split_and!; [done|done|]. right. left.
  - destruct (win_in_flight w) as [s|] eqn:Ew.
    + destruct (Hf _ eq_refl) as (Ho & Hd & Hlt).
      destruct Hp as [(u & -> & -> & Hrec & Hacks)|(-> & -> & Hacks)].
      * destruct (receive_ack_of _ _ Hacks _ eq_refl) as (b & Hb & ->).
        destruct (Ha _ Hb) as (Hv & _). rewrite (acknowledge_old w b Hv Hb) in Hk. simplify_eq.
        split; cbn; rewrite ?Ew; [done|done|done|]. left. exists u. split_and!; [done|done|done|left].
      * assert (a = ack_of s) as ->.
        { apply elem_of_cons in Hacks as [?|Hacks]; [done|]. apply list_elem_of_singleton in Hacks. congruence. }
        rewrite (acknowledge_current w s latest Ho Ew Hlt) in Hk. simplify_eq.
        split; cbn; [done|by intros ? [= <-]|done|].
        split_and!; [done|done|left|]. intros Hdd. right. by rewrite Hd.
    + destruct Hp as (-> & -> & Hacks & Hd).
      destruct (receive_ack_of _ _ Hacks _ eq_refl) as (b & Hb & ->).
      destruct (Ha _ Hb) as (Hv & _). rewrite (acknowledge_old w b Hv Hb) in Hk. simplify_eq.
      split; cbn; rewrite ?Ew; [done|done|done|]. split_and!; [done|done|left|done].
  - split; cbn; [done|done|done|]. destruct (win_in_flight w) as [s'|].
    + destruct Hp as [(u & -> & Hc & Hrec & _)|(-> & [= ->] & _)].
      * left. exists u. split_and!; [done|done|done|]. rewrite <- Hc. right. left.
      * right. split_and!; [done|done|right; left].
    + destruct Hp as (-> & Hc & _ & Hd). split_and!; [done|done| |done]. rewrite <- Hc. right. left.
Qed.

Lemma sync_reachable_inv x : sync_reachable x -> sync_inv x.
Proof.
  intros (s & Hs & Hr). revert Hr. apply rtc_invariant; [by apply sync_inv_init|].
  intros a b Hi [Ho|Ht]; [by eapply sync_inv_output|by eapply sync_inv_transfer].
Qed.

(** *** Progress *)

Lemma drain_flight x s :
  sync_inv x -> win_in_flight (sys_window x) = Some s ->
  exists acks, rtc transfer_step x
    (mkSync (mkWindow (Some s) None (win_dirty (sys_window x))) (sys_latest x) (Some s) None acks).
Proof.
  intros [Hl Ha Hf Hp] Hs. destruct x as [w latest client wire acks]. cbn in *.
  destruct (Hf _ Hs) as (Ho & Hd & Hlt). rewrite Hs in Hp.
  assert (Hack : transfer_step (mkSync w latest (Some s) None (Some (ack_of s)))
    (mkSync (mkWindow (Some s) None (win_dirty w)) latest (Some s) None None)).
  { eapply Ack. by apply acknowledge_current with (latest := latest). }
  exists None. destruct Hp as [(u & -> & -> & Hrec & _)|(-> & -> & Hacks)].
  - eapply rtc_l; [by apply Receive|]. by apply rtc_once.
  - apply elem_of_cons in Hacks as [->|Hacks].
    + eapply rtc_l; [apply Reack|]. by apply rtc_once.
    + apply list_elem_of_singleton in Hacks as ->. by apply rtc_once.
Qed.

Lemma drain_all x (allow : bool) :
  sync_inv x -> exists w acks,
    rtc transfer_step x (mkSync w (sys_latest x) (Some (sys_latest x)) None acks) /\
    win_acknowledged w = Some (sys_latest x) /\ win_in_flight w = None /\ win_dirty w = false.
Proof.
  intros Hi.
  (* from a system without an update in flight *)
  assert (Hidle : forall x, sync_inv x -> win_in_flight (sys_window x) = None ->
    exists w acks, rtc transfer_step x (mkSync w (sys_latest x) (Some (sys_latest x)) None acks) /\
      win_acknowledged w = Some (sys_latest x) /\ win_in_flight w = None /\ win_dirty w = false).
  { clear x Hi. intros [w latest client wire acks] Hi Hw. cbn in Hw.
    pose proof Hi as [Hl Ha Hf Hp]. cbn in *. rewrite Hw in Hp.
    destruct Hp as (-> & -> & Hacks & Hd).
    destruct (win_dirty w) eqn:Edirty.
    - destruct (prepare_update_spec w latest allow Hw Hl Ha) as [[Hpr Hb]|(u & Hpr & Hrec & Hlt)].
      + exists (mkWindow (win_acknowledged w) None false), acks. rewrite Hb. split; [|done].
        apply rtc_once. rewrite <- Hb. eapply (Flush w _ _ _ _ _ allow); [|done].
        unfold needs_update. by rewrite Edirty, Hw.
      + assert (Hstep : transfer_step (mkSync w latest (win_acknowledged w) None acks)
          (mkSync (mkWindow (win_acknowledged w) (Some latest) false) latest (win_acknowledged w) (Some u) acks)).
        { eapply Flush; [|done]. unfold needs_update. by rewrite Edirty, Hw. }
        destruct (drain_flight _ latest (sync_inv_transfer _ _ Hi Hstep) eq_refl) as [acks' Hr].
        eexists _, acks'. split; [by eapply rtc_l|done].
    - destruct Hd as [Hnone|Hsome]; [done| |].
      + assert (Hstep : transfer_step (mkSync w latest (win_acknowledged w) None acks)
          (mkSync (mkWindow None (Some latest) false) latest None (Some (Snapshot latest)) acks)).
        { rewrite Hnone. apply Begin; [done|]. unfold begin_initial. by rewrite Hw, Hnone, Edirty. }
        destruct (drain_flight _ latest (sync_inv_transfer _ _ Hi Hstep) eq_refl) as [acks' Hr].
        eexists _, acks'. split; [by eapply rtc_l|done].
      + exists w, acks. rewrite Hsome. done. }
  destruct (win_in_flight (sys_window x)) as [s|] eqn:Ew; [|by apply Hidle].
  destruct (drain_flight _ _ Hi Ew) as [acks Hr].
  assert (Hi' : sync_inv (mkSync (mkWindow (Some s) None (win_dirty (sys_window x))) (sys_latest x) (Some s) None acks)).
  { revert Hr. apply rtc_invariant; [done|]. apply sync_inv_transfer. }
  destruct (Hidle _ Hi' eq_refl) as (w & acks' & Hr' & Hw). exists w, acks'.
  split; [by etrans|done].
Qed.
End window.

(** *** Applying a difference never panics *)

Lemma apply_state_diff_no_panic `{SyncLib} base d : apply_terminal_state_diff base d <> panic.
Proof.
  assert (Hby : forall rows, rows_by_anchor rows <> panic) by (intros; unfold rows_by_anchor; no_panic).
  assert (Hfrom : forall m seen rows, apply_rows_from m seen rows <> panic).
  { intros m seen rows. revert seen. induction rows; intros seen; cbn [apply_rows_from]; no_panic. }
  assert (Hrows : forall sc rows, apply_rows sc rows <> panic) by (intros; unfold apply_rows; no_panic).
  unfold apply_terminal_state_diff. no_panic.
  all: exfalso; cbn in *; bool_prop; congruence.
Qed.

(** ** Theorems *)

(** Between any two valid states of one terminal, a difference can always
    be built, and applying it to the base gives back the target exactly: every
    row, cursor, table and mode, not only the rows that changed. *)
Theorem state_diff_roundtrip `{SyncLib} base target :
  validate base = Ok tt -> validate target = Ok tt -> st_epoch base = st_epoch target ->
  st_generation base < st_generation target ->
  exists d, terminal_state_diff base target = Ok d /\ apply_terminal_state_diff base d = Ok target.
Proof.
  intros Hb Ht He Hg. destruct (diff_total base target Hb Ht He Hg) as [d Hd].
  exists d. split; [done|]. by apply diff_apply.
Qed.

Definition ex_sync_lib : SyncLib := {| sync_state_lib := ex_lib; diff_encoded_len := fun _ => 10 |}.

Lemma state_diff_roundtrip_witness :
  exists d, @terminal_state_diff ex_sync_lib (ex_state 1 ex_rows1) (ex_state 2 ex_rows2) = Ok d /\
  @apply_terminal_state_diff ex_sync_lib (ex_state 1 ex_rows1) d = Ok (ex_state 2 ex_rows2).
Proof.
  apply (@state_diff_roundtrip ex_sync_lib (ex_state 1 ex_rows1) (ex_state 2 ex_rows2));
    [vm_compute; reflexivity..].
Defined.

(** Whatever difference arrives, applying it either fails or yields a
    valid state of the same epoch whose generation is the announced one and
    strictly newer than the base; a malformed difference cannot put the
    receiver into an invalid state, and applying one never panics. *)
Theorem apply_diff_safe `{SyncLib} base d :
  apply_terminal_state_diff base d <> panic /\
  forall t, apply_terminal_state_diff base d = Ok t ->
    validate t = Ok tt /\ st_epoch t = st_epoch base /\
    st_generation base = tsd_base_generation d /\ st_generation t = tsd_target_generation d /\
    st_generation base < st_generation t.
Proof.
  split; [|intros t Ht; by apply apply_sound in Ht as (_ & ?)].
  apply apply_state_diff_no_panic.
Qed.

(** C22: in every reachable state of the window, the link and the receiver, no
    step fails: an update on the link applies to the receiver's state and gives
    the state in flight, an acknowledgement that arrives is accepted or a
    duplicate, a needed update can be prepared; and when nothing is dirty or in
    flight the receiver shows exactly the terminal's newest state. *)
Theorem sync_window_consistent `{SyncLib} x :
  sync_reachable x ->
  (forall u, sys_wire x = Some u -> exists s,
     win_in_flight (sys_window x) = Some s /\ receive (sys_client x) u = Ok s) /\
  (forall a, sys_acks x = Some a -> is_ok (acknowledge (sys_window x) a).2 = true) /\
  (forall allow, needs_update (sys_window x) = true ->
     is_ok (prepare_update (sys_window x) (sys_latest x) allow).2 = true) /\
  (needs_update (sys_window x) = false -> win_in_flight (sys_window x) = None ->
     sys_client x = None \/ sys_client x = Some (sys_latest x)).
Proof.
  intros [Hl Ha Hf Hp]%sync_reachable_inv. split_and!.
  - intros u Hu. destruct (win_in_flight (sys_window x)) as [s|] eqn:Ew; [|destruct Hp; congruence].
    exists s. split; [done|]. destruct Hp as [(u' & Hu' & _ & Hr & _)|[? _]]; congruence.
  - intros a Hacks. destruct (win_in_flight (sys_window x)) as [s|] eqn:Ew.
    + destruct (Hf _ eq_refl) as (Ho & _ & Hlt). destruct Hp as [(u & _ & _ & _ & Hin)|(_ & _ & Hin)].
      * destruct (receive_ack_of _ _ Hin _ Hacks) as (b & Hb & ->). destruct (Ha _ Hb) as [Hv _].
        by rewrite (acknowledge_old _ b Hv Hb).
      * rewrite Hacks in Hin. apply elem_of_cons in Hin as [?|Hin]; [done|].
        apply list_elem_of_singleton in Hin as [= ->]. by erewrite acknowledge_current.
    + destruct Hp as (_ & _ & Hin & _). destruct (receive_ack_of _ _ Hin _ Hacks) as (b & Hb & ->).
      destruct (Ha _ Hb) as [Hv _]. by rewrite (acknowledge_old _ b Hv Hb).
  - intros allow Hn. unfold needs_update in Hn. destruct (win_in_flight (sys_window x)) eqn:Ew;
      [by rewrite andb_false_r in Hn|].
    destruct (prepare_update_spec _ _ allow Ew Hl Ha) as [[-> _]|(u & -> & _)]; done.
  - unfold needs_update. intros Hn Hw. rewrite Hw in *. rewrite andb_true_r in Hn.
    destruct Hp as (_ & -> & _ & Hd). by apply Hd.
Qed.

Definition ex_sync : SyncSystem :=
  mkSync (mkWindow (Some (ex_state 1 ex_rows1)) None true) (ex_state 2 ex_rows2)
    (Some (ex_state 1 ex_rows1)) None None.
Lemma ex_sync_reachable : @sync_reachable ex_sync_lib ex_sync.
Proof.
  exists (ex_state 1 ex_rows1). split; [vm_compute; reflexivity|].
  eapply rtc_l. { right. apply Begin; [reflexivity|]. unfold sync_init. reflexivity. }
  eapply rtc_l. { right. eapply Receive. vm_compute. reflexivity. }
  eapply rtc_l. { right. eapply Ack. vm_compute. reflexivity. }
  eapply rtc_l. { left. apply (Output _ _ _ _ _ (ex_state 2 ex_rows2)); vm_compute; reflexivity. }
  vm_compute. apply rtc_refl.
Defined.

Lemma sync_window_consistent_witness :
  @sync_reachable ex_sync_lib ex_sync /\
  is_ok (@prepare_update ex_sync_lib (sys_window ex_sync) (sys_latest ex_sync) true).2 = true.
Proof.
  split; [exact ex_sync_reachable|].
  exact (proj1 (proj2 (proj2 (@sync_window_consistent ex_sync_lib ex_sync ex_sync_reachable))) true eq_refl).
Defined.

(** Once the terminal stops producing output, delivering and acknowledging
    what is outstanding brings the receiver to the newest state: from every
    reachable state a sequence of transfer steps ends with the receiver showing
    the terminal's state, acknowledged, and nothing left to send. *)
Theorem sync_window_converges `{SyncLib} x :
  sync_reachable x -> exists y, rtc transfer_step x y /\
    sys_latest y = sys_latest x /\ sys_client y = Some (sys_latest x) /\
    win_acknowledged (sys_window y) = Some (sys_latest x) /\
    needs_update (sys_window y) = false /\ sys_wire y = None.
Proof.
  intros Hi%sync_reachable_inv. destruct (drain_all x true Hi) as (w & acks & Hr & Ha & Hf & Hd).
  eexists. split; [done|]. cbn. split_and!; [done..| |done]. unfold needs_update. by rewrite Hd.
Qed.

Lemma sync_window_converges_witness :
  exists y, rtc (@transfer_step ex_sync_lib) ex_sync y /\ sys_client y = Some (ex_state 2 ex_rows2).
Proof.
  destruct (@sync_window_converges ex_sync_lib ex_sync ex_sync_reachable) as (y & Hr & _ & Hc & _).
  exists y. split; [exact Hr|exact Hc].
Defined.
