(* ===== verification/ViewportDelta.v ===== *)
(** * Compact viewport deltas (src/src/terminal_streaming.rs)

    A cumulative delta between two live viewports: tables and metadata that did
    not change are inherited, rows are patched by splicing cells.  [usize]
    indices are [nat], the indices on the wire are [u32] values in [N], obtained
    with the truncating cast of the source. *)
From S2P Require Import Prelude TerminalState TerminalStateSpec TerminalSync.
Open Scope N_scope.

(** ** Messages (src/src/protocol.rs) *)

Record TerminalViewportFragment := mkFragment {
  fr_epoch : bytes;
  fr_base_generation : N;
  fr_target_generation : N;
  fr_transfer_id : bytes;
  fr_index : N;
  fr_count : N;
  fr_total_encoded : N;
  fr_raw_length : N;
  fr_encoding : Z;
  fr_sha256 : bytes;
  fr_data : bytes
}.

Record TerminalViewportRowPatch := mkPatch {
  rp_index : N;
  rp_base_index : N;
  rp_metadata : option Row;
  rp_cell_start : N;
  rp_delete_count : N;
  rp_cells : list Cell
}.

Record TerminalViewportDatagram := mkDatagram {
  dg_terminal_id : string;
  dg_attachment_id : string;
  dg_diff : option TerminalStateDiff;
  dg_inherited_fields : N;
  dg_sparse_rows : bool;
  dg_primary_patches : list TerminalViewportRowPatch;
  dg_alternate_patches : list TerminalViewportRowPatch;
  dg_fragment : option TerminalViewportFragment
}.

Definition datagram_diff (d : TerminalViewportDatagram) : result TerminalStateDiff :=
  ok_or (dg_diff d) "terminal viewport delta has no semantic diff".

(** ** Row patches *)

(** [a.iter().zip(b).take_while(|(a, b)| a == b).count()] *)
Fixpoint common_prefix (a b : list Cell) : nat :=
  match a, b with
  | x :: a, y :: b => if bool_decide (x = y) then S (common_prefix a b) else 0%nat
  | _, _ => 0%nat
  end.

(** The map from a base row's anchor to its index. *)
Fixpoint anchor_indices (m : gmap (N * N) nat) (index : nat) (base : list Row) : gmap (N * N) nat :=
  match base with
  | [] => m
  | row :: base =>
      anchor_indices (match row_start row with
                      | Some anchor => <[anchor_key anchor := index]> m
                      | None => m
                      end) (S index) base
  end.

Definition make_patch (index base_index : nat) (old row : Row) : TerminalViewportRowPatch :=
  let prefix := common_prefix (row_cells old) (row_cells row) in
  let suffix := common_prefix (rev (drop prefix (row_cells old))) (rev (drop prefix (row_cells row))) in
  let metadata := mkRow (row_start row) (row_version row) [] (row_wrapped_to_next row) in
  mkPatch (as_u32 (N.of_nat index)) (as_u32 (N.of_nat base_index)) (Some metadata)
    (as_u32 (N.of_nat prefix))
    (as_u32 (N.of_nat (length (row_cells old) - prefix - suffix)))
    (* row.cells[prefix..row.cells.len() - suffix] *)
    (take (length (row_cells row) - suffix - prefix) (drop prefix (row_cells row))).

(** The loop of [sparse_row_patches]; an index out of bounds panics. *)
Fixpoint sparse_row_patches_from (base : list Row) (anchors : gmap (N * N) nat) (index : nat)
    (target : list Row) : result (list TerminalViewportRowPatch) :=
  match target with
  | [] => Ok []
  | row :: target =>
      match base !! index with
      | None => panic
      | Some same =>
          if bool_decide (row = same) then sparse_row_patches_from base anchors (S index) target
          else
            let base_index :=
              default index (anchor ← row_start row; anchors !! anchor_key anchor) in
            match base !! base_index with
            | None => panic
            | Some old =>
                patches ← sparse_row_patches_from base anchors (S index) target;
                Ok (make_patch index base_index old row :: patches)
            end
      end
  end.

Definition sparse_row_patches (base target : list Row) : result (list TerminalViewportRowPatch) :=
  ensure! bool_decide (length base = length target), "viewport geometry changed without keyframe";
  sparse_row_patches_from base (anchor_indices ∅ 0 base) 0 target.

(** The loop body of [apply_sparse_rows]: the rows so far and the indices seen. *)
Definition apply_patch (base : list Row) (acc : list Row * gset N) (patch : TerminalViewportRowPatch)
    : result (list Row * gset N) :=
  let '(target, seen) := acc in
  let index := rp_index patch in
  ensure! (index <? llen base) && negb (bool_decide (index ∈ seen)),
    "invalid or duplicate viewport row index";
  old ← ok_or (base !! N.to_nat (rp_base_index patch)) "invalid viewport base row index";
  let start := rp_cell_start patch in
  end_ ← ok_or (checked_add U64_MAX start (rp_delete_count patch)) "cell splice overflow";
  ensure! end_ <=? llen (row_cells old), "cell splice exceeds base row";
  row ← ok_or (rp_metadata patch) "viewport row metadata missing";
  ensure! is_empty (row_cells row), "viewport row metadata contains cells";
  let row := mkRow (row_start row) (row_version row)
               (take (N.to_nat start) (row_cells old) ++ rp_cells patch
                ++ drop (N.to_nat end_) (row_cells old))
               (row_wrapped_to_next row) in
  Ok (<[N.to_nat index := row]> target, {[index]} ∪ seen).

Definition apply_sparse_rows (base : list Row) (patches : list TerminalViewportRowPatch)
    : result (list Row) :=
  ensure! llen patches <=? llen base, "too many viewport row patches";
  '(target, _) ← try_fold (apply_patch base) (base, ∅) patches;
  Ok target.

(** ** Inherited fields *)

Definition INHERIT_STYLES : N := 1.
Definition INHERIT_HYPERLINKS : N := 2.
Definition INHERIT_MODES : N := 4.
Definition INHERIT_TITLE : N := 8.
Definition INHERIT_WORKING_DIRECTORY : N := 16.
Definition INHERIT_PALETTE : N := 32.
Definition KNOWN_INHERIT_MASK : N :=
  N.lor (N.lor (N.lor (N.lor (N.lor INHERIT_STYLES INHERIT_HYPERLINKS) INHERIT_MODES)
    INHERIT_TITLE) INHERIT_WORKING_DIRECTORY) INHERIT_PALETTE.

Definition with_tables (s : State) (styles : list Style) (links : list Hyperlink)
    (modes : option Modes) (title dir : string) (palette : option Palette) : State :=
  mkState (st_schema_version s) (st_epoch s) (st_generation s) (st_rows s) (st_cols s)
    (st_primary s) (st_alternate s) (st_active_screen s) styles links modes title dir palette.

(** The six conditional blocks of [compact_viewport_datagram]: a field equal to
    the base's is cleared and its bit set. *)
Definition inherit_fields (base metadata : State) : State * N :=
  let keep {A} (same : bool) (mask : N) (empty v : A) : A * N := if same then (empty, mask) else (v, 0) in
  let '(styles, b1) := keep (bool_decide (st_styles metadata = st_styles base)) INHERIT_STYLES
                         [] (st_styles metadata) in
  let '(links, b2) := keep (bool_decide (st_hyperlinks metadata = st_hyperlinks base)) INHERIT_HYPERLINKS
                        [] (st_hyperlinks metadata) in
  let '(modes, b3) := keep (bool_decide (st_modes metadata = st_modes base)) INHERIT_MODES
                        None (st_modes metadata) in
  let '(title, b4) := keep (bool_decide (st_title metadata = st_title base)) INHERIT_TITLE
                        "" (st_title metadata) in
  let '(dir, b5) := keep (bool_decide (st_working_directory metadata = st_working_directory base))
                      INHERIT_WORKING_DIRECTORY "" (st_working_directory metadata) in
  let '(palette, b6) := keep (bool_decide (st_palette metadata = st_palette base)) INHERIT_PALETTE
                          None (st_palette metadata) in
  (with_tables metadata styles links modes title dir palette,
   N.lor (N.lor (N.lor (N.lor (N.lor b1 b2) b3) b4) b5) b6).

(** One inherited field of [apply_compact_viewport_delta]. *)
Definition restore_field {A} (fields mask : N) (empty : A -> bool) (e : string) (v base : A) : result A :=
  if N.land fields mask =? 0 then Ok v
  else ensure! empty v, e; Ok base.

Definition restore_fields (base metadata : State) (fields : N) : result State :=
  styles ← restore_field fields INHERIT_STYLES is_empty "inherited styles are also encoded"
             (st_styles metadata) (st_styles base);
  links ← restore_field fields INHERIT_HYPERLINKS is_empty "inherited hyperlinks are also encoded"
            (st_hyperlinks metadata) (st_hyperlinks base);
  modes ← restore_field fields INHERIT_MODES is_none "inherited modes are also encoded"
            (st_modes metadata) (st_modes base);
  title ← restore_field fields INHERIT_TITLE (fun s => bool_decide (s = ""))
            "inherited title is also encoded" (st_title metadata) (st_title base);
  dir ← restore_field fields INHERIT_WORKING_DIRECTORY (fun s => bool_decide (s = ""))
          "inherited working directory is also encoded"
          (st_working_directory metadata) (st_working_directory base);
  palette ← restore_field fields INHERIT_PALETTE is_none "inherited palette is also encoded"
              (st_palette metadata) (st_palette base);
  Ok (with_tables metadata styles links modes title dir palette).

(** ** Deltas *)

Definition compact_viewport_datagram (terminal_id attachment_id : string) (base target : State)
    : result TerminalViewportDatagram :=
  ensure! negb (bool_decide (terminal_id = "")) && negb (bool_decide (attachment_id = "")),
    "terminal viewport datagram route is empty";
  ensure! bool_decide (st_epoch base = st_epoch target) && (st_generation base <? st_generation target),
    "invalid cumulative viewport generation";
  let '(metadata, inherited_fields) := inherit_fields base (state_metadata target) in
  base_primary ← ok_or (st_primary base) "missing primary";
  target_primary ← ok_or (st_primary target) "missing primary";
  primary_patches ← sparse_row_patches (sc_included_rows base_primary) (sc_included_rows target_primary);
  base_alternate ← ok_or (st_alternate base) "missing alternate";
  target_alternate ← ok_or (st_alternate target) "missing alternate";
  alternate_patches ← sparse_row_patches (sc_included_rows base_alternate)
                        (sc_included_rows target_alternate);
  Ok (mkDatagram terminal_id attachment_id
        (Some (mkDiff (st_epoch target) (st_generation base) (st_generation target)
                 (Some metadata) [] []))
        inherited_fields true primary_patches alternate_patches None).

Section delta.
Context `{SyncLib}.

Definition validate_viewport_state (state : State) : result unit :=
  _ ← with_context (validate state) "terminal viewport state is invalid";
  primary ← ok_or (st_primary state) "primary screen is missing";
  alternate ← ok_or (st_alternate state) "alternate screen is missing";
  ensure! (sc_viewport_start primary =? 0) && (llen (sc_included_rows primary) =? st_rows state),
    "primary live state contains scrollback";
  ensure! (sc_viewport_start alternate =? 0) && (llen (sc_included_rows alternate) =? st_rows state),
    "alternate live state is not exactly one viewport";
  Ok tt.

(** The loop over the two screens of [apply_compact_viewport_delta]. *)
Definition apply_screen (screen original : option Screen) (patches : list TerminalViewportRowPatch)
    : result Screen :=
  screen ← ok_or screen "missing viewport screen";
  ensure! is_empty (sc_included_rows screen), "viewport metadata contains rows";
  original ← ok_or original "missing base screen";
  rows ← apply_sparse_rows (sc_included_rows original) patches;
  Ok (with_rows screen rows).

Definition apply_compact_viewport_delta (base : State) (delta : TerminalViewportDatagram) : result State :=
  ensure! N.land (dg_inherited_fields delta) (N.lxor U32_MAX KNOWN_INHERIT_MASK) =? 0,
    "terminal viewport delta has unknown inherited fields";
  diff ← datagram_diff delta;
  metadata ← ok_or (tsd_target_metadata diff) "terminal viewport delta target metadata is missing";
  metadata ← restore_fields base metadata (dg_inherited_fields delta);
  if negb (dg_sparse_rows delta) then
    ensure! is_empty (dg_primary_patches delta) && is_empty (dg_alternate_patches delta),
      "sparse patches without encoding flag";
    apply_terminal_state_diff base
      (mkDiff (tsd_epoch diff) (tsd_base_generation diff) (tsd_target_generation diff) (Some metadata)
         (tsd_primary_rows diff) (tsd_alternate_rows diff))
  else
  ensure! is_empty (tsd_primary_rows diff) && is_empty (tsd_alternate_rows diff), "mixed row encodings";
  ensure! bool_decide (st_epoch base = tsd_epoch diff)
          && (st_generation base =? tsd_base_generation diff)
          && (tsd_base_generation diff <? tsd_target_generation diff),
    "invalid viewport diff base";
  ensure! bool_decide (st_epoch metadata = tsd_epoch diff)
          && (st_generation metadata =? tsd_target_generation diff)
          && (st_rows metadata =? st_rows base) && (st_cols metadata =? st_cols base),
    "invalid viewport diff metadata";
  primary ← apply_screen (st_primary metadata) (st_primary base) (dg_primary_patches delta);
  alternate ← apply_screen (st_alternate metadata) (st_alternate base) (dg_alternate_patches delta);
  let metadata := with_screens metadata (Some primary) (Some alternate) in
  _ ← validate_viewport_state metadata;
  Ok metadata.
End delta.
