(* ===== verification/ViewportDeltaSpec.v ===== *)
(** * Viewport deltas are exact

    Splicing, row patches and inherited fields reconstruct the target viewport
    from the base; whatever arrives, applying a delta gives a valid viewport or
    an error. *)
From S2P Require Import Prelude TerminalState TerminalStateSpec TerminalSync TerminalSyncSpec ViewportDelta.
Open Scope N_scope.

(** ** Cell splices *)

Lemma common_prefix_spec a b :
  (common_prefix a b <= length a)%nat /\ (common_prefix a b <= length b)%nat /\
  take (common_prefix a b) a = take (common_prefix a b) b.
Proof.
  revert b. induction a as [|x a IH]; intros [|y b]; cbn; try (split_and!; [lia|lia|done]).
  case_bool_decide as Hxy; cbn; [|split_and!; [lia|lia|done]].
  destruct (IH b) as (? & ? & ?). subst. split_and!; [lia|lia|congruence].
Qed.

(** The common suffix of [a] and [b] is the end of both. *)
Lemma common_suffix_spec a b :
  let s := common_prefix (rev a) (rev b) in
  (s <= length a)%nat /\ (s <= length b)%nat /\ drop (length a - s) a = drop (length b - s) b.
Proof.
  cbv zeta. destruct (common_prefix_spec (rev a) (rev b)) as (Ha & Hb & Ht).
  rewrite !length_rev in *. split_and!; [done|done|].
  rewrite !firstn_rev in Ht. by apply rev_inj in Ht.
Qed.

Lemma splice_reconstructs (a b : list Cell) :
  let p := common_prefix a b in
  let s := common_prefix (rev (drop p a)) (rev (drop p b)) in
  (p + s <= length a)%nat /\ (p + s <= length b)%nat /\
  take p a ++ take (length b - s - p) (drop p b) ++ drop (p + (length a - p - s)) a = b.
Proof.
  cbv zeta. destruct (common_prefix_spec a b) as (Hpa & Hpb & Hp). set (p := common_prefix a b) in *.
  destruct (common_suffix_spec (drop p a) (drop p b)) as (Hsa & Hsb & Hs).
  set (s := common_prefix (rev (drop p a)) (rev (drop p b))) in *.
  rewrite !length_drop in *. split_and!; [lia|lia|].
  rewrite !drop_drop in Hs.
  replace (p + (length a - p - s))%nat with (p + (length a - p - s))%nat by lia.
  rewrite Hs, Hp, <- drop_drop.
  replace (length b - s - p)%nat with (length b - p - s)%nat by lia.
  by rewrite take_drop, take_drop.
Qed.

(** ** Row patches *)

Definition rows_small (rows : list Row) : Prop :=
  llen rows <= U32_MAX /\ Forall (fun r => llen (row_cells r) <= U32_MAX) rows.

Lemma anchor_indices_lookup base : forall m index k i,
  anchor_indices m index base !! k = Some i ->
  m !! k = Some i \/ (index <= i < index + length base)%nat.
Proof.
  induction base as [|row base IH]; intros m index k i; cbn [anchor_indices length]; [by left|].
  intros [Hm|?]%IH; [|right; lia]. destruct (row_start row) as [a|]; [|by left].
  destruct (decide (k = anchor_key a)) as [->|].
  - rewrite lookup_insert_eq in Hm. simplify_eq. right. lia.
  - rewrite lookup_insert_ne in Hm by done. by left.
Qed.

Lemma apply_make_patch base index base_index old row rows seen :
  rows_small base -> (index < length base)%nat -> base !! base_index = Some old ->
  N.of_nat index ∉ seen ->
  apply_patch base (rows, seen) (make_patch index base_index old row) =
    Ok (<[index := row]> rows, {[N.of_nat index]} ∪ seen).
Proof.
  intros [Hlen Hcells] Hi Hold Hseen.
  assert (Hol : llen (row_cells old) <= U32_MAX) by (rewrite Forall_lookup in Hcells; eauto).
  pose proof (lookup_lt_Some _ _ _ Hold) as Hbi.
  destruct (splice_reconstructs (row_cells old) (row_cells row)) as (Hps & Hps' & Hsplice).
  unfold llen, U32_MAX in *. unfold apply_patch, make_patch.
  cbn [rp_index rp_base_index rp_metadata rp_cell_start rp_delete_count rp_cells].
  rewrite !as_u32_small by (unfold U32_MAX; lia). rewrite !Nat2N.id. unfold llen.
  rewrite (proj2 (N.ltb_lt _ _)) by lia. rewrite bool_decide_eq_false_2 by done. cbn [andb negb].
  rewrite Hold. cbn [ok_or mbind result_bind].
  rewrite (proj2 (checked_add_Some _ _ _ _)) by (split; [done|unfold U64_MAX; lia]).
  cbn [ok_or mbind result_bind]. rewrite (proj2 (N.leb_le _ _)) by lia.
  cbn [ok_or mbind result_bind row_cells is_empty row_start row_version row_wrapped_to_next].
  rewrite <- Nat2N.inj_add, Nat2N.id, Hsplice. by destruct row.
Qed.

Lemma sparse_patches_apply base anchors : rows_small base ->
  forall target done patches seen,
  sparse_row_patches_from base anchors (length done) target = Ok patches ->
  length base = (length done + length target)%nat ->
  (forall j, j ∈ seen -> (N.to_nat j < length done)%nat) ->
  (length patches <= length target)%nat /\
  exists seen', try_fold (apply_patch base) (done ++ drop (length done) base, seen) patches =
    Ok (done ++ target, seen').
Proof.
  intros Hsmall. induction target as [|row target IH]; intros done patches seen Hp Hlen Hseen.
  { cbn in Hp. simplify_eq. split; [done|]. exists seen. cbn. rewrite drop_ge by (cbn in Hlen; lia). done. }
  cbn [sparse_row_patches_from] in Hp. cbn [length] in *. ok_step Hp.
  assert (Hdrop : drop (length done) base = r :: drop (S (length done)) base) by (by apply drop_S).
  assert (Hlen1 : length (done ++ [row]) = S (length done)) by (rewrite length_app; cbn; lia).
  assert (Happ : forall l, done ++ row :: l = (done ++ [row]) ++ l) by (intros; by rewrite <- app_assoc).
  ok_step Hp; bool_prop.
  - subst r. rewrite <- Hlen1 in Hp. edestruct (IH (done ++ [row])) as (Hl & seen' & Hf); [done|lia| |].
    + intros j Hj. specialize (Hseen j Hj). lia.
    + split; [lia|]. exists seen'. rewrite Hdrop, (Happ (drop _ _)), (Happ target). by rewrite Hlen1 in Hf.
  - do 2 ok_step Hp. ok_inv Hp. rewrite <- Hlen1 in Hr.
    edestruct (IH (done ++ [row]) a ({[N.of_nat (length done)]} ∪ seen)) as (Hl & seen' & Hf); [done|lia| |].
    + intros j [->%elem_of_singleton|Hj]%elem_of_union; [lia|]. specialize (Hseen j Hj). lia.
    + split; [cbn; lia|]. exists seen'. cbn [try_fold].
      rewrite (apply_make_patch _ _ _ _ _ _ _ Hsmall); [|lia|done|].
      * cbn [mbind result_bind]. rewrite Hdrop, insert_app_r_alt by lia.
        rewrite Nat.sub_diag. cbn [insert list_insert].
        by rewrite (Happ (drop _ _)), (Happ target), <- Hlen1.
      * intros Hin%Hseen. lia.
Qed.

Lemma sparse_rows_roundtrip base target patches :
  rows_small base -> sparse_row_patches base target = Ok patches ->
  apply_sparse_rows base patches = Ok target.
Proof.
  intros Hsmall Hp. unfold sparse_row_patches in Hp. ok_step Hp. bool_prop.
  destruct (sparse_patches_apply base _ Hsmall target [] patches ∅ Hp) as (Hl & seen' & Hf);
    [cbn; lia|set_solver|].
  unfold apply_sparse_rows, llen. rewrite (proj2 (N.leb_le _ _)) by lia.
  rewrite drop_0 in Hf; cbn [app] in Hf. by rewrite Hf.
Qed.

Lemma sparse_row_patches_total base target :
  length base = length target -> exists patches, sparse_row_patches base target = Ok patches.
Proof.
  intros Hlen. unfold sparse_row_patches. rewrite bool_decide_eq_true_2 by done.
  pose proof (fun k i => anchor_indices_lookup base ∅ 0 k i) as Hanchors.
  set (anchors := anchor_indices ∅ 0 base) in *. clearbody anchors.
  assert (Hi : forall (index : nat) rows, (index + length rows = length base)%nat ->
    exists patches, sparse_row_patches_from base anchors index rows = Ok patches).
  { intros index rows. revert index. induction rows as [|row rows IH]; intros index Hl;
      cbn [sparse_row_patches_from]; [by eexists|]. cbn [length] in Hl.
    destruct (lookup_lt_is_Some_2 base index) as [same ->]; [lia|].
    destruct (IH (S index)) as [patches ->]; [lia|].
    case_bool_decide; [by eexists|].
    assert (Hb : is_Some (base !! default index (anchor ← row_start row; anchors !! anchor_key anchor))).
    { apply lookup_lt_is_Some_2. destruct (row_start row) as [a|]; cbn; [|lia].
      destruct (anchors !! anchor_key a) as [i|] eqn:E; cbn; [|lia].
      apply Hanchors in E as [E|E]; [by rewrite lookup_empty in E|lia]. }
    destruct Hb as [old ->]. cbn [mbind result_bind]. by eexists. }
  by apply Hi.
Qed.

(** ** Inherited fields *)

Lemma inherit_restore base m :
  let '(m', fields) := inherit_fields base m in
  N.land fields (N.lxor U32_MAX KNOWN_INHERIT_MASK) = 0 /\
  restore_fields base m' fields = Ok m /\
  st_primary m' = st_primary m /\ st_alternate m' = st_alternate m.
Proof.
  unfold inherit_fields. destruct m as [v ep g ro co p a act sty hl mo ti wd pal].
  cbn [st_styles st_hyperlinks st_modes st_title st_working_directory st_palette].
  repeat case_bool_decide; subst; (split_and!; [reflexivity|reflexivity|reflexivity|reflexivity]).
Qed.

(** ** Whole viewports *)

Section viewports.
Context `{SyncLib}.

Record viewport_ok (s : State) (p a : Screen) : Prop := {
  vp_valid : validate s = Ok tt;
  vp_primary : st_primary s = Some p;
  vp_alternate : st_alternate s = Some a;
  vp_primary_rows : llen (sc_included_rows p) = st_rows s;
  vp_alternate_rows : llen (sc_included_rows a) = st_rows s;
  vp_primary_small : rows_small (sc_included_rows p);
  vp_alternate_small : rows_small (sc_included_rows a)
}.

Lemma cell_total_bound rows n :
  cell_total rows <= n -> Forall (fun r => llen (row_cells r) <= n) rows.
Proof.
  unfold cell_total. induction rows as [|r rows IH]; [constructor|].
  rewrite fmap_cons. cbn [foldr compose]. intros Hn. constructor; [lia|]. apply IH. lia.
Qed.

Lemma rows_small_bound rows :
  llen rows <= MAX_INCLUDED_ROWS -> cell_total rows <= MAX_CELLS -> rows_small rows.
Proof.
  unfold rows_small, MAX_INCLUDED_ROWS, MAX_CELLS, U32_MAX. intros Hl Hc. split; [lia|].
  eapply Forall_impl; [by apply cell_total_bound|]. cbn. lia.
Qed.

Lemma validate_viewport_state_Ok s :
  validate_viewport_state s = Ok tt -> exists p a, viewport_ok s p a.
Proof.
  unfold validate_viewport_state. intros Hv. do 3 ok_step Hv. ok_inv Hr0. ok_inv Hr1.
  do 2 ok_step Hv. destruct a. apply with_context_Ok in Hr. bool_prop.
  exists a0, a1. destruct (validate_Ok _ Hr) as (p & q & sids & hids & [Hp Hq _ _ _ Hrows Hcells]).
  rewrite Ho in Hp. rewrite Ho0 in Hq. simplify_eq.
  split; [done..|apply rows_small_bound; lia|apply rows_small_bound; lia].
Qed.

Lemma validate_viewport_state_valid s : validate_viewport_state s = Ok tt -> validate s = Ok tt.
Proof. intros (p & a & [])%validate_viewport_state_Ok. done. Qed.

Lemma apply_screen_roundtrip target original base_sc patches :
  original = Some base_sc -> rows_small (sc_included_rows base_sc) ->
  sparse_row_patches (sc_included_rows base_sc) (sc_included_rows target) = Ok patches ->
  apply_screen (Some (screen_metadata target)) original patches = Ok target.
Proof.
  intros -> Hs Hp. unfold apply_screen. cbn [ok_or mbind result_bind screen_metadata with_rows sc_included_rows is_empty].
  rewrite (sparse_rows_roundtrip _ _ _ Hs Hp). cbn [mbind result_bind]. by destruct target.
Qed.

Lemma compact_apply tid aid base target d :
  validate_viewport_state base = Ok tt -> validate_viewport_state target = Ok tt ->
  st_rows base = st_rows target -> st_cols base = st_cols target ->
  compact_viewport_datagram tid aid base target = Ok d ->
  apply_compact_viewport_delta base d = Ok target.
Proof.
  intros Hb Ht Hrows Hcols Hc.
  destruct (validate_viewport_state_Ok _ Hb) as (bp & ba & [_ Hbp Hba _ _ Hbps Hbas]).
  destruct (validate_viewport_state_Ok _ Ht) as (tp & ta & [_ Htp Hta _ _ _ _]).
  unfold compact_viewport_datagram in Hc. do 2 ok_step Hc.
  pose proof (inherit_restore base (state_metadata target)) as Hir.
  destruct (inherit_fields base (state_metadata target)) as [m fields].
  destruct Hir as (Hmask & Hrestore & Hmp & Hma).
  rewrite Hbp, Htp, Hba, Hta in Hc. cbn [ok_or mbind result_bind] in Hc. ok_step Hc. ok_step Hc. ok_inv Hc.
  unfold apply_compact_viewport_delta, datagram_diff.
  cbn [dg_inherited_fields dg_diff dg_sparse_rows dg_primary_patches dg_alternate_patches ok_or mbind
    result_bind tsd_target_metadata tsd_epoch tsd_base_generation tsd_target_generation tsd_primary_rows
    tsd_alternate_rows is_empty negb andb].
  rewrite Hmask, N.eqb_refl, Hrestore. cbn [mbind result_bind]. bool_prop.
  cbn [state_metadata with_screens st_epoch st_generation st_rows st_cols st_primary st_alternate].
  rewrite !bool_decide_eq_true_2, !N.eqb_refl, Hrows, Hcols, !N.eqb_refl by done.
  rewrite (proj2 (N.ltb_lt _ _)) by done. cbn [andb]. rewrite Htp, Hta.
  cbn [fmap option_fmap option_map].
  rewrite (apply_screen_roundtrip _ _ _ _ Hbp Hbps Hr). cbn [mbind result_bind].
  rewrite (apply_screen_roundtrip _ _ _ _ Hba Hbas Hr0). cbn [mbind result_bind].
  match goal with |- context [validate_viewport_state ?t] => assert (t = target) as -> end.
  { destruct target. cbn in *. by subst. }
  by rewrite Ht.
Qed.

Lemma compact_total tid aid base target :
  tid <> "" -> aid <> "" ->
  validate_viewport_state base = Ok tt -> validate_viewport_state target = Ok tt ->
  st_rows base = st_rows target -> st_epoch base = st_epoch target ->
  st_generation base < st_generation target ->
  exists d, compact_viewport_datagram tid aid base target = Ok d.
Proof.
  intros Htid Haid Hb Ht Hrows He Hg.
  destruct (validate_viewport_state_Ok _ Hb) as (bp & ba & [_ Hbp Hba Hbpl Hbal _ _]).
  destruct (validate_viewport_state_Ok _ Ht) as (tp & ta & [_ Htp Hta Htpl Htal _ _]).
  unfold compact_viewport_datagram. rewrite !bool_decide_eq_false_2, bool_decide_eq_true_2 by done.
  rewrite (proj2 (N.ltb_lt _ _)) by done. cbn [negb andb].
  destruct (inherit_fields base (state_metadata target)) as [m fields].
  rewrite Hbp, Htp, Hba, Hta. cbn [ok_or mbind result_bind]. unfold llen in *.
  destruct (sparse_row_patches_total (sc_included_rows bp) (sc_included_rows tp)) as [pp ->]; [lia|].
  cbn [mbind result_bind].
  destruct (sparse_row_patches_total (sc_included_rows ba) (sc_included_rows ta)) as [pa ->]; [lia|].
  cbn [mbind result_bind]. by eexists.
Qed.

(** What a delta built from [base] to [target] says about itself. *)
Lemma compact_header tid aid base target d :
  compact_viewport_datagram tid aid base target = Ok d ->
  dg_terminal_id d = tid /\ dg_attachment_id d = aid /\ dg_fragment d = None /\
  exists diff, datagram_diff d = Ok diff /\ tsd_epoch diff = st_epoch target /\
    tsd_base_generation diff = st_generation base /\ tsd_target_generation diff = st_generation target /\
    st_epoch base = st_epoch target /\ st_generation base < st_generation target.
Proof.
  unfold compact_viewport_datagram. intros Hc. do 2 ok_step Hc.
  destruct (inherit_fields base (state_metadata target)) as [m fields].
  do 6 ok_step Hc. ok_inv Hc. bool_prop. split_and!; [done..|]. eexists. split; [done|]. done.
Qed.

Lemma apply_delta_sound base d t :
  validate base = Ok tt -> apply_compact_viewport_delta base d = Ok t ->
  exists diff, datagram_diff d = Ok diff /\ validate t = Ok tt /\ st_epoch t = st_epoch base /\
    st_epoch t = tsd_epoch diff /\
    st_generation base = tsd_base_generation diff /\ st_generation t = tsd_target_generation diff /\
    st_generation base < st_generation t.
Proof.
  intros Hb Ha. unfold apply_compact_viewport_delta in Ha. do 4 ok_step Ha.
  exists a. split; [done|]. ok_step Ha.
  - ok_step Ha. pose proof Ha as Ha'. apply apply_sound in Ha as (_ & Hv & He & Hg & Ht & Hlt).
    split_and!; [done|done| |done|done|done].
    unfold apply_terminal_state_diff in Ha'. do 3 ok_step Ha'. bool_prop. cbn in *. congruence.
  - do 3 ok_step Ha. do 3 ok_step Ha. ok_inv Ha. destruct a4. apply validate_viewport_state_valid in Hr4.
    bool_prop. cbn [with_screens st_epoch st_generation]. split_and!; [done|congruence..|lia].
Qed.
End viewports.

(** ** Theorems *)

(** C33: for any two live viewports of one terminal with the same size, the
    cumulative delta exists and applying it to the base yields the target
    exactly; no field is lost to inheritance and no cell to splicing or to the
    [u32] casts of the indices. *)
Theorem viewport_delta_roundtrip `{SyncLib} tid aid base target :
  tid <> "" -> aid <> "" ->
  validate_viewport_state base = Ok tt -> validate_viewport_state target = Ok tt ->
  st_rows base = st_rows target -> st_cols base = st_cols target ->
  st_epoch base = st_epoch target -> st_generation base < st_generation target ->
  exists d, compact_viewport_datagram tid aid base target = Ok d /\
    apply_compact_viewport_delta base d = Ok target.
Proof.
  intros Htid Haid Hb Ht Hr Hc He Hg.
  destruct (compact_total tid aid base target Htid Haid Hb Ht Hr He Hg) as [d Hd].
  exists d. split; [done|]. by eapply compact_apply.
Qed.

Lemma viewport_delta_roundtrip_witness :
  exists d, compact_viewport_datagram "t" "a" (ex_state 1 ex_rows1) (ex_state 2 ex_rows2) = Ok d /\
    @apply_compact_viewport_delta ex_sync_lib (ex_state 1 ex_rows1) d = Ok (ex_state 2 ex_rows2).
Proof.
  apply (@viewport_delta_roundtrip ex_sync_lib "t" "a" (ex_state 1 ex_rows1) (ex_state 2 ex_rows2));
    first [discriminate | vm_compute; reflexivity].
Defined.

(** Splicing is exact for arbitrary rows, valid or not: patches between
    row lists of the same length can be built without an index going out of
    bounds, and applying them gives the target rows back. *)
Theorem sparse_rows_exact base target :
  rows_small base -> length base = length target ->
  exists patches, sparse_row_patches base target = Ok patches /\
    apply_sparse_rows base patches = Ok target.
Proof.
  intros Hs Hl. destruct (sparse_row_patches_total base target Hl) as [patches Hp].
  exists patches. split; [done|]. by apply sparse_rows_roundtrip.
Qed.

Lemma sparse_rows_exact_witness :
  exists patches, sparse_row_patches ex_rows1 (rev ex_rows2) = Ok patches /\ length patches = 2%nat /\
    apply_sparse_rows ex_rows1 patches = Ok (rev ex_rows2).
Proof.
  destruct (sparse_rows_exact ex_rows1 (rev ex_rows2)) as (patches & Hp & Ha).
  - split; [vm_compute; discriminate|].
    repeat (constructor; [vm_compute; discriminate|]). constructor.
  - reflexivity.
  - exists patches. split; [exact Hp|]. split; [|exact Ha]. vm_compute in Hp. injection Hp as <-. reflexivity.
Defined.

(** Whatever viewport datagram arrives, applying it to a valid base never
    panics, and when it succeeds the result is a valid state of the announced
    epoch and generation, strictly newer than the base. *)
Theorem apply_delta_safe `{SyncLib} base d :
  validate base = Ok tt ->
  apply_compact_viewport_delta base d <> panic /\
  forall t, apply_compact_viewport_delta base d = Ok t ->
    exists diff, datagram_diff d = Ok diff /\ validate t = Ok tt /\ st_epoch t = st_epoch base /\
      st_epoch t = tsd_epoch diff /\
      st_generation base = tsd_base_generation diff /\ st_generation t = tsd_target_generation diff /\
      st_generation base < st_generation t.
Proof.
  intros Hb. split; [|intros t; by apply apply_delta_sound].
  assert (Hfield : forall A fields mask (empty : A -> bool) e v b, e <> PANIC ->
    restore_field fields mask empty e v b <> panic).
  { intros A fields mask empty e v b He. unfold restore_field. repeat case_match; try done.
    intros [= ?]. done. }
  assert (Hrestore : forall m fields, restore_fields base m fields <> panic).
  { intros. unfold restore_fields.
    repeat (apply no_panic_bind; [apply Hfield; discriminate|intros ? _]). done. }
  assert (Hpatch : forall rows acc p, apply_patch rows acc p <> panic).
  { intros rows [t seen] p. unfold apply_patch. no_panic. }
  assert (Hrows : forall rows ps, apply_sparse_rows rows ps <> panic).
  { intros. unfold apply_sparse_rows. no_panic. }
  assert (Hscreen : forall a b ps, apply_screen a b ps <> panic) by (intros; unfold apply_screen; no_panic).
  assert (Hview : forall s, validate_viewport_state s <> panic)
    by (intros; unfold validate_viewport_state; no_panic).
  unfold apply_compact_viewport_delta, datagram_diff. no_panic. apply apply_state_diff_no_panic.
Qed.

Lemma apply_delta_safe_witness :
  exists d, compact_viewport_datagram "t" "a" (ex_state 1 ex_rows1) (ex_state 2 ex_rows2) = Ok d /\
    exists diff, datagram_diff d = Ok diff /\ tsd_target_generation diff = 2 /\
      @apply_compact_viewport_delta ex_sync_lib (ex_state 1 ex_rows1) d <> panic.
Proof.
  eexists. split; [vm_compute; reflexivity|]. eexists. split; [reflexivity|]. split; [reflexivity|].
  refine (proj1 (@apply_delta_safe ex_sync_lib (ex_state 1 ex_rows1) _ _)). vm_compute. reflexivity.
Defined.
