(* ===== verification/Payload.v ===== *)
(** * Negotiated payload encoding (src/src/compression.rs)

    A payload is sent raw or as one zstd frame; its digest covers the raw bytes.
    zstd and SHA-256 are libraries: they are operations of [PayloadLib], and
    [PayloadLaws] states what the code relies on. *)
From S2P Require Import Prelude TerminalState.
Open Scope N_scope.

Definition MIN_INPUT_BYTES : N := 1024.
Definition MIN_SAVING_BYTES : N := 64.
Definition MAX_FILE_CHUNK_SIZE : N := 1024 * 1024.
Definition ZSTD_MAGIC : bytes := [0x28; 0xb5; 0x2f; 0xfd].

Class PayloadLib := {
  (** [zstd::bulk::compress(data, 1)] *)
  zstd_compress : bytes -> result bytes;
  (** A [single_frame] decoder with the 8 MiB window limit, read up to a number
      of bytes: what it read and the input it left. *)
  zstd_read : bytes -> N -> result (bytes * bytes);
  (** [Sha256::digest] *)
  sha256 : bytes -> bytes
}.

Class PayloadLaws `{PayloadLib} := {
  compress_magic : forall data c, zstd_compress data = Ok c -> take 4 c = ZSTD_MAGIC;
  read_compressed : forall data c limit, zstd_compress data = Ok c -> llen data < limit ->
    zstd_read c limit = Ok (data, []);
  sha256_length : forall data, llen (sha256 data) = 32
}.

Inductive PayloadEncoding := PayloadEncoding_None | PayloadEncoding_Zstd.
#[global] Instance PayloadEncoding_eq_dec : EqDecision PayloadEncoding.
Proof. solve_decision. Defined.
Definition PayloadEncoding_try_from : Z -> result PayloadEncoding :=
  enum_try_from [(0%Z, PayloadEncoding_None); (1%Z, PayloadEncoding_Zstd)] "unknown payload encoding".
Definition encoding_i32 (e : PayloadEncoding) : Z :=
  match e with PayloadEncoding_None => 0 | PayloadEncoding_Zstd => 1 end.

Record EncodedPayload := mkPayload {
  ep_data : bytes; ep_encoding : Z; ep_uncompressed_size : N }.

(** [usize::div_ceil] *)
Definition div_ceil (a b : N) : N := (a + b - 1) / b.

Record WriteFileChunkRequest := mkWriteChunk {
  wc_transfer_id : string; wc_offset : N; wc_data : bytes; wc_sha256 : bytes;
  wc_encoding : Z; wc_uncompressed_size : N }.
Record FileChunkResponse := mkFileChunk {
  fc_offset : N; fc_data : bytes; fc_sha256 : bytes; fc_eof : bool;
  fc_encoding : Z; fc_uncompressed_size : N }.

Section payload.
Context `{PayloadLib}.

Definition payload_encode (data : bytes) (enabled : bool) (maximum : N) : result EncodedPayload :=
  ensure! llen data <=? maximum, "payload exceeds its raw size limit";
  let raw := Ok (mkPayload data (encoding_i32 PayloadEncoding_None) 0) in
  if enabled && (MIN_INPUT_BYTES <=? llen data) then
    compressed ← zstd_compress data;
    let saving := N.max MIN_SAVING_BYTES (div_ceil (llen data) 20) in
    if saturating_add U64_MAX (llen compressed) saving <=? llen data then
      size ← try_u32 (llen data);
      Ok (mkPayload compressed (encoding_i32 PayloadEncoding_Zstd) size)
    else raw
  else raw.

Definition validate_header (encoding : Z) (uncompressed_size wire_size : N) (enabled : bool) (maximum : N)
    : result unit :=
  ensure! wire_size <=? maximum, "encoded payload exceeds its size limit";
  e ← PayloadEncoding_try_from encoding;
  match e with
  | PayloadEncoding_None =>
      ensure! uncompressed_size =? 0, "raw payload has compression metadata"; Ok tt
  | PayloadEncoding_Zstd =>
      ensure! enabled, "zstd payload was not negotiated";
      ensure! (0 <? uncompressed_size) && (uncompressed_size <=? maximum),
        "uncompressed payload exceeds its size limit"; Ok tt
  end.

Definition decode_bytes (p : EncodedPayload) (enabled : bool) (maximum : N) : result bytes :=
  _ ← validate_header (ep_encoding p) (ep_uncompressed_size p) (llen (ep_data p)) enabled maximum;
  if (ep_encoding p =? encoding_i32 PayloadEncoding_Zstd)%Z then
    ensure! bool_decide (take 4 (ep_data p) = ZSTD_MAGIC), "invalid zstd frame magic";
    let expected := ep_uncompressed_size p in
    '(decoded, rest) ← zstd_read (ep_data p) (expected + 1);
    ensure! llen decoded =? expected, "decompressed payload size does not match";
    ensure! is_empty rest, "zstd payload has trailing data";
    Ok decoded
  else Ok (ep_data p).

Definition payload_decode (p : EncodedPayload) (enabled : bool) (maximum : N) (digest : bytes)
    : result bytes :=
  ensure! llen digest =? 32, "payload digest is invalid";
  data ← decode_bytes p enabled maximum;
  ensure! bool_decide (sha256 data = digest), "payload digest does not match";
  Ok data.

Definition encode_upload (chunk : WriteFileChunkRequest) (enabled : bool) : result WriteFileChunkRequest :=
  ensure! (wc_encoding chunk =? 0)%Z && (wc_uncompressed_size chunk =? 0),
    "upload API requires raw bytes";
  payload ← payload_encode (wc_data chunk) enabled MAX_FILE_CHUNK_SIZE;
  Ok (mkWriteChunk (wc_transfer_id chunk) (wc_offset chunk) (ep_data payload) (wc_sha256 chunk)
        (ep_encoding payload) (ep_uncompressed_size payload)).

Definition decode_upload (chunk : WriteFileChunkRequest) (enabled : bool) : result WriteFileChunkRequest :=
  data ← decode_bytes (mkPayload (wc_data chunk) (wc_encoding chunk) (wc_uncompressed_size chunk))
           enabled MAX_FILE_CHUNK_SIZE;
  Ok (mkWriteChunk (wc_transfer_id chunk) (wc_offset chunk) data (wc_sha256 chunk) 0 0).

Definition encode_download (chunk : FileChunkResponse) (enabled : bool) : result FileChunkResponse :=
  payload ← payload_encode (fc_data chunk) enabled MAX_FILE_CHUNK_SIZE;
  Ok (mkFileChunk (fc_offset chunk) (ep_data payload) (fc_sha256 chunk) (fc_eof chunk)
        (ep_encoding payload) (ep_uncompressed_size payload)).

Definition decode_download (chunk : FileChunkResponse) (enabled : bool) : result FileChunkResponse :=
  data ← payload_decode (mkPayload (fc_data chunk) (fc_encoding chunk) (fc_uncompressed_size chunk))
           enabled MAX_FILE_CHUNK_SIZE (fc_sha256 chunk);
  Ok (mkFileChunk (fc_offset chunk) data (fc_sha256 chunk) (fc_eof chunk) 0 0).
End payload.

(** ** Lemmas *)

Section lemmas.
Context `{PayloadLaws}.

Lemma encode_header data enabled maximum p :
  payload_encode data enabled maximum = Ok p ->
  llen data <= maximum /\ llen (ep_data p) <= llen data /\
  validate_header (ep_encoding p) (ep_uncompressed_size p) (llen (ep_data p)) enabled maximum = Ok tt /\
  ((ep_data p = data /\ ep_encoding p = 0%Z /\ ep_uncompressed_size p = 0) \/
   (zstd_compress data = Ok (ep_data p) /\ ep_encoding p = 1%Z /\ ep_uncompressed_size p = llen data /\
    llen (ep_data p) + 64 <= llen data)).
Proof using H.
  unfold payload_encode. intros He. ok_step He. bool_prop.
  assert (Hraw : forall p, Ok (mkPayload data (encoding_i32 PayloadEncoding_None) 0) = Ok p ->
    llen data <= maximum /\ llen (ep_data p) <= llen data /\
    validate_header (ep_encoding p) (ep_uncompressed_size p) (llen (ep_data p)) enabled maximum = Ok tt /\
    ((ep_data p = data /\ ep_encoding p = 0%Z /\ ep_uncompressed_size p = 0) \/
     (zstd_compress data = Ok (ep_data p) /\ ep_encoding p = 1%Z /\ ep_uncompressed_size p = llen data /\
      llen (ep_data p) + 64 <= llen data))).
  { intros p' [= <-]. cbn. split_and!; [done|lia| |by left]. unfold validate_header.
    by rewrite (proj2 (N.leb_le _ _)). }
  ok_step He; [|by apply Hraw]. bool_prop. ok_step He. ok_step He; [|by apply Hraw].
  unfold try_u32 in He. ok_step He. ok_inv Hr0. ok_inv He. bool_prop. cbn.
  unfold saturating_add, MIN_SAVING_BYTES, MIN_INPUT_BYTES, U64_MAX, U32_MAX in *.
  split_and!; [done|lia| |right; split_and!; [done|done|done|lia]].
  unfold validate_header. rewrite (proj2 (N.leb_le _ _)) by lia. cbn.
  rewrite (proj2 (N.ltb_lt _ _)), (proj2 (N.leb_le _ _)) by lia. done.
Qed.

Lemma encode_decode_bytes data enabled maximum p :
  payload_encode data enabled maximum = Ok p -> decode_bytes p enabled maximum = Ok data.
Proof.
  intros (Hmax & Hle & Hh & Hcase)%encode_header. unfold decode_bytes. rewrite Hh. cbn [mbind result_bind].
  destruct Hcase as [(<- & -> & _)|(Hc & -> & -> & _)]; cbn; [done|].
  rewrite (bool_decide_eq_true_2 _ (compress_magic _ _ Hc)).
  rewrite (read_compressed _ _ (llen data + 1) Hc) by lia. cbn. by rewrite N.eqb_refl.
Qed.

Lemma encode_decode data enabled maximum p :
  payload_encode data enabled maximum = Ok p -> payload_decode p enabled maximum (sha256 data) = Ok data.
Proof.
  intros Hp. unfold payload_decode. rewrite sha256_length. cbn [N.eqb Pos.eqb].
  rewrite (encode_decode_bytes _ _ _ _ Hp). cbn [mbind result_bind]. by rewrite bool_decide_eq_true_2.
Qed.

(** Decoding the two forms, whoever encoded them. *)
Lemma decode_raw data enabled maximum :
  llen data <= maximum -> payload_decode (mkPayload data 0 0) enabled maximum (sha256 data) = Ok data.
Proof.
  intros Hl. unfold payload_decode, decode_bytes, validate_header. rewrite sha256_length.
  cbn [ep_data ep_encoding ep_uncompressed_size]. rewrite (proj2 (N.leb_le _ _) Hl). cbn.
  by rewrite bool_decide_eq_true_2.
Qed.
Lemma decode_zstd data c maximum :
  0 < llen data -> llen data <= maximum -> llen c <= maximum -> take 4 c = ZSTD_MAGIC ->
  zstd_read c (llen data + 1) = Ok (data, []) ->
  payload_decode (mkPayload c 1 (llen data)) true maximum (sha256 data) = Ok data.
Proof.
  intros Hpos Hl Hc Hm Hr. unfold payload_decode, decode_bytes, validate_header. rewrite sha256_length.
  cbn [ep_data ep_encoding ep_uncompressed_size]. rewrite (proj2 (N.leb_le _ _) Hc). cbn -[take].
  rewrite (proj2 (N.ltb_lt _ _) Hpos), (proj2 (N.leb_le _ _) Hl). cbn -[take].
  rewrite Hm, Hr, bool_decide_eq_true_2 by done. cbn. rewrite N.eqb_refl. cbn.
  by rewrite bool_decide_eq_true_2.
Qed.

Lemma decode_bytes_bound p enabled maximum data :
  decode_bytes p enabled maximum = Ok data ->
  llen data <= maximum /\ llen (ep_data p) <= maximum /\
  (ep_encoding p = 1%Z -> enabled = true /\ llen data = ep_uncompressed_size p).
Proof using H.
  unfold decode_bytes, validate_header, PayloadEncoding_try_from, encoding_i32. intros Hd.
  do 2 ok_step Hd.
  - do 2 ok_step Hd. subst. do 2 ok_step Hd. ok_inv Hd. bool_prop. apply Z.eqb_eq in Hb.
    rewrite Hb in Hr. cbn in Hr. ok_inv Hr. bool_prop. split_and!; [lia|done|done].
  - ok_inv Hd. apply Z.eqb_neq in Hb. ok_step Hr. bool_prop. done.
Qed.
End lemmas.

(** ** A toy codec that satisfies the laws

    A run of one byte is compressed to the byte and its length, anything else
    is stored behind the magic number. *)
Definition ex_compress (data : bytes) : result bytes :=
  match data with
  | x :: _ => if forallb (N.eqb x) data then Ok (ZSTD_MAGIC ++ [1; x; llen data])
              else Ok (ZSTD_MAGIC ++ 0 :: data)
  | [] => Ok (ZSTD_MAGIC ++ [0])
  end.
Definition ex_read (c : bytes) (limit : N) : result (bytes * bytes) :=
  match drop 4 c with
  | 0 :: data => Ok (take (N.to_nat limit) data, [])
  | [1; x; n] => Ok (replicate (N.to_nat (N.min n limit)) x, [])
  | _ => Err "corrupt frame"
  end.
Definition ex_payload_lib : PayloadLib := {|
  zstd_compress := ex_compress; zstd_read := ex_read;
  sha256 := fun data => replicate 31 0 ++ [foldr N.add 0 data mod 256] |}.

Lemma forallb_replicate x (l : bytes) : forallb (N.eqb x) l = true -> l = replicate (length l) x.
Proof.
  induction l as [|y l IH]; cbn; [done|]. intros [->%N.eqb_eq Hl]%andb_prop. by rewrite <- IH.
Qed.

Lemma ex_payload_laws : @PayloadLaws ex_payload_lib.
Proof.
  split; cbn.
  - intros [|x data] c; cbn; [by intros [= <-]|]. destruct (_ && _); by intros [= <-].
  - intros [|x data] c limit Hc Hl; cbn -[forallb] in Hc; [injection Hc as <-; cbn; by rewrite take_nil|].
    destruct (forallb (N.eqb x) (x :: data)) eqn:E; injection Hc as <-; cbn.
    + rewrite N.min_l by lia. apply forallb_replicate in E. rewrite E at 2. unfold llen. by rewrite Nat2N.id.
    + unfold llen in Hl. by rewrite take_ge by (cbn in *; lia).
  - intros data. reflexivity.
Qed.

(** ** Theorems *)

(** A payload is encoded without loss whether or not compression was
    negotiated and whichever encoding was chosen, and never grows on the wire. *)
Theorem payload_roundtrip `{PayloadLaws} data enabled maximum p :
  payload_encode data enabled maximum = Ok p ->
  payload_decode p enabled maximum (sha256 data) = Ok data /\ llen (ep_data p) <= llen data.
Proof. intros Hp. split; [by apply encode_decode|by apply encode_header in Hp as (_ & ? & _)]. Qed.

Lemma payload_roundtrip_witness :
  exists p, @payload_encode ex_payload_lib (replicate 2000 7) true 5000 = Ok p /\ ep_encoding p = 1%Z /\
  @payload_decode ex_payload_lib p true 5000 (@sha256 ex_payload_lib (replicate 2000 7)) = Ok (replicate 2000 7).
Proof.
  eexists. split; [vm_compute; reflexivity|]. split; [reflexivity|].
  refine (proj1 (@payload_roundtrip ex_payload_lib ex_payload_laws (replicate 2000 7) true 5000 _ _)).
  vm_compute. reflexivity.
Defined.

(** An upload chunk encoded by the client is decoded by the server to the
    same chunk, and a download chunk with its digest to the same chunk on the
    way back. *)
Theorem file_chunk_roundtrip `{PayloadLaws} up up' down down' enabled :
  encode_upload up enabled = Ok up' -> encode_download down enabled = Ok down' ->
  fc_sha256 down = sha256 (fc_data down) -> fc_encoding down = 0%Z -> fc_uncompressed_size down = 0 ->
  decode_upload up' enabled = Ok up /\ decode_download down' enabled = Ok down.
Proof.
  intros Hu Hd Hsha Henc Hsize. split.
  - unfold encode_upload in Hu. ok_step Hu. apply andb_prop in Hb as [Hb1 Hb2].
    apply Z.eqb_eq in Hb1. apply N.eqb_eq in Hb2. ok_step Hu. ok_inv Hu.
    unfold decode_upload. cbn [wc_data wc_encoding wc_uncompressed_size wc_transfer_id wc_offset wc_sha256].
    destruct a as [pd pe ps]. cbn [ep_data ep_encoding ep_uncompressed_size].
    rewrite (encode_decode_bytes _ _ _ _ Hr). cbn. destruct up. cbn in *. by subst.
  - unfold encode_download in Hd. ok_step Hd. ok_inv Hd. unfold decode_download.
    cbn [fc_data fc_encoding fc_uncompressed_size fc_offset fc_sha256 fc_eof].
    destruct a as [pd pe ps]. cbn [ep_data ep_encoding ep_uncompressed_size].
    rewrite Hsha, (encode_decode _ _ _ _ Hr). cbn. destruct down. cbn in *. by subst.
Qed.

Lemma file_chunk_roundtrip_witness :
  let up := mkWriteChunk "t" 0 (replicate 2000 7) [] 0 0 in
  let down := mkFileChunk 0 [1; 2] (@sha256 ex_payload_lib [1; 2]) true 0 0 in
  exists up' down', @encode_upload ex_payload_lib up true = Ok up' /\ wc_encoding up' = 1%Z /\
    @decode_upload ex_payload_lib up' true = Ok up /\ @decode_download ex_payload_lib down' true = Ok down.
Proof.
  cbv zeta. do 2 eexists. split; [vm_compute; reflexivity|]. split; [reflexivity|].
  eapply (@file_chunk_roundtrip ex_payload_lib ex_payload_laws); vm_compute; reflexivity.
Defined.

(** Decoding is bounded and authenticated: whatever the peer sends, decoded
    bytes never exceed the limit, a compressed payload is accepted only when it
    was negotiated and expands to exactly the announced size, and the result
    has the announced digest. *)
Theorem payload_decode_safe `{PayloadLib} p enabled maximum digest data :
  payload_decode p enabled maximum digest = Ok data ->
  llen data <= maximum /\ sha256 data = digest /\
  (ep_encoding p = 1%Z -> enabled = true /\ llen data = ep_uncompressed_size p).
Proof.
  unfold payload_decode. intros Hd. do 3 ok_step Hd. ok_inv Hd. bool_prop.
  apply decode_bytes_bound in Hr as (? & _ & ?). done.
Qed.

Lemma payload_decode_safe_witness :
  exists data, @payload_decode ex_payload_lib (mkPayload (ZSTD_MAGIC ++ [1; 5; 3]) 1 3) true 10
    (replicate 31 0 ++ [15]) = Ok data /\ llen data <= 10.
Proof.
  exists [5; 5; 5]. split; [vm_compute; reflexivity|].
  refine (proj1 (@payload_decode_safe ex_payload_lib (mkPayload (ZSTD_MAGIC ++ [1; 5; 3]) 1 3) true 10
    (replicate 31 0 ++ [15]) [5; 5; 5] _)). vm_compute. reflexivity.
Defined.
