(* ===== verification/Transfer.v ===== *)
(** * Chunked transfers (src/src/terminal_streaming.rs, src/src/server.rs)

    A keyframe or a history page is encoded, split into chunks by the server and
    reassembled by the client.  [TransferAssembler::push] changes its state
    before some of its errors, so it returns the state beside the result. *)
From S2P Require Import Prelude TerminalState TerminalStateSpec TerminalSync TerminalSyncSpec Payload.
Open Scope N_scope.

Definition MAX_TRANSFER_CHUNKS : N := 4096.
Definition TERMINAL_STATE_CHUNK_BYTES : N := 512 * 1024.

(** ** Messages: a [TerminalStateChunk] and a [HistoryPageChunk] have the same
    fields, those of [TransferChunk]. *)
Record TransferChunk := mkChunk {
  tc_transfer_id : bytes;
  tc_chunk_index : N;
  tc_chunk_count : N;
  tc_total_size : N;
  tc_sha256 : bytes;
  tc_data : bytes;
  tc_encoding : Z;
  tc_uncompressed_size : N
}.
#[global] Instance TransferChunk_eq_dec : EqDecision TransferChunk.
Proof. solve_decision. Defined.
Record TerminalStateDiffChunk := mkDiffChunk {
  dc_transfer_id : bytes; dc_chunk_index : N; dc_chunk_count : N;
  dc_total_size : N; dc_sha256 : bytes; dc_data : bytes }.

Record PendingTransfer := mkPending {
  pt_transfer_id : bytes;
  pt_total_size : N;
  pt_sha256 : bytes;
  pt_chunks : list (option bytes);
  pt_received_size : N;
  pt_received_chunks : N;
  pt_encoding : Z;
  pt_uncompressed_size : N
}.
Record TransferAssembler := mkAssembler { ta_pending : option PendingTransfer; ta_allow_zstd : bool }.

Definition with_zstd (allow_zstd : bool) : TransferAssembler := mkAssembler None allow_zstd.

(** [Message::encode_to_vec] and [Message::decode]. *)
Class WireLib := {
  wire_sync_lib :: SyncLib;
  wire_payload_lib :: PayloadLib;
  state_to_vec : State -> bytes;
  state_decode : bytes -> result State;
  page_to_vec : HistoryPage -> bytes;
  page_decode : bytes -> result HistoryPage;
  diff_to_vec : TerminalStateDiff -> bytes
}.
Class WireLaws `{WireLib} := {
  wire_payload_laws :: PayloadLaws;
  state_roundtrip : forall s, state_decode (state_to_vec s) = Ok s;
  state_len : forall s, state_encoded_len s = llen (state_to_vec s);
  page_roundtrip : forall p, page_decode (page_to_vec p) = Ok p;
  page_len : forall p, page_encoded_len p = llen (page_to_vec p)
}.

(** ** The assembler *)

Section assembler.
Context `{PayloadLib}.

(** The checks on a chunk's header before the assembler changes. *)
Definition check_chunk (chunk : TransferChunk) (allow_zstd : bool) (maximum_size : N) : result unit :=
  ensure! llen (tc_transfer_id chunk) =? 16, "terminal transfer ID is invalid";
  ensure! llen (tc_sha256 chunk) =? 32, "terminal transfer digest is invalid";
  ensure! in_range 1 MAX_TRANSFER_CHUNKS (tc_chunk_count chunk),
    "terminal transfer chunk count is invalid";
  ensure! tc_chunk_index chunk <? tc_chunk_count chunk, "terminal transfer chunk index is invalid";
  ensure! tc_total_size chunk <=? maximum_size, "terminal transfer is too large";
  validate_header (tc_encoding chunk) (tc_uncompressed_size chunk) (tc_total_size chunk)
    allow_zstd maximum_size.

(** The pending transfer the chunk belongs to, a new one for a first chunk. *)
Definition open_transfer (pending : option PendingTransfer) (chunk : TransferChunk)
    : result PendingTransfer :=
  match pending with
  | Some pending =>
      ensure! bool_decide (pt_transfer_id pending = tc_transfer_id chunk),
        "terminal transfer changed before completion";
      Ok pending
  | None =>
      ensure! tc_chunk_index chunk =? 0, "terminal transfer started after its first chunk";
      Ok (mkPending (tc_transfer_id chunk) (tc_total_size chunk) (tc_sha256 chunk)
            (replicate (N.to_nat (tc_chunk_count chunk)) None) 0 0
            (tc_encoding chunk) (tc_uncompressed_size chunk))
  end.

Definition same_metadata (p : PendingTransfer) (chunk : TransferChunk) : bool :=
  bool_decide (pt_transfer_id p = tc_transfer_id chunk)
  && (pt_total_size p =? tc_total_size chunk)
  && bool_decide (pt_sha256 p = tc_sha256 chunk)
  && (pt_encoding p =? tc_encoding chunk)%Z
  && (pt_uncompressed_size p =? tc_uncompressed_size chunk)
  && (llen (pt_chunks p) =? tc_chunk_count chunk).

(** The end of [push], once every chunk is there. *)
Definition complete_transfer (p : PendingTransfer) (allow_zstd : bool) (maximum_size : N) : result bytes :=
  chunks ← mapM (fun c => ok_or c "terminal transfer has a missing chunk") (pt_chunks p);
  let encoded := concat chunks in
  ensure! llen encoded =? pt_total_size p, "terminal transfer size does not match";
  payload_decode (mkPayload encoded (pt_encoding p) (pt_uncompressed_size p)) allow_zstd maximum_size
    (pt_sha256 p).

Definition with_received (p : PendingTransfer) (chunks : list (option bytes)) (size count : N)
    : PendingTransfer :=
  mkPending (pt_transfer_id p) (pt_total_size p) (pt_sha256 p) chunks size count
    (pt_encoding p) (pt_uncompressed_size p).

Definition push (a : TransferAssembler) (chunk : TransferChunk) (maximum_size : N)
    : TransferAssembler * result (option bytes) :=
  match check_chunk chunk (ta_allow_zstd a) maximum_size with
  | Err e => (a, Err e)
  | Ok _ =>
  match open_transfer (ta_pending a) chunk with
  | Err e => (a, Err e)
  | Ok pending =>
      let holding p := mkAssembler (Some p) (ta_allow_zstd a) in
      let index := N.to_nat (tc_chunk_index chunk) in
      if negb (same_metadata pending chunk)
      then (holding pending, Err "terminal transfer metadata changed") else
      match pt_chunks pending !! index with
      | None => (holding pending, panic)
      | Some (Some existing) =>
          if bool_decide (existing = tc_data chunk) then (holding pending, Ok None)
          else (holding pending, Err "terminal transfer chunk changed on retransmission")
      | Some None =>
          match checked_add U64_MAX (pt_received_size pending) (llen (tc_data chunk)) with
          | None => (holding pending, Err "terminal transfer size overflowed")
          | Some size =>
              if negb (size <=? pt_total_size pending)
              then (holding (with_received pending (pt_chunks pending) size (pt_received_chunks pending)),
                    Err "terminal transfer exceeds declared size")
              else
                let pending := with_received pending (<[index := Some (tc_data chunk)]> (pt_chunks pending))
                                 size (pt_received_chunks pending + 1) in
                if negb (pt_received_chunks pending =? llen (pt_chunks pending))
                then (holding pending, Ok None)
                else (mkAssembler None (ta_allow_zstd a),
                      encoded ← complete_transfer pending (ta_allow_zstd a) maximum_size;
                      Ok (Some encoded))
          end
      end
  end
  end.
End assembler.

Section wire.
Context `{WireLib}.

(** [TerminalStateAssembler::push] and [HistoryPageAssembler::push]. *)
Definition state_push (a : TransferAssembler) (chunk : TransferChunk)
    : TransferAssembler * result (option State) :=
  let '(a, r) := push a chunk MAX_ENCODED_STATE_BYTES in
  (a, encoded ← r;
      match encoded with
      | None => Ok None
      | Some encoded =>
          state ← state_decode encoded;
          _ ← with_context (validate state) "received terminal state is invalid";
          Ok (Some state)
      end).
Definition page_push (a : TransferAssembler) (chunk : TransferChunk)
    : TransferAssembler * result (option HistoryPage) :=
  let '(a, r) := push a chunk MAX_ENCODED_HISTORY_PAGE_BYTES in
  (a, encoded ← r;
      match encoded with
      | None => Ok None
      | Some encoded =>
          page ← page_decode encoded;
          _ ← with_context (validate_history_page page) "received terminal history page is invalid";
          Ok (Some page)
      end).

(** ** The server's chunkers *)

(** [encoded[start..end]] of chunk [i]. *)
Definition chunk_data (encoded : bytes) (i : nat) : bytes :=
  let start := N.of_nat i * TERMINAL_STATE_CHUNK_BYTES in
  let end_ := N.min (start + TERMINAL_STATE_CHUNK_BYTES) (llen encoded) in
  take (N.to_nat (end_ - start)) (drop (N.to_nat start) encoded).
Definition chunk_count_of (encoded : bytes) : N :=
  div_ceil (N.max (llen encoded) 1) TERMINAL_STATE_CHUNK_BYTES.

Definition split_payload (transfer_id digest : bytes) (p : EncodedPayload) : result (list TransferChunk) :=
  let encoded := ep_data p in
  total_size ← try_u32 (llen encoded);
  chunk_count ← try_u32 (chunk_count_of encoded);
  Ok ((fun i => mkChunk transfer_id (N.of_nat i) chunk_count total_size digest (chunk_data encoded i)
                  (ep_encoding p) (ep_uncompressed_size p)) <$> seq 0 (N.to_nat chunk_count)).

(** The random transfer identifier is an argument. *)
Definition terminal_state_chunks (transfer_id : bytes) (state : State) (zstd : bool)
    : result (list TransferChunk) :=
  let encoded := state_to_vec state in
  ensure! llen encoded <=? MAX_ENCODED_STATE_BYTES,
    "terminal state exceeds the semantic state transport limit";
  let digest := sha256 encoded in
  payload ← payload_encode encoded zstd MAX_ENCODED_STATE_BYTES;
  split_payload transfer_id digest payload.

Definition history_page_chunks (transfer_id : bytes) (page : HistoryPage) (zstd : bool)
    : result (list TransferChunk) :=
  let encoded := page_to_vec page in
  ensure! llen encoded <=? MAX_ENCODED_HISTORY_PAGE_BYTES,
    "terminal history page exceeds the transport limit";
  let digest := sha256 encoded in
  payload ← payload_encode encoded zstd MAX_ENCODED_HISTORY_PAGE_BYTES;
  split_payload transfer_id digest payload.

Definition terminal_state_diff_chunks (transfer_id : bytes) (diff : TerminalStateDiff)
    : result (list TerminalStateDiffChunk) :=
  let encoded := diff_to_vec diff in
  ensure! llen encoded <=? MAX_ENCODED_STATE_BYTES,
    "terminal state diff exceeds the semantic state transport limit";
  let digest := sha256 encoded in
  total_size ← try_u32 (llen encoded);
  chunk_count ← try_u32 (chunk_count_of encoded);
  Ok ((fun i => mkDiffChunk transfer_id (N.of_nat i) chunk_count total_size digest (chunk_data encoded i))
        <$> seq 0 (N.to_nat chunk_count)).
End wire.
