(* ===== verification/TransferSpec.v ===== *)
(** * Chunked transfers reassemble

    Chunks that arrive in any order after the first, with any retransmissions,
    give back exactly what was split. *)
From S2P Require Import Prelude TerminalState TerminalStateSpec TerminalSync TerminalSyncSpec Payload Transfer.
Open Scope N_scope.

(** ** Splitting *)

Lemma chunk_data_take encoded i :
  chunk_data encoded i =
  take (N.to_nat TERMINAL_STATE_CHUNK_BYTES) (drop (i * N.to_nat TERMINAL_STATE_CHUNK_BYTES) encoded).
Proof.
  unfold chunk_data, llen. set (c := TERMINAL_STATE_CHUNK_BYTES).
  replace (N.to_nat (N.of_nat i * c)) with (i * N.to_nat c)%nat by lia.
  destruct (decide (N.of_nat i * c + c <= N.of_nat (length encoded))).
  - f_equal. lia.
  - rewrite !take_ge; [done|rewrite length_drop; lia..].
Qed.

Lemma chunks_concat encoded n :
  concat (chunk_data encoded <$> seq 0 n) = take (n * N.to_nat TERMINAL_STATE_CHUNK_BYTES) encoded.
Proof.
  induction n as [|n IH]; [done|]. rewrite seq_S, fmap_app, concat_app, IH.
  cbn [fmap list_fmap concat]. rewrite app_nil_r, chunk_data_take, Nat.add_0_l, take_take_drop.
  f_equal. lia.
Qed.

Lemma div_ceil_cover a b : 0 < b -> a <= div_ceil a b * b.
Proof.
  intros Hb. unfold div_ceil. pose proof (N.div_mod (a + b - 1) b ltac:(lia)).
  pose proof (N.mod_lt (a + b - 1) b ltac:(lia)). lia.
Qed.

Lemma split_covers encoded :
  concat (chunk_data encoded <$> seq 0 (N.to_nat (chunk_count_of encoded))) = encoded.
Proof.
  rewrite chunks_concat, take_ge; [done|]. unfold chunk_count_of.
  pose proof (div_ceil_cover (N.max (llen encoded) 1) TERMINAL_STATE_CHUNK_BYTES ltac:(done)) as Hc.
  unfold llen in *. lia.
Qed.

Lemma chunk_count_bounds encoded :
  llen encoded <= MAX_ENCODED_STATE_BYTES -> 1 <= chunk_count_of encoded <= 16.
Proof.
  intros Hl. unfold chunk_count_of, div_ceil. split.
  - apply N.div_le_lower_bound; [done|]. unfold TERMINAL_STATE_CHUNK_BYTES. lia.
  - apply N.lt_succ_r. apply N.Div0.div_lt_upper_bound.
    unfold MAX_ENCODED_STATE_BYTES, TERMINAL_STATE_CHUNK_BYTES in *. lia.
Qed.

(** ** The chunks received so far *)

Definition chunk_size (cs : list (option bytes)) : N :=
  foldr (fun c n => match c with Some d => llen d + n | None => n end) 0 cs.
Definition chunk_seen (cs : list (option bytes)) : N :=
  foldr (fun c n => match c with Some _ => 1 + n | None => n end) 0 cs.
Definition received (ds : list bytes) (seen : gset nat) : list (option bytes) :=
  imap (fun i d => if bool_decide (i ∈ seen) then Some d else None) ds.

Lemma chunk_insert cs i d :
  cs !! i = Some None ->
  chunk_size (<[i := Some d]> cs) = chunk_size cs + llen d /\
  chunk_seen (<[i := Some d]> cs) = chunk_seen cs + 1.
Proof.
  unfold chunk_size, chunk_seen. revert i. induction cs as [|c cs IH]; intros i Hi; [done|].
  destruct i as [|i].
  - change (Some c = Some None) in Hi. simplify_eq.
    change (<[0%nat := Some d]> (None :: cs)) with (Some d :: cs). cbn [foldr]. lia.
  - destruct (IH i Hi) as [H1 H2]. change (<[S i := Some d]> (c :: cs)) with (c :: <[i := Some d]> cs).
    cbn [foldr]. destruct c; lia.
Qed.

Lemma received_lookup ds seen i :
  received ds seen !! i = (fun d => if bool_decide (i ∈ seen) then Some d else None) <$> ds !! i.
Proof. unfold received. by rewrite list_lookup_imap. Qed.
Lemma received_length ds seen : length (received ds seen) = length ds.
Proof. unfold received. apply length_imap. Qed.

Lemma received_insert ds seen i d :
  ds !! i = Some d -> <[i := Some d]> (received ds seen) = received ds ({[i]} ∪ seen).
Proof.
  intros Hd. apply list_eq. intros j. rewrite received_lookup.
  destruct (decide (i = j)) as [<-|Hne].
  - rewrite list_lookup_insert_eq by (rewrite received_length; by eapply lookup_lt_Some).
    rewrite Hd. cbn. by rewrite bool_decide_eq_true_2 by set_solver.
  - rewrite list_lookup_insert_ne, received_lookup by done.
    destruct (ds !! j); cbn; [|done]. by rewrite (bool_decide_ext _ (j ∈ {[i]} ∪ seen)) by set_solver.
Qed.

Lemma received_none ds : received ds ∅ = replicate (length ds) None.
Proof.
  apply list_eq. intros i. rewrite received_lookup. destruct (ds !! i) eqn:E; cbn.
  - apply lookup_lt_Some in E. by rewrite lookup_replicate_2.
  - symmetry. apply lookup_replicate_None. by apply lookup_ge_None in E.
Qed.

Lemma received_bounds ds cs :
  Forall2 (fun d c => c = None \/ c = Some d) ds cs ->
  chunk_size cs <= llen (concat ds) /\ chunk_seen cs <= llen ds /\
  (chunk_seen cs = llen ds -> cs = Some <$> ds).
Proof.
  unfold chunk_size, chunk_seen.
  induction 1 as [|d c ds cs Hc Hall (IH1 & IH2 & IH3)]; [split_and!; [cbn; lia|cbn; lia|done]|].
  rewrite llen_cons. cbn [concat foldr]. rewrite llen_app. destruct Hc as [->| ->].
  - split_and!; [lia|lia|]. intros. lia.
  - split_and!; [lia|lia|]. intros Heq. cbn. rewrite IH3 by lia. done.
Qed.

Lemma received_got ds seen : Forall2 (fun d c => c = None \/ c = Some d) ds (received ds seen).
Proof.
  apply Forall2_lookup. intros i. rewrite received_lookup. destruct (ds !! i); cbn; constructor.
  case_bool_decide; auto.
Qed.

(** All chunks are there exactly when every index was seen. *)
Lemma received_all ds seen :
  chunk_seen (received ds seen) = llen ds <-> forall i, (i < length ds)%nat -> i ∈ seen.
Proof.
  pose proof (received_got ds seen) as Hg. split.
  - intros Heq i Hi. apply received_bounds in Hg as (_ & _ & Hall). specialize (Hall Heq).
    apply lookup_lt_is_Some_2 in Hi as [d Hd].
    assert (Hl : received ds seen !! i = Some (Some d)) by (rewrite Hall, list_lookup_fmap, Hd; done).
    rewrite received_lookup, Hd in Hl. cbn in Hl. case_bool_decide; done.
  - intros Hall. assert (received ds seen = Some <$> ds) as ->.
    { apply list_eq. intros i. rewrite received_lookup, list_lookup_fmap.
      destruct (ds !! i) eqn:E; cbn; [|done]. apply lookup_lt_Some in E.
      by rewrite bool_decide_eq_true_2 by auto. }
    unfold chunk_seen. clear. induction ds as [|d ds IH]; [done|].
    rewrite fmap_cons, llen_cons. cbn [foldr]. rewrite IH. lia.
Qed.

(** ** One transfer *)

Section transfer.
Context `{PayloadLib}.
Context (tid digest : bytes) (ds : list bytes) (enc : Z) (us : N) (allow : bool) (maximum : N) (data : bytes).

Definition piece (i : nat) (d : bytes) : TransferChunk :=
  mkChunk tid (N.of_nat i) (llen ds) (llen (concat ds)) digest d enc us.
Definition pieces : list TransferChunk := imap piece ds.
Definition holding (seen : gset nat) : TransferAssembler :=
  mkAssembler (Some (mkPending tid (llen (concat ds)) digest (received ds seen)
    (chunk_size (received ds seen)) (chunk_seen (received ds seen)) enc us)) allow.

(** A sequence of pushes and their results. *)
Fixpoint push_all (a : TransferAssembler) (l : list TransferChunk)
    : TransferAssembler * list (result (option bytes)) :=
  match l with
  | [] => (a, [])
  | c :: l => let '(a, r) := push a c maximum in
              let '(a, rs) := push_all a l in (a, r :: rs)
  end.

Hypothesis Htid : llen tid = 16.
Hypothesis Hdigest : llen digest = 32.
Hypothesis Hcount : 1 <= llen ds <= MAX_TRANSFER_CHUNKS.
Hypothesis Hsize : llen (concat ds) <= maximum <= U64_MAX.
Hypothesis Hheader : validate_header enc us (llen (concat ds)) allow maximum = Ok tt.
Hypothesis Hdecode : payload_decode (mkPayload (concat ds) enc us) allow maximum digest = Ok data.

Lemma check_piece i d : ds !! i = Some d -> check_chunk (piece i d) allow maximum = Ok tt.
Proof using Htid Hdigest Hcount Hsize Hheader.
  intros Hd%lookup_lt_Some. unfold check_chunk, piece, in_range. cbn.
  rewrite Htid, Hdigest, !N.eqb_refl, !(proj2 (N.leb_le _ _)) by lia. cbn [andb].
  rewrite (proj2 (N.ltb_lt _ _)); [done|]. unfold llen. lia.
Qed.

Lemma piece_metadata seen i d p :
  ta_pending (holding seen) = Some p -> same_metadata p (piece i d) = true.
Proof using.
  intros [= <-]. unfold same_metadata. cbn. unfold llen. rewrite received_length, !N.eqb_refl, Z.eqb_refl.
  by rewrite !bool_decide_eq_true_2.
Qed.

Lemma complete_all size count :
  complete_transfer (mkPending tid (llen (concat ds)) digest (Some <$> ds) size count enc us)
    allow maximum = Ok data.
Proof using Hdecode.
  unfold complete_transfer. cbn.
  assert (mapM (fun c => ok_or c "terminal transfer has a missing chunk") (Some <$> ds) = Ok ds) as ->.
  { apply mapM_result_Ok. clear. induction ds; constructor; auto. }
  cbn [mbind result_bind]. by rewrite N.eqb_refl.
Qed.

Lemma push_piece seen i d :
  ds !! i = Some d ->
  push (holding seen) (piece i d) maximum =
    if bool_decide (i ∈ seen) then (holding seen, Ok None)
    else if chunk_seen (received ds ({[i]} ∪ seen)) =? llen ds
         then (mkAssembler None allow, Ok (Some data))
         else (holding ({[i]} ∪ seen), Ok None).
Proof using Htid Hdigest Hcount Hsize Hheader Hdecode.
  intros Hd. unfold push. change (ta_allow_zstd (holding seen)) with allow. rewrite (check_piece i d Hd).
  unfold open_transfer. cbn [ta_pending holding pt_transfer_id tc_transfer_id piece].
  rewrite bool_decide_eq_true_2 by done. rewrite (piece_metadata seen i d _ eq_refl). cbn [negb].
  cbn [tc_chunk_index tc_data pt_chunks pt_received_size pt_received_chunks pt_total_size piece].
  rewrite Nat2N.id, received_lookup, Hd. cbn [fmap option_fmap option_map].
  case_bool_decide as Hin; [by rewrite bool_decide_eq_true_2|].
  assert (Hnone : received ds seen !! i = Some None) by (rewrite received_lookup, Hd; cbn; by rewrite bool_decide_eq_false_2).
  destruct (chunk_insert _ _ d Hnone) as [Hcs Hcc]. rewrite (received_insert _ _ _ _ Hd) in Hcs, Hcc |- *.
  destruct (received_bounds _ _ (received_got ds ({[i]} ∪ seen))) as (Hb1 & Hb2 & Hb3).
  rewrite (proj2 (checked_add_Some _ _ _ _)) by (split; [exact Hcs|lia]).
  rewrite (proj2 (N.leb_le _ _)) by done. cbn [negb with_received pt_received_chunks pt_chunks].
  rewrite <- Hcc. unfold llen at 1. rewrite received_length. fold (llen ds).
  destruct (N.eqb_spec (chunk_seen (received ds ({[i]} ∪ seen))) (llen ds)) as [Heq|]; cbn [negb]; [|done].
  unfold with_received. cbn [pt_transfer_id pt_total_size pt_sha256 pt_encoding pt_uncompressed_size].
  by rewrite (Hb3 Heq), complete_all.
Qed.

Lemma push_first d :
  ds !! 0%nat = Some d ->
  push (mkAssembler None allow) (piece 0 d) maximum = push (holding ∅) (piece 0 d) maximum.
Proof using Htid Hdigest Hcount Hsize Hheader.
  intros Hd. unfold push, open_transfer, holding. cbn [ta_allow_zstd ta_pending].
  rewrite (check_piece 0 d Hd).
  cbn [piece tc_transfer_id tc_chunk_index tc_chunk_count tc_total_size tc_sha256 tc_encoding
    tc_uncompressed_size pt_transfer_id]. rewrite bool_decide_eq_true_2, received_none by done.
  assert (Hz : forall n, chunk_size (replicate n None) = 0 /\ chunk_seen (replicate n None) = 0)
    by (induction n; done).
  destruct (Hz (length ds)) as [-> ->]. unfold llen at 2. rewrite Nat2N.id. reflexivity.
Qed.

Lemma pieces_lookup c : c ∈ pieces <-> exists i d, ds !! i = Some d /\ c = piece i d.
Proof using.
  unfold pieces. rewrite list_elem_of_lookup. setoid_rewrite list_lookup_imap. split.
  - intros [i Hi]. destruct (ds !! i) as [d|] eqn:E; cbn in Hi; simplify_eq. eauto.
  - intros (i & d & Hd & ->). exists i. by rewrite Hd.
Qed.

Definition index_of (c : TransferChunk) : nat := N.to_nat (tc_chunk_index c).
Lemma index_of_piece i d : index_of (piece i d) = i.
Proof using. unfold index_of, piece. cbn. apply Nat2N.id. Qed.

(** As long as one index is missing, every push answers [None]. *)
Lemma push_all_waiting k l seen :
  (k < length ds)%nat -> k ∉ seen -> Forall (fun c => c ∈ pieces /\ index_of c <> k) l ->
  push_all (holding seen) l =
    (holding (list_to_set (index_of <$> l) ∪ seen), replicate (length l) (Ok None)).
Proof using Htid Hdigest Hcount Hsize Hheader Hdecode.
  intros Hk. revert seen. induction l as [|c l IH]; intros seen Hseen Hl; cbn [push_all length replicate].
  { by assert (list_to_set (index_of <$> []) ∪ seen = seen) as -> by set_solver. }
  apply Forall_cons in Hl as [[Hc Hne] Hl]. apply pieces_lookup in Hc as (i & d & Hd & ->).
  rewrite index_of_piece in Hne. rewrite (push_piece _ _ _ Hd).
  rewrite fmap_cons, list_to_set_cons, index_of_piece. case_bool_decide as Hin.
  - rewrite IH by done. f_equal. f_equal. set_solver.
  - destruct (N.eqb_spec (chunk_seen (received ds ({[i]} ∪ seen))) (llen ds)) as [Heq|_].
    + apply received_all with (i := k) in Heq; [|done]. exfalso. set_solver.
    + rewrite IH by (done || set_solver). f_equal. f_equal. set_solver.
Qed.

Lemma push_all_app a l k :
  push_all a (l ++ k) =
    let '(a1, r1) := push_all a l in let '(a2, r2) := push_all a1 k in (a2, r1 ++ r2).
Proof using.
  revert a. induction l as [|c l IH]; intros a; cbn [push_all app]; [by destruct (push_all a k)|].
  destruct (push a c maximum) as [a' r]. rewrite IH.
  destruct (push_all a' l) as [a1 r1]. by destruct (push_all a1 k).
Qed.

(** After the first chunk, pushing the rest in any order and with any
    repetitions delivers the data with the last missing chunk. *)
Lemma push_all_complete l c :
  c ∈ pieces -> Forall (fun x => x ∈ pieces) l -> (c ∉ l) ->
  (forall x, x ∈ pieces -> x ∈ l ++ [c]) ->
  (exists d, ds !! 0%nat = Some d /\ head (l ++ [c]) = Some (piece 0 d)) ->
  push_all (mkAssembler None allow) (l ++ [c]) =
    (mkAssembler None allow, replicate (length l) (Ok None) ++ [Ok (Some data)]).
Proof using Htid Hdigest Hcount Hsize Hheader Hdecode.
  intros Hc Hl Hni Hall (d0 & Hd0 & Hhead).
  assert (push_all (mkAssembler None allow) (l ++ [c]) = push_all (holding ∅) (l ++ [c])) as ->.
  { destruct (l ++ [c]) as [|x k]; [done|]. cbn in Hhead. simplify_eq. cbn [push_all].
    by rewrite (push_first d0 Hd0). }
  apply pieces_lookup in Hc as (k & d & Hd & ->). rewrite push_all_app.
  rewrite (push_all_waiting k); [|by eapply lookup_lt_Some|set_solver|].
  - cbn [push_all]. rewrite (push_piece _ _ _ Hd).
    rewrite bool_decide_eq_false_2.
    + rewrite (proj2 (N.eqb_eq _ _)); [done|]. apply received_all. intros i Hi.
      apply lookup_lt_is_Some_2 in Hi as [di Hi].
      assert (Hin : piece i di ∈ l ++ [piece k d]) by (apply Hall, pieces_lookup; eauto).
      apply elem_of_app in Hin as [Hin|Hin%list_elem_of_singleton].
      * apply elem_of_union_r, elem_of_union_l, elem_of_list_to_set.
        rewrite <- (index_of_piece i di). by apply list_elem_of_fmap_2.
      * apply (f_equal index_of) in Hin. rewrite !index_of_piece in Hin. subst. set_solver.
    + intros [Hin|Hin]%elem_of_union; [|set_solver].
      apply elem_of_list_to_set, list_elem_of_fmap in Hin as (x & Hx & Hin).
      rewrite Forall_forall in Hl. pose proof (Hl _ Hin) as (i & di & Hi & ->)%pieces_lookup.
      rewrite index_of_piece in Hx. subst. rewrite Hd in Hi. by simplify_eq.
  - rewrite Forall_forall in Hl |- *. intros x Hx. split; [by apply Hl|].
    intros Heq. pose proof (Hl _ Hx) as (i & di & Hi & ->)%pieces_lookup.
    rewrite index_of_piece in Heq. subst. rewrite Hd in Hi. by simplify_eq.
Qed.
End transfer.

(** ** Whole messages *)

Section messages.
Context `{WireLaws}.

(** An arrival order of the chunks: the first chunk first, then any order with
    any repetitions until the last missing one. *)
Definition delivery (chunks l : list TransferChunk) (c : TransferChunk) : Prop :=
  c ∈ chunks /\ Forall (fun x => x ∈ chunks) l /\ (c ∉ l) /\
  (forall x, x ∈ chunks -> x ∈ l ++ [c]) /\ head (l ++ [c]) = head chunks.

Lemma split_payload_pieces tid digest p chunks :
  split_payload tid digest p = Ok chunks ->
  exists ds, chunks = pieces tid digest ds (ep_encoding p) (ep_uncompressed_size p) /\
    concat ds = ep_data p /\ llen ds = chunk_count_of (ep_data p).
Proof.
  unfold split_payload, try_u32. intros Hs. do 2 ok_step Hs. ok_inv Hr. ok_inv Hr0. ok_inv Hs.
  set (n := chunk_count_of (ep_data p)) in *.
  exists (chunk_data (ep_data p) <$> seq 0 (N.to_nat n)).
  assert (Hl : llen (chunk_data (ep_data p) <$> seq 0 (N.to_nat n)) = n).
  { unfold llen. rewrite length_fmap, length_seq. lia. }
  split_and!; [|apply split_covers|done]. apply list_eq. intros i. unfold pieces, piece.
  rewrite list_lookup_imap, Hl, split_covers, !list_lookup_fmap.
  destruct (seq 0 (N.to_nat n) !! i) as [j|] eqn:E; cbn; [|done].
  apply lookup_seq in E as [-> _]. done.
Qed.

Lemma transfer_delivers tid data zstd maximum p chunks l c :
  llen tid = 16 -> maximum <= MAX_ENCODED_STATE_BYTES ->
  payload_encode data zstd maximum = Ok p -> split_payload tid (sha256 data) p = Ok chunks ->
  delivery chunks l c ->
  push_all maximum (with_zstd zstd) (l ++ [c]) =
    (with_zstd zstd, replicate (length l) (Ok None) ++ [Ok (Some data)]).
Proof.
  intros Htid Hmax Hp Hs (Hc & Hl & Hni & Hall & Hhead).
  pose proof (encode_decode _ _ _ _ Hp) as Hdec.
  pose proof (encode_header _ _ _ _ Hp) as (Hraw & Hwire & Hhdr & _).
  apply split_payload_pieces in Hs as (ds & -> & Hds & Hcount).
  pose proof (chunk_count_bounds (ep_data p) ltac:(lia)) as Hb.
  unfold MAX_ENCODED_STATE_BYTES in *.
  eapply (push_all_complete tid (sha256 data) ds (ep_encoding p) (ep_uncompressed_size p)); auto.
  - apply sha256_length.
  - unfold MAX_TRANSFER_CHUNKS. lia.
  - rewrite Hds. unfold U64_MAX. lia.
  - by rewrite Hds.
  - rewrite Hds. by destruct p.
  - destruct ds as [|d ds]; [unfold llen in Hcount; cbn in Hcount; lia|].
    exists d. split; [done|]. rewrite Hhead. done.
Qed.

Fixpoint state_push_all (a : TransferAssembler) (l : list TransferChunk)
    : TransferAssembler * list (result (option State)) :=
  match l with
  | [] => (a, [])
  | c :: l => let '(a, r) := state_push a c in let '(a, rs) := state_push_all a l in (a, r :: rs)
  end.
Fixpoint page_push_all (a : TransferAssembler) (l : list TransferChunk)
    : TransferAssembler * list (result (option HistoryPage)) :=
  match l with
  | [] => (a, [])
  | c :: l => let '(a, r) := page_push a c in let '(a, rs) := page_push_all a l in (a, r :: rs)
  end.

Definition decode_state (r : result (option bytes)) : result (option State) :=
  encoded ← r;
  match encoded with
  | None => Ok None
  | Some encoded =>
      state ← state_decode encoded;
      _ ← with_context (validate state) "received terminal state is invalid";
      Ok (Some state)
  end.
Definition decode_page (r : result (option bytes)) : result (option HistoryPage) :=
  encoded ← r;
  match encoded with
  | None => Ok None
  | Some encoded =>
      page ← page_decode encoded;
      _ ← with_context (validate_history_page page) "received terminal history page is invalid";
      Ok (Some page)
  end.

Lemma state_push_all_eq a l :
  state_push_all a l = let '(a, rs) := push_all MAX_ENCODED_STATE_BYTES a l in (a, decode_state <$> rs).
Proof.
  revert a. induction l as [|c l IH]; intros a; cbn [state_push_all push_all]; [done|].
  unfold state_push. destruct (push a c _) as [a' r]. rewrite IH. by destruct (push_all _ a' l).
Qed.
Lemma page_push_all_eq a l :
  page_push_all a l =
    let '(a, rs) := push_all MAX_ENCODED_HISTORY_PAGE_BYTES a l in (a, decode_page <$> rs).
Proof.
  revert a. induction l as [|c l IH]; intros a; cbn [page_push_all push_all]; [done|].
  unfold page_push. destruct (push a c _) as [a' r]. rewrite IH. by destruct (push_all _ a' l).
Qed.
End messages.

(** ** A concrete wire format

    Any injective encoding satisfies the laws; this one writes a message as one
    number. *)
#[global] Instance ColorValue_countable : Countable ColorValue.
Proof.
  refine (inj_countable' (fun v => match v with
    | DefaultColor b => inl b | PaletteIndex n => inr (inl n) | Rgb n => inr (inr n) end)
    (fun v => match v with
    | inl b => DefaultColor b | inr (inl n) => PaletteIndex n | inr (inr n) => Rgb n end) _).
  by intros [].
Defined.
#[global] Instance Anchor_countable : Countable Anchor.
Proof.
  refine (inj_countable' (fun r => (an_logical_line_id r, an_cell_offset r))
    (fun '(a0, a1) => mkAnchor a0 a1) _). by intros [].
Defined.
#[global] Instance Cell_countable : Countable Cell.
Proof.
  refine (inj_countable' (fun r => (cell_column r, cell_grapheme r, cell_width r, cell_style_id r, cell_hyperlink_id r))
    (fun '(a0, a1, a2, a3, a4) => mkCell a0 a1 a2 a3 a4) _). by intros [].
Defined.
#[global] Instance Row_countable : Countable Row.
Proof.
  refine (inj_countable' (fun r => (row_start r, row_version r, row_cells r, row_wrapped_to_next r))
    (fun '(a0, a1, a2, a3) => mkRow a0 a1 a2 a3) _). by intros [].
Defined.
#[global] Instance Cursor_countable : Countable Cursor.
Proof.
  refine (inj_countable' (fun r => (cur_x r, cur_y r, cur_anchor r, cur_shape r, cur_visible r, cur_version r, cur_wrap_pending r))
    (fun '(a0, a1, a2, a3, a4, a5, a6) => mkCursor a0 a1 a2 a3 a4 a5 a6) _). by intros [].
Defined.
#[global] Instance Screen_countable : Countable Screen.
Proof.
  refine (inj_countable' (fun r => (sc_included_rows r, sc_viewport_start r, sc_cursor r, sc_saved_cursor r, sc_oldest_available r, sc_newest_available r, sc_included_start r, sc_included_end r, sc_scroll_margin_top r, sc_scroll_margin_bottom r, sc_scroll_margin_left r, sc_scroll_margin_right r, sc_tab_stops r))
    (fun '(a0, a1, a2, a3, a4, a5, a6, a7, a8, a9, a10, a11, a12) => mkScreen a0 a1 a2 a3 a4 a5 a6 a7 a8 a9 a10 a11 a12) _). by intros [].
Defined.
#[global] Instance Color_countable : Countable Color.
Proof.
  refine (inj_countable' (fun r => (col_value r))
    (fun a0 => mkColor a0) _). by intros [].
Defined.
#[global] Instance Style_countable : Countable Style.
Proof.
  refine (inj_countable' (fun r => (sty_id r, sty_foreground r, sty_background r, sty_underline_color r, sty_intensity r, sty_underline r, sty_blink r, sty_italic r, sty_reverse r, sty_strikethrough r, sty_invisible r, sty_overline r, sty_semantic_type r, sty_vertical_align r))
    (fun '(a0, a1, a2, a3, a4, a5, a6, a7, a8, a9, a10, a11, a12, a13) => mkStyle a0 a1 a2 a3 a4 a5 a6 a7 a8 a9 a10 a11 a12 a13) _). by intros [].
Defined.
#[global] Instance Hyperlink_countable : Countable Hyperlink.
Proof.
  refine (inj_countable' (fun r => (hl_id r, hl_uri r, hl_explicit_id r))
    (fun '(a0, a1, a2) => mkHyperlink a0 a1 a2) _). by intros [].
Defined.
#[global] Instance Modes_countable : Countable Modes.
Proof.
  refine (inj_countable' (fun r => (md_application_cursor_keys r, md_application_keypad r, md_bracketed_paste r, md_focus_tracking r, md_origin r, md_insert r, md_auto_wrap r, md_reverse_wraparound r, md_newline r, md_left_right_margin r, md_reverse_video r, md_mouse_tracking r, md_mouse_encoding r, md_keyboard_encoding r, md_keyboard_flags r, md_alternate_scroll r))
    (fun '(a0, a1, a2, a3, a4, a5, a6, a7, a8, a9, a10, a11, a12, a13, a14, a15) => mkModes a0 a1 a2 a3 a4 a5 a6 a7 a8 a9 a10 a11 a12 a13 a14 a15) _). by intros [].
Defined.
#[global] Instance Palette_countable : Countable Palette.
Proof.
  refine (inj_countable' (fun r => (pal_indexed_rgb r, pal_foreground_rgb r, pal_background_rgb r, pal_cursor_fg_rgb r, pal_cursor_bg_rgb r, pal_selection_fg_rgb r, pal_selection_bg_rgb r))
    (fun '(a0, a1, a2, a3, a4, a5, a6) => mkPalette a0 a1 a2 a3 a4 a5 a6) _). by intros [].
Defined.
#[global] Instance State_countable : Countable State.
Proof.
  refine (inj_countable' (fun r => (st_schema_version r, st_epoch r, st_generation r, st_rows r, st_cols r, st_primary r, st_alternate r, st_active_screen r, st_styles r, st_hyperlinks r, st_modes r, st_title r, st_working_directory r, st_palette r))
    (fun '(a0, a1, a2, a3, a4, a5, a6, a7, a8, a9, a10, a11, a12, a13) => mkState a0 a1 a2 a3 a4 a5 a6 a7 a8 a9 a10 a11 a12 a13) _). by intros [].
Defined.
#[global] Instance HistoryPage_eq_dec : EqDecision HistoryPage.
Proof. solve_decision. Defined.
#[global] Instance HistoryPage_countable : Countable HistoryPage.
Proof.
  refine (inj_countable' (fun r => (hp_request_id r, hp_epoch r, hp_generation r, hp_cols r, hp_included_rows r, hp_oldest_available r, hp_newest_available r, hp_included_start r, hp_included_end r, hp_styles r, hp_hyperlinks r, hp_more_before r, hp_reset_required r))
    (fun '(a0, a1, a2, a3, a4, a5, a6, a7, a8, a9, a10, a11, a12) => mkHistoryPage a0 a1 a2 a3 a4 a5 a6 a7 a8 a9 a10 a11 a12) _). by intros [].
Defined.

Definition number {A} `{Countable A} (a : A) : bytes := [Npos (encode a)].
Definition unnumber {A} `{Countable A} (b : bytes) : result A :=
  match b with
  | [Npos p] => ok_or (decode p) "not a message"
  | _ => Err "not a message"
  end.
Lemma unnumber_number {A} `{Countable A} (a : A) : unnumber (number a) = Ok a.
Proof. unfold unnumber, number. by rewrite decode_encode. Qed.

Definition ex_wire_lib : WireLib := {|
  wire_sync_lib := {|
    sync_state_lib := {| state_encoded_len := fun _ => 1; page_encoded_len := fun _ => 1;
                         grapheme_count := fun s => N.of_nat (String.length s) |};
    diff_encoded_len := fun _ => 0 |};
  wire_payload_lib := ex_payload_lib;
  state_to_vec := number; state_decode := unnumber;
  page_to_vec := number; page_decode := unnumber;
  diff_to_vec := fun _ => []
|}.
Lemma ex_wire_laws : @WireLaws ex_wire_lib.
Proof.
  split.
  - exact ex_payload_laws.
  - intros s. apply unnumber_number.
  - done.
  - intros p. apply unnumber_number.
  - done.
Qed.

(** ** Theorems *)

(** A keyframe split by the server is reassembled by the client: the
    chunks may arrive in any order after the first and be repeated, every push
    before the last missing chunk answers [None] without an error, and that one
    yields exactly the state that was sent, leaving the assembler idle. *)
Theorem keyframe_transfer `{WireLaws} tid s zstd chunks l c :
  llen tid = 16 -> validate s = Ok tt -> terminal_state_chunks tid s zstd = Ok chunks ->
  delivery chunks l c ->
  state_push_all (with_zstd zstd) (l ++ [c]) =
    (with_zstd zstd, replicate (length l) (Ok None) ++ [Ok (Some s)]).
Proof.
  intros Htid Hv Hc Hd. unfold terminal_state_chunks in Hc. do 2 ok_step Hc.
  rewrite state_push_all_eq.
  rewrite (transfer_delivers tid (state_to_vec s) zstd MAX_ENCODED_STATE_BYTES a chunks l c); [|done..].
  rewrite fmap_app, fmap_replicate. cbn. rewrite state_roundtrip. cbn. by rewrite Hv.
Qed.

Definition ex_tid : bytes := replicate 16 9.
Definition ex_chunk (b : bytes) : TransferChunk :=
  mkChunk ex_tid 0 1 1 (@sha256 ex_payload_lib b) b 0 0.
Lemma ex_delivery (b : bytes) : delivery [ex_chunk b] [] (ex_chunk b).
Proof. split_and!; [left|constructor|apply not_elem_of_nil|done|done]. Qed.

Lemma keyframe_transfer_witness :
  @validate (@sync_state_lib (@wire_sync_lib ex_wire_lib)) (ex_state 1 ex_rows1) = Ok tt /\
  @state_push_all ex_wire_lib (with_zstd true) [ex_chunk (number (ex_state 1 ex_rows1))] =
    (with_zstd true, [Ok (Some (ex_state 1 ex_rows1))]).
Proof.
  split; [vm_compute; reflexivity|].
  apply (@keyframe_transfer ex_wire_lib ex_wire_laws ex_tid (ex_state 1 ex_rows1) true
    [ex_chunk (number (ex_state 1 ex_rows1))] [] (ex_chunk (number (ex_state 1 ex_rows1)))).
  - reflexivity.
  - vm_compute. reflexivity.
  - reflexivity.
  - apply ex_delivery.
Defined.

(** The same for a page of history, with its own size limit. *)
Theorem history_page_transfer `{WireLaws} tid page zstd chunks l c :
  llen tid = 16 -> validate_history_page page = Ok tt -> history_page_chunks tid page zstd = Ok chunks ->
  delivery chunks l c ->
  page_push_all (with_zstd zstd) (l ++ [c]) =
    (with_zstd zstd, replicate (length l) (Ok None) ++ [Ok (Some page)]).
Proof.
  intros Htid Hv Hc Hd. unfold history_page_chunks in Hc. do 2 ok_step Hc.
  rewrite page_push_all_eq.
  rewrite (transfer_delivers tid (page_to_vec page) zstd MAX_ENCODED_HISTORY_PAGE_BYTES a chunks l c);
    [|done..].
  rewrite fmap_app, fmap_replicate. cbn. rewrite page_roundtrip. cbn. by rewrite Hv.
Qed.

Definition ex_page : HistoryPage :=
  mkHistoryPage 1 (replicate 16 7) 1 3 [] (Some (mkAnchor 1 0)) (Some (mkAnchor 1 0)) None None [] []
    false false.
Lemma history_page_transfer_witness :
  @page_push_all ex_wire_lib (with_zstd false) [ex_chunk (number ex_page)] =
    (with_zstd false, [Ok (Some ex_page)]).
Proof.
  apply (@history_page_transfer ex_wire_lib ex_wire_laws ex_tid ex_page false
    [ex_chunk (number ex_page)] [] (ex_chunk (number ex_page))).
  - reflexivity.
  - vm_compute. reflexivity.
  - reflexivity.
  - apply ex_delivery.
Defined.
