(* ===== verification/DatagramV3.v ===== *)
(** * Fragmented viewport transfers (src/src/terminal_datagram_v3.rs)

    A viewport delta that does not fit one QUIC datagram is encoded once and cut
    into balanced fragments.  The protobuf codec, zstd and SHA-256 are
    operations of [DatagramLib]; [DatagramLaws] states what the code relies on:
    the layout of the two messages whose size it computes itself, and that
    decoding undoes encoding. *)
From S2P Require Import Prelude TerminalState TerminalSync Payload ViewportDelta.
Open Scope N_scope.

Definition MAX_WORKING_BYTES : N := 65535.
Definition MAX_FRAGMENTS : N := 128.
(** ["astra-viewport-v3"] *)
Definition ID_DOMAIN : bytes :=
  Ascii.N_of_ascii <$> String.list_ascii_of_string "astra-viewport-v3".

Record ViewportTransfer := mkTransfer {
  vt_terminal_id : string;
  vt_attachment_id : string;
  vt_header : TerminalViewportFragment;
  vt_encoded : bytes
}.

Inductive TerminalViewportFragmentEncoding := FragmentEncoding_Raw | FragmentEncoding_Zstd.
Definition fragment_encoding_i32 (e : TerminalViewportFragmentEncoding) : Z :=
  match e with FragmentEncoding_Raw => 0 | FragmentEncoding_Zstd => 1 end.
Definition FragmentEncoding_try_from : Z -> result TerminalViewportFragmentEncoding :=
  enum_try_from [(0%Z, FragmentEncoding_Raw); (1%Z, FragmentEncoding_Zstd)]
    "unknown viewport fragment encoding".

Class DatagramLib := {
  datagram_payload_lib :: PayloadLib;
  datagram_to_vec : TerminalViewportDatagram -> bytes;
  datagram_decode : bytes -> result TerminalViewportDatagram;
  datagram_encoded_len : TerminalViewportDatagram -> N;
  fragment_encoded_len : TerminalViewportFragment -> N;
  (** [Compressor::new(1)?.compress_to_buffer(raw, buffer)]: [None] when the
      result does not fit the buffer. *)
  zstd_compress_to : bytes -> N -> result (option bytes)
}.

(** ** Small helpers *)

Definition working_bytes_fit (raw encoded : N) : bool :=
  (0 <? raw) && (0 <? encoded) &&
  match (v ← checked_mul U64_MAX encoded 2; v ← checked_add U64_MAX v raw; checked_add U64_MAX v 1) with
  | Some v => v <=? MAX_WORKING_BYTES
  | None => false
  end.

Definition balanced_range (index count total : N) : N * N :=
  (index * total / count, (index + 1) * total / count).
(** [encoded[range]] *)
Definition slice (l : bytes) (range : N * N) : bytes :=
  take (N.to_nat (range.2 - range.1)) (drop (N.to_nat range.1) l).

(** The loop of [varint_len]: a [usize] is shifted out in ten steps. *)
Fixpoint varint_len_from (fuel : nat) (value bytes : N) : N :=
  match fuel with
  | O => bytes
  | S fuel => if 128 <=? value then varint_len_from fuel (N.shiftr value 7) (bytes + 1) else bytes
  end.
Definition varint_len (value : N) : N := varint_len_from 10 value 1.

Definition set_fragment (h : TerminalViewportFragment) (id : bytes) (index count : N) (data : bytes)
    : TerminalViewportFragment :=
  mkFragment (fr_epoch h) (fr_base_generation h) (fr_target_generation h) id index count
    (fr_total_encoded h) (fr_raw_length h) (fr_encoding h) (fr_sha256 h) data.
Definition set_count (t : ViewportTransfer) (count : N) : ViewportTransfer :=
  mkTransfer (vt_terminal_id t) (vt_attachment_id t)
    (set_fragment (vt_header t) (fr_transfer_id (vt_header t)) (fr_index (vt_header t)) count
       (fr_data (vt_header t))) (vt_encoded t).
Definition set_transfer_id (t : ViewportTransfer) (id : bytes) : ViewportTransfer :=
  mkTransfer (vt_terminal_id t) (vt_attachment_id t)
    (set_fragment (vt_header t) id (fr_index (vt_header t)) (fr_count (vt_header t))
       (fr_data (vt_header t))) (vt_encoded t).

Section datagram.
Context `{DatagramLib}.

Definition transfer_id (header : TerminalViewportFragment) : bytes :=
  take 16 (sha256 (ID_DOMAIN ++ fr_sha256 header
    ++ concat (to_be_bytes <$> [Z.to_N (fr_encoding header); fr_total_encoded header;
                                fr_raw_length header; fr_count header]))).

Definition packet_len (t : ViewportTransfer) (index : N) : N :=
  let h := vt_header t in
  let header := set_fragment h (fr_transfer_id h) index (fr_count h) (fr_data h) in
  let range := balanced_range index (fr_count header) (llen (vt_encoded t)) in
  let data_length := range.2 - range.1 in
  let inner := fragment_encoded_len header + 1 + varint_len data_length + data_length in
  let outer_route := 1 + varint_len (slen (vt_terminal_id t)) + slen (vt_terminal_id t)
                     + 1 + varint_len (slen (vt_attachment_id t)) + slen (vt_attachment_id t) in
  outer_route + 1 + varint_len inner + inner.

(** [TerminalViewportDatagram] with the route, the fragment and defaults. *)
Definition fragment_datagram (terminal_id attachment_id : string) (f : TerminalViewportFragment)
    : TerminalViewportDatagram :=
  mkDatagram terminal_id attachment_id None 0 false [] [] (Some f).

(** A failed [assert!] is a panic. *)
Definition packet (t : ViewportTransfer) (index : N) : result TerminalViewportDatagram :=
  let h := vt_header t in
  if negb (index <? fr_count h) then panic
  else
    let range := balanced_range index (fr_count h) (llen (vt_encoded t)) in
    Ok (fragment_datagram (vt_terminal_id t) (vt_attachment_id t)
          (set_fragment h (fr_transfer_id h) index (fr_count h) (slice (vt_encoded t) range))).

Definition transfer_count (t : ViewportTransfer) : N := fr_count (vt_header t).
Definition route (t : ViewportTransfer) : string * string := (vt_terminal_id t, vt_attachment_id t).

(** The inner loop of [prepare]: [None] when a packet exceeds the budget. *)
Fixpoint wire_bytes_from (t : ViewportTransfer) (budget : N) (indices : list N) (acc : N)
    : result (option N) :=
  match indices with
  | [] => Ok (Some acc)
  | index :: indices =>
      let size := packet_len t index in
      if budget <? size then Ok None
      else
        acc ← ok_or (checked_add U64_MAX acc size) "viewport wire size overflow";
        wire_bytes_from t budget indices acc
  end.

(** [0..n] and [1..=n] of [u32] *)
Definition range0 (n : N) : list N := N.of_nat <$> seq 0 (N.to_nat n).
Definition range1 (n : N) : list N := N.of_nat <$> seq 1 (N.to_nat n).

(** The outer loop: the first fragment count for which every packet fits. *)
Fixpoint choose_count (t : ViewportTransfer) (budget keyframe_bytes : N) (counts : list N)
    : result (option ViewportTransfer) :=
  match counts with
  | [] => Ok None
  | count :: counts =>
      let t := set_count t count in
      wire ← wire_bytes_from t budget (range0 count) 0;
      match wire with
      | Some wire_bytes =>
          if keyframe_bytes <=? wire_bytes then Ok None
          else Ok (Some (set_transfer_id t (transfer_id (vt_header t))))
      | None => choose_count t budget keyframe_bytes counts
      end
  end.

(** The encoding of the raw delta: compressed when that saves enough. *)
Definition choose_encoding (raw : bytes) (maximum_encoded : N)
    : result (TerminalViewportFragmentEncoding * bytes) :=
  compressed ← (if 1024 <=? llen raw then zstd_compress_to raw maximum_encoded else Ok None);
  Ok match compressed with
     | Some bytes =>
         if saturating_add U64_MAX (llen bytes) (N.max 64 (div_ceil (llen raw) 20)) <=? llen raw
         then (FragmentEncoding_Zstd, bytes) else (FragmentEncoding_Raw, raw)
     | None => (FragmentEncoding_Raw, raw)
     end.

Definition prepare (delta : TerminalViewportDatagram) (payload_budget keyframe_bytes : N)
    : result (option ViewportTransfer) :=
  let raw_length := datagram_encoded_len delta in
  if (raw_length =? 0) || (MAX_WORKING_BYTES <=? raw_length) || (payload_budget =? 0) then Ok None else
  ensure! is_none (dg_fragment delta), "nested viewport fragment";
  ensure! negb (bool_decide (dg_terminal_id delta = "")) && negb (bool_decide (dg_attachment_id delta = "")),
    "empty viewport route";
  diff ← ok_or (dg_diff delta) "viewport transfer has no diff";
  ensure! (llen (tsd_epoch diff) =? 16) && (0 <? tsd_base_generation diff)
          && (tsd_base_generation diff <? tsd_target_generation diff),
    "invalid viewport transfer generation";
  let maximum_encoded := (MAX_WORKING_BYTES - raw_length - 1) / 2 in
  if maximum_encoded =? 0 then Ok None else
  let raw := datagram_to_vec delta in
  let digest := sha256 raw in
  '(encoding, encoded) ← choose_encoding raw maximum_encoded;
  if negb (working_bytes_fit raw_length (llen encoded)) then Ok None else
  total_encoded ← try_u32 (llen encoded);
  raw_length ← try_u32 raw_length;
  let transfer := mkTransfer (dg_terminal_id delta) (dg_attachment_id delta)
    (mkFragment (tsd_epoch diff) (tsd_base_generation diff) (tsd_target_generation diff)
       (replicate 16 0) 0 1 total_encoded raw_length (fragment_encoding_i32 encoding) digest [])
    encoded in
  choose_count transfer payload_budget keyframe_bytes (range1 (N.min MAX_FRAGMENTS total_encoded)).

(** [decode_for_test]: how a receiver undoes [prepare]. *)
Definition decode_transfer (t : ViewportTransfer) : result TerminalViewportDatagram :=
  e ← FragmentEncoding_try_from (fr_encoding (vt_header t));
  let payload_encoding := match e with
                          | FragmentEncoding_Raw => PayloadEncoding_None
                          | FragmentEncoding_Zstd => PayloadEncoding_Zstd
                          end in
  raw ← payload_decode (mkPayload (vt_encoded t) (encoding_i32 payload_encoding)
           (if bool_decide (payload_encoding = PayloadEncoding_Zstd) then fr_raw_length (vt_header t) else 0))
         true MAX_WORKING_BYTES (fr_sha256 (vt_header t));
  ensure! llen raw =? fr_raw_length (vt_header t), "wrong raw length";
  datagram_decode raw.
End datagram.

Class DatagramLaws `{DatagramLib} := {
  datagram_payload_laws :: PayloadLaws;
  datagram_roundtrip : forall d, datagram_decode (datagram_to_vec d) = Ok d;
  datagram_len : forall d, datagram_encoded_len d = llen (datagram_to_vec d);
  (** Field 11 of a fragment is a length-delimited byte string with a one-byte
      tag, omitted when empty. *)
  fragment_len_data : forall h data, data <> [] -> fr_data h = [] ->
    fragment_encoded_len (set_fragment h (fr_transfer_id h) (fr_index h) (fr_count h) data) =
    fragment_encoded_len h + 1 + varint_len (llen data) + llen data;
  (** The transfer identifier has a fixed length on the wire. *)
  fragment_len_id : forall h id, llen id = llen (fr_transfer_id h) ->
    fragment_encoded_len (set_fragment h id (fr_index h) (fr_count h) (fr_data h)) = fragment_encoded_len h;
  (** Fields 1, 2 and 8 of a datagram are length-delimited with one-byte tags. *)
  fragment_datagram_len : forall tid aid f, tid <> ""%string -> aid <> ""%string ->
    datagram_encoded_len (fragment_datagram tid aid f) =
    1 + varint_len (slen tid) + slen tid + 1 + varint_len (slen aid) + slen aid
    + 1 + varint_len (fragment_encoded_len f) + fragment_encoded_len f;
  compress_to_bound : forall raw n c, zstd_compress_to raw n = Ok (Some c) ->
    llen c <= n /\ take 4 c = ZSTD_MAGIC /\
    forall limit, llen raw < limit -> zstd_read c limit = Ok (raw, [])
}.
