(* ===== verification/DatagramV3Spec.v ===== *)
(** * Fragments fit and reassemble *)
From S2P Require Import Prelude TerminalState TerminalSync Payload ViewportDelta Transfer.
From S2P Require Import TransferSpec DatagramV3.
Open Scope N_scope.

(** ** Arithmetic of the fragments *)

Lemma balanced_step index count total :
  0 < count -> count <= total ->
  index * total / count + 1 <= (index + 1) * total / count.
Proof.
  intros Hc Ht. rewrite <- N.div_add by lia. rewrite N.mul_1_l.
  apply N.Div0.div_le_mono. nia.
Qed.
Lemma balanced_mono index count total :
  index * total / count <= (index + 1) * total / count.
Proof. apply N.Div0.div_le_mono. nia. Qed.
Lemma balanced_last index count total :
  0 < count -> index < count -> (index + 1) * total / count <= total.
Proof.
  intros Hc Hi. apply N.Div0.div_le_upper_bound. nia.
Qed.

Lemma slices_concat l count n :
  (n <= N.to_nat count)%nat ->
  concat ((fun i => slice l (balanced_range (N.of_nat i) count (llen l))) <$> seq 0 n) =
  take (N.to_nat (N.of_nat n * llen l / count)) l.
Proof.
  induction n as [|n IH]; intros Hn.
  { cbn. rewrite N.Div0.div_0_l. done. }
  rewrite seq_S, fmap_app, concat_app, IH by lia. cbn [fmap list_fmap concat Nat.add].
  rewrite app_nil_r. unfold slice, balanced_range. cbn [fst snd]. rewrite take_take_drop. f_equal.
  pose proof (balanced_mono (N.of_nat n) count (llen l)).
  replace (N.of_nat (S n)) with (N.of_nat n + 1) by lia. lia.
Qed.

Lemma slice_length l range :
  range.1 <= range.2 -> range.2 <= llen l -> llen (slice l range) = range.2 - range.1.
Proof. unfold slice, llen. intros H1 H2. rewrite length_take, length_drop. lia. Qed.

Lemma varint_len_from_spec fuel : forall value bytes,
  value < 128 * 128 ^ N.of_nat fuel ->
  exists k, varint_len_from fuel value bytes = bytes + k /\ value < 128 ^ (k + 1) /\
    (k = 0 \/ 128 ^ k <= value).
Proof.
  induction fuel as [|fuel IH]; intros value bytes Hv; cbn [varint_len_from].
  - exists 0. cbn in Hv. split_and!; [lia|cbn; lia|by left].
  - destruct (N.leb_spec 128 value) as [Hle|Hlt].
    + destruct (IH (N.shiftr value 7) (bytes + 1)) as (k & Hk & Hlo & Hhi).
      { rewrite N.shiftr_div_pow2. change (2 ^ 7) with 128. apply N.Div0.div_lt_upper_bound.
        rewrite Nat2N.inj_succ, N.pow_succ_r' in Hv. lia. }
      rewrite N.shiftr_div_pow2 in Hlo, Hhi. change (2 ^ 7) with 128 in *.
      pose proof (N.div_mod value 128 ltac:(lia)). pose proof (N.mod_lt value 128 ltac:(lia)).
      exists (k + 1). split_and!; [lia| |right].
      * replace (k + 1 + 1) with (N.succ (k + 1)) by lia. rewrite N.pow_succ_r'. nia.
      * replace (k + 1) with (N.succ k) by lia. rewrite N.pow_succ_r'.
        destruct Hhi as [->|Hhi]; [rewrite N.pow_0_r; lia|].
        etrans; [apply N.mul_le_mono_l; exact Hhi|]. apply N.Div0.mul_div_le.
    + exists 0. split_and!; [lia|cbn; lia|by left].
Qed.

Lemma varint_len_spec value :
  value <= U64_MAX -> value < 128 ^ varint_len value /\
  (varint_len value = 1 \/ 128 ^ (varint_len value - 1) <= value).
Proof.
  intros Hv. destruct (varint_len_from_spec 10 value 1) as (k & Hk & Hlo & Hhi).
  { unfold U64_MAX in Hv. cbn. lia. }
  unfold varint_len. rewrite Hk. replace (1 + k) with (k + 1) by lia. split; [done|].
  destruct Hhi as [->|Hhi]; [by left|right]. by replace (k + 1 - 1) with k by lia.
Qed.

(** ** The loops of [prepare] *)

Section fragments.
Context `{DatagramLaws}.

Definition sum_over (f : N -> N) (l : list N) : N := foldr (fun i n => f i + n) 0 l.

Lemma wire_bytes_from_Some t budget indices acc w :
  wire_bytes_from t budget indices acc = Ok (Some w) ->
  Forall (fun i => packet_len t i <= budget) indices /\ w = acc + sum_over (packet_len t) indices.
Proof using.
  unfold sum_over. revert acc. induction indices as [|i indices IH]; intros acc Hw; cbn [wire_bytes_from] in Hw.
  { ok_inv Hw. split; [constructor|cbn; lia]. }
  ok_step Hw. ok_step Hw. ok_inv Hr. apply checked_add_Some in Ho as [-> _].
  apply IH in Hw as [Hall ->]. bool_prop. split; [by constructor|]. cbn [foldr]. lia.
Qed.

Lemma choose_count_Some t budget keyframe counts t' :
  choose_count t budget keyframe counts = Ok (Some t') ->
  exists count, count ∈ counts /\
    t' = set_transfer_id (set_count t count) (transfer_id (vt_header (set_count t count))) /\
    Forall (fun i => packet_len (set_count t count) i <= budget) (range0 count) /\
    sum_over (packet_len (set_count t count)) (range0 count) < keyframe.
Proof using.
  revert t. induction counts as [|count counts IH]; intros t Hc; cbn [choose_count] in Hc; [done|].
  ok_step Hc. destruct a as [w|].
  - apply wire_bytes_from_Some in Hr as [Hall ->]. ok_step Hc. ok_inv Hc. bool_prop.
    exists count. split_and!; [left|done|done|lia].
  - apply IH in Hc as (c & Hin & Hc). exists c. split; [by right|]. exact Hc.
Qed.

(** What [prepare] returns. *)
Record prepared (delta : TerminalViewportDatagram) (budget keyframe : N) (t : ViewportTransfer) : Prop := {
  prep_route : route t = (dg_terminal_id delta, dg_attachment_id delta) /\
    (dg_terminal_id delta <> "") /\ (dg_attachment_id delta <> "");
  prep_count : 1 <= transfer_count t <= MAX_FRAGMENTS;
  prep_total : transfer_count t <= llen (vt_encoded t) /\ fr_total_encoded (vt_header t) = llen (vt_encoded t);
  prep_data : fr_data (vt_header t) = [];
  prep_id : llen (fr_transfer_id (vt_header t)) = 16;
  prep_working : fr_raw_length (vt_header t) + 2 * llen (vt_encoded t) + 1 <= MAX_WORKING_BYTES;
  prep_raw : 0 < fr_raw_length (vt_header t) /\
    fr_raw_length (vt_header t) = llen (datagram_to_vec delta) /\
    fr_sha256 (vt_header t) = sha256 (datagram_to_vec delta);
  prep_fits : Forall (fun i => packet_len t i <= budget) (range0 (transfer_count t)) /\
    sum_over (packet_len t) (range0 (transfer_count t)) < keyframe;
  prep_encoding :
    (fr_encoding (vt_header t) = 0%Z /\ vt_encoded t = datagram_to_vec delta) \/
    (fr_encoding (vt_header t) = 1%Z /\ exists n,
       zstd_compress_to (datagram_to_vec delta) n = Ok (Some (vt_encoded t)))
}.

Lemma packet_len_transfer_id t id i :
  fr_data (vt_header t) = [] -> llen id = llen (fr_transfer_id (vt_header t)) ->
  packet_len (set_transfer_id t id) i = packet_len t i.
Proof.
  intros Hd Hid. unfold packet_len. cbn [set_transfer_id vt_header vt_encoded vt_terminal_id vt_attachment_id].
  set (h := vt_header t) in *.
  pose proof (fragment_len_id (set_fragment h (fr_transfer_id h) i (fr_count h) (fr_data h)) id Hid) as Hl.
  unfold set_fragment in *. cbn in *. by rewrite Hl.
Qed.

Lemma choose_encoding_Ok raw n enc encoded :
  choose_encoding raw n = Ok (enc, encoded) ->
  (fragment_encoding_i32 enc = 0%Z /\ encoded = raw) \/
  (fragment_encoding_i32 enc = 1%Z /\ zstd_compress_to raw n = Ok (Some encoded)).
Proof using.
  unfold choose_encoding. intros Hc. ok_step Hc. ok_step Hr.
  - destruct a as [b|]; [|ok_inv Hc; simplify_eq; by left].
    injection Hc as Hc. destruct (saturating_add _ _ _ <=? _) in Hc; simplify_eq; [by right|by left].
  - ok_inv Hr. ok_inv Hc. simplify_eq. by left.
Qed.

Lemma working_bytes_fit_spec raw encoded :
  working_bytes_fit raw encoded = true -> 0 < encoded /\ raw + 2 * encoded + 1 <= MAX_WORKING_BYTES.
Proof using.
  unfold working_bytes_fit. intros Hw. apply andb_prop in Hw as [Hpos Hw]. bool_prop.
  unfold checked_mul in Hw. destruct (_ <=? U64_MAX); cbn in Hw; [|done].
  destruct (checked_add U64_MAX _ raw) as [v|] eqn:E1; cbn in Hw; [|done].
  destruct (checked_add U64_MAX v 1) as [v'|] eqn:E2; [|done].
  apply checked_add_Some in E1 as [-> _], E2 as [-> _]. bool_prop. lia.
Qed.

Lemma elem_of_range1 n k : k ∈ range1 n -> 1 <= k <= n.
Proof using. unfold range1. intros (i & -> & Hi%elem_of_seq)%list_elem_of_fmap. lia. Qed.

Lemma transfer_id_length h : llen (transfer_id h) = 16.
Proof.
  unfold transfer_id. match goal with |- context [sha256 ?x] => pose proof (sha256_length x) as Hs end.
  unfold llen in *. rewrite length_take. lia.
Qed.

Lemma prepare_Some delta budget keyframe t :
  prepare delta budget keyframe = Ok (Some t) -> prepared delta budget keyframe t.
Proof.
  unfold prepare. intros Hp. ok_step Hp. do 3 ok_step Hp. ok_inv Hr. do 2 ok_step Hp.
  ok_step Hp. destruct a0 as [enc encoded]. ok_step Hp.
  do 2 ok_step Hp. unfold try_u32 in Hr0, Hr1. ok_inv Hr0. ok_inv Hr1.
  apply choose_count_Some in Hp as (count & Hin & -> & Hfits & Hsum).
  apply elem_of_range1 in Hin. apply choose_encoding_Ok in Hr. bool_prop.
  apply working_bytes_fit_spec in Hb4 as [Hpos Hwork].
  set (t0 := set_count _ count) in *.
  assert (Hlen : llen (transfer_id (vt_header t0)) = llen (fr_transfer_id (vt_header t0))).
  { by rewrite transfer_id_length. }
  split; try (cbn; done).
  - cbn. unfold MAX_FRAGMENTS in *. lia.
  - cbn. lia.
  - cbn. rewrite <- datagram_len. split_and!; [lia|done|done].
  - split.
    + eapply Forall_impl; [exact Hfits|]. intros i Hi. cbn beta in *.
      by rewrite (packet_len_transfer_id t0).
    + enough (sum_over (packet_len (set_transfer_id t0 (transfer_id (vt_header t0))))
        (range0 (transfer_count (set_transfer_id t0 (transfer_id (vt_header t0))))) =
        sum_over (packet_len t0) (range0 count)) by lia.
      unfold sum_over. change (transfer_count _) with count.
      clear Hsum Hfits. induction (range0 count) as [|i l IH]; cbn [foldr]; [done|].
      by rewrite IH, (packet_len_transfer_id t0).
  - destruct Hr as [[He ->]|[He Hc]]; [by left|right]. split; [done|]. eauto.
Qed.

(** The size computed without building a packet is the size of the packet. *)
Lemma packet_size delta budget keyframe t i :
  prepared delta budget keyframe t -> i < transfer_count t ->
  exists d, packet t i = Ok d /\ datagram_encoded_len d = packet_len t i /\
    exists f, dg_fragment d = Some f /\ fr_index f = i /\
      fr_data f = slice (vt_encoded t) (balanced_range i (transfer_count t) (llen (vt_encoded t))).
Proof.
  intros [[Hroute [Ht Ha]] Hcount [Htotal _] Hdata _ _ _ _ _] Hi. unfold transfer_count in *.
  unfold packet. rewrite (proj2 (N.ltb_lt _ _)) by done. cbn [negb].
  eexists. split; [done|]. split; [|eexists; split; [done|]; done].
  unfold route in Hroute. injection Hroute as Hr1 Hr2.
  rewrite fragment_datagram_len by congruence. unfold packet_len.
  set (h := vt_header t) in *. set (range := balanced_range i (fr_count h) (llen (vt_encoded t))).
  assert (Hrange : range.1 + 1 <= range.2 /\ range.2 <= llen (vt_encoded t)).
  { split; [apply balanced_step; lia|apply balanced_last; lia]. }
  assert (Hlen : llen (slice (vt_encoded t) range) = range.2 - range.1) by (apply slice_length; lia).
  set (h' := set_fragment h (fr_transfer_id h) i (fr_count h) (fr_data h)).
  pose proof (fragment_len_data h' (slice (vt_encoded t) range)) as Hf.
  change (fr_count h') with (fr_count h). rewrite Hlen in Hf.
  change (set_fragment h (fr_transfer_id h) i (fr_count h) (slice (vt_encoded t) range)) with
    (set_fragment h' (fr_transfer_id h') (fr_index h') (fr_count h') (slice (vt_encoded t) range)).
  fold range. rewrite Hf; [done| |done].
  intros Hnil. rewrite Hnil in Hlen. rewrite llen_nil in Hlen. lia.
Qed.

Lemma decode_prepared delta budget keyframe t :
  prepared delta budget keyframe t -> decode_transfer t = Ok delta.
Proof.
  intros [_ [Hc1 _] [Hc2 _] _ _ Hwork (Hpos & Hraw & Hsha) _ Henc]. unfold decode_transfer.
  unfold MAX_WORKING_BYTES in *.
  destruct Henc as [[He Hd]|[He [n Hc]]]; rewrite He, Hsha; cbn [FragmentEncoding_try_from enum_try_from
    Z.eqb Pos.eqb mbind result_bind encoding_i32].
  - rewrite (bool_decide_eq_false_2 (PayloadEncoding_None = _)) by done.
    rewrite Hd, decode_raw by lia. cbn [mbind result_bind]. rewrite Hraw, N.eqb_refl. apply datagram_roundtrip.
  - apply compress_to_bound in Hc as (_ & Hmagic & Hread).
    rewrite (bool_decide_eq_true_2 (PayloadEncoding_Zstd = _)) by done.
    rewrite Hraw, decode_zstd; [|lia|lia|lia|done|apply Hread; lia].
    cbn [mbind result_bind]. rewrite N.eqb_refl. apply datagram_roundtrip.
Qed.
End fragments.

(** ** A concrete format

    A datagram is its number, padded to the size the layout of the message
    prescribes. *)
#[global] Instance RowSource_eq_dec : EqDecision RowSource.
Proof. solve_decision. Defined.
#[global] Instance RowSource_countable : Countable RowSource.
Proof.
  refine (inj_countable' (fun v => match v with BaseAnchor a => inl a | Replacement r => inr r end)
    (fun v => match v with inl a => BaseAnchor a | inr r => Replacement r end) _).
  by intros [].
Defined.
#[global] Instance TerminalStateRow_eq_dec : EqDecision TerminalStateRow.
Proof. solve_decision. Defined.
#[global] Instance TerminalStateRow_countable : Countable TerminalStateRow.
Proof.
  refine (inj_countable' (fun r => (tsr_source r))
    (fun a0 => mkStateRow a0) _). by intros [].
Defined.
#[global] Instance TerminalStateDiff_eq_dec : EqDecision TerminalStateDiff.
Proof. solve_decision. Defined.
#[global] Instance TerminalStateDiff_countable : Countable TerminalStateDiff.
Proof.
  refine (inj_countable' (fun r => (tsd_epoch r, tsd_base_generation r, tsd_target_generation r, tsd_target_metadata r, tsd_primary_rows r, tsd_alternate_rows r))
    (fun '(a0, a1, a2, a3, a4, a5) => mkDiff a0 a1 a2 a3 a4 a5) _). by intros [].
Defined.
#[global] Instance TerminalViewportRowPatch_eq_dec : EqDecision TerminalViewportRowPatch.
Proof. solve_decision. Defined.
#[global] Instance TerminalViewportRowPatch_countable : Countable TerminalViewportRowPatch.
Proof.
  refine (inj_countable' (fun r => (rp_index r, rp_base_index r, rp_metadata r, rp_cell_start r, rp_delete_count r, rp_cells r))
    (fun '(a0, a1, a2, a3, a4, a5) => mkPatch a0 a1 a2 a3 a4 a5) _). by intros [].
Defined.
#[global] Instance TerminalViewportFragment_eq_dec : EqDecision TerminalViewportFragment.
Proof. solve_decision. Defined.
#[global] Instance TerminalViewportFragment_countable : Countable TerminalViewportFragment.
Proof.
  refine (inj_countable' (fun r => (fr_epoch r, fr_base_generation r, fr_target_generation r, fr_transfer_id r, fr_index r, fr_count r, fr_total_encoded r, fr_raw_length r, fr_encoding r, fr_sha256 r, fr_data r))
    (fun '(a0, a1, a2, a3, a4, a5, a6, a7, a8, a9, a10) => mkFragment a0 a1 a2 a3 a4 a5 a6 a7 a8 a9 a10) _). by intros [].
Defined.
#[global] Instance TerminalViewportDatagram_eq_dec : EqDecision TerminalViewportDatagram.
Proof. solve_decision. Defined.
#[global] Instance TerminalViewportDatagram_countable : Countable TerminalViewportDatagram.
Proof.
  refine (inj_countable' (fun r => (dg_terminal_id r, dg_attachment_id r, dg_diff r, dg_inherited_fields r, dg_sparse_rows r, dg_primary_patches r, dg_alternate_patches r, dg_fragment r))
    (fun '(a0, a1, a2, a3, a4, a5, a6, a7) => mkDatagram a0 a1 a2 a3 a4 a5 a6 a7) _). by intros [].
Defined.

Definition ex_fragment_len (f : TerminalViewportFragment) : N :=
  20 + llen (fr_transfer_id f)
  + match fr_data f with [] => 0 | _ => 1 + varint_len (llen (fr_data f)) + llen (fr_data f) end.
Definition ex_string_len (s : string) : N :=
  if bool_decide (s = "") then 0 else 1 + varint_len (slen s) + slen s.
Definition ex_datagram_len (d : TerminalViewportDatagram) : N :=
  ex_string_len (dg_terminal_id d) + ex_string_len (dg_attachment_id d)
  + match dg_fragment d with
    | Some f => 1 + varint_len (ex_fragment_len f) + ex_fragment_len f
    | None => 100
    end.
Definition ex_datagram_to_vec (d : TerminalViewportDatagram) : bytes :=
  Npos (encode d) :: replicate (N.to_nat (ex_datagram_len d) - 1) 0.
Definition ex_datagram_lib : DatagramLib := {|
  datagram_payload_lib := ex_payload_lib;
  datagram_to_vec := ex_datagram_to_vec;
  datagram_decode := fun b => unnumber (take 1 b);
  datagram_encoded_len := ex_datagram_len;
  fragment_encoded_len := ex_fragment_len;
  zstd_compress_to := fun raw n =>
    c ← ex_compress raw; Ok (if llen c <=? n then Some c else None)
|}.

Lemma ex_datagram_laws : @DatagramLaws ex_datagram_lib.
Proof.
  split.
  - exact ex_payload_laws.
  - intros d. apply (unnumber_number d).
  - intros d. cbn. unfold ex_datagram_to_vec, llen. cbn [length]. rewrite length_replicate.
    assert (1 <= ex_datagram_len d); [|lia]. unfold ex_datagram_len. destruct (dg_fragment d); lia.
  - intros h data Hd Hh. cbn. unfold ex_fragment_len. cbn. rewrite Hh. destruct data; [done|]. lia.
  - intros h id Hid. cbn. unfold ex_fragment_len. cbn. by rewrite Hid.
  - intros tid aid f Ht Ha. cbn. unfold ex_datagram_len, ex_string_len. cbn.
    rewrite !bool_decide_eq_false_2 by done. lia.
  - intros raw n c Hc. cbn in Hc. ok_step Hc. injection Hc as Hc.
    destruct (llen a <=? n) eqn:E; simplify_eq. bool_prop. split_and!; [done| |].
    + by eapply (@compress_magic _ ex_payload_laws).
    + intros limit Hl. by apply (@read_compressed _ ex_payload_laws).
Qed.

(** ** Theorems *)

Section claims.
Context `{DatagramLaws}.

Definition packet_bytes (t : ViewportTransfer) (i : N) : N :=
  match packet t i with Ok d => datagram_encoded_len d | Err _ => 0 end.
Definition packet_data (t : ViewportTransfer) (i : N) : bytes :=
  match packet t i with
  | Ok d => match dg_fragment d with Some f => fr_data f | None => [] end
  | Err _ => []
  end.

(** A prepared transfer respects every bound it promises: between one and
    128 packets, each built without a panic and within the datagram budget as
    really encoded, together smaller than the keyframe they replace, and the
    memory for the raw and encoded bytes within the working limit. *)
Theorem fragments_fit delta budget keyframe t :
  prepare delta budget keyframe = Ok (Some t) ->
  1 <= transfer_count t <= MAX_FRAGMENTS /\
  (forall i, i < transfer_count t ->
    exists d, packet t i = Ok d /\ datagram_encoded_len d <= budget) /\
  sum_over (packet_bytes t) (range0 (transfer_count t)) < keyframe /\
  fr_raw_length (vt_header t) + 2 * llen (vt_encoded t) + 1 <= MAX_WORKING_BYTES.
Proof.
  intros Hp%prepare_Some. pose proof Hp as [_ Hc _ _ _ Hw _ [Hfit Hsum] _].
  assert (Hin : forall i, i ∈ range0 (transfer_count t) <-> i < transfer_count t).
  { intros i. unfold range0. rewrite list_elem_of_fmap. split.
    - intros (k & -> & Hk%elem_of_seq). lia.
    - intros Hi. exists (N.to_nat i). split; [lia|]. apply elem_of_seq. lia. }
  split_and!; [lia|lia| | |done].
  - intros i Hi. destruct (packet_size _ _ _ _ i Hp Hi) as (d & Hd & Hs & _).
    exists d. split; [done|]. rewrite Hs. rewrite Forall_forall in Hfit. by apply Hfit, Hin.
  - enough (sum_over (packet_bytes t) (range0 (transfer_count t)) =
            sum_over (packet_len t) (range0 (transfer_count t))) by lia.
    assert (Hall : forall i, i ∈ range0 (transfer_count t) -> packet_bytes t i = packet_len t i).
    { intros i Hi%Hin. unfold packet_bytes.
      destruct (packet_size _ _ _ _ i Hp Hi) as (d & -> & Hs & _). done. }
    unfold sum_over. clear -Hall. induction (range0 (transfer_count t)) as [|i l IH]; [done|]. cbn [foldr].
    rewrite IH, Hall; [done|left|]. intros j Hj. apply Hall. by right.
Qed.

(** The packets' data, in index order, is the encoded delta with no byte
    lost or repeated, and decoding it gives back the delta that was prepared. *)
Theorem fragments_reassemble delta budget keyframe t :
  prepare delta budget keyframe = Ok (Some t) ->
  concat (packet_data t <$> range0 (transfer_count t)) = vt_encoded t /\
  decode_transfer t = Ok delta.
Proof.
  intros Hp%prepare_Some. split; [|by eapply decode_prepared].
  pose proof (prep_count _ _ _ _ Hp) as Hc.
  transitivity (concat ((fun i => slice (vt_encoded t) (balanced_range (N.of_nat i) (transfer_count t)
    (llen (vt_encoded t)))) <$> seq 0 (N.to_nat (transfer_count t)))).
  - f_equal. unfold range0. rewrite <- list_fmap_compose. apply list_fmap_ext.
    intros j i Hj%lookup_seq. cbn [compose]. unfold packet_data.
    destruct (packet_size _ _ _ _ (N.of_nat i) Hp) as (d & -> & _ & f & -> & _ & ->); [lia|done].
  - rewrite slices_concat by lia. rewrite N2Nat.id, N.mul_comm, N.div_mul by lia.
    unfold llen. rewrite Nat2N.id. by rewrite take_ge.
Qed.
End claims.

Definition ex_delta : TerminalViewportDatagram :=
  mkDatagram "t" "a" (Some (mkDiff (replicate 16 7) 1 2 None [] [])) 0 true [] [] None.
Definition ex_transfer : result (option ViewportTransfer) := @prepare ex_datagram_lib ex_delta 100 10000.
Lemma ex_transfer_prepared : exists t, ex_transfer = Ok (Some t).
Proof. eexists. reflexivity. Qed.

Lemma fragments_fit_witness :
  exists t, ex_transfer = Ok (Some t) /\
  forall i, i < transfer_count t ->
    exists d, packet t i = Ok d /\ @datagram_encoded_len ex_datagram_lib d <= 100.
Proof.
  destruct ex_transfer_prepared as [t Ht]. exists t. split; [exact Ht|].
  exact (proj1 (proj2 (@fragments_fit ex_datagram_lib ex_datagram_laws ex_delta 100 10000 t Ht))).
Defined.

Lemma fragments_reassemble_witness :
  exists t, ex_transfer = Ok (Some t) /\ @decode_transfer ex_datagram_lib t = Ok ex_delta.
Proof.
  destruct ex_transfer_prepared as [t Ht]. exists t. split; [exact Ht|].
  exact (proj2 (@fragments_reassemble ex_datagram_lib ex_datagram_laws ex_delta 100 10000 t Ht)).
Defined.
