(* ===== verification/Streaming.v ===== *)
(** * Latest-state-wins streaming (src/src/terminal_streaming.rs)

    The sender's window over lossy datagrams with reliable keyframes, and the
    receiver's replica.  Both are records; an operation returns the new record
    beside its result.  [BTreeMap<u64, State>] is [gmap N State]. *)
From S2P Require Import Prelude TerminalState TerminalSync Payload ViewportDelta DatagramV3.
Open Scope N_scope.

Definition DEFAULT_RETAINED_GENERATIONS : nat := 128.

Record TerminalStateRepairRequest := mkRepair {
  rr_epoch : bytes; rr_missing_base_generation : N; rr_newest_seen_generation : N }.

Inductive StreamingUpdate :=
| ReliableKeyframe (s : State)
| DatagramDelta (d : TerminalViewportDatagram)
| FragmentedDelta (t : ViewportTransfer).

Record StreamingStateWindow := mkStreamWindow {
  ssw_terminal_id : string;
  ssw_attachment_id : string;
  ssw_base : State;
  ssw_base_acknowledged : bool;
  ssw_sent : gmap N State;
  ssw_latest_target : option State;
  ssw_retained_generations : nat;
  ssw_retired_epochs : list bytes;
  ssw_datagram_version : N
}.

Class StreamLib := {
  stream_sync_lib :: SyncLib;
  stream_datagram_lib :: DatagramLib
}.

(** ** Bounded maps *)

Definition keys_above {A} (m : gmap N A) (k : N) : gmap N A := filter (fun p => k < p.1) m.
Definition keys_except {A} (m : gmap N A) (pinned : option N) : gmap N A :=
  filter (fun p => Some p.1 <> pinned) m.

(** The [while] loop of the sender's [remember]; every round removes a key, so
    the number of keys is enough fuel. *)
Fixpoint evict_sent (fuel : nat) (base_generation : N) (limit : nat) (sent : gmap N State) : gmap N State :=
  match fuel with
  | O => sent
  | S fuel =>
      if (size sent <=? limit)%nat then sent else
      match first_key sent with
      | None => sent
      | Some oldest =>
          if oldest =? base_generation then
            match first_key (keys_above sent oldest) with
            | None => sent
            | Some next => evict_sent fuel base_generation limit (delete next sent)
            end
          else evict_sent fuel base_generation limit (delete oldest sent)
      end
  end.

(** The [while] loop of the replica's [remember]. *)
Fixpoint evict_retained (fuel : nat) (pinned : option N) (limit : nat) (retained : gmap N State)
    : gmap N State :=
  match fuel with
  | O => retained
  | S fuel =>
      if (size retained <=? limit)%nat then retained else
      match first_key (keys_except retained pinned) with
      | None => retained
      | Some generation => evict_retained fuel pinned limit (delete generation retained)
      end
  end.

Section window.
Context `{StreamLib}.

Definition set_target (w : StreamingStateWindow) (t : option State) : StreamingStateWindow :=
  mkStreamWindow (ssw_terminal_id w) (ssw_attachment_id w) (ssw_base w) (ssw_base_acknowledged w)
    (ssw_sent w) t (ssw_retained_generations w) (ssw_retired_epochs w) (ssw_datagram_version w).
Definition set_acknowledged (w : StreamingStateWindow) (b : bool) : StreamingStateWindow :=
  mkStreamWindow (ssw_terminal_id w) (ssw_attachment_id w) (ssw_base w) b
    (ssw_sent w) (ssw_latest_target w) (ssw_retained_generations w) (ssw_retired_epochs w)
    (ssw_datagram_version w).
Definition set_sent (w : StreamingStateWindow) (sent : gmap N State) : StreamingStateWindow :=
  mkStreamWindow (ssw_terminal_id w) (ssw_attachment_id w) (ssw_base w) (ssw_base_acknowledged w)
    sent (ssw_latest_target w) (ssw_retained_generations w) (ssw_retired_epochs w)
    (ssw_datagram_version w).

(** ** Construction *)

Definition with_retained_generations (keyframe : State) (terminal_id attachment_id : string)
    (retained : nat) : result StreamingStateWindow :=
  ensure! negb (retained =? 0)%nat, "retained generation limit is zero";
  _ ← validate_viewport_state keyframe;
  Ok (mkStreamWindow terminal_id attachment_id keyframe false {[st_generation keyframe := keyframe]}
        None retained [] 2).

Definition with_route (keyframe : State) (terminal_id attachment_id : string)
    : result StreamingStateWindow :=
  ensure! negb (bool_decide (terminal_id = "")) && negb (bool_decide (attachment_id = "")),
    "terminal viewport datagram route is empty";
  with_retained_generations keyframe terminal_id attachment_id DEFAULT_RETAINED_GENERATIONS.

Definition with_route_version (keyframe : State) (terminal_id attachment_id : string) (version : N)
    : result StreamingStateWindow :=
  ensure! (version =? 2) || (version =? 3), "unsupported terminal datagram version";
  w ← with_route keyframe terminal_id attachment_id;
  Ok (mkStreamWindow (ssw_terminal_id w) (ssw_attachment_id w) (ssw_base w) (ssw_base_acknowledged w)
        (ssw_sent w) (ssw_latest_target w) (ssw_retained_generations w) (ssw_retired_epochs w) version).

(** ** Internal operations *)

Definition latest_generation (w : StreamingStateWindow) : N :=
  match ssw_latest_target w with
  | Some state => st_generation state
  | None => st_generation (ssw_base w)
  end.

Definition window_remember (w : StreamingStateWindow) (state : State) : StreamingStateWindow :=
  let sent := <[st_generation state := state]> (ssw_sent w) in
  set_sent (set_target w (Some state))
    (evict_sent (size sent) (st_generation (ssw_base w)) (ssw_retained_generations w) sent).

Definition install_keyframe (w : StreamingStateWindow) (state : State)
    : StreamingStateWindow * result StreamingUpdate :=
  match validate_viewport_state state with
  | Err e => (w, Err e)
  | Ok _ =>
      if negb (ssw_base_acknowledged w) then (w, Err "a reliable keyframe is already in flight")
      else
        let retired :=
          if bool_decide (st_epoch (ssw_base w) = st_epoch state) then ssw_retired_epochs w
          else
            let retired := ssw_retired_epochs w ++ [st_epoch (ssw_base w)] in
            if (length retired <=? DEFAULT_RETAINED_GENERATIONS)%nat then retired else tail retired in
        let w := mkStreamWindow (ssw_terminal_id w) (ssw_attachment_id w) state false ∅
                   (ssw_latest_target w) (ssw_retained_generations w) retired (ssw_datagram_version w) in
        (window_remember w state, Ok (ReliableKeyframe state))
  end.

Definition update_from_base (w : StreamingStateWindow) (latest : State) (budget : N)
    : result StreamingUpdate :=
  if negb (st_rows latest =? st_rows (ssw_base w)) || negb (st_cols latest =? st_cols (ssw_base w))
  then Ok (ReliableKeyframe latest)
  else
    delta ← compact_viewport_datagram (ssw_terminal_id w) (ssw_attachment_id w) (ssw_base w) latest;
    if ssw_datagram_version w =? 3 then
      transfer ← prepare delta budget (state_encoded_len latest);
      Ok match transfer with
         | Some transfer => FragmentedDelta transfer
         | None => ReliableKeyframe latest
         end
    else if (datagram_encoded_len delta <=? budget)
            && (datagram_encoded_len delta <? state_encoded_len latest)
    then Ok (DatagramDelta delta)
    else Ok (ReliableKeyframe latest).

(** The end of [prepare_update] and [retry_latest]: send what fits, and install
    a keyframe when only a keyframe does. *)
Definition send_update (w : StreamingStateWindow) (latest : State) (budget : N)
    : StreamingStateWindow * result (option StreamingUpdate) :=
  let keyframe := let '(w, r) := install_keyframe w latest in (w, Some <$> r) in
  if negb (bool_decide (st_epoch latest = st_epoch (ssw_base w))) then keyframe
  else
    match update_from_base w latest budget with
    | Err e => (w, Err e)
    | Ok (ReliableKeyframe _) => keyframe
    | Ok update => (window_remember w latest, Ok (Some update))
    end.

(** ** Operations *)

Definition stream_prepare_update (w : StreamingStateWindow) (latest : State) (budget : N)
    : StreamingStateWindow * result (option StreamingUpdate) :=
  match validate_viewport_state latest with
  | Err e => (w, Err e)
  | Ok _ =>
      if bool_decide (st_epoch latest = st_epoch (ssw_base w))
         && ((st_generation latest <=? st_generation (ssw_base w))
             || (st_generation latest <? latest_generation w)
             || ((st_generation latest =? latest_generation w)
                 && bool_decide (is_Some (ssw_sent w !! st_generation latest))))
      then (w, Ok None)
      else if negb (ssw_base_acknowledged w) then (set_target w (Some latest), Ok None)
      else send_update w latest budget
  end.

Definition retry_latest (w : StreamingStateWindow) (budget : N)
    : StreamingStateWindow * result (option StreamingUpdate) :=
  match ssw_latest_target w with
  | None => (w, Ok None)
  | Some latest =>
      if bool_decide (st_epoch latest = st_epoch (ssw_base w))
         && (st_generation latest <=? st_generation (ssw_base w))
      then (set_target w None, Ok None)
      else if negb (ssw_base_acknowledged w) then (w, Ok None)
      else send_update w latest budget
  end.

Definition rekey_latest (w : StreamingStateWindow)
    : StreamingStateWindow * result (option StreamingUpdate) :=
  if negb (ssw_base_acknowledged w) then (w, Ok None)
  else match ssw_latest_target w with
  | None => (w, Ok None)
  | Some latest =>
      if bool_decide (st_epoch latest = st_epoch (ssw_base w))
         && (st_generation latest <=? st_generation (ssw_base w))
      then (set_target w None, Ok None)
      else let '(w, r) := install_keyframe w latest in (w, Some <$> r)
  end.

Definition repair (w : StreamingStateWindow) (request : TerminalStateRepairRequest)
    : StreamingStateWindow * result (option StreamingUpdate) :=
  if negb (llen (rr_epoch request) =? EPOCH_BYTES)
  then (w, Err "terminal state repair epoch is invalid") else
  if negb (0 <? rr_missing_base_generation request)
  then (w, Err "terminal state repair base generation is zero") else
  if negb (rr_missing_base_generation request <=? rr_newest_seen_generation request)
  then (w, Err "terminal state repair generation range is reversed") else
  if bool_decide (rr_epoch request ∈ ssw_retired_epochs w) then (w, Ok None) else
  if negb (bool_decide (rr_epoch request = st_epoch (ssw_base w)))
  then (w, Err "terminal state repair epoch changed") else
  if negb (rr_missing_base_generation request <=? latest_generation w)
  then (w, Err "terminal state repair names a future base") else
  if negb (ssw_base_acknowledged w) then (w, Ok None) else
  match rekey_latest w with
  | (w, Err e) => (w, Err e)
  | (w, Ok (Some update)) => (w, Ok (Some update))
  | (w, Ok None) => (set_acknowledged w false, Ok (Some (ReliableKeyframe (ssw_base w))))
  end.

Definition has_pending_update (w : StreamingStateWindow) : bool :=
  match ssw_latest_target w with
  | Some state => negb (bool_decide (st_epoch state = st_epoch (ssw_base w)))
                  || (st_generation (ssw_base w) <? st_generation state)
  | None => false
  end.
Definition base_is_acknowledged (w : StreamingStateWindow) : bool := ssw_base_acknowledged w.

(** [latest_target.take_if(|s| s.epoch == ack.epoch && s.generation <= ack.generation)] *)
Definition settle_target (w : StreamingStateWindow) (ack : TerminalStateAck) : StreamingStateWindow :=
  match ssw_latest_target w with
  | Some state =>
      if bool_decide (st_epoch state = ack_epoch ack) && (st_generation state <=? ack_generation ack)
      then set_target w None else w
  | None => w
  end.

Definition stream_acknowledge (w : StreamingStateWindow) (ack : TerminalStateAck)
    : StreamingStateWindow * result AckDisposition :=
  if negb (llen (ack_epoch ack) =? EPOCH_BYTES) then (w, Err "terminal state ACK epoch is invalid") else
  if negb (0 <? ack_generation ack) then (w, Err "terminal state ACK generation is zero") else
  if bool_decide (ack_epoch ack ∈ ssw_retired_epochs w) then (w, Ok Duplicate) else
  if bool_decide (ack_epoch ack = st_epoch (ssw_base w))
     && (ack_generation ack <=? st_generation (ssw_base w))
  then
    let w := if ack_generation ack =? st_generation (ssw_base w) then set_acknowledged w true else w in
    (settle_target w ack, Ok Duplicate)
  else
  if negb (bool_decide (ack_epoch ack = st_epoch (ssw_base w)))
  then (w, Err "terminal state ACK epoch changed") else
  match ssw_sent w !! ack_generation ack with
  | None =>
      if ack_generation ack <=? latest_generation w then (w, Ok Duplicate)
      else (w, Err "terminal state ACK names a future generation")
  | Some acknowledged =>
      let w := mkStreamWindow (ssw_terminal_id w) (ssw_attachment_id w) acknowledged true
                 (filter (fun p => ack_generation ack <= p.1) (ssw_sent w)) (ssw_latest_target w)
                 (ssw_retained_generations w) (ssw_retired_epochs w) (ssw_datagram_version w) in
      (settle_target w ack, Ok Accepted)
  end.

(** ** The replica *)

Inductive ApplyDisposition := Applied | Stale | MissingBase.

Record StreamingReplica := mkReplica {
  rep_terminal_id : string;
  rep_attachment_id : string;
  rep_current : option State;
  rep_retained : gmap N State;
  rep_pinned_base_generation : option N;
  rep_retained_generations : nat
}.

Definition replica_default : StreamingReplica :=
  mkReplica "" "" None ∅ None DEFAULT_RETAINED_GENERATIONS.

Definition for_route (terminal_id attachment_id : string) : result StreamingReplica :=
  ensure! negb (bool_decide (terminal_id = "")) && negb (bool_decide (attachment_id = "")),
    "terminal viewport datagram route is empty";
  Ok (mkReplica terminal_id attachment_id (rep_current replica_default) (rep_retained replica_default)
        (rep_pinned_base_generation replica_default) (rep_retained_generations replica_default)).

Definition state_ack (r : StreamingReplica) : option TerminalStateAck :=
  (fun state => mkAck (st_epoch state) (st_generation state)) <$> rep_current r.

Definition repair_request (r : StreamingReplica) (datagram : TerminalViewportDatagram)
    : result TerminalStateRepairRequest :=
  ensure! bool_decide (dg_terminal_id datagram = rep_terminal_id r)
          && bool_decide (dg_attachment_id datagram = rep_attachment_id r),
    "terminal viewport datagram targets the wrong attachment";
  diff ← datagram_diff datagram;
  let newest := match rep_current r with
                | Some state => if bool_decide (st_epoch state = tsd_epoch diff)
                                then N.max (st_generation state) (tsd_target_generation diff)
                                else tsd_target_generation diff
                | None => tsd_target_generation diff
                end in
  Ok (mkRepair (tsd_epoch diff) (tsd_base_generation diff) newest).

(** [remember] followed by [self.current = Some(state)], with the new pin. *)
Definition replica_remember (r : StreamingReplica) (retained : gmap N State) (pinned : N) (state : State)
    : StreamingReplica :=
  let retained := <[st_generation state := state]> retained in
  mkReplica (rep_terminal_id r) (rep_attachment_id r) (Some state)
    (evict_retained (size retained) (Some pinned) (rep_retained_generations r) retained)
    (Some pinned) (rep_retained_generations r).

Definition apply_keyframe (r : StreamingReplica) (state : State)
    : StreamingReplica * result ApplyDisposition :=
  match validate_viewport_state state with
  | Err e => (r, Err e)
  | Ok _ =>
      let stale := match rep_current r with
                   | Some current => bool_decide (st_epoch current = st_epoch state)
                                     && (st_generation state <=? st_generation current)
                   | None => false
                   end in
      if stale then (r, Ok Stale)
      else
        let retained := match rep_current r with
                        | Some current => if bool_decide (st_epoch current = st_epoch state)
                                          then rep_retained r else ∅
                        | None => rep_retained r
                        end in
        (replica_remember r retained (st_generation state) state, Ok Applied)
  end.

Definition apply_datagram (r : StreamingReplica) (delta : TerminalViewportDatagram)
    : StreamingReplica * result ApplyDisposition :=
  if negb (is_none (dg_fragment delta))
  then (r, Err "v3 fragment must be reassembled before replica application") else
  if negb (bool_decide (dg_terminal_id delta = rep_terminal_id r)
           && bool_decide (dg_attachment_id delta = rep_attachment_id r))
  then (r, Err "terminal viewport datagram targets the wrong attachment") else
  match datagram_diff delta with
  | Err e => (r, Err e)
  | Ok diff =>
      let other_epoch := match rep_current r with
                         | Some current => negb (bool_decide (st_epoch current = tsd_epoch diff))
                         | None => false
                         end in
      if other_epoch then (r, Ok Stale) else
      let stale := match rep_current r with
                   | Some current => bool_decide (st_epoch current = tsd_epoch diff)
                                     && (tsd_target_generation diff <=? st_generation current)
                   | None => false
                   end in
      if stale then (r, Ok Stale) else
      match rep_retained r !! tsd_base_generation diff with
      | None => (r, Ok MissingBase)
      | Some base =>
          if negb (bool_decide (st_epoch base = tsd_epoch diff)) then (r, Ok MissingBase) else
          match (target ← apply_compact_viewport_delta base delta;
                 _ ← validate_viewport_state target; Ok target) with
          | Err e => (r, Err e)
          | Ok target =>
              (replica_remember r (rep_retained r) (tsd_base_generation diff) target, Ok Applied)
          end
      end
  end.

Definition apply_update (r : StreamingReplica) (update : StreamingUpdate)
    : StreamingReplica * result ApplyDisposition :=
  match update with
  | ReliableKeyframe state => apply_keyframe r state
  | DatagramDelta delta => apply_datagram r delta
  | FragmentedDelta transfer =>
      match decode_transfer transfer with
      | Ok delta => apply_datagram r delta
      | Err e => (r, Err e)
      end
  end.
End window.
