(* ===== verification/StreamingSpec.v ===== *)
(** * The window and the replica, one operation at a time

    Eviction keeps the pinned generation within the limit; every operation of
    the sender keeps to states the terminal had; every update the sender issues
    takes the replica to such a state and nowhere else. *)
From S2P Require Import Prelude TerminalState TerminalStateSpec TerminalSync TerminalSyncSpec Payload.
From S2P Require Import ViewportDelta ViewportDeltaSpec Transfer TransferSpec DatagramV3 DatagramV3Spec.
From S2P Require Import Streaming.
Open Scope N_scope.

(** ** Eviction *)

Lemma keys_except_lookup {A} (m : gmap N A) pinned k :
  is_Some (keys_except m pinned !! k) <-> is_Some (m !! k) /\ Some k <> pinned.
Proof.
  unfold keys_except. split.
  - intros [v [Hv Hp]%map_lookup_filter_Some]. eauto.
  - intros [[v Hv] Hp]. exists v. by apply map_lookup_filter_Some.
Qed.
Lemma keys_above_lookup {A} (m : gmap N A) n k :
  is_Some (keys_above m n !! k) <-> is_Some (m !! k) /\ n < k.
Proof.
  unfold keys_above. split.
  - intros [v [Hv Hp]%map_lookup_filter_Some]. eauto.
  - intros [[v Hv] Hp]. exists v. by apply map_lookup_filter_Some.
Qed.

(** Two maps with the same keys have the same smallest key. *)
Lemma first_key_ext {A} (m m' : gmap N A) :
  (forall k, is_Some (m !! k) <-> is_Some (m' !! k)) -> first_key m = first_key m'.
Proof.
  intros He. destruct (first_key m') as [k|] eqn:E.
  - apply first_key_Some in E as [Hk Hmin]. apply first_key_Some. rewrite He. split; [done|].
    intros k' Hk'. apply Hmin. by apply He.
  - apply first_key_None in E. apply first_key_None. apply map_eq. intros k. rewrite lookup_empty.
    apply eq_None_not_Some. rewrite He, E, lookup_empty. by intros [? ?].
Qed.

(** The sender's and the replica's loops choose the same victims. *)
Lemma evict_sent_retained fuel g limit m :
  evict_sent fuel g limit m = evict_retained fuel (Some g) limit m.
Proof.
  revert m. induction fuel as [|fuel IH]; intros m; cbn [evict_sent evict_retained]; [done|].
  destruct (size m <=? limit)%nat; [done|]. destruct (first_key m) as [oldest|] eqn:E.
  - pose proof E as [Hin Hmin]%first_key_Some. destruct (N.eqb_spec oldest g) as [->|Hne].
    + rewrite (first_key_ext (keys_above m g) (keys_except m (Some g))).
      * destruct (first_key (keys_except m (Some g))); [apply IH|done].
      * intros k. rewrite keys_above_lookup, keys_except_lookup. split; intros [Hk Hne]; (split; [done|]).
        -- intros [= ->]. lia.
        -- assert (k <> g) by congruence. specialize (Hmin k Hk). lia.
    + assert (first_key (keys_except m (Some g)) = Some oldest) as ->; [|apply IH].
      apply first_key_Some. rewrite keys_except_lookup. split; [split; [done|congruence]|].
      intros k [Hk _]%keys_except_lookup. auto.
  - apply first_key_None in E. subst m.
    assert (first_key (keys_except (∅ : gmap N State) (Some g)) = None) as ->; [|done].
    apply first_key_None. apply map_filter_empty.
Qed.

Lemma evict_retained_subseteq fuel pinned limit m : evict_retained fuel pinned limit m ⊆ m.
Proof.
  revert m. induction fuel as [|fuel IH]; intros m; cbn [evict_retained]; [done|].
  destruct (size m <=? limit)%nat; [done|]. destruct (first_key (keys_except m pinned)); [|done].
  etrans; [apply IH|apply delete_subseteq].
Qed.

Lemma evict_retained_pinned fuel p limit m v :
  m !! p = Some v -> evict_retained fuel (Some p) limit m !! p = Some v.
Proof.
  revert m. induction fuel as [|fuel IH]; intros m Hp; cbn [evict_retained]; [done|].
  destruct (size m <=? limit)%nat; [done|]. destruct (first_key (keys_except m (Some p))) as [k|] eqn:E; [|done].
  apply IH. apply first_key_Some in E as [[_ Hne]%keys_except_lookup _].
  rewrite lookup_delete_ne; [done|congruence].
Qed.

(** With at least one slot the loop ends within the limit. *)
Lemma evict_retained_size fuel pinned limit m :
  (0 < limit)%nat -> (size m <= fuel + limit)%nat -> (size (evict_retained fuel pinned limit m) <= limit)%nat.
Proof.
  intros Hl. revert m. induction fuel as [|fuel IH]; intros m Hm; cbn [evict_retained]; [lia|].
  destruct (Nat.leb_spec (size m) limit) as [?|Hgt]; [done|].
  destruct (first_key (keys_except m pinned)) as [k|] eqn:E.
  - apply first_key_Some in E as [[Hk _]%keys_except_lookup _]. apply IH.
    rewrite map_size_delete. destruct Hk as [v ->]. lia.
  - exfalso. apply first_key_None in E.
    assert (Hone : forall k, is_Some (m !! k) -> Some k = pinned).
    { intros k Hk. destruct (decide (Some k = pinned)); [done|].
      assert (Hs : is_Some (keys_except m pinned !! k)) by (by apply keys_except_lookup).
      rewrite E, lookup_empty in Hs. by destruct Hs. }
    assert (size (dom m) <= 1)%nat; [|rewrite size_dom in *; lia].
    destruct pinned as [p|].
    + rewrite <- (size_singleton (C := gset N) p). apply subseteq_size.
      intros k Hk%elem_of_dom. apply elem_of_singleton. by specialize (Hone k Hk) as [= ->].
    + assert (dom m = (∅ : gset N)) as ->; [|by rewrite size_empty; lia].
      apply set_eq. intros k. rewrite elem_of_dom. split; [|set_solver]. by intros Hk%Hone.
Qed.

(** ** States the terminal had *)

Section spec.
Context `{StreamLib} `{!@DatagramLaws stream_datagram_lib}.
Context (truth : State -> Prop) (tid aid : string).
Hypothesis truth_valid : forall s, truth s -> validate_viewport_state s = Ok tt.
Hypothesis truth_unique : forall s s', truth s -> truth s' ->
  st_epoch s = st_epoch s' -> st_generation s = st_generation s' -> s = s'.

(** A delta between two such states on this route. *)
Definition delta_ok (d : TerminalViewportDatagram) : Prop :=
  exists b t, truth b /\ truth t /\ st_rows b = st_rows t /\ st_cols b = st_cols t /\
    compact_viewport_datagram tid aid b t = Ok d.
Definition update_ok (u : StreamingUpdate) : Prop :=
  match u with
  | ReliableKeyframe s => truth s
  | DatagramDelta d => delta_ok d
  | FragmentedDelta t => exists d, decode_transfer t = Ok d /\ delta_ok d
  end.

Record window_ok (w : StreamingStateWindow) : Prop := {
  wok_route : ssw_terminal_id w = tid /\ ssw_attachment_id w = aid;
  wok_base : truth (ssw_base w);
  wok_sent : forall g s, ssw_sent w !! g = Some s ->
    truth s /\ st_generation s = g /\ st_epoch s = st_epoch (ssw_base w);
  wok_target : forall s, ssw_latest_target w = Some s -> truth s;
  wok_limit : (0 < ssw_retained_generations w)%nat;
  wok_size : (size (ssw_sent w) <= ssw_retained_generations w)%nat;
  wok_pinned : ssw_sent w !! st_generation (ssw_base w) = Some (ssw_base w)
}.

Record replica_ok (r : StreamingReplica) : Prop := {
  rok_route : rep_terminal_id r = tid /\ rep_attachment_id r = aid;
  rok_current : forall c, rep_current r = Some c -> truth c;
  rok_retained : forall g s, rep_retained r !! g = Some s -> truth s /\ st_generation s = g;
  rok_limit : (0 < rep_retained_generations r)%nat;
  rok_size : (size (rep_retained r) <= rep_retained_generations r)%nat
}.

(** The replica never goes back within an epoch. *)
Definition replica_le (r r' : StreamingReplica) : Prop :=
  forall c, rep_current r = Some c -> exists c', rep_current r' = Some c' /\
    (st_epoch c = st_epoch c' -> st_generation c <= st_generation c').

Lemma replica_le_refl r : replica_le r r.
Proof using. intros c Hc. exists c. split; [done|]. lia. Qed.

(** *** The sender *)

Lemma window_remember_ok w s :
  window_ok w -> truth s -> st_epoch s = st_epoch (ssw_base w) ->
  (st_generation s = st_generation (ssw_base w) -> s = ssw_base w) ->
  window_ok (window_remember w s).
Proof using.
  intros [Hr Hb Hs Ht Hl Hsize Hp] Hts He Hg. unfold window_remember.
  rewrite evict_sent_retained.
  split; cbn; [done|done| |by intros ? [= <-]|done| |].
  - intros g s' Hg'. assert (Hin : <[st_generation s := s]> (ssw_sent w) !! g = Some s').
    { by eapply lookup_weaken; [|apply evict_retained_subseteq]. }
    destruct (decide (g = st_generation s)) as [->|Hne].
    + rewrite lookup_insert_eq in Hin. by simplify_eq.
    + rewrite lookup_insert_ne in Hin by done. by apply Hs.
  - apply evict_retained_size; lia.
  - apply evict_retained_pinned. destruct (decide (st_generation s = st_generation (ssw_base w))) as [Heq|Hne].
    + rewrite <- Heq, lookup_insert_eq. by rewrite (Hg Heq).
    + by rewrite lookup_insert_ne.
Qed.

Lemma install_keyframe_ok w s w' r :
  window_ok w -> truth s -> install_keyframe w s = (w', r) ->
  window_ok w' /\ (forall u, r = Ok u -> u = ReliableKeyframe s).
Proof using truth_valid.
  intros Hw Hs Hi. unfold install_keyframe in Hi. rewrite (truth_valid _ Hs) in Hi.
  destruct (ssw_base_acknowledged w); cbn [negb] in Hi; simplify_eq; [|done].
  split; [|intros u [= <-]; done]. destruct Hw as [Hr Hb _ Ht Hl _ _].
  set (w1 := mkStreamWindow _ _ _ _ _ _ _ _ _).
  unfold window_remember. cbn [ssw_base ssw_sent ssw_retained_generations w1].
  rewrite insert_empty, evict_sent_retained.
  assert (Hev : evict_retained (size ({[st_generation s := s]} : gmap N State)) (Some (st_generation s))
    (ssw_retained_generations w) {[st_generation s := s]} = {[st_generation s := s]}).
  { rewrite map_size_singleton. cbn [evict_retained]. rewrite map_size_singleton.
    by rewrite (proj2 (Nat.leb_le _ _)) by lia. }
  split; cbn; [done|done| |by intros ? [= <-]|done| |].
  - intros g s'. rewrite Hev. intros [<- <-]%lookup_singleton_Some. done.
  - rewrite Hev, map_size_singleton. lia.
  - by rewrite Hev, lookup_singleton_eq.
Qed.

Lemma update_from_base_ok w s budget u :
  window_ok w -> truth s -> update_from_base w s budget = Ok u -> update_ok u.
Proof using All.
  intros [[Ht Ha] Hb _ _ _ _ _] Hs Hu. unfold update_from_base in Hu. ok_step Hu; [by ok_inv Hu|].
  bool_prop. ok_step Hu. rewrite Ht, Ha in Hr.
  assert (Hd : delta_ok a) by (by exists (ssw_base w), s).
  ok_step Hu.
  - ok_step Hu. ok_inv Hu. destruct a0 as [t|]; [|done]. cbn. exists a. split; [|done].
    by apply prepare_Some, decode_prepared in Hr0.
  - ok_step Hu; by ok_inv Hu.
Qed.

Lemma send_update_ok w s budget w' r :
  window_ok w -> truth s -> (st_epoch s = st_epoch (ssw_base w) -> st_generation (ssw_base w) < st_generation s) ->
  send_update w s budget = (w', r) ->
  window_ok w' /\ forall u, r = Ok (Some u) -> update_ok u.
Proof using All.
  intros Hw Hs Hg Hsend. unfold send_update in Hsend.
  assert (Hkey : forall w' r, (let '(w, r) := install_keyframe w s in (w, Some <$> r)) = (w', r) ->
    window_ok w' /\ forall u, r = Ok (Some u) -> update_ok u).
  { intros w1 r1 Hk. destruct (install_keyframe w s) as [w2 r2] eqn:E. simplify_eq.
    destruct (install_keyframe_ok _ _ _ _ Hw Hs E) as [Hok Hr]. split; [done|].
    intros u Hu. destruct r2; cbn in Hu; simplify_eq. by rewrite (Hr _ eq_refl). }
  case_bool_decide as He; cbn [negb] in Hsend; [|by apply Hkey].
  destruct (update_from_base w s budget) as [u|e] eqn:Eu; [|by simplify_eq].
  apply update_from_base_ok in Eu as Hu; [|done..].
  assert (Hrem : window_ok (window_remember w s)).
  { apply window_remember_ok; [done..|]. specialize (Hg He). intros. lia. }
  destruct u; [by apply Hkey|simplify_eq..]; (split; [done|]; by intros u [= <-]).
Qed.

Lemma set_target_ok w t : window_ok w -> (forall s, t = Some s -> truth s) -> window_ok (set_target w t).
Proof using. intros []. by split. Qed.
Lemma set_acknowledged_ok w b : window_ok w -> window_ok (set_acknowledged w b).
Proof using. intros []. by split. Qed.

Lemma stream_prepare_update_ok w s budget w' r :
  window_ok w -> truth s -> stream_prepare_update w s budget = (w', r) ->
  window_ok w' /\ forall u, r = Ok (Some u) -> update_ok u.
Proof using All.
  intros Hw Hs Hp. unfold stream_prepare_update in Hp. rewrite (truth_valid _ Hs) in Hp.
  match type of Hp with (if ?b then _ else _) = _ => destruct b eqn:Eb end; [by simplify_eq|].
  destruct (ssw_base_acknowledged w); cbn [negb] in Hp.
  - eapply send_update_ok; [done|done| |done]. intros He.
    rewrite bool_decide_eq_true_2 in Eb by done. cbn in Eb. bool_prop. done.
  - simplify_eq. split; [|done]. apply set_target_ok; [done|]. by intros ? [= <-].
Qed.

Lemma retry_latest_ok w budget w' r :
  window_ok w -> retry_latest w budget = (w', r) ->
  window_ok w' /\ forall u, r = Ok (Some u) -> update_ok u.
Proof using All.
  intros Hw Hp. unfold retry_latest in Hp. pose proof (wok_target _ Hw) as Ht.
  destruct (ssw_latest_target w) as [s|]; [|by simplify_eq]. specialize (Ht _ eq_refl).
  match type of Hp with (if ?b then _ else _) = _ => destruct b eqn:Eb end.
  { simplify_eq. split; [by apply set_target_ok|done]. }
  destruct (ssw_base_acknowledged w); cbn [negb] in Hp; [|by simplify_eq].
  eapply send_update_ok; [done|done| |done]. intros He.
  rewrite bool_decide_eq_true_2 in Eb by done. cbn in Eb. by bool_prop.
Qed.

Lemma rekey_latest_ok w w' r :
  window_ok w -> rekey_latest w = (w', r) ->
  window_ok w' /\ forall u, r = Ok (Some u) -> update_ok u.
Proof using truth_valid.
  intros Hw Hp. unfold rekey_latest in Hp. pose proof (wok_target _ Hw) as Ht.
  destruct (ssw_base_acknowledged w); cbn [negb] in Hp; [|by simplify_eq].
  destruct (ssw_latest_target w) as [s|]; [|by simplify_eq]. specialize (Ht _ eq_refl).
  match type of Hp with (if ?b then _ else _) = _ => destruct b eqn:Eb end.
  { simplify_eq. split; [by apply set_target_ok|done]. }
  destruct (install_keyframe w s) as [w2 r2] eqn:E. simplify_eq.
  destruct (install_keyframe_ok _ _ _ _ Hw Ht E) as [Hok Hr]. split; [done|].
  intros u Hu. destruct r2; cbn in Hu; simplify_eq. by rewrite (Hr _ eq_refl).
Qed.

Lemma repair_ok w request w' r :
  window_ok w -> repair w request = (w', r) ->
  window_ok w' /\ forall u, r = Ok (Some u) -> update_ok u.
Proof using truth_valid.
  intros Hw Hp. unfold repair in Hp.
  repeat match type of Hp with (if ?b then _ else _) = _ => destruct b; [by simplify_eq|] end.
  destruct (rekey_latest w) as [w1 r1] eqn:E. destruct (rekey_latest_ok _ _ _ Hw E) as [Hok Hu].
  destruct r1 as [[u|]|e]; simplify_eq; [done| |done].
  split; [by apply set_acknowledged_ok|]. intros u [= <-]. cbn. by apply wok_base.
Qed.

Lemma settle_target_ok w ack : window_ok w -> window_ok (settle_target w ack).
Proof using.
  intros Hw. unfold settle_target. destruct (ssw_latest_target w); [|done].
  case_match; [by apply set_target_ok|done].
Qed.

Lemma stream_acknowledge_ok w ack w' r :
  window_ok w -> stream_acknowledge w ack = (w', r) -> window_ok w'.
Proof using.
  intros Hw Hp. unfold stream_acknowledge in Hp.
  do 3 match type of Hp with (if ?b then _ else _) = _ => destruct b; [by simplify_eq|] end.
  match type of Hp with (if ?b then _ else _) = _ => destruct b eqn:Eb end.
  { simplify_eq. apply settle_target_ok. case_match; [by apply set_acknowledged_ok|done]. }
  case_bool_decide; cbn [negb] in Hp; [|by simplify_eq].
  destruct (ssw_sent w !! ack_generation ack) as [s|] eqn:Es; [|by case_match; simplify_eq].
  simplify_eq. apply settle_target_ok. destruct Hw as [Hr Hb Hs Ht Hl Hsize Hpin].
  destruct (Hs _ _ Es) as (Hts & Hg & He). split; cbn; [done|done| |done|done| |].
  - intros g s' [Hin Hge]%map_lookup_filter_Some. apply Hs in Hin as (? & ? & ?). split_and!; [done|done|congruence].
  - etrans; [|exact Hsize]. apply map_size_filter.
  - apply map_lookup_filter_Some. rewrite Hg. split; [done|]. cbn. lia.
Qed.

(** *** The replica *)

Lemma replica_remember_ok r retained pinned s :
  replica_ok r -> truth s ->
  (forall g s', retained !! g = Some s' -> truth s' /\ st_generation s' = g) ->
  (size retained <= rep_retained_generations r)%nat ->
  replica_ok (replica_remember r retained pinned s).
Proof using.
  intros [Hr Hc _ Hl _] Hs Hret Hsize. unfold replica_remember.
  split; cbn; [done|by intros ? [= <-]| |done|].
  - intros g s' Hg. assert (Hin : <[st_generation s := s]> retained !! g = Some s').
    { by eapply lookup_weaken; [|apply evict_retained_subseteq]. }
    destruct (decide (g = st_generation s)) as [->|Hne].
    + rewrite lookup_insert_eq in Hin. by simplify_eq.
    + rewrite lookup_insert_ne in Hin by done. by apply Hret.
  - apply evict_retained_size; lia.
Qed.

Lemma apply_keyframe_ok r s r' res :
  replica_ok r -> truth s -> apply_keyframe r s = (r', res) ->
  replica_ok r' /\ replica_le r r' /\ is_ok res = true /\
  exists c, rep_current r' = Some c /\ st_epoch c = st_epoch s /\ st_generation s <= st_generation c.
Proof using truth_valid.
  intros Hr Hs Ha. unfold apply_keyframe in Ha. rewrite (truth_valid _ Hs) in Ha.
  match type of Ha with (if ?b then _ else _) = _ => destruct b eqn:Eb end; simplify_eq.
  - destruct (rep_current r') as [c|] eqn:Ec; [|done]. bool_prop.
    split_and!; [done|apply replica_le_refl|done|]. exists c. done.
  - split_and!; [|..|done|].
    + apply replica_remember_ok; [done|done| |].
      * intros g s' Hg. destruct (rep_current r); [case_match|]; try by apply (rok_retained _ Hr).
      * pose proof (rok_size _ Hr). destruct (rep_current r); [case_match|]; rewrite ?map_size_empty; lia.
    + intros c Hc. rewrite Hc in Eb. eexists. split; [done|]. intros He.
      rewrite bool_decide_eq_true_2 in Eb by done. cbn in Eb. bool_prop. lia.
    + eexists. split; [done|]. split; [done|lia].
Qed.

Lemma apply_delta_ok r d r' res :
  replica_ok r -> delta_ok d -> apply_datagram r d = (r', res) ->
  replica_ok r' /\ replica_le r r' /\ is_ok res = true.
Proof using truth_valid truth_unique.
  intros Hr (b & t & Hb & Ht & Hrows & Hcols & Hd) Ha.
  destruct (compact_header _ _ _ _ _ Hd) as (Hdt & Hda & Hfr & diff & Hdiff & Hde & Hdb & Hdg & He & Hlt).
  unfold apply_datagram in Ha. rewrite Hfr, Hdt, Hda in Ha. destruct (rok_route _ Hr) as [Hr1 Hr2]. rewrite Hr1, Hr2 in Ha.
  rewrite !bool_decide_eq_true_2 in Ha by done. cbn [negb andb is_none] in Ha. rewrite Hdiff in Ha.
  do 2 (match type of Ha with (if ?b then _ else _) = _ => destruct b eqn:? end;
    [simplify_eq; split_and!; [done|apply replica_le_refl|done]|]).
  destruct (rep_retained r !! tsd_base_generation diff) as [base|] eqn:Eret;
    [|simplify_eq; split_and!; [done|apply replica_le_refl|done]].
  destruct (rok_retained _ Hr _ _ Eret) as [Hbt Hbg].
  case_bool_decide as Hbe; cbn [negb] in Ha; [|simplify_eq; split_and!; [done|apply replica_le_refl|done]].
  assert (base = b) as -> by (apply truth_unique; [done|done|congruence|congruence]).
  rewrite (compact_apply tid aid b t d) in Ha by (auto || congruence).
  cbn [mbind result_bind] in Ha. rewrite (truth_valid _ Ht) in Ha. cbn [mbind result_bind] in Ha. simplify_eq.
  split_and!; [|..|done].
  - apply replica_remember_ok; [done|done|apply (rok_retained _ Hr)|apply (rok_size _ Hr)].
  - intros c Hc. rewrite Hc in Heqb0, Heqb1. eexists. split; [done|]. intros Hec.
    rewrite bool_decide_eq_true_2 in Heqb1 by congruence. cbn in Heqb1. bool_prop. lia.
Qed.

Lemma apply_update_ok r u r' res :
  replica_ok r -> update_ok u -> apply_update r u = (r', res) ->
  replica_ok r' /\ replica_le r r' /\ is_ok res = true.
Proof using truth_valid truth_unique.
  intros Hr Hu Ha. destruct u as [s|d|t]; cbn in Hu, Ha.
  - by apply apply_keyframe_ok in Ha as (? & ? & ? & _).
  - by eapply apply_delta_ok.
  - destruct Hu as (d & Hd & Hok). rewrite Hd in Ha. by eapply apply_delta_ok.
Qed.
End spec.
