(* ===== verification/StreamingNet.v ===== *)
(** * The streaming protocol over a lossy network

    The sender's window, the replica and everything ever put on the network.
    A message may be delivered any number of times, in any order, or never;
    acknowledgements and repair requests likewise.  Safety holds for any number
    of epochs; convergence is shown for one epoch, the life of one terminal. *)
From S2P Require Import Prelude TerminalState TerminalStateSpec TerminalSync TerminalSyncSpec Payload.
From S2P Require Import ViewportDelta ViewportDeltaSpec Transfer TransferSpec DatagramV3 DatagramV3Spec.
From S2P Require Import Streaming StreamingSpec.
Open Scope N_scope.

Record Net := mkNet {
  net_window : StreamingStateWindow;
  net_replica : StreamingReplica;
  net_down : list StreamingUpdate;
  net_acks : list TerminalStateAck;
  net_repairs : list TerminalStateRepairRequest
}.

(** What an operation of the sender puts on the network. *)
Definition issued (r : result (option StreamingUpdate)) : list StreamingUpdate :=
  match r with Ok (Some u) => [u] | _ => [] end.

Section net.
Context `{StreamLib}.
Context (truth : State -> Prop).

Definition datagram_of (u : StreamingUpdate) : option TerminalViewportDatagram :=
  match u with
  | ReliableKeyframe _ => None
  | DatagramDelta d => Some d
  | FragmentedDelta t => match decode_transfer t with Ok d => Some d | Err _ => None end
  end.

Inductive sender_step : StreamingStateWindow -> list TerminalStateAck -> list TerminalStateRepairRequest ->
    StreamingStateWindow -> list StreamingUpdate -> Prop :=
| NPrepare w acks repairs s budget w' r :
    truth s -> stream_prepare_update w s budget = (w', r) -> sender_step w acks repairs w' (issued r)
| NRetry w acks repairs budget w' r :
    retry_latest w budget = (w', r) -> sender_step w acks repairs w' (issued r)
| NRekey w acks repairs w' r :
    rekey_latest w = (w', r) -> sender_step w acks repairs w' (issued r)
| NRepair w acks repairs q w' r :
    q ∈ repairs -> repair w q = (w', r) -> sender_step w acks repairs w' (issued r)
| NAck w acks repairs a w' r :
    a ∈ acks -> stream_acknowledge w a = (w', r) -> sender_step w acks repairs w' [].

Inductive net_step : Net -> Net -> Prop :=
| NSender w rep down acks repairs w' us :
    sender_step w acks repairs w' us ->
    net_step (mkNet w rep down acks repairs) (mkNet w' rep (down ++ us) acks repairs)
| NDeliver w rep down acks repairs u rep' res :
    u ∈ down -> apply_update rep u = (rep', res) ->
    net_step (mkNet w rep down acks repairs) (mkNet w rep' down acks repairs)
| NSendAck w rep down acks repairs a :
    state_ack rep = Some a ->
    net_step (mkNet w rep down acks repairs) (mkNet w rep down (acks ++ [a]) repairs)
| NSendRepair w rep down acks repairs u d q :
    u ∈ down -> datagram_of u = Some d -> repair_request rep d = Ok q ->
    net_step (mkNet w rep down acks repairs) (mkNet w rep down acks (repairs ++ [q])).

(** The connection opens with a keyframe on the reliable stream. *)
Definition net_init (tid aid : string) (n : Net) : Prop :=
  exists s version w rep, truth s /\ with_route_version s tid aid version = Ok w /\
    for_route tid aid = Ok rep /\ n = mkNet w rep [ReliableKeyframe s] [] [].
Definition net_reachable (tid aid : string) (n : Net) : Prop :=
  exists n0, net_init tid aid n0 /\ rtc net_step n0 n.
End net.

(** ** Safety *)

Section safety.
Context `{StreamLib} `{!@DatagramLaws stream_datagram_lib}.
Context (truth : State -> Prop) (tid aid : string).
Hypothesis truth_valid : forall s, truth s -> validate_viewport_state s = Ok tt.
Hypothesis truth_unique : forall s s', truth s -> truth s' ->
  st_epoch s = st_epoch s' -> st_generation s = st_generation s' -> s = s'.

Record net_inv (n : Net) : Prop := {
  ninv_window : window_ok truth tid aid (net_window n);
  ninv_replica : replica_ok truth tid aid (net_replica n);
  ninv_down : Forall (update_ok truth tid aid) (net_down n)
}.

Lemma with_route_version_Ok s version w :
  with_route_version s tid aid version = Ok w ->
  tid <> "" /\ aid <> "" /\ (version = 2 \/ version = 3) /\
  w = mkStreamWindow tid aid s false {[st_generation s := s]} None DEFAULT_RETAINED_GENERATIONS [] version.
Proof using.
  unfold with_route_version, with_route, with_retained_generations. intros Hw. do 2 ok_step Hw.
  ok_step Hr. ok_step Hr. ok_step Hr. ok_inv Hr. ok_inv Hw. cbn. rewrite orb_true_iff, !N.eqb_eq in Hb.
  bool_prop. done.
Qed.

Lemma net_init_inv n : net_init truth tid aid n -> net_inv n.
Proof using.
  intros (s & version & w & rep & Hs & Hw & Hr & ->).
  apply with_route_version_Ok in Hw as (_ & _ & _ & ->). unfold for_route in Hr. ok_step Hr. ok_inv Hr.
  assert (1 <= DEFAULT_RETAINED_GENERATIONS)%nat by (unfold DEFAULT_RETAINED_GENERATIONS; lia).
  split; cbn.
  - split; cbn; [done|done| |done|lia|rewrite map_size_singleton; lia|by rewrite lookup_singleton_eq].
    intros g s'. intros [<- <-]%lookup_singleton_Some. done.
  - split; cbn; [done|done| |lia|rewrite map_size_empty; lia]. intros g s' Hg. by rewrite lookup_empty in Hg.
  - by constructor.
Qed.

Lemma issued_ok r :
  (forall u, r = Ok (Some u) -> update_ok truth tid aid u) -> Forall (update_ok truth tid aid) (issued r).
Proof using. intros Hr. destruct r as [[u|]|]; cbn; [|constructor..]. constructor; [by apply Hr|constructor]. Qed.

Lemma sender_step_ok w acks repairs w' us :
  window_ok truth tid aid w -> sender_step truth w acks repairs w' us ->
  window_ok truth tid aid w' /\ Forall (update_ok truth tid aid) us.
Proof using All.
  intros Hw Hs. destruct Hs as [? ? ? ? ? ? ? Ht Hp|? ? ? ? ? ? Hp|? ? ? ? ? Hp|? ? ? ? ? ? ? Hp|? ? ? ? ? ? ? Hp].
  - edestruct stream_prepare_update_ok as [? ?]; eauto using issued_ok.
  - edestruct retry_latest_ok as [? ?]; eauto using issued_ok.
  - edestruct rekey_latest_ok as [? ?]; eauto using issued_ok.
  - edestruct repair_ok as [? ?]; eauto using issued_ok.
  - split; [by eapply stream_acknowledge_ok|constructor].
Qed.

Lemma net_inv_step n n' : net_inv n -> net_step truth n n' -> net_inv n'.
Proof using All.
  intros [Hw Hr Hd] Hs. destruct Hs as [w rep down acks repairs w' us Hs|w rep down acks repairs u rep' res Hu Ha|
    w rep down acks repairs a Ha|w rep down acks repairs u d q Hu Hdg Hq]; cbn in *.
  - destruct (sender_step_ok _ _ _ _ _ Hw Hs). split; cbn; [done|done|by apply Forall_app].
  - rewrite Forall_forall in Hd. edestruct apply_update_ok as (? & _ & _); eauto.
    split; cbn; [done|done|by apply Forall_forall].
  - by split.
  - by split.
Qed.

Lemma net_reachable_inv n : net_reachable truth tid aid n -> net_inv n.
Proof using All.
  intros (n0 & Hi & Hr). revert Hr. apply rtc_invariant; [by apply net_init_inv|apply net_inv_step].
Qed.
End safety.

(** ** Convergence of one epoch *)

Section convergence.
Context `{StreamLib} `{!@DatagramLaws stream_datagram_lib}.
Context (truth : State -> Prop) (tid aid : string) (epoch : bytes).
Hypothesis truth_valid : forall s, truth s -> validate_viewport_state s = Ok tt.
Hypothesis truth_epoch : forall s, truth s -> st_epoch s = epoch.
Hypothesis truth_unique : forall s s', truth s -> truth s' -> st_generation s = st_generation s' -> s = s'.

Lemma truth_unique_epoch s s' : truth s -> truth s' ->
  st_epoch s = st_epoch s' -> st_generation s = st_generation s' -> s = s'.
Proof using truth_unique. eauto. Qed.

(** The newest generation the sender may have put on the network. *)
Definition top (w : StreamingStateWindow) : N :=
  if ssw_base_acknowledged w then latest_generation w else st_generation (ssw_base w).

(** The generation an update leads to is at most [g]. *)
Definition target_le (g : N) (u : StreamingUpdate) : Prop :=
  match u with
  | ReliableKeyframe s => st_generation s <= g
  | DatagramDelta d => exists diff, datagram_diff d = Ok diff /\ tsd_target_generation diff <= g
  | FragmentedDelta t => exists d diff, decode_transfer t = Ok d /\
      datagram_diff d = Ok diff /\ tsd_target_generation diff <= g
  end.
Lemma target_le_mono g g' u : g <= g' -> target_le g u -> target_le g' u.
Proof using.
  intros Hle. destruct u; cbn; [lia| |]; intros; destruct_and?; naive_solver lia.
Qed.

Record window_one (w : StreamingStateWindow) : Prop := {
  wone_ok : window_ok truth tid aid w;
  wone_retired : ssw_retired_epochs w = [];
  wone_target : forall s, ssw_latest_target w = Some s -> st_generation (ssw_base w) <= st_generation s
}.

(** How an operation moves the window: nothing issued before is ahead of it,
    and an unacknowledged base is on the network. *)
Record moves (ack : option N) (w w' : StreamingStateWindow) (us : list StreamingUpdate) : Prop := {
  mv_one : window_one w';
  mv_top : top w <= top w';
  mv_issued : Forall (target_le (top w')) us;
  mv_unacked : ssw_base_acknowledged w' = false ->
    (ssw_base_acknowledged w = false /\ ssw_base w' = ssw_base w) \/ ReliableKeyframe (ssw_base w') ∈ us;
  mv_newest : latest_generation w <= latest_generation w';
  mv_acked : ssw_base_acknowledged w' = true ->
    (ssw_base_acknowledged w = true /\ ssw_base w' = ssw_base w) \/ ack = Some (st_generation (ssw_base w'))
}.

Lemma same_epoch s s' : truth s -> truth s' -> bool_decide (st_epoch s = st_epoch s') = true.
Proof using truth_epoch. intros. apply bool_decide_eq_true_2. by rewrite !truth_epoch. Qed.

Lemma top_le_latest w : window_one w -> top w <= latest_generation w.
Proof using.
  intros [_ _ Ht]. unfold top, latest_generation in *.
  destruct (ssw_base_acknowledged w), (ssw_latest_target w); auto; lia.
Qed.

Lemma moves_refl w : window_one w -> moves None w w [].
Proof using. intros Hw. split; [done|lia|constructor|by left|lia|by left]. Qed.

Lemma moves_install w s w' r :
  window_one w -> truth s -> ssw_base_acknowledged w = true -> latest_generation w <= st_generation s ->
  install_keyframe w s = (w', r) -> moves None w w' (issued (Some <$> r)) /\ r = Ok (ReliableKeyframe s).
Proof using truth_valid truth_epoch.
  intros Hw Hs Hack Hg Hi.
  pose proof (install_keyframe_ok truth tid aid truth_valid _ _ _ _ (wone_ok _ Hw) Hs Hi) as [Hok _].
  unfold install_keyframe in Hi. rewrite (truth_valid _ Hs), Hack in Hi. cbn [negb] in Hi. simplify_eq.
  rewrite same_epoch by (done || apply (wok_base _ _ _ _ (wone_ok _ Hw))). cbn.
  split; [|done]. split; cbn.
  - split; cbn; [|apply (wone_retired _ Hw)|intros ? [= <-]; lia].
    rewrite same_epoch in Hok by (done || apply (wok_base _ _ _ _ (wone_ok _ Hw))). done.
  - unfold top at 1. rewrite Hack. unfold top. cbn. done.
  - constructor; [|constructor]. unfold top. cbn. lia.
  - intros _. right. left.
  - exact Hg.
  - done.
Qed.

Lemma moves_send w s budget w' r :
  window_one w -> truth s -> ssw_base_acknowledged w = true -> latest_generation w <= st_generation s ->
  st_generation (ssw_base w) < st_generation s ->
  send_update w s budget = (w', r) -> moves None w w' (issued r).
Proof using All.
  intros Hw Hs Hack Hg Hlt Hsend. pose proof (wone_ok _ Hw) as Hok.
  pose proof (wok_base _ _ _ _ Hok) as Hb.
  assert (Hok' : window_ok truth tid aid w').
  { eapply send_update_ok in Hsend as [? _]; eauto using truth_unique_epoch. }
  unfold send_update in Hsend. rewrite same_epoch in Hsend by done. cbn [negb] in Hsend.
  assert (Hkey : forall w' r, (let '(w, r) := install_keyframe w s in (w, Some <$> r)) = (w', r) ->
    moves None w w' (issued r)).
  { intros w1 r1 Hk. destruct (install_keyframe w s) as [w2 r2] eqn:E. simplify_eq.
    by apply (moves_install w s w1 r2). }
  destruct (update_from_base w s budget) as [u|e] eqn:Eu; [|simplify_eq; by apply moves_refl].
  assert (Hrem : u <> ReliableKeyframe s \/ exists x, u = ReliableKeyframe x) by (destruct u; eauto; by left).
  assert (Htop : top (window_remember w s) = st_generation s) by (unfold top; cbn; by rewrite Hack).
  assert (Hmove : target_le (st_generation s) u -> window_ok truth tid aid (window_remember w s) ->
    moves None w (window_remember w s) [u]).
  { intros Ht Hwok. split; rewrite ?Htop.
    - split; [done|apply (wone_retired _ Hw)|]. cbn. intros ? [= <-]. lia.
    - unfold top. by rewrite Hack.
    - by constructor.
    - cbn. congruence.
    - exact Hg.
    - by left. }
  unfold update_from_base in Eu. ok_step Eu; [ok_inv Eu; by apply Hkey|]. ok_step Eu.
  destruct (compact_header _ _ _ _ _ Hr) as (_ & _ & _ & diff & Hd & _ & _ & Hdg & _).
  ok_step Eu.
  - ok_step Eu. ok_inv Eu. destruct a0 as [t|]; [|by apply Hkey]. simplify_eq. apply Hmove; [|done].
    cbn. exists a, diff. split_and!; [by apply prepare_Some, decode_prepared in Hr0|done|lia].
  - ok_step Eu; ok_inv Eu; [|by apply Hkey]. simplify_eq. apply Hmove; [|done].
    cbn. exists diff. split; [done|lia].
Qed.

Lemma moves_prepare w s budget w' r :
  window_one w -> truth s -> stream_prepare_update w s budget = (w', r) -> moves None w w' (issued r).
Proof using All.
  intros Hw Hs Hp. pose proof (wok_base _ _ _ _ (wone_ok _ Hw)) as Hb.
  unfold stream_prepare_update in Hp. rewrite (truth_valid _ Hs), same_epoch in Hp by done. cbn [andb] in Hp.
  match type of Hp with (if ?b then _ else _) = _ => destruct b eqn:Eb end; [simplify_eq; by apply moves_refl|].
  apply orb_false_elim in Eb as [Eb _]. bool_prop.
  destruct (ssw_base_acknowledged w) eqn:Hack; cbn [negb] in Hp; [by apply (moves_send w s budget)|].
  simplify_eq. split.
  - split; [apply set_target_ok; [apply Hw|by intros ? [= <-]]|apply (wone_retired _ Hw)|].
    cbn. intros ? [= <-]. lia.
  - unfold top. cbn. rewrite Hack. lia.
  - constructor.
  - cbn. by left.
  - done.
  - cbn. congruence.
Qed.

(** A prepared state is known to the window from then on. *)
Lemma prepare_records w s budget w' o :
  window_one w -> truth s -> stream_prepare_update w s budget = (w', Ok o) ->
  st_generation s <= latest_generation w'.
Proof using truth_valid truth_epoch.
  intros Hw Hs Hp. pose proof (wok_base _ _ _ _ (wone_ok _ Hw)) as Hb.
  assert (Hbl : st_generation (ssw_base w) <= latest_generation w).
  { unfold latest_generation. destruct (ssw_latest_target w) eqn:E; [by apply (wone_target _ Hw)|lia]. }
  unfold stream_prepare_update in Hp. rewrite (truth_valid _ Hs), same_epoch in Hp by done. cbn [andb] in Hp.
  match type of Hp with (if ?b then _ else _) = _ => destruct b eqn:Eb end.
  { simplify_eq. apply orb_prop in Eb as [Eb|Eb]; [apply orb_prop in Eb as [Eb|Eb]|]; bool_prop; lia. }
  destruct (ssw_base_acknowledged w) eqn:Hack; cbn [negb] in Hp; [|by simplify_eq].
  assert (Hi : forall w' r, install_keyframe w s = (w', r) -> latest_generation w' = st_generation s).
  { intros w1 r1 E. unfold install_keyframe in E. rewrite (truth_valid _ Hs), Hack in E.
    cbn [negb] in E. by simplify_eq. }
  unfold send_update in Hp. rewrite same_epoch in Hp by done. cbn [negb] in Hp.
  destruct (install_keyframe w s) as [w1 r1] eqn:E. specialize (Hi _ _ eq_refl).
  destruct (update_from_base w s budget) as [[]|]; simplify_eq; [lia|done|done].
Qed.

Lemma moves_retarget w : window_one w ->
  (forall s, ssw_latest_target w = Some s -> st_generation s <= st_generation (ssw_base w)) ->
  moves None w (set_target w None) [] /\ latest_generation w = st_generation (ssw_base w).
Proof using.
  intros Hw Hs. assert (Hl : latest_generation w = st_generation (ssw_base w)).
  { unfold latest_generation. pose proof (wone_target _ Hw) as Ht.
    destruct (ssw_latest_target w) as [s|]; [|done]. specialize (Hs _ eq_refl). specialize (Ht _ eq_refl). lia. }
  split; [|done]. split.
  - split; [by apply set_target_ok; [apply Hw|]|apply (wone_retired _ Hw)|done].
  - unfold top. cbn. destruct (ssw_base_acknowledged w); rewrite ?Hl; cbn; lia.
  - constructor.
  - by left.
  - rewrite Hl. done.
  - by left.
Qed.

Lemma moves_retry w budget w' r :
  window_one w -> retry_latest w budget = (w', r) -> moves None w w' (issued r).
Proof using All.
  intros Hw Hp. unfold retry_latest in Hp. pose proof (wok_target _ _ _ _ (wone_ok _ Hw)) as Ht.
  pose proof (wok_base _ _ _ _ (wone_ok _ Hw)) as Hb.
  destruct (ssw_latest_target w) as [s|] eqn:Es; [|simplify_eq; by apply moves_refl].
  specialize (Ht _ eq_refl). rewrite same_epoch in Hp by done. cbn [andb] in Hp.
  destruct (N.leb_spec (st_generation s) (st_generation (ssw_base w))).
  { simplify_eq. apply moves_retarget; [done|]. rewrite Es. by intros ? [= <-]. }
  destruct (ssw_base_acknowledged w) eqn:Hack; cbn [negb] in Hp; [|simplify_eq; by apply moves_refl].
  apply (moves_send w s budget); [done|done|done| |done|done]. unfold latest_generation. rewrite Es. lia.
Qed.

Lemma moves_rekey w w' r :
  window_one w -> rekey_latest w = (w', r) -> moves None w w' (issued r) /\ is_ok r = true /\
  (r = Ok None -> ssw_base w' = ssw_base w /\ ssw_base_acknowledged w' = ssw_base_acknowledged w /\
     (ssw_base_acknowledged w = true -> latest_generation w' = st_generation (ssw_base w'))) /\
  (forall u, r = Ok (Some u) -> latest_generation w' = latest_generation w /\
     st_generation (ssw_base w') = latest_generation w).
Proof using truth_valid truth_epoch.
  intros Hw Hp. unfold rekey_latest in Hp. pose proof (wok_target _ _ _ _ (wone_ok _ Hw)) as Ht.
  pose proof (wok_base _ _ _ _ (wone_ok _ Hw)) as Hb.
  destruct (ssw_base_acknowledged w) eqn:Hack; cbn [negb] in Hp;
    [|simplify_eq; split_and!; [by apply moves_refl|done|done|done]].
  destruct (ssw_latest_target w) as [s|] eqn:Es;
    [|simplify_eq; split_and!; [by apply moves_refl|done| |done]].
  2: { intros _. split_and!; [done|done|]. intros _. unfold latest_generation. by rewrite Es. }
  specialize (Ht _ eq_refl). rewrite same_epoch in Hp by done. cbn [andb] in Hp.
  destruct (N.leb_spec (st_generation s) (st_generation (ssw_base w))).
  { simplify_eq. split_and!; [|done|done|done].
    apply moves_retarget; [done|]. rewrite Es. by intros ? [= <-]. }
  assert (Hl : latest_generation w = st_generation s) by (unfold latest_generation; by rewrite Es).
  destruct (install_keyframe w s) as [w1 r1] eqn:E. simplify_eq.
  destruct (moves_install w s w' r1) as [Hm ->]; [done|done|done|lia|done|].
  split_and!; [done|done|done|]. intros u _. unfold install_keyframe in E.
  rewrite (truth_valid _ Ht), Hack in E. cbn [negb] in E. simplify_eq. done.
Qed.

Lemma moves_repair w q w' r :
  window_one w -> repair w q = (w', r) -> moves None w w' (issued r).
Proof using truth_valid truth_epoch.
  intros Hw Hp. unfold repair in Hp.
  repeat match type of Hp with (if ?b then _ else _) = _ => destruct b eqn:?; [simplify_eq; by apply moves_refl|] end.
  destruct (rekey_latest w) as [w1 r1] eqn:E.
  destruct (moves_rekey _ _ _ Hw E) as (Hm & Hok & Hnone & _).
  destruct r1 as [[u|]|e]; simplify_eq; [done|].
  destruct (Hnone eq_refl) as (Hbase & Hack & Hlat). bool_prop. specialize (Hlat ltac:(done)).
  destruct Hm as [Hone Htop _ _ Hnew _]. split.
  - split; [apply set_acknowledged_ok, Hone|apply (wone_retired _ Hone)|apply (wone_target _ Hone)].
  - unfold top in *. cbn. rewrite Hack in Htop. rewrite Heqb5 in *. lia.
  - constructor; [|constructor]. unfold top. cbn. lia.
  - intros _. right. left.
  - exact Hnew.
  - done.
Qed.

Lemma epoch_length s : truth s -> llen epoch = EPOCH_BYTES /\ 0 < st_generation s.
Proof using truth_valid truth_epoch.
  intros Hs. pose proof (validate_viewport_state_valid _ (truth_valid _ Hs)) as Hv.
  destruct (validate_Ok _ Hv) as (? & ? & ? & ? & [_ _ _ _ _ _ _ He Hg _]).
  rewrite <- (truth_epoch _ Hs). done.
Qed.

Lemma settle_target_spec w a :
  ssw_base (settle_target w a) = ssw_base w /\
  ssw_base_acknowledged (settle_target w a) = ssw_base_acknowledged w /\
  ssw_retired_epochs (settle_target w a) = ssw_retired_epochs w /\
  (ssw_latest_target (settle_target w a) = ssw_latest_target w \/
   (ssw_latest_target (settle_target w a) = None /\ exists s, ssw_latest_target w = Some s /\
      st_generation s <= ack_generation a)).
Proof using.
  unfold settle_target. destruct (ssw_latest_target w) as [s|] eqn:E; [|split_and!; auto].
  case_match; bool_prop; (split_and!; [done|done|done|]); [right|left; done]. eauto.
Qed.

(** Settling after an acknowledgement of at most the base's generation. *)
Lemma settle_latest w a :
  (forall s, ssw_latest_target w = Some s -> st_generation (ssw_base w) <= st_generation s) ->
  ack_generation a <= st_generation (ssw_base w) ->
  latest_generation (settle_target w a) = latest_generation w /\
  forall s, ssw_latest_target (settle_target w a) = Some s -> st_generation (ssw_base w) <= st_generation s.
Proof using.
  intros Ht Ha. destruct (settle_target_spec w a) as (Hb & _ & _ & [Hs|(Hs & s & Hw & Hle)]);
    unfold latest_generation in *; rewrite Hb, Hs; [done|].
  rewrite Hw. specialize (Ht _ Hw). split; [lia|done].
Qed.

Lemma moves_ack w a w' r :
  window_one w -> ack_epoch a = epoch -> 0 < ack_generation a -> ack_generation a <= top w ->
  stream_acknowledge w a = (w', r) ->
  moves (Some (ack_generation a)) w w' [] /\ is_ok r = true /\
  (ack_generation a = st_generation (ssw_base w) -> ssw_base_acknowledged w' = true) /\
  latest_generation w' = latest_generation w.
Proof using truth_valid truth_epoch.
  intros Hw He Hpos Htop Ha. pose proof (wone_ok _ Hw) as Hok. pose proof (wok_base _ _ _ _ Hok) as Hb.
  pose proof (stream_acknowledge_ok truth tid aid _ _ _ _ Hok Ha) as Hok'.
  destruct (epoch_length _ Hb) as [Hlen _]. unfold stream_acknowledge in Ha.
  rewrite He, Hlen, (wone_retired _ Hw), (truth_epoch _ Hb) in Ha.
  rewrite (proj2 (N.ltb_lt _ _) Hpos) in Ha. cbn [negb] in Ha.
  rewrite (bool_decide_eq_false_2 (epoch ∈ [])), (bool_decide_eq_true_2 (epoch = epoch)) in Ha
    by (done || apply not_elem_of_nil). rewrite N.eqb_refl in Ha. cbn [negb andb] in Ha.
  destruct (N.leb_spec (ack_generation a) (st_generation (ssw_base w))) as [Hle|Hgt].
  - injection Ha as <- <-. set (w1 := if _ =? _ then _ else _) in *.
    assert (Hw1 : ssw_base w1 = ssw_base w /\ ssw_latest_target w1 = ssw_latest_target w /\
      ssw_retired_epochs w1 = ssw_retired_epochs w /\
      ssw_base_acknowledged w1 = ssw_base_acknowledged w || (ack_generation a =? st_generation (ssw_base w))).
    { subst w1. destruct (_ =? _); cbn; [by rewrite orb_true_r|by rewrite orb_false_r]. }
    destruct Hw1 as (Hb1 & Ht1 & Hr1 & Hk1).
    destruct (settle_target_spec w1 a) as (Hb2 & Hk2 & Hr2 & _).
    destruct (settle_latest w1 a) as [Hl2 Ht2]; [rewrite Ht1, Hb1; apply (wone_target _ Hw)|by rewrite Hb1|].
    assert (Hl : latest_generation (settle_target w1 a) = latest_generation w).
    { rewrite Hl2. unfold latest_generation. by rewrite Ht1, Hb1. }
    split_and!; [|done| |done].
    + split; [split; [done|by rewrite Hr2, Hr1, (wone_retired _ Hw)|by rewrite Hb2]| |constructor| |lia|].
      * unfold top. rewrite Hk2, Hk1, Hl, Hb2, Hb1. pose proof (top_le_latest _ Hw) as Htl. unfold top in Htl.
        destruct (ssw_base_acknowledged w), (ack_generation a =? _); cbn; lia.
      * rewrite Hk2, Hk1, Hb2, Hb1. intros [-> _]%orb_false_elim. by left.
      * rewrite Hk2, Hk1, Hb2, Hb1. destruct (ssw_base_acknowledged w); [by left|]. cbn.
        intros ->%N.eqb_eq. by right.
    + intros Heq. rewrite Hk2, Hk1, Heq, N.eqb_refl. apply orb_true_r.
  - unfold top in Htop. destruct (ssw_base_acknowledged w) eqn:Hack; [|lia].
    destruct (ssw_sent w !! ack_generation a) as [s|] eqn:Es.
    + injection Ha as <- <-. destruct (wok_sent _ _ _ _ Hok _ _ Es) as (Hs & Hg & _).
      set (w1 := mkStreamWindow _ _ s _ _ _ _ _ _) in *.
      destruct (settle_target_spec w1 a) as (Hb2 & Hk2 & Hr2 & Hcase).
      assert (Hl : latest_generation (settle_target w1 a) = latest_generation w /\
        forall x, ssw_latest_target (settle_target w1 a) = Some x -> st_generation s <= st_generation x).
      { unfold latest_generation in *. rewrite Hb2. unfold settle_target. cbn.
        destruct (ssw_latest_target w) as [x|] eqn:Ex; cbn; [|lia].
        pose proof (wok_target _ _ _ _ Hok _ Ex) as Hx.
        rewrite (bool_decide_eq_true_2 (st_epoch x = ack_epoch a)) by (rewrite He; by apply truth_epoch).
        cbn [andb]. destruct (N.leb_spec (st_generation x) (ack_generation a)); cbn.
        - split; [lia|done].
        - split; [done|]. intros ? [= <-]. lia. }
      destruct Hl as [Hl Ht]. split_and!; [|done|lia|done].
      split; [split; [done|by rewrite Hr2|by rewrite Hb2]| |constructor| |lia|].
      * unfold top. rewrite Hk2, Hack, Hl. cbn. lia.
      * rewrite Hk2. done.
      * intros _. right. rewrite Hb2. cbn. by rewrite Hg.
    + rewrite (proj2 (N.leb_le _ _) Htop) in Ha. simplify_eq. split_and!; [|done|lia|done].
      destruct (moves_refl _ Hw) as [? ? ? ? ? _]. by split; [..|left].
Qed.

(** *** The whole network *)

Record net_one (n : Net) : Prop := {
  none_inv : net_inv truth tid aid n;
  none_window : window_one (net_window n);
  none_down : Forall (target_le (top (net_window n))) (net_down n);
  none_current : forall c, rep_current (net_replica n) = Some c -> st_generation c <= top (net_window n);
  none_acks : forall a, a ∈ net_acks n -> ack_epoch a = epoch /\ 0 < ack_generation a /\
    exists c, rep_current (net_replica n) = Some c /\ ack_generation a <= st_generation c;
  none_acked : ssw_base_acknowledged (net_window n) = true ->
    exists c, rep_current (net_replica n) = Some c /\ st_generation (ssw_base (net_window n)) <= st_generation c;
  none_unacked : ssw_base_acknowledged (net_window n) = false ->
    ReliableKeyframe (ssw_base (net_window n)) ∈ net_down n;
  none_repairs : forall q, q ∈ net_repairs n -> rr_epoch q = epoch /\ 0 < rr_missing_base_generation q /\
    rr_missing_base_generation q <= rr_newest_seen_generation q /\
    rr_missing_base_generation q <= top (net_window n)
}.

Lemma apply_update_le g r u r' res :
  replica_ok truth tid aid r -> target_le g u ->
  (forall c, rep_current r = Some c -> st_generation c <= g) ->
  apply_update r u = (r', res) -> forall c, rep_current r' = Some c -> st_generation c <= g.
Proof using truth_valid.
  intros Hr Hu Hc Ha.
  assert (Hd : forall d diff r' res, datagram_diff d = Ok diff -> tsd_target_generation diff <= g ->
    apply_datagram r d = (r', res) -> forall c, rep_current r' = Some c -> st_generation c <= g).
  { intros d diff r1 res1 Hdiff Hg Hap. unfold apply_datagram in Hap.
    do 2 (match type of Hap with (if ?b then _ else _) = _ => destruct b end; [by simplify_eq|]).
    rewrite Hdiff in Hap.
    do 2 (match type of Hap with (if ?b then _ else _) = _ => destruct b end; [by simplify_eq|]).
    destruct (rep_retained r !! tsd_base_generation diff) as [b|] eqn:Eb; [|by simplify_eq].
    match type of Hap with (if ?b then _ else _) = _ => destruct b end; [by simplify_eq|].
    destruct (apply_compact_viewport_delta b d) as [t|] eqn:Ed; cbn in Hap; [|by simplify_eq].
    destruct (validate_viewport_state t); cbn in Hap; [|by simplify_eq]. simplify_eq.
    cbn. intros c [= <-]. destruct (rok_retained _ _ _ _ Hr _ _ Eb) as [Hb _].
    apply apply_delta_sound in Ed as (diff' & Hd' & _ & _ & _ & _ & -> & _);
      [congruence|by apply validate_viewport_state_valid, truth_valid]. }
  destruct u as [s|d|t]; cbn in Hu, Ha.
  - unfold apply_keyframe in Ha. destruct (validate_viewport_state s); [|by simplify_eq].
    match type of Ha with (if ?b then _ else _) = _ => destruct b end; simplify_eq; [done|].
    cbn. intros c [= <-]. done.
  - destruct Hu as (diff & ? & ?). eauto.
  - destruct Hu as (d & diff & Hdec & ? & ?). rewrite Hdec in Ha. eauto.
Qed.

(** A repair request names a base the sender has used. *)
Lemma repair_request_le g u d rep q :
  update_ok truth tid aid u -> target_le g u -> datagram_of u = Some d -> repair_request rep d = Ok q ->
  rr_epoch q = epoch /\ 0 < rr_missing_base_generation q /\
  rr_missing_base_generation q <= rr_newest_seen_generation q /\ rr_missing_base_generation q <= g.
Proof using truth_valid truth_epoch.
  intros Hu Hle Hd Hq.
  assert (Hdelta : delta_ok truth tid aid d /\ exists diff, datagram_diff d = Ok diff /\ tsd_target_generation diff <= g).
  { destruct u as [s|d'|t]; cbn in *; [done|by simplify_eq|].
    destruct Hu as (d1 & Hd1 & Hok), Hle as (d2 & diff & Hd2 & ? & ?). rewrite Hd1 in Hd, Hd2.
    simplify_eq. eauto. }
  destruct Hdelta as [(b & t & Hb & Ht & _ & _ & Hc) (diff & Hdiff & Hg)].
  destruct (compact_header _ _ _ _ _ Hc) as (_ & _ & _ & diff' & Hdiff' & He & Hbg & Htg & _ & Hlt).
  rewrite Hdiff in Hdiff'. simplify_eq. unfold repair_request in Hq. ok_step Hq. rewrite Hdiff in Hq.
  cbn [mbind result_bind] in Hq. ok_inv Hq. cbn. destruct (epoch_length _ Hb) as [_ Hpos].
  split_and!; [rewrite He; by apply truth_epoch|lia| |lia].
  destruct (rep_current rep); [case_match|]; lia.
Qed.

Lemma net_one_init n : net_init truth tid aid n -> net_one n.
Proof using.
  intros Hi. pose proof (net_init_inv truth tid aid n Hi) as Hinv.
  destruct Hi as (s & version & w & rep & Hs & Hw & Hr & ->).
  apply with_route_version_Ok in Hw as (_ & _ & _ & ->). unfold for_route in Hr. ok_step Hr. ok_inv Hr.
  split; cbn; [done| | |done| |done| |].
  - split; cbn; [apply Hinv|done|done].
  - constructor; [|constructor]. cbn. lia.
  - intros a Ha. by apply elem_of_nil in Ha.
  - intros _. left.
  - intros q Hq. by apply elem_of_nil in Hq.
Qed.

Lemma net_one_sender ack w rep down acks repairs w' us :
  net_one (mkNet w rep down acks repairs) -> net_inv truth tid aid (mkNet w' rep (down ++ us) acks repairs) ->
  moves ack w w' us ->
  (forall g, ack = Some g -> exists c, rep_current rep = Some c /\ g <= st_generation c) ->
  net_one (mkNet w' rep (down ++ us) acks repairs).
Proof using.
  intros [_ Hw Hd Hc Ha Hk Hu Hq] Hinv [Hone Htop Hiss Hun Hnew Hak] Hack. cbn in *. split; cbn; auto.
  - apply Forall_app. split; [|done]. eapply Forall_impl; [done|]. intros u. by apply target_le_mono.
  - intros c Hcc. specialize (Hc c Hcc). lia.
  - intros Hk'. destruct (Hak Hk') as [[Hk0 ->]|Heq]; [by apply Hk|by apply Hack].
  - intros Hk'. apply elem_of_app. destruct (Hun Hk') as [[Hk0 ->]|Hin]; auto.
  - intros q Hin. destruct (Hq q Hin) as (? & ? & ? & ?). split_and!; [done|done|done|lia].
Qed.

Lemma net_one_step n n' : net_one n -> net_step truth n n' -> net_one n'.
Proof using All.
  intros Hn Hs. pose proof (net_inv_step truth tid aid truth_valid truth_unique_epoch _ _ (none_inv _ Hn) Hs) as Hinv.
  destruct Hs as [w rep down acks repairs w' us Hs|w rep down acks repairs u rep' res Hu Ha|
    w rep down acks repairs a Ha|w rep down acks repairs u d q Hu Hdg Hq].
  - pose proof (none_window _ Hn) as Hw. cbn in Hw.
    destruct Hs as [w acks repairs s budget w' r Ht Hp|w acks repairs budget w' r Hp|w acks repairs w' r Hp|
      w acks repairs q w' r Hq Hp|w acks repairs a w' r Hin Hp].
    + eapply (net_one_sender None); [done|done|by eapply moves_prepare|done].
    + eapply (net_one_sender None); [done|done|by eapply moves_retry|done].
    + eapply (net_one_sender None); [done|done|by eapply moves_rekey|done].
    + eapply (net_one_sender None); [done|done|by eapply moves_repair|done].
    + destruct (none_acks _ Hn _ Hin) as (He & Hpos & c & Hc & Hle).
      pose proof (none_current _ Hn _ Hc) as Hct. cbn in *.
      eapply (net_one_sender (Some (ack_generation a))); [done|done|eapply moves_ack; [done..|lia|done]|].
      intros g [= <-]. eauto.
  - destruct Hn as [[_ Hr0 Hd0] Hw Hd Hc Hak Hk Hun Hrep]. cbn in *. rewrite Forall_forall in Hd, Hd0.
    destruct (apply_update_ok truth tid aid truth_valid truth_unique_epoch _ _ _ _ Hr0 (Hd0 _ Hu) Ha) as (Hr' & Hle & _).
    assert (Hup : forall c, rep_current rep = Some c -> exists c', rep_current rep' = Some c' /\
      st_generation c <= st_generation c').
    { intros c Hcc. destruct (Hle c Hcc) as (c' & Hc' & Hg). exists c'. split; [done|]. apply Hg.
      rewrite !truth_epoch; [done|by apply (rok_current _ _ _ _ Hr')|by apply (rok_current _ _ _ _ Hr0)]. }
    split; cbn; [done|done|by apply Forall_forall| | | |done|done].
    + eapply (apply_update_le _ rep u); [done|by apply Hd|done|done].
    + intros a Hin. destruct (Hak a Hin) as (? & ? & c & Hcc & Hg). split_and!; [done|done|].
      destruct (Hup c Hcc) as (c' & ? & ?). exists c'. split; [done|lia].
    + intros Hk'. destruct (Hk Hk') as (c & Hcc & Hg). destruct (Hup c Hcc) as (c' & ? & ?).
      exists c'. split; [done|lia].
  - destruct Hn as [[_ Hr0 _] Hw Hd Hc Hak Hk Hun Hrep]. cbn in *. split; cbn; auto.
    intros a' [Hin|Hin]%elem_of_app; [auto|]. apply list_elem_of_singleton in Hin. subst a'.
    unfold state_ack in Ha. destruct (rep_current rep) as [c|] eqn:Ec; cbn in Ha; simplify_eq. cbn.
    pose proof (rok_current _ _ _ _ Hr0 _ Ec) as Htc.
    split_and!; [by apply truth_epoch|by apply epoch_length|]. exists c. split; [done|lia].
  - destruct Hn as [[Hw0 _ Hd0] Hw Hd Hc Hak Hk Hun Hrep]. cbn in *. split; cbn; auto.
    intros q' [Hin|Hin]%elem_of_app; [auto|]. apply list_elem_of_singleton in Hin. subst q'.
    rewrite Forall_forall in Hd, Hd0.
    by apply (repair_request_le _ _ _ _ _ (Hd0 _ Hu) (Hd _ Hu) Hdg Hq).
Qed.

Lemma net_reachable_one n : net_reachable truth tid aid n -> net_one n.
Proof using All.
  intros (n0 & Hi & Hr). revert Hr. apply rtc_invariant; [by apply net_one_init|apply net_one_step].
Qed.

(** *** Reaching the newest state *)

(** Deliver the unacknowledged keyframe and its acknowledgement. *)
Lemma acknowledge_base n :
  net_one n -> ssw_base_acknowledged (net_window n) = false ->
  exists n', rtc (net_step truth) n n' /\ net_one n' /\ ssw_base_acknowledged (net_window n') = true /\
    latest_generation (net_window n') = latest_generation (net_window n) /\
    rep_current (net_replica n') = Some (ssw_base (net_window n)).
Proof using All.
  intros Hn Hk. pose proof Hn as [[Hwok Hr0 _] Hw Hd Hc _ _ Hun _]. specialize (Hun Hk).
  destruct n as [w rep down acks repairs]. cbn in *. pose proof (wok_base _ _ _ _ Hwok) as Hb.
  destruct (apply_keyframe rep (ssw_base w)) as [rep' res] eqn:Ea.
  assert (Hstep1 : net_step truth (mkNet w rep down acks repairs) (mkNet w rep' down acks repairs)).
  { eapply NDeliver; [done|]. exact Ea. }
  pose proof (net_one_step _ _ Hn Hstep1) as Hn1.
  destruct (apply_keyframe_ok truth tid aid truth_valid _ _ _ _ Hr0 Hb Ea) as (Hr' & _ & _ & c & Hcur & Hce & Hcg).
  assert (c = ssw_base w) as ->.
  { apply truth_unique; [by apply (rok_current _ _ _ _ Hr')|done|].
    pose proof (none_current _ Hn1 _ Hcur) as Hle. cbn in Hle. unfold top in Hle. rewrite Hk in Hle. lia. }
  set (a := mkAck (st_epoch (ssw_base w)) (st_generation (ssw_base w))).
  assert (Hstep2 : net_step truth (mkNet w rep' down acks repairs) (mkNet w rep' down (acks ++ [a]) repairs)).
  { apply NSendAck. unfold state_ack. by rewrite Hcur. }
  pose proof (net_one_step _ _ Hn1 Hstep2) as Hn2.
  destruct (stream_acknowledge w a) as [w' r] eqn:Ek.
  assert (Hstep3 : net_step truth (mkNet w rep' down (acks ++ [a]) repairs)
    (mkNet w' rep' (down ++ []) (acks ++ [a]) repairs)).
  { apply NSender. eapply NAck; [|exact Ek]. apply elem_of_app. right. left. }
  pose proof (net_one_step _ _ Hn2 Hstep3) as Hn3.
  edestruct moves_ack as (Hm & _ & Hacked & Hlat); [exact Hw| | | |exact Ek|].
  - by apply truth_epoch.
  - by apply epoch_length.
  - unfold top. rewrite Hk. cbn. lia.
  - eexists. split; [eapply rtc_l; [exact Hstep1|eapply rtc_l; [exact Hstep2|apply rtc_once; exact Hstep3]]|].
    split; [done|]. cbn. split_and!; [by apply Hacked|done|done].
Qed.

Lemma newest_truth w : window_one w -> exists s, truth s /\ st_generation s = latest_generation w.
Proof using.
  intros Hw. unfold latest_generation. destruct (ssw_latest_target w) as [s|] eqn:E.
  - exists s. split; [by apply (wok_target _ _ _ _ (wone_ok _ Hw))|done].
  - exists (ssw_base w). split; [apply (wok_base _ _ _ _ (wone_ok _ Hw))|done].
Qed.

(** From an acknowledged base: it is the newest state and shown, or rekeying
    makes it so. *)
Lemma converge_acknowledged n :
  net_one n -> ssw_base_acknowledged (net_window n) = true ->
  exists n' c, rtc (net_step truth) n n' /\ rep_current (net_replica n') = Some c /\ truth c /\
    st_generation c = latest_generation (net_window n).
Proof using All.
  intros Hn Hk. pose proof Hn as [[Hwok Hr0 _] Hw _ Hc _ Hak _ _].
  destruct n as [w rep down acks repairs]. cbn in *.
  destruct (rekey_latest w) as [w' r] eqn:Er.
  destruct (moves_rekey _ _ _ Hw Er) as (Hm & Hok & Hnone & Hsome).
  assert (Hstep : net_step truth (mkNet w rep down acks repairs) (mkNet w' rep (down ++ issued r) acks repairs)).
  { apply NSender. by eapply NRekey. }
  pose proof (net_one_step _ _ Hn Hstep) as Hn1.
  destruct r as [[u|]|e]; [| |done].
  - destruct (Hsome _ eq_refl) as [Hlat Hbase].
    destruct (ssw_base_acknowledged w') eqn:Hk'.
    + destruct (mv_acked _ _ _ _ Hm Hk') as [[_ Heq]|?]; [|done].
      destruct (none_acked _ Hn1) as (c & Hcur & Hg); [done|]. cbn in *.
      exists (mkNet w rep down acks repairs), c. split; [done|]. cbn. split_and!; [done|by apply (rok_current _ _ _ _ Hr0)|].
      pose proof (Hc _ Hcur) as Hle. unfold top in Hle. rewrite Hk in Hle. lia.
    + destruct (acknowledge_base _ Hn1) as (n2 & Hr2 & Hn2 & _ & _ & Hcur); [done|]. cbn in *.
      exists n2, (ssw_base w'). split_and!; [by eapply rtc_l|done| |lia].
      apply (wok_base _ _ _ _ (wone_ok _ (mv_one _ _ _ _ Hm))).
  - destruct (Hnone eq_refl) as (Hbase & _ & Hlat). specialize (Hlat Hk).
    destruct (Hak Hk) as (c & Hcur & Hg).
    exists (mkNet w rep down acks repairs), c. split; [done|]. cbn. split_and!; [done|by apply (rok_current _ _ _ _ Hr0)|].
    pose proof (Hc _ Hcur) as Hle. unfold top in Hle. rewrite Hk in Hle.
    pose proof (mv_newest _ _ _ _ Hm). rewrite Hbase in Hlat. lia.
Qed.

Lemma converge n :
  net_one n -> exists n' c, rtc (net_step truth) n n' /\ rep_current (net_replica n') = Some c /\ truth c /\
    st_generation c = latest_generation (net_window n).
Proof using All.
  intros Hn. destruct (ssw_base_acknowledged (net_window n)) eqn:Hk; [by apply converge_acknowledged|].
  destruct (acknowledge_base n Hn Hk) as (n1 & Hr1 & Hn1 & Hk1 & Hlat & _).
  destruct (converge_acknowledged n1 Hn1 Hk1) as (n2 & c & Hr2 & Hc & Ht & Hg).
  exists n2, c. split_and!; [by etrans|done|done|congruence].
Qed.

(** Nothing the receiver sends is rejected by the sender. *)
Lemma sender_accepts n :
  net_one n ->
  (forall a, a ∈ net_acks n -> is_ok (stream_acknowledge (net_window n) a).2 = true) /\
  (forall q, q ∈ net_repairs n -> is_ok (repair (net_window n) q).2 = true).
Proof using truth_valid truth_epoch.
  intros Hn. pose proof Hn as [[Hwok _ _] Hw _ Hc Hak _ _ Hrep]. split.
  - intros a Hin. destruct (Hak a Hin) as (He & Hpos & c & Hcur & Hle). specialize (Hc c Hcur).
    destruct (stream_acknowledge (net_window n) a) as [w' r] eqn:E.
    edestruct moves_ack as (_ & Hok & _); [exact Hw|exact He|exact Hpos|lia|exact E|done].
  - intros q Hin. destruct (Hrep q Hin) as (He & Hpos & Hle & Htop).
    pose proof (wok_base _ _ _ _ Hwok) as Hb. destruct (epoch_length _ Hb) as [Hlen _].
    unfold repair. rewrite He, Hlen, (wone_retired _ Hw), (truth_epoch _ Hb).
    rewrite (proj2 (N.ltb_lt _ _) Hpos), (proj2 (N.leb_le _ _) Hle). cbn [negb].
    rewrite (bool_decide_eq_false_2 (epoch ∈ [])), (bool_decide_eq_true_2 (epoch = epoch))
      by (done || apply not_elem_of_nil). rewrite N.eqb_refl. cbn [negb].
    pose proof (top_le_latest _ Hw) as Htl.
    rewrite (proj2 (N.leb_le _ (latest_generation (net_window n)))) by lia. cbn [negb].
    destruct (ssw_base_acknowledged (net_window n)); [|done]. cbn [negb].
    destruct (rekey_latest (net_window n)) as [w' r] eqn:E.
    destruct (moves_rekey _ _ _ Hw E) as (_ & Hok & _). by destruct r as [[]|].
Qed.
End convergence.

(** ** Theorems *)


(** Memory stays bounded on both sides whatever the network does: neither
    the sender nor the replica retains more generations than its limit, and the
    sender never evicts the base its deltas are computed from. *)
Theorem streaming_bounded `{StreamLib} (laws : @DatagramLaws stream_datagram_lib)
    (truth : State -> Prop) tid aid n :
  (forall s, truth s -> validate_viewport_state s = Ok tt) ->
  (forall s s', truth s -> truth s' ->
    st_epoch s = st_epoch s' -> st_generation s = st_generation s' -> s = s') ->
  net_reachable truth tid aid n ->
  (size (ssw_sent (net_window n)) <= ssw_retained_generations (net_window n))%nat /\
  (size (rep_retained (net_replica n)) <= rep_retained_generations (net_replica n))%nat /\
  ssw_sent (net_window n) !! st_generation (ssw_base (net_window n)) = Some (ssw_base (net_window n)).
Proof.
  intros Hv Hu Hn. pose proof (net_reachable_inv truth tid aid Hv Hu n Hn) as [Hw Hr _].
  split_and!; [apply (wok_size _ _ _ _ Hw)|apply (rok_size _ _ _ _ Hr)|apply (wok_pinned _ _ _ _ Hw)].
Qed.


(** The sender never treats the receiver as faulty: every acknowledgement
    and every repair request a receiver sends, however late or repeated, is
    accepted, even when the generation it names was evicted. *)
Theorem streaming_sender_accepts `{StreamLib} (laws : @DatagramLaws stream_datagram_lib)
    (truth : State -> Prop) tid aid epoch n :
  (forall s, truth s -> validate_viewport_state s = Ok tt) ->
  (forall s, truth s -> st_epoch s = epoch) ->
  (forall s s', truth s -> truth s' -> st_generation s = st_generation s' -> s = s') ->
  net_reachable truth tid aid n ->
  (forall a, a ∈ net_acks n -> is_ok (stream_acknowledge (net_window n) a).2 = true) /\
  (forall q, q ∈ net_repairs n -> is_ok (repair (net_window n) q).2 = true).
Proof.
  intros Hv He Hu Hn. eapply sender_accepts; [done|done|]. by eapply net_reachable_one.
Qed.

(** ** A concrete run *)

Definition ex_stream_lib : StreamLib :=
  {| stream_sync_lib := ex_sync_lib; stream_datagram_lib := ex_datagram_lib |}.
Definition ex_s1 : State := ex_state 1 ex_rows1.
Definition ex_s2 : State := ex_state 2 ex_rows2.
Definition ex_truth (s : State) : Prop := s = ex_s1 \/ s = ex_s2.

Lemma ex_truth_valid s : ex_truth s -> @validate_viewport_state ex_sync_lib s = Ok tt.
Proof. intros [->| ->]; vm_compute; reflexivity. Qed.
Lemma ex_truth_epoch s : ex_truth s -> st_epoch s = replicate 16 7.
Proof. by intros [->| ->]. Qed.
Lemma ex_truth_gen s s' : ex_truth s -> ex_truth s' -> st_generation s = st_generation s' -> s = s'.
Proof. by intros [->| ->] [->| ->]. Qed.
Lemma ex_truth_unique s s' : ex_truth s -> ex_truth s' ->
  st_epoch s = st_epoch s' -> st_generation s = st_generation s' -> s = s'.
Proof. intros ? ? _. by apply ex_truth_gen. Qed.

(** The keyframe is delivered and acknowledged, a delta is sent, a second
    acknowledgement of the keyframe is on its way. *)
Lemma ex_run : exists n d a, @net_reachable ex_stream_lib ex_truth "t" "a" n /\
  net_down n = [ReliableKeyframe ex_s1; DatagramDelta d] /\ net_acks n = [a] /\
  rep_current (net_replica n) = Some ex_s1 /\ latest_generation (net_window n) = 2.
Proof.
  do 3 eexists. split; [|split].
  - eexists. split.
    { exists ex_s1, 2. do 2 eexists. split; [by left|]. split; [reflexivity|]. split; reflexivity. }
    eapply rtc_l. { eapply NDeliver; [left|]. cbn [apply_update]. vm_compute. reflexivity. }
    eapply rtc_l. { eapply NSendAck. reflexivity. }
    eapply rtc_l. { eapply NSender, NAck; [left|]. vm_compute. reflexivity. }
    eapply rtc_l. { eapply NSender. apply (NPrepare ex_truth _ _ _ ex_s2 1000); [by right|].
      vm_compute. reflexivity. }
    apply rtc_refl.
  - reflexivity.
  - split_and!; reflexivity.
Qed.


Lemma streaming_bounded_witness :
  exists n, @net_reachable ex_stream_lib ex_truth "t" "a" n /\
  (size (ssw_sent (net_window n)) <= ssw_retained_generations (net_window n))%nat.
Proof.
  destruct ex_run as (n & d & a & Hr & _). exists n. split; [exact Hr|].
  exact (proj1 (@streaming_bounded ex_stream_lib ex_datagram_laws ex_truth "t" "a" n
    ex_truth_valid ex_truth_unique Hr)).
Defined.


Lemma streaming_sender_accepts_witness :
  exists n a, net_acks n = [a] /\ is_ok (stream_acknowledge (net_window n) a).2 = true.
Proof.
  destruct ex_run as (n & d & a & Hr & _ & Ha & _). exists n, a. split; [exact Ha|].
  refine (proj1 (@streaming_sender_accepts ex_stream_lib ex_datagram_laws ex_truth "t" "a" (replicate 16 7) n
    ex_truth_valid ex_truth_epoch ex_truth_gen Hr) _ _). rewrite Ha. left.
Defined.
