(* ===== verification/Lease.v ===== *)
(** * Input leases ([terminal.rs])

    A terminal has at most one input lease.  [Terminal] holds the fields of
    [struct Terminal] that leases and commands touch: the lease, the recovery
    record, the recovery generation, the lease events that were broadcast, the
    bytes that reached the PTY and the three places that record its size.  The
    functions that take a clock in the source take the instants they read; the
    UUIDs they draw are arguments. *)
From S2P Require Import Prelude TerminalState.
Open Scope N_scope.

Inductive LeaseRevocationReason := TakenOver | Expired | Released.
Record LeaseEvent := mkLeaseEvent {
  ev_revoked_lease_id : string;
  ev_reason : LeaseRevocationReason
}.

(** An [Instant] and a [Duration] are numbers of nanoseconds. *)
Definition INPUT_LEASE_TTL : N := 15 * 1000000000.

Record Lease := mkLease {
  ls_id : string;
  ls_resume_token : string;
  ls_last_sequence : N;
  ls_expires_at : option N
}.
Record InputRecovery := mkRecovery { ir_client_id : string; ir_token : string }.
Record LeaseGrant := mkGrant {
  lg_lease_id : string;
  lg_resume_token : string;
  lg_recovery_generation : N;
  lg_ttl : option N
}.

(** [PtySize] and the engine's [TerminalSize]: rows, columns and pixels. *)
Record Size := mkSize { sz_rows : N; sz_cols : N; sz_pixel_width : N; sz_pixel_height : N }.

Record Terminal := mkTerminal {
  tm_lease : option Lease;
  tm_recovery : option InputRecovery;
  tm_recovery_generation : N;
  tm_lease_events : list LeaseEvent;
  tm_written : bytes;
  tm_engine_size : Size;
  tm_pty_size : Size;
  tm_info_rows : N;
  tm_info_cols : N
}.

Definition set_lease (l : option Lease) (t : Terminal) : Terminal :=
  mkTerminal l (tm_recovery t) (tm_recovery_generation t) (tm_lease_events t) (tm_written t)
    (tm_engine_size t) (tm_pty_size t) (tm_info_rows t) (tm_info_cols t).
Definition set_recovery (r : option InputRecovery) (t : Terminal) : Terminal :=
  mkTerminal (tm_lease t) r (tm_recovery_generation t) (tm_lease_events t) (tm_written t)
    (tm_engine_size t) (tm_pty_size t) (tm_info_rows t) (tm_info_cols t).
Definition set_generation (g : N) (t : Terminal) : Terminal :=
  mkTerminal (tm_lease t) (tm_recovery t) g (tm_lease_events t) (tm_written t)
    (tm_engine_size t) (tm_pty_size t) (tm_info_rows t) (tm_info_cols t).
Definition send_event (id : string) (reason : LeaseRevocationReason) (t : Terminal) : Terminal :=
  mkTerminal (tm_lease t) (tm_recovery t) (tm_recovery_generation t)
    (tm_lease_events t ++ [mkLeaseEvent id reason]) (tm_written t)
    (tm_engine_size t) (tm_pty_size t) (tm_info_rows t) (tm_info_cols t).
Definition write_bytes (b : bytes) (t : Terminal) : Terminal :=
  mkTerminal (tm_lease t) (tm_recovery t) (tm_recovery_generation t) (tm_lease_events t)
    (tm_written t ++ b) (tm_engine_size t) (tm_pty_size t) (tm_info_rows t) (tm_info_cols t).
Definition set_engine_size (s : Size) (t : Terminal) : Terminal :=
  mkTerminal (tm_lease t) (tm_recovery t) (tm_recovery_generation t) (tm_lease_events t)
    (tm_written t) s (tm_pty_size t) (tm_info_rows t) (tm_info_cols t).
Definition set_pty_size (s : Size) (t : Terminal) : Terminal :=
  mkTerminal (tm_lease t) (tm_recovery t) (tm_recovery_generation t) (tm_lease_events t)
    (tm_written t) (tm_engine_size t) s (tm_info_rows t) (tm_info_cols t).
Definition set_info_size (rows cols : N) (t : Terminal) : Terminal :=
  mkTerminal (tm_lease t) (tm_recovery t) (tm_recovery_generation t) (tm_lease_events t)
    (tm_written t) (tm_engine_size t) (tm_pty_size t) rows cols.

(** The lease fields of a terminal that [TerminalManager::spawn] builds. *)
Definition new_terminal (rows cols : N) : Terminal :=
  let size := mkSize rows cols 0 0 in mkTerminal None None 0 [] [] size size rows cols.

Definition past_deadline (l : Lease) (now : N) : bool :=
  match ls_expires_at l with Some deadline => deadline <=? now | None => false end.

(** ** Expiry and validation *)

(** [Terminal::expire_lease_if_due_at]: one critical section. *)
Definition expire_lease_if_due_at (t : Terminal) (lease_id : string) (now : N) : Terminal * bool :=
  match tm_lease t with
  | Some current =>
      if bool_decide (ls_id current = lease_id) && past_deadline current now
      then (send_event lease_id Expired (set_lease None t), true)
      else (t, false)
  | None => (t, false)
  end.

(** [Terminal::owns_lease] at the instant [now]. *)
Definition owns_lease (t : Terminal) (lease_id : string) (now : N) : Terminal * bool :=
  if bool_decide (lease_id = "") then (t, false)
  else
    let t := (expire_lease_if_due_at t lease_id now).1 in
    (t, match tm_lease t with Some l => bool_decide (ls_id l = lease_id) | None => false end).

Definition lease_deadline (t : Terminal) (lease_id : string) : option N :=
  match tm_lease t with
  | Some l => if bool_decide (ls_id l = lease_id) then ls_expires_at l else None
  | None => None
  end.

(** The part of [validate_lease_at] that keeps the lease lock. *)
Definition check_lease (t : Terminal) (lease_id : string) (sequence : N) : result Lease :=
  current ← ok_or (tm_lease t) "terminal has no active input lease";
  ensure! bool_decide (ls_id current = lease_id), "stale or invalid input lease";
  ensure! negb (sequence <=? ls_last_sequence current), "duplicate or out-of-order terminal command";
  Ok current.

Definition validate_lease_at (t : Terminal) (lease_id : string) (sequence now : N)
    : Terminal * result Lease :=
  let t := (expire_lease_if_due_at t lease_id now).1 in (t, check_lease t lease_id sequence).

Definition with_sequence (l : Lease) (sequence : N) : Lease :=
  mkLease (ls_id l) (ls_resume_token l) sequence (ls_expires_at l).

(** ** Grants *)

Section acquire.
(** [Uuid::parse_str(id).is_ok_and(|uuid| uuid.to_string() == id)] *)
Variable canonical_uuid : string -> bool.

(** The check of the recovery proof. *)
Definition authorized (t : Terminal) (resume_token : string) (client_id : option string) : bool :=
  match client_id with
  | Some id =>
      match tm_recovery t with
      | Some record => bool_decide (ir_client_id record = id) && bool_decide (ir_token record = resume_token)
      | None => false
      end
  | None =>
      match tm_recovery t with
      | Some _ => false
      | None =>
          match tm_lease t with
          | Some current => bool_decide (ls_resume_token current = resume_token)
          | None => false
          end
      end
  end.

(** The expiry at the start of an acquisition: whatever lease is due. *)
Definition take_expired (t : Terminal) (now : N) : Terminal :=
  match tm_lease t with
  | Some current =>
      if past_deadline current now then send_event (ls_id current) Expired (set_lease None t) else t
  | None => t
  end.

(** The record of the new owner and the new lease; the old lease is revoked. *)
Definition install_lease (t : Terminal) (client_id : option string) (token lease_id : string)
    (ttl : option N) (now : N) : Terminal :=
  let t := set_recovery ((fun id => mkRecovery id token) <$> client_id) t in
  let old := tm_lease t in
  let t := set_lease (Some (mkLease lease_id token 0 ((fun d => now + d) <$> ttl))) t in
  match old with Some old => send_event (ls_id old) TakenOver t | None => t end.

(** [Terminal::acquire_resumable_lease_at]; [fresh_token] and [fresh_id] are the
    UUIDs it draws. *)
Definition acquire_resumable_lease_at (t : Terminal) (read_only takeover : bool) (resume_token : string)
    (ttl : option N) (client_id : option string) (now : N) (fresh_token fresh_id : string)
    : Terminal * result LeaseGrant :=
  if negb (slen resume_token <=? 128) then (t, Err "invalid resume credential") else
  if negb match client_id with Some id => canonical_uuid id | None => true end
  then (t, Err "invalid client instance ID") else
  if read_only then (t, Ok (mkGrant "" "" 0 None)) else
  let t := take_expired t now in
  let resuming := negb takeover && negb (bool_decide (resume_token = "")) in
  if resuming && negb (authorized t resume_token client_id)
  then (t, Err "input recovery eligibility is missing or revoked") else
  if negb resuming && (negb (is_none (tm_lease t)) || negb (is_none (tm_recovery t))) && negb takeover
  then (t, Err "terminal has an input owner; use a recovery credential, --read-only or --takeover") else
  match (if resuming then Some (tm_recovery_generation t)
         else checked_add U64_MAX (tm_recovery_generation t) 1) with
  | None => (t, Err "input recovery generation exhausted")
  | Some generation =>
      let t := set_generation generation t in
      let token := if resuming then resume_token else fresh_token in
      (install_lease t client_id token fresh_id ttl now,
       Ok (mkGrant fresh_id token (if is_none client_id then 0 else generation) ttl))
  end.
End acquire.

(** ** Commands

    Each is [validate_lease] followed by a part that runs under the lease lock;
    [_locked] is that part. *)

Definition renew_lease_locked (t : Terminal) (lease_id : string) (sequence ttl now : N)
    : Terminal * result unit :=
  match check_lease t lease_id sequence with
  | Err e => (t, Err e)
  | Ok current =>
      (set_lease (Some (mkLease (ls_id current) (ls_resume_token current) sequence (Some (now + ttl)))) t,
       Ok tt)
  end.
(** [renew_lease_at] reads the clock twice. *)
Definition renew_lease_at (t : Terminal) (lease_id : string) (sequence ttl now now' : N)
    : Terminal * result unit :=
  renew_lease_locked (expire_lease_if_due_at t lease_id now).1 lease_id sequence ttl now'.

Definition release_lease_locked (t : Terminal) (lease_id : string) (sequence : N)
    : Terminal * result unit :=
  match check_lease t lease_id sequence with
  | Err e => (t, Err e)
  | Ok _ => (send_event lease_id Released (set_recovery None (set_lease None t)), Ok tt)
  end.
Definition release_lease_command (t : Terminal) (lease_id : string) (sequence now : N)
    : Terminal * result unit :=
  release_lease_locked (expire_lease_if_due_at t lease_id now).1 lease_id sequence.

(** [Terminal::release_lease], when an attachment ends. *)
Definition release_lease (t : Terminal) (lease_id : string) : Terminal :=
  if bool_decide (lease_id = "") then t
  else match tm_lease t with
       | Some l => if bool_decide (ls_id l = lease_id) then set_lease None t else t
       | None => t
       end.

(** What the operating system does with a write or a resize: it succeeds, or it
    fails after [n] bytes went out. *)
Inductive PtyIo := IoOk | IoErr (n : nat).
Definition delivered (io : PtyIo) (data : bytes) : bytes :=
  match io with IoOk => data | IoErr n => take n data end.

Definition write_input_locked (t : Terminal) (lease_id : string) (sequence : N) (data : bytes) (io : PtyIo)
    : Terminal * result unit :=
  match check_lease t lease_id sequence with
  | Err e => (t, Err e)
  | Ok current =>
      let t := write_bytes (delivered io data) t in
      match io with
      | IoOk => (set_lease (Some (with_sequence current sequence)) t, Ok tt)
      | IoErr _ => (t, Err "terminal input failed")
      end
  end.
Definition write_input (t : Terminal) (lease_id : string) (sequence : N) (data : bytes) (now : N) (io : PtyIo)
    : Terminal * result unit :=
  write_input_locked (expire_lease_if_due_at t lease_id now).1 lease_id sequence data io.

(** The dimension checks at the start of [Terminal::resize]. *)
Definition check_size (s : Size) : result unit :=
  ensure! (1 <=? sz_rows s) && (sz_rows s <=? 1000) && ((1 <=? sz_cols s) && (sz_cols s <=? 1000)),
    "terminal dimensions must be between 1 and 1000";
  ensure! Bool.eqb (sz_pixel_width s =? 0) (sz_pixel_height s =? 0)
          && (sz_pixel_width s <=? U16_MAX) && (sz_pixel_height s <=? U16_MAX),
    "terminal pixel dimensions must both be zero or between 1 and 65535";
  Ok tt.
(** [TerminalEngine::resize] *)
Definition engine_resize (t : Terminal) (s : Size) : result Terminal :=
  ensure! (1 <=? sz_rows s) && (sz_rows s <=? MAX_DIMENSION)
          && ((1 <=? sz_cols s) && (sz_cols s <=? MAX_DIMENSION)),
    "terminal dimensions are out of range";
  Ok (set_engine_size s t).
(** The casts to the [u16] fields of [PtySize]. *)
Definition as_u16 (n : N) : N := n mod (U16_MAX + 1).
Definition pty_size (s : Size) : Size :=
  mkSize (as_u16 (sz_rows s)) (as_u16 (sz_cols s)) (as_u16 (sz_pixel_width s)) (as_u16 (sz_pixel_height s)).

Definition resize_locked (t : Terminal) (lease_id : string) (sequence : N) (s : Size) (io : PtyIo)
    : Terminal * result unit :=
  match check_lease t lease_id sequence with
  | Err e => (t, Err e)
  | Ok current =>
      match engine_resize t s with
      | Err e => (t, Err e)
      | Ok t =>
          match io with
          | IoErr _ => (t, Err "terminal resize failed")
          | IoOk =>
              (set_lease (Some (with_sequence current sequence))
                 (set_info_size (sz_rows s) (sz_cols s) (set_pty_size (pty_size s) t)), Ok tt)
          end
      end
  end.
Definition resize (t : Terminal) (lease_id : string) (sequence : N) (s : Size) (now : N) (io : PtyIo)
    : Terminal * result unit :=
  match check_size s with
  | Err e => (t, Err e)
  | Ok _ => resize_locked (expire_lease_if_due_at t lease_id now).1 lease_id sequence s io
  end.
