(* ===== verification/LeaseSpec.v ===== *)
(** * Input leases: fencing and recovery

    Threads run the operations of [Lease] concurrently; what is atomic are the
    sections that hold the lease lock.  [lease_step] runs one such section and
    records, beside the terminal, the leases granted so far, the recovery token
    and the client of every authority generation, and the commands that reached
    the PTY.  The theorems hold in every state that any interleaving reaches. *)
From S2P Require Import Prelude TerminalState Lease.
Open Scope N_scope.

(** ** Sections under the lease lock *)

Inductive lease_op :=
| OpAcquire (read_only takeover : bool) (resume_token : string) (ttl : option N)
    (client_id : option string) (now : N) (fresh_token fresh_id : string)
| OpExpire (lease_id : string) (now : N)
| OpRenew (lease_id : string) (sequence ttl now : N)
| OpReleaseCommand (lease_id : string) (sequence : N)
| OpRelease (lease_id : string)
| OpWrite (lease_id : string) (sequence : N) (data : bytes) (io : PtyIo)
| OpResize (lease_id : string) (sequence : N) (size : Size) (io : PtyIo).

(** A command that passed the lease check: whether it completed, and the input
    that it delivered. *)
Record Command := mkCommand {
  cmd_lease : string;
  cmd_sequence : N;
  cmd_completed : bool;
  cmd_bytes : bytes
}.

Record LeaseSystem := mkLeaseSystem {
  sys_terminal : Terminal;
  sys_granted : list string;
  sys_authority : list (string * option string);
  sys_log : list Command
}.

Section system.
Variable canonical_uuid : string -> bool.

Definition log_command (s : LeaseSystem) (id : string) (sequence : N) (data : bytes)
    (r : Terminal * result unit) : LeaseSystem :=
  let admitted := is_ok (check_lease (sys_terminal s) id sequence) in
  mkLeaseSystem r.1 (sys_granted s) (sys_authority s)
    (if admitted then sys_log s ++ [mkCommand id sequence (is_ok r.2) data] else sys_log s).

Definition lease_run (s : LeaseSystem) (op : lease_op) : LeaseSystem :=
  let t := sys_terminal s in
  match op with
  | OpAcquire read_only takeover resume_token ttl client_id now fresh_token fresh_id =>
      let '(t', r) := acquire_resumable_lease_at canonical_uuid t read_only takeover resume_token ttl
                        client_id now fresh_token fresh_id in
      match r with
      | Ok g =>
          if read_only then mkLeaseSystem t' (sys_granted s) (sys_authority s) (sys_log s)
          else mkLeaseSystem t' (sys_granted s ++ [lg_lease_id g])
                 (if tm_recovery_generation t' =? tm_recovery_generation t
                  then sys_authority s else sys_authority s ++ [(lg_resume_token g, client_id)])
                 (sys_log s)
      | Err _ => mkLeaseSystem t' (sys_granted s) (sys_authority s) (sys_log s)
      end
  | OpExpire id now =>
      mkLeaseSystem (expire_lease_if_due_at t id now).1 (sys_granted s) (sys_authority s) (sys_log s)
  | OpRenew id sequence ttl now => log_command s id sequence [] (renew_lease_locked t id sequence ttl now)
  | OpReleaseCommand id sequence => log_command s id sequence [] (release_lease_locked t id sequence)
  | OpRelease id => mkLeaseSystem (release_lease t id) (sys_granted s) (sys_authority s) (sys_log s)
  | OpWrite id sequence data io =>
      log_command s id sequence (delivered io data) (write_input_locked t id sequence data io)
  | OpResize id sequence size io => log_command s id sequence [] (resize_locked t id sequence size io)
  end.

(** UUIDs are not drawn twice, and are not empty. *)
Definition op_fresh (s : LeaseSystem) (op : lease_op) : Prop :=
  match op with
  | OpAcquire _ _ _ _ _ _ fresh_token fresh_id =>
      (fresh_id ∉ sys_granted s) /\ (fresh_token ∉ (sys_authority s).*1) /\ fresh_token <> ""
  | _ => True
  end.

Definition lease_step (s s' : LeaseSystem) : Prop := exists op, op_fresh s op /\ s' = lease_run s op.
Definition lease_init (rows cols : N) : LeaseSystem :=
  mkLeaseSystem (new_terminal rows cols) [] [] [].
Definition lease_reachable (s : LeaseSystem) : Prop := exists rows cols, rtc lease_step (lease_init rows cols) s.

(** ** Specification *)

(** Command [a] came before [b]: from an earlier lease, or from the same lease
    with a smaller sequence number unless [a] failed. *)
Definition precedes (granted : list string) (a b : Command) : Prop :=
  exists p q : nat, granted !! p = Some (cmd_lease a) /\ granted !! q = Some (cmd_lease b) /\
    ((p < q)%nat \/ (p = q /\ (cmd_completed a = true -> cmd_sequence a < cmd_sequence b))).

Definition log_sorted (granted : list string) (log : list Command) : Prop :=
  forall (i j : nat) a b, (i < j)%nat -> log !! i = Some a -> log !! j = Some b -> precedes granted a b.

(** ** Invariant *)

Record lease_inv (s : LeaseSystem) : Prop := {
  li_granted : NoDup (sys_granted s);
  li_tokens : NoDup (sys_authority s).*1;
  li_nonempty : "" ∉ (sys_authority s).*1;
  li_generation : llen (sys_authority s) = tm_recovery_generation (sys_terminal s);
  li_current : forall l, tm_lease (sys_terminal s) = Some l ->
    last (sys_granted s) = Some (ls_id l) /\
    last (sys_authority s).*1 = Some (ls_resume_token l) /\
    forall c, c ∈ sys_log s -> cmd_lease c = ls_id l -> cmd_completed c = true ->
      cmd_sequence c <= ls_last_sequence l;
  li_recovery : forall r, tm_recovery (sys_terminal s) = Some r ->
    last (sys_authority s) = Some (ir_token r, Some (ir_client_id r));
  li_logged : forall c, c ∈ sys_log s -> cmd_lease c ∈ sys_granted s;
  li_written : tm_written (sys_terminal s) = concat (cmd_bytes <$> sys_log s);
  li_sorted : log_sorted (sys_granted s) (sys_log s)
}.

(** ** Lemmas *)

Lemma check_lease_Ok t id sequence l :
  check_lease t id sequence = Ok l ->
  tm_lease t = Some l /\ ls_id l = id /\ ls_last_sequence l < sequence.
Proof. unfold check_lease. intros H. ok_inv H. ok_inv Hr. bool_prop. auto. Qed.

Lemma precedes_app g x a b : precedes g a b -> precedes (g ++ [x]) a b.
Proof.
  intros (p & q & Hp & Hq & H). exists p, q.
  split; [by apply lookup_app_l_Some|]. split; [by apply lookup_app_l_Some|done].
Qed.
Lemma log_sorted_app g x log : log_sorted g log -> log_sorted (g ++ [x]) log.
Proof. intros H i j a b ???. eapply precedes_app, H; eauto. Qed.

Lemma last_lookup_length {A} (l : list A) x : last l = Some x -> l !! (length l - 1)%nat = Some x.
Proof. intros H. rewrite last_lookup in H. by replace (length l - 1)%nat with (pred (length l)) by lia. Qed.

(** A new command of the current lease comes after everything in the log. *)
Lemma log_sorted_snoc g log c :
  NoDup g -> last g = Some (cmd_lease c) -> log_sorted g log ->
  (forall a, a ∈ log -> cmd_lease a ∈ g) ->
  (forall a, a ∈ log -> cmd_lease a = cmd_lease c -> cmd_completed a = true ->
     cmd_sequence a < cmd_sequence c) ->
  log_sorted g (log ++ [c]).
Proof.
  intros Hnd Hlast Hs Hin Hlt i j a b Hij Ha Hb.
  apply lookup_snoc_Some in Hb as [[Hj Hb]|[-> <-]].
  { apply (Hs i j); auto. rewrite lookup_app_l in Ha by lia. done. }
  rewrite lookup_app_l in Ha by done. apply list_elem_of_lookup_2 in Ha.
  destruct (list_elem_of_lookup_1 _ _ (Hin _ Ha)) as [p Hp].
  apply last_lookup_length in Hlast. exists p, (length g - 1)%nat. split; [done|]. split; [done|].
  pose proof (lookup_lt_Some _ _ _ Hp).
  destruct (decide (p = length g - 1)%nat) as [->|]; [right|left; lia].
  split; [done|]. intros Hc. apply Hlt; congruence.
Qed.

(** Only the lease, its sequence and the PTY change: the shape of every step that
    grants nothing. *)
Lemma lease_inv_command s t' id sequence completed data l :
  lease_inv s -> tm_lease (sys_terminal s) = Some l -> ls_id l = id -> ls_last_sequence l < sequence ->
  tm_recovery_generation t' = tm_recovery_generation (sys_terminal s) ->
  (tm_recovery t' = tm_recovery (sys_terminal s) \/ tm_recovery t' = None) ->
  tm_written t' = tm_written (sys_terminal s) ++ data ->
  (forall l', tm_lease t' = Some l' -> ls_id l' = ls_id l /\ ls_resume_token l' = ls_resume_token l /\
     ls_last_sequence l' = if (completed : bool) then sequence else ls_last_sequence l) ->
  lease_inv (mkLeaseSystem t' (sys_granted s) (sys_authority s)
               (sys_log s ++ [mkCommand id sequence completed data])).
Proof.
  intros [] Hl Hid Hseq Hgen Hrec Hw Hl'.
  destruct (li_current0 _ Hl) as (Hg & Ht & Hold). split; cbn; auto.
  - by rewrite Hgen.
  - intros l' E. destruct (Hl' _ E) as (E1 & E2 & E3). rewrite E1, E2. split; [done|]. split; [done|].
    intros c [Hc| ->%list_elem_of_singleton]%elem_of_app Hcl Hcc.
    + specialize (Hold _ Hc Hcl Hcc). rewrite E3. destruct completed; lia.
    + cbn in *. rewrite E3, Hcc. lia.
  - intros r E. destruct Hrec as [Hr|Hr]; rewrite Hr in E; [auto|discriminate].
  - intros c [Hc| ->%list_elem_of_singleton]%elem_of_app; [auto|]. cbn. rewrite <- Hid.
    apply last_Some in Hg as [g' ->]. set_solver.
  - rewrite Hw, li_written0, fmap_app, concat_app. cbn. by rewrite app_nil_r.
  - apply log_sorted_snoc; cbn; auto; [by rewrite <- Hid|]. intros a Ha Hal Hac.
    specialize (Hold _ Ha). rewrite Hid in Hold. specialize (Hold Hal Hac). lia.
Qed.

Lemma lease_inv_quiet s t' :
  lease_inv s ->
  tm_recovery_generation t' = tm_recovery_generation (sys_terminal s) ->
  tm_recovery t' = tm_recovery (sys_terminal s) ->
  tm_written t' = tm_written (sys_terminal s) ->
  (tm_lease t' = tm_lease (sys_terminal s) \/ tm_lease t' = None) ->
  lease_inv (mkLeaseSystem t' (sys_granted s) (sys_authority s) (sys_log s)).
Proof.
  intros [] Hgen Hrec Hw Hl. split; cbn; rewrite ?Hgen, ?Hrec, ?Hw; auto.
  intros l E. destruct Hl as [Hl|Hl]; rewrite Hl in E; [auto|discriminate].
Qed.

Lemma log_command_inv s id sequence data r :
  lease_inv s ->
  (forall e, check_lease (sys_terminal s) id sequence = Err e -> r.1 = sys_terminal s) ->
  (forall l, check_lease (sys_terminal s) id sequence = Ok l ->
    tm_recovery_generation r.1 = tm_recovery_generation (sys_terminal s) /\
    (tm_recovery r.1 = tm_recovery (sys_terminal s) \/ tm_recovery r.1 = None) /\
    tm_written r.1 = tm_written (sys_terminal s) ++ data /\
    (forall l', tm_lease r.1 = Some l' -> ls_id l' = ls_id l /\ ls_resume_token l' = ls_resume_token l /\
       ls_last_sequence l' = if is_ok r.2 then sequence else ls_last_sequence l)) ->
  lease_inv (log_command s id sequence data r).
Proof.
  intros Hinv Herr Hok. unfold log_command.
  destruct (check_lease (sys_terminal s) id sequence) as [l|e] eqn:E; cbn [is_ok].
  - destruct (Hok _ eq_refl) as (H1 & H2 & H3 & H4). destruct (check_lease_Ok _ _ _ _ E) as (Hl & Hid & Hs).
    eapply lease_inv_command; eauto.
  - rewrite (Herr _ eq_refl). apply lease_inv_quiet; auto.
Qed.

Lemma take_expired_spec t now :
  tm_recovery_generation (take_expired t now) = tm_recovery_generation t /\
  tm_recovery (take_expired t now) = tm_recovery t /\
  tm_written (take_expired t now) = tm_written t /\
  (tm_lease (take_expired t now) = tm_lease t \/ tm_lease (take_expired t now) = None).
Proof. unfold take_expired. destruct (tm_lease t) eqn:E; [destruct (past_deadline _ _)|]; cbn; auto. Qed.

Lemma expire_spec t id now :
  tm_recovery_generation (expire_lease_if_due_at t id now).1 = tm_recovery_generation t /\
  tm_recovery (expire_lease_if_due_at t id now).1 = tm_recovery t /\
  tm_written (expire_lease_if_due_at t id now).1 = tm_written t /\
  (tm_lease (expire_lease_if_due_at t id now).1 = tm_lease t \/
   tm_lease (expire_lease_if_due_at t id now).1 = None).
Proof.
  unfold expire_lease_if_due_at.
  destruct (tm_lease t) eqn:E; [destruct (bool_decide _ && past_deadline _ _)|]; cbn; auto.
Qed.
Lemma release_spec t id :
  tm_recovery_generation (release_lease t id) = tm_recovery_generation t /\
  tm_recovery (release_lease t id) = tm_recovery t /\
  tm_written (release_lease t id) = tm_written t /\
  (tm_lease (release_lease t id) = tm_lease t \/ tm_lease (release_lease t id) = None).
Proof.
  unfold release_lease. case_bool_decide; [auto|].
  destruct (tm_lease t) eqn:E; [case_bool_decide|]; cbn; auto.
Qed.

(** How a grant can come about. *)
Inductive granted_by (t : Terminal) (takeover : bool) (resume_token : string) (client_id : option string)
    (fresh_token : string) (t' : Terminal) (token : string) : Prop :=
| by_resuming :
    takeover = false -> resume_token <> "" -> authorized t resume_token client_id = true ->
    tm_recovery_generation t' = tm_recovery_generation t -> token = resume_token ->
    granted_by t takeover resume_token client_id fresh_token t' token
| by_new_authority :
    takeover = true \/ (resume_token = "" /\ tm_lease t = None /\ tm_recovery t = None) ->
    tm_recovery_generation t' = tm_recovery_generation t + 1 -> token = fresh_token ->
    granted_by t takeover resume_token client_id fresh_token t' token.

Lemma acquire_Ok t takeover resume_token ttl client_id now fresh_token fresh_id t' g :
  acquire_resumable_lease_at canonical_uuid t false takeover resume_token ttl client_id now
    fresh_token fresh_id = (t', Ok g) ->
  granted_by (take_expired t now) takeover resume_token client_id fresh_token t' (lg_resume_token g) /\
  lg_lease_id g = fresh_id /\
  tm_lease t' = Some (mkLease fresh_id (lg_resume_token g) 0 ((fun d => now + d) <$> ttl)) /\
  tm_recovery t' = (fun id => mkRecovery id (lg_resume_token g)) <$> client_id /\
  tm_written t' = tm_written t.
Proof.
  destruct (take_expired_spec t now) as (_ & _ & Hw & _).
  unfold acquire_resumable_lease_at, install_lease. cbv zeta. intros H.
  repeat match type of H with (if ?b then _ else _) = _ => destruct b eqn:?; [discriminate H|] end.
  destruct takeover, (bool_decide (resume_token = "")) eqn:Etok; cbn in *; bool_prop;
    [unfold checked_add in H; destruct (_ <=? _) eqn:?; [|discriminate H]..|].
  all: injection H as <- <-; cbn; rewrite <- Hw.
  all: split; [|destruct (tm_lease (take_expired t now)); cbn; auto].
  1-2: apply by_new_authority; [auto|destruct (tm_lease (take_expired t now)); done|done].
  - destruct (tm_lease (take_expired t now)) eqn:El, (tm_recovery (take_expired t now)) eqn:Er; try done.
    apply by_new_authority; [auto|done|done].
  - apply by_resuming; auto. by destruct (tm_lease (take_expired t now)).
Qed.

Lemma acquire_Err t read_only takeover resume_token ttl client_id now fresh_token fresh_id t' e :
  acquire_resumable_lease_at canonical_uuid t read_only takeover resume_token ttl client_id now
    fresh_token fresh_id = (t', Err e) -> t' = t \/ t' = take_expired t now.
Proof.
  unfold acquire_resumable_lease_at. cbv zeta. intros H.
  repeat match type of H with
  | (if ?b then _ else _) = _ => destruct b eqn:?; [simplify_eq; auto|]
  end.
  case_match; simplify_eq; auto.
Qed.
Lemma acquire_read_only t takeover resume_token ttl client_id now fresh_token fresh_id t' g :
  acquire_resumable_lease_at canonical_uuid t true takeover resume_token ttl client_id now
    fresh_token fresh_id = (t', Ok g) -> t' = t.
Proof.
  unfold acquire_resumable_lease_at. cbv zeta. intros H.
  repeat match type of H with
  | (if true then _ else _) = _ => cbv iota in H
  | (if ?b then _ else _) = _ => destruct b eqn:?; [simplify_eq; auto|]
  end. by simplify_eq.
Qed.

(** The proof that authorizes a resumption is the newest token. *)
Lemma authorized_newest s now resume_token client_id :
  lease_inv s -> authorized (take_expired (sys_terminal s) now) resume_token client_id = true ->
  last (sys_authority s).*1 = Some resume_token /\
  match client_id with
  | Some c => last (sys_authority s) = Some (resume_token, Some c)
  | None => tm_recovery (sys_terminal s) = None
  end.
Proof.
  intros [] H. destruct (take_expired_spec (sys_terminal s) now) as (_ & Hr & _ & Hl).
  unfold authorized in H. rewrite Hr in H. destruct client_id as [c|].
  - destruct (tm_recovery (sys_terminal s)) as [r|] eqn:E; [|discriminate]. bool_prop. subst.
    rewrite fmap_last, (li_recovery0 _ eq_refl). done.
  - destruct (tm_recovery (sys_terminal s)); [discriminate|]. split; [|done].
    destruct Hl as [Hl|Hl]; rewrite Hl in H; [|discriminate].
    destruct (tm_lease (sys_terminal s)) as [l|] eqn:E; [|discriminate]. bool_prop. subst.
    by destruct (li_current0 _ eq_refl) as (_ & ? & _).
Qed.

Lemma last_fst {A B} (l : list (A * B)) x : last l = Some x -> last l.*1 = Some x.1.
Proof. intros H. by rewrite fmap_last, H. Qed.

Lemma lease_inv_grant s t' token client_id fresh_id ttl authority :
  lease_inv s -> fresh_id ∉ sys_granted s ->
  tm_lease t' = Some (mkLease fresh_id token 0 ttl) ->
  tm_recovery t' = (fun id => mkRecovery id token) <$> client_id ->
  tm_written t' = tm_written (sys_terminal s) ->
  NoDup authority.*1 -> "" ∉ authority.*1 -> llen authority = tm_recovery_generation t' ->
  last authority.*1 = Some token ->
  (forall c, client_id = Some c -> last authority = Some (token, Some c)) ->
  lease_inv (mkLeaseSystem t' (sys_granted s ++ [fresh_id]) authority (sys_log s)).
Proof.
  intros [] Hfresh Hl Hr Hw Hnd Hne Hlen Hlast Hcl. split; cbn; auto.
  - apply NoDup_app. split; [done|]. split; [|apply NoDup_singleton].
    intros x Hx ->%list_elem_of_singleton. done.
  - intros l E. rewrite Hl in E. injection E as <-. cbn. rewrite last_snoc. split; [done|].
    split; [done|]. intros c Hc Hcf. exfalso. apply Hfresh. rewrite <- Hcf. auto.
  - intros r E. rewrite Hr in E. destruct client_id; [|discriminate]. injection E as <-. cbn. auto.
  - intros c Hc. apply elem_of_app. auto.
  - congruence.
  - by apply log_sorted_app.
Qed.

Lemma lease_inv_acquire s read_only takeover resume_token ttl client_id now fresh_token fresh_id :
  lease_inv s -> op_fresh s (OpAcquire read_only takeover resume_token ttl client_id now fresh_token fresh_id) ->
  lease_inv (lease_run s (OpAcquire read_only takeover resume_token ttl client_id now fresh_token fresh_id)).
Proof.
  intros Hinv (Hid & Htok & Hne). cbn [lease_run].
  destruct (acquire_resumable_lease_at _ _ _ _ _ _ _ _ _ _) as [t' [g|e]] eqn:E.
  2:{ destruct (take_expired_spec (sys_terminal s) now) as (?&?&?&?).
      destruct (acquire_Err _ _ _ _ _ _ _ _ _ _ _ E) as [->| ->]; apply lease_inv_quiet; auto. }
  destruct read_only.
  { apply acquire_read_only in E as ->. apply lease_inv_quiet; auto. }
  destruct (take_expired_spec (sys_terminal s) now) as (Hg & Hr & Hw & _).
  destruct (acquire_Ok _ _ _ _ _ _ _ _ _ _ E) as (Hby & -> & Hl' & Hr' & Hw').
  destruct Hby as [-> Hnonempty Hauth Hgen Htoken|Hwhy Hgen Htoken]; rewrite Hg in Hgen; rewrite Hgen.
  - rewrite N.eqb_refl. destruct (authorized_newest _ _ _ _ Hinv Hauth) as [Hlast Hcl].
    destruct Hinv. eapply lease_inv_grant; eauto; [by split|congruence|congruence|].
    intros c ->. by rewrite Htoken.
  - rewrite (proj2 (N.eqb_neq _ _)) by lia. destruct Hinv.
    eapply lease_inv_grant; eauto; [by split|..]; rewrite ?fmap_app, ?last_snoc; cbn.
    + apply NoDup_app. split; [done|]. split; [|apply NoDup_singleton].
      intros x Hx ->%list_elem_of_singleton. congruence.
    + intros [?| ?%list_elem_of_singleton]%elem_of_app; [done|congruence].
    + rewrite llen_app, li_generation0, Hgen. done.
    + apply last_snoc.
    + by intros c ->.
Qed.

Lemma lease_inv_init rows cols : lease_inv (lease_init rows cols).
Proof.
  split; cbn; try constructor; try done.
  - apply not_elem_of_nil.
  - intros c Hc. by apply elem_of_nil in Hc.
Qed.

Lemma lease_inv_step s s' : lease_inv s -> lease_step s s' -> lease_inv s'.
Proof.
  intros Hinv (op & Hfresh & ->). destruct op; [by apply lease_inv_acquire|..]; cbn [lease_run].
  - destruct (expire_spec (sys_terminal s) lease_id now) as (?&?&?&?). by apply lease_inv_quiet.
  - apply log_command_inv; auto; unfold renew_lease_locked.
    + by intros e ->.
    + intros l ->. cbn. rewrite app_nil_r. split; [done|]. split; [auto|]. split; [done|].
      by intros ? [= <-].
  - apply log_command_inv; auto; unfold release_lease_locked.
    + by intros e ->.
    + intros l ->. cbn. rewrite app_nil_r. split; [done|]. split; [auto|]. split; [done|]. by intros ?.
  - destruct (release_spec (sys_terminal s) lease_id) as (?&?&?&?). by apply lease_inv_quiet.
  - apply log_command_inv; auto; unfold write_input_locked.
    + by intros e ->.
    + intros l Hc. rewrite Hc. apply check_lease_Ok in Hc as (Hl & _). destruct io; cbn.
      * split; [done|]. split; [auto|]. split; [done|]. by intros ? [= <-].
      * split; [done|]. split; [auto|]. split; [done|]. rewrite Hl. by intros ? [= <-].
  - apply log_command_inv; auto; unfold resize_locked, engine_resize.
    + by intros e ->.
    + intros l Hc. rewrite Hc. apply check_lease_Ok in Hc as (Hl & _).
      case_match eqn:E; [ok_inv E; destruct io|]; cbn; rewrite app_nil_r;
        (split; [done|]; split; [auto|]; split; [done|]); rewrite ?Hl; by intros ? [= <-].
Qed.

Lemma lease_reachable_inv s : lease_reachable s -> lease_inv s.
Proof.
  intros (rows & cols & H). eapply rtc_invariant; [apply lease_inv_init|apply lease_inv_step|exact H].
Qed.

(** Steps that neither grant a lease nor release authority. *)
Definition keeps_authority (op : lease_op) : bool :=
  match op with OpAcquire true _ _ _ _ _ _ _ => true | OpAcquire _ _ _ _ _ _ _ _ => false
              | OpReleaseCommand _ _ => false | _ => true end.
Definition quiet_step (s s' : LeaseSystem) : Prop :=
  exists op, keeps_authority op = true /\ op_fresh s op /\ s' = lease_run s op.

Lemma quiet_step_keeps s s' :
  quiet_step s s' ->
  tm_recovery (sys_terminal s') = tm_recovery (sys_terminal s) /\
  tm_recovery_generation (sys_terminal s') = tm_recovery_generation (sys_terminal s).
Proof.
  intros (op & Hop & _ & ->). destruct op as [[]| | | | | |]; try discriminate; cbn [lease_run].
  - destruct (acquire_resumable_lease_at _ _ _ _ _ _ _ _ _ _) as [t' [g|e]] eqn:E; cbn.
    + by apply acquire_read_only in E as ->.
    + destruct (take_expired_spec (sys_terminal s) now) as (?&?&?&?).
      by destruct (acquire_Err _ _ _ _ _ _ _ _ _ _ _ E) as [->| ->].
  - by destruct (expire_spec (sys_terminal s) lease_id now) as (?&?&?&?).
  - unfold log_command, renew_lease_locked. by destruct (check_lease _ _ _).
  - by destruct (release_spec (sys_terminal s) lease_id) as (?&?&?&?).
  - unfold log_command, write_input_locked. destruct (check_lease _ _ _); [destruct io|]; done.
  - unfold log_command, resize_locked, engine_resize. destruct (check_lease _ _ _); [|done].
    case_match eqn:E; [ok_inv E; destruct io|]; done.
Qed.

Lemma acquire_Ok_header t takeover resume_token ttl client now fresh_token fresh_id t' g :
  acquire_resumable_lease_at canonical_uuid t false takeover resume_token ttl (Some client) now
    fresh_token fresh_id = (t', Ok g) ->
  slen resume_token <= 128 /\ canonical_uuid client = true /\
  lg_recovery_generation g = tm_recovery_generation t'.
Proof.
  unfold acquire_resumable_lease_at, install_lease. cbv zeta. intros H.
  repeat match type of H with (if ?b then _ else _) = _ => destruct b eqn:?; [discriminate H|] end.
  bool_prop. case_match; simplify_eq. cbn. by destruct (tm_lease (take_expired t now)).
Qed.

Lemma resume_succeeds t client token ttl now fresh_token fresh_id :
  tm_recovery t = Some (mkRecovery client token) -> token <> "" -> slen token <= 128 ->
  canonical_uuid client = true ->
  acquire_resumable_lease_at canonical_uuid t false false token ttl (Some client) now fresh_token fresh_id =
  (install_lease (take_expired t now) (Some client) token fresh_id ttl now,
   Ok (mkGrant fresh_id token (tm_recovery_generation t) ttl)).
Proof.
  intros Hr Hne Hlen Hc. destruct (take_expired_spec t now) as (Hg & Hr' & _).
  unfold acquire_resumable_lease_at, authorized. cbv zeta.
  rewrite (proj2 (N.leb_le _ _) Hlen), Hc, bool_decide_false by done. cbn [negb andb].
  rewrite Hr', Hr. cbn [ir_client_id ir_token]. rewrite !bool_decide_true by done. cbn [andb negb is_none].
  rewrite Hg. f_equal. f_equal. rewrite <- Hg. by destruct (take_expired t now).
Qed.

(** A lease past its deadline has ended for every command. *)
Lemma expired_lease t l deadline now :
  tm_lease t = Some l -> ls_expires_at l = Some deadline -> deadline <= now ->
  (expire_lease_if_due_at t (ls_id l) now).1 = send_event (ls_id l) Expired (set_lease None t).
Proof.
  intros Hl Hd Hle. unfold expire_lease_if_due_at, past_deadline. rewrite Hl, Hd.
  rewrite bool_decide_true by done. by rewrite (proj2 (N.leb_le _ _) Hle).
Qed.

(** ** Properties *)


(** Without a takeover, a grant needs either a terminal nobody owns, which
    starts a new authority generation, or the newest recovery token, presented by
    the client it was issued to, which keeps the generation; every older token is
    refused. *)
Theorem recovery_authority s takeover resume_token ttl client_id now fresh_token fresh_id :
  lease_reachable s ->
  match (acquire_resumable_lease_at canonical_uuid (sys_terminal s) false takeover resume_token ttl client_id
           now fresh_token fresh_id).2 with
  | Ok g =>
      takeover = true \/
      (resume_token = "" /\ lg_resume_token g = fresh_token /\
       tm_recovery (sys_terminal s) = None /\ tm_lease (take_expired (sys_terminal s) now) = None) \/
      (resume_token <> "" /\ lg_resume_token g = resume_token /\
       last (sys_authority s).*1 = Some resume_token /\
       match client_id with
       | Some c => last (sys_authority s) = Some (resume_token, Some c)
       | None => tm_recovery (sys_terminal s) = None
       end)
  | Err _ => True
  end /\
  forall (i : nat) older, (sys_authority s).*1 !! i = Some older -> (S i < length (sys_authority s))%nat ->
    is_ok (acquire_resumable_lease_at canonical_uuid (sys_terminal s) false false older ttl client_id
             now fresh_token fresh_id).2 = false.
Proof.
  intros Hinv%lease_reachable_inv. split.
  - destruct (acquire_resumable_lease_at _ _ _ _ _ _ _ _ _ _) as [t' [g|e]] eqn:E; [|done]. cbn [snd].
    destruct (take_expired_spec (sys_terminal s) now) as (_ & Hr & _).
    destruct (acquire_Ok _ _ _ _ _ _ _ _ _ _ E) as ([-> Hne Ha _ ->|[->|(-> & Hl & Hn)] _ ->] & _); auto.
    + right. right. split; [done|]. split; [done|]. by eapply authorized_newest.
    + right. left. rewrite Hr in Hn. auto.
  - intros i older Hi Hlt. destruct (acquire_resumable_lease_at _ _ _ _ _ _ _ _ _ _) as [t' [g|e]] eqn:E; [|done].
    exfalso. destruct (acquire_Ok _ _ _ _ _ _ _ _ _ _ E) as ([_ _ Ha _ _|[?|(-> & _)] _ _] & _); [|done|].
    + destruct (authorized_newest _ _ _ _ Hinv Ha) as [Hlast _]. destruct Hinv.
      apply last_lookup_length in Hlast. rewrite length_fmap in Hlast.
      assert (i = length (sys_authority s) - 1)%nat by (eapply NoDup_lookup; eauto). lia.
    + destruct Hinv. apply li_nonempty0. by eapply list_elem_of_lookup_2.
Qed.

(** Once a client with an instance identifier was granted a lease, no expiry,
    disconnection, command or read-only attachment takes its recovery authority
    away: its token resumes the same generation whenever it comes back, whether or
    not the old lease is still there. *)
Theorem recovery_survives s takeover resume_token ttl client now fresh_token fresh_id t' g s'
    ttl' now' fresh_token' fresh_id' :
  acquire_resumable_lease_at canonical_uuid (sys_terminal s) false takeover resume_token ttl (Some client)
    now fresh_token fresh_id = (t', Ok g) ->
  fresh_token <> "" -> slen fresh_token <= 128 ->
  rtc quiet_step (lease_run s (OpAcquire false takeover resume_token ttl (Some client) now fresh_token fresh_id)) s' ->
  acquire_resumable_lease_at canonical_uuid (sys_terminal s') false false (lg_resume_token g) ttl' (Some client)
    now' fresh_token' fresh_id' =
  (install_lease (take_expired (sys_terminal s') now') (Some client) (lg_resume_token g) fresh_id' ttl' now',
   Ok (mkGrant fresh_id' (lg_resume_token g) (lg_recovery_generation g) ttl')).
Proof.
  intros E Hft Hlen Hrtc. cbn [lease_run] in Hrtc. rewrite E in Hrtc.
  destruct (acquire_Ok _ _ _ _ _ _ _ _ _ _ E) as (Hby & _ & _ & Hr & _).
  destruct (acquire_Ok_header _ _ _ _ _ _ _ _ _ _ E) as (Hlen' & Hc & Hgen).
  assert (Hk : tm_recovery (sys_terminal s') = tm_recovery t' /\
               tm_recovery_generation (sys_terminal s') = tm_recovery_generation t').
  { refine (rtc_invariant quiet_step (fun x => tm_recovery (sys_terminal x) = tm_recovery t' /\
              tm_recovery_generation (sys_terminal x) = tm_recovery_generation t') _ _ _ _ Hrtc); [done|].
    intros a b [Ha Hb] [Hq Hq']%quiet_step_keeps. by rewrite Hq, Hq'. }
  destruct Hk as [Hk1 Hk2]. rewrite Hr in Hk1.
  rewrite (resume_succeeds (sys_terminal s') client (lg_resume_token g)); [congruence|done|..|done].
  - destruct Hby as [_ ? _ _ ->|_ _ ->]; done.
  - destruct Hby as [_ _ _ _ ->|_ _ ->]; done.
Qed.

(** A command that comes at or after the deadline of its lease is refused,
    whatever it is; the lease ends with an [Expired] event, nothing reaches the
    PTY, its size stays, and the recovery record is kept.  A renewal sets the
    deadline to its own time plus the TTL. *)
Theorem lease_deadline_enforced t l deadline now sequence data size io ttl now' :
  tm_lease t = Some l -> ls_expires_at l = Some deadline -> deadline <= now -> ls_id l <> "" ->
  let ended := send_event (ls_id l) Expired (set_lease None t) in
  let refused := (ended, Err "terminal has no active input lease") in
  write_input t (ls_id l) sequence data now io = refused /\
  renew_lease_at t (ls_id l) sequence ttl now now' = refused /\
  release_lease_command t (ls_id l) sequence now = refused /\
  resize t (ls_id l) sequence size now io =
    match check_size size with Ok _ => refused | Err e => (t, Err e) end /\
  owns_lease t (ls_id l) now = (ended, false) /\
  (forall id n, is_ok (renew_lease_at t id n ttl now now').2 = true ->
     lease_deadline (renew_lease_at t id n ttl now now').1 id = Some (now' + ttl)).
Proof.
  intros Hl Hd Hle Hid. cbv zeta. pose proof (expired_lease t l deadline now Hl Hd Hle) as He.
  unfold write_input, renew_lease_at, release_lease_command, resize, owns_lease. rewrite He.
  unfold write_input_locked, renew_lease_locked, release_lease_locked, resize_locked.
  rewrite bool_decide_false by done.
  split; [done|]. split; [done|]. split; [done|]. split; [by destruct (check_size size)|]. split; [done|].
  intros id n. destruct (check_lease _ id n) as [c|] eqn:E; [|done]. intros _.
  apply check_lease_Ok in E as (_ & <- & _). unfold lease_deadline. cbn. by rewrite bool_decide_true.
Qed.
End system.

(** ** Witnesses *)

#[global] Instance op_fresh_dec s op : Decision (op_fresh s op).
Proof. destruct op; cbn; apply _. Defined.

Fixpoint trace_fresh (canonical_uuid : string -> bool) (s : LeaseSystem) (ops : list lease_op) : bool :=
  match ops with
  | [] => true
  | op :: ops => bool_decide (op_fresh s op) && trace_fresh canonical_uuid (lease_run canonical_uuid s op) ops
  end.
Lemma trace_reachable canonical_uuid s ops :
  trace_fresh canonical_uuid s ops = true ->
  rtc (lease_step canonical_uuid) s (foldl (lease_run canonical_uuid) s ops).
Proof.
  revert s. induction ops as [|op ops IH]; intros s H; cbn in *; [apply rtc_refl|].
  bool_prop. eapply rtc_l; [by exists op|]. auto.
Qed.

Definition ex_uuid (s : string) : bool := (slen s =? 36).
Definition ex_client_a : string := "0b0f5f0e-5a3d-4f1e-9c55-5d6a0e6f0a01".
Definition ex_client_b : string := "0b0f5f0e-5a3d-4f1e-9c55-5d6a0e6f0a02".
(** Client A writes, client B takes over and writes, A's late input is refused. *)
Definition ex_lease_ops : list lease_op :=
  [OpAcquire false false "" (Some INPUT_LEASE_TTL) (Some ex_client_a) 0 "token-a" "lease-a";
   OpWrite "lease-a" 1 [104; 105] IoOk;
   OpAcquire false true "" (Some INPUT_LEASE_TTL) (Some ex_client_b) 5 "token-b" "lease-b";
   OpWrite "lease-b" 1 [33] IoOk;
   OpWrite "lease-a" 2 [63] IoOk].
Definition ex_lease_system : LeaseSystem :=
  foldl (lease_run ex_uuid) (lease_init 24 80) ex_lease_ops.
Lemma ex_lease_reachable : lease_reachable ex_uuid ex_lease_system.
Proof. exists 24, 80. apply trace_reachable. vm_compute. reflexivity. Qed.


Lemma recovery_authority_witness :
  is_ok (acquire_resumable_lease_at ex_uuid (sys_terminal ex_lease_system) false false "token-b" None
           (Some ex_client_b) 6 "token-c" "lease-c").2 = true /\
  is_ok (acquire_resumable_lease_at ex_uuid (sys_terminal ex_lease_system) false false "token-a" None
           (Some ex_client_a) 6 "token-c" "lease-c").2 = false.
Proof.
  split; [vm_compute; reflexivity|].
  refine (proj2 (recovery_authority ex_uuid ex_lease_system false "token-a" None (Some ex_client_a) 6
                   "token-c" "lease-c" ex_lease_reachable) 0%nat _ _ _); [reflexivity|].
  vm_compute. lia.
Defined.

(** Client A disconnects, its lease expires; an hour later it resumes. *)
Lemma recovery_survives_witness :
  let op := OpAcquire false false "" (Some INPUT_LEASE_TTL) (Some ex_client_a) 0 "token-a" "lease-a" in
  let gone := lease_run ex_uuid (lease_run ex_uuid (lease_init 24 80) op)
                (OpExpire "lease-a" INPUT_LEASE_TTL) in
  tm_lease (sys_terminal gone) = None /\
  (acquire_resumable_lease_at ex_uuid (sys_terminal gone) false false "token-a" None (Some ex_client_a)
     (3600 * 1000000000) "token-b" "lease-b").2 = Ok (mkGrant "lease-b" "token-a" 1 None).
Proof.
  intros op gone. split; [vm_compute; reflexivity|].
  refine (f_equal snd (recovery_survives ex_uuid (lease_init 24 80) false "" (Some INPUT_LEASE_TTL) ex_client_a 0
             "token-a" "lease-a"
             (acquire_resumable_lease_at ex_uuid (new_terminal 24 80) false false "" (Some INPUT_LEASE_TTL)
                (Some ex_client_a) 0 "token-a" "lease-a").1
             (mkGrant "lease-a" "token-a" 1 (Some INPUT_LEASE_TTL)) gone None (3600 * 1000000000)
             "token-b" "lease-b" _ _ _ _)); [vm_compute; reflexivity|discriminate|vm_compute; discriminate|].
  apply rtc_once. exists (OpExpire "lease-a" INPUT_LEASE_TTL). done.
Defined.

Lemma lease_deadline_enforced_witness :
  let t := sys_terminal ex_lease_system in
  (write_input t "lease-b" 2 [1] (5 + INPUT_LEASE_TTL) IoOk).2 = Err "terminal has no active input lease" /\
  is_ok (write_input t "lease-b" 2 [1] 6 IoOk).2 = true.
Proof.
  intros t. split; [|vm_compute; reflexivity].
  destruct (lease_deadline_enforced t (mkLease "lease-b" "token-b" 1 (Some (5 + INPUT_LEASE_TTL)))
              (5 + INPUT_LEASE_TTL) (5 + INPUT_LEASE_TTL) 2 [1] (mkSize 24 80 0 0) IoOk 1 1) as [H _];
    [vm_compute; reflexivity|reflexivity|lia|discriminate|].
  exact (f_equal snd H).
Defined.
