(* ===== verification/Framing.v ===== *)
(** * Message framing ([protocol.rs])

    A frame is a big-endian length and a payload.  [MessageReader] keeps what it
    has consumed of the current frame, so that a read can be cancelled and taken
    up again.  A stream is what the transport will deliver: pieces of data, and
    points where no data is ready and the read is cancelled.  The end of the list
    is the end of the stream. *)
From S2P Require Import Prelude.
Open Scope N_scope.

Definition MAX_FRAME_SIZE : N := 4 * 1024 * 1024.

(** The protobuf codec of [WireMessage]. *)
Class FrameLib := {
  WireMessage : Type;
  message_encode : WireMessage -> bytes;
  message_decode : bytes -> result WireMessage
}.
Class FrameLaws `{FrameLib} := {
  message_decode_encode m : message_decode (message_encode m) = Ok m
}.

(** ** Writing *)

Section framing.
Context `{FrameLib}.

(** [write_message]; the transport accepts everything ([None]) or fails after
    some bytes. *)
Definition write_message (out : bytes) (message : WireMessage) (io : option nat) : bytes * result unit :=
  let payload := message_encode message in
  if MAX_FRAME_SIZE <? llen payload then (out, Err "frame is too large")
  else
    let frame := to_be_bytes (as_u32 (llen payload)) ++ payload in
    match io with
    | None => (out ++ frame, Ok tt)
    | Some n => (out ++ take n frame, Err "frame was not written")
    end.

(** ** Reading *)

Inductive delivery := Data (d : bytes) | Stall.

Inductive read_result := Count (d : bytes) | Pending.

(** [AsyncReadExt::read] into a buffer of [n] bytes: what is there, at most [n]
    bytes; no bytes at the end of the stream. *)
Definition stream_read (n : nat) (src : list delivery) : read_result * list delivery :=
  match src with
  | [] => (Count [], [])
  | Stall :: src => (Pending, src)
  | Data d :: src =>
      (Count (take n d), if (length d <=? n)%nat then src else Data (drop n d) :: src)
  end.

(** Bytes stored into a buffer from [pos] on. *)
Definition splice (buf : bytes) (pos : nat) (d : bytes) : bytes :=
  take pos buf ++ d ++ drop (pos + length d) buf.

Inductive fill_result := Filled | Stalled | Closed.

(** The loops [while pos < buf.len() { read(&mut buf[pos..]) }]; every turn adds
    at least one byte, so the missing length is enough fuel. *)
Fixpoint fill (fuel : nat) (buf : bytes) (pos : nat) (src : list delivery)
    : bytes * nat * list delivery * fill_result :=
  match fuel with
  | O => (buf, pos, src, Filled)
  | S fuel =>
      if (length buf <=? pos)%nat then (buf, pos, src, Filled)
      else
        match stream_read (length buf - pos) src with
        | (Pending, src) => (buf, pos, src, Stalled)
        | (Count [], src) => (buf, pos, src, Closed)
        | (Count d, src) => fill fuel (splice buf pos d) (pos + length d)%nat src
        end
  end.

(** [Vec::resize(n, 0)] *)
Definition resize_buffer (buf : bytes) (n : nat) : bytes := take n buf ++ replicate (n - length buf) 0.

Record MessageReader := mkReader {
  mr_header : bytes;
  mr_header_read : nat;
  mr_payload : bytes;
  mr_payload_read : nat
}.
Definition reader_default : MessageReader := mkReader [0; 0; 0; 0] 0 [] 0.

(** A call of an [async fn] returns, or is dropped while it waits. *)
Inductive poll (A : Type) := Ready (r : result A) | Cancelled.
#[local] Arguments Ready {_} _.
#[local] Arguments Cancelled {_}.

Definition read_limited (r : MessageReader) (src : list delivery) (limit : N)
    : MessageReader * list delivery * poll (option WireMessage) :=
  match fill (length (mr_header r) - mr_header_read r) (mr_header r) (mr_header_read r) src with
  | (header, header_read, src, res) =>
      let r := mkReader header header_read (mr_payload r) (mr_payload_read r) in
      match res with
      | Stalled => (r, src, Cancelled)
      | Closed =>
          (r, src, Ready (if (header_read =? 0)%nat then Ok None else Err "truncated protocol frame header"))
      | Filled =>
          let length := from_be_bytes header in
          if N.min limit MAX_FRAME_SIZE <? length then (r, src, Ready (Err "peer sent oversized frame"))
          else
            let payload := resize_buffer (mr_payload r) (N.to_nat length) in
            match fill (N.to_nat length - mr_payload_read r) payload (mr_payload_read r) src with
            | (payload, payload_read, src, res) =>
                match res with
                | Stalled => (mkReader header header_read payload payload_read, src, Cancelled)
                | Closed => (mkReader header header_read payload payload_read, src,
                             Ready (Err "truncated protocol frame payload"))
                | Filled =>
                    (mkReader header 0 [] 0, src, Ready (Some <$> message_decode payload))
                end
            end
      end
  end.
Definition reader_read (r : MessageReader) (src : list delivery)
    : MessageReader * list delivery * poll (option WireMessage) := read_limited r src MAX_FRAME_SIZE.

(** [read_message_limited]: a reader of its own, dropped with the call. *)
Definition read_message_limited (src : list delivery) (limit : N)
    : list delivery * poll (option WireMessage) :=
  let '(_, src, p) := read_limited reader_default src limit in (src, p).
Definition read_message (src : list delivery) : list delivery * poll (option WireMessage) :=
  read_message_limited src MAX_FRAME_SIZE.
Definition require_message (src : list delivery) : list delivery * poll WireMessage :=
  let '(src, p) := read_message src in
  (src, match p with
        | Cancelled => Cancelled
        | Ready r => Ready (m ← r; ok_or m "peer closed the stream before sending a message")
        end).

(** The loop around a reader that is polled again after a cancellation, until the
    stream ends or a read fails.  A call ends with a message or at a stall. *)
Fixpoint read_all (fuel : nat) (r : MessageReader) (src : list delivery)
    : list WireMessage * option (result unit) :=
  match fuel with
  | O => ([], None)
  | S fuel =>
      match reader_read r src with
      | (r, src, Cancelled) => read_all fuel r src
      | (r, src, Ready (Ok (Some m))) => let '(ms, e) := read_all fuel r src in (m :: ms, e)
      | (_, _, Ready (Ok None)) => ([], Some (Ok tt))
      | (_, _, Ready (Err e)) => ([], Some (Err e))
      end
  end.
End framing.
Arguments Ready {_} _.
Arguments Cancelled {_}.
