(* ===== verification/FramingSpec.v ===== *)
(** * Message framing: the incremental reader refines a parser

    [parse_frames] is the specification: it cuts a complete byte string into
    frames.  However the transport delivers the same bytes and wherever reads are
    cancelled, [read_all] gives what [parse_frames] gives. *)
From S2P Require Import Prelude Framing.
Open Scope N_scope.

Section spec.
Context `{FrameLib}.

(** ** Specification *)

(** The first frame of a byte string and what follows it. *)
Definition parse_frame (d : bytes) : result (option (WireMessage * bytes)) :=
  if (length d =? 0)%nat then Ok None
  else if (length d <? 4)%nat then Err "truncated protocol frame header"
  else
    let n := from_be_bytes (take 4 d) in
    let rest := drop 4 d in
    if MAX_FRAME_SIZE <? n then Err "peer sent oversized frame"
    else if llen rest <? n then Err "truncated protocol frame payload"
    else m ← message_decode (take (N.to_nat n) rest); Ok (Some (m, drop (N.to_nat n) rest)).

(** Every frame takes at least four bytes, so the length is enough fuel. *)
Fixpoint parse_frames_from (fuel : nat) (d : bytes) : list WireMessage * option (result unit) :=
  match fuel with
  | O => ([], None)
  | S fuel =>
      match parse_frame d with
      | Ok None => ([], Some (Ok tt))
      | Ok (Some (m, d)) => let '(ms, e) := parse_frames_from fuel d in (m :: ms, e)
      | Err e => ([], Some (Err e))
      end
  end.
Definition parse_frames (d : bytes) : list WireMessage * option (result unit) :=
  parse_frames_from (S (length d)) d.

Definition stream_data (src : list delivery) : bytes :=
  concat ((fun x => match x with Data d => d | Stall => [] end) <$> src).
Fixpoint stalls (src : list delivery) : nat :=
  match src with [] => 0 | Stall :: src => S (stalls src) | Data _ :: src => stalls src end.
(** [read] returns no bytes only at the end. *)
Definition stream_ok (src : list delivery) : Prop :=
  Forall (fun x => match x with Data d => d <> [] | Stall => True end) src.

Definition write_all (ms : list WireMessage) : bytes :=
  foldl (fun out m => (write_message out m None).1) [] ms.

(** The reader has consumed [c] of the current frame. *)
Definition holds (r : MessageReader) (c : bytes) : Prop :=
  ((length c < 4)%nat /\ (exists junk, mr_header r = c ++ junk) /\ length (mr_header r) = 4%nat /\
   mr_header_read r = length c /\ mr_payload r = [] /\ mr_payload_read r = 0%nat) \/
  ((4 <= length c)%nat /\ mr_header r = take 4 c /\ mr_header_read r = 4%nat /\
   mr_payload_read r = (length c - 4)%nat /\
   length (mr_payload r) = N.to_nat (from_be_bytes (take 4 c)) /\
   exists zeros, mr_payload r = drop 4 c ++ zeros).

(** ** The loops *)

Lemma splice_nil buf pos : splice buf pos [] = buf.
Proof. unfold splice. cbn. by rewrite Nat.add_0_r, take_drop. Qed.
Lemma length_splice buf pos d :
  (pos + length d <= length buf)%nat -> length (splice buf pos d) = length buf.
Proof. intros. unfold splice. rewrite !length_app, length_take, length_drop. lia. Qed.
Lemma splice_splice buf pos d d' :
  (pos + length d + length d' <= length buf)%nat ->
  splice (splice buf pos d) (pos + length d) d' = splice buf pos (d ++ d').
Proof.
  intros Hl. unfold splice.
  assert (Ht : length (take pos buf ++ d) = (pos + length d)%nat)
    by (rewrite length_app, length_take; lia).
  rewrite !(app_assoc (take pos buf) d). rewrite take_app_length' by done.
  rewrite drop_app. rewrite Ht. rewrite (drop_ge (take pos buf ++ d)) by lia.
  rewrite drop_drop, length_app, <- !app_assoc. cbn. do 4 f_equal. lia.
Qed.

Lemma fill_spec fuel buf pos src :
  stream_ok src -> (pos <= length buf)%nat -> (length buf - pos <= fuel)%nat ->
  exists k src' res,
    fill fuel buf pos src = (splice buf pos (take k (stream_data src)), (pos + k)%nat, src', res) /\
    (k <= length (stream_data src))%nat /\ (pos + k <= length buf)%nat /\
    stream_data src' = drop k (stream_data src) /\ stream_ok src' /\
    match res with
    | Filled => (pos + k = length buf)%nat /\ (stalls src' <= stalls src)%nat
    | Stalled => (pos + k < length buf)%nat /\ (stalls src' < stalls src)%nat
    | Closed => (pos + k < length buf)%nat /\ k = length (stream_data src)
    end.
Proof.
  revert buf pos src. induction fuel as [|fuel IH]; intros buf pos src Hok Hpos Hf; cbn [fill].
  { exists 0%nat, src, Filled. rewrite take_0, splice_nil, drop_0, Nat.add_0_r. split_and!; auto; lia. }
  destruct (Nat.leb_spec (length buf) pos) as [Hle|Hlt].
  { exists 0%nat, src, Filled. rewrite take_0, splice_nil, drop_0, Nat.add_0_r. split_and!; auto; lia. }
  destruct src as [|[d|] src]; cbn [stream_read].
  - exists 0%nat, [], Closed. rewrite take_0, splice_nil, Nat.add_0_r. cbn. split_and!; auto; lia.
  - inversion Hok as [|? ? Hd Hok']; subst.
    destruct (take (length buf - pos) d) as [|x e] eqn:E.
    { destruct d; [done|]. destruct (length buf - pos)%nat eqn:?; [lia|]. cbn in E. discriminate. }
    rewrite <- E. set (n := (length buf - pos)%nat) in *.
    set (src1 := if (length d <=? n)%nat then src else Data (drop n d) :: src).
    assert (Hdata : stream_data (Data d :: src) = take n d ++ stream_data src1).
    { unfold src1, stream_data. destruct (Nat.leb_spec (length d) n); cbn.
      - by rewrite take_ge by lia.
      - by rewrite app_assoc, take_drop. }
    assert (Hok1 : stream_ok src1).
    { unfold src1. destruct (Nat.leb_spec (length d) n); [done|]. constructor; [|done].
      intros Hn. apply (f_equal length) in Hn. rewrite length_drop in Hn. cbn in Hn. lia. }
    assert (Hst : stalls src1 = stalls (Data d :: src))
      by (unfold src1; destruct (length d <=? n)%nat; done).
    assert (Hlen : (1 <= length (take n d) <= n)%nat) by (split; [rewrite E; cbn; lia|rewrite length_take; lia]).
    destruct (IH (splice buf pos (take n d)) (pos + length (take n d))%nat src1) as
      (k & src' & res & Heq & Hk & Hb & Hd' & Hok2 & Hres);
      [done|rewrite length_splice; lia|rewrite length_splice; lia|].
    rewrite length_splice in * by lia. rewrite splice_splice in Heq by (rewrite (length_take (stream_data src1) k); lia).
    exists (length (take n d) + k)%nat, src', res. rewrite Hdata, Heq.
    rewrite take_app_add, drop_app_add, length_app, Nat.add_assoc. rewrite <- Hst. split_and!; auto; try lia.
    destruct res; lia.
  - inversion Hok; subst. exists 0%nat, src, Stalled. rewrite take_0, splice_nil, Nat.add_0_r. cbn.
    split_and!; auto; lia.
Qed.

(** ** One read *)

(** What a read must do, in terms of the bytes [d] that are left. *)
Definition read_ok (src : list delivery) (d : bytes)
    (out : MessageReader * list delivery * poll (option WireMessage)) : Prop :=
  let '(r', src', res) := out in
  stream_ok src' /\
  match res with
  | Cancelled => (stalls src' < stalls src)%nat /\ exists c', holds r' c' /\ c' ++ stream_data src' = d
  | Ready (Ok None) => parse_frame d = Ok None
  | Ready (Ok (Some m)) =>
      (stalls src' <= stalls src)%nat /\ holds r' [] /\ parse_frame d = Ok (Some (m, stream_data src'))
  | Ready (Err e) => parse_frame d = Err e
  end.

Lemma parse_frame_long d :
  (4 <= length d)%nat ->
  parse_frame d =
    if MAX_FRAME_SIZE <? from_be_bytes (take 4 d) then Err "peer sent oversized frame"
    else if llen (drop 4 d) <? from_be_bytes (take 4 d) then Err "truncated protocol frame payload"
    else m ← message_decode (take (N.to_nat (from_be_bytes (take 4 d))) (drop 4 d));
         Ok (Some (m, drop (N.to_nat (from_be_bytes (take 4 d))) (drop 4 d))).
Proof.
  intros Hl. unfold parse_frame.
  rewrite (proj2 (Nat.eqb_neq _ _)) by lia. by rewrite (proj2 (Nat.ltb_ge _ _)) by lia.
Qed.

(** The payload part, once the header is complete. *)
Lemma read_payload (src0 src : list delivery) (c payload zeros : bytes) n :
  stream_ok src -> (stalls src <= stalls src0)%nat -> (4 <= length c)%nat ->
  n = from_be_bytes (take 4 c) -> (n <= MAX_FRAME_SIZE) ->
  payload = drop 4 c ++ zeros -> length payload = N.to_nat n ->
  read_ok src0 (c ++ stream_data src)
    match fill (N.to_nat n - (length c - 4)) payload (length c - 4) src with
    | (payload, payload_read, src, res) =>
        match res with
        | Stalled => (mkReader (take 4 c) 4 payload payload_read, src, Cancelled)
        | Closed => (mkReader (take 4 c) 4 payload payload_read, src,
                     Ready (Err "truncated protocol frame payload"))
        | Filled => (mkReader (take 4 c) 0 [] 0, src, Ready (Some <$> message_decode payload))
        end
    end.
Proof.
  intros Hok Hst Hc Hn Hmax Hp Hlen.
  assert (Hpl : length payload = (length c - 4 + length zeros)%nat)
    by (rewrite Hp, length_app, length_drop; lia).
  destruct (fill_spec (N.to_nat n - (length c - 4)) payload (length c - 4) src) as
    (k & src' & res & -> & Hk & Hb & Hd & Hok' & Hres); [done|lia|lia|].
  assert (Hsp : splice payload (length c - 4) (take k (stream_data src)) =
                drop 4 (c ++ take k (stream_data src)) ++ drop k zeros).
  { unfold splice. rewrite drop_app_le by lia. rewrite Hp, take_app_length' by (rewrite length_drop; lia).
    rewrite <- app_assoc. do 2 f_equal. rewrite length_take, Nat.min_l by lia.
    rewrite drop_app, drop_ge by (rewrite length_drop; lia). cbn. f_equal. rewrite length_drop. lia. }
  assert (Ht : forall l, take 4 (c ++ l) = take 4 c) by (intros l; by rewrite take_app_le by lia).
  assert (Hdd : c ++ stream_data src = (c ++ take k (stream_data src)) ++ stream_data src')
    by (rewrite Hd, <- app_assoc, take_drop; done).
  assert (Htk : length (take k (stream_data src)) = k) by (rewrite length_take; lia).
  destruct res; cbn [read_ok].
  - split; [done|]. rewrite parse_frame_long by (rewrite length_app; lia). rewrite Ht, <- Hn.
    rewrite (proj2 (N.ltb_ge _ _)) by lia. rewrite (proj2 (N.ltb_ge _ _))
      by (unfold llen; rewrite length_drop, length_app; lia).
    assert (Hz : drop k zeros = []) by (apply drop_ge; lia).
    rewrite Hsp, Hz, app_nil_r.
    assert (Hcut : length (drop 4 (c ++ take k (stream_data src))) = N.to_nat n)
      by (rewrite length_drop, length_app; lia).
    set (whole := drop 4 (c ++ take k (stream_data src))) in *.
    assert (Hw : drop 4 (c ++ stream_data src) = whole ++ stream_data src')
      by (rewrite Hdd; apply drop_app_le; rewrite length_app; lia).
    rewrite Hw, take_app_length', drop_app_length' by done.
    destruct (message_decode _); cbn; [|done]. split; [lia|]. split; [|done].
    left. cbn. rewrite length_take. split_and!; auto; [by eexists|lia].
  - split; [done|]. split; [lia|]. exists (c ++ take k (stream_data src)). split; [|done].
    right. cbn. rewrite Ht, length_app, Htk, Hsp. rewrite <- Hn. split_and!; auto; try lia.
    + rewrite <- Hsp. rewrite length_splice; lia.
    + by eexists.
  - split; [done|]. rewrite parse_frame_long by (rewrite length_app; lia). rewrite Ht, <- Hn.
    rewrite (proj2 (N.ltb_ge _ _)) by lia. rewrite (proj2 (N.ltb_lt _ _)); [done|].
    unfold llen. rewrite length_drop, length_app. lia.
Qed.

Lemma read_spec r c src :
  stream_ok src -> holds r c -> read_ok src (c ++ stream_data src) (reader_read r src).
Proof.
  intros Hok [(Hc & [junk Hh] & Hhl & Hhr & Hp & Hpr)|(Hc & Hh & Hhr & Hpr & Hpl & zeros & Hp)];
    unfold reader_read, read_limited; rewrite N.min_id, Hhr, Hpr.
  - rewrite Hhl, Hp.
    destruct (fill_spec (4 - length c) (mr_header r) (length c) src) as
      (k & src' & res & -> & Hk & Hb & Hd & Hok' & Hres); [done|lia|lia|]. rewrite Hhl in *.
    assert (Hsp : splice (mr_header r) (length c) (take k (stream_data src)) =
                  (c ++ take k (stream_data src)) ++ drop k junk).
    { unfold splice. rewrite Hh, take_app_length, <- app_assoc. do 2 f_equal.
      rewrite length_take, Nat.min_l by lia. by rewrite drop_app_add. }
    assert (Htk : length (take k (stream_data src)) = k) by (rewrite length_take; lia).
    assert (Hdd : c ++ stream_data src = (c ++ take k (stream_data src)) ++ stream_data src')
      by (rewrite Hd, <- app_assoc, take_drop; done).
    destruct res; cbn [read_ok mr_payload mr_payload_read].
    + destruct Hres as [Hfull Hst].
      assert (Hj : drop k junk = []) by (apply drop_ge; rewrite Hh, length_app in Hhl; lia).
      rewrite Hsp, Hj, app_nil_r, Hfull. set (h := c ++ take k (stream_data src)) in *.
      assert (Hlh : length h = 4%nat) by (unfold h; rewrite length_app; lia).
      assert (H4 : take 4 h = h) by (apply take_ge; lia).
      destruct (N.ltb_spec MAX_FRAME_SIZE (from_be_bytes h)) as [Hbig|Hsmall].
      { split; [done|]. rewrite Hdd, parse_frame_long by (rewrite length_app; lia).
        rewrite take_app_length' by done. by rewrite (proj2 (N.ltb_lt _ _)). }
      rewrite Hdd. pose proof (read_payload src src' h (resize_buffer [] (N.to_nat (from_be_bytes h)))
        (replicate (N.to_nat (from_be_bytes h)) 0) (from_be_bytes h)) as HP.
      rewrite H4, Hlh in HP. apply HP; auto.
      * unfold resize_buffer. rewrite take_nil. cbn. rewrite Nat.sub_0_r, drop_ge by lia. done.
      * unfold resize_buffer. rewrite take_nil. cbn. rewrite length_replicate. lia.
    + split; [done|]. split; [lia|]. exists (c ++ take k (stream_data src)). split; [|done].
      left. cbn. rewrite Hsp, length_app. split; [lia|]. split; [by eexists|].
      split; [rewrite <- Hsp, length_splice; lia|]. split_and!; auto; lia.
    + split; [done|]. destruct Hres as [Hlt ->]. unfold parse_frame. rewrite length_app.
      destruct (Nat.eqb_spec (length c + length (stream_data src)) 0); [done|].
      by rewrite (proj2 (Nat.ltb_lt _ _)) by lia.
  - assert (Hhl : length (mr_header r) = 4%nat) by (rewrite Hh, length_take; lia).
    rewrite Hhl. cbn [Nat.sub fill mr_payload mr_payload_read]. rewrite Hh.
    destruct (N.ltb_spec MAX_FRAME_SIZE (from_be_bytes (take 4 c))) as [Hbig|Hsmall].
    + split; [done|]. rewrite parse_frame_long by (rewrite length_app; lia).
      rewrite take_app_le by lia. by rewrite (proj2 (N.ltb_lt _ _)).
    + eapply (read_payload src src c (resize_buffer (mr_payload r) _) zeros); auto.
      * unfold resize_buffer. rewrite <- Hpl, take_ge, Nat.sub_diag, app_nil_r by lia. done.
      * unfold resize_buffer. rewrite <- Hpl, take_ge, Nat.sub_diag, app_nil_r by lia. done.
Qed.

(** ** The stream *)

Lemma parse_frame_shorter d m d' : parse_frame d = Ok (Some (m, d')) -> (length d' < length d)%nat.
Proof.
  intros Hp. unfold parse_frame in Hp. ok_inv Hp. rewrite !length_drop.
  apply Nat.eqb_neq in Hb. lia.
Qed.

Lemma parse_frames_fuel f1 f2 d :
  (length d < f1)%nat -> (length d < f2)%nat -> parse_frames_from f1 d = parse_frames_from f2 d.
Proof.
  revert f2 d. induction f1 as [|f1 IH]; intros [|f2] d H1 H2; try lia. cbn.
  destruct (parse_frame d) as [[[m d']|]|e] eqn:E; auto.
  apply parse_frame_shorter in E. by rewrite (IH f2) by lia.
Qed.

Lemma read_all_parses fuel r c src :
  stream_ok src -> holds r c ->
  (length (c ++ stream_data src) + stalls src < fuel)%nat ->
  read_all fuel r src = parse_frames (c ++ stream_data src).
Proof.
  revert r c src. induction fuel as [|fuel IH]; intros r c src Hok Hr Hf; [lia|]. cbn [read_all].
  pose proof (read_spec r c src Hok Hr) as HR.
  destruct (reader_read r src) as [[r' src'] [[[m|]|e]|]]; cbn [read_ok] in HR.
  - destruct HR as (Hok' & Hst & Hr' & Hp). rewrite (IH r' [] src' Hok' Hr').
    + unfold parse_frames at 2. cbn [parse_frames_from]. rewrite Hp. apply parse_frame_shorter in Hp.
      rewrite app_nil_l. unfold parse_frames. by rewrite (parse_frames_fuel _ (length (c ++ stream_data src))) by lia.
    + apply parse_frame_shorter in Hp. cbn. lia.
  - destruct HR as (_ & Hp). unfold parse_frames. cbn [parse_frames_from]. by rewrite Hp.
  - destruct HR as (_ & Hp). unfold parse_frames. cbn [parse_frames_from]. by rewrite Hp.
  - destruct HR as (Hok' & Hst & c' & Hr' & Heq). rewrite <- Heq in *. apply IH; auto. lia.
Qed.

Lemma holds_default : holds reader_default [].
Proof. left. cbn. split; [lia|]. split; [by eexists|]. auto. Qed.

Context `{!FrameLaws}.

Lemma write_message_ok out m :
  llen (message_encode m) <= MAX_FRAME_SIZE ->
  (write_message out m None).1 =
  out ++ to_be_bytes (llen (message_encode m)) ++ message_encode m.
Proof.
  intros Hm. unfold write_message. rewrite (proj2 (N.ltb_ge _ _)) by done. cbn.
  by rewrite as_u32_small by (unfold MAX_FRAME_SIZE, U32_MAX in *; lia).
Qed.

Lemma parse_frame_frame m rest :
  llen (message_encode m) <= MAX_FRAME_SIZE ->
  parse_frame ((to_be_bytes (llen (message_encode m)) ++ message_encode m) ++ rest) = Ok (Some (m, rest)).
Proof.
  intros Hm. rewrite parse_frame_long by (rewrite !length_app, length_to_be_bytes; lia).
  rewrite <- app_assoc, take_app_length', drop_app_length' by done.
  rewrite be_bytes_roundtrip by (unfold MAX_FRAME_SIZE, U32_MAX in *; lia).
  rewrite (proj2 (N.ltb_ge _ _)) by done. rewrite (proj2 (N.ltb_ge _ _)) by (rewrite llen_app; lia).
  unfold llen. rewrite Nat2N.id, take_app_length, drop_app_length, message_decode_encode. done.
Qed.

Lemma write_all_frames out ms :
  Forall (fun m => llen (message_encode m) <= MAX_FRAME_SIZE) ms ->
  foldl (fun out m => (write_message out m None).1) out ms =
  out ++ concat ((fun m => to_be_bytes (llen (message_encode m)) ++ message_encode m) <$> ms).
Proof.
  intros Hms. revert out. induction Hms as [|m ms Hm Hms IH]; intros out;
    cbn [foldl fmap list_fmap concat]; [by rewrite app_nil_r|].
  rewrite IH, write_message_ok by done. by rewrite <- !app_assoc.
Qed.

Lemma parse_frames_written fuel ms :
  Forall (fun m => llen (message_encode m) <= MAX_FRAME_SIZE) ms -> (length ms < fuel)%nat ->
  parse_frames_from fuel
    (concat ((fun m => to_be_bytes (llen (message_encode m)) ++ message_encode m) <$> ms)) =
  (ms, Some (Ok tt)).
Proof.
  intros Hms. revert fuel. induction Hms as [|m ms Hm Hms IH]; intros [|fuel] Hf; cbn in Hf; try lia; [done|].
  cbn [fmap list_fmap concat parse_frames_from]. rewrite parse_frame_frame by done.
  by rewrite IH by lia.
Qed.

Lemma written_length ms :
  Forall (fun m => llen (message_encode m) <= MAX_FRAME_SIZE) ms ->
  (length ms <= length (write_all ms))%nat.
Proof.
  intros Hms. unfold write_all. rewrite write_all_frames by done. cbn. clear Hms.
  induction ms as [|m ms IH]; cbn in *; [lia|]. rewrite length_app. lia.
Qed.

(** ** Properties *)

(** C39: the incremental reader is the one-shot parser, for every byte stream, good
    or hostile: however the bytes are cut into pieces and wherever reads are
    cancelled and taken up again, it returns the messages and the error of
    [parse_frames]; so the messages that were written come back one by one, in
    order, followed by the end of the stream. *)
Theorem framing_refines src ms :
  stream_ok src ->
  Forall (fun m => llen (message_encode m) <= MAX_FRAME_SIZE) ms ->
  read_all (S (length (stream_data src) + stalls src)) reader_default src = parse_frames (stream_data src) /\
  parse_frames (write_all ms) = (ms, Some (Ok tt)).
Proof.
  intros Hok Hms. split.
  - rewrite (read_all_parses _ reader_default [] src Hok holds_default); [done|]. cbn. lia.
  - pose proof (written_length ms Hms) as Hl. unfold parse_frames. revert Hl. unfold write_all.
    rewrite write_all_frames by done. cbn [app]. intros Hl. apply parse_frames_written; [done|lia].
Qed.
End spec.

(** ** Witness *)

(** Messages that are their own encoding. *)
Definition ex_frame_lib : FrameLib := {| WireMessage := bytes; message_encode := id; message_decode := Ok |}.
Definition ex_frame_laws : @FrameLaws ex_frame_lib := Build_FrameLaws ex_frame_lib (fun m => eq_refl).
(** Two messages, cut inside the first header and the second payload, with three
    cancelled reads. *)
Definition ex_stream : list delivery :=
  [Data [0; 0]; Stall; Data [0; 2; 7]; Stall; Data [8; 0; 0; 0; 3; 1]; Stall; Data [2; 3]].

Lemma framing_refines_witness :
  @read_all ex_frame_lib 17 reader_default ex_stream = ([[7; 8]; [1; 2; 3]], Some (Ok tt)).
Proof.
  destruct (@framing_refines ex_frame_lib ex_frame_laws ex_stream [[7; 8]; [1; 2; 3]]) as [H1 H2].
  - repeat constructor; discriminate.
  - repeat constructor; vm_compute; discriminate.
  - change (S (length (stream_data ex_stream) + stalls ex_stream))%nat with 17%nat in H1.
    assert (Hd : stream_data ex_stream = @write_all ex_frame_lib [[7; 8]; [1; 2; 3]]) by reflexivity.
    rewrite Hd, H2 in H1. exact H1.
Defined.
