(* ===== verification/Gateway.v ===== *)
(** * The gateway and its workers ([worker.rs], [worker_identity.rs], [auth.rs])

    The gateway checks the envelope of every datagram a worker emits, discovers
    the identity of the worker behind a socket by challenge and response, pins it
    for the lifetime of a connection, and authenticates users by a signature over
    [authentication_payload]. *)
From S2P Require Import Prelude TerminalState TerminalSync ViewportDelta Payload Transfer.
From S2P Require Import DatagramV3 DatagramV3Spec.
Open Scope N_scope.

(** ** Worker datagrams *)

(** The bounds are computed in [u64]; the counts and lengths are [u32], so that
    nothing overflows. *)
Definition validate_worker_datagram (packet : TerminalViewportDatagram) (version : N) : result unit :=
  ensure! (1 <=? version) && (version <=? 3), "worker datagram was not negotiated";
  match dg_fragment packet with
  | Some fragment =>
      ensure! (version =? 3) && is_none (dg_diff packet) && (dg_inherited_fields packet =? 0)
              && negb (dg_sparse_rows packet) && is_empty (dg_primary_patches packet)
              && is_empty (dg_alternate_patches packet),
        "invalid or unnegotiated worker fragment";
      let total := fr_total_encoded fragment in
      let raw := fr_raw_length fragment in
      let count := fr_count fragment in
      let index := fr_index fragment in
      ensure! (llen (fr_epoch fragment) =? 16) && (llen (fr_transfer_id fragment) =? 16)
              && (llen (fr_sha256 fragment) =? 32) && (0 <? fr_base_generation fragment)
              && (fr_base_generation fragment <? fr_target_generation fragment)
              && (0 <? count) && (count <=? 128) && (index <? count) && (count <=? total)
              && (0 <? raw) && (raw + 2 * total <? U16_MAX)
              && ((fr_encoding fragment =? 0)%Z || (fr_encoding fragment =? 1)%Z),
        "invalid worker fragment bounds";
      ensure! llen (fr_data fragment) =? (index + 1) * total / count - index * total / count,
        "invalid worker fragment interval";
      ensure! negb (fr_encoding fragment =? 0)%Z || (raw =? total), "invalid raw worker fragment length";
      Ok tt
  | None =>
      ensure! (version <? 3) && negb (is_none (dg_diff packet)),
        "worker viewport format differs from negotiated version";
      Ok tt
  end.

(** ** Worker identity *)

Definition MAGIC : bytes := [65; 83; 84; 82; 65; 87; 75; 51].
Definition VERSION : N := 3.

Record WorkerIdentity := mkIdentity { wi_uid : N; wi_pid : N; wi_epoch : bytes }.
#[global] Instance WorkerIdentity_eq_dec : EqDecision WorkerIdentity.
Proof. solve_decision. Defined.

(** What [discover] sends: the magic and a random challenge. *)
Definition discover_request (challenge : bytes) : bytes := MAGIC ++ challenge.

(** A range [b[i..j]] of a buffer. *)
Definition range (b : bytes) (i j : nat) : bytes := take (j - i) (drop i b).

(** [introduce] on what the stream delivers; [read_exact] needs 24 bytes. *)
Definition introduce (identity : WorkerIdentity) (request : bytes) : result bytes :=
  ensure! (24 <=? length request)%nat, "gateway worker handshake ended early";
  ensure! bool_decide (range request 0 8 = MAGIC), "unsupported gateway worker protocol";
  Ok (MAGIC ++ to_be_bytes VERSION ++ to_be_bytes (wi_uid identity) ++ to_be_bytes (wi_pid identity)
        ++ wi_epoch identity ++ replicate 8 0 ++ range request 8 24).

(** The part of [discover] that follows the request; [read_exact] needs 60 bytes. *)
Definition discover (challenge : bytes) (expected_uid : N) (response : bytes) : result WorkerIdentity :=
  ensure! (60 <=? length response)%nat, "worker handshake ended early";
  ensure! bool_decide (range response 0 8 = MAGIC),
    "incompatible worker handshake; explicit worker upgrade required";
  ensure! from_be_bytes (range response 8 12) =? VERSION,
    "unsupported internal worker protocol; explicit worker upgrade required";
  ensure! bool_decide (range response 44 60 = challenge), "worker challenge mismatch";
  let identity := mkIdentity (from_be_bytes (range response 12 16)) (from_be_bytes (range response 16 20))
                    (range response 20 36) in
  ensure! bool_decide (range response 36 44 = replicate 8 0), "unsupported worker flags";
  ensure! (wi_uid identity =? expected_uid) && (0 <? wi_pid identity)
          && negb (bool_decide (wi_epoch identity = replicate 16 0)),
    "worker identity mismatch";
  Ok identity.

(** [pin] *)
Definition pin (current : option WorkerIdentity) (candidate : WorkerIdentity)
    : option WorkerIdentity * result unit :=
  match current with
  | Some identity =>
      (current, ensure! bool_decide (identity = candidate),
                  "worker epoch invalidated; reconnect and enumerate sessions"; Ok tt)
  | None => (Some candidate, Ok tt)
  end.

(** ** Authentication payload *)

(** ["ASTRA-AUTH-V1\0"] *)
Definition AUTH_DOMAIN : bytes := [65; 83; 84; 82; 65; 45; 65; 85; 84; 72; 45; 86; 49; 0].
Definition append_field (output field : bytes) : bytes :=
  output ++ to_be_bytes (as_u32 (llen field)) ++ field.
(** Names are given by their UTF-8 bytes. *)
Definition authentication_payload (challenge username server_instance : bytes) : bytes :=
  append_field (append_field (append_field AUTH_DOMAIN challenge) username) server_instance.

(** ** Lemmas *)

Section fragments.
Context `{DatagramLaws}.

Lemma prepare_generation delta budget keyframe t :
  prepare delta budget keyframe = Ok (Some t) ->
  llen (fr_epoch (vt_header t)) = 16 /\ 0 < fr_base_generation (vt_header t) /\
  fr_base_generation (vt_header t) < fr_target_generation (vt_header t).
Proof.
  unfold prepare. intros Hp. do 4 ok_step Hp. ok_inv Hr. do 2 ok_step Hp.
  ok_step Hp. destruct a0 as [enc encoded]. do 3 ok_step Hp.
  apply choose_count_Some in Hp as (count & _ & -> & _). cbn. bool_prop. auto.
Qed.
End fragments.

Lemma append_field_split output output' field field' rest rest' :
  llen field <= U32_MAX -> llen field' <= U32_MAX -> length output = length output' ->
  append_field output field ++ rest = append_field output' field' ++ rest' ->
  output = output' /\ field = field' /\ rest = rest'.
Proof.
  intros Hf Hf' Hl He. unfold append_field in He. rewrite <- !app_assoc in He.
  apply app_inj_1 in He as [-> He]; [|done]. split; [done|].
  apply app_inj_1 in He as [Hlen He]; [|done].
  apply (f_equal from_be_bytes) in Hlen. rewrite !be_bytes_roundtrip in Hlen
    by (rewrite as_u32_small; done). rewrite !as_u32_small in Hlen by done.
  unfold llen in Hlen. apply app_inj_1 in He; [done|lia].
Qed.

Lemma range_length b i j : (i <= j)%nat -> (j <= length b)%nat -> length (range b i j) = (j - i)%nat.
Proof. intros. unfold range. rewrite length_take, length_drop. lia. Qed.
Lemma range_app b i j k : (i <= j <= k)%nat -> range b i k = range b i j ++ range b j k.
Proof.
  intros. unfold range. replace (k - i)%nat with ((j - i) + (k - j))%nat by lia.
  rewrite <- take_take_drop. do 2 f_equal. rewrite drop_drop. f_equal. lia.
Qed.

Lemma range_all b n : length b = n -> range b 0 n = b.
Proof. intros <-. unfold range. rewrite Nat.sub_0_r. cbn. apply take_ge. lia. Qed.

Lemma range_head a b n : length a = n -> range (a ++ b) 0 n = a.
Proof. intros <-. unfold range. rewrite Nat.sub_0_r, drop_0. apply take_app_length. Qed.
Lemma range_skip a b i j :
  (length a <= i <= j)%nat -> range (a ++ b) i j = range b (i - length a) (j - length a).
Proof. intros H. unfold range. rewrite drop_app_ge by lia. f_equal. lia. Qed.

(** The seven fields of a response. *)
Lemma response_fields p0 p1 p2 p3 p4 p5 p6 :
  length p0 = 8%nat -> length p1 = 4%nat -> length p2 = 4%nat -> length p3 = 4%nat ->
  length p4 = 16%nat -> length p5 = 8%nat -> length p6 = 16%nat ->
  let b := p0 ++ p1 ++ p2 ++ p3 ++ p4 ++ p5 ++ p6 in
  range b 0 8 = p0 /\ range b 8 12 = p1 /\ range b 12 16 = p2 /\ range b 16 20 = p3 /\
  range b 20 36 = p4 /\ range b 36 44 = p5 /\ range b 44 60 = p6.
Proof.
  intros H0 H1 H2 H3 H4 H5 H6 b. unfold b. clear b.
  split; [by apply range_head|]. rewrite !(range_skip p0), H0 by lia. cbn [Nat.sub].
  split; [by apply range_head|]. rewrite !(range_skip p1), H1 by lia. cbn [Nat.sub].
  split; [by apply range_head|]. rewrite !(range_skip p2), H2 by lia. cbn [Nat.sub].
  split; [by apply range_head|]. rewrite !(range_skip p3), H3 by lia. cbn [Nat.sub].
  split; [by apply range_head|]. rewrite !(range_skip p4), H4 by lia. cbn [Nat.sub].
  split; [by apply range_head|]. rewrite (range_skip p5), H5 by lia. by apply range_all.
Qed.
Lemma response_split b :
  length b = 60%nat ->
  b = range b 0 8 ++ range b 8 12 ++ range b 12 16 ++ range b 16 20 ++ range b 20 36
      ++ range b 36 44 ++ range b 44 60.
Proof. intros Hb. rewrite <- !range_app by lia. by rewrite range_all. Qed.

Lemma range_bytes b i j : Forall (fun x => x < 256) b -> Forall (fun x => x < 256) (range b i j).
Proof. intros. unfold range. by apply Forall_take, Forall_drop. Qed.

Lemma introduce_request identity challenge :
  length challenge = 16%nat ->
  introduce identity (discover_request challenge) =
  Ok (MAGIC ++ to_be_bytes VERSION ++ to_be_bytes (wi_uid identity) ++ to_be_bytes (wi_pid identity)
        ++ wi_epoch identity ++ replicate 8 0 ++ challenge).
Proof.
  intros Hc. unfold introduce, discover_request. rewrite length_app, Hc. cbn [length MAGIC Nat.add Nat.leb].
  rewrite range_head, bool_decide_true by done. rewrite (range_skip MAGIC) by (cbn; lia). cbn [length MAGIC Nat.sub].
  by rewrite range_all.
Qed.

(** ** Properties *)

Section claims.
Context `{DatagramLaws}.

(** The gateway forwards whatever a worker's encoder produces: every packet of
    a prepared transfer passes the check of a connection that negotiated version
    3, and of no other; and every fragment that passes it is bounded: at most 128
    fragments, less than 64 KiB of working memory, and the interval of the data
    that belongs to its index. *)
Theorem worker_datagram_accepted delta budget keyframe t i :
  prepare delta budget keyframe = Ok (Some t) -> i < transfer_count t ->
  (exists d, packet t i = Ok d /\
     forall version, is_ok (validate_worker_datagram d version) = (version =? 3)) /\
  (forall d f version, validate_worker_datagram d version = Ok tt -> dg_fragment d = Some f ->
     fr_index f < fr_count f <= 128 /\ fr_raw_length f + 2 * fr_total_encoded f < 65535 /\
     balanced_range (fr_index f) (fr_count f) (fr_total_encoded f) =
       (fr_index f * fr_total_encoded f / fr_count f,
        fr_index f * fr_total_encoded f / fr_count f + llen (fr_data f))).
Proof.
  intros Hp Hi. split.
  - destruct (prepare_generation _ _ _ _ Hp) as (He & Hg1 & Hg2). apply prepare_Some in Hp.
    destruct Hp as [[Hr1 [Hr2 Hr3]] [Hc1 Hc2] [Ht1 Ht2] _ Hid Hw (Hraw1 & Hraw2 & Hsha) _ Henc].
    unfold packet. unfold transfer_count in *. rewrite (proj2 (N.ltb_lt _ _)) by done. cbn [negb].
    eexists. split; [done|]. intros version. unfold validate_worker_datagram, MAX_WORKING_BYTES, MAX_FRAGMENTS in *.
    cbn [fragment_datagram set_fragment dg_fragment dg_diff dg_inherited_fields dg_sparse_rows
         dg_primary_patches dg_alternate_patches fr_epoch fr_transfer_id fr_sha256 fr_base_generation
         fr_target_generation fr_index fr_count fr_total_encoded fr_raw_length fr_encoding fr_data is_none is_empty].
    destruct (N.eqb_spec version 3) as [->|Hv]; [|by destruct ((1 <=? version) && _)].
    assert (Hse : llen (fr_sha256 (vt_header t)) = 32) by (rewrite Hsha; apply sha256_length).
    rewrite slice_length, Ht2, He, Hid, Hse.
    2:{ apply balanced_mono. }
    2:{ apply balanced_last; lia. }
    cbn [balanced_range fst snd]. rewrite N.eqb_refl.
    repeat match goal with |- context [?a <? ?b] => rewrite (proj2 (N.ltb_lt a b)) by (unfold U16_MAX; lia) end.
    repeat match goal with |- context [?a <=? ?b] => rewrite (proj2 (N.leb_le a b)) by lia end.
    destruct Henc as [[-> Henc]|[-> _]]; [|by rewrite !N.eqb_refl].
    by rewrite Henc, Hraw2, !N.eqb_refl.
  - clear. intros d f version Hv Hf. unfold validate_worker_datagram in Hv. rewrite Hf in Hv.
    ok_inv Hv. bool_prop. unfold U16_MAX in *. split; [lia|]. split; [lia|].
    unfold balanced_range. f_equal.
    pose proof (balanced_mono (fr_index f) (fr_count f) (fr_total_encoded f)). lia.
Qed.
End claims.

(** The responses a gateway accepts are exactly what a worker with that
    identity answers to this very challenge: an answer recorded for another
    challenge, or from a worker of another user, is refused; and once an identity
    is pinned, a connection accepts no other. *)
Theorem worker_identity_handshake challenge expected_uid response identity :
  length challenge = 16%nat -> length response = 60%nat -> Forall (fun b => b < 256) response ->
  (discover challenge expected_uid response = Ok identity <->
   introduce identity (discover_request challenge) = Ok response /\
   wi_uid identity = expected_uid /\ 0 < wi_pid identity /\ wi_uid identity <= U32_MAX /\
   wi_pid identity <= U32_MAX /\ length (wi_epoch identity) = 16%nat /\
   wi_epoch identity <> replicate 16 0) /\
  (forall candidate, pin (pin None identity).1 candidate =
     (Some identity, if bool_decide (identity = candidate) then Ok tt
                     else Err "worker epoch invalidated; reconnect and enumerate sessions")).
Proof.
  intros Hc Hl Hb. rewrite introduce_request by done. split; [split|].
  - unfold discover. rewrite Hl. cbn [Nat.leb]. intros Hd. ok_inv Hd. bool_prop.
    cbn [wi_uid wi_pid wi_epoch] in *.
    repeat match goal with |- context [range response ?i ?j] =>
      progress (rewrite ?(range_length response i j) by lia) end.
    split; [|split_and!; try done; try (apply from_be_bytes_bound; [by rewrite range_length by lia|by apply range_bytes])].
    f_equal. rewrite <- Hb1, !be_bytes_inverse;
      try (by rewrite range_length by lia); try by apply range_bytes.
    rewrite <- Hb0, <- Hb2, <- Hb3. symmetry. by apply response_split.
  - intros (Hr & Hu & Hp & Hu32 & Hp32 & He & Hn). apply (f_equal (fun r => match r with Ok b => b | Err _ => [] end)) in Hr.
    cbv beta iota in Hr. unfold discover. rewrite Hl, <- Hr.
    destruct (response_fields MAGIC (to_be_bytes VERSION) (to_be_bytes (wi_uid identity))
      (to_be_bytes (wi_pid identity)) (wi_epoch identity) (replicate 8 0) challenge)
      as (-> & -> & -> & -> & -> & -> & ->); try done.
    cbn [Nat.leb]. rewrite !bool_decide_true by done. cbn [wi_uid wi_pid wi_epoch].
    rewrite !be_bytes_roundtrip by (done || (unfold VERSION, U32_MAX; lia)).
    rewrite N.eqb_refl, Hu, N.eqb_refl, (proj2 (N.ltb_lt _ _)) by done.
    rewrite bool_decide_false by done. cbn [negb andb]. rewrite <- Hu. by destruct identity.
  - intros candidate. cbn. by case_bool_decide.
Qed.

(** The signed payload determines the challenge, the user name and the server
    instance: no two authentication attempts share a payload, so a signature for
    one cannot be used for another. *)
Theorem authentication_payload_injective c u s c' u' s' :
  llen c <= U32_MAX -> llen u <= U32_MAX -> llen s <= U32_MAX ->
  llen c' <= U32_MAX -> llen u' <= U32_MAX -> llen s' <= U32_MAX ->
  authentication_payload c u s = authentication_payload c' u' s' -> c = c' /\ u = u' /\ s = s'.
Proof.
  intros Hc Hu Hs Hc' Hu' Hs' He. unfold authentication_payload in He.
  assert (Hsplit : forall x y z, append_field (append_field (append_field AUTH_DOMAIN x) y) z =
    append_field AUTH_DOMAIN x ++ append_field [] y ++ append_field [] z)
    by (intros; unfold append_field; rewrite <- !app_assoc; done).
  rewrite !Hsplit in He. apply append_field_split in He as (_ & -> & He); [|done..].
  apply append_field_split in He as (_ & -> & He); [|done..].
  rewrite <- (app_nil_r (append_field [] s)), <- (app_nil_r (append_field [] s')) in He.
  by apply append_field_split in He as (_ & -> & _).
Qed.

(** ** Witnesses *)

Lemma worker_datagram_accepted_witness :
  exists t, ex_transfer = Ok (Some t) /\ exists d, packet t 0 = Ok d /\ validate_worker_datagram d 3 = Ok tt.
Proof.
  destruct ex_transfer_prepared as [t Ht]. exists t. split; [exact Ht|].
  destruct (@worker_datagram_accepted ex_datagram_lib ex_datagram_laws ex_delta 100 10000 t 0 Ht)
    as [(d & Hd & Hv) _].
  { pose proof (prep_count _ _ _ _ (@prepare_Some ex_datagram_lib ex_datagram_laws _ _ _ _ Ht)). lia. }
  exists d. split; [exact Hd|]. specialize (Hv 3). by destruct (validate_worker_datagram d 3) as [[]|].
Defined.

Definition ex_identity : WorkerIdentity := mkIdentity 1000 4242 (replicate 16 9).
Definition ex_challenge : bytes := replicate 16 5.
Definition ex_response : bytes :=
  MAGIC ++ to_be_bytes VERSION ++ to_be_bytes 1000 ++ to_be_bytes 4242 ++ replicate 16 9
    ++ replicate 8 0 ++ ex_challenge.
Lemma worker_identity_handshake_witness :
  discover ex_challenge 1000 ex_response = Ok ex_identity /\
  discover (replicate 16 6) 1000 ex_response = Err "worker challenge mismatch".
Proof.
  split; [|vm_compute; reflexivity].
  apply (worker_identity_handshake ex_challenge 1000 ex_response ex_identity); [reflexivity|reflexivity|..].
  - repeat constructor.
  - split; [vm_compute; reflexivity|]. split_and!; try done.
Defined.

Lemma authentication_payload_injective_witness :
  authentication_payload [1] [97] [98; 99] <> authentication_payload [1] [97; 98] [99].
Proof.
  intros He. destruct (authentication_payload_injective [1] [97] [98; 99] [1] [97; 98] [99])
    as (_ & Hu & _); [unfold U32_MAX; vm_compute; discriminate..|exact He|]. discriminate Hu.
Defined.
