(* ===== verification/Files.v ===== *)
(** * The file service ([files.rs]): paths and uploads

    A worker's file service works on the user's files below a root directory.  A
    [World] is the file system, the registry of uploads and the pools of the
    service's resource account.  Every operation runs under the registry lock and
    is a [FileM] computation: it may change the world and returns a value or a
    [FileServiceError].  Which system calls fail, and how far a failing write
    gets, is given by an [Io] argument, so that the theorems hold for every
    failure. *)
From stdpp Require Import strings.
From S2P Require Import Prelude Resources TerminalState Payload.
Open Scope N_scope.

Definition MAX_REMOTE_PATH_SIZE : N := 16 * 1024.

Record FileServiceError := mkFileError { fe_code : string; fe_message : string }.

#[global] Instance outcome_ret {E} : MRet (outcome E) := fun _ => Returned.
#[global] Instance outcome_bind {E} : MBind (outcome E) := fun _ _ f m =>
  match m with Returned a => f a | Failed e => Failed e | Panicked => Panicked end.

Definition refuse {A} (code message : string) : outcome FileServiceError A :=
  Failed (mkFileError code message).

(** ** The file system *)

(** The bytes of an ASCII string. *)
Definition str_bytes (s : string) : bytes := Ascii.N_of_ascii <$> String.list_ascii_of_string s.

(** An absolute path without [.] and [..]: the names below [/]. *)
Abbreviation Path := (list bytes).
Inductive Node := NFile (content : bytes) (mode : N) | NDir | NLink (target : Path) | NOther.
Abbreviation FileSystem := (gmap Path Node).

(** The node a path leads to through at most [fuel] links; Linux follows 40. *)
Fixpoint follow (fuel : nat) (fs : FileSystem) (p : Path) : option Node :=
  match fs !! p with
  | Some (NLink q) => match fuel with O => None | S fuel => follow fuel fs q end
  | node => node
  end.
Definition path_metadata (fs : FileSystem) (p : Path) : option Node := follow 40 fs p.
(** [Path::exists] *)
Definition path_exists (fs : FileSystem) (p : Path) : bool := negb (is_none (path_metadata fs p)).

(** [write_all] at an offset; a hole reads as zeros. *)
Definition write_at (content : bytes) (offset : nat) (data : bytes) : bytes :=
  take offset content ++ replicate (offset - length content) 0 ++ data
  ++ drop (offset + length data) content.

(** Which calls of an operation fail, with the error code, and how many bytes a
    failing write stores. *)
Record Io := mkIo { io_fault : nat -> option string; io_partial : nat }.
Definition io_reliable : Io := mkIo (fun _ => None) 0.

(** ** Uploads *)

Inductive UploadState := Active | Completed | Aborted.
#[global] Instance UploadState_eq_dec : EqDecision UploadState.
Proof. solve_decision. Defined.
Definition upload_state_str (s : UploadState) : string :=
  match s with Active => "active" | Completed => "completed" | Aborted => "aborted" end.

Record Upload := mkUpload {
  up_transfer_id : string;
  up_requested_path : bytes;
  up_target : Path;
  up_temporary : Path;
  up_size : N;
  up_expected_sha256 : bytes;
  up_overwrite : bool;
  up_mode : N;
  up_committed_offset : N;
  up_state : UploadState;
  up_resources : option (list PoolReservation)
}.
Record UploadStatusResponse := mkStatus {
  us_transfer_id : string; us_path : bytes; us_size : N; us_committed_offset : N; us_state : string }.
Definition upload_status (u : Upload) : UploadStatusResponse :=
  mkStatus (up_transfer_id u) (up_requested_path u) (up_size u) (up_committed_offset u)
    (upload_state_str (up_state u)).
Definition set_offset (u : Upload) (offset : N) : Upload :=
  mkUpload (up_transfer_id u) (up_requested_path u) (up_target u) (up_temporary u) (up_size u)
    (up_expected_sha256 u) (up_overwrite u) (up_mode u) offset (up_state u) (up_resources u).
Definition finish (u : Upload) (state : UploadState) : Upload :=
  mkUpload (up_transfer_id u) (up_requested_path u) (up_target u) (up_temporary u) (up_size u)
    (up_expected_sha256 u) (up_overwrite u) (up_mode u) (up_committed_offset u) state None.

Record BeginUploadRequest := mkBeginUpload {
  bu_transfer_id : string; bu_path : bytes; bu_size : N; bu_sha256 : bytes; bu_overwrite : bool; bu_mode : N }.

Record World := mkWorld {
  w_root : Path;
  w_account : ResourceAccount;
  w_fs : FileSystem;
  w_uploads : gmap string Upload;
  w_pools : PoolStore
}.
Definition set_fs (fs : FileSystem) (w : World) : World :=
  mkWorld (w_root w) (w_account w) fs (w_uploads w) (w_pools w).
Definition set_uploads (us : gmap string Upload) (w : World) : World :=
  mkWorld (w_root w) (w_account w) (w_fs w) us (w_pools w).
Definition set_pools (s : PoolStore) (w : World) : World :=
  mkWorld (w_root w) (w_account w) (w_fs w) (w_uploads w) s.

(** ** Computations *)

Definition FileM (A : Type) : Type := World -> World * outcome FileServiceError A.
#[global] Instance FileM_ret : MRet FileM := fun _ a w => (w, Returned a).
#[global] Instance FileM_bind : MBind FileM := fun _ _ f m w =>
  match m w with
  | (w, Returned a) => f a w
  | (w, Failed e) => (w, Failed e)
  | (w, Panicked) => (w, Panicked)
  end.
Definition lift {A} (o : outcome FileServiceError A) : FileM A := fun w => (w, o).
Definition fail {A} (code message : string) : FileM A := lift (refuse code message).
Definition get {A} (f : World -> A) : FileM A := fun w => (w, Returned (f w)).
Definition modify (f : World -> World) : FileM () := fun w => (f w, Returned tt).
Definition require (b : bool) (code message : string) : FileM () :=
  if b then mret tt else fail code message.
(** The [k]-th system call of an operation. *)
Definition io_call (io : Io) (k : nat) (action : string) : FileM () :=
  match io_fault io k with Some code => fail code action | None => mret tt end.

(** ** Checks *)

Section files.
Context `{PayloadLib}.
(** [Uuid::parse_str(id)] followed by [to_string]. *)
Variable parse_uuid : string -> option string.
(** [Path::canonicalize] *)
Variable canonicalize : FileSystem -> Path -> FileServiceError + Path.

Definition validate_transfer_id (transfer_id : string) : outcome FileServiceError () :=
  match parse_uuid transfer_id with
  | None => refuse "invalid" "transfer ID must be a UUID"
  | Some parsed =>
      if bool_decide (parsed = transfer_id) then Returned tt
      else refuse "invalid" "transfer ID must use canonical lowercase UUID form"
  end.
Definition validate_digest (digest : bytes) (optional : bool) : outcome FileServiceError () :=
  if (llen digest =? 32) || (optional && is_empty digest) then Returned tt
  else refuse "invalid" "SHA-256 digest must contain exactly 32 bytes".

(** ** Paths *)

(** [raw.split('/')] *)
Fixpoint split_slash (current : bytes) (raw : bytes) : list bytes :=
  match raw with
  | [] => [rev current]
  | b :: raw => if b =? 47 then rev current :: split_slash [] raw else split_slash (b :: current) raw
  end.
(** [Path::components] without the root: [.] and empty names are dropped. *)
Definition components (raw : bytes) : list bytes :=
  filter (fun name => name <> [] /\ name <> [46]) (split_slash [] raw).
Definition is_absolute (raw : bytes) : bool := match raw with b :: _ => b =? 47 | [] => false end.

Definition requested_path (root : Path) (raw : bytes) : outcome FileServiceError Path :=
  if (MAX_REMOTE_PATH_SIZE <? llen raw) || existsb (fun b => b =? 0) raw
  then refuse "invalid" "remote path is invalid"
  else if bool_decide (raw = []) || bool_decide (raw = [46]) || bool_decide (raw = [126])
  then Returned root
  else
    let raw := if bool_decide (take 2 raw = [126; 47]) then drop 2 raw else raw in
    let path := components raw in
    if existsb (fun name => bool_decide (name = [46; 46])) path
    then refuse "invalid" "remote paths must not contain '..'"
    else Returned (if is_absolute raw then path else root ++ path).

(** [Path::starts_with] *)
Definition ensure_inside_root (root path : Path) : outcome FileServiceError () :=
  if bool_decide (root `prefix_of` path) then Returned tt
  else refuse "permission_denied" "path is outside configured file root".

Definition canonical (fs : FileSystem) (p : Path) : outcome FileServiceError Path :=
  match canonicalize fs p with inr q => Returned q | inl e => Failed e end.

(** [Path::file_name] and [Path::parent] *)
Definition split_last (p : Path) : option (Path * bytes) :=
  match last p with Some name => Some (removelast p, name) | None => None end.

Definition resolve_existing (fs : FileSystem) (root : Path) (raw : bytes) (follow_symlinks : bool)
    : outcome FileServiceError Path :=
  candidate ← requested_path root raw;
  resolved ← (if follow_symlinks || bool_decide (candidate = root) then canonical fs candidate
              else match split_last candidate with
                   | None => refuse "invalid" "remote path has no file name"
                   | Some (parent, name) => parent ← canonical fs parent; Returned (parent ++ [name])
                   end);
  _ ← ensure_inside_root root resolved;
  Returned resolved.

Definition resolve_new (fs : FileSystem) (root : Path) (raw : bytes) : outcome FileServiceError Path :=
  candidate ← requested_path root raw;
  match split_last candidate with
  | None => refuse "invalid" "remote path has no file name"
  | Some (parent, name) =>
      parent ← canonical fs parent;
      _ ← ensure_inside_root root parent;
      Returned (parent ++ [name])
  end.

(** ** Upload operations *)

Definition upload_temporary_path (target : Path) (transfer_id : string) : outcome FileServiceError Path :=
  match split_last target with
  | None => refuse "invalid" "upload destination has no parent"
  | Some (parent, _) => Returned (parent ++ [str_bytes (".astra-upload-" ++ transfer_id ++ ".part")])
  end.

(** [open_upload_file], calls [k] and [k + 1]: the file is created when it is
    missing and a link is not followed. *)
Definition open_upload_file (io : Io) (k : nat) (path : Path) : FileM bytes :=
  _ ← io_call io k "cannot open upload";
  fs ← get w_fs;
  match fs !! path with
  | None =>
      _ ← modify (fun w => set_fs (<[path := NFile [] 384]> (w_fs w)) w);
      _ ← io_call io (S k) "cannot inspect upload";
      mret []
  | Some (NFile content _) => _ ← io_call io (S k) "cannot inspect upload"; mret content
  | Some NOther => fail "invalid" "upload temporary path is not a file"
  | Some _ => fail "filesystem" "cannot open upload"
  end.

(** [sha256_file], calls [k] and [k + 1]. *)
Definition sha256_file (io : Io) (k : nat) (path : Path) : FileM bytes :=
  _ ← io_call io k "cannot open for checksum";
  fs ← get w_fs;
  match path_metadata fs path with
  | Some (NFile content _) => _ ← io_call io (S k) "cannot read for checksum"; mret (sha256 content)
  | None => fail "not_found" "cannot open for checksum"
  | Some _ => fail "filesystem" "cannot read for checksum"
  end.

(** Dropping a reservation; an accounting underflow panics. *)
Definition drop_resources (rs : list PoolReservation) : FileM () := fun w =>
  match drop_reservations (w_pools w) rs with
  | Some pools => (set_pools pools w, Returned tt)
  | None => (w, Panicked)
  end.
(** [self.resources.reserve(...)] *)
Definition reserve (claim : ResourceClaim) : FileM (list PoolReservation) := fun w =>
  match account_reserve (w_pools w) (w_account w) claim with
  | (pools, Returned rs) => (set_pools pools w, Returned rs)
  | (pools, Failed q) => (set_pools pools w, refuse "quota" "quota exceeded")
  | (pools, Panicked) => (set_pools pools w, Panicked)
  end.
(** A computation that owns a reservation: it is dropped when it fails. *)
Definition owning {A} (rs : list PoolReservation) (m : FileM A) : FileM A := fun w =>
  match m w with
  | (w, Failed e) => (_ ← drop_resources rs; lift (Failed e)) w
  | r => r
  end.

Definition register (u : Upload) : FileM UploadStatusResponse :=
  _ ← modify (fun w => set_uploads (<[up_transfer_id u := u]> (w_uploads w)) w);
  mret (upload_status u).

(** Whether the destination already holds the requested file. *)
Definition already_there (io : Io) (request : BeginUploadRequest) (target : Path) : FileM bool :=
  _ ← io_call io 0 "cannot stat";
  fs ← get w_fs;
  match path_metadata fs target with
  | Some (NFile content _) =>
      if (llen content =? bu_size request) && (llen (bu_sha256 request) =? 32)
      then digest ← sha256_file io 1 target; mret (bool_decide (digest = bu_sha256 request))
      else mret false
  | _ => mret false
  end.

Definition begin_upload (io : Io) (request : BeginUploadRequest) : FileM UploadStatusResponse :=
  _ ← lift (validate_transfer_id (bu_transfer_id request));
  _ ← lift (validate_digest (bu_sha256 request) true);
  w ← get id;
  target ← lift (resolve_new (w_fs w) (w_root w) (bu_path request));
  temporary ← lift (upload_temporary_path target (bu_transfer_id request));
  let mode := N.land (bu_mode request) 511 in
  let upload offset state resources :=
    mkUpload (bu_transfer_id request) (bu_path request) target temporary (bu_size request)
      (bu_sha256 request) (bu_overwrite request) mode offset state resources in
  match w_uploads w !! bu_transfer_id request with
  | Some existing =>
      _ ← require (bool_decide (up_target existing = target) && (up_size existing =? bu_size request)
                   && bool_decide (up_expected_sha256 existing = bu_sha256 request))
            "conflict" "transfer ID is already associated with a different upload";
      mret (upload_status existing)
  | None =>
      _ ← modify (fun w => set_uploads (filter (fun kv => up_state kv.2 = Active) (w_uploads w)) w);
      there ← (if path_exists (w_fs w) target then
                 same ← already_there io request target;
                 if (same : bool) then mret true
                 else _ ← require (bu_overwrite request) "conflict" "destination already exists"; mret false
               else mret false);
      if (there : bool) then register (upload (bu_size request) Completed None)
      else
        resources ← reserve (claim_upload (bu_size request));
        owning resources (
          content ← open_upload_file io 3 temporary;
          _ ← io_call io 5 "cannot inspect upload";
          _ ← require (llen content <=? bu_size request) "conflict"
                "temporary upload is larger than the expected size";
          register (upload (llen content) Active (Some resources)))
  end.

Definition query_upload (transfer_id : string) : FileM UploadStatusResponse :=
  _ ← lift (validate_transfer_id transfer_id);
  us ← get w_uploads;
  match us !! transfer_id with
  | Some u => mret (upload_status u)
  | None => fail "not_found" "upload transfer is unknown"
  end.

(** [write_all_at]: a failing write may have stored a part of the data. *)
Definition write_all_at (io : Io) (k : nat) (path : Path) (offset : N) (data : bytes) : FileM () :=
  fun w =>
    match w_fs w !! path with
    | Some (NFile content mode) =>
        let store d := set_fs (<[path := NFile (write_at content (N.to_nat offset) d) mode]> (w_fs w)) w in
        match io_fault io k with
        | Some code => (store (take (io_partial io) data), refuse code "cannot write upload")
        | None => (store data, Returned tt)
        end
    | _ => (w, refuse "filesystem" "cannot write upload")
    end.

Definition write_chunk (io : Io) (request : WriteFileChunkRequest) : FileM UploadStatusResponse :=
  _ ← require ((wc_encoding request =? 0)%Z && (wc_uncompressed_size request =? 0))
        "invalid" "file service requires decoded raw bytes";
  _ ← lift (validate_transfer_id (wc_transfer_id request));
  _ ← lift (validate_digest (wc_sha256 request) false);
  _ ← require (negb (is_empty (wc_data request))) "invalid" "file chunk is empty";
  _ ← require (llen (wc_data request) <=? MAX_FILE_CHUNK_SIZE) "invalid" "file chunk exceeds 1048576 bytes";
  _ ← require (bool_decide (sha256 (wc_data request) = wc_sha256 request))
        "checksum_mismatch" "file chunk SHA-256 does not match its payload";
  us ← get w_uploads;
  match us !! wc_transfer_id request with
  | None => fail "not_found" "upload transfer is unknown"
  | Some upload =>
      match up_state upload with
      | Completed => mret (upload_status upload)
      | Aborted => fail "conflict" "upload was aborted"
      | Active =>
          match checked_add U64_MAX (wc_offset request) (llen (wc_data request)) with
          | None => fail "invalid" "file chunk offset overflow"
          | Some end_ =>
              _ ← require (end_ <=? up_size upload) "invalid"
                    "file chunk extends beyond the declared upload size";
              content ← open_upload_file io 0 (up_temporary upload);
              if wc_offset request <? up_committed_offset upload then
                _ ← require (end_ <=? up_committed_offset upload) "conflict"
                      "file chunk partially overlaps the committed prefix";
                _ ← io_call io 2 "cannot read upload";
                _ ← require (end_ <=? llen content) "filesystem" "cannot read upload";
                _ ← require (bool_decide (take (length (wc_data request))
                                            (drop (N.to_nat (wc_offset request)) content) = wc_data request))
                      "conflict" "replayed file chunk differs from committed data";
                mret (upload_status upload)
              else
                _ ← require (wc_offset request =? up_committed_offset upload) "conflict"
                      "unexpected upload offset";
                _ ← write_all_at io 2 (up_temporary upload) (wc_offset request) (wc_data request);
                register (set_offset upload end_)
          end
      end
  end.

(** [fs::rename] of the temporary file over the target. *)
Definition rename_file (io : Io) (k : nat) (source target : Path) : FileM () :=
  _ ← io_call io k "cannot commit upload";
  fs ← get w_fs;
  match fs !! source, fs !! target with
  | None, _ => fail "not_found" "cannot commit upload"
  | _, Some NDir => fail "filesystem" "cannot commit upload"
  | Some node, _ => modify (fun w => set_fs (<[target := node]> (delete source (w_fs w))) w)
  end.
(** [fs::hard_link]: it fails when the new name exists. *)
Definition hard_link (io : Io) (k : nat) (source target : Path) : FileM () :=
  _ ← io_call io k "cannot commit upload without overwriting";
  fs ← get w_fs;
  match fs !! source, fs !! target with
  | None, _ => fail "not_found" "cannot commit upload without overwriting"
  | _, Some _ => fail "conflict" "cannot commit upload without overwriting"
  | Some node, None => modify (fun w => set_fs (<[target := node]> (w_fs w)) w)
  end.
Definition set_permissions (io : Io) (k : nat) (path : Path) (mode : N) : FileM () :=
  _ ← io_call io k "cannot set permissions";
  fs ← get w_fs;
  match fs !! path with
  | Some (NFile content _) => modify (fun w => set_fs (<[path := NFile content mode]> (w_fs w)) w)
  | _ => fail "filesystem" "cannot set permissions"
  end.

(** The two ways of publishing the temporary file. *)
Definition publish (io : Io) (upload : Upload) : FileM () :=
  if up_overwrite upload then rename_file io 6 (up_temporary upload) (up_target upload)
  else
    _ ← hard_link io 6 (up_temporary upload) (up_target upload);
    _ ← io_call io 7 "upload was published but temporary name could not be removed";
    modify (fun w => set_fs (delete (up_temporary upload) (w_fs w)) w).

Definition commit_upload (io : Io) (transfer_id : string) : FileM UploadStatusResponse :=
  _ ← lift (validate_transfer_id transfer_id);
  us ← get w_uploads;
  match us !! transfer_id with
  | None => fail "not_found" "upload transfer is unknown"
  | Some upload =>
      match up_state upload with
      | Completed => mret (upload_status upload)
      | Aborted => fail "conflict" "upload was aborted"
      | Active =>
          _ ← require (up_committed_offset upload =? up_size upload) "conflict" "upload is incomplete";
          _ ← (if llen (up_expected_sha256 upload) =? 32 then
                 digest ← sha256_file io 0 (up_temporary upload);
                 require (bool_decide (digest = up_expected_sha256 upload)) "checksum_mismatch"
                   "complete upload SHA-256 does not match"
               else mret tt);
          fs ← get w_fs;
          _ ← require (negb (path_exists fs (up_target upload)) || up_overwrite upload) "conflict"
                "destination already exists";
          _ ← open_upload_file io 2 (up_temporary upload);
          _ ← io_call io 4 "cannot sync upload";
          _ ← (if up_mode upload =? 0 then mret tt
               else set_permissions io 5 (up_temporary upload) (up_mode upload));
          _ ← publish io upload;
          status ← register (finish upload Completed);
          _ ← drop_resources (default [] (up_resources upload));
          mret status
      end
  end.

Definition abort_upload (io : Io) (transfer_id : string) : FileM UploadStatusResponse :=
  _ ← lift (validate_transfer_id transfer_id);
  us ← get w_uploads;
  match us !! transfer_id with
  | None => fail "not_found" "upload transfer is unknown"
  | Some upload =>
      match up_state upload with
      | Active =>
          _ ← io_call io 0 "cannot remove upload";
          fs ← get w_fs;
          _ ← (match fs !! up_temporary upload with
               | Some NDir => fail "filesystem" "cannot remove upload"
               | _ => modify (fun w => set_fs (delete (up_temporary upload) (w_fs w)) w)
               end);
          status ← register (finish upload Aborted);
          _ ← drop_resources (default [] (up_resources upload));
          mret status
      | _ => mret (upload_status upload)
      end
  end.
End files.
