(* ===== verification/FilesSpec.v ===== *)
(** * The file service: confinement and exact uploads *)
From stdpp Require Import strings.
From S2P Require Import Prelude Resources TerminalState Payload Files.
Open Scope N_scope.

Create HintDb files.

(** ** Reasoning about computations *)

Definition wp {A} (m : FileM A) (w : World) (Q : World -> outcome FileServiceError A -> Prop) : Prop :=
  Q (m w).1 (m w).2.

Lemma wp_bind {A B} (m : FileM A) (f : A -> FileM B) w Q :
  wp m w (fun w' o => match o with
                      | Returned a => wp (f a) w' Q
                      | Failed e => Q w' (Failed e)
                      | Panicked => Q w' Panicked
                      end) ->
  wp (m ≫= f) w Q.
Proof. unfold wp, mbind, FileM_bind. destruct (m w) as [w' [a|e|]]; done. Qed.
Lemma wp_ret {A} (a : A) w (Q : World -> outcome FileServiceError A -> Prop) :
  Q w (Returned a) -> wp (mret a) w Q.
Proof. done. Qed.
Lemma wp_lift {A} (o : outcome FileServiceError A) w Q : Q w o -> wp (lift o) w Q.
Proof. done. Qed.
Lemma wp_fail {A} code message w (Q : World -> outcome FileServiceError A -> Prop) :
  Q w (Failed (mkFileError code message)) -> wp (fail code message) w Q.
Proof. done. Qed.
Lemma wp_get {A} (f : World -> A) w (Q : World -> outcome FileServiceError A -> Prop) :
  Q w (Returned (f w)) -> wp (get f) w Q.
Proof. done. Qed.
Lemma wp_modify f w (Q : World -> outcome FileServiceError () -> Prop) :
  Q (f w) (Returned tt) -> wp (modify f) w Q.
Proof. done. Qed.
Lemma wp_require (b : bool) code message w (Q : World -> outcome FileServiceError () -> Prop) :
  (b = true -> Q w (Returned tt)) -> (b = false -> Q w (Failed (mkFileError code message))) ->
  wp (require b code message) w Q.
Proof. intros H1 H2. destruct b; [by apply H1|by apply H2]. Qed.
Lemma wp_io_call io k action w (Q : World -> outcome FileServiceError () -> Prop) :
  (io_fault io k = None -> Q w (Returned tt)) ->
  (forall code, io_fault io k = Some code -> Q w (Failed (mkFileError code action))) ->
  wp (io_call io k action) w Q.
Proof. intros H1 H2. unfold io_call. destruct (io_fault io k); [by apply H2|by apply H1]. Qed.
Lemma wp_conseq {A} (m : FileM A) w (Q Q' : World -> outcome FileServiceError A -> Prop) :
  wp m w Q' -> (forall w' o, Q' w' o -> Q w' o) -> wp m w Q.
Proof. unfold wp. auto. Qed.

(** One step of symbolic execution. *)
Ltac wp_step :=
  lazymatch goal with
  | |- wp (_ ≫= _) _ _ => apply wp_bind
  | |- wp (mret _) _ _ => apply wp_ret
  | |- wp (lift _) _ _ => apply wp_lift
  | |- wp (fail _ _) _ _ => apply wp_fail
  | |- wp (get _) _ _ => apply wp_get
  | |- wp (modify _) _ _ => apply wp_modify
  | |- wp (require _ _ _) _ _ => apply wp_require; intros ?
  | |- wp (io_call _ _ _) _ _ => apply wp_io_call; [intros ?|intros ? ?]
  | |- wp (register _) _ _ => unfold register
  | |- wp (if ?b then _ else _) _ _ => destruct b eqn:?
  | |- wp (match ?x with _ => _ end) _ _ => destruct x eqn:?
  | |- match ?x with Returned _ => _ | _ => _ end => destruct x eqn:?
  end; cbv beta.
Ltac wp_run := repeat wp_step.

(** ** Confinement *)

Section spec.
Context `{PayloadLib}.
Variable parse_uuid : string -> option string.
Variable canonicalize : FileSystem -> Path -> FileServiceError + Path.

(** A file name: not empty, not [.] or [..], no [/] and no NUL. *)
Definition proper_name (name : bytes) : Prop :=
  name <> [] /\ name <> [46] /\ name <> [46; 46] /\ Forall (fun b => b <> 47 /\ b <> 0) name.

(** Every registered upload stays below the root. *)
Definition confined (w : World) : Prop :=
  forall id u, w_uploads w !! id = Some u -> w_root w `prefix_of` up_target u /\ w_root w `prefix_of` up_temporary u.
(** Nothing outside the root changed since [w0]. *)
Record inside (w0 w : World) : Prop := {
  in_root : w_root w = w_root w0;
  in_frame : forall p, ~ w_root w0 `prefix_of` p -> w_fs w !! p = w_fs w0 !! p;
  in_uploads : confined w
}.

Lemma inside_refl w : confined w -> inside w w.
Proof. by split. Qed.
Lemma inside_insert w0 w p node :
  inside w0 w -> w_root w0 `prefix_of` p -> inside w0 (set_fs (<[p := node]> (w_fs w)) w).
Proof.
  intros [Hr Hf Hu] Hp. split; cbn; [done| |done]. intros q Hq.
  rewrite lookup_insert_ne by (intros ->; done). auto.
Qed.
Lemma inside_delete w0 w p :
  inside w0 w -> w_root w0 `prefix_of` p -> inside w0 (set_fs (delete p (w_fs w)) w).
Proof.
  intros [Hr Hf Hu] Hp. split; cbn; [done| |done]. intros q Hq.
  rewrite lookup_delete_ne by (intros ->; done). auto.
Qed.
Lemma inside_pools w0 w s : inside w0 w -> inside w0 (set_pools s w).
Proof. intros [Hr Hf Hu]. by split. Qed.
Lemma inside_register w0 w id u :
  inside w0 w -> w_root w0 `prefix_of` up_target u -> w_root w0 `prefix_of` up_temporary u ->
  inside w0 (set_uploads (<[id := u]> (w_uploads w)) w).
Proof.
  intros [Hr Hf Hu] Ht Hp. split; cbn; [done|done|]. intros i v Hi.
  destruct (decide (i = id)) as [->|Hne]; cbn in *.
  - rewrite lookup_insert_eq in Hi. injection Hi as <-. by rewrite Hr.
  - rewrite lookup_insert_ne in Hi by done. eauto.
Qed.
Lemma inside_filter w0 w (P : string * Upload -> Prop) `{!forall x, Decision (P x)} :
  inside w0 w -> inside w0 (set_uploads (filter P (w_uploads w)) w).
Proof.
  intros [Hr Hf Hu]. split; cbn; [done|done|]. intros i v [Hi _]%map_lookup_filter_Some. eauto.
Qed.

(** A computation that keeps to the root whatever it returns. *)
Definition safe {A} (w0 : World) (m : FileM A) : Prop := forall w, inside w0 w -> inside w0 (m w).1.

Lemma safe_bind {A B} w0 (m : FileM A) (f : A -> FileM B) :
  safe w0 m -> (forall a, safe w0 (f a)) -> safe w0 (m ≫= f).
Proof.
  intros Hm Hf w Hw. unfold mbind, FileM_bind. specialize (Hm w Hw).
  destruct (m w) as [w' [a|e|]]; [by apply Hf|done|done].
Qed.
Lemma safe_lift {A} w0 (o : outcome FileServiceError A) : safe w0 (lift o).
Proof. by intros w. Qed.
Lemma safe_ret {A} w0 (a : A) : safe w0 (mret a).
Proof. by intros w. Qed.
Lemma safe_get {A} w0 (f : World -> A) : safe w0 (get f).
Proof. by intros w. Qed.
Lemma safe_require w0 b code message : safe w0 (require b code message).
Proof. intros w Hw. by destruct b. Qed.
Lemma safe_io_call w0 io k action : safe w0 (io_call io k action).
Proof. intros w Hw. unfold io_call. by destruct (io_fault io k). Qed.
Lemma safe_insert w0 p node :
  w_root w0 `prefix_of` p -> safe w0 (modify (fun w => set_fs (<[p := node]> (w_fs w)) w)).
Proof. intros Hp w Hw. by apply inside_insert. Qed.
Lemma safe_delete w0 p :
  w_root w0 `prefix_of` p -> safe w0 (modify (fun w => set_fs (delete p (w_fs w)) w)).
Proof. intros Hp w Hw. by apply inside_delete. Qed.
Lemma safe_rename_fs w0 p q node :
  w_root w0 `prefix_of` p -> w_root w0 `prefix_of` q ->
  safe w0 (modify (fun w => set_fs (<[p := node]> (delete q (w_fs w))) w)).
Proof.
  intros Hp Hq w Hw.
  exact (inside_insert w0 (set_fs (delete q (w_fs w)) w) p node (inside_delete _ _ _ Hw Hq) Hp).
Qed.
Lemma safe_drop w0 rs : safe w0 (drop_resources rs).
Proof. intros w Hw. unfold drop_resources. destruct (drop_reservations _ _); [by apply inside_pools|done]. Qed.
Lemma safe_reserve w0 claim : safe w0 (reserve claim).
Proof.
  intros w Hw. unfold reserve. destruct (account_reserve _ _ _) as [s []]; by apply inside_pools.
Qed.
Lemma safe_owning {A} w0 rs (m : FileM A) : safe w0 m -> safe w0 (owning rs m).
Proof.
  intros Hm w Hw. unfold owning. specialize (Hm w Hw). destruct (m w) as [w' [a|e|]]; [done| |done].
  cbn [fst] in *. unfold mbind, FileM_bind. pose proof (safe_drop w0 rs w' Hm).
  destruct (drop_resources rs w') as [w2 []]; done.
Qed.
Lemma safe_register w0 u :
  w_root w0 `prefix_of` up_target u -> w_root w0 `prefix_of` up_temporary u -> safe w0 (register u).
Proof.
  intros Ht Hp. apply safe_bind; [|intros; apply safe_ret]. intros w Hw. by apply inside_register.
Qed.
Lemma safe_filter w0 (P : string * Upload -> Prop) `{!forall x, Decision (P x)} :
  safe w0 (modify (fun w => set_uploads (filter P (w_uploads w)) w)).
Proof. intros w Hw. by apply inside_filter. Qed.
(** The registry only hands out confined uploads. *)
Lemma safe_lookup {A} w0 id (k : Upload -> FileM A) code message :
  (forall u, w_root w0 `prefix_of` up_target u -> w_root w0 `prefix_of` up_temporary u -> safe w0 (k u)) ->
  safe w0 (us ← get w_uploads; match us !! id with None => fail code message | Some u => k u end).
Proof.
  intros Hk w Hw. unfold mbind, FileM_bind. cbn [get]. destruct (w_uploads w !! id) as [u|] eqn:E; [|done].
  destruct (in_uploads _ _ Hw _ _ E) as [Ht Hp]. rewrite (in_root _ _ Hw) in Ht, Hp. by apply Hk.
Qed.
Lemma safe_write_all_at w0 io k p offset data :
  w_root w0 `prefix_of` p -> safe w0 (write_all_at io k p offset data).
Proof.
  intros Hp w Hw. unfold write_all_at. destruct (w_fs w !! p) as [[]|]; try done.
  destruct (io_fault io k); by apply inside_insert.
Qed.

Ltac safe_step :=
  lazymatch goal with
  | |- safe _ (get w_uploads ≫= _) => apply safe_lookup; intros u Htarget Htemporary
  | |- safe _ (_ ≫= _) => apply safe_bind; [|intros ?]
  | |- safe _ (lift _) => apply safe_lift
  | |- safe _ (fail _ _) => apply safe_lift
  | |- safe _ (mret _) => apply safe_ret
  | |- safe _ (get _) => apply safe_get
  | |- safe _ (require _ _ _) => apply safe_require
  | |- safe _ (io_call _ _ _) => apply safe_io_call
  | |- safe _ (modify (fun w => set_uploads (filter _ _) _)) => apply safe_filter
  | |- safe _ (modify (fun w => set_fs (<[_ := _]> (delete _ _)) _)) => apply safe_rename_fs; [done|done]
  | |- safe _ (modify (fun w => set_fs (<[_ := _]> _) _)) => apply safe_insert; done
  | |- safe _ (modify (fun w => set_fs (delete _ _) _)) => apply safe_delete; done
  | |- safe _ (write_all_at _ _ _ _ _) => apply safe_write_all_at; done
  | |- safe _ (register _) => apply safe_register; done
  | |- safe _ (drop_resources _) => apply safe_drop
  | |- safe _ (reserve _) => apply safe_reserve
  | |- safe _ (owning _ _) => apply safe_owning
  | |- safe _ (if ?b then _ else _) => destruct b
  | |- safe _ (match ?x with _ => _ end) => destruct x
  end.
Ltac safe_run := repeat safe_step; cbv beta zeta; auto.

Lemma safe_open w0 io k p : w_root w0 `prefix_of` p -> safe w0 (open_upload_file io k p).
Proof. intros Hp. unfold open_upload_file. safe_run. Qed.
Lemma safe_sha256_file w0 io k p : safe w0 (sha256_file io k p).
Proof. unfold sha256_file. safe_run. Qed.

Lemma safe_write_chunk w0 io request : safe w0 (write_chunk parse_uuid io request).
Proof. unfold write_chunk. safe_run; by apply safe_open. Qed.
Lemma safe_commit_upload w0 io id : safe w0 (commit_upload parse_uuid io id).
Proof.
  unfold commit_upload, publish, rename_file, hard_link, set_permissions.
  safe_run; first [by apply safe_open|apply safe_sha256_file].
Qed.
Lemma safe_abort_upload w0 io id : safe w0 (abort_upload parse_uuid io id).
Proof. unfold abort_upload. safe_run. Qed.

(** ** Paths *)

(** [canonicalize] returns an absolute path with every component a file name. *)
Hypothesis canonicalize_names : forall fs p q, canonicalize fs p = inr q -> Forall proper_name q.

Lemma split_slash_free current raw :
  Forall (fun b => b <> 47) current ->
  Forall (Forall (fun b => b <> 47)) (split_slash current raw).
Proof.
  revert current. induction raw as [|b raw IH]; intros current Hc; cbn; [by repeat constructor; apply Forall_rev|].
  destruct (N.eqb_spec b 47); [constructor; [by apply Forall_rev|by apply IH]|]. apply IH. by constructor.
Qed.
Lemma split_slash_bytes (P : N -> Prop) current raw :
  Forall P current -> Forall P raw -> Forall (Forall P) (split_slash current raw).
Proof.
  intros Hc Hr. revert current Hc. induction Hr as [|b raw Hb Hr IH]; intros current Hc; cbn.
  - repeat constructor. by apply Forall_rev.
  - destruct (b =? 47); [constructor; [by apply Forall_rev|by apply IH]|]. apply IH. by constructor.
Qed.

Lemma existsb_Forall {A} (f : A -> bool) (l : list A) : existsb f l = false <-> Forall (fun x => f x = false) l.
Proof.
  induction l as [|x l IH]; cbn; [by split|]. rewrite orb_false_iff, Forall_cons, IH. done.
Qed.

Lemma components_names raw :
  existsb (fun b => b =? 0) raw = false ->
  existsb (fun name => bool_decide (name = [46; 46])) (components raw) = false ->
  Forall proper_name (components raw).
Proof.
  intros H0 Hdd. apply existsb_Forall in Hdd. unfold components in *. rewrite Forall_forall in Hdd.
  apply Forall_forall. intros name Hin. specialize (Hdd _ Hin). bool_prop.
  apply list_elem_of_filter in Hin as [[Hne Hdot] Hin]. split; [done|]. split; [done|]. split; [done|].
  pose proof (split_slash_free [] raw (Forall_nil_2 _)) as Hs.
  pose proof (split_slash_bytes (fun b => b <> 0) [] raw (Forall_nil_2 _)) as Hz.
  rewrite Forall_forall in Hs. specialize (Hs _ Hin).
  assert (Hr : Forall (fun b => b <> 0) raw).
  { apply existsb_Forall in H0. eapply Forall_impl; [exact H0|]. intros b Hb. cbn in Hb. by apply N.eqb_neq. }
  specialize (Hz Hr). rewrite Forall_forall in Hz. specialize (Hz _ Hin). by apply Forall_and.
Qed.

Lemma requested_path_names root raw p :
  Forall proper_name root -> requested_path root raw = Returned p -> Forall proper_name p.
Proof.
  intros Hroot. unfold requested_path. destruct (_ || _) eqn:E; [done|]. apply orb_false_elim in E as [_ Hz].
  destruct (_ || _ || _); [by intros [= <-]|]. cbv zeta.
  set (raw' := if bool_decide _ then _ else _).
  assert (Hz' : existsb (fun b => b =? 0) raw' = false).
  { unfold raw'. case_bool_decide; [|done]. apply existsb_Forall. apply existsb_Forall in Hz. by apply Forall_drop. }
  destruct (existsb _ (components raw')) eqn:Hd; [done|]. intros [= <-].
  pose proof (components_names raw' Hz' Hd). destruct (is_absolute raw'); [done|]. by apply Forall_app.
Qed.

Lemma split_last_Some p parent name : split_last p = Some (parent, name) -> p = parent ++ [name].
Proof.
  unfold split_last. destruct (last p) as [x|] eqn:E; [|done]. intros [= <- <-].
  apply last_Some in E as [l ->]. by rewrite removelast_last.
Qed.
Lemma split_last_snoc parent name : split_last (parent ++ [name]) = Some (parent, name).
Proof. unfold split_last. by rewrite last_snoc, removelast_last. Qed.

Lemma resolve_new_spec fs root raw p :
  Forall proper_name root -> resolve_new canonicalize fs root raw = Returned p ->
  exists parent name, p = parent ++ [name] /\ root `prefix_of` parent /\ Forall proper_name p.
Proof.
  intros Hroot. unfold resolve_new. cbn. destruct (requested_path root raw) as [c|e|] eqn:Ec; try done. cbn.
  destruct (split_last c) as [[parent name]|] eqn:Es; [|done]. unfold canonical.
  destruct (canonicalize fs parent) as [e|q] eqn:Eq; [done|]. cbn. unfold ensure_inside_root.
  case_bool_decide; [|done]. cbn. intros [= <-]. exists q, name. split; [done|]. split; [done|].
  apply split_last_Some in Es as ->. apply requested_path_names in Ec; [|done].
  apply Forall_app in Ec as [_ Hn]. apply Forall_app. eauto.
Qed.
Lemma resolve_existing_spec fs root raw follow_symlinks p :
  Forall proper_name root -> resolve_existing canonicalize fs root raw follow_symlinks = Returned p ->
  root `prefix_of` p /\ Forall proper_name p.
Proof.
  intros Hroot. unfold resolve_existing. cbn.
  destruct (requested_path root raw) as [c|e|] eqn:Ec; try done. cbn.
  match goal with |- context [mbind _ ?m] => destruct m as [q|e|] eqn:Em; try done end. cbn.
  unfold ensure_inside_root. destruct (bool_decide (root `prefix_of` q)) eqn:Eb; [|done].
  apply bool_decide_eq_true in Eb. cbn. intros [= <-]. split; [done|].
  destruct (_ || _) in Em.
  - unfold canonical in Em. destruct (canonicalize fs c) eqn:?; [done|]. injection Em as <-. eauto.
  - destruct (split_last c) as [[parent name]|] eqn:Es; [|done]. unfold canonical in Em.
    destruct (canonicalize fs parent) as [|q'] eqn:?; [done|]. cbn in Em. injection Em as <-.
    apply split_last_Some in Es as ->. apply requested_path_names in Ec; [|done].
    apply Forall_app in Ec as [_ Hn]. apply Forall_app. eauto.
Qed.

Lemma safe_lift_bind {A B} w0 (o : outcome FileServiceError A) (f : A -> FileM B) :
  (forall a, o = Returned a -> safe w0 (f a)) -> safe w0 (lift o ≫= f).
Proof. intros Hf w Hw. unfold mbind, FileM_bind, lift. destruct o; [by apply Hf|done|done]. Qed.
Lemma safe_get_bind {B} w0 (f : World -> FileM B) :
  (forall w, w_root w = w_root w0 -> safe w0 (f w)) -> safe w0 (get id ≫= f).
Proof. intros Hf w Hw. apply Hf; [|done]. apply in_root, Hw. Qed.

Lemma safe_already_there w0 io request target : safe w0 (already_there io request target).
Proof. unfold already_there. safe_run. apply safe_sha256_file. Qed.

Lemma safe_begin_upload w0 io request :
  Forall proper_name (w_root w0) -> safe w0 (begin_upload parse_uuid canonicalize io request).
Proof.
  intros Hroot. unfold begin_upload. apply safe_lift_bind. intros _ _. apply safe_lift_bind. intros _ _.
  apply safe_get_bind. intros w Hw. apply safe_lift_bind. intros target Er. rewrite Hw in Er.
  apply resolve_new_spec in Er as (parent & name & -> & Hp & _); [|done].
  apply safe_lift_bind. intros temporary Et. unfold upload_temporary_path in Et.
  rewrite split_last_snoc in Et. injection Et as <-.
  assert (Ht : forall x, w_root w0 `prefix_of` parent ++ [x]) by (intros; by apply prefix_app_r).
  cbv zeta. safe_run; first [apply safe_already_there|apply safe_open, Ht|apply safe_register; apply Ht].
Qed.

Inductive file_op :=
| OpBegin (io : Io) (request : BeginUploadRequest)
| OpWriteChunk (io : Io) (request : WriteFileChunkRequest)
| OpCommit (io : Io) (transfer_id : string)
| OpAbort (io : Io) (transfer_id : string)
| OpQuery (transfer_id : string).
Definition run_file_op (w : World) (op : file_op) : World :=
  match op with
  | OpBegin io request => (begin_upload parse_uuid canonicalize io request w).1
  | OpWriteChunk io request => (write_chunk parse_uuid io request w).1
  | OpCommit io id => (commit_upload parse_uuid io id w).1
  | OpAbort io id => (abort_upload parse_uuid io id w).1
  | OpQuery id => (query_upload parse_uuid id w).1
  end.

Lemma query_upload_unchanged id w : (query_upload parse_uuid id w).1 = w.
Proof.
  unfold query_upload, mbind, FileM_bind, lift, get. destruct (validate_transfer_id _ _); try done.
  by destruct (w_uploads w !! id).
Qed.

Lemma run_file_op_inside w0 w op :
  Forall proper_name (w_root w0) -> inside w0 w -> inside w0 (run_file_op w op).
Proof.
  intros Hroot Hw. destruct op; cbn [run_file_op].
  - by apply safe_begin_upload.
  - by apply safe_write_chunk.
  - by apply safe_commit_upload.
  - by apply safe_abort_upload.
  - by rewrite query_upload_unchanged.
Qed.
Lemma run_file_ops_inside w0 w ops :
  Forall proper_name (w_root w0) -> inside w0 w -> inside w0 (foldl run_file_op w ops).
Proof. intros Hroot. revert w. induction ops; intros w Hw; cbn; [done|]. by apply IHops, run_file_op_inside. Qed.

(** ** One upload *)

(** The world in which upload [u] has committed [off] bytes and its temporary
    file holds [content]; everything else is as in [wb]. *)
Definition at_offset (wb : World) (u : Upload) (off : N) (content : bytes) : World :=
  mkWorld (w_root wb) (w_account wb) (<[up_temporary u := NFile content 384]> (w_fs wb))
    (<[up_transfer_id u := set_offset u off]> (w_uploads wb)) (w_pools wb).

(** The client's chunk of [data] at an offset. *)
Definition chunk_request (id : string) (data : bytes) (offset : N) (len : nat) : WriteFileChunkRequest :=
  let d := take len (drop (N.to_nat offset) data) in
  mkWriteChunk id offset d (sha256 d) 0 0.

(** The committed prefix is the data, and nothing was written past its size. *)
Definition prefix_ok (data : bytes) (off : N) (content : bytes) : Prop :=
  off <= llen content /\ llen content <= llen data /\
  take (N.to_nat off) content = take (N.to_nat off) data.

Lemma wp_open_at io k wb u off content (Q : World -> outcome FileServiceError bytes -> Prop) :
  Q (at_offset wb u off content) (Returned content) ->
  (forall e, Q (at_offset wb u off content) (Failed e)) ->
  wp (open_upload_file io k (up_temporary u)) (at_offset wb u off content) Q.
Proof.
  intros H1 H2. unfold open_upload_file. wp_step. wp_step; [|auto].
  wp_step. wp_step. cbn [at_offset w_fs]. rewrite lookup_insert_eq. wp_step. wp_step; [|auto]. by wp_step.
Qed.

Lemma write_at_prefix content off d n :
  (n <= length content)%nat -> (n <= off)%nat -> (off <= length content)%nat ->
  take n (write_at content off d) = take n content.
Proof.
  intros H1 H2 H3. unfold write_at. rewrite take_app_le by (rewrite length_take; lia).
  rewrite take_take. f_equal. lia.
Qed.
Lemma write_at_length content off d :
  (off <= length content)%nat -> length (write_at content off d) = (length content `max` (off + length d))%nat.
Proof.
  intros Ho. unfold write_at. rewrite !length_app, length_take, length_replicate, length_drop. lia.
Qed.
Lemma write_at_extends content off d data :
  (off <= length content)%nat -> take off content = take off data ->
  (off + length d <= length data)%nat -> d = take (length d) (drop off data) ->
  take (off + length d) (write_at content off d) = take (off + length d) data.
Proof.
  intros Ho Hp Hl Hd. unfold write_at.
  replace (off - length content)%nat with 0%nat by lia. cbn [replicate app].
  rewrite app_assoc, take_app_length' by (rewrite length_app, length_take; lia).
  rewrite Hp, Hd at 1. by rewrite take_take_drop.
Qed.

Lemma at_offset_fs wb u off content content' :
  set_fs (<[up_temporary u := NFile content' 384]> (w_fs (at_offset wb u off content))) (at_offset wb u off content) =
  at_offset wb u off content'.
Proof. unfold at_offset, set_fs. cbn. by rewrite insert_insert_eq. Qed.
Lemma at_offset_register wb u off off' content :
  set_uploads (<[up_transfer_id u := set_offset u off']> (w_uploads (at_offset wb u off content)))
    (at_offset wb u off content) = at_offset wb u off' content.
Proof. unfold at_offset, set_uploads. cbn. by rewrite insert_insert_eq. Qed.

Lemma take_length_take {A} n (l : list A) : take (length (take n l)) l = take n l.
Proof.
  rewrite length_take. destruct (Nat.min_spec n (length l)) as [[_ ->]|[? ->]]; [done|].
  by rewrite !take_ge by lia.
Qed.

(** Whatever a write of a chunk of the data does, the committed prefix stays
    right. *)
Lemma write_chunk_at wb u data off content io offset len :
  up_state u = Active -> up_size u = llen data -> prefix_ok data off content ->
  exists off' content',
    (write_chunk parse_uuid io (chunk_request (up_transfer_id u) data offset len) (at_offset wb u off content)).1 =
    at_offset wb u off' content' /\ off <= off' /\ prefix_ok data off' content'.
Proof.
  intros Hact Hsize Hok. pose proof Hok as (Hoff & Hlen & Hpre).
  set (d := take len (drop (N.to_nat offset) data)).
  assert (Hd : d = take (length d) (drop (N.to_nat offset) data)).
  { unfold d. symmetry. apply take_length_take. }
  change (wp (write_chunk parse_uuid io (chunk_request (up_transfer_id u) data offset len)) (at_offset wb u off content)
    (fun w' _ => exists off' content', w' = at_offset wb u off' content' /\ off <= off' /\ prefix_ok data off' content')).
  assert (Hsame : exists off' content', at_offset wb u off content = at_offset wb u off' content' /\ off <= off' /\
    prefix_ok data off' content') by (exists off, content; split; [done|split; [lia|done]]).
  unfold write_chunk. cbn [chunk_request wc_encoding wc_uncompressed_size wc_transfer_id wc_sha256 wc_data wc_offset].
  fold d. wp_step. wp_step; [|done]. wp_step. wp_step. wp_step; [|done..]. wp_step. wp_step. wp_step; [|done..].
  do 3 (wp_step; wp_step; [|done]). wp_step. wp_step. cbn [at_offset w_uploads]. rewrite lookup_insert_eq.
  cbn [set_offset up_state up_size up_temporary up_committed_offset]. rewrite Hact.
  destruct (checked_add _ _ _) as [end_|] eqn:Ee; [|by wp_step].
  apply checked_add_Some in Ee as [-> _]. wp_step. wp_step; [|done]. bool_prop. rewrite Hsize in *.
  wp_step. apply wp_open_at; [|done]. wp_step.
  - do 2 (wp_step; wp_step; [|done]). wp_step. wp_step; [|done]. wp_step. wp_step; [|done]. by wp_step.
  - wp_step. wp_step; [|done]. bool_prop. subst offset. wp_step. unfold write_all_at, wp.
    cbn [at_offset w_fs]. rewrite lookup_insert_eq.
    set (o := N.to_nat off) in *. unfold llen in *.
    assert (Ho : (o <= length content)%nat) by lia.
    destruct (io_fault io 2); cbn [fst snd refuse].
    + exists off, (write_at content o (take (io_partial io) d)). split; [|split; [lia|]].
      * exact (at_offset_fs wb u off content _).
      * unfold prefix_ok, llen. rewrite write_at_length, length_take by done.
        split; [lia|]. split; [lia|]. fold o. by rewrite write_at_prefix by lia.
    + exists (off + N.of_nat (length d)), (write_at content o d). split; [|split; [lia|]].
      * pose proof (at_offset_fs wb u off content (write_at content o d)) as Hfs. cbn [at_offset w_fs] in Hfs.
        rewrite Hfs. exact (at_offset_register wb u off _ (write_at content o d)).
      * unfold prefix_ok, llen. rewrite write_at_length by done. split; [lia|]. split; [lia|].
        replace (N.to_nat (off + N.of_nat (length d))) with (o + length d)%nat by lia.
        apply write_at_extends; try done. lia.
Qed.

Lemma prefix_ok_complete data content : prefix_ok data (llen data) content -> content = data.
Proof.
  unfold prefix_ok, llen. intros (Hl & Hu & Hp). rewrite !Nat2N.id in Hp.
  by rewrite !take_ge in Hp by lia.
Qed.

(** Publishing, with any failures. *)
Lemma wp_publish io u node w :
  up_target u <> up_temporary u -> w_fs w !! up_temporary u = Some node ->
  wp (publish io u) w (fun w' o =>
    w_uploads w' = w_uploads w /\ w_pools w' = w_pools w /\
    let published := w_fs w' !! up_target u = Some node /\
                     (up_overwrite u = false -> w_fs w !! up_target u = None) in
    match o with
    | Returned _ => published
    | Failed _ => w_fs w' !! up_target u = w_fs w !! up_target u \/ published
    | Panicked => False
    end).
Proof.
  intros Hne Ht. unfold publish, rename_file, hard_link. destruct (up_overwrite u).
  - wp_step. wp_step; [|by auto]. wp_step. wp_step. rewrite Ht.
    assert (Hmod : wp (modify (fun w => set_fs (<[up_target u := node]> (delete (up_temporary u) (w_fs w))) w)) w
      (fun w' o => w_uploads w' = w_uploads w /\ w_pools w' = w_pools w /\
        match o with Returned _ => w_fs w' !! up_target u = Some node /\ (true = false -> w_fs w !! up_target u = None)
                   | Failed _ => w_fs w' !! up_target u = w_fs w !! up_target u \/
                       (w_fs w' !! up_target u = Some node /\ (true = false -> w_fs w !! up_target u = None))
                   | Panicked => False end)) by (wp_step; cbn; by rewrite lookup_insert_eq).
    destruct (w_fs w !! up_target u) as [[]|] eqn:Eg; try exact Hmod. wp_step. rewrite Eg. by auto.
  - wp_step. wp_step. wp_step; [|by auto]. wp_step. wp_step. rewrite Ht.
    destruct (w_fs w !! up_target u) as [x|] eqn:Eg; [wp_step; rewrite Eg; by auto|]. wp_step. wp_step.
    wp_step; [wp_step|]; cbn; rewrite ?lookup_delete_ne, lookup_insert_eq by done; auto.
Qed.

(** The digest check and the permissions of a commit. *)
Lemma wp_digest_at io wb u off data :
  wp (if llen (up_expected_sha256 u) =? 32
      then digest ← sha256_file io 0 (up_temporary u);
           require (bool_decide (digest = up_expected_sha256 u)) "checksum_mismatch"
             "complete upload SHA-256 does not match"
      else mret tt) (at_offset wb u off data)
    (fun w' o => w' = at_offset wb u off data /\
       match o with
       | Returned _ => llen (up_expected_sha256 u) = 32 -> sha256 data = up_expected_sha256 u
       | Failed _ => True
       | Panicked => False
       end).
Proof.
  destruct (N.eqb_spec (llen (up_expected_sha256 u)) 32); [|by wp_step].
  unfold sha256_file. do 2 wp_step. wp_step; [|done]. wp_step. wp_step.
  unfold path_metadata. cbn [follow at_offset w_fs]. rewrite lookup_insert_eq.
  wp_step. wp_step; [|done]. wp_step. wp_step; [|done]. bool_prop. done.
Qed.
Lemma wp_permissions_at io wb u off data :
  up_target u <> up_temporary u ->
  wp (if up_mode u =? 0 then mret tt else set_permissions io 5 (up_temporary u) (up_mode u))
    (at_offset wb u off data)
    (fun w' o => w_uploads w' = w_uploads (at_offset wb u off data) /\
       w_pools w' = w_pools (at_offset wb u off data) /\
       w_fs w' !! up_target u = w_fs (at_offset wb u off data) !! up_target u /\
       match o with
       | Returned _ => exists mode, w_fs w' !! up_temporary u = Some (NFile data mode)
       | Failed _ => True
       | Panicked => False
       end).
Proof.
  intros Hne. destruct (up_mode u =? 0).
  - wp_step. split_and!; try done. exists 384. cbn. by rewrite lookup_insert_eq.
  - unfold set_permissions. wp_step. wp_step; [|done]. wp_step. wp_step. cbn [at_offset w_fs].
    rewrite lookup_insert_eq. wp_step. cbn. rewrite lookup_insert_ne, lookup_insert_eq by done.
    split_and!; try done. by eexists.
Qed.

(** A commit of a complete upload, with any failures: when it returns, the target
    holds the data; when it fails, the upload is still there to be retried, and
    the target is as it was or holds the data. *)
Lemma commit_at io wb u off data content :
  up_state u = Active -> up_size u = llen data -> prefix_ok data off content ->
  up_target u <> up_temporary u ->
  wp (commit_upload parse_uuid io (up_transfer_id u)) (at_offset wb u off content)
    (fun w' o =>
       let published := off = llen data /\ (exists mode, w_fs w' !! up_target u = Some (NFile data mode)) /\
         (up_overwrite u = false -> w_fs wb !! up_target u = None) /\
         (llen (up_expected_sha256 u) = 32 -> sha256 data = up_expected_sha256 u) in
       match o with
       | Returned _ => published /\ w_uploads w' !! up_transfer_id u = Some (finish (set_offset u off) Completed)
       | Failed _ => w_uploads w' !! up_transfer_id u = Some (set_offset u off) /\
                     (w_fs w' !! up_target u = w_fs wb !! up_target u \/ published)
       | Panicked => drop_reservations (w_pools wb) (default [] (up_resources u)) = None
       end).
Proof.
  intros Hact Hsize Hok Hne.
  assert (Hkeep : w_uploads (at_offset wb u off content) !! up_transfer_id u = Some (set_offset u off) /\
    w_fs (at_offset wb u off content) !! up_target u = w_fs wb !! up_target u).
  { cbn. by rewrite lookup_insert_eq, lookup_insert_ne. }
  unfold commit_upload. wp_step. wp_step. wp_step.
  2:{ tauto. }
  2:{ unfold validate_transfer_id in *. repeat case_match; done. }
  wp_step. wp_step. cbn [at_offset w_uploads]. rewrite lookup_insert_eq.
  cbn [set_offset up_state up_size up_temporary up_committed_offset up_expected_sha256 up_target up_overwrite up_mode up_resources].
  rewrite Hact. wp_step. wp_step; [|tauto]. bool_prop. rewrite Hsize in *. subst off.
  pose proof (prefix_ok_complete _ _ Hok) as ->. clear Hok. set (w := at_offset wb u (llen data) data) in *.
  wp_step. eapply wp_conseq; [apply wp_digest_at|]. fold w.
  intros w1 o1 [-> Ho1]. destruct o1 as [[]| |]; [|tauto|done].
  wp_step. wp_step. wp_step. wp_step; [|tauto]. wp_step. apply wp_open_at; [|intros; tauto].
  wp_step. wp_step; [|tauto]. wp_step.
  eapply wp_conseq; [apply wp_permissions_at; done|]. fold w.
  intros w2 o2 (Hu2 & Hp2 & Hg2 & Ho2). rewrite <- Hu2, <- Hg2 in Hkeep. destruct Hkeep as [Hk1 Hk2].
  destruct o2 as [[]| |]; [|by auto|done]. destruct Ho2 as [mode Htmp]. wp_step.
  eapply wp_conseq; [apply (wp_publish io (set_offset u (llen data)) (NFile data mode) w2); done|].
  cbn [set_offset up_target up_overwrite]. intros w3 o3 (Hu3 & Hp3 & Hpub).
  rewrite <- Hu3 in Hk1. rewrite Hk2 in Hpub.
  assert (Hd : w_fs w3 !! up_target u = Some (NFile data mode) /\ (up_overwrite u = false -> w_fs wb !! up_target u = None) ->
    llen data = llen data /\ (exists mode, w_fs w3 !! up_target u = Some (NFile data mode)) /\
         (up_overwrite u = false -> w_fs wb !! up_target u = None) /\
         (llen (up_expected_sha256 u) = 32 -> sha256 data = up_expected_sha256 u)) by (intros []; eauto 6).
  destruct o3 as [[]| |]; [| |done].
  2:{ split; [done|]. destruct Hpub as [->|Hpub]; auto. }
  wp_step. wp_step. wp_step. wp_step. wp_step. wp_step. unfold drop_resources, wp. cbn [w_pools set_uploads].
  rewrite Hp3, Hp2. change (w_pools w) with (w_pools wb).
  destruct (drop_reservations (w_pools wb) (default [] (up_resources u))) as [s|] eqn:Es; [|done].
  cbn. split; [by apply Hd|]. by rewrite lookup_insert_eq.
Qed.

(** ** Without failures *)

Context `{!PayloadLaws}.

Lemma valid_id id : parse_uuid id = Some id -> validate_transfer_id parse_uuid id = Returned tt.
Proof. intros Hp. unfold validate_transfer_id. by rewrite Hp, bool_decide_true. Qed.
Lemma valid_sha256 d b : validate_digest (sha256 d) b = Returned tt.
Proof. unfold validate_digest. by rewrite sha256_length. Qed.
Lemma wp_require_true (b : bool) code message w (Q : World -> outcome FileServiceError () -> Prop) :
  b = true -> Q w (Returned tt) -> wp (require b code message) w Q.
Proof. by intros ->. Qed.
Lemma wp_reliable k action w (Q : World -> outcome FileServiceError () -> Prop) :
  Q w (Returned tt) -> wp (io_call io_reliable k action) w Q.
Proof. done. Qed.
Lemma wp_open_reliable k wb u off content (Q : World -> outcome FileServiceError bytes -> Prop) :
  Q (at_offset wb u off content) (Returned content) ->
  wp (open_upload_file io_reliable k (up_temporary u)) (at_offset wb u off content) Q.
Proof.
  intros HQ. unfold open_upload_file. wp_step. apply wp_reliable. wp_step. wp_step.
  cbn [at_offset w_fs]. rewrite lookup_insert_eq. wp_step. apply wp_reliable. by wp_step.
Qed.

Lemma write_chunk_next wb u data off content len :
  up_state u = Active -> up_size u = llen data -> prefix_ok data off content ->
  parse_uuid (up_transfer_id u) = Some (up_transfer_id u) -> llen data <= U64_MAX ->
  off < llen data -> (0 < len)%nat -> N.of_nat len <= MAX_FILE_CHUNK_SIZE ->
  wp (write_chunk parse_uuid io_reliable (chunk_request (up_transfer_id u) data off len)) (at_offset wb u off content)
    (fun w' o => exists content', o = Returned (upload_status (set_offset u (N.min (off + N.of_nat len) (llen data)))) /\
       w' = at_offset wb u (N.min (off + N.of_nat len) (llen data)) content' /\
       prefix_ok data (N.min (off + N.of_nat len) (llen data)) content').
Proof.
  intros Hact Hsize (Hoff & Hlen & Hpre) Hid H64 Hlt Hpos Hmax. unfold write_chunk.
  set (o := N.to_nat off) in *. set (d := take len (drop o data)).
  cbn [chunk_request wc_encoding wc_uncompressed_size wc_transfer_id wc_sha256 wc_data wc_offset].
  fold o. fold d. unfold llen in *.
  assert (Hd : length d = (len `min` (length data - o))%nat) by (unfold d; rewrite length_take, length_drop; done).
  assert (Hd' : d = take (length d) (drop o data)) by (unfold d; symmetry; apply take_length_take).
  wp_step. apply wp_require_true; [done|]. wp_step. wp_step. rewrite valid_id by done.
  wp_step. wp_step. rewrite valid_sha256. wp_step. apply wp_require_true; [destruct d; cbn in *; [lia|done]|].
  wp_step. apply wp_require_true; [apply N.leb_le; lia|]. wp_step.
  apply wp_require_true; [by apply bool_decide_eq_true|]. wp_step. wp_step. cbn [at_offset w_uploads].
  rewrite lookup_insert_eq. cbn [set_offset up_state up_size up_temporary up_committed_offset]. rewrite Hact.
  assert (Hadd : checked_add U64_MAX off (N.of_nat (length d)) = Some (off + N.of_nat (length d)))
    by (apply checked_add_Some; lia).
  rewrite Hadd. wp_step. apply wp_require_true; [apply N.leb_le; lia|]. wp_step. apply wp_open_reliable.
  rewrite N.ltb_irrefl. wp_step. apply wp_require_true; [apply N.eqb_refl|]. wp_step.
  unfold write_all_at, wp. cbn [at_offset w_fs]. rewrite lookup_insert_eq. cbn [io_reliable io_fault fst snd].
  replace (N.min (off + N.of_nat len) (N.of_nat (length data))) with (off + N.of_nat (length d)) by lia.
  exists (write_at content o d). split; [done|].
  assert (Ho : (o <= length content)%nat) by lia. split.
  - pose proof (at_offset_fs wb u off content (write_at content o d)) as Hfs. cbn [at_offset w_fs] in Hfs.
    fold o. rewrite Hfs. exact (at_offset_register wb u off _ (write_at content o d)).
  - unfold prefix_ok, llen. rewrite write_at_length by done. split; [lia|]. split; [lia|].
    replace (N.to_nat (off + N.of_nat (length d))) with (o + length d)%nat by lia.
    apply write_at_extends; try done. lia.
Qed.

(** The client sends what is left, in chunks of [n] bytes. *)
Fixpoint send_rest (fuel : nat) (n : N) (id : string) (data : bytes) (off : N) (w : World) : World :=
  match fuel with
  | O => w
  | S fuel =>
      if llen data <=? off then w
      else send_rest fuel n id data (off + n)
             (write_chunk parse_uuid io_reliable (chunk_request id data off (N.to_nat n)) w).1
  end.

Lemma send_rest_completes fuel n wb u data off content :
  up_state u = Active -> up_size u = llen data ->
  parse_uuid (up_transfer_id u) = Some (up_transfer_id u) -> llen data <= U64_MAX ->
  0 < n -> n <= MAX_FILE_CHUNK_SIZE ->
  prefix_ok data (N.min off (llen data)) content -> (N.to_nat (llen data - off) <= fuel)%nat ->
  exists content', send_rest fuel n (up_transfer_id u) data off (at_offset wb u (N.min off (llen data)) content) =
    at_offset wb u (llen data) content' /\ prefix_ok data (llen data) content'.
Proof.
  intros Hact Hsize Hid H64 Hn Hmax. revert off content. induction fuel as [|fuel IH]; intros off content Hok Hf.
  { exists content. rewrite N.min_r in * by lia. done. }
  cbn [send_rest]. destruct (N.leb_spec (llen data) off) as [Hle|Hlt].
  { exists content. rewrite N.min_r in * by lia. done. }
  rewrite N.min_l in * by lia.
  destruct (write_chunk_next wb u data off content (N.to_nat n)) as (content' & _ & -> & Hok');
    rewrite ?N2Nat.id in *; auto; [lia|]. apply IH; [done|lia].
Qed.

(** The commit of a complete upload to a new name. *)
Definition committed_world (wb : World) (u : Upload) (data : bytes) (pools : PoolStore) : World :=
  mkWorld (w_root wb) (w_account wb)
    (<[up_target u := NFile data (if up_mode u =? 0 then 384 else up_mode u)]> (w_fs wb))
    (<[up_transfer_id u := finish (set_offset u (llen data)) Completed]> (w_uploads wb)) pools.

Lemma commit_tail wb u data mode pools :
  up_target u <> up_temporary u -> w_fs wb !! up_target u = None -> w_fs wb !! up_temporary u = None ->
  drop_reservations (w_pools wb) (default [] (up_resources u)) = Some pools ->
  let done_ := finish (set_offset u (llen data)) Completed in
  wp (_ ← publish io_reliable (set_offset u (llen data));
      status ← register done_;
      _ ← drop_resources (default [] (up_resources u));
      mret status)
    (mkWorld (w_root wb) (w_account wb) (<[up_temporary u := NFile data mode]> (w_fs wb))
       (<[up_transfer_id u := set_offset u (llen data)]> (w_uploads wb)) (w_pools wb))
    (fun w' o => o = Returned (upload_status done_) /\
       w' = mkWorld (w_root wb) (w_account wb) (<[up_target u := NFile data mode]> (w_fs wb))
              (<[up_transfer_id u := done_]> (w_uploads wb)) pools).
Proof.
  intros Hne Htg Htmp Hdrop done_. wp_step. unfold publish, rename_file, hard_link.
  apply (wp_conseq _ _ _ (fun w' o => o = Returned tt /\
    w' = mkWorld (w_root wb) (w_account wb) (<[up_target u := NFile data mode]> (w_fs wb))
       (<[up_transfer_id u := set_offset u (llen data)]> (w_uploads wb)) (w_pools wb))).
  - cbn [set_offset up_overwrite up_temporary up_target].
    destruct (up_overwrite u); [|wp_step]; wp_step; apply wp_reliable; wp_step; wp_step; cbn [w_fs];
      rewrite lookup_insert_eq, lookup_insert_ne, Htg by done; wp_step.
    + split; [done|]. unfold set_fs. cbn. by rewrite delete_insert_id.
    + wp_step. apply wp_reliable. wp_step. split; [done|]. unfold set_fs. cbn.
      rewrite delete_insert_ne by done. by rewrite delete_insert_id.
  - intros w' o [-> ->]. wp_step. wp_step. wp_step. wp_step. wp_step.
    wp_step. unfold drop_resources, wp. cbn [w_pools set_uploads]. rewrite Hdrop. cbn.
    split; [done|]. unfold set_pools. cbn. by rewrite insert_insert_eq.
Qed.

Lemma commit_reliable wb u data content pools :
  up_state u = Active -> up_size u = llen data -> prefix_ok data (llen data) content ->
  parse_uuid (up_transfer_id u) = Some (up_transfer_id u) ->
  up_target u <> up_temporary u -> w_fs wb !! up_target u = None -> w_fs wb !! up_temporary u = None ->
  (llen (up_expected_sha256 u) = 32 -> up_expected_sha256 u = sha256 data) ->
  drop_reservations (w_pools wb) (default [] (up_resources u)) = Some pools ->
  wp (commit_upload parse_uuid io_reliable (up_transfer_id u)) (at_offset wb u (llen data) content)
    (fun w' o => o = Returned (upload_status (finish (set_offset u (llen data)) Completed)) /\
                 w' = committed_world wb u data pools).
Proof.
  intros Hact Hsize Hok Hid Hne Htg Htmp Hsha Hdrop.
  pose proof (prefix_ok_complete _ _ Hok) as ->. clear Hok. unfold commit_upload.
  wp_step. wp_step. rewrite valid_id by done. wp_step. wp_step. cbn [at_offset w_uploads]. rewrite lookup_insert_eq.
  cbn [set_offset up_state up_size up_temporary up_committed_offset up_expected_sha256 up_target up_overwrite up_mode up_resources].
  rewrite Hact. wp_step. apply wp_require_true; [by apply N.eqb_eq|].
  wp_step. apply (wp_conseq _ _ _ (fun w' o => o = Returned tt /\ w' = at_offset wb u (llen data) data)).
  { destruct (N.eqb_spec (llen (up_expected_sha256 u)) 32) as [H32|]; [|by wp_step].
    unfold sha256_file. do 2 wp_step. apply wp_reliable. wp_step. wp_step.
    unfold path_metadata. cbn [follow at_offset w_fs]. rewrite lookup_insert_eq.
    wp_step. apply wp_reliable. wp_step. apply wp_require_true; [|done]. apply bool_decide_eq_true.
    by rewrite Hsha. }
  intros w' o [-> ->]. wp_step. wp_step. wp_step. apply wp_require_true.
  { unfold path_exists, path_metadata. cbn [at_offset w_fs follow]. rewrite lookup_insert_ne, Htg by done. done. }
  wp_step. apply wp_open_reliable. wp_step. apply wp_reliable. wp_step.
  unfold committed_world. destruct (up_mode u =? 0) eqn:Em.
  - wp_step. by apply commit_tail.
  - unfold set_permissions. wp_step. apply wp_reliable. wp_step. wp_step. cbn [at_offset w_fs].
    rewrite lookup_insert_eq. wp_step. unfold set_fs at 1. cbn [at_offset w_fs w_root w_account w_uploads w_pools].
    rewrite insert_insert_eq. by apply commit_tail.
Qed.

(** ** The life of an upload *)

(** The upload that [begin_upload] registers for a new destination. *)
Definition new_upload (request : BeginUploadRequest) (parent : Path) (name : bytes)
    (rs : list PoolReservation) : Upload :=
  mkUpload (bu_transfer_id request) (bu_path request) (parent ++ [name])
    (parent ++ [str_bytes (".astra-upload-" ++ bu_transfer_id request ++ ".part")]) (bu_size request)
    (bu_sha256 request) (bu_overwrite request) (N.land (bu_mode request) 511) 0 Active (Some rs).

(** A request for a destination that does not exist yet, under a new transfer
    identifier, with room in the account. *)
Record fresh_request (w0 : World) (request : BeginUploadRequest) (parent : Path) (name data : bytes) : Prop := {
  fq_id : parse_uuid (bu_transfer_id request) = Some (bu_transfer_id request);
  fq_new : w_uploads w0 !! bu_transfer_id request = None;
  fq_size : bu_size request = llen data /\ llen data <= U64_MAX;
  fq_digest : validate_digest (bu_sha256 request) true = Returned tt;
  fq_resolve : resolve_new canonicalize (w_fs w0) (w_root w0) (bu_path request) = Returned (parent ++ [name]);
  fq_name : name <> str_bytes (".astra-upload-" ++ bu_transfer_id request ++ ".part");
  fq_target : w_fs w0 !! (parent ++ [name]) = None;
  fq_temporary : w_fs w0 !! (parent ++ [str_bytes (".astra-upload-" ++ bu_transfer_id request ++ ".part")]) = None;
  fq_account : NoDup (w_account w0) /\ (forall id, id ∈ w_account w0 -> is_Some (w_pools w0 !! id));
  fq_room : exists s rs, account_reserve (w_pools w0) (w_account w0) (claim_upload (bu_size request)) = (s, Returned rs)
}.

Lemma begin_fresh w0 request parent name data :
  fresh_request w0 request parent name data ->
  exists wb rs, let u := new_upload request parent name rs in
    begin_upload parse_uuid canonicalize io_reliable request w0 =
      (at_offset wb u 0 [], Returned (upload_status u)) /\
    w_fs wb = w_fs w0 /\ drop_reservations (w_pools wb) rs = Some (w_pools w0) /\ w_root wb = w_root w0.
Proof.
  intros [Hid Hnew [Hsize _] Hsha Hres Hname Htg Htmp [Hnd Hex] (s & rs & Hroom)].
  pose proof (account_reserve_spec (w_pools w0) (w_account w0) (claim_upload (bu_size request)) Hnd Hex) as Hpost.
  rewrite Hroom in Hpost. destruct Hpost as (_ & _ & _ & Hdrop).
  exists (mkWorld (w_root w0) (w_account w0) (w_fs w0) (filter (fun kv => up_state kv.2 = Active) (w_uploads w0)) s), rs.
  cbn zeta. split; [|done].
  enough (HW : wp (begin_upload parse_uuid canonicalize io_reliable request) w0
    (fun w' o => (w', o) = (at_offset (mkWorld (w_root w0) (w_account w0) (w_fs w0)
       (filter (fun kv => up_state kv.2 = Active) (w_uploads w0)) s) (new_upload request parent name rs) 0 [],
       Returned (upload_status (new_upload request parent name rs))))).
  { unfold wp in HW. by destruct (begin_upload _ _ _ _ _). }
  unfold begin_upload. wp_step. wp_step. rewrite valid_id by done. wp_step. wp_step.
  rewrite Hsha. wp_step. wp_step. unfold id. wp_step. wp_step. rewrite Hres. wp_step. wp_step.
  unfold upload_temporary_path. rewrite split_last_snoc. cbv zeta. rewrite Hnew. wp_step. wp_step.
  assert (Hne : path_exists (w_fs w0) (parent ++ [name]) = false)
    by (unfold path_exists, path_metadata; cbn [follow]; by rewrite Htg).
  rewrite Hne. wp_step. wp_step. wp_step. unfold reserve, wp at 1. cbn [set_uploads w_pools w_account].
  rewrite Hroom. cbn [fst snd]. unfold owning, wp.
  match goal with |- context [(open_upload_file _ _ _ ≫= ?f) ?w] =>
    assert (HW : (open_upload_file io_reliable 3 (parent ++ [str_bytes (".astra-upload-" ++ bu_transfer_id request ++ ".part")]) ≫= f) w =
      (at_offset (mkWorld (w_root w0) (w_account w0) (w_fs w0)
       (filter (fun kv => up_state kv.2 = Active) (w_uploads w0)) s) (new_upload request parent name rs) 0 [],
       Returned (upload_status (new_upload request parent name rs)))) end.
  { unfold open_upload_file, mbind, FileM_bind, io_call, get, modify. cbn [io_reliable io_fault mret FileM_ret set_pools set_uploads w_fs].
    rewrite Htmp. cbn. rewrite llen_nil. by rewrite (proj2 (N.leb_le _ _) (N.le_0_l _)). }
  by rewrite HW.
Qed.

(** Any number of attempts to write chunks of the data, at any offsets and with
    any failures. *)
Definition write_attempts (id : string) (data : bytes) (attempts : list (Io * N * nat)) (w : World) : World :=
  foldl (fun w a => (write_chunk parse_uuid a.1.1 (chunk_request id data a.1.2 a.2) w).1) w attempts.

Lemma write_attempts_at wb u data off content attempts :
  up_state u = Active -> up_size u = llen data -> prefix_ok data off content ->
  exists off' content', write_attempts (up_transfer_id u) data attempts (at_offset wb u off content) =
    at_offset wb u off' content' /\ prefix_ok data off' content'.
Proof.
  intros Hact Hsize. revert off content. induction attempts as [|[[io o] len] attempts IH]; intros off content Hok.
  { by exists off, content. }
  unfold write_attempts. cbn [foldl fst snd].
  destruct (write_chunk_at wb u data off content io o len Hact Hsize Hok) as (off' & content' & -> & _ & Hok').
  by apply IH.
Qed.

Lemma query_at wb u off content :
  parse_uuid (up_transfer_id u) = Some (up_transfer_id u) ->
  query_upload parse_uuid (up_transfer_id u) (at_offset wb u off content) =
  (at_offset wb u off content, Returned (upload_status (set_offset u off))).
Proof.
  intros Hid. unfold query_upload, mbind, FileM_bind, lift, get. rewrite valid_id by done.
  cbn [at_offset w_uploads]. by rewrite lookup_insert_eq.
Qed.

(** ** Properties *)

(** Whatever upload operations run, with whatever failures, nothing outside
    the root directory of the service changes; and every path that a request can
    name resolves to one below the root, made of proper file names, with no way
    up. *)
Theorem files_confined w0 ops :
  Forall proper_name (w_root w0) -> w_uploads w0 = ∅ ->
  let w := foldl run_file_op w0 ops in
  (forall p, ~ w_root w0 `prefix_of` p -> w_fs w !! p = w_fs w0 !! p) /\
  (forall raw p follow_symlinks,
     resolve_new canonicalize (w_fs w) (w_root w) raw = Returned p \/
     resolve_existing canonicalize (w_fs w) (w_root w) raw follow_symlinks = Returned p ->
     w_root w0 `prefix_of` p /\ Forall proper_name p).
Proof.
  intros Hroot Hnone w.
  assert (Hw : inside w0 w).
  { apply run_file_ops_inside; [done|]. apply inside_refl. intros id u Hu. by rewrite Hnone, lookup_empty in Hu. }
  destruct Hw as [Hr Hf _]. split; [done|]. rewrite Hr. intros raw p f [Hres|Hres].
  - apply resolve_new_spec in Hres as (parent & name & -> & Hp & Hn); [|done].
    split; [by apply prefix_app_r|done].
  - by apply resolve_existing_spec in Hres.
Qed.

(** C23: a commit is safe whatever happened before it: after any attempts to write
    chunks of [data] in any order and with any failures, a commit that returns has
    put exactly [data] at the destination and checked it against the digest of the
    request; a commit that fails leaves the upload registered as active, and the
    destination is still absent or holds exactly [data]. *)
Theorem upload_commit_safe w0 request parent name data attempts io :
  fresh_request w0 request parent name data ->
  let id := bu_transfer_id request in
  let w := write_attempts id data attempts (begin_upload parse_uuid canonicalize io_reliable request w0).1 in
  let '(w', o) := commit_upload parse_uuid io id w in
  match o with
  | Returned _ =>
      (exists mode, w_fs w' !! (parent ++ [name]) = Some (NFile data mode)) /\
      (exists u, w_uploads w' !! id = Some u /\ up_state u = Completed) /\
      (llen (bu_sha256 request) = 32 -> bu_sha256 request = sha256 data)
  | Failed _ =>
      (w_fs w' !! (parent ++ [name]) = None \/
       exists mode, w_fs w' !! (parent ++ [name]) = Some (NFile data mode)) /\
      (exists u, w_uploads w' !! id = Some u /\ up_state u = Active)
  | Panicked => False
  end.
Proof.
  intros Hq. destruct (begin_fresh _ _ _ _ _ Hq) as (wb & rs & Hb & Hfs & Hdrop & _).
  set (u := new_upload request parent name rs) in *. cbv zeta. rewrite Hb. cbn [fst].
  change (bu_transfer_id request) with (up_transfer_id u).
  assert (Hok : prefix_ok data 0 []) by (repeat split; unfold llen; cbn; lia).
  assert (Hsize : up_size u = llen data) by apply (proj1 (fq_size _ _ _ _ _ Hq)).
  destruct (write_attempts_at wb u data 0 [] attempts eq_refl Hsize Hok) as (off & content & -> & Hok').
  assert (Hne : up_target u <> up_temporary u).
  { cbn. intros [_ [= Heq]]%app_inj_2; [|done]. by apply (fq_name _ _ _ _ _ Hq). }
  pose proof (commit_at io wb u off data content eq_refl Hsize Hok' Hne) as HW. unfold wp in HW.
  destruct (commit_upload _ _ _ _) as [w' [st|e|]]; cbn [fst snd] in HW.
  - destruct HW as ((_ & Hm & _ & Hs) & Hu). split; [done|]. split; [by eexists|].
    intros H32. symmetry. by apply Hs.
  - destruct HW as (Hu & Hfail). split; [|by eexists].
    destruct Hfail as [Hfail|(_ & Hm & _)]; [left|by right].
    etrans; [exact Hfail|]. rewrite Hfs. apply (fq_target _ _ _ _ _ Hq).
  - cbn in HW. congruence.
Qed.

(** An upload can always be completed: after any attempts and failures, the
    client asks for the committed offset, sends the rest and commits, and then the
    file system is as before the upload with just the new file, and the
    resources that the upload held are returned. *)
Theorem upload_completes w0 request parent name data attempts n :
  fresh_request w0 request parent name data ->
  bu_sha256 request = [] \/ bu_sha256 request = sha256 data ->
  0 < n -> n <= MAX_FILE_CHUNK_SIZE ->
  let id := bu_transfer_id request in
  let w := write_attempts id data attempts (begin_upload parse_uuid canonicalize io_reliable request w0).1 in
  exists st mode,
    (query_upload parse_uuid id w).2 = Returned st /\
    let sent := send_rest (length data) n id data (us_committed_offset st) w in
    let '(w', o) := commit_upload parse_uuid io_reliable id sent in
    (exists st', o = Returned st' /\ us_state st' = "completed") /\
    w_fs w' = <[parent ++ [name] := NFile data mode]> (w_fs w0) /\ w_pools w' = w_pools w0.
Proof.
  intros Hq Hsha Hn Hmax. destruct (begin_fresh _ _ _ _ _ Hq) as (wb & rs & Hb & Hfs & Hdrop & _).
  set (u := new_upload request parent name rs) in *. cbv zeta. rewrite Hb. cbn [fst].
  change (bu_transfer_id request) with (up_transfer_id u).
  assert (Hok : prefix_ok data 0 []) by (repeat split; unfold llen; cbn; lia).
  destruct Hq as [Hid _ [Hsize H64] _ _ Hname Htg Htmp _ _].
  destruct (write_attempts_at wb u data 0 [] attempts eq_refl Hsize Hok) as (off & content & -> & Hok').
  assert (Hne : up_target u <> up_temporary u) by (cbn; intros [_ [= Heq]]%app_inj_2; done).
  assert (Hoff : off = N.min off (llen data)) by (destruct Hok' as (? & ? & _); lia).
  exists (upload_status (set_offset u off)), (if up_mode u =? 0 then 384 else up_mode u).
  rewrite query_at by done. split; [done|]. cbn [upload_status us_committed_offset set_offset up_committed_offset].
  rewrite Hoff in Hok'.
  assert (Heq : at_offset wb u off content = at_offset wb u (N.min off (llen data)) content) by by rewrite <- Hoff.
  rewrite Heq.
  destruct (send_rest_completes (length data) n wb u data off content eq_refl Hsize Hid H64 Hn Hmax Hok')
    as (content' & -> & Hfull); [unfold llen; lia|].
  pose proof (commit_reliable wb u data content' (w_pools w0) eq_refl Hsize Hfull Hid Hne) as HW.
  unfold wp in HW. destruct (commit_upload _ _ _ _) as [w' o]. cbn [fst snd] in HW.
  destruct HW as [-> ->]; [by rewrite Hfs|by rewrite Hfs| |done|].
  - cbn. destruct Hsha as [->| ->]; [by rewrite llen_nil|done].
  - split; [by eexists|]. cbn. by rewrite Hfs.
Qed.
End spec.
#[export] Hint Resolve inside_refl inside_insert inside_delete inside_pools inside_register inside_filter : files.

(** ** Witnesses *)

Definition proper_nameb (name : bytes) : bool :=
  bool_decide (name <> []) && bool_decide (name <> [46]) && bool_decide (name <> [46; 46])
  && forallb (fun b => negb (b =? 47) && negb (b =? 0)) name.
Lemma proper_nameb_true name : proper_nameb name = true -> proper_name name.
Proof.
  unfold proper_nameb, proper_name. rewrite !andb_true_iff, !bool_decide_eq_true, forallb_forall.
  intros [[[H1 H2] H3] H4]. split; [done|]. split; [done|]. split; [done|]. apply Forall_forall. intros b Hb.
  apply list_elem_of_In in Hb. specialize (H4 b Hb). rewrite andb_true_iff, !negb_true_iff, !N.eqb_neq in H4. done.
Qed.

(** A host whose directories hold no links. *)
Definition ex_canonicalize (fs : FileSystem) (p : Path) : FileServiceError + Path :=
  match fs !! p with
  | Some NDir => if forallb proper_nameb p then inr p else inl (mkFileError "invalid" "cannot resolve")
  | _ => inl (mkFileError "not_found" "cannot resolve")
  end.
Lemma ex_canonicalize_names fs p q : ex_canonicalize fs p = inr q -> Forall proper_name q.
Proof.
  unfold ex_canonicalize. destruct (fs !! p) as [[]|]; try done. destruct (forallb proper_nameb p) eqn:E; [|done].
  intros [= <-]. rewrite forallb_forall in E. apply Forall_forall. intros x Hx. apply proper_nameb_true, E.
  by apply list_elem_of_In.
Qed.

Definition ex_world : World :=
  mkWorld [[104]] [0] {[ [[104]] := NDir; [[101]] := NFile [9] 384 ]} ∅ {[0 := ex_pool]}.
Definition ex_request : BeginUploadRequest :=
  mkBeginUpload "u" [97] 3 (@sha256 ex_payload_lib [1; 2; 3]) false 420.
Definition ex_broken : Io := mkIo (fun k => if (k =? 2)%nat then Some "io"%string else None) 1.

Lemma ex_fresh : fresh_request Some ex_canonicalize ex_world ex_request [[104]] [97] [1; 2; 3].
Proof.
  split; try (vm_compute; reflexivity).
  - split; vm_compute; done.
  - vm_compute. congruence.
  - split; [repeat constructor; by intros ?%elem_of_nil|]. intros id Hid. apply list_elem_of_singleton in Hid as ->.
    eexists. reflexivity.
  - eexists _, _. vm_compute. reflexivity.
Qed.

Definition ex_attempts : list (Io * N * nat) := [(ex_broken, 0, 2%nat); (io_reliable, 0, 2%nat); (ex_broken, 2, 1%nat)].

Lemma files_confined_witness :
  let w := foldl (@run_file_op ex_payload_lib Some ex_canonicalize) ex_world
             [OpBegin io_reliable ex_request;
              OpWriteChunk ex_broken (@chunk_request ex_payload_lib "u" [1; 2; 3] 0 3); OpCommit io_reliable "u"] in
  w_fs w !! [[101]] = Some (NFile [9] 384) /\
  resolve_new ex_canonicalize (w_fs w) (w_root w) [97; 47; 46; 46] = refuse "invalid" "remote paths must not contain '..'".
Proof.
  cbv zeta. split; [|vm_compute; reflexivity].
  refine (eq_trans (proj1 (@files_confined ex_payload_lib Some ex_canonicalize ex_canonicalize_names ex_world _ _ _) [[101]] _) _).
  - repeat constructor; intros ?; discriminate.
  - reflexivity.
  - apply (bool_decide_unpack _). vm_compute. exact I.
  - vm_compute. reflexivity.
Defined.

Lemma upload_commit_safe_witness :
  let w := @write_attempts ex_payload_lib Some "u" [1; 2; 3] (ex_attempts ++ [(io_reliable, 2, 1%nat)])
             (@begin_upload ex_payload_lib Some ex_canonicalize io_reliable ex_request ex_world).1 in
  (@commit_upload ex_payload_lib Some io_reliable "u" w).2 =
    Returned (mkStatus "u" [97] 3 3 "completed") /\
  exists mode, w_fs (@commit_upload ex_payload_lib Some io_reliable "u" w).1 !! [[104]; [97]] = Some (NFile [1; 2; 3] mode).
Proof.
  cbv zeta.
  pose proof (@upload_commit_safe ex_payload_lib Some ex_canonicalize ex_world ex_request [[104]] [97] [1; 2; 3]
    (ex_attempts ++ [(io_reliable, 2, 1%nat)]) io_reliable ex_fresh) as H. cbv zeta in H.
  match goal with |- ?r.2 = ?v /\ _ => assert (E : r.2 = v) by (vm_compute; reflexivity) end.
  split; [exact E|]. change (bu_transfer_id ex_request) with "u"%string in H.
  destruct (commit_upload _ _ _ _) as [w' o]. cbn [snd] in E. subst o. exact (proj1 H).
Defined.

Lemma upload_completes_witness :
  let w := @write_attempts ex_payload_lib Some "u" [1; 2; 3] ex_attempts
             (@begin_upload ex_payload_lib Some ex_canonicalize io_reliable ex_request ex_world).1 in
  exists st mode, (@query_upload Some "u" w).2 = Returned st /\
    let sent := @send_rest ex_payload_lib Some 3 2 "u" [1; 2; 3] (us_committed_offset st) w in
    let '(w', o) := @commit_upload ex_payload_lib Some io_reliable "u" sent in
    (exists st', o = Returned st' /\ us_state st' = "completed"%string) /\
    w_fs w' = <[[[104]; [97]] := NFile [1; 2; 3] mode]> (w_fs ex_world) /\ w_pools w' = w_pools ex_world.
Proof.
  apply (@upload_completes ex_payload_lib Some ex_canonicalize ex_payload_laws ex_world ex_request [[104]] [97]
    [1; 2; 3] ex_attempts 2).
  - exact ex_fresh.
  - right. reflexivity.
  - lia.
  - vm_compute. discriminate.
Defined.
