(* ===== verification/Text.v ===== *)
(** * Text

    Rust's [str] as the list of its Unicode scalar values, with the methods of the
    standard library that the source uses on names, host files and settings. *)
From S2P Require Import Prelude.
Open Scope N_scope.

Abbreviation text := (list N).

(** The text of an ASCII literal. *)
Definition lit (s : string) : text := Ascii.N_of_ascii <$> String.list_ascii_of_string s.

(** [char::is_whitespace], the property [White_Space]. *)
Definition is_whitespace (c : N) : bool :=
  ((9 <=? c) && (c <=? 13)) || (c =? 32) || (c =? 133) || (c =? 160) || (c =? 5760)
  || ((8192 <=? c) && (c <=? 8202)) || (c =? 8232) || (c =? 8233) || (c =? 8239) || (c =? 8287) || (c =? 12288).
(** [char::is_control], the category Cc. *)
Definition is_control (c : N) : bool := (c <? 32) || ((127 <=? c) && (c <? 160)).
(** [char::len_utf8] and [str::len]. *)
Definition len_utf8 (c : N) : N := if c <? 128 then 1 else if c <? 2048 then 2 else if c <? 65536 then 3 else 4.
Definition text_len (t : text) : N := foldr (fun c n => len_utf8 c + n) 0 t.

(** [char::to_ascii_lowercase] *)
Definition to_ascii_lowercase (c : N) : N := if (65 <=? c) && (c <=? 90) then c + 32 else c.

Fixpoint drop_while (p : N -> bool) (t : text) : text :=
  match t with
  | [] => []
  | c :: rest => if p c then drop_while p rest else t
  end.
(** [trim_start], [trim_end_matches] and [trim] *)
Definition trim_start (t : text) : text := drop_while is_whitespace t.
Definition trim_end_matches (p : N -> bool) (t : text) : text := rev (drop_while p (rev t)).
Definition trim (t : text) : text := trim_end_matches is_whitespace (trim_start t).

(** [split_once(c)] *)
Fixpoint split_once (c : N) (t : text) : option (text * text) :=
  match t with
  | [] => None
  | x :: rest =>
      if x =? c then Some ([], rest)
      else match split_once c rest with Some (a, b) => Some (x :: a, b) | None => None end
  end.

(** [split_whitespace]; [current] is the word read so far, in reverse. *)
Fixpoint words (current : text) (t : text) : list text :=
  match t with
  | [] => if bool_decide (current = []) then [] else [rev current]
  | c :: rest =>
      if is_whitespace c
      then (if bool_decide (current = []) then [] else [rev current]) ++ words [] rest
      else words (c :: current) rest
  end.
Definition split_whitespace (t : text) : list text := words [] t.

(** [str::lines]: a final line ending is optional, and a carriage return before it
    is not part of the line. *)
Definition strip_cr (t : text) : text :=
  match last t with Some 13 => removelast t | _ => t end.
Fixpoint lines_from (current : text) (t : text) : list text :=
  match t with
  | [] => if bool_decide (current = []) then [] else [rev current]
  | 10 :: rest => strip_cr (rev current) :: lines_from [] rest
  | c :: rest => lines_from (c :: current) rest
  end.
Definition lines (t : text) : list text := lines_from [] t.

Lemma text_len_app a b : text_len (a ++ b) = text_len a + text_len b.
Proof. induction a as [|c a IH]; cbn; [done|]. fold (text_len (a ++ b)). fold (text_len a). rewrite IH. lia. Qed.

(** ** Trimming *)

Lemma drop_while_head p t : match drop_while p t with c :: _ => p c = false | [] => True end.
Proof. induction t as [|c t IH]; cbn; [done|]. destruct (p c) eqn:E; [done|]. by rewrite E. Qed.
Lemma drop_while_id p t : match t with c :: _ => p c = false | [] => True end -> drop_while p t = t.
Proof. destruct t as [|c t]; cbn; [done|]. by intros ->. Qed.
Lemma drop_while_suffix p t : exists pre, t = pre ++ drop_while p t /\ Forall (fun c => p c = true) pre.
Proof.
  induction t as [|c t (pre & IH & Hp)]; cbn; [by exists []|]. destruct (p c) eqn:E.
  - exists (c :: pre). cbn. by rewrite <- IH, Forall_cons.
  - by exists [].
Qed.

(** Text that [trim] leaves alone. *)
Definition trimmed (t : text) : Prop :=
  match t with c :: _ => is_whitespace c = false | [] => True end /\
  match rev t with c :: _ => is_whitespace c = false | [] => True end.

Lemma trim_trimmed t : trimmed (trim t).
Proof.
  unfold trim, trim_end_matches. split; [|rewrite rev_involutive; apply drop_while_head].
  destruct (drop_while_suffix is_whitespace (rev (trim_start t))) as (pre & Hpre & _).
  set (k := drop_while _ _) in *.
  assert (Ht : trim_start t = rev k ++ rev pre) by (rewrite <- rev_app_distr, <- Hpre; by rewrite rev_involutive).
  destruct (rev k) as [|c l] eqn:E; [done|]. pose proof (drop_while_head is_whitespace t) as H.
  unfold trim_start in Ht. rewrite Ht in H. done.
Qed.
Lemma trim_id t : trimmed t -> trim t = t.
Proof.
  intros [Hs He]. unfold trim, trim_start, trim_end_matches. rewrite (drop_while_id _ t Hs).
  rewrite (drop_while_id _ (rev t) He). apply rev_involutive.
Qed.
Lemma trim_idem t : trim (trim t) = trim t.
Proof. apply trim_id, trim_trimmed. Qed.
Lemma trim_Forall (P : N -> Prop) t : Forall P t -> Forall P (trim t).
Proof.
  intros H. unfold trim, trim_end_matches, trim_start. apply Forall_rev.
  assert (Hd : forall p l, Forall P l -> Forall P (drop_while p l)).
  { intros p l Hl. destruct (drop_while_suffix p l) as (pre & Hpre & _). rewrite Hpre in Hl.
    by apply Forall_app in Hl as [_ ?]. }
  apply Hd, Forall_rev, Hd, H.
Qed.
