(* ===== verification/Messages.v ===== *)
(** * Requests and stream preambles ([protocol.rs])

    The messages that open a stream, with the fields of the source.  The bodies
    that the admission of a stream does not look into are kept encoded. *)
From S2P Require Import Prelude Payload Negotiation Files.
Open Scope N_scope.

Record EnvironmentVariable := mkVariable { ev_name : string; ev_value : string }.
Record SpawnRequest := mkSpawn {
  sp_name : string; sp_argv : list string; sp_cwd : string; sp_rows : N; sp_cols : N; sp_term : string;
  sp_environment : list EnvironmentVariable; sp_workspace_id : string }.
Record AttachRequest := mkAttach {
  at_client_instance_id : string; at_terminal_id : string; at_read_only : bool; at_takeover : bool;
  at_resume_token : string; at_workspace_id : string }.
Record CloseRequest := mkClose { cl_terminal_id : string; cl_workspace_id : string }.
Record RenameTerminalRequest := mkRenameTerminal {
  rt_terminal_id : string; rt_name : string; rt_workspace_id : string }.
Record CreateWorkspaceRequest := mkCreateWorkspace { cw_name : string }.
Record RenameWorkspaceRequest := mkRenameWorkspace { rw_workspace_id : string; rw_name : string }.
Record DeleteWorkspaceRequest := mkDeleteWorkspace { dw_workspace_id : string }.
Record ListTerminalsRequest := mkListTerminals { lt_workspace_id : string; lt_include_exited : bool }.
Record ListAttachmentsRequest := mkListAttachments { la_workspace_id : string; la_terminal_id : string }.
Record FileStatRequest := mkFileStat { fs_path : bytes; fs_follow_symlinks : bool }.
Record FileListRequest := mkFileList { fl_path : bytes; fl_cursor : bytes; fl_limit : N }.
Record QueryUploadRequest := mkQueryUpload { qu_transfer_id : string }.
Record CommitUploadRequest := mkCommitUpload { cu_transfer_id : string }.
Record AbortUploadRequest := mkAbortUpload { au_transfer_id : string }.
Record BeginDownloadRequest := mkBeginDownload { bd_path : bytes; bd_want_sha256 : bool }.
Record ReadFileChunkRequest := mkReadChunk {
  rf_path : bytes; rf_snapshot : bytes; rf_offset : N; rf_length : N }.
Record MakeDirectoryRequest := mkMakeDirectory { md_path : bytes }.
Record RemoveFileRequest := mkRemoveFile { rm_path : bytes }.
Record RenameFileRequest := mkRenameFile { rn_source : bytes; rn_destination : bytes; rn_overwrite : bool }.
Record GitStatusRequest := mkGitStatus { gs_path : bytes }.
Record WatchFilesRequest := mkWatchFiles { wf_paths : list bytes; wf_recursive : bool }.
Record OpenTcpForwardRequest := mkOpenForward { of_mapping_id : string; of_host : string; of_port : N }.

Inductive Command :=
| List
| Spawn (r : SpawnRequest)
| Attach (r : AttachRequest)
| Close (r : CloseRequest)
| FileCapabilities
| FileStat (r : FileStatRequest)
| FileList (r : FileListRequest)
| BeginUpload (r : BeginUploadRequest)
| WriteFileChunk (r : WriteFileChunkRequest)
| QueryUpload (r : QueryUploadRequest)
| CommitUpload (r : CommitUploadRequest)
| AbortUpload (r : AbortUploadRequest)
| BeginDownload (r : BeginDownloadRequest)
| ReadFileChunk (r : ReadFileChunkRequest)
| MakeDirectory (r : MakeDirectoryRequest)
| RemoveFile (r : RemoveFileRequest)
| RenameFile (r : RenameFileRequest)
| GitStatus (r : GitStatusRequest)
| WatchFiles (r : WatchFilesRequest)
| RenameTerminal (r : RenameTerminalRequest)
| ListWorkspaces
| CreateWorkspace (r : CreateWorkspaceRequest)
| RenameWorkspace (r : RenameWorkspaceRequest)
| DeleteWorkspace (r : DeleteWorkspaceRequest)
| ListTerminals (r : ListTerminalsRequest)
| ListAttachments (r : ListAttachmentsRequest)
| OpenTcpForward (r : OpenTcpForwardRequest).

Record Request := mkRequest { rq_request_id : string; rq_command : option Command }.

(** [repr(i32)] enumerations travel as [i32]. *)
Inductive StreamChannelKind := Unspecified | Control | Terminal | File | Forward.
#[global] Instance StreamChannelKind_eq_dec : EqDecision StreamChannelKind.
Proof. solve_decision. Defined.
Definition kind_number (k : StreamChannelKind) : Z :=
  match k with Unspecified => 0 | Control => 1 | Terminal => 2 | File => 3 | Forward => 4 end.
Definition kind_try_from (n : Z) : option StreamChannelKind :=
  match n with
  | 0%Z => Some Unspecified | 1%Z => Some Control | 2%Z => Some Terminal | 3%Z => Some File | 4%Z => Some Forward
  | _ => None
  end.

Record StreamHello := mkStreamHello {
  hl_version : N; hl_channel_kind : Z; hl_handle : string; hl_epoch : N; hl_request_id : string }.
#[global] Instance StreamHello_eq_dec : EqDecision StreamHello.
Proof. solve_decision. Defined.

Record WorkerStreamHello := mkWorkerHello {
  wh_protocol_version : N;
  wh_capabilities : list CapabilitySelection;
  wh_connection_id : string;
  wh_maximum_datagram_size : N;
  wh_stream_epoch : N;
  wh_stream_hello : option StreamHello
}.

(** [wire_message::Body]; an absent body is [None] in [WireMessage]. *)
Inductive Body :=
| BServerHello (h : ServerHello)
| BAuthRequest (public_key signature_pem : string)
| BAuthResult (ok : bool) (message error_code : string) (stream_epoch : N)
| BRequest (r : Request)
| BResponse (encoded : bytes)
| BTerminalCommand (encoded : bytes)
| BTerminalEvent (encoded : bytes)
| BClientHello (h : ClientHello)
| BWorkerStreamHello (h : WorkerStreamHello)
| BStreamHello (h : StreamHello)
| BForwardFrame (encoded : bytes).
Definition WireMessage : Type := option Body.

Lemma kind_roundtrip k : kind_try_from (kind_number k) = Some k.
Proof. by destruct k. Qed.
Lemma kind_try_from_Some n k : kind_try_from n = Some k <-> n = kind_number k.
Proof.
  split; [|intros ->; apply kind_roundtrip]. unfold kind_try_from.
  destruct n as [|[[[]|[]|]|[[]|[]|]|]|]; intros [= <-]; done.
Qed.
