(* ===== verification/StreamChannels.v ===== *)
(** * Opening a stream ([stream_channels.rs], [client.rs], [server.rs], [worker.rs])

    A client opens a stream for a request.  With negotiated stream channels it
    first declares the channel in a [StreamHello]; the gateway checks it, sets the
    priority, checks the request against it and passes both on; the worker repeats
    the checks before it serves the request.  A stream is the list of its messages
    here; [Framing] shows that this is what the readers return. *)
From S2P Require Import Prelude Resources Negotiation TerminalState Payload Files Messages.
Open Scope N_scope.

Definition MAX_STREAM_HELLO_SIZE : N := 1024.
Definition MAX_STREAM_ID_BYTES : N := 128.
Definition MAX_FRAME : N := 4 * 1024 * 1024.

(** [Message::encoded_len] of a message, and canonical UUID syntax. *)
Class AdmissionLib := {
  encoded_len : WireMessage -> N;
  canonical_uuid : string -> bool
}.

(** ** Channels *)

Definition priority (kind : StreamChannelKind) : Z :=
  match kind with Control => 20 | Terminal => 10 | File | Forward => -10 | Unspecified => 0 end.

Definition request_channel (request : Request) : result (StreamChannelKind * string) :=
  command ← ok_or (rq_command request) "request has no command";
  Ok match command with
     | OpenTcpForward r => (Forward, of_mapping_id r)
     | Attach r => (Terminal, at_terminal_id r)
     | BeginUpload r => (File, bu_transfer_id r)
     | WriteFileChunk r => (File, wc_transfer_id r)
     | QueryUpload r => (File, qu_transfer_id r)
     | CommitUpload r => (File, cu_transfer_id r)
     | AbortUpload r => (File, au_transfer_id r)
     | FileCapabilities | FileStat _ | FileList _ | BeginDownload _ | ReadFileChunk _ | MakeDirectory _
     | RemoveFile _ | RenameFile _ | GitStatus _ | WatchFiles _ => (File, "")
     | List | Spawn _ | Close _ | RenameTerminal _ | ListWorkspaces | CreateWorkspace _ | RenameWorkspace _
     | DeleteWorkspace _ | ListTerminals _ | ListAttachments _ => (Control, "")
     end.

Section channels.
Context `{AdmissionLib}.

Definition validate_hello (hello : StreamHello) (expected_epoch : N) : result StreamChannelKind :=
  ensure! hl_version hello =? 1, "unsupported stream hello version";
  ensure! negb (expected_epoch =? 0) && (hl_epoch hello =? expected_epoch), "stream epoch mismatch";
  kind ← ok_or (kind_try_from (hl_channel_kind hello)) "unknown stream channel kind";
  ensure! negb (bool_decide (kind = Unspecified)), "unspecified stream channel kind";
  ensure! negb (bool_decide (hl_request_id hello = "")) && (slen (hl_request_id hello) <=? MAX_STREAM_ID_BYTES),
    "invalid stream request ID length";
  ensure! slen (hl_handle hello) <=? MAX_STREAM_ID_BYTES, "invalid stream handle length";
  ensure! negb (bool_decide (kind = Terminal) || bool_decide (kind = Forward))
          || negb (bool_decide (hl_handle hello = "")), "missing terminal handle";
  ensure! negb (bool_decide (kind = Control)) || bool_decide (hl_handle hello = ""),
    "control stream has a handle";
  ensure! encoded_len (Some (BStreamHello hello)) <=? MAX_STREAM_HELLO_SIZE, "oversized stream hello";
  Ok kind.

Definition hello_for_request (request : Request) (epoch : N) : result StreamHello :=
  '(kind, handle) ← request_channel request;
  let hello := mkStreamHello 1 (kind_number kind) handle epoch (rq_request_id request) in
  _ ← validate_hello hello epoch;
  Ok hello.

Definition validate_request (hello : StreamHello) (request : Request) (epoch : N) : result unit :=
  _ ← validate_hello hello epoch;
  expected ← hello_for_request request epoch;
  ensure! bool_decide (hello = expected), "stream hello does not match request";
  Ok tt.

(** ** Reading messages *)

(** [read_message_limited] and [read_message] on the messages of a stream. *)
Definition next_message (limit : N) (stream : list WireMessage) : result (option WireMessage * list WireMessage) :=
  match stream with
  | [] => Ok (None, [])
  | message :: stream =>
      ensure! encoded_len message <=? N.min limit MAX_FRAME, "peer sent oversized frame";
      Ok (Some message, stream)
  end.

Definition read_hello (stream : list WireMessage) (epoch : N) : result (StreamHello * list WireMessage) :=
  '(first, stream) ← next_message MAX_STREAM_HELLO_SIZE stream;
  first ← ok_or first "stream ended before StreamHello";
  match first with
  | Some (BStreamHello hello) => _ ← validate_hello hello epoch; Ok (hello, stream)
  | _ => Err "expected StreamHello before Request"
  end.

(** [write_message] refuses a message that is too large for a frame. *)
Definition write_messages (messages : list WireMessage) : result (list WireMessage) :=
  ensure! forallb (fun m => encoded_len m <=? MAX_FRAME) messages, "frame is too large";
  Ok messages.

(** ** The client *)

(** [AstraClient::open_request_stream]: the priority of the stream and what is
    written to it. *)
Definition open_request_stream (negotiated : NegotiatedProtocol) (stream_epoch : N) (request_id : string)
    (command : Command) : result (Z * list WireMessage) :=
  let request := mkRequest request_id (Some command) in
  '(kind, _) ← request_channel request;
  hello ← (if negotiated_has negotiated CAPABILITY_STREAM_CHANNELS 1
           then hello ← hello_for_request request stream_epoch; Ok [Some (BStreamHello hello)]
           else Ok []);
  messages ← write_messages (hello ++ [Some (BRequest request)]);
  Ok (priority kind, messages).

(** ** The gateway *)

Definition server_protocol_support (tcp_forwarding terminal_datagrams : bool) : ProtocolSupport :=
  mkSupport (sup_minimum_version support_runtime) (sup_maximum_version support_runtime)
    (filter (fun c => (tcp_forwarding = true \/ cr_name c <> CAPABILITY_TCP_FORWARD) /\
                      (terminal_datagrams = true \/ cr_name c <> CAPABILITY_DATAGRAM_STATE))
       ((fun c => if bool_decide (cr_name c = CAPABILITY_DATAGRAM_STATE)
                  then mkRange (cr_name c) (cr_minimum_version c) 3 else c)
          <$> sup_capabilities support_runtime)).

(** The epoch of a connection; [random] is the first random value that is not 0. *)
Definition choose_epoch (negotiated : NegotiatedProtocol) (random : N) : N :=
  if negotiated_has negotiated CAPABILITY_STREAM_CHANNELS 1 then random else 0.

Definition validate_stream_request (negotiated : NegotiatedProtocol) (epoch : N) (hello : option StreamHello)
    (message : WireMessage) : result unit :=
  match message with
  | Some (BRequest request) =>
      let forward := match rq_command request with Some (OpenTcpForward _) => true | _ => false end in
      ensure! negb forward || (negotiated_has negotiated CAPABILITY_TCP_FORWARD 1
                               && negotiated_has negotiated CAPABILITY_STREAM_CHANNELS 1),
        "TCP forwarding was not negotiated";
      if negotiated_has negotiated CAPABILITY_STREAM_CHANNELS 1 then
        hello ← ok_or hello "missing negotiated StreamHello";
        validate_request hello request epoch
      else
        ensure! (epoch =? 0) && is_none hello, "unnegotiated stream metadata";
        Ok tt
  | _ => Err "expected Request after stream preamble"
  end.

Definition is_file_request (message : WireMessage) : bool :=
  match message with
  | Some (BRequest (mkRequest _ (Some command))) =>
      match command with
      | FileCapabilities | FileStat _ | FileList _ | BeginUpload _ | WriteFileChunk _ | QueryUpload _
      | CommitUpload _ | AbortUpload _ | BeginDownload _ | ReadFileChunk _ | MakeDirectory _ | RemoveFile _
      | RenameFile _ | GitStatus _ | WatchFiles _ => true
      | _ => false
      end
  | _ => false
  end.

(** What [handle_connection] passes on for a stream: the priority it sets, the
    declared channel, the request message and the rest of the stream. *)
Record Admission := mkAdmission {
  ad_priority : option Z;
  ad_hello : option StreamHello;
  ad_first_message : WireMessage;
  ad_rest : list WireMessage
}.

(** The task of [handle_connection] for one stream, up to the dispatch.  [quota] is
    the reservation of the stream in the gateway. *)
Definition admit_stream (negotiated : NegotiatedProtocol) (epoch : N) (quota : bool)
    (stream : list WireMessage) : result Admission :=
  '(hello, p, stream) ←
    (if negotiated_has negotiated CAPABILITY_STREAM_CHANNELS 1 then
       '(hello, stream) ← read_hello stream epoch;
       kind ← validate_hello hello epoch;
       Ok (Some hello, Some (priority kind), stream)
     else Ok (None, None, stream));
  '(first, stream) ← next_message MAX_FRAME stream;
  first ← ok_or first "request stream ended before its first message";
  ensure! quota, "quota";
  _ ← validate_stream_request negotiated epoch hello first;
  let p := if is_none hello && is_file_request first then Some (-10)%Z else p in
  Ok (mkAdmission p hello first stream).

Definition worker_datagram_payload_limit (negotiated : NegotiatedProtocol) (max_datagram_size : option N)
    : result N :=
  if negb (negotiated_has negotiated CAPABILITY_DATAGRAM_STATE 1) then Ok 0
  else match max_datagram_size with
       | Some n => try_u32 n
       | None => Err "terminal datagrams were negotiated without QUIC transport support"
       end.

(** What [proxy_stream] writes to the worker before it relays the rest. *)
Definition worker_preamble (negotiated : NegotiatedProtocol) (epoch : N) (connection_id : string)
    (max_datagram_size : option N) (a : Admission) : result (list WireMessage) :=
  limit ← worker_datagram_payload_limit negotiated max_datagram_size;
  write_messages
    [Some (BWorkerStreamHello (mkWorkerHello (np_version negotiated) (selections negotiated) connection_id
              limit epoch (ad_hello a)));
     ad_first_message a].

(** ** The worker *)

(** [WorkerMessageContext] *)
Record Context := mkContext {
  cx_negotiated : NegotiatedProtocol;
  cx_stream_epoch : N;
  cx_stream_hello : option StreamHello;
  cx_connection_id : string;
  cx_datagram_limit : option N
}.

(** [handle_worker_request], up to [handle_worker_message]. *)
Definition handle_worker_request (stream : list WireMessage)
    : result (WireMessage * Context * list WireMessage) :=
  '(hello, stream) ← next_message MAX_FRAME stream;
  hello ← ok_or hello "request stream ended before its first message";
  match hello with
  | Some (BWorkerStreamHello h) =>
      negotiated ← validate_worker_selection (wh_protocol_version h) (wh_capabilities h)
                     (server_protocol_support true true);
      ensure! canonical_uuid (wh_connection_id h), "worker connection ID is not canonical";
      limit ← (if negotiated_has negotiated CAPABILITY_DATAGRAM_STATE 1 then
                 ensure! 0 <? wh_maximum_datagram_size h,
                   "worker stream negotiated datagrams without a payload limit";
                 Ok (Some (wh_maximum_datagram_size h))
               else
                 ensure! wh_maximum_datagram_size h =? 0,
                   "worker stream supplied a datagram limit without negotiating datagrams";
                 Ok None);
      '(request, stream) ← next_message MAX_FRAME stream;
      request ← ok_or request "worker stream ended before its request";
      Ok (request, mkContext negotiated (wh_stream_epoch h) (wh_stream_hello h) (wh_connection_id h) limit,
          stream)
  | _ => Err "expected WorkerStreamHello as first worker stream message"
  end.

(** The head of [handle_worker_message]: the request that will be served and
    whether it is charged for a file handle. *)
Definition accept_request (first_message : WireMessage) (context : Context) : result (Request * bool) :=
  _ ← validate_stream_request (cx_negotiated context) (cx_stream_epoch context) (cx_stream_hello context)
        first_message;
  let file_request := match cx_stream_hello context with
                      | None => is_file_request first_message
                      | Some hello => (hl_channel_kind hello =? kind_number File)%Z
                      end in
  match first_message with
  | Some (BRequest request) => Ok (request, file_request)
  | _ => Err "expected Request as first stream message"
  end.
End channels.
