(* ===== verification/StreamChannelsSpec.v ===== *)
(** * Opening a stream: the parties agree *)
From S2P Require Import Prelude Resources Negotiation NegotiationSpec TerminalState Payload Files Messages StreamChannels.
Open Scope N_scope.

Section spec.
Context `{AdmissionLib}.

(** ** Channels *)

Lemma validate_hello_Ok hello epoch kind :
  validate_hello hello epoch = Ok kind ->
  hl_channel_kind hello = kind_number kind /\ kind <> Unspecified /\ epoch <> 0 /\ hl_epoch hello = epoch /\
  encoded_len (Some (BStreamHello hello)) <= MAX_STREAM_HELLO_SIZE.
Proof.
  intros Hv. unfold validate_hello in Hv. destruct (kind_try_from (hl_channel_kind hello)) as [k|] eqn:Ek.
  - cbn [ok_or mbind result_bind] in Hv. ok_inv Hv. bool_prop. by apply kind_try_from_Some in Ek.
  - ok_inv Hv.
Qed.

Lemma hello_for_request_Ok request epoch hello :
  hello_for_request request epoch = Ok hello <->
  exists kind handle, request_channel request = Ok (kind, handle) /\
    hello = mkStreamHello 1 (kind_number kind) handle epoch (rq_request_id request) /\
    validate_hello hello epoch = Ok kind.
Proof.
  unfold hello_for_request. split.
  - intros Hh. destruct (request_channel request) as [[kind handle]|e]; cbn [mbind result_bind ok_or] in Hh; [|done].
    exists kind, handle. split; [done|].
    destruct (validate_hello (mkStreamHello _ _ _ _ _) _) as [k|e] eqn:Ev; cbn [mbind result_bind ok_or] in Hh; [|done].
    injection Hh as <-. split; [done|]. apply validate_hello_Ok in Ev as Hk. destruct Hk as [Hk _]. cbn in Hk.
    rewrite Ev. f_equal. apply (f_equal kind_try_from) in Hk. rewrite !kind_roundtrip in Hk. by injection Hk.
  - intros (kind & handle & Hr & Hh & Hv). rewrite Hr. cbn [mbind result_bind]. rewrite <- Hh, Hv. done.
Qed.

(** The request determines its hello: no other passes. *)
Lemma validate_request_Ok hello request epoch :
  validate_request hello request epoch = Ok tt <-> hello_for_request request epoch = Ok hello.
Proof.
  unfold validate_request. split.
  - intros Hv. destruct (validate_hello hello epoch); cbn [mbind result_bind ok_or] in Hv; [|done].
    destruct (hello_for_request request epoch) as [h|]; cbn [mbind result_bind ok_or] in Hv; [|done]. by case_bool_decide; subst.
  - intros Hh. pose proof Hh as (kind & handle & _ & _ & Hv)%hello_for_request_Ok. rewrite Hv. cbn [mbind result_bind]. rewrite Hh. cbn [mbind result_bind].
    by rewrite bool_decide_true.
Qed.

(** Being a file request is the declared kind. *)
Lemma file_request_kind request kind handle :
  request_channel request = Ok (kind, handle) ->
  is_file_request (Some (BRequest request)) = bool_decide (kind = File).
Proof. destruct request as [id [c|]]; [|done]. by destruct c; intros [= <- <-]. Qed.

Lemma kind_number_inj k k' : kind_number k = kind_number k' -> k = k'.
Proof. intros Hk. apply (f_equal kind_try_from) in Hk. rewrite !kind_roundtrip in Hk. by injection Hk. Qed.

(** ** Admission *)

Lemma validate_stream_request_Ok np epoch hello message :
  validate_stream_request np epoch hello message = Ok tt ->
  exists request, message = Some (BRequest request) /\
    if negotiated_has np CAPABILITY_STREAM_CHANNELS 1
    then exists h, hello = Some h /\ hello_for_request request epoch = Ok h
    else epoch = 0 /\ hello = None.
Proof.
  destruct message as [[| | |request| | | | | | |]|]; try done. intros Hv. exists request. split; [done|].
  unfold validate_stream_request in Hv. cbv zeta in Hv. destruct (_ || _); [|done].
  destruct (negotiated_has np CAPABILITY_STREAM_CHANNELS 1).
  - destruct hello as [h|]; [|done]. cbn [mbind result_bind ok_or] in Hv. exists h. split; [done|]. by apply validate_request_Ok.
  - destruct (_ && _) eqn:E; [|done]. apply andb_prop in E as [He Hn]. apply N.eqb_eq in He. by destruct hello.
Qed.

(** What admission establishes about a stream. *)
Record admitted_as (np : NegotiatedProtocol) (epoch : N) (a : Admission) (request : Request) : Prop := {
  aa_message : ad_first_message a = Some (BRequest request);
  aa_valid : validate_stream_request np epoch (ad_hello a) (ad_first_message a) = Ok tt;
  aa_size : encoded_len (ad_first_message a) <= MAX_FRAME;
  aa_channel : if negotiated_has np CAPABILITY_STREAM_CHANNELS 1
               then exists hello kind handle, ad_hello a = Some hello /\
                 hello_for_request request epoch = Ok hello /\
                 request_channel request = Ok (kind, handle) /\ ad_priority a = Some (priority kind)
               else ad_hello a = None /\
                 ad_priority a = if is_file_request (Some (BRequest request)) then Some (priority File) else None
}.

Lemma next_message_Ok limit stream m rest :
  next_message limit stream = Ok (Some m, rest) -> stream = m :: rest /\ encoded_len m <= N.min limit MAX_FRAME.
Proof. destruct stream; cbn; [done|]. destruct (N.leb_spec (encoded_len w) (N.min limit MAX_FRAME)); [|done]. by intros [= -> ->]. Qed.

Lemma admit_stream_Ok np epoch quota stream a :
  admit_stream np epoch quota stream = Ok a -> exists request, admitted_as np epoch a request.
Proof.
  unfold admit_stream. intros Ha.
  destruct (negotiated_has np CAPABILITY_STREAM_CHANNELS 1) eqn:Ec.
  - destruct (read_hello stream epoch) as [[hello rest]|e]; cbn [mbind result_bind ok_or] in Ha; [|done].
    destruct (validate_hello hello epoch) as [kind|e] eqn:Ev; cbn [mbind result_bind ok_or] in Ha; [|done].
    destruct (next_message MAX_FRAME rest) as [[[first|] rest']|e] eqn:En; cbn [mbind result_bind ok_or] in Ha; try done.
    destruct quota; [|done]. destruct (validate_stream_request _ _ _ _) as [[]|e] eqn:Er; cbn [mbind result_bind ok_or] in Ha; [|done].
    injection Ha as <-. apply validate_stream_request_Ok in Er as Hr. destruct Hr as (request & -> & Hr). rewrite Ec in Hr.
    destruct Hr as (h & [= <-] & Hh). exists request. apply next_message_Ok in En as [_ En].
    split; cbn; [done|done|unfold MAX_FRAME in *; lia|]. rewrite Ec.
    apply hello_for_request_Ok in Hh as Hk. destruct Hk as (k & handle & Hk & _ & Hv).
    exists hello, k, handle. rewrite Ev in Hv. injection Hv as ->. done.
  - cbn [mbind result_bind ok_or] in Ha. destruct (next_message MAX_FRAME stream) as [[[first|] rest']|e] eqn:En; cbn [mbind result_bind ok_or] in Ha; try done.
    destruct quota; [|done]. destruct (validate_stream_request _ _ _ _) as [[]|e] eqn:Er; cbn [mbind result_bind ok_or] in Ha; [|done].
    injection Ha as <-. apply validate_stream_request_Ok in Er as Hr. destruct Hr as (request & -> & _).
    exists request. apply next_message_Ok in En as [_ En].
    split; cbn; [done|done|unfold MAX_FRAME in *; lia|]. by rewrite Ec.
Qed.

(** A worker supports what any gateway of the same release negotiates. *)
Lemma server_support_ok tcp datagrams : support_ok (server_protocol_support tcp datagrams).
Proof. apply validate_support_spec. destruct tcp, datagrams; vm_compute; reflexivity. Qed.
Lemma server_support_widens tcp datagrams np :
  server_allows (server_protocol_support tcp datagrams) np -> server_allows (server_protocol_support true true) np.
Proof.
  intros [Hv Hc]. split; [done|]. intros name v Hn. destruct (Hc _ _ Hn) as (c & Hin & Hname & Hr).
  exists c. split; [|done]. revert Hin. unfold server_protocol_support. cbn [sup_capabilities].
  rewrite !list_elem_of_filter. intros [_ Hin]. by split; [split; left|].
Qed.

Lemma worker_accepts_selection hello tcp datagrams np :
  negotiate_client_hello hello (server_protocol_support tcp datagrams) = Ok np ->
  validate_worker_selection (np_version np) (selections np) (server_protocol_support true true) = Ok np.
Proof.
  intros Hn. destruct (negotiate_allowed _ _ _ Hn) as (_ & Hsa & Hd).
  pose proof (server_allows_size _ _ (server_support_ok tcp datagrams) Hsa) as Hsize.
  apply validate_worker_selection_iff. split; [apply server_support_ok|]. split; [by apply selections_selects|].
  split; [by eapply server_support_widens|done].
Qed.

(** The worker behind a gateway that wrote the preamble. *)
Lemma worker_serves hello tcp datagrams np epoch connection_id maximum limit a request :
  negotiate_client_hello hello (server_protocol_support tcp datagrams) = Ok np ->
  canonical_uuid connection_id = true -> maximum <> Some 0 ->
  worker_datagram_payload_limit np maximum = Ok limit -> admitted_as np epoch a request ->
  let context := mkContext np epoch (ad_hello a) connection_id
                   (if negotiated_has np CAPABILITY_DATAGRAM_STATE 1 then Some limit else None) in
  forall h, h = mkWorkerHello (np_version np) (selections np) connection_id limit epoch (ad_hello a) ->
  encoded_len (Some (BWorkerStreamHello h)) <= MAX_FRAME ->
  handle_worker_request (Some (BWorkerStreamHello h) :: ad_first_message a :: ad_rest a) =
    Ok (ad_first_message a, context, ad_rest a) /\
  accept_request (ad_first_message a) context = Ok (request, is_file_request (ad_first_message a)).
Proof.
  intros Hn Hid Hmax Hl [Hm Hv Hs Hc] context h -> Hlen. split.
  - unfold handle_worker_request, next_message. rewrite (proj2 (N.leb_le _ _)) by (unfold MAX_FRAME in *; lia).
    cbn [mbind result_bind ok_or wh_protocol_version wh_capabilities wh_connection_id wh_maximum_datagram_size wh_stream_epoch wh_stream_hello N.eqb]. rewrite (worker_accepts_selection _ _ _ _ Hn). cbn [mbind result_bind ok_or wh_protocol_version wh_capabilities wh_connection_id wh_maximum_datagram_size wh_stream_epoch wh_stream_hello N.eqb].
    rewrite Hid. unfold worker_datagram_payload_limit in Hl.
    assert (Hs' : (encoded_len (ad_first_message a) <=? N.min MAX_FRAME MAX_FRAME) = true)
      by (apply N.leb_le; unfold MAX_FRAME in *; lia).
    unfold context. destruct (negotiated_has np CAPABILITY_DATAGRAM_STATE 1); cbn [negb] in Hl.
    + destruct maximum as [n|]; [|done]. unfold try_u32 in Hl. destruct (n <=? U32_MAX); [|done]. injection Hl as <-.
      rewrite (proj2 (N.ltb_lt 0 n)) by (destruct n; [done|lia]). cbn [mbind result_bind ok_or wh_protocol_version wh_capabilities wh_connection_id wh_maximum_datagram_size wh_stream_epoch wh_stream_hello N.eqb]. by rewrite Hs'.
    + injection Hl as <-. cbn [mbind result_bind ok_or wh_protocol_version wh_capabilities wh_connection_id wh_maximum_datagram_size wh_stream_epoch wh_stream_hello N.eqb]. by rewrite Hs'.
  - unfold accept_request, context. cbn [cx_negotiated cx_stream_epoch cx_stream_hello]. rewrite Hv. cbn.
    rewrite Hm. f_equal. f_equal. destruct (negotiated_has np CAPABILITY_STREAM_CHANNELS 1).
    + destruct Hc as (hl & kind & handle & -> & Hh & Hr & _). rewrite (file_request_kind _ _ _ Hr).
      apply hello_for_request_Ok in Hh as (k & hd & Hr' & -> & _). cbn [hl_channel_kind].
      rewrite Hr in Hr'. injection Hr' as <- <-. by destruct kind.
    + by destruct Hc as [-> _].
Qed.

(** What a client opens is admitted. *)
Lemma client_admitted np random request_id command p stream :
  random <> 0 ->
  open_request_stream np (choose_epoch np random) request_id command = Ok (p, stream) ->
  (match command with OpenTcpForward _ => negotiated_has np CAPABILITY_TCP_FORWARD 1
                                          && negotiated_has np CAPABILITY_STREAM_CHANNELS 1 | _ => true end) = true ->
  exists a, admit_stream np (choose_epoch np random) true stream = Ok a /\
    ad_first_message a = Some (BRequest (mkRequest request_id (Some command))) /\ ad_rest a = [] /\
    (negotiated_has np CAPABILITY_STREAM_CHANNELS 1 = true -> ad_priority a = Some p).
Proof.
  intros Hrandom Ho Hf. unfold open_request_stream in Ho. cbv zeta in Ho.
  set (request := mkRequest request_id (Some command)) in *.
  destruct (request_channel request) as [[kind handle]|] eqn:Er; cbn [mbind result_bind] in Ho; [|done].
  assert (Hfwd : negb match rq_command request with Some (OpenTcpForward _) => true | _ => false end
      || negotiated_has np CAPABILITY_TCP_FORWARD 1 && negotiated_has np CAPABILITY_STREAM_CHANNELS 1 = true)
    by (destruct command; try done; by rewrite Hf).
  unfold admit_stream, choose_epoch in *. destruct (negotiated_has np CAPABILITY_STREAM_CHANNELS 1) eqn:Ec.
  - destruct (hello_for_request request random) as [hl|] eqn:Eh; cbn [mbind result_bind] in Ho; [|done].
    unfold write_messages in Ho. destruct (forallb _ _) eqn:Ef; [|done]. injection Ho as <- <-.
    cbn [app forallb] in Ef. bool_prop.
    apply hello_for_request_Ok in Eh as Hk. destruct Hk as (k & hd & Hk & Hhl & Hval).
    rewrite Er in Hk. injection Hk as <- <-. apply validate_hello_Ok in Hval as Hb. destruct Hb as (_ & _ & _ & _ & Hb).
    unfold read_hello, next_message. cbn [app].
    rewrite (proj2 (N.leb_le _ _)) by (unfold MAX_FRAME, MAX_STREAM_HELLO_SIZE in *; lia).
    cbn [mbind result_bind ok_or]. rewrite Hval. cbn [mbind result_bind].
    rewrite Hval. cbn [mbind result_bind].
    rewrite (proj2 (N.leb_le (encoded_len (Some (BRequest request))) _)) by (unfold MAX_FRAME in *; lia).
    cbn [mbind result_bind ok_or]. unfold validate_stream_request. cbv zeta. rewrite Ec, Hfwd. cbn [ok_or mbind result_bind].
    rewrite (proj2 (validate_request_Ok _ _ _) Eh). cbn [mbind result_bind].
    eexists. split; [done|]. done.
  - cbn [mbind result_bind app] in Ho. unfold write_messages in Ho. destruct (forallb _ _) eqn:Ef; [|done].
    injection Ho as <- <-. cbn [forallb] in Ef. bool_prop. cbn [mbind result_bind]. unfold next_message.
    rewrite (proj2 (N.leb_le (encoded_len (Some (BRequest request))) _)) by (unfold MAX_FRAME in *; lia).
    cbn [mbind result_bind ok_or]. unfold validate_stream_request. cbv zeta. rewrite Ec, Hfwd. cbn.
    eexists. split; [done|]. done.
Qed.

(** ** Properties *)

(** Gateway and worker agree on every stream: whatever bytes a client sends,
    when the gateway admits the stream, the worker behind it accepts it too, with
    the same negotiated protocol, serves exactly the request the gateway saw, and
    charges a file handle exactly for the file requests, declared or not; with
    stream channels, the declared channel and the priority are those of the
    request.  Conversely every request a client can open is admitted as the
    client declared it. *)
Theorem stream_admission hello tcp datagrams np random epoch connection_id maximum :
  negotiate_client_hello hello (server_protocol_support tcp datagrams) = Ok np ->
  random <> 0 -> epoch = choose_epoch np random -> canonical_uuid connection_id = true -> maximum <> Some 0 ->
  (forall stream a preamble,
     admit_stream np epoch true stream = Ok a ->
     worker_preamble np epoch connection_id maximum a = Ok preamble ->
     exists request context, admitted_as np epoch a request /\
       handle_worker_request (preamble ++ ad_rest a) = Ok (ad_first_message a, context, ad_rest a) /\
       cx_negotiated context = np /\
       accept_request (ad_first_message a) context = Ok (request, is_file_request (ad_first_message a))) /\
  (forall request_id command p stream,
     open_request_stream np epoch request_id command = Ok (p, stream) ->
     (match command with OpenTcpForward _ => negotiated_has np CAPABILITY_TCP_FORWARD 1
                                             && negotiated_has np CAPABILITY_STREAM_CHANNELS 1 | _ => true end) = true ->
     exists a, admit_stream np epoch true stream = Ok a /\
       ad_first_message a = Some (BRequest (mkRequest request_id (Some command))) /\ ad_rest a = [] /\
       (negotiated_has np CAPABILITY_STREAM_CHANNELS 1 = true -> ad_priority a = Some p)).
Proof.
  intros Hn Hrandom -> Hid Hmax. split.
  - intros stream a preamble Ha Hp. destruct (admit_stream_Ok _ _ _ _ _ Ha) as [request Hr].
    exists request. unfold worker_preamble in Hp. ok_inv Hp.
    unfold write_messages in Hp. ok_inv Hp. cbn [forallb] in *. bool_prop.
    destruct (worker_serves _ _ _ _ _ _ _ _ _ _ Hn Hid Hmax Hr0 Hr _ eq_refl) as [Hw Hacc]; [done|].
    eexists. split; [done|]. split; [exact Hw|]. by split.
  - intros request_id command p stream Ho Hf. by eapply client_admitted.
Qed.
End spec.

(** ** Witness *)

Definition ex_admission_lib : AdmissionLib := {|
  encoded_len := fun _ => 100;
  canonical_uuid := fun _ => true
|}.
Definition ex_protocol : NegotiatedProtocol :=
  match negotiate_client_hello (client_hello "ann" rust_semantic_client) (server_protocol_support true true) with
  | Ok np => np
  | Err _ => mkNegotiated 0 ∅
  end.

Lemma stream_admission_witness :
  exists p stream a,
    @open_request_stream ex_admission_lib ex_protocol 42 "r1" (QueryUpload (mkQueryUpload "u1")) = Ok (p, stream) /\
    length stream = 2%nat /\
    @admit_stream ex_admission_lib ex_protocol 42 true stream = Ok a /\ ad_priority a = Some p /\ p = (-10)%Z.
Proof.
  assert (Hn : negotiate_client_hello (client_hello "ann" rust_semantic_client) (server_protocol_support true true)
               = Ok ex_protocol) by (vm_compute; reflexivity).
  destruct (@open_request_stream ex_admission_lib ex_protocol 42 "r1" (QueryUpload (mkQueryUpload "u1")))
    as [[p stream]|e] eqn:Eo; [|vm_compute in Eo; discriminate Eo].
  destruct (proj2 (@stream_admission ex_admission_lib _ _ _ _ 42 42 "c" (Some 1200) Hn
    ltac:(discriminate) ltac:(vm_compute; reflexivity) eq_refl ltac:(discriminate))
    "r1" (QueryUpload (mkQueryUpload "u1")) p stream Eo eq_refl) as (a & Ha & _ & _ & Hp).
  exists p, stream, a. split; [reflexivity|].
  assert (Hl : length stream = 2%nat /\ p = (-10)%Z)
    by (vm_compute in Eo; injection Eo as <- <-; split; reflexivity).
  split; [exact (proj1 Hl)|]. split; [exact Ha|]. split; [|exact (proj2 Hl)].
  apply Hp. vm_compute. reflexivity.
Defined.
