(* ===== verification/QueuedWriter.v ===== *)
(** * The queued writer ([queued_writer.rs])

    An attachment hands its output to a bounded queue; a drain task writes the
    queue to the stream.  The two run in parallel and share an atomic byte counter,
    a channel and a [Notify].  Every atomic operation is one step, so the theorems
    hold for all interleavings: the output is written exactly once and in order,
    the memory is bounded, and waiting for the queue to drain ends, with no wake-up
    lost. *)
From S2P Require Import Prelude.
Open Scope N_scope.

Definition MAX_QUEUED_BYTES : N := 20 * 1024 * 1024.
(** [mpsc::channel(1024)] *)
Definition CHANNEL_CAPACITY : nat := 1024.

(** ** State *)

(** Where the producer, [QueuedWriter], is in [poll_write] or in
    [wait_until_drained]. *)
Inductive producer :=
| Idle
| Reserving (data : bytes) (current : N)  (** the counter was loaded *)
| Reserved (data : bytes)                 (** the counter was raised *)
| Undoing (data : bytes)                  (** the channel refused the data *)
| Checking                                (** before the load of the counter *)
| Polling                                 (** before the first poll of [notified] *)
| Parked                                  (** registered with the [Notify] *)
| Woken.                                  (** notified, not polled yet *)

(** Where the drain task is. *)
Inductive drain :=
| Receiving
| Writing (rest : bytes) (len : N)        (** inside [write_all] *)
| Written (len : N)
| Notifying
| ShuttingDown
| Drained
| SinkFailed (lost : N).                  (** [lost] bytes will never be written *)

Record Queue := mkQueue {
  q_sender : bool;        (** the sender is there *)
  q_queued : N;           (** the shared counter *)
  q_permit : bool;        (** the permit of the [Notify] *)
  q_channel : list bytes;
  q_producer : producer;
  q_drain : drain;
  q_sink : bytes;         (** what the stream received *)
  q_sent : list bytes     (** the accepted writes *)
}.
Definition queued_writer : Queue := mkQueue true 0 false [] Idle Receiving [] [].

Definition set_producer (p : producer) (q : Queue) : Queue :=
  mkQueue (q_sender q) (q_queued q) (q_permit q) (q_channel q) p (q_drain q) (q_sink q) (q_sent q).
Definition set_drain (d : drain) (q : Queue) : Queue :=
  mkQueue (q_sender q) (q_queued q) (q_permit q) (q_channel q) (q_producer q) d (q_sink q) (q_sent q).
Definition set_queued (n : N) (q : Queue) : Queue :=
  mkQueue (q_sender q) n (q_permit q) (q_channel q) (q_producer q) (q_drain q) (q_sink q) (q_sent q).
Definition set_permit (b : bool) (q : Queue) : Queue :=
  mkQueue (q_sender q) (q_queued q) b (q_channel q) (q_producer q) (q_drain q) (q_sink q) (q_sent q).
Definition set_channel (c : list bytes) (q : Queue) : Queue :=
  mkQueue (q_sender q) (q_queued q) (q_permit q) c (q_producer q) (q_drain q) (q_sink q) (q_sent q).

(** [AtomicUsize::fetch_sub] wraps. *)
Definition fetch_sub (current n : N) : N := (current + (U64_MAX + 1) - n) mod (U64_MAX + 1).

(** The receiver lives until the drain task returns. *)
Definition receiver_open (q : Queue) : bool :=
  match q_drain q with Drained | SinkFailed _ => false | _ => true end.

(** ** The producer *)

(** The start of [poll_write], up to the first load of the counter. *)
Definition poll_write (data : bytes) (q : Queue) : Queue * option (result N) :=
  if negb (q_sender q) then (q, Some (Err "broken pipe"))
  else if bool_decide (data = []) then (q, Some (Ok 0))
  else (set_producer (Reserving data (q_queued q)) q, None).

(** One round of the compare-and-swap loop; [weak] is a spurious failure. *)
Definition reserve_round (weak : bool) (data : bytes) (current : N) (q : Queue) : Queue * option (result N) :=
  match checked_add U64_MAX current (llen data) with
  | Some next =>
      if negb (next <=? MAX_QUEUED_BYTES)
      then (set_producer Idle q, Some (Err "reliable attachment output budget exceeded"))
      else if weak || negb (q_queued q =? current)
      then (set_producer (Reserving data (q_queued q)) q, None)
      else (set_producer (Reserved data) (set_queued next q), None)
  | None => (set_producer Idle q, Some (Err "reliable attachment output budget exceeded"))
  end.

(** [try_send], and giving the bytes back when it fails. *)
Definition send_round (data : bytes) (q : Queue) : Queue * option (result N) :=
  if receiver_open q && (length (q_channel q) <? CHANNEL_CAPACITY)%nat
  then (mkQueue (q_sender q) (q_queued q) (q_permit q) (q_channel q ++ [data]) Idle (q_drain q)
          (q_sink q) (q_sent q ++ [data]), Some (Ok (llen data)))
  else (set_producer (Undoing data) q, None).
Definition undo_round (data : bytes) (q : Queue) : Queue * option (result N) :=
  (set_producer Idle (set_queued (fetch_sub (q_queued q) (llen data)) q), Some (Err "broken pipe")).

Definition poll_flush (q : Queue) : result unit :=
  if negb (q_sender q) || negb (receiver_open q) then Err "broken pipe" else Ok tt.
Definition poll_shutdown (q : Queue) : Queue :=
  mkQueue false (q_queued q) (q_permit q) (q_channel q) (q_producer q) (q_drain q) (q_sink q) (q_sent q).

(** The loop of [wait_until_drained]; it returns to [Idle]. *)
Definition wait_round (q : Queue) : option Queue :=
  match q_producer q with
  | Checking => Some (set_producer (if q_queued q =? 0 then Idle else Polling) q)
  | Polling => Some (if q_permit q then set_producer Checking (set_permit false q)
                     else set_producer Parked q)
  | Woken => Some (set_producer Checking q)
  | _ => None
  end.
(** Dropping the future of [wait_until_drained]: a notification that was not
    consumed goes back to the [Notify]. *)
Definition wait_cancel (q : Queue) : option Queue :=
  match q_producer q with
  | Checking | Polling | Parked => Some (set_producer Idle q)
  | Woken => Some (set_producer Idle (set_permit true q))
  | _ => None
  end.

(** ** The drain task *)

(** [Notify::notify_one] *)
Definition notify_one (q : Queue) : Queue :=
  match q_producer q with Parked => set_producer Woken q | _ => set_permit true q end.

(** One step of the drain task; the stream takes [n] bytes of a write. *)
Definition drain_round (n : nat) (q : Queue) : option Queue :=
  match q_drain q with
  | Receiving =>
      match q_channel q with
      | data :: channel => Some (set_drain (Writing data (llen data)) (set_channel channel q))
      | [] => if q_sender q then None else Some (set_drain ShuttingDown q)
      end
  | Writing [] len => Some (set_drain (Written len) q)
  | Writing rest len =>
      if (0 <? n)%nat && (n <=? length rest)%nat
      then Some (mkQueue (q_sender q) (q_queued q) (q_permit q) (q_channel q) (q_producer q)
                   (Writing (drop n rest) len) (q_sink q ++ take n rest) (q_sent q))
      else None
  | Written len =>
      let q' := set_queued (fetch_sub (q_queued q) len) q in
      Some (set_drain (if q_queued q =? len then Notifying else Receiving) q')
  | Notifying => Some (set_drain Receiving (notify_one q))
  | ShuttingDown => Some (set_drain Drained q)
  | Drained | SinkFailed _ => None
  end.

(** The bytes of a list of writes. *)
Definition total (l : list bytes) : N := llen (concat l).

(** The stream reports an error: the task returns and drops the receiver. *)
Definition drain_fail (q : Queue) : option Queue :=
  match q_drain q with
  | Writing _ len => Some (set_drain (SinkFailed (len + total (q_channel q))) (set_channel [] q))
  | ShuttingDown => Some (set_drain (SinkFailed (total (q_channel q))) (set_channel [] q))
  | _ => None
  end.

(** ** All interleavings *)

Inductive queue_step : Queue -> Queue -> Prop :=
| step_write q data : q_producer q = Idle -> queue_step q (poll_write data q).1
| step_reserve q weak data current :
    q_producer q = Reserving data current -> queue_step q (reserve_round weak data current q).1
| step_send q data : q_producer q = Reserved data -> queue_step q (send_round data q).1
| step_undo q data : q_producer q = Undoing data -> queue_step q (undo_round data q).1
| step_shutdown q : q_producer q = Idle -> queue_step q (poll_shutdown q)
| step_start_wait q : q_producer q = Idle -> queue_step q (set_producer Checking q)
| step_wait q q' : wait_round q = Some q' -> queue_step q q'
| step_cancel q q' : wait_cancel q = Some q' -> queue_step q q'
| step_drain q q' n : drain_round n q = Some q' -> queue_step q q'
| step_fail q q' : drain_fail q = Some q' -> queue_step q q'.
Definition queue_reachable (q : Queue) : Prop := rtc queue_step queued_writer q.

(** ** The invariant *)

(** The bytes that the counter holds for each side. *)
Definition producer_held (p : producer) : N :=
  match p with Reserved data | Undoing data => llen data | _ => 0 end.
Definition drain_held (d : drain) : N :=
  match d with Writing _ len | Written len => len | SinkFailed lost => lost | _ => 0 end.
Definition unwritten (d : drain) : bytes := match d with Writing rest _ => rest | _ => [] end.
Definition writing (p : producer) : bool :=
  match p with Reserving _ _ | Reserved _ | Undoing _ => true | _ => false end.
Definition waiting (p : producer) : bool :=
  match p with Checking | Polling | Parked | Woken => true | _ => false end.

Record queue_inv (q : Queue) : Prop := {
  qi_count : q_queued q = total (q_channel q) + drain_held (q_drain q) + producer_held (q_producer q);
  qi_bound : q_queued q <= MAX_QUEUED_BYTES;
  qi_capacity : (length (q_channel q) <= CHANNEL_CAPACITY)%nat;
  qi_channel : Forall (fun d => d <> []) (q_channel q);
  qi_producer : match q_producer q with
                | Reserving d _ | Reserved d => d <> [] | _ => True end;
  qi_drain : match q_drain q with
             | Writing _ len | Written len => 0 < len
             | ShuttingDown | Drained => q_sender q = false /\ q_channel q = []
             | _ => True
             end;
  qi_sender : q_sender q = false -> writing (q_producer q) = false;
  qi_bytes : match q_drain q with
             | SinkFailed _ => q_sink q `prefix_of` concat (q_sent q) /\ q_channel q = []
             | d => q_sink q ++ unwritten d ++ concat (q_channel q) = concat (q_sent q)
             end;
  qi_wake : match q_producer q with
            | Polling => 0 < q_queued q \/ q_permit q = true \/ q_drain q = Notifying
            | Parked => 0 < q_queued q \/ q_drain q = Notifying
            | _ => True
            end
}.

Lemma total_nil : total [] = 0.
Proof. done. Qed.
Lemma total_cons d l : total (d :: l) = llen d + total l.
Proof. unfold total. cbn [concat]. by rewrite llen_app. Qed.
Lemma total_snoc l d : total (l ++ [d]) = total l + llen d.
Proof. unfold total. rewrite concat_app, llen_app. cbn. by rewrite app_nil_r. Qed.

Lemma fetch_sub_exact c n : n <= c -> c <= MAX_QUEUED_BYTES -> fetch_sub c n = c - n.
Proof.
  unfold fetch_sub, MAX_QUEUED_BYTES, U64_MAX. intros Hn Hc.
  replace (c + (18446744073709551615 + 1) - n) with (c - n + 1 * (18446744073709551615 + 1)) by lia.
  rewrite N.Div0.mod_add. apply N.mod_small. lia.
Qed.
Lemma llen_pos {A} (l : list A) : l <> [] -> 0 < llen l.
Proof. destruct l; [done|]. rewrite llen_cons. lia. Qed.

Create HintDb queue.

Lemma queue_inv_init : queue_inv queued_writer.
Proof. split; cbn; try done; unfold total, CHANNEL_CAPACITY; cbn; lia. Qed.

(** The fields of the state as variables. *)
Ltac open_queue q H :=
  destruct q as [sender queued permit channel producer drain sink sent];
  destruct H as [Hcount Hbound Hcap Hchan Hprod Hdrain Hsender Hbytes Hwake];
  cbn [q_sender q_queued q_permit q_channel q_producer q_drain q_sink q_sent] in *.

Lemma poll_write_inv q data : queue_inv q -> q_producer q = Idle -> queue_inv (poll_write data q).1.
Proof.
  intros H Hp. unfold poll_write. destruct (q_sender q) eqn:Es; [|done]. cbn [negb].
  case_bool_decide; [done|]. open_queue q H. subst producer. split; cbn in *; try done. congruence.
Qed.
Lemma reserve_round_inv q weak data current :
  queue_inv q -> q_producer q = Reserving data current -> queue_inv (reserve_round weak data current q).1.
Proof.
  intros H Hp. unfold reserve_round. open_queue q H. subst producer.
  destruct (checked_add _ _ _) as [next|] eqn:E; [|split; cbn in *; done].
  apply checked_add_Some in E as [-> _].
  destruct (N.leb_spec (current + llen data) MAX_QUEUED_BYTES); cbn [negb]; [|split; cbn in *; done].
  destruct weak; cbn [orb]; [split; cbn in *; done|].
  destruct (N.eqb_spec queued current) as [->|]; cbn [negb]; [|split; cbn in *; done].
  split; cbn in *; try done. lia.
Qed.
Lemma send_round_inv q data :
  queue_inv q -> q_producer q = Reserved data -> queue_inv (send_round data q).1.
Proof.
  intros H Hp. unfold send_round. destruct (receiver_open q && _) eqn:E.
  - apply andb_prop in E as [Ho Hl]. apply Nat.ltb_lt in Hl. open_queue q H. subst producer.
    unfold receiver_open in Ho. cbn in Ho. split; cbn in *; try done.
    + rewrite total_snoc. lia.
    + rewrite length_app. cbn. lia.
    + apply Forall_app. by repeat constructor.
    + destruct drain; try done. destruct Hdrain as [Hs _]. by specialize (Hsender Hs).
    + destruct drain; try done; cbn in *; rewrite !concat_app; cbn; rewrite app_nil_r, <- Hbytes, <- !app_assoc; done.
  - open_queue q H. subst producer. split; cbn in *; done.
Qed.
Lemma undo_round_inv q data :
  queue_inv q -> q_producer q = Undoing data -> queue_inv (undo_round data q).1.
Proof.
  intros H Hp. open_queue q H. subst producer. cbn in Hcount. unfold undo_round.
  split; cbn in *; try done; rewrite fetch_sub_exact by lia; lia.
Qed.
Lemma poll_shutdown_inv q : queue_inv q -> q_producer q = Idle -> queue_inv (poll_shutdown q).
Proof.
  intros H Hp. open_queue q H. subst producer. split; cbn in *; try done. destruct drain; try done; by destruct Hdrain.
Qed.
Lemma wait_round_inv q q' : queue_inv q -> wait_round q = Some q' -> queue_inv q'.
Proof.
  intros H. unfold wait_round. open_queue q H. destruct producer; intros [= <-].
  - destruct (N.eqb_spec queued 0); split; cbn in *; try done. left. lia.
  - destruct permit; split; cbn in *; try done. destruct Hwake as [?|[?|?]]; auto. done.
  - split; cbn in *; done.
Qed.
Lemma wait_cancel_inv q q' : queue_inv q -> wait_cancel q = Some q' -> queue_inv q'.
Proof. intros H. unfold wait_cancel. open_queue q H. destruct producer; intros [= <-]; split; cbn in *; done. Qed.
Lemma start_wait_inv q : queue_inv q -> q_producer q = Idle -> queue_inv (set_producer Checking q).
Proof. intros H Hp. open_queue q H. subst producer. split; cbn in *; done. Qed.

Lemma notify_one_inv q :
  queue_inv q -> q_drain q = Notifying -> queue_inv (set_drain Receiving (notify_one q)).
Proof.
  intros H Hd. open_queue q H. subst drain. cbn in *. unfold notify_one.
  destruct producer; split; cbn in *; try done. auto.
Qed.
Lemma drain_round_inv n q q' : queue_inv q -> drain_round n q = Some q' -> queue_inv q'.
Proof.
  intros H. unfold drain_round. destruct (q_drain q) as [|rest len|len| | | |] eqn:Ed.
  - open_queue q H. subst drain. destruct channel as [|data channel].
    + destruct sender; [done|]. intros [= <-]. split; cbn in *; try done. destruct producer; naive_solver.
    + intros [= <-]. apply Forall_cons in Hchan as [Hd Hchan]. rewrite total_cons in Hcount.
      split; cbn in *; try done; try lia; [by apply llen_pos|].
      destruct producer; naive_solver.
  - destruct rest as [|b rest].
    + intros [= <-]. open_queue q H. subst drain. split; cbn in *; try done.
      destruct producer; naive_solver.
    + destruct (_ && _) eqn:En; [|done]. intros [= <-]. open_queue q H. subst drain. split; cbn [q_sender q_queued q_permit q_channel q_producer q_drain q_sink q_sent] in *; try done.
      * cbn [unwritten] in *. rewrite <- Hbytes, <- app_assoc. by rewrite (app_assoc (take n _)), take_drop.
      * destruct producer; naive_solver.
  - intros [= <-]. open_queue q H. subst drain. cbn in Hcount.
    split; cbn [set_drain set_queued q_sender q_queued q_permit q_channel q_producer q_drain q_sink q_sent] in *;
      rewrite ?fetch_sub_exact by lia; try done; try lia.
    + destruct (N.eqb_spec queued len); cbn; lia.
    + by destruct (queued =? len).
    + by destruct (queued =? len).
    + destruct producer; try done; destruct (N.eqb_spec queued len); auto; cbn in Hcount; left; lia.
  - intros [= <-]. by apply notify_one_inv.
  - intros [= <-]. open_queue q H. subst drain. split; cbn in *; try done.
    destruct producer; naive_solver.
  - done.
  - done.
Qed.
Lemma drain_fail_inv q q' : queue_inv q -> drain_fail q = Some q' -> queue_inv q'.
Proof.
  intros H. unfold drain_fail. open_queue q H. destruct drain; intros [= <-]; cbn in *.
  all: split; cbn in *; try done; try lia; try (unfold CHANNEL_CAPACITY; lia).
  all: first [rewrite total_nil; lia | split; [|done]; rewrite <- Hbytes; by apply prefix_app_r
             | destruct producer; naive_solver].
Qed.

Lemma queue_step_inv q q' : queue_inv q -> queue_step q q' -> queue_inv q'.
Proof.
  intros H Hs. destruct Hs;
    eauto using poll_write_inv, reserve_round_inv, send_round_inv, undo_round_inv, poll_shutdown_inv,
      start_wait_inv, wait_round_inv, wait_cancel_inv, drain_round_inv, drain_fail_inv.
Qed.
Lemma queue_reachable_inv q : queue_reachable q -> queue_inv q.
Proof. apply rtc_invariant; [apply queue_inv_init|apply queue_step_inv]. Qed.

(** ** Waiting for the queue *)

(** The steps of the drain task and of the waiting producer; the stream works, and
    nothing new is written. *)
Inductive settle_step : Queue -> Queue -> Prop :=
| settle_wait q q' : wait_round q = Some q' -> settle_step q q'
| settle_drain q q' n : drain_round n q = Some q' -> settle_step q q'.

(** How many such steps are possible at most. *)
Definition producer_work (p : producer) : nat :=
  match p with Woken => 4 | Checking => 3 | Polling => 2 | Parked => 1 | _ => 0 end.
Definition drain_work (d : drain) : nat :=
  match d with
  | Writing rest _ => 8 + length rest | Written _ => 7 | Notifying => 6 | Receiving => 2 | ShuttingDown => 1
  | _ => 0
  end.
Definition channel_work (c : list bytes) : nat := sum_list (map (fun d => 7 + length d)%nat c).
Definition work (q : Queue) : nat :=
  producer_work (q_producer q) + (if q_permit q then 2 else 0) + drain_work (q_drain q)
  + channel_work (q_channel q).

Lemma settle_step_work q q' : settle_step q q' -> (work q' < work q)%nat.
Proof.
  intros [? ? H|? ? n H]; revert H.
  - unfold wait_round. destruct q0 as [? queued permit ? p ? ? ?]. cbn. destruct p; intros [= <-]; unfold work; cbn.
    + destruct (queued =? 0); cbn; lia.
    + destruct permit; cbn; lia.
    + lia.
  - unfold drain_round. destruct q0 as [sender queued permit channel p d ? ?]. cbn.
    destruct d as [|[|b rest] len|len| | | |]; try done.
    + destruct channel as [|x channel]; [destruct sender; [done|]|]; intros [= <-]; unfold work; cbn; lia.
    + intros [= <-]. unfold work. cbn. lia.
    + destruct (_ && _) eqn:En; [|done]. intros [= <-]. unfold work. cbn [q_producer q_permit q_drain q_channel drain_work].
      destruct n as [|n]; [done|]. rewrite length_drop. cbn [length]. lia.
    + intros [= <-]. unfold work. cbn. destruct (queued =? len); cbn; lia.
    + intros [= <-]. unfold work, notify_one. cbn. destruct p, permit; cbn; lia.
    + intros [= <-]. unfold work. cbn. lia.
Qed.
Lemma settle_steps_work n q q' : nsteps settle_step n q q' -> (n + work q' <= work q)%nat.
Proof.
  induction 1 as [|n x y z Hxy Hyz IH]; [lia|]. apply settle_step_work in Hxy. lia.
Qed.
Lemma settle_step_queue q q' : settle_step q q' -> queue_step q q'.
Proof. intros []; [by eapply step_wait|by eapply step_drain]. Qed.
Lemma settle_step_keeps q q' :
  settle_step q q' -> waiting (q_producer q) = true \/ q_producer q = Idle ->
  waiting (q_producer q') = true \/ q_producer q' = Idle.
Proof.
  intros [? ? H|? ? n H] Hp; revert H.
  - unfold wait_round. destruct q0 as [? queued permit ? p ? ? ?]. cbn in *. destruct p; intros [= <-]; cbn; auto.
    + destruct (queued =? 0); auto.
    + destruct permit; auto.
  - unfold drain_round. destruct q0 as [sender queued permit channel p d ? ?]. cbn in *.
    destruct d as [|[|b rest] len|len| | | |]; try done.
    + destruct channel; [destruct sender; [done|]|]; by intros [= <-].
    + by intros [= <-].
    + destruct (_ && _); [|done]. by intros [= <-].
    + by intros [= <-].
    + intros [= <-]. unfold notify_one. cbn. destruct p; auto.
    + by intros [= <-].
Qed.

Lemma settle_step_running q q' lost :
  settle_step q q' -> q_drain q' = SinkFailed lost -> q_drain q = SinkFailed lost.
Proof.
  intros [? ? H|? ? n H]; revert H.
  - unfold wait_round. destruct q0 as [? queued permit ? p ? ? ?]. cbn in *.
    destruct p; intros [= <-]; cbn; try done. by destruct permit.
  - unfold drain_round. destruct q0 as [sender queued permit channel p d ? ?]. cbn in *.
    destruct d as [|[|b rest] len|len| | | |]; try done.
    + destruct channel; [destruct sender; [done|]|]; by intros [= <-].
    + by intros [= <-].
    + destruct (_ && _); [|done]. by intros [= <-].
    + intros [= <-]. cbn. by destruct (queued =? len).
    + by intros [= <-].
    + by intros [= <-].
Qed.

(** When nothing can move, the wait is over and the queue empty. *)
Lemma settled_done q :
  queue_inv q -> waiting (q_producer q) = true \/ q_producer q = Idle ->
  (forall lost, q_drain q <> SinkFailed lost) -> (forall q', ~ settle_step q q') ->
  q_producer q = Idle /\ q_queued q = 0 /\ q_sink q = concat (q_sent q).
Proof.
  intros H Hp Hf Hstuck.
  assert (Hd : forall n, drain_round n q = None).
  { intros n. destruct (drain_round n q) as [q'|] eqn:E; [|done]. exfalso. by eapply Hstuck, settle_drain. }
  assert (Hw : wait_round q = None).
  { destruct (wait_round q) as [q'|] eqn:E; [|done]. exfalso. by eapply Hstuck, settle_wait. }
  clear Hstuck. unfold drain_round, wait_round in *. open_queue q H.
  assert (Hq : channel = [] /\ (drain = Receiving \/ drain = Drained)).
  { destruct drain as [|[|b rest] len|len| | | |]; try by specialize (Hd 0%nat).
    - specialize (Hd 0%nat). destruct channel; [auto|done].
    - specialize (Hd 1%nat). done.
    - destruct Hdrain. auto.
    - by destruct (Hf lost). }
  destruct Hq as [-> Hq].
  assert (Hbytes' : sink = concat sent).
  { destruct Hq as [-> | ->]; cbn in Hbytes; by rewrite app_nil_r in Hbytes. }
  assert (Hz : producer_held producer = 0) by (destruct Hp as [?| ->]; [by destruct producer|done]).
  assert (H0 : queued = 0) by (destruct Hq as [-> | ->]; rewrite Hcount, total_nil, Hz; done).
  split; [|done]. destruct producer; try done; destruct Hp as [Hp|Hp]; try done.
  destruct Hwake as [?|?]; [lia|]. by destruct Hq; subst.
Qed.

(** ** Properties *)

(** In every interleaving of producer and drain task, failures included, the
    counter is exactly the bytes that are queued, being written or reserved, it
    never passes the budget and never wraps; the channel is within its capacity;
    and the stream has received the accepted writes in order, up to the part
    that is still queued or, after a stream error, lost. *)
Theorem queue_exact q :
  queue_reachable q ->
  q_queued q = total (q_channel q) + drain_held (q_drain q) + producer_held (q_producer q) /\
  q_queued q <= MAX_QUEUED_BYTES /\ (length (q_channel q) <= CHANNEL_CAPACITY)%nat /\
  match q_drain q with
  | SinkFailed _ => q_sink q `prefix_of` concat (q_sent q)
  | Drained => q_sink q = concat (q_sent q) /\ q_sender q = false
  | d => q_sink q ++ unwritten d ++ concat (q_channel q) = concat (q_sent q)
  end.
Proof.
  intros [Hcount Hbound Hcap _ _ Hdrain _ Hbytes _]%queue_reachable_inv.
  split; [done|]. split; [done|]. split; [done|]. destruct (q_drain q); try done; [|by destruct Hbytes].
  destruct Hdrain as [Hs Hc]. rewrite Hc in Hbytes. cbn in Hbytes. by rewrite app_nil_r in Hbytes.
Qed.

(** C29: waiting for the queue to drain always ends, from every state that any
    interleaving, cancelled waits and stale permits can lead to: while the stream
    accepts data, the drain task and the waiting producer can only take [work]
    steps together, and when neither can move, the wait has returned, the counter
    is zero and the stream has received everything.  No wake-up is lost. *)
Theorem wait_until_drained_terminates q n q' :
  queue_reachable q -> waiting (q_producer q) = true -> (forall lost, q_drain q <> SinkFailed lost) ->
  nsteps settle_step n q q' ->
  (n <= work q)%nat /\
  ((forall q'', ~ settle_step q' q'') ->
   q_producer q' = Idle /\ q_queued q' = 0 /\ q_sink q' = concat (q_sent q')).
Proof.
  intros Hr Hp Hf Hn. split; [apply settle_steps_work in Hn; lia|]. intros Hstuck.
  assert (H : queue_inv q' /\ (waiting (q_producer q') = true \/ q_producer q' = Idle) /\
              forall lost, q_drain q' <> SinkFailed lost).
  { apply queue_reachable_inv in Hr.
    assert (Hstart : queue_inv q /\ (waiting (q_producer q) = true \/ q_producer q = Idle) /\
                     forall lost, q_drain q <> SinkFailed lost) by auto.
    clear Hr Hp Hf Hstuck. revert Hstart. induction Hn as [|n x y z Hxy Hyz IH]; [done|].
    intros (H & Hp & Hf). apply IH. split; [eapply queue_step_inv; [done|by apply settle_step_queue]|].
    split; [by eapply settle_step_keeps|]. intros lost Hl. apply (Hf lost). by eapply settle_step_running. }
  destruct H as (? & ? & ?). by apply settled_done.
Qed.

(** ** Witnesses *)

(** Two bytes are queued and the producer begins to wait. *)
Definition ex_waiting : Queue := mkQueue true 2 false [[7; 8]] Checking Receiving [] [[7; 8]].
Lemma ex_waiting_reachable : queue_reachable ex_waiting.
Proof.
  eapply rtc_l; [apply (step_write queued_writer [7; 8]); reflexivity|].
  eapply rtc_l; [eapply (step_reserve _ true); reflexivity|].
  eapply rtc_l; [eapply (step_reserve _ false); reflexivity|].
  eapply rtc_l; [eapply step_send; reflexivity|].
  eapply rtc_l; [apply step_start_wait; reflexivity|]. vm_compute. apply rtc_refl.
Qed.

Lemma queue_exact_witness :
  queue_reachable ex_waiting /\ q_sink ex_waiting ++ [] ++ concat (q_channel ex_waiting) = [7; 8].
Proof.
  split; [exact ex_waiting_reachable|].
  destruct (queue_exact ex_waiting ex_waiting_reachable) as (_ & _ & _ & H). exact H.
Defined.

Definition ex_settled : Queue := mkQueue true 0 false [] Idle Receiving [7; 8] [[7; 8]].
Lemma ex_settles : nsteps settle_step 10 ex_waiting ex_settled.
Proof.
  do 2 (eapply nsteps_l; [apply settle_wait; vm_compute; reflexivity|]).
  do 6 (eapply nsteps_l; [apply (settle_drain _ _ 1); vm_compute; reflexivity|]).
  do 2 (eapply nsteps_l; [apply settle_wait; vm_compute; reflexivity|]). apply nsteps_O.
Qed.
Lemma wait_until_drained_terminates_witness :
  (10 <= work ex_waiting)%nat /\ q_sink ex_settled = concat (q_sent ex_settled).
Proof.
  destruct (wait_until_drained_terminates ex_waiting 10 ex_settled ex_waiting_reachable eq_refl
    (fun _ H => ltac:(discriminate H)) ex_settles) as [Hn H].
  split; [exact Hn|]. apply H. intros q'' Hs. inversion Hs as [? ? Hw|? ? n Hw]; subst; cbn in Hw; discriminate.
Defined.
