(* ===== verification/Environment.v ===== *)
(** * What a spawned terminal is given ([terminal.rs])

    The environment of the shell is built from a few variables of the worker, the
    client's terminal type and locale, and the terminal's identifier; the banner
    and the program title are text that reaches clients.  The checks keep hostile
    values out of all three. *)
From S2P Require Import Prelude Text Messages.
Open Scope N_scope.

Definition MAX_TERM_LENGTH : N := 64.
Definition MAX_LOCALE_VALUE_LENGTH : N := 256.
Definition MAX_PROGRAM_TITLE_LENGTH : nat := 512.
Definition SAFE_BASE_ENVIRONMENT : list string := ["HOME"; "USER"; "LOGNAME"; "SHELL"; "PATH"].
Definition UTF8_LOCALE_FALLBACKS : list string := ["C.UTF-8"; "C.utf8"; "UTF-8"; "en_US.UTF-8"].
Definition LOCALE_ENVIRONMENT_VARIABLES : list string :=
  ["LANG"; "LANGUAGE"; "LC_CTYPE"; "LC_NUMERIC"; "LC_TIME"; "LC_COLLATE"; "LC_MONETARY"; "LC_MESSAGES";
   "LC_PAPER"; "LC_NAME"; "LC_ADDRESS"; "LC_TELEPHONE"; "LC_MEASUREMENT"; "LC_IDENTIFICATION"; "LC_ALL"].

Record PreparedTerminalEnvironment := mkPrepared {
  pe_term : string; pe_locale : list EnvironmentVariable; pe_used_locale_fallback : bool }.

(** [u8::is_ascii_alphanumeric] *)
Definition is_ascii_alphanumeric (b : N) : bool :=
  ((48 <=? b) && (b <=? 57)) || ((65 <=? b) && (b <=? 90)) || ((97 <=? b) && (b <=? 122)).
(** [value.bytes().all(|byte| byte.is_ascii_alphanumeric() || extra.contains(&byte))] *)
Definition bytes_within (extra : string) (value : string) : bool :=
  forallb (fun b => is_ascii_alphanumeric b || bool_decide (b ∈ lit extra)) (lit value).

(** [windows(4).any(|window| window == b"utf8")] *)
Fixpoint has_window (w : list N) (l : list N) : bool :=
  match l with
  | [] => false
  | _ :: rest => bool_decide (take (length w) l = w) || has_window w rest
  end.
Definition locale_name_is_utf8 (value : string) : bool :=
  has_window (lit "utf8") (to_ascii_lowercase <$> filter (fun b => is_ascii_alphanumeric b = true) (lit value)).

Section environment.
(** [newlocale] accepts the name. *)
Variable locale_is_available : string -> bool.

Definition check_locale_variable (locale : gmap string string) (v : EnvironmentVariable)
    : result (gmap string string) :=
  ensure! bool_decide (ev_name v ∈ LOCALE_ENVIRONMENT_VARIABLES), "environment variable is not allowed";
  ensure! negb (bool_decide (ev_value v = "")) && (slen (ev_value v) <=? MAX_LOCALE_VALUE_LENGTH)
          && bytes_within "-_.@:" (ev_value v),
    "invalid value for locale variable";
  ensure! bool_decide (locale !! ev_name v = None), "duplicate locale variable";
  Ok (<[ev_name v := ev_value v]> locale).

(** The variable that decides the character type. *)
Definition effective_ctype (locale : gmap string string) : option string :=
  match locale !! "LC_ALL" with
  | Some v => Some v
  | None => match locale !! "LC_CTYPE" with Some v => Some v | None => locale !! "LANG" end
  end.
Definition locale_is_usable (locale : gmap string string) : bool :=
  match effective_ctype locale with Some v => locale_name_is_utf8 v | None => false end
  && forallb (fun kv => bool_decide (kv.1 = "LANGUAGE") || locale_is_available kv.2) (map_to_list locale).

(** [BTreeMap::into_iter] is in key order. *)
Definition locale_variables (locale : gmap string string) : list EnvironmentVariable :=
  (fun kv => mkVariable kv.1 kv.2) <$> merge_sort (fun a b => String.le a.1 b.1) (map_to_list locale).

Definition prepare_terminal_environment (requested_term : string) (requested_locale : list EnvironmentVariable)
    : result PreparedTerminalEnvironment :=
  let term := if bool_decide (requested_term = "") then "xterm-256color" else requested_term in
  ensure! (slen term <=? MAX_TERM_LENGTH) && bytes_within "-_.+" term, "invalid TERM value";
  ensure! llen requested_locale <=? llen LOCALE_ENVIRONMENT_VARIABLES, "too many locale environment variables";
  locale ← try_fold check_locale_variable ∅ requested_locale;
  if locale_is_usable locale then Ok (mkPrepared term (locale_variables locale) false)
  else
    fallback ← ok_or (find_map (fun v => if locale_is_available v then Some v else None) UTF8_LOCALE_FALLBACKS)
                 "server has no supported UTF-8 locale";
    Ok (mkPrepared term [mkVariable "LANG" fallback; mkVariable "LC_CTYPE" fallback] true).
End environment.

Definition DEFAULT_PATH : string := "/usr/local/bin:/usr/bin:/bin".
(** The environment of the command in [TerminalManager::spawn]; [host] is the
    worker's own. *)
Definition base_environment (host : string -> option string) : gmap string string :=
  let env := foldl (fun env name => match host name with Some v => <[name := v]> env | None => env end)
               ∅ SAFE_BASE_ENVIRONMENT in
  match env !! "PATH" with None => <["PATH" := DEFAULT_PATH]> env | Some _ => env end.
Definition command_environment (host : string -> option string) (p : PreparedTerminalEnvironment) (id : string)
    : gmap string string :=
  let env := <["TERM" := pe_term p]> (base_environment host) in
  let env := foldl (fun env v => <[ev_name v := ev_value v]> env) env (pe_locale p) in
  <["ASTRA_TERMINAL_ID" := id]> env.

(** ** Text for clients *)

(** [clean_program_title], after [from_utf8_lossy]. *)
Definition clean_program_title (title : text) : option text :=
  let cleaned := take MAX_PROGRAM_TITLE_LENGTH (filter (fun c => is_control c = false) (trim title)) in
  if bool_decide (cleaned = []) then None else Some cleaned.

Definition safe_banner_field (value : text) : option text :=
  let value := trim value in
  if bool_decide (value = []) || (256 <? text_len value) || existsb is_control value then None else Some value.

(** The loop that removes backslashes; a trailing one is an error. *)
Fixpoint unescape (escaped : bool) (t : text) : option text :=
  match t with
  | [] => if escaped then None else Some []
  | c :: t =>
      if escaped then rest ← unescape false t; Some (c :: rest)
      else if c =? 92 then unescape true t
      else rest ← unescape false t; Some (c :: rest)
  end.
Definition starts_with (c : N) (t : text) : bool := match t with x :: _ => x =? c | [] => false end.
Definition ends_with (c : N) (t : text) : bool := starts_with c (rev t).
(** [encoded[1..encoded.len() - 1]] *)
Definition inner (t : text) : text := removelast (tail t).

Definition os_release_value (contents key : text) : option text :=
  encoded ← find_map (fun line => '(name, value) ← split_once 61 line;
                                  if bool_decide (name = key) then Some (trim value) else None) (lines contents);
  if xorb (starts_with 34 encoded) (ends_with 34 encoded) || xorb (starts_with 39 encoded) (ends_with 39 encoded)
  then None
  else
    decoded ← (if (2 <=? length encoded)%nat && starts_with 34 encoded && ends_with 34 encoded
               then unescape false (inner encoded)
               else if (2 <=? length encoded)%nat && starts_with 39 encoded && ends_with 39 encoded
               then Some (inner encoded)
               else Some encoded);
    safe_banner_field decoded.

Definition build_welcome_banner (os_release kernel_release architecture : text) : option text :=
  pretty_name ← os_release_value os_release (lit "PRETTY_NAME");
  kernel_release ← safe_banner_field kernel_release;
  architecture ← safe_banner_field architecture;
  Some (lit "Welcome to " ++ pretty_name ++ lit " (GNU/Linux " ++ kernel_release ++ lit " " ++ architecture
        ++ lit ")" ++ [13; 10; 13; 10]).

(** ** Proofs *)

Section spec.
Variable locale_is_available : string -> bool.

Definition locale_value_ok (v : string) : Prop :=
  v <> "" /\ slen v <= MAX_LOCALE_VALUE_LENGTH /\ bytes_within "-_.@:" v = true.

Lemma check_locale_variable_Ok m v m' :
  check_locale_variable m v = Ok m' <->
  (ev_name v ∈ LOCALE_ENVIRONMENT_VARIABLES /\ locale_value_ok (ev_value v)) /\
  m !! ev_name v = None /\ m' = <[ev_name v := ev_value v]> m.
Proof.
  unfold check_locale_variable, locale_value_ok. split.
  - intros Hc. ok_inv Hc. bool_prop. done.
  - intros ([Hn (Hne & Hl & Hb)] & Hnone & ->). rewrite bool_decide_true by done.
    rewrite (bool_decide_false (ev_value v = "")) by done. rewrite (proj2 (N.leb_le _ _)), Hb by done. cbn.
    by rewrite bool_decide_true.
Qed.

(** The locale that is passed on: allowed names and safe values, from the request
    or a fallback. *)
Definition locale_ok (requested : list EnvironmentVariable) (l : list EnvironmentVariable) : Prop :=
  NoDup (ev_name <$> l) /\
  forall v, v ∈ l -> ev_name v ∈ LOCALE_ENVIRONMENT_VARIABLES /\ locale_value_ok (ev_value v) /\
    (v ∈ requested \/ ev_value v ∈ UTF8_LOCALE_FALLBACKS).

Lemma locale_variables_elem m v : v ∈ locale_variables m <-> m !! ev_name v = Some (ev_value v).
Proof.
  unfold locale_variables. rewrite list_elem_of_fmap. setoid_rewrite merge_sort_Permutation. split.
  - intros ([k x] & -> & Hin). by apply elem_of_map_to_list in Hin.
  - intros Hl. exists (ev_name v, ev_value v). split; [by destruct v|by apply elem_of_map_to_list].
Qed.
Lemma locale_variables_names m : NoDup (ev_name <$> locale_variables m).
Proof.
  unfold locale_variables. rewrite <- list_fmap_compose.
  rewrite (merge_sort_Permutation (fun a b => String.le a.1 b.1) (map_to_list m)). apply NoDup_fst_map_to_list.
Qed.

Lemma fallback_ok v : v ∈ UTF8_LOCALE_FALLBACKS -> locale_value_ok v /\ locale_name_is_utf8 v = true.
Proof. intros Hv. repeat (apply elem_of_cons in Hv as [->|Hv]; [by vm_compute|]). by apply elem_of_nil in Hv. Qed.

Lemma find_map_Some {A B} (f : A -> option B) l y :
  find_map f l = Some y -> exists x, x ∈ l /\ f x = Some y.
Proof.
  induction l as [|x l IH]; cbn; [done|]. destruct (f x) eqn:E.
  - intros [= ->]. exists x. split; [left|done].
  - intros Hl. destruct (IH Hl) as (z & Hz & Hf). exists z. split; [by right|done].
Qed.

(** What [prepare_terminal_environment] lets through. *)
Record prepared_ok (term : string) (requested : list EnvironmentVariable) (p : PreparedTerminalEnvironment)
    : Prop := {
  po_term : (pe_term p = if bool_decide (term = "") then "xterm-256color" else term) /\
            slen (pe_term p) <= MAX_TERM_LENGTH /\ bytes_within "-_.+" (pe_term p) = true;
  po_locale : locale_ok requested (pe_locale p);
  po_ctype : exists v, effective_ctype (list_to_map ((fun x => (ev_name x, ev_value x)) <$> pe_locale p)) = Some v /\
               locale_name_is_utf8 v = true /\ locale_is_available v = true
}.

Lemma locale_variables_map m :
  list_to_map ((fun x => (ev_name x, ev_value x)) <$> locale_variables m) = m.
Proof.
  apply map_eq. intros k. destruct (m !! k) as [v|] eqn:E.
  - apply elem_of_list_to_map_1.
    + rewrite <- list_fmap_compose. apply locale_variables_names.
    + apply list_elem_of_fmap. exists (mkVariable k v). split; [done|by apply locale_variables_elem].
  - apply not_elem_of_list_to_map_1. intros (x & -> & Hx)%list_elem_of_fmap.
    apply list_elem_of_fmap in Hx as (y & -> & Hy%locale_variables_elem). cbn in E. congruence.
Qed.
Lemma effective_ctype_lookup m v : effective_ctype m = Some v -> exists name, name <> "LANGUAGE" /\ m !! name = Some v.
Proof.
  unfold effective_ctype. destruct (m !! "LC_ALL") eqn:E1; [intros [= <-]; by exists "LC_ALL"|].
  destruct (m !! "LC_CTYPE") eqn:E2; [intros [= <-]; by exists "LC_CTYPE"|]. intros E3. by exists "LANG".
Qed.

Lemma prepare_ok term requested p :
  prepare_terminal_environment locale_is_available term requested = Ok p -> prepared_ok term requested p.
Proof.
  unfold prepare_terminal_environment. intros Hp. cbv zeta in Hp.
  match type of Hp with context [slen ?t] => set (term' := t) in * end.
  destruct (_ && bytes_within _ _) eqn:Et; [|done]. apply andb_prop in Et as [Ht1 Ht2]. apply N.leb_le in Ht1.
  destruct (_ <=? llen LOCALE_ENVIRONMENT_VARIABLES); [|done].
  destruct (try_fold check_locale_variable ∅ requested) as [m|e] eqn:Ef; cbn [mbind result_bind] in Hp; [|done].
  pose proof (insert_loop_sound check_locale_variable _ ev_name ev_value check_locale_variable_Ok _ _ Ef) as (Hc & _ & Hm).
  rewrite Forall_forall in Hc. destruct (locale_is_usable locale_is_available m) eqn:Eu.
  - injection Hp as <-. split; cbn [pe_term pe_locale]; [done| |].
    + split; [apply locale_variables_names|]. intros v Hv. apply locale_variables_elem in Hv.
      apply Hm in Hv as (x & Hx & Hn & Hval). destruct (Hc _ Hx) as [H1 H2]. rewrite <- Hn, <- Hval.
      split; [done|]. split; [done|]. left. destruct v, x; cbn in *; by subst.
    + rewrite locale_variables_map. apply andb_prop in Eu as [Eu Ea].
      destruct (effective_ctype m) as [v|] eqn:Ec; [|done]. exists v. split; [done|]. split; [done|].
      apply effective_ctype_lookup in Ec as (name & Hne & Hl). rewrite forallb_forall in Ea.
      specialize (Ea (name, v)). cbn in Ea. rewrite bool_decide_false in Ea by done. apply Ea.
      by apply list_elem_of_In, elem_of_map_to_list.
  - destruct (find_map _ UTF8_LOCALE_FALLBACKS) as [f|] eqn:Ff; cbn [ok_or mbind result_bind] in Hp; [|done].
    injection Hp as <-. apply find_map_Some in Ff as (x & Hx & Hf).
    destruct (locale_is_available x) eqn:Ea; [|done]. injection Hf as <-.
    destruct (fallback_ok x Hx) as [Hok Hutf]. split; cbn [pe_term pe_locale]; [done| |].
    + split; [apply (bool_decide_unpack _); vm_compute; exact I|]. intros v Hv.
      assert (Hvx : ev_name v ∈ LOCALE_ENVIRONMENT_VARIABLES /\ ev_value v = x).
      { repeat (apply elem_of_cons in Hv as [->|Hv]; [split; [apply (bool_decide_unpack _); vm_compute; exact I|done]|]).
        by apply elem_of_nil in Hv. }
      destruct Hvx as [Hn ->]. auto.
    + exists x. split; [reflexivity|]. done.
Qed.

(** ** The environment of the command *)

Lemma insert_all_lookup (l : list EnvironmentVariable) (env : gmap string string) k :
  NoDup (ev_name <$> l) ->
  foldl (fun env v => <[ev_name v := ev_value v]> env) env l !! k =
  match (list_to_map ((fun x => (ev_name x, ev_value x)) <$> l) : gmap string string) !! k with
  | Some v => Some v
  | None => env !! k
  end.
Proof.
  revert env. induction l as [|x l IH]; intros env Hnd; [done|].
  rewrite fmap_cons in Hnd. apply NoDup_cons in Hnd as [Hx Hnd]. cbn [foldl]. rewrite IH by done.
  rewrite fmap_cons, list_to_map_cons. destruct (decide (k = ev_name x)) as [->|Hne].
  - rewrite lookup_insert_eq, not_elem_of_list_to_map_1; [by rewrite lookup_insert_eq|].
    by rewrite <- list_fmap_compose.
  - by rewrite !lookup_insert_ne by done.
Qed.

Lemma base_environment_lookup host k v :
  base_environment host !! k = Some v ->
  k ∈ SAFE_BASE_ENVIRONMENT /\ (host k = Some v \/ k = "PATH" /\ v = DEFAULT_PATH).
Proof.
  unfold base_environment. set (env := foldl _ _ _).
  assert (Henv : forall k v, env !! k = Some v -> k ∈ SAFE_BASE_ENVIRONMENT /\ host k = Some v).
  { assert (Hg : forall l (m : gmap string string),
      (forall k v, m !! k = Some v -> k ∈ SAFE_BASE_ENVIRONMENT /\ host k = Some v) ->
      (forall x, x ∈ l -> x ∈ SAFE_BASE_ENVIRONMENT) ->
      forall k v, foldl (fun env name => match host name with Some v => <[name := v]> env | None => env end) m l !! k
                  = Some v -> k ∈ SAFE_BASE_ENVIRONMENT /\ host k = Some v).
    { induction l as [|x l IH]; intros m Hm Hl; cbn [foldl]; [done|]. apply IH; [|by intros; apply Hl; right].
      intros k' v'. destruct (host x) as [w|] eqn:Ex; [|apply Hm].
      destruct (decide (k' = x)) as [->|Hne]; [rewrite lookup_insert_eq; intros [= <-]; split; [apply Hl; left|done]|].
      rewrite lookup_insert_ne by done. apply Hm. }
    apply Hg; [|done]. intros k' v'. by rewrite lookup_empty. }
  destruct (env !! "PATH") eqn:Ep; [intros Hk; apply Henv in Hk as [? ?]; auto|].
  destruct (decide (k = "PATH")) as [->|Hne]; [rewrite lookup_insert_eq; intros [= <-]|].
  - split; [apply (bool_decide_unpack _); vm_compute; exact I|auto].
  - rewrite lookup_insert_ne by done. intros Hk. apply Henv in Hk as [? ?]. auto.
Qed.
Lemma base_environment_path host : is_Some (base_environment host !! "PATH").
Proof.
  unfold base_environment. destruct (foldl _ _ _ !! "PATH") eqn:E; [by rewrite E|]. rewrite lookup_insert_eq. by eexists.
Qed.

(** Where a variable of the command's environment can come from. *)
Inductive env_source (host : string -> option string) (term : string) (requested : list EnvironmentVariable)
    (id : string) : string -> string -> Prop :=
| from_host name v : name ∈ SAFE_BASE_ENVIRONMENT -> host name = Some v -> env_source host term requested id name v
| from_default_path : env_source host term requested id "PATH" DEFAULT_PATH
| from_term v : v = term \/ term = "" /\ v = "xterm-256color" -> slen v <= MAX_TERM_LENGTH ->
    bytes_within "-_.+" v = true -> env_source host term requested id "TERM" v
| from_locale name v : name ∈ LOCALE_ENVIRONMENT_VARIABLES -> locale_value_ok v ->
    mkVariable name v ∈ requested \/ v ∈ UTF8_LOCALE_FALLBACKS -> env_source host term requested id name v
| from_id : env_source host term requested id "ASTRA_TERMINAL_ID" id.

Lemma command_environment_source host term requested p id k v :
  prepared_ok term requested p -> command_environment host p id !! k = Some v ->
  env_source host term requested id k v.
Proof.
  intros [(Ht1 & Ht2 & Ht3) [Hnd Hl] _]. unfold command_environment. cbv zeta.
  destruct (decide (k = "ASTRA_TERMINAL_ID")) as [->|Hne];
    [rewrite lookup_insert_eq; intros [= <-]; apply from_id|].
  rewrite lookup_insert_ne by done. rewrite insert_all_lookup by done.
  destruct (list_to_map _ !! k) as [x|] eqn:El.
  - intros [= ->]. apply elem_of_list_to_map_2 in El. apply list_elem_of_fmap in El as (y & [= -> ->] & Hy).
    destruct (Hl _ Hy) as (Hn & Hv & Hs). apply from_locale; [done|done|]. destruct Hs; [left; by destruct y|by right].
  - destruct (decide (k = "TERM")) as [->|Hnt].
    + rewrite lookup_insert_eq. intros [= <-]. apply from_term; [|done|done]. rewrite Ht1.
      case_bool_decide; auto.
    + rewrite lookup_insert_ne by done. intros Hk. apply base_environment_lookup in Hk as [Hin [Hh|[-> ->]]].
      * by apply from_host.
      * apply from_default_path.
Qed.

Lemma command_environment_ctype host p id :
  NoDup (ev_name <$> pe_locale p) ->
  effective_ctype (list_to_map ((fun x => (ev_name x, ev_value x)) <$> pe_locale p)) <> None ->
  effective_ctype (command_environment host p id) =
  effective_ctype (list_to_map ((fun x => (ev_name x, ev_value x)) <$> pe_locale p)).
Proof.
  intros Hnd Hsome.
  assert (Hk : forall k, k ∉ ("ASTRA_TERMINAL_ID" :: "TERM" :: SAFE_BASE_ENVIRONMENT) ->
    command_environment host p id !! k =
    (list_to_map ((fun x => (ev_name x, ev_value x)) <$> pe_locale p) : gmap string string) !! k).
  { intros k Hk. unfold command_environment. cbv zeta. rewrite lookup_insert_ne by set_solver.
    rewrite insert_all_lookup by done. destruct (list_to_map _ !! k); [done|].
    rewrite lookup_insert_ne by set_solver. destruct (base_environment host !! k) eqn:E; [|done].
    apply base_environment_lookup in E as [E _]. set_solver. }
  unfold effective_ctype. rewrite !Hk by (apply (bool_decide_unpack _); vm_compute; exact I). done.
Qed.

(** ** Text *)

Definition clean (t : text) : Prop := Forall (fun c => is_control c = false) t.
Lemma existsb_clean t : existsb is_control t = false -> clean t.
Proof.
  induction t as [|c t IH]; cbn; [by constructor|]. rewrite orb_false_iff. intros [Hc Ht]. constructor; [done|by apply IH].
Qed.
Lemma safe_banner_field_clean t v : safe_banner_field t = Some v -> clean v /\ v <> [] /\ text_len v <= 256.
Proof.
  unfold safe_banner_field. cbv zeta. destruct (_ || _) eqn:E; [done|]. intros [= <-]. bool_prop.
  split; [by apply existsb_clean|]. split; [done|lia].
Qed.
Lemma clean_program_title_clean t v :
  clean_program_title t = Some v -> clean v /\ v <> [] /\ (length v <= MAX_PROGRAM_TITLE_LENGTH)%nat.
Proof.
  unfold clean_program_title. cbv zeta. case_bool_decide as Hne; [done|]. intros [= <-].
  split; [|split; [done|rewrite length_take; lia]].
  apply Forall_take, Forall_forall. intros c Hc. by apply list_elem_of_filter in Hc as [? _].
Qed.

(** ** Properties *)

(** A terminal's process gets only variables that belong there: the worker's
    own for a few fixed names, the checked terminal type, the locale variables of
    a fixed list with checked values, and its identifier; never another name or
    an unchecked value from the client.  [PATH] is always set, and the character
    type is a UTF-8 locale that the host has. *)
Theorem spawned_environment_safe host term requested p id :
  prepare_terminal_environment locale_is_available term requested = Ok p ->
  let env := command_environment host p id in
  (forall name v, env !! name = Some v -> env_source host term requested id name v) /\
  is_Some (env !! "PATH") /\ env !! "ASTRA_TERMINAL_ID" = Some id /\
  exists ctype, effective_ctype env = Some ctype /\ locale_name_is_utf8 ctype = true /\
    locale_is_available ctype = true.
Proof.
  intros Hp%prepare_ok env. split; [intros; by eapply command_environment_source|].
  destruct Hp as [_ [Hnd Hl] (v & Hc & Hu & Ha)]. split; [|split].
  - unfold env, command_environment. cbv zeta. rewrite lookup_insert_ne by done. rewrite insert_all_lookup by done.
    destruct (list_to_map _ !! "PATH"); [by eexists|]. rewrite lookup_insert_ne by done. apply base_environment_path.
  - unfold env, command_environment. cbv zeta. by rewrite lookup_insert_eq.
  - exists v. unfold env. rewrite command_environment_ctype by (try done; by rewrite Hc). done.
Qed.

(** Text that a host file or a program chooses cannot smuggle control
    sequences to clients: the welcome banner contains no control character but the
    line ends that close it, and a program title has none, is not empty and is
    bounded. *)
Theorem terminal_text_clean os_release kernel_release architecture title :
  (forall banner, build_welcome_banner os_release kernel_release architecture = Some banner ->
     exists body, banner = body ++ [13; 10; 13; 10] /\ clean body /\ text_len body <= 1024) /\
  (forall cleaned, clean_program_title title = Some cleaned ->
     clean cleaned /\ cleaned <> [] /\ (length cleaned <= MAX_PROGRAM_TITLE_LENGTH)%nat).
Proof.
  split; [|intros; by eapply clean_program_title_clean]. intros banner Hb. unfold build_welcome_banner in Hb.
  destruct (os_release_value _ _) as [name|] eqn:En; [|done].
  destruct (safe_banner_field kernel_release) as [kernel|] eqn:Ek; [|done].
  destruct (safe_banner_field architecture) as [arch|] eqn:Ea; [|done].
  exists (lit "Welcome to " ++ name ++ lit " (GNU/Linux " ++ kernel ++ lit " " ++ arch ++ lit ")").
  split; [injection Hb as <-; by rewrite <- !app_assoc|].
  unfold os_release_value in En. opt_inv En. destruct (_ || _) in En; [done|]. opt_inv En.
  apply safe_banner_field_clean in En as (? & _ & ?), Ek as (? & _ & ?), Ea as (? & _ & ?).
  split; [unfold clean in *; rewrite !Forall_app; repeat split; try done; by apply existsb_clean|].
  rewrite !text_len_app. change (text_len (lit "Welcome to ")) with 11. change (text_len (lit " (GNU/Linux ")) with 12.
  change (text_len (lit " ")) with 1. change (text_len (lit ")")) with 1. lia.
Qed.
End spec.

(** ** Witnesses *)

Lemma spawned_environment_safe_witness :
  exists p, prepare_terminal_environment (fun _ => true) "" [mkVariable "LANG" "de_DE.UTF-8"] = Ok p /\
  is_Some (command_environment (fun _ => None) p "t1" !! "PATH") /\
  effective_ctype (command_environment (fun _ => None) p "t1") = Some "de_DE.UTF-8".
Proof.
  eexists. split; [vm_compute; reflexivity|].
  split; [|vm_compute; reflexivity].
  refine (proj1 (proj2 (spawned_environment_safe (fun _ => true) (fun _ => None) "" [mkVariable "LANG" "de_DE.UTF-8"] _ "t1" _))).
  vm_compute. reflexivity.
Defined.

Example ex_banner :
  build_welcome_banner (lit "NAME=x" ++ [10] ++ lit "PRETTY_NAME='Debian 12'" ++ [10]) (lit "6.1 ") (lit "arm") =
  Some (lit "Welcome to Debian 12 (GNU/Linux 6.1 arm)" ++ [13; 10; 13; 10]).
Proof. vm_compute. reflexivity. Qed.
