(* ===== verification/Sessions.v ===== *)
(** * Sessions ([session.rs] and the terminal manager of [terminal.rs])

    A worker keeps a catalog of workspaces, a registry of terminals and a registry
    of attachments.  The catalog is written to a file at every change: to a
    temporary file that is then renamed, so that the file always holds a whole
    catalog.  [fault] says which call of a write fails. *)
From stdpp Require Import pretty.
From S2P Require Import Prelude Text Resources Files Messages Environment.
Open Scope N_scope.

Definition SESSION_CATALOG_SCHEMA_VERSION : N := 1.
Definition MAX_SESSION_CATALOG_BYTES : N := 1024 * 1024.
Definition MAX_WORKSPACE_NAME_BYTES : N := 128.

(** ** Data *)

Record WorkspaceInfo := mkWorkspace {
  ws_id : string; ws_name : text; ws_revision : N; ws_created_at_unix_ms : N; ws_is_default : bool }.
#[global] Instance WorkspaceInfo_eq_dec : EqDecision WorkspaceInfo.
Proof. solve_decision. Defined.
Record SessionCatalog := mkCatalog {
  sc_schema_version : N; sc_default_workspace_id : string; sc_workspaces : list WorkspaceInfo }.

(** [AttachmentRole] and [AttachmentState] travel as [i32]. *)
Inductive AttachmentRole := RoleUnspecified | Viewer | Controller.
Definition role_number (r : AttachmentRole) : Z :=
  match r with RoleUnspecified => 0 | Viewer => 1 | Controller => 2 end.
Inductive AttachmentState := StateUnspecified | Subscribing | Snapshotting | Live.
#[global] Instance AttachmentState_eq_dec : EqDecision AttachmentState.
Proof. solve_decision. Defined.
Definition state_number (s : AttachmentState) : Z :=
  match s with StateUnspecified => 0 | Subscribing => 1 | Snapshotting => 2 | Live => 3 end.
Definition state_try_from (n : Z) : option AttachmentState :=
  match n with
  | 0%Z => Some StateUnspecified | 1%Z => Some Subscribing | 2%Z => Some Snapshotting | 3%Z => Some Live
  | _ => None
  end.
Record AttachmentInfo := mkAttachment {
  ai_id : string; ai_connection_id : string; ai_workspace_id : string; ai_terminal_id : string;
  ai_role : Z; ai_state : Z; ai_created_at_unix_ms : N }.

(** [TerminalLifecycle] *)
Definition LIFECYCLE_RUNNING : Z := 2.
Definition LIFECYCLE_EXITED : Z := 3.
Record TerminalInfo := mkTerminalInfo {
  ti_id : string; ti_name : text; ti_argv : list string; ti_cwd : list bytes; ti_status : string;
  ti_exit_code : option Z; ti_rows : N; ti_cols : N; ti_display_id : N; ti_custom_name : option text;
  ti_interactive : option bool; ti_workspace_id : string; ti_lifecycle : Z }.

Definition display_le (a b : TerminalInfo) : Prop := ti_display_id a <= ti_display_id b.
#[global] Instance display_le_dec a b : Decision (display_le a b).
Proof. unfold display_le. apply _. Defined.

(** A terminal of the registry, with its reservation. *)
Record TerminalEntry := mkEntry { te_info : TerminalInfo; te_resources : list PoolReservation }.

Record SessionManager := mkManager {
  sm_catalog : SessionCatalog;
  sm_file : option bytes;
  sm_terminals : gmap string TerminalEntry;
  (** out of the registry, with a reference left somewhere *)
  sm_detached : gmap string (list PoolReservation);
  sm_next_display_id : N;
  sm_attachments : gmap string AttachmentInfo;
  sm_handles : gmap string (AttachmentInfo * list PoolReservation);
  sm_account : ResourceAccount;
  sm_policy : ResourcePolicy;
  sm_session_root : Path;
  sm_pools : PoolStore
}.
Definition set_catalog (c : SessionCatalog) (file : option bytes) (m : SessionManager) : SessionManager :=
  mkManager c file (sm_terminals m) (sm_detached m) (sm_next_display_id m) (sm_attachments m) (sm_handles m) (sm_account m)
    (sm_policy m) (sm_session_root m) (sm_pools m).
Definition set_terminals (ts : gmap string TerminalEntry) (m : SessionManager) : SessionManager :=
  mkManager (sm_catalog m) (sm_file m) ts (sm_detached m) (sm_next_display_id m) (sm_attachments m) (sm_handles m)
    (sm_account m) (sm_policy m) (sm_session_root m) (sm_pools m).
Definition set_next_display_id (n : N) (m : SessionManager) : SessionManager :=
  mkManager (sm_catalog m) (sm_file m) (sm_terminals m) (sm_detached m) n (sm_attachments m) (sm_handles m)
    (sm_account m) (sm_policy m) (sm_session_root m) (sm_pools m).
Definition set_attachments (l : gmap string AttachmentInfo)
    (h : gmap string (AttachmentInfo * list PoolReservation)) (m : SessionManager) : SessionManager :=
  mkManager (sm_catalog m) (sm_file m) (sm_terminals m) (sm_detached m) (sm_next_display_id m) l h
    (sm_account m) (sm_policy m) (sm_session_root m) (sm_pools m).
Definition set_manager_pools (s : PoolStore) (m : SessionManager) : SessionManager :=
  mkManager (sm_catalog m) (sm_file m) (sm_terminals m) (sm_detached m) (sm_next_display_id m) (sm_attachments m)
    (sm_handles m) (sm_account m) (sm_policy m) (sm_session_root m) s.
Definition set_detached (d : gmap string (list PoolReservation)) (m : SessionManager) : SessionManager :=
  mkManager (sm_catalog m) (sm_file m) (sm_terminals m) d (sm_next_display_id m) (sm_attachments m)
    (sm_handles m) (sm_account m) (sm_policy m) (sm_session_root m) (sm_pools m).

(** The protobuf codec of the catalog, [Uuid::parse_str] with [to_string], and
    [Path::canonicalize]. *)
Class SessionLib := {
  catalog_encode : SessionCatalog -> bytes;
  catalog_decode : bytes -> option SessionCatalog;
  parse_uuid : string -> option string;
  canonicalize_cwd : Path -> option Path
}.
Class SessionLaws `{SessionLib} := {
  catalog_decode_encode c : catalog_decode (catalog_encode c) = Some c;
  (** the canonical form is hyphenated *)
  uuid_hyphen s : parse_uuid s = Some s -> 45 ∈ lit s
}.

Section sessions.
Context `{SessionLib}.

(** ** The catalog *)

Definition validate_uuid (value : string) : result unit :=
  parsed ← ok_or (parse_uuid value) "not a UUID";
  ensure! bool_decide (parsed = value), "not canonical";
  Ok tt.

Definition validate_workspace_name (name : text) : result text :=
  let name := trim name in
  ensure! negb (bool_decide (name = [])), "workspace name cannot be empty";
  ensure! text_len name <=? MAX_WORKSPACE_NAME_BYTES, "workspace name exceeds 128 bytes";
  ensure! negb (existsb is_control name), "workspace name contains control characters";
  Ok name.

(** The loop of [validate_catalog] over the identifiers and names seen so far and
    the number of default workspaces. *)
Definition check_workspace (default_id : string) (seen : gset string * gset text * N) (w : WorkspaceInfo)
    : result (gset string * gset text * N) :=
  let '(ids, names, default_count) := seen in
  _ ← validate_uuid (ws_id w);
  ensure! negb (bool_decide (ws_id w ∈ ids)), "duplicate workspace ID";
  name ← validate_workspace_name (ws_name w);
  ensure! bool_decide (name = ws_name w), "workspace name is not canonical";
  ensure! negb (bool_decide (name ∈ names)), "duplicate workspace name";
  ensure! 0 <? ws_revision w, "workspace revision must be nonzero";
  if ws_is_default w then
    ensure! bool_decide (ws_id w = default_id), "default workspace marker does not match catalog";
    Ok ({[ws_id w]} ∪ ids, {[name]} ∪ names, default_count + 1)
  else Ok ({[ws_id w]} ∪ ids, {[name]} ∪ names, default_count).

Definition validate_catalog (catalog : SessionCatalog) : result unit :=
  ensure! sc_schema_version catalog =? SESSION_CATALOG_SCHEMA_VERSION,
    "unsupported session catalog schema version";
  _ ← validate_uuid (sc_default_workspace_id catalog);
  ensure! negb (bool_decide (sc_workspaces catalog = [])), "session catalog has no workspace";
  seen ← try_fold (check_workspace (sc_default_workspace_id catalog)) (∅, ∅, 0) (sc_workspaces catalog);
  ensure! seen.2 =? 1, "session catalog must have one default workspace";
  Ok tt.

(** The calls of [persist_catalog] in order: 0 creates the directory, 1 to 3 fill
    the temporary file, 4 renames it, 5 syncs the directory. *)
Definition RENAME_CALL : nat := 4.
Definition persist_catalog (file : option bytes) (catalog : SessionCatalog) (fault : option nat)
    : option bytes * result unit :=
  match validate_catalog catalog with
  | Err e => (file, Err e)
  | Ok _ =>
      let encoded := catalog_encode catalog in
      if negb (llen encoded <=? MAX_SESSION_CATALOG_BYTES)
      then (file, Err "session catalog exceeds size limit")
      else match fault with
           | Some k => (if (k <=? RENAME_CALL)%nat then file else Some encoded,
                        Err "failed to persist session catalog")
           | None => (Some encoded, Ok tt)
           end
  end.

Definition load_or_create_catalog (file : option bytes) (readable : bool) (id : string) (now : result N)
    (fault : option nat) : option bytes * result SessionCatalog :=
  if negb readable then (file, Err "failed to read session catalog") else
  match file with
  | Some b =>
      (file,
       ensure! llen b <=? MAX_SESSION_CATALOG_BYTES, "session catalog exceeds size limit";
       catalog ← ok_or (catalog_decode b) "session catalog is not valid protobuf";
       _ ← validate_catalog catalog;
       Ok catalog)
  | None =>
      match now with
      | Err e => (file, Err e)
      | Ok now =>
          let catalog := mkCatalog SESSION_CATALOG_SCHEMA_VERSION id [mkWorkspace id (lit "Default") 1 now true] in
          match persist_catalog file catalog fault with
          | (file, Err e) => (file, Err e)
          | (file, Ok _) => (file, Ok catalog)
          end
      end
  end.

(** [SessionManager::with_resources]; the canonical root comes from
    [TerminalManager::with_resources]. *)
Definition with_resources (session_root : Path) (file : option bytes) (readable : bool) (id : string)
    (now : result N) (fault : option nat) (resources : ResourceAccount) (resource_policy : ResourcePolicy)
    (pools : PoolStore) : option bytes * result SessionManager :=
  match (_ ← policy_validate resource_policy; ok_or (canonicalize_cwd session_root) "invalid session root") with
  | Err e => (file, Err e)
  | Ok session_root =>
      match load_or_create_catalog file readable id now fault with
      | (file, Err e) => (file, Err e)
      | (file, Ok catalog) =>
          (file, Ok (mkManager catalog file ∅ ∅ 1 ∅ ∅ resources resource_policy session_root pools))
      end
  end.

Definition update_catalog (update : SessionCatalog -> result SessionCatalog) (fault : option nat)
    (m : SessionManager) : SessionManager * result unit :=
  match update (sm_catalog m) with
  | Err e => (m, Err e)
  | Ok candidate =>
      match validate_catalog candidate with
      | Err e => (m, Err e)
      | Ok _ =>
          match persist_catalog (sm_file m) candidate fault with
          | (file, Err e) => (set_catalog (sm_catalog m) file m, Err e)
          | (file, Ok _) => (set_catalog candidate file m, Ok tt)
          end
      end
  end.

Definition with_workspaces (ws : list WorkspaceInfo) (c : SessionCatalog) : SessionCatalog :=
  mkCatalog (sc_schema_version c) (sc_default_workspace_id c) ws.

Definition create_workspace (name : text) (id : string) (now : result N) (fault : option nat)
    (m : SessionManager) : SessionManager * result WorkspaceInfo :=
  match (name ← validate_workspace_name name; now ← now; Ok (mkWorkspace id name 1 now false)) with
  | Err e => (m, Err e)
  | Ok workspace =>
      let '(m, r) := update_catalog (fun catalog =>
        ensure! negb (existsb (fun w => bool_decide (ws_name w = ws_name workspace)) (sc_workspaces catalog)),
          "workspace name already exists";
        Ok (with_workspaces (sc_workspaces catalog ++ [workspace]) catalog)) fault m in
      (m, _ ← r; Ok workspace)
  end.

(** The first workspace with the identifier is changed. *)
Fixpoint rename_first (id : string) (name : text) (ws : list WorkspaceInfo)
    : result (list WorkspaceInfo * WorkspaceInfo) :=
  match ws with
  | [] => Err "workspace does not exist"
  | w :: ws =>
      if bool_decide (ws_id w = id) then
        revision ← ok_or (checked_add U64_MAX (ws_revision w) 1) "workspace revision exhausted";
        let w := mkWorkspace (ws_id w) name revision (ws_created_at_unix_ms w) (ws_is_default w) in
        Ok (w :: ws, w)
      else '(ws, renamed) ← rename_first id name ws; Ok (w :: ws, renamed)
  end.

Definition renamed_catalog (workspace_id : string) (name : text) (catalog : SessionCatalog)
    : result (SessionCatalog * WorkspaceInfo) :=
  ensure! negb (existsb (fun w => negb (bool_decide (ws_id w = workspace_id)) && bool_decide (ws_name w = name))
                  (sc_workspaces catalog)),
    "workspace name already exists";
  '(ws, renamed) ← rename_first workspace_id name (sc_workspaces catalog);
  Ok (with_workspaces ws catalog, renamed).

Definition rename_workspace (workspace_id : string) (name : text) (fault : option nat) (m : SessionManager)
    : SessionManager * result WorkspaceInfo :=
  match (_ ← validate_uuid workspace_id; validate_workspace_name name) with
  | Err e => (m, Err e)
  | Ok name =>
      let renamed := '(_, w) ← renamed_catalog workspace_id name (sm_catalog m); Ok w in
      let '(m, r) := update_catalog (fun catalog => '(c, _) ← renamed_catalog workspace_id name catalog; Ok c)
                       fault m in
      (m, _ ← r; renamed)
  end.

(** ** Terminals *)

(** [sort_by_key] on the display identifier; equal keys keep their order. *)
Definition sort_terminals (l : list TerminalInfo) : list TerminalInfo := merge_sort display_le l.
Definition terminal_infos (m : SessionManager) : list TerminalInfo :=
  (fun kv => te_info kv.2) <$> map_to_list (sm_terminals m).
Definition list_running (m : SessionManager) : list TerminalInfo :=
  sort_terminals (filter (fun t => ti_status t = "running") (terminal_infos m)).
Definition list_in_workspace (workspace_id : string) (include_exited : bool) (m : SessionManager)
    : list TerminalInfo :=
  sort_terminals (filter (fun t => ti_workspace_id t = workspace_id /\
                                   (include_exited = true \/ ti_lifecycle t = LIFECYCLE_RUNNING))
                    (terminal_infos m)).
Definition has_active_terminals (m : SessionManager) : bool :=
  existsb (fun t => bool_decide (ti_status t = "running")) (terminal_infos m).

Definition delete_workspace (workspace_id : string) (fault : option nat) (m : SessionManager)
    : SessionManager * result unit :=
  match validate_uuid workspace_id with
  | Err e => (m, Err e)
  | Ok _ =>
      if negb (bool_decide (list_in_workspace workspace_id true m = [])) then (m, Err "workspace is not empty")
      else update_catalog (fun catalog =>
        ensure! negb (bool_decide (sc_default_workspace_id catalog = workspace_id)),
          "cannot delete the default workspace";
        let ws := filter (fun w => ws_id w <> workspace_id) (sc_workspaces catalog) in
        ensure! (length ws + 1 =? length (sc_workspaces catalog))%nat, "workspace does not exist";
        Ok (with_workspaces ws catalog)) fault m
  end.

Definition workspace (workspace_id : string) (m : SessionManager) : result WorkspaceInfo :=
  _ ← validate_uuid workspace_id;
  ok_or (find_map (fun w => if bool_decide (ws_id w = workspace_id) then Some w else None)
           (sc_workspaces (sm_catalog m)))
    "workspace does not exist".

(** [str::parse::<u64>] *)
Fixpoint parse_digits (acc : N) (s : list N) : option N :=
  match s with
  | [] => Some acc
  | c :: s => if (48 <=? c) && (c <=? 57)
              then acc ← checked_mul U64_MAX acc 10; acc ← checked_add U64_MAX acc (c - 48); parse_digits acc s
              else None
  end.
Definition parse_u64 (s : list N) : option N :=
  match s with
  | [] => None
  | 43 :: s => if bool_decide (s = []) then None else parse_digits 0 s
  | s => parse_digits 0 s
  end.
Definition parse_display_id (selector : string) : option N :=
  n ← parse_u64 (lit selector); if n =? 0 then None else Some n.

Definition get_by_selector (selector : string) (m : SessionManager) : option TerminalInfo :=
  match sm_terminals m !! selector with
  | Some t => Some (te_info t)
  | None =>
      display_id ← parse_display_id selector;
      find_map (fun t => if ti_display_id t =? display_id then Some t else None) (terminal_infos m)
  end.
Definition get_terminal (workspace_id selector : string) (formal : bool) (m : SessionManager)
    : result (option TerminalInfo) :=
  let terminal := get_by_selector selector m in
  if negb formal then Ok terminal
  else
    _ ← validate_uuid selector;
    _ ← workspace workspace_id m;
    Ok match terminal with
       | Some t => if bool_decide (ti_workspace_id t = workspace_id) then Some t else None
       | None => None
       end.

Definition allocate_display_id (m : SessionManager) : SessionManager * result N :=
  match checked_add U64_MAX (sm_next_display_id m) 1 with
  | Some next => (set_next_display_id next m, Ok (sm_next_display_id m))
  | None => (m, Err "terminal display ID space exhausted")
  end.

(** Dropping a reservation; an underflow would be a panic. *)
Definition release (rs : list PoolReservation) (m : SessionManager) : result SessionManager :=
  match drop_reservations (sm_pools m) rs with
  | Some s => Ok (set_manager_pools s m)
  | None => panic
  end.
(** An early return drops the reservation on its way out. *)
Definition fail_released {A} (rs : list PoolReservation) (e : string) (m : SessionManager)
    : SessionManager * result A :=
  match release rs m with
  | Ok m => (m, Err e)
  | Err p => (m, Err p)
  end.
Definition reserve_session (claim : ResourceClaim) (m : SessionManager)
    : SessionManager * result (list PoolReservation) :=
  match account_reserve (sm_pools m) (sm_account m) claim with
  | (s, Returned rs) => (set_manager_pools s m, Ok rs)
  | (s, Failed _) => (set_manager_pools s m, Err "resource quota exceeded")
  | (s, Panicked) => (set_manager_pools s m, panic)
  end.

(** ** Spawning *)

Definition resolve_cwd (requested : bytes) (m : SessionManager) : result Path :=
  let candidate := if bool_decide (requested = []) then sm_session_root m
                   else if is_absolute requested then components requested
                   else sm_session_root m ++ components requested in
  canonical ← ok_or (canonicalize_cwd candidate) "invalid cwd";
  ensure! bool_decide (sm_session_root m `prefix_of` canonical), "cwd is outside configured session root";
  Ok canonical.

(** What the host decides in [TerminalManager::spawn]: the shell of the worker, the
    locales, the new identifier, and whether the calls from [openpty] to the
    engine's creation succeed. *)
Record SpawnHost := mkSpawnHost {
  ho_shell : option string; ho_locale_is_available : string -> bool; ho_uuid : string; ho_pty : result unit }.

(** The checks before anything is allocated: the size, the directory and the
    command. *)
Definition spawn_checks (request : SpawnRequest) (host : SpawnHost) (m : SessionManager)
    : result (N * N * Path * list string * PreparedTerminalEnvironment) :=
  let rows := if sp_rows request =? 0 then 24 else sp_rows request in
  let cols := if sp_cols request =? 0 then 80 else sp_cols request in
  ensure! (1 <=? rows) && (rows <=? 1000) && ((1 <=? cols) && (cols <=? 1000)),
    "terminal dimensions must be between 1 and 1000";
  environment ← prepare_terminal_environment (ho_locale_is_available host) (sp_term request) (sp_environment request);
  cwd ← resolve_cwd (lit (sp_cwd request)) m;
  let argv := if bool_decide (sp_argv request = []) then [default "/bin/sh" (ho_shell host)] else sp_argv request in
  ensure! negb (bool_decide (head argv = Some "")), "argv[0] cannot be empty";
  Ok (rows, cols, cwd, argv, environment).

Definition spawn_terminal (request : SpawnRequest) (host : SpawnHost) (m : SessionManager)
    : SessionManager * result TerminalInfo :=
  match (checked ← spawn_checks request host m; let '(rows, cols, _, _, _) := checked in
         claim ← claim_terminal rows cols (sm_policy m); Ok (checked, claim)) with
  | Err e => (m, Err e)
  | Ok ((rows, cols, cwd, argv, _), claim) =>
      match reserve_session claim m with
      | (m, Err e) => (m, Err e)
      | (m, Ok rs) =>
          match allocate_display_id m with
          | (m, Err e) => fail_released rs e m
          | (m, Ok display_id) =>
              match ho_pty host with
              | Err e => fail_released rs e m
              | Ok _ =>
                  let name := if bool_decide (sp_name request = "") then lit "terminal-" ++ lit (pretty display_id)
                              else lit (sp_name request) in
                  let info := mkTerminalInfo (ho_uuid host) name argv cwd "running" None rows cols display_id None
                                (Some true) (sp_workspace_id request) LIFECYCLE_RUNNING in
                  (set_terminals (<[ho_uuid host := mkEntry info rs]> (sm_terminals m)) m, Ok info)
              end
          end
      end
  end.

(** [SessionManager::spawn]: the workspace is checked, then the terminal manager
    spawns. *)
Definition spawn_target (request : SpawnRequest) (formal : bool) (m : SessionManager) : result SpawnRequest :=
  if negb formal && bool_decide (sp_workspace_id request = "") then
    Ok (mkSpawn (sp_name request) (sp_argv request) (sp_cwd request) (sp_rows request) (sp_cols request)
          (sp_term request) (sp_environment request) (sc_default_workspace_id (sm_catalog m)))
  else _ ← workspace (sp_workspace_id request) m; Ok request.
Definition spawn (request : SpawnRequest) (formal : bool) (host : SpawnHost) (m : SessionManager)
    : SessionManager * result TerminalInfo :=
  match spawn_target request formal m with
  | Err e => (m, Err e)
  | Ok request => spawn_terminal request host m
  end.

(** The end of a terminal's process, its removal from the registry a minute later,
    and the drop of the last reference, which returns the reservation. *)
Definition terminal_exited (id : string) (code : option Z) (m : SessionManager) : SessionManager :=
  match sm_terminals m !! id with
  | None => m
  | Some t =>
      let i := te_info t in
      let info := mkTerminalInfo (ti_id i) (ti_name i) (ti_argv i) (ti_cwd i)
                    (match code with Some _ => "exited" | None => "lost" end) (match code with Some c => Some c | None => ti_exit_code i end)
                    (ti_rows i) (ti_cols i) (ti_display_id i) (ti_custom_name i) (ti_interactive i)
                    (ti_workspace_id i) LIFECYCLE_EXITED in
      set_terminals (<[id := mkEntry info (te_resources t)]> (sm_terminals m)) m
  end.
Definition terminal_removed (id : string) (m : SessionManager) : SessionManager :=
  match sm_terminals m !! id with
  | None => m
  | Some t => set_detached (<[id := te_resources t]> (sm_detached m)) (set_terminals (delete id (sm_terminals m)) m)
  end.
Definition terminal_dropped (id : string) (m : SessionManager) : result SessionManager :=
  match sm_detached m !! id with
  | None => Ok m
  | Some rs => release rs (set_detached (delete id (sm_detached m)) m)
  end.

(** ** Attachments *)

Definition register_attachment (connection_id : string) (terminal : TerminalInfo) (read_only : bool) (id : string)
    (now : result N) (m : SessionManager) : SessionManager * result AttachmentInfo :=
  match (_ ← validate_uuid connection_id; workspace (ti_workspace_id terminal) m) with
  | Err e => (m, Err e)
  | Ok _ =>
      match reserve_session claim_attachment m with
      | (m, Err e) => (m, Err e)
      | (m, Ok rs) =>
          match now with
          | Err e => fail_released rs e m
          | Ok now =>
              let info := mkAttachment id connection_id (ti_workspace_id terminal) (ti_id terminal)
                            (role_number (if read_only then Viewer else Controller)) (state_number Subscribing) now in
              (set_attachments (<[id := info]> (sm_attachments m)) (<[id := (info, rs)]> (sm_handles m)) m, Ok info)
          end
      end
  end.

Definition with_state (s : AttachmentState) (a : AttachmentInfo) : AttachmentInfo :=
  mkAttachment (ai_id a) (ai_connection_id a) (ai_workspace_id a) (ai_terminal_id a) (ai_role a) (state_number s)
    (ai_created_at_unix_ms a).
Definition with_role (r : AttachmentRole) (a : AttachmentInfo) : AttachmentInfo :=
  mkAttachment (ai_id a) (ai_connection_id a) (ai_workspace_id a) (ai_terminal_id a) (role_number r) (ai_state a)
    (ai_created_at_unix_ms a).
Definition allowed_transition (current next : AttachmentState) : bool :=
  match current, next with
  | Subscribing, Snapshotting | Snapshotting, Live | Live, Snapshotting => true
  | _, _ => false
  end.

Definition set_attachment_state (attachment_id : string) (state : AttachmentState) (m : SessionManager)
    : result (gmap string AttachmentInfo) :=
  attachment ← ok_or (sm_attachments m !! attachment_id) "attachment is no longer active";
  current ← ok_or (state_try_from (ai_state attachment)) "attachment has invalid state";
  ensure! allowed_transition current state, "invalid attachment state transition";
  Ok (<[attachment_id := with_state state attachment]> (sm_attachments m)).
Definition set_attachment_role (attachment_id : string) (role : AttachmentRole) (m : SessionManager)
    : result (gmap string AttachmentInfo) :=
  attachment ← ok_or (sm_attachments m !! attachment_id) "attachment is no longer active";
  Ok (<[attachment_id := with_role role attachment]> (sm_attachments m)).

(** [ActiveAttachment::set_state] and [set_role]: the registry, then the handle. *)
Definition handle_set_state (handle : string) (state : AttachmentState) (m : SessionManager)
    : SessionManager * result unit :=
  match sm_handles m !! handle with
  | None => (m, Err "no such handle")
  | Some (info, rs) =>
      match set_attachment_state (ai_id info) state m with
      | Err e => (m, Err e)
      | Ok l => (set_attachments l (<[handle := (with_state state info, rs)]> (sm_handles m)) m, Ok tt)
      end
  end.
Definition handle_set_role (handle : string) (role : AttachmentRole) (m : SessionManager)
    : SessionManager * result unit :=
  match sm_handles m !! handle with
  | None => (m, Err "no such handle")
  | Some (info, rs) =>
      match set_attachment_role (ai_id info) role m with
      | Err e => (m, Err e)
      | Ok l => (set_attachments l (<[handle := (with_role role info, rs)]> (sm_handles m)) m, Ok tt)
      end
  end.
(** [ActiveAttachment::drop], then the drop of its reservation. *)
Definition handle_drop (handle : string) (m : SessionManager) : result SessionManager :=
  match sm_handles m !! handle with
  | None => Ok m
  | Some (info, rs) =>
      release rs (set_attachments (delete (ai_id info) (sm_attachments m)) (delete handle (sm_handles m)) m)
  end.

(** [sort_by_key] on the creation time and the identifier. *)
Definition attachment_le (a b : AttachmentInfo) : Prop :=
  ai_created_at_unix_ms a < ai_created_at_unix_ms b \/
  ai_created_at_unix_ms a = ai_created_at_unix_ms b /\ String.le (ai_id a) (ai_id b).
#[global] Instance attachment_le_dec a b : Decision (attachment_le a b).
Proof. unfold attachment_le. apply _. Defined.
Definition list_attachments (workspace_id terminal_id : string) (m : SessionManager)
    : result (list AttachmentInfo) :=
  _ ← workspace workspace_id m;
  _ ← (if bool_decide (terminal_id = "") then Ok tt
       else
         _ ← validate_uuid terminal_id;
         terminal ← ok_or (get_by_selector terminal_id m) "terminal does not exist";
         ensure! bool_decide (ti_workspace_id terminal = workspace_id), "terminal does not belong to workspace";
         Ok tt);
  Ok (merge_sort attachment_le
        (filter (fun a => ai_workspace_id a = workspace_id /\ (terminal_id = "" \/ ai_terminal_id a = terminal_id))
           ((map_to_list (sm_attachments m)).*2))).
End sessions.
