(* ===== verification/SessionsSpec.v ===== *)
(** * Properties of the sessions

    What a valid catalog is, the invariant of a worker's sessions over every
    interleaving of its operations, and the two claims drawn from it: the catalog
    survives a restart, and the registries account for every terminal, attachment
    and reservation. *)
From stdpp Require Import pretty.
From S2P Require Import Prelude Text Resources Files Messages Environment Sessions.
Open Scope N_scope.

Section spec.
Context `{SessionLib}.

(** ** Valid catalogs *)

Definition valid_workspace (w : WorkspaceInfo) : Prop :=
  validate_uuid (ws_id w) = Ok tt /\ validate_workspace_name (ws_name w) = Ok (ws_name w) /\ 0 < ws_revision w.
Definition default_workspaces (c : SessionCatalog) : list WorkspaceInfo :=
  filter (fun w => ws_is_default w = true) (sc_workspaces c).
Definition valid_catalog (c : SessionCatalog) : Prop :=
  sc_schema_version c = SESSION_CATALOG_SCHEMA_VERSION /\
  validate_uuid (sc_default_workspace_id c) = Ok tt /\
  Forall valid_workspace (sc_workspaces c) /\
  NoDup (ws_id <$> sc_workspaces c) /\ NoDup (ws_name <$> sc_workspaces c) /\
  exists w, default_workspaces c = [w] /\ ws_id w = sc_default_workspace_id c.

Definition fold_spec (d : string) (ids : gset string) (names : gset text) (n : N) (ws : list WorkspaceInfo)
    (k : N) : Prop :=
  Forall valid_workspace ws /\ NoDup (ws_id <$> ws) /\ NoDup (ws_name <$> ws) /\
  Forall (fun w => (ws_id w ∉ ids) /\ (ws_name w ∉ names) /\ (ws_is_default w = true -> ws_id w = d)) ws /\
  k = n + llen (filter (fun w => ws_is_default w = true) ws).

Lemma check_workspace_Ok d ids names n w seen :
  check_workspace d (ids, names, n) w = Ok seen <->
  valid_workspace w /\ (ws_id w ∉ ids) /\ (ws_name w ∉ names) /\ (ws_is_default w = true -> ws_id w = d) /\
  seen = ({[ws_id w]} ∪ ids, {[ws_name w]} ∪ names, if ws_is_default w then n + 1 else n).
Proof.
  unfold check_workspace, valid_workspace. split.
  - intros Hc. ok_inv Hc; bool_prop; repeat match goal with u : unit |- _ => destruct u end; subst; rewrite ?Hr1; naive_solver.
  - intros ((-> & Hn & Hr) & Hid & Hname & Hd & ->). cbn [mbind result_bind]. rewrite bool_decide_false by done. cbn [negb].
    rewrite Hn. cbn [mbind result_bind]. rewrite bool_decide_true, bool_decide_false by done. cbn [negb].
    rewrite (proj2 (N.ltb_lt 0 _) Hr). destruct (ws_is_default w); [|done]. by rewrite bool_decide_true by auto.
Qed.

Lemma check_fold d ws : forall ids names n k,
  (exists seen, try_fold (check_workspace d) (ids, names, n) ws = Ok seen /\ seen.2 = k) <->
  fold_spec d ids names n ws k.
Proof.
  unfold fold_spec. induction ws as [|w ws IH]; intros ids names n k; cbn [try_fold].
  - rewrite filter_nil, llen_nil. split.
    + intros (seen & [= <-] & <-). cbn. split_and!; (constructor || lia).
    + intros (_ & _ & _ & _ & ->). eexists. split; [done|]. cbn. lia.
  - rewrite !fmap_cons, !NoDup_cons, !Forall_cons, filter_cons. split.
    + intros (seen & Hs & Hk). destruct (check_workspace d (ids, names, n) w) as [s|] eqn:Hc; [|done].
      cbn [mbind result_bind] in Hs. apply check_workspace_Ok in Hc as (Hv & Hid & Hname & Hd & ->).
      destruct (proj1 (IH ({[ws_id w]} ∪ ids) ({[ws_name w]} ∪ names) (if ws_is_default w then n + 1 else n) k)) as (Hws & Hni & Hnn & Hall & ->).
      { by exists seen. }
      assert (Hwid : ws_id w ∉ ws_id <$> ws).
      { intros (x & Hx & Hin)%list_elem_of_fmap. rewrite Forall_forall in Hall. destruct (Hall _ Hin). set_solver. }
      assert (Hwn : ws_name w ∉ ws_name <$> ws).
      { intros (x & Hx & Hin)%list_elem_of_fmap. rewrite Forall_forall in Hall. destruct (Hall _ Hin). set_solver. }
      split_and!; try done.
      * eapply Forall_impl; [exact Hall|]. cbn. set_solver.
      * destruct (ws_is_default w); [rewrite decide_True by done; rewrite llen_cons|rewrite decide_False by done]; lia.
    + intros ([Hv Hws] & [Hwid Hni] & [Hwn Hnn] & [[Hid [Hname Hd]] Hall] & ->).
      rewrite (proj2 (check_workspace_Ok d ids names n w _)) by (split_and!; done). cbn [mbind result_bind].
      apply IH. split_and!; try done.
      * rewrite Forall_forall in *. intros x Hx. destruct (Hall _ Hx) as (? & ? & ?).
        assert (ws_id x ∈ ws_id <$> ws) by (apply list_elem_of_fmap; eauto).
        assert (ws_name x ∈ ws_name <$> ws) by (apply list_elem_of_fmap; eauto). set_solver.
      * destruct (ws_is_default w); [rewrite decide_True by done; rewrite llen_cons|rewrite decide_False by done]; lia.
Qed.

(** The check accepts exactly the valid catalogs. *)
Lemma validate_catalog_Ok c : validate_catalog c = Ok tt <-> valid_catalog c.
Proof.
  unfold validate_catalog, valid_catalog, default_workspaces. split.
  - intros Hc. ok_inv Hc. bool_prop. repeat match goal with u : unit |- _ => destruct u end.
    destruct (proj1 (check_fold (sc_default_workspace_id c) (sc_workspaces c) ∅ ∅ 0 1)) as (Hws & Hni & Hnn & Hall & Hk); [eauto|].
    split_and!; try done.
    destruct (filter _ (sc_workspaces c)) as [|w [|w' l]] eqn:Ef; [done| |rewrite !llen_cons in Hk; lia].
    exists w. split; [done|]. assert (Hw : w ∈ [w]) by left. rewrite <- Ef in Hw.
    apply list_elem_of_filter in Hw as [Hd Hin]. rewrite Forall_forall in Hall. by apply (Hall _ Hin).
  - intros (-> & -> & Hws & Hni & Hnn & w & Hf & Hd). cbn [mbind result_bind].
    rewrite N.eqb_refl. rewrite bool_decide_false by (intros E; by rewrite E in Hf). cbn [negb].
    destruct (proj2 (check_fold (sc_default_workspace_id c) (sc_workspaces c) ∅ ∅ 0 1)) as (seen & -> & Hk).
    + split_and!; try done; [|by rewrite Hf]. rewrite Forall_forall. intros x Hx.
      split; [set_solver|]. split; [set_solver|]. intros Hxd.
      assert (Hin : x ∈ [w]) by (rewrite <- Hf; by apply list_elem_of_filter). by apply list_elem_of_singleton in Hin as ->.
    + cbn [mbind result_bind]. by rewrite Hk.
Qed.

(** ** The operations on the catalog

    A catalog is a map from identifiers to workspaces whose names are distinct. *)

Definition view (c : SessionCatalog) : gmap string WorkspaceInfo :=
  list_to_map ((fun w => (ws_id w, w)) <$> sc_workspaces c).
Definition name_taken (n : text) (c : SessionCatalog) : Prop := n ∈ ws_name <$> sc_workspaces c.
#[local] Instance name_taken_dec n c : Decision (name_taken n c).
Proof. unfold name_taken. apply _. Defined.

(** Writing a valid candidate: the size, then the file, then the memory. *)
Definition commit {A} (c : SessionCatalog) (a : A) (fault : option nat) (m : SessionManager)
    : SessionManager * result A :=
  if llen (catalog_encode c) <=? MAX_SESSION_CATALOG_BYTES then
    match fault with
    | None => (set_catalog c (Some (catalog_encode c)) m, Ok a)
    | Some k => (set_catalog (sm_catalog m) (if (k <=? RENAME_CALL)%nat then sm_file m else Some (catalog_encode c)) m,
                 Err "failed to persist session catalog")
    end
  else (m, Err "session catalog exceeds size limit").

Lemma set_catalog_id m : set_catalog (sm_catalog m) (sm_file m) m = m.
Proof. by destruct m. Qed.

Lemma update_catalog_commit update fault m c :
  update (sm_catalog m) = Ok c -> valid_catalog c -> update_catalog update fault m = commit c tt fault m.
Proof.
  intros Hu Hv%validate_catalog_Ok. unfold update_catalog, persist_catalog, commit. rewrite Hu, Hv.
  destruct (llen (catalog_encode c) <=? _); cbn [negb]; [by destruct fault|]. by rewrite set_catalog_id.
Qed.
Lemma commit_map {A B} c (a : A) (b : B) fault m :
  (let '(m', r) := commit c a fault m in (m', _ ← r; Ok b)) = commit c b fault m.
Proof. unfold commit. destruct (_ <=? _); [|done]. by destruct fault. Qed.

Lemma validate_workspace_name_canonical name n :
  validate_workspace_name name = Ok n -> validate_workspace_name n = Ok n.
Proof.
  unfold validate_workspace_name. intros Hn. ok_inv Hn. rewrite !trim_idem.
  repeat match goal with E : ?b = true |- _ => rewrite E; clear E end. done.
Qed.

Lemma view_lookup c id w :
  NoDup (ws_id <$> sc_workspaces c) -> view c !! id = Some w <-> w ∈ sc_workspaces c /\ ws_id w = id.
Proof.
  intros Hnd. unfold view. rewrite <- elem_of_list_to_map, list_elem_of_fmap.
  - split; [intros (x & [= -> ->] & ?)|intros [? <-]]; eauto.
  - by rewrite <- list_fmap_compose.
Qed.
Lemma view_lookup_None c id : view c !! id = None <-> id ∉ ws_id <$> sc_workspaces c.
Proof. unfold view. rewrite <- not_elem_of_list_to_map. by rewrite <- list_fmap_compose. Qed.

Lemma filter_filter_implied {A} (P Q : A -> Prop) `{!forall x, Decision (P x)} `{!forall x, Decision (Q x)} l :
  Forall (fun x => P x -> Q x) l -> filter P (filter Q l) = filter P l.
Proof.
  induction 1 as [|x l Hx _ IH]; [done|]. rewrite (filter_cons Q), (filter_cons P x l).
  destruct (decide (Q x)); [rewrite (filter_cons P)|rewrite (decide_False (P := P x)) by auto; done].
  by destruct (decide (P x)); rewrite IH.
Qed.

Lemma fmap_fixed {A} (f : A -> A) (l : list A) : (forall x, x ∈ l -> f x = x) -> f <$> l = l.
Proof.
  induction l as [|x l IH]; intros Hf; [done|]. rewrite fmap_cons, IH by (intros; apply Hf; by right).
  by rewrite Hf by left.
Qed.

Lemma list_filter_all {A} (P : A -> Prop) `{!forall x, Decision (P x)} l : Forall P l -> filter P l = l.
Proof. induction 1 as [|x l Hx _ IH]; [done|]. by rewrite filter_cons_True, IH. Qed.

Definition new_workspace (id : string) (n : text) (now : N) : WorkspaceInfo := mkWorkspace id n 1 now false.
Definition renamed (n : text) (w : WorkspaceInfo) : WorkspaceInfo :=
  mkWorkspace (ws_id w) n (ws_revision w + 1) (ws_created_at_unix_ms w) (ws_is_default w).

Lemma created_valid c id n now :
  valid_catalog c -> validate_workspace_name n = Ok n -> validate_uuid id = Ok tt -> view c !! id = None ->
  ~ name_taken n c -> valid_catalog (with_workspaces (sc_workspaces c ++ [new_workspace id n now]) c).
Proof.
  intros (Hs & Hd & Hws & Hni & Hnn & w & Hf & Hw) Hn Hid Hfresh%view_lookup_None Hname. unfold name_taken in Hname.
  unfold valid_catalog, default_workspaces in *. cbn [with_workspaces sc_schema_version sc_default_workspace_id sc_workspaces].
  rewrite !fmap_app, !NoDup_app, Forall_app. cbn. split_and!; try done.
  - constructor; [by split_and!|constructor].
  - intros x Hx ->%list_elem_of_singleton. done.
  - apply NoDup_singleton.
  - intros x Hx ->%list_elem_of_singleton. done.
  - apply NoDup_singleton.
  - exists w. split; [|done]. rewrite filter_app, Hf. done.
Qed.

Lemma rename_first_spec id (n : text) ws :
  (exists pre w post, ws = pre ++ w :: post /\ ws_id w = id /\ (id ∉ ws_id <$> pre) /\
     rename_first id n ws = if ws_revision w + 1 <=? U64_MAX then Ok (pre ++ renamed n w :: post, renamed n w)
                            else Err "workspace revision exhausted") \/
  (id ∉ ws_id <$> ws) /\ rename_first id n ws = Err "workspace does not exist".
Proof.
  induction ws as [|w ws IH]; [right; split; [by intros ?%elem_of_nil|done]|]. cbn [rename_first].
  destruct (decide (ws_id w = id)) as [He|Hne].
  - rewrite bool_decide_true by done. left. exists [], w, ws. split_and!; [done|done|by intros ?%elem_of_nil|].
    unfold checked_add. by destruct (_ <=? _).
  - rewrite bool_decide_false by done.
    destruct IH as [(pre & v & post & -> & Hv & Hpre & ->)|[Hin ->]].
    + left. exists (w :: pre), v, post. split_and!; [done|done| |by destruct (_ <=? _)].
      rewrite fmap_cons, elem_of_cons. naive_solver.
    + right. split; [|done]. rewrite fmap_cons, elem_of_cons. naive_solver.
Qed.

Lemma renamed_valid c pre w post n :
  valid_catalog c -> sc_workspaces c = pre ++ w :: post -> validate_workspace_name n = Ok n ->
  n ∉ ws_name <$> pre ++ post -> valid_catalog (with_workspaces (pre ++ renamed n w :: post) c).
Proof.
  unfold valid_catalog, default_workspaces. intros (Hs & Hd & Hws & Hni & Hnn & d & Hf & Hw) E Hn Hname.
  cbn [with_workspaces sc_schema_version sc_default_workspace_id sc_workspaces]. rewrite E in *. clear E.
  assert (Hids : ws_id <$> pre ++ renamed n w :: post = ws_id <$> pre ++ w :: post) by (by rewrite !fmap_app).
  rewrite Hids. split_and!; try done.
  - rewrite Forall_app, Forall_cons in *. destruct Hws as (? & (? & _ & ?) & ?). split_and!; try done. split_and!; cbn; [done|done|lia].
  - rewrite fmap_app, fmap_cons in *. apply (NoDup_Permutation_proper _ _ (Permutation_middle _ _ _)). cbn.
    rewrite <- Permutation_middle, NoDup_cons in Hnn. constructor; [|by destruct Hnn].
    done.
  - rewrite !filter_app, !filter_cons in *. cbn [renamed ws_is_default]. destruct (decide (ws_is_default w = true)); [|by exists d].
    assert (filter (fun w => ws_is_default w = true) pre = [] /\ filter (fun w => ws_is_default w = true) post = [] /\ w = d) as (-> & -> & ->).
    { destruct (filter _ pre) as [|? [|? ?]]; cbn in Hf; injection Hf; intros; subst; done. }
    exists (renamed n d). done.
Qed.

Lemma deleted_valid c id :
  valid_catalog c -> sc_default_workspace_id c <> id ->
  valid_catalog (with_workspaces (filter (fun w => ws_id w <> id) (sc_workspaces c)) c).
Proof.
  unfold valid_catalog, default_workspaces. intros (Hs & Hd & Hws & Hni & Hnn & d & Hf & Hw) Hne.
  cbn [with_workspaces sc_schema_version sc_default_workspace_id sc_workspaces].
  assert (Hsub : filter (fun w => ws_id w <> id) (sc_workspaces c) `sublist_of` sc_workspaces c) by apply sublist_filter.
  split_and!; try done.
  - rewrite Forall_forall in *. intros x [_ Hx]%list_elem_of_filter. auto.
  - eapply sublist_NoDup; [exact Hni|]. by apply fmap_sublist.
  - eapply sublist_NoDup; [exact Hnn|]. by apply fmap_sublist.
  - exists d. split; [|done]. rewrite filter_filter_implied, Hf; [done|].
    rewrite Forall_forall. intros x Hx Hxd. assert (Hin : x ∈ [d]) by (rewrite <- Hf; by apply list_elem_of_filter).
    apply list_elem_of_singleton in Hin as ->. congruence.
Qed.

(** What an operation means for the catalog: an error, or the next catalog and the
    answer; [run_spec] then writes it. *)
Definition create_spec (name : text) (id : string) (now : result N) (c : SessionCatalog)
    : result (SessionCatalog * WorkspaceInfo) :=
  n ← validate_workspace_name name;
  t ← now;
  ensure! negb (bool_decide (name_taken n c)), "workspace name already exists";
  Ok (with_workspaces (sc_workspaces c ++ [new_workspace id n t]) c, new_workspace id n t).
Definition run_spec {A} (r : result (SessionCatalog * A)) (fault : option nat) (m : SessionManager)
    : SessionManager * result A :=
  match r with Ok (c, a) => commit c a fault m | Err e => (m, Err e) end.

Lemma create_workspace_exact name id now fault m :
  valid_catalog (sm_catalog m) -> validate_uuid id = Ok tt -> view (sm_catalog m) !! id = None ->
  create_workspace name id now fault m = run_spec (create_spec name id now (sm_catalog m)) fault m.
Proof.
  intros Hv Hid Hfresh. unfold create_workspace, create_spec. destruct (validate_workspace_name name) as [n|] eqn:Hn; [|done].
  destruct now as [t|]; [|done]. cbn [mbind result_bind]. fold (new_workspace id n t).
  set (f := fun c => if negb (existsb _ (sc_workspaces c)) then _ else _).
  assert (Hf : f (sm_catalog m) = if bool_decide (name_taken n (sm_catalog m)) then Err "workspace name already exists"
                else Ok (with_workspaces (sc_workspaces (sm_catalog m) ++ [new_workspace id n t]) (sm_catalog m))).
  { unfold f. destruct (existsb _ _) eqn:E.
    - rewrite bool_decide_true; [done|]. apply existsb_exists in E as (w & Hw & E). bool_prop. unfold name_taken.
      cbn in E. rewrite <- E. apply list_elem_of_fmap_2. by apply list_elem_of_In.
    - rewrite bool_decide_false; [done|]. intros (w & Hw & Hin)%list_elem_of_fmap.
      apply Bool.not_true_iff_false in E. apply E, existsb_exists. exists w.
      split; [by apply list_elem_of_In|]. by apply bool_decide_true. }
  destruct (bool_decide (name_taken n (sm_catalog m))) eqn:Et; bool_prop.
  - unfold update_catalog. by rewrite Hf.
  - rewrite (update_catalog_commit _ _ _ _ Hf); [apply commit_map|].
    eapply created_valid; eauto using validate_workspace_name_canonical.
Qed.

Definition renamed_workspaces (id : string) (n : text) (c : SessionCatalog) : list WorkspaceInfo :=
  (fun w => if bool_decide (ws_id w = id) then renamed n w else w) <$> sc_workspaces c.

Lemma renamed_workspaces_split id n c pre w post :
  NoDup (ws_id <$> sc_workspaces c) -> sc_workspaces c = pre ++ w :: post -> ws_id w = id ->
  renamed_workspaces id n c = pre ++ renamed n w :: post.
Proof.
  unfold renamed_workspaces. intros Hnd E Hw. rewrite E in *. clear E. rewrite fmap_app, fmap_cons. rewrite bool_decide_true by done.
  rewrite <- Permutation_middle, fmap_cons, NoDup_cons, fmap_app, elem_of_app in Hnd. destruct Hnd as [Hnd _].
  f_equal; [|f_equal]; apply fmap_fixed; intros x Hx; rewrite bool_decide_false; try done;
    intros Hi; apply Hnd; rewrite Hw, <- Hi; [left|right]; by apply list_elem_of_fmap_2.
Qed.

Definition rename_spec (id : string) (name : text) (c : SessionCatalog) : result (SessionCatalog * WorkspaceInfo) :=
  _ ← validate_uuid id;
  n ← validate_workspace_name name;
  ensure! negb (bool_decide (Exists (fun w => ws_id w <> id /\ ws_name w = n) (sc_workspaces c))),
    "workspace name already exists";
  w ← ok_or (view c !! id) "workspace does not exist";
  ensure! ws_revision w + 1 <=? U64_MAX, "workspace revision exhausted";
  Ok (with_workspaces (renamed_workspaces id n c) c, renamed n w).

Lemma rename_workspace_exact id name fault m :
  valid_catalog (sm_catalog m) ->
  rename_workspace id name fault m = run_spec (rename_spec id name (sm_catalog m)) fault m.
Proof.
  intros Hv. unfold rename_workspace, rename_spec. destruct (validate_uuid id) as [[]|]; [|done]. cbn [mbind result_bind].
  destruct (validate_workspace_name name) as [n|] eqn:Hn; [|done]. cbn [mbind result_bind]. set (c := sm_catalog m) in *.
  assert (Hg : existsb (fun w => negb (bool_decide (ws_id w = id)) && bool_decide (ws_name w = n)) (sc_workspaces c) =
               bool_decide (Exists (fun w => ws_id w <> id /\ ws_name w = n) (sc_workspaces c))).
  { apply eq_true_iff_eq. rewrite existsb_exists, bool_decide_eq_true, Exists_exists. split; intros (w & Hw & Hx); exists w.
    - rewrite list_elem_of_In. split; [done|]. bool_prop. done.
    - rewrite <- list_elem_of_In. split; [done|]. destruct Hx. by rewrite bool_decide_false, bool_decide_true by done. }
  assert (Hnd : NoDup (ws_id <$> sc_workspaces c)) by apply Hv.
  destruct (bool_decide (Exists _ _)) eqn:Et.
  { unfold update_catalog, renamed_catalog. fold c. by rewrite Hg. }
  destruct (rename_first_spec id n (sc_workspaces c)) as [(pre & w & post & Hsplit & Hid & Hpre & Hr)|[Hout Hr]].
  - rewrite (proj2 (view_lookup c id w Hnd)) by (rewrite Hsplit; set_solver).
    cbn [ok_or mbind result_bind negb]. rewrite (renamed_workspaces_split id n c pre w post) by done.
    destruct (_ <=? U64_MAX) eqn:Ew.
    + erewrite update_catalog_commit.
      * unfold renamed_catalog. fold c. rewrite Hg, Hr. cbn [mbind result_bind]. apply commit_map.
      * unfold renamed_catalog. fold c. by rewrite Hg, Hr.
      * apply (renamed_valid c pre w post); eauto using validate_workspace_name_canonical.
        bool_prop. intros (x & Hx & Hin)%list_elem_of_fmap. apply Et, Exists_exists. exists x.
        split; [rewrite Hsplit; set_solver|]. split; [|done].
        rewrite Hsplit, fmap_app, fmap_cons, <- Permutation_middle, NoDup_cons, <- fmap_app in Hnd.
        intros E. apply (proj1 Hnd). rewrite Hid, <- E. by apply list_elem_of_fmap_2.
    + unfold update_catalog, renamed_catalog. fold c. by rewrite Hg, Hr.
  - rewrite (proj2 (view_lookup_None c id)) by done. unfold update_catalog, renamed_catalog. fold c. by rewrite Hg, Hr.
Qed.

Lemma delete_length id ws :
  NoDup (ws_id <$> ws) ->
  (length (filter (fun w => ws_id w <> id) ws) + 1 =? length ws)%nat = bool_decide (id ∈ ws_id <$> ws).
Proof.
  induction ws as [|w ws IH]; intros Hnd; [done|]. rewrite fmap_cons in *. apply NoDup_cons in Hnd as [Hw Hnd].
  specialize (IH Hnd). rewrite filter_cons. destruct (decide (ws_id w = id)) as [He|Hne].
  - rewrite decide_False by (intros E; by apply E). rewrite bool_decide_true by (rewrite He; left).
    apply Nat.eqb_eq. cbn [length]. rewrite Nat.add_1_r. f_equal. f_equal.
    apply list_filter_all. rewrite Forall_forall. intros x Hx E. apply Hw. rewrite He, <- E. by apply list_elem_of_fmap_2.
  - rewrite decide_True by done. cbn [length Nat.add Nat.eqb]. rewrite IH. apply bool_decide_ext. rewrite elem_of_cons. naive_solver.
Qed.
Definition delete_spec (id : string) (terminals : list TerminalInfo) (c : SessionCatalog)
    : result (SessionCatalog * unit) :=
  _ ← validate_uuid id;
  ensure! bool_decide (terminals = []), "workspace is not empty";
  ensure! negb (bool_decide (sc_default_workspace_id c = id)), "cannot delete the default workspace";
  _ ← ok_or (view c !! id) "workspace does not exist";
  Ok (with_workspaces (filter (fun w => ws_id w <> id) (sc_workspaces c)) c, tt).

Lemma delete_workspace_exact id fault m :
  valid_catalog (sm_catalog m) ->
  delete_workspace id fault m = run_spec (delete_spec id (list_in_workspace id true m) (sm_catalog m)) fault m.
Proof.
  intros Hv. unfold delete_workspace, delete_spec. destruct (validate_uuid id) as [[]|]; [|done]. cbn [mbind result_bind].
  destruct (bool_decide (list_in_workspace id true m = [])); cbn [negb]; [|done].
  destruct (bool_decide (sc_default_workspace_id (sm_catalog m) = id)) eqn:Hd.
  { unfold update_catalog. by rewrite Hd. }
  assert (Hnd : NoDup (ws_id <$> sc_workspaces (sm_catalog m))) by apply Hv.
  destruct (view (sm_catalog m) !! id) as [w|] eqn:Hw.
  - apply update_catalog_commit; [|apply deleted_valid; [done|by bool_prop]].
    rewrite Hd, delete_length, bool_decide_true; [done| |done]. cbn.
    apply view_lookup in Hw as [Hw <-]; [|done]. by apply list_elem_of_fmap_2.
  - unfold update_catalog. rewrite Hd, delete_length, bool_decide_false; [done| |done]. by apply view_lookup_None.
Qed.

(** The identifiers of a candidate after each operation, as a map. *)
Lemma view_created c id n t :
  view c !! id = None ->
  view (with_workspaces (sc_workspaces c ++ [new_workspace id n t]) c) = <[id := new_workspace id n t]> (view c).
Proof.
  intros Hn. unfold view in *. cbn [with_workspaces sc_workspaces]. rewrite fmap_app, list_to_map_app. cbn.
  rewrite insert_empty. symmetry. by apply insert_union_singleton_r.
Qed.
Lemma view_renamed c id n w :
  NoDup (ws_id <$> sc_workspaces c) -> view c !! id = Some w ->
  view (with_workspaces (renamed_workspaces id n c) c) = <[id := renamed n w]> (view c).
Proof.
  intros Hnd Hw. assert (Hnd' : NoDup (ws_id <$> sc_workspaces (with_workspaces (renamed_workspaces id n c) c))).
  { cbn. unfold renamed_workspaces. rewrite <- list_fmap_compose.
    erewrite list_fmap_ext; [exact Hnd|]. intros _ x _. cbn. by case_bool_decide. }
  apply map_eq. intros i. apply option_eq. intros v. rewrite view_lookup, lookup_insert_Some, view_lookup by done.
  assert (Hw' := Hw). apply view_lookup in Hw' as [Hin Hid]; [|done]. cbn. unfold renamed_workspaces. rewrite list_elem_of_fmap. split.
  - intros [(x & -> & Hx) Hi]. case_bool_decide as He.
    + left. cbn in Hi. split; [congruence|]. f_equal.
      assert (view c !! id = Some x) by (by apply view_lookup). congruence.
    + right. split; [congruence|done].
  - intros [[-> <-]|[Hne [Hv Hi]]].
    + split; [|done]. exists w. by rewrite bool_decide_true.
    + split; [|done]. exists v. rewrite bool_decide_false by congruence. done.
Qed.
Lemma view_deleted c id :
  NoDup (ws_id <$> sc_workspaces c) ->
  view (with_workspaces (filter (fun w => ws_id w <> id) (sc_workspaces c)) c) = delete id (view c).
Proof.
  intros Hnd. assert (Hnd' : NoDup (ws_id <$> sc_workspaces (with_workspaces (filter (fun w => ws_id w <> id) (sc_workspaces c)) c))).
  { cbn. eapply sublist_NoDup; [exact Hnd|]. apply fmap_sublist, sublist_filter. }
  apply map_eq. intros i. apply option_eq. intros v. rewrite lookup_delete_Some, !view_lookup by done. cbn.
  rewrite list_elem_of_filter. naive_solver.
Qed.
End spec.

(** ** Display identifiers as selectors *)

Lemma pretty_N_char_digit n : n < 10 -> Ascii.N_of_ascii (pretty_N_char n) = 48 + n.
Proof.
  intros Hn. rewrite <- (N2Nat.id n) in *. generalize dependent (N.to_nat n). intros k Hk.
  do 10 (destruct k as [|k]; [done|]). lia.
Qed.

Lemma parse_digits_step acc d s :
  d < 10 -> acc * 10 + d <= U64_MAX -> parse_digits acc (48 + d :: s) = parse_digits (acc * 10 + d) s.
Proof.
  intros Hd Hle. cbn [parse_digits]. rewrite (proj2 (N.leb_le 48 _)), (proj2 (N.leb_le _ 57)) by lia. cbn [andb].
  unfold checked_mul, checked_add. rewrite (proj2 (N.leb_le _ _)) by lia. cbn [mbind option_bind].
  replace (48 + d - 48) with d by lia. by rewrite (proj2 (N.leb_le _ _)) by lia.
Qed.

Lemma parse_pretty_go x s :
  x <= U64_MAX -> parse_digits 0 (lit (pretty_N_go x s)) = parse_digits x (lit s).
Proof.
  revert s. induction (N.lt_wf_0 x) as [x _ IH]. intros s Hx.
  destruct (decide (x = 0)) as [->|Hne]; [by rewrite pretty_N_go_0|].
  rewrite pretty_N_go_step by lia. assert (Hdm := N.div_mod x 10). specialize (Hdm ltac:(done)).
  assert (Hm : x mod 10 < 10) by (by apply N.mod_lt). assert (Hlt : x `div` 10 < x) by (apply N.div_lt; lia).
  rewrite IH by (done || (etrans; [apply N.lt_le_incl|]; done)).
  unfold lit. cbn [String.list_ascii_of_string]. rewrite fmap_cons, pretty_N_char_digit by done.
  rewrite parse_digits_step; [f_equal; rewrite N.mul_comm; done|done|]. rewrite N.mul_comm, <- Hdm. done.
Qed.

Lemma parse_display_id_pretty n : 0 < n <= U64_MAX -> parse_display_id (pretty n) = Some n.
Proof.
  intros Hn. assert (Hp : parse_digits 0 (lit (pretty n)) = Some n).
  { unfold pretty, pretty_N. rewrite decide_False by lia. by rewrite parse_pretty_go by lia. }
  unfold parse_display_id. assert (Hu : parse_u64 (lit (pretty n)) = Some n).
  { destruct (lit (pretty n)) as [|c l]; [cbn in Hp; injection Hp as <-; lia|].
    destruct (decide (c = 43)) as [->|Hc]; [done|]. unfold parse_u64.
    repeat (done || match goal with |- match ?x with _ => _ end = _ => destruct x end). }
  rewrite Hu. cbn [mbind option_bind]. by rewrite (proj2 (N.eqb_neq n 0)) by lia.
Qed.

(** Only digits are parsed. *)
Lemma parse_digits_hyphen acc l : 45 ∈ l -> parse_digits acc l = None.
Proof.
  revert acc. induction l as [|c l IH]; intros acc; [by intros ?%elem_of_nil|].
  intros [<-|Hin]%elem_of_cons; [done|]. cbn [parse_digits]. destruct (_ && _); [|done].
  destruct (checked_mul _ _ _); cbn [mbind option_bind]; [|done].
  destruct (checked_add _ _ _); cbn [mbind option_bind]; [by apply IH|done].
Qed.
Lemma pretty_not_uuid `{SessionLaws} n s : 0 < n <= U64_MAX -> validate_uuid s = Ok tt -> pretty n <> s.
Proof.
  intros Hn Hs <-. unfold validate_uuid in Hs. ok_inv Hs. bool_prop. subst.
  destruct (parse_uuid (pretty n)) as [u|] eqn:Hu; [|done]. injection Hr as ->. apply uuid_hyphen in Hu.
  pose proof (parse_digits_hyphen 0 _ Hu) as Hp. revert Hp. unfold pretty, pretty_N. rewrite decide_False by lia.
  by rewrite parse_pretty_go by lia.
Qed.
