(* ===== verification/SessionsInv.v ===== *)
(** * The invariant of a worker's sessions

    Requests are handled concurrently: every operation of [Sessions] is a step, in
    any order, beside the reservations that other parts of the worker take from the
    same account.  A spawn is two steps (the check of its workspace, then the
    terminal manager's work), since the code holds no lock between them. *)
From stdpp Require Import pretty.
From S2P Require Import Prelude Text Resources Files Messages Environment Sessions SessionsSpec.
Open Scope N_scope.

Section inv.
Context `{SessionLaws}.

(** ** Steps *)

(** A manager and the reservations of the account that others hold. *)
Abbreviation world := (SessionManager * list PoolReservation)%type.

Inductive session_step : world -> world -> Prop :=
| step_create m o name id now fault :
    validate_uuid id = Ok tt -> view (sm_catalog m) !! id = None ->
    session_step (m, o) ((create_workspace name id now fault m).1, o)
| step_rename m o id name fault : session_step (m, o) ((rename_workspace id name fault m).1, o)
| step_delete m o id fault : session_step (m, o) ((delete_workspace id fault m).1, o)
| step_spawn m o request host :
    validate_uuid (ho_uuid host) = Ok tt ->
    sm_terminals m !! ho_uuid host = None -> sm_detached m !! ho_uuid host = None ->
    session_step (m, o) ((spawn_terminal request host m).1, o)
| step_exit m o id code : session_step (m, o) (terminal_exited id code m, o)
| step_remove m o id : session_step (m, o) (terminal_removed id m, o)
| step_terminal_dropped m o id m' : terminal_dropped id m = Ok m' -> session_step (m, o) (m', o)
| step_register m o connection terminal read_only id now :
    sm_handles m !! id = None ->
    session_step (m, o) ((register_attachment connection terminal read_only id now m).1, o)
| step_state m o handle state : session_step (m, o) ((handle_set_state handle state m).1, o)
| step_role m o handle role : session_step (m, o) ((handle_set_role handle role m).1, o)
| step_detach m o handle m' : handle_drop handle m = Ok m' -> session_step (m, o) (m', o)
| step_other_reserve m o claim s rs :
    account_reserve (sm_pools m) (sm_account m) claim = (s, Returned rs) ->
    session_step (m, o) (set_manager_pools s m, rs ++ o)
| step_other_drop m o rs rest s :
    o ≡ₚ rs ++ rest -> drop_reservations (sm_pools m) rs = Some s ->
    session_step (m, o) (set_manager_pools s m, rest).

Definition reservable (s : PoolStore) (a : ResourceAccount) (live : list PoolReservation) : Prop :=
  NoDup a /\ (forall id, id ∈ a -> is_Some (s !! id)) /\ pool_inv (mkPoolSystem s live).

Inductive session_reachable : world -> Prop :=
| reach_new root file id now fault account policy pools o file' m :
    validate_uuid id = Ok tt -> reservable pools account o ->
    with_resources root file true id now fault account policy pools = (file', Ok m) ->
    session_reachable (m, o)
| reach_step w w' : session_reachable w -> session_step w w' -> session_reachable w'.

Definition held (m : SessionManager) : list PoolReservation :=
  bag te_resources (sm_terminals m) ++ bag (fun rs => rs) (sm_detached m) ++ bag snd (sm_handles m).

(** ** The invariant *)

Definition catalog_inv (m : SessionManager) : Prop :=
  valid_catalog (sm_catalog m) /\
  exists b c, sm_file m = Some b /\ catalog_decode b = Some c /\ valid_catalog c /\
              llen b <= MAX_SESSION_CATALOG_BYTES.

Definition terminal_claim (c : ResourceClaim) : Prop := rc_terminals c = 1 /\ rc_attachments c = 0.
Definition terminal_wf (m : SessionManager) (id : string) (t : TerminalEntry) : Prop :=
  ti_id (te_info t) = id /\ validate_uuid id = Ok tt /\
  0 < ti_display_id (te_info t) < sm_next_display_id m /\
  claims (sm_account m) terminal_claim (te_resources t).
Definition terminals_inv (m : SessionManager) : Prop :=
  map_Forall (terminal_wf m) (sm_terminals m) /\
  (forall i j t u, sm_terminals m !! i = Some t -> sm_terminals m !! j = Some u ->
     ti_display_id (te_info t) = ti_display_id (te_info u) -> i = j) /\
  map_Forall (fun id rs => claims (sm_account m) terminal_claim rs /\ sm_terminals m !! id = None) (sm_detached m) /\
  sm_next_display_id m <= U64_MAX /\ 0 < sm_next_display_id m.

Definition attachment_wf (m : SessionManager) (id : string) (h : AttachmentInfo * list PoolReservation) : Prop :=
  ai_id h.1 = id /\ (exists s, s <> StateUnspecified /\ ai_state h.1 = state_number s) /\
  claims (sm_account m) (fun c => c = claim_attachment) h.2.
Definition attachments_inv (m : SessionManager) : Prop :=
  sm_attachments m = fst <$> sm_handles m /\ map_Forall (attachment_wf m) (sm_handles m).

Definition session_inv (w : world) : Prop :=
  catalog_inv w.1 /\ terminals_inv w.1 /\ attachments_inv w.1 /\
  reservable (sm_pools w.1) (sm_account w.1) (held w.1 ++ w.2).

(** *** The catalog *)

(** Only the catalog and its file change, and they stay valid. *)
Definition catalog_shape (m m' : SessionManager) : Prop :=
  exists c f, m' = set_catalog c f m /\ (catalog_inv m -> catalog_inv (set_catalog c f m)).

Lemma fst_let {A B C} (p : A * B) (f : B -> C) : (let '(a, b) := p in (a, f b)).1 = p.1.
Proof. by destruct p. Qed.
Lemma catalog_shape_refl m : catalog_shape m m.
Proof. exists (sm_catalog m), (sm_file m). by rewrite set_catalog_id. Qed.
Lemma update_catalog_shape update fault m : catalog_shape m (update_catalog update fault m).1.
Proof.
  unfold update_catalog, persist_catalog.
  destruct (update (sm_catalog m)) as [c|]; [|apply catalog_shape_refl].
  destruct (validate_catalog c) as [[]|] eqn:Hv; [|apply catalog_shape_refl]. apply validate_catalog_Ok in Hv.
  destruct (llen (catalog_encode c) <=? _) eqn:Hl; cbn [negb fst]; bool_prop;
    [|rewrite set_catalog_id; apply catalog_shape_refl].
  assert (Hfile : exists b c', Some (catalog_encode c) = Some b /\ catalog_decode b = Some c' /\ valid_catalog c' /\
              llen b <= MAX_SESSION_CATALOG_BYTES) by (eauto 10 using catalog_decode_encode).
  destruct fault as [k|]; cbn; eexists _, _; (split; [done|]); [intros [Hc Hf]; destruct (k <=? RENAME_CALL)%nat|intros _]; by split.
Qed.
Lemma create_workspace_shape name id now fault m : catalog_shape m (create_workspace name id now fault m).1.
Proof.
  unfold create_workspace. destruct (mbind _ _) as [w|]; [|apply catalog_shape_refl].
  rewrite fst_let. apply update_catalog_shape.
Qed.
Lemma rename_workspace_shape id name fault m : catalog_shape m (rename_workspace id name fault m).1.
Proof.
  unfold rename_workspace. destruct (mbind _ _) as [w|]; [|apply catalog_shape_refl].
  rewrite fst_let. apply update_catalog_shape.
Qed.
Lemma delete_workspace_shape id fault m : catalog_shape m (delete_workspace id fault m).1.
Proof.
  unfold delete_workspace. destruct (validate_uuid id) as [u|]; [|apply catalog_shape_refl].
  destruct (negb _); [apply catalog_shape_refl|apply update_catalog_shape].
Qed.
Lemma session_inv_catalog m m' o : catalog_shape m m' -> session_inv (m, o) -> session_inv (m', o).
Proof. intros (c & f & -> & Hc) (? & ? & ? & ?). split_and!; [by apply Hc|done..]. Qed.

(** *** Reservations *)

Lemma set_pools_id m : set_manager_pools (sm_pools m) m = m.
Proof. by destruct m. Qed.

Lemma reserve_session_inv claim m live :
  reservable (sm_pools m) (sm_account m) live ->
  match reserve_session claim m with
  | (m', Ok rs) => rs = (fun id => mkReservation id claim) <$> sm_account m /\
      exists s, m' = set_manager_pools s m /\ reservable s (sm_account m) (rs ++ live)
  | (m', Err e) => m' = m /\ e <> PANIC
  end.
Proof.
  intros (Hnd & Hex & Hp). unfold reserve_session.
  pose proof (account_reserve_inv (sm_pools m) (sm_account m) claim live Hnd Hex Hp) as Hi.
  pose proof (account_reserve_spec (sm_pools m) (sm_account m) claim Hnd Hex) as Hs.
  destruct (account_reserve _ _ _) as [s [rs|q|]]; cbn in Hs; [|subst s; by rewrite set_pools_id|done].
  destruct Hi as [Hi Hdom]. split; [by destruct Hs|]. exists s. split; [done|]. split_and!; [done| |done].
  intros id Hid. by apply Hdom, Hex.
Qed.
Lemma release_inv rs m live :
  reservable (sm_pools m) (sm_account m) (rs ++ live) ->
  exists s, release rs m = Ok (set_manager_pools s m) /\ reservable s (sm_account m) live.
Proof.
  intros (Hnd & Hex & Hp). destruct (drop_reservations_inv _ _ _ Hp) as (s & Hs & Hi & Hdom).
  exists s. unfold release. rewrite Hs. split; [done|]. split_and!; [done| |done]. intros id Hid. by apply Hdom, Hex.
Qed.
Lemma fail_released_inv {A} rs e m live :
  reservable (sm_pools m) (sm_account m) (rs ++ live) ->
  exists s, @fail_released A rs e m = (set_manager_pools s m, Err e) /\ reservable s (sm_account m) live.
Proof. intros (s & Hs & Hr)%release_inv. exists s. unfold fail_released. by rewrite Hs. Qed.
Lemma reservable_perm s a l l' : l ≡ₚ l' -> reservable s a l -> reservable s a l'.
Proof. intros Hp (? & ? & ?). split_and!; [done..|]. by eapply pool_inv_perm. Qed.

(** Only the pools change. *)
Lemma session_inv_pools m o s o' :
  session_inv (m, o) -> reservable s (sm_account m) (held m ++ o') -> session_inv (set_manager_pools s m, o').
Proof. intros (? & ? & ? & _) ?. by split_and!. Qed.

(** *** Terminals *)

Lemma terminals_inv_insert m id t :
  terminals_inv m -> validate_uuid id = Ok tt -> sm_terminals m !! id = None -> sm_detached m !! id = None ->
  ti_id (te_info t) = id -> ti_display_id (te_info t) = sm_next_display_id m ->
  claims (sm_account m) terminal_claim (te_resources t) -> sm_next_display_id m + 1 <= U64_MAX ->
  terminals_inv (set_terminals (<[id := t]> (sm_terminals m)) (set_next_display_id (sm_next_display_id m + 1) m)).
Proof.
  intros (Hwf & Hinj & Hdet & Hmax & Hpos) Hu Hn Hd Hid Hdisp Hcl Hle.
  assert (Hlt : forall i u, sm_terminals m !! i = Some u -> ti_display_id (te_info u) < sm_next_display_id m)
    by (intros i u Hi; by apply (Hwf i u)).
  unfold terminals_inv. cbn. split_and!; try lia.
  - apply map_Forall_insert_2.
    + unfold terminal_wf. cbn. rewrite Hdisp. split_and!; try done; lia.
    + intros i u Hi. destruct (Hwf i u Hi) as (? & ? & ? & ?). unfold terminal_wf. cbn. split_and!; try done; lia.
  - intros i j u v [[<- <-]|[Hi Hui]]%lookup_insert_Some [[<- <-]|[Hj Hvj]]%lookup_insert_Some Heq; try done.
    + specialize (Hlt _ _ Hvj). lia.
    + specialize (Hlt _ _ Hui). lia.
    + by eapply Hinj.
  - intros i rs Hi. destruct (Hdet i rs Hi) as [? ?]. split; [done|]. rewrite lookup_insert_ne by congruence. done.
Qed.

Lemma terminals_inv_next m n :
  terminals_inv m -> sm_next_display_id m <= n <= U64_MAX -> terminals_inv (set_next_display_id n m).
Proof.
  intros (Hwf & Hinj & Hdet & Hmax & Hpos) Hn. unfold terminals_inv. cbn. split_and!; try done; try lia.
  intros i u Hi. destruct (Hwf i u Hi) as (? & ? & ? & ?). unfold terminal_wf. cbn. split_and!; try done; lia.
Qed.

Lemma claim_terminal_wf rows cols policy claim : claim_terminal rows cols policy = Ok claim -> terminal_claim claim.
Proof. unfold claim_terminal. intros Hc. ok_inv Hc. done. Qed.

Lemma spawn_terminal_inv m o request host :
  session_inv (m, o) -> validate_uuid (ho_uuid host) = Ok tt ->
  sm_terminals m !! ho_uuid host = None -> sm_detached m !! ho_uuid host = None ->
  session_inv ((spawn_terminal request host m).1, o).
Proof.
  intros Hinv Hu Hn Hd. assert (Hinv' := Hinv). destruct Hinv' as (Hc & Ht & Ha & Hr). cbn [fst snd] in *. unfold spawn_terminal.
  destruct (spawn_checks request host m) as [[[[[rows cols] cwd] argv] env]|]; cbn [mbind result_bind]; [|done].
  destruct (claim_terminal rows cols (sm_policy m)) as [claim|] eqn:Hclaim; cbn [mbind result_bind]; [|done].
  pose proof (reserve_session_inv claim m _ Hr) as Hres. destruct (reserve_session claim m) as [m1 [rs|e]].
  2: { destruct Hres as [-> _]. done. }
  destruct Hres as (Hrs & s & -> & Hr1). unfold allocate_display_id. cbn [set_manager_pools sm_next_display_id].
  destruct (checked_add U64_MAX (sm_next_display_id m) 1) as [next|] eqn:Hnext.
  2: { destruct (fail_released_inv (A := TerminalInfo) rs "terminal display ID space exhausted" (set_manager_pools s m) _ Hr1) as (s' & -> & Hr2).
       by apply (session_inv_pools m o s'). }
  apply checked_add_Some in Hnext as [-> Hmax].
  destruct (ho_pty host) as [|e].
  - cbn [fst]. split_and!; cbn [fst snd].
    + done.
    + eapply (terminals_inv_insert m); try done. rewrite Hrs. eexists. split; [by eapply claim_terminal_wf|done].
    + done.
    + eapply reservable_perm; [|exact Hr1]. unfold held. cbn. rewrite bag_insert by done. cbn. by rewrite !app_assoc.
  - destruct (fail_released_inv (A := TerminalInfo) rs e (set_next_display_id (sm_next_display_id m + 1) (set_manager_pools s m)) _ Hr1) as (s' & -> & Hr2).
    cbn [fst]. split_and!; [done| |done|done]. apply (terminals_inv_next m (sm_next_display_id m + 1)); [done|lia].
Qed.

Lemma terminal_exited_inv m o id code : session_inv (m, o) -> session_inv (terminal_exited id code m, o).
Proof.
  intros Hinv. unfold terminal_exited. destruct (sm_terminals m !! id) as [t|] eqn:Ht; [|done].
  destruct Hinv as (Hc & (Hwf & Hinj & Hdet & Hn) & Ha & Hr). cbn [fst snd] in *. split_and!; cbn [fst snd]; [done| |done|].
  - unfold terminals_inv. cbn. split_and!; try apply Hn.
    + apply map_Forall_insert_2; [|done]. exact (Hwf id t Ht).
    + intros i j u v [[<- <-]|[Hi Hui]]%lookup_insert_Some [[<- <-]|[Hj Hvj]]%lookup_insert_Some Heq; try done; by eapply Hinj.
    + intros i rs Hi. destruct (Hdet i rs Hi) as [? ?]. split; [done|]. rewrite lookup_insert_ne by congruence. done.
  - eapply reservable_perm; [|exact Hr]. unfold held. cbn. by rewrite (bag_update te_resources _ _ t) by done.
Qed.

Lemma terminal_removed_inv m o id : session_inv (m, o) -> session_inv (terminal_removed id m, o).
Proof.
  intros Hinv. unfold terminal_removed. destruct (sm_terminals m !! id) as [t|] eqn:Ht; [|done].
  destruct Hinv as (Hc & (Hwf & Hinj & Hdet & Hn) & Ha & Hr). cbn [fst snd] in *.
  assert (Hnone : sm_detached m !! id = None).
  { destruct (sm_detached m !! id) eqn:E; [|done]. destruct (Hdet _ _ E). congruence. }
  split_and!; cbn [fst snd]; [done| |done|].
  - unfold terminals_inv. cbn. split_and!; try apply Hn.
    + by apply map_Forall_delete.
    + intros i j u v [_ Hui]%lookup_delete_Some [_ Hvj]%lookup_delete_Some. by apply Hinj.
    + apply map_Forall_insert_2; [split; [by apply (Hwf id t)|apply lookup_delete_eq]|].
      intros i rs Hi. destruct (Hdet i rs Hi) as [? ?]. split; [done|]. by rewrite lookup_delete_None; right.
  - eapply reservable_perm; [|exact Hr]. unfold held. cbn.
    rewrite (bag_delete te_resources _ _ _ Ht), bag_insert by done. cbn. solve_Permutation.
Qed.

Lemma terminal_dropped_inv m o id : session_inv (m, o) -> exists m', terminal_dropped id m = Ok m' /\ session_inv (m', o).
Proof.
  intros Hinv. unfold terminal_dropped. destruct (sm_detached m !! id) as [rs|] eqn:Hd; [|by exists m].
  destruct Hinv as (Hc & (Hwf & Hinj & Hdet & Hn) & Ha & Hr). cbn [fst snd] in *.
  set (m1 := set_detached (delete id (sm_detached m)) m).
  destruct (release_inv rs m1 (held m1 ++ o)) as (s & Hs & Hr').
  { eapply reservable_perm; [|exact Hr]. unfold held. cbn. rewrite (bag_delete (fun rs => rs) _ _ _ Hd). solve_Permutation. }
  exists (set_manager_pools s m1). split; [done|]. split_and!; [done| |done|done].
  unfold terminals_inv. cbn. split_and!; try done; try apply Hn. by apply map_Forall_delete.
Qed.

(** *** Attachments *)

Lemma register_attachment_inv m o connection terminal read_only id now :
  session_inv (m, o) -> sm_handles m !! id = None ->
  session_inv ((register_attachment connection terminal read_only id now m).1, o).
Proof.
  intros Hinv Hn. assert (Hinv' := Hinv). destruct Hinv' as (Hc & Ht & (Ha & Hwf) & Hr). cbn [fst snd] in *.
  unfold register_attachment. destruct (mbind _ _) as [w|]; [|done].
  pose proof (reserve_session_inv claim_attachment m _ Hr) as Hres. destruct (reserve_session claim_attachment m) as [m1 [rs|e]].
  2: { destruct Hres as [-> _]. done. }
  destruct Hres as (Hrs & s & -> & Hr1). destruct now as [t|e].
  2: { destruct (fail_released_inv (A := AttachmentInfo) rs e (set_manager_pools s m) _ Hr1) as (s' & -> & Hr2).
       by apply (session_inv_pools m o s'). }
  split_and!; cbn [fst snd]; [done|done| |].
  - split; cbn; [by rewrite fmap_insert, Ha|]. apply map_Forall_insert_2; [|done].
    split_and!; [done|by exists Subscribing|]. rewrite Hrs. by eexists.
  - eapply reservable_perm; [|exact Hr1]. unfold held. cbn. rewrite bag_insert by done. cbn. solve_Permutation.
Qed.

(** A change of a handle's information, in the registry and in the handle. *)
Lemma attachment_update_inv m o id (info info' : AttachmentInfo) rs :
  session_inv (m, o) -> sm_handles m !! id = Some (info, rs) ->
  ai_id info' = id -> (exists s, s <> StateUnspecified /\ ai_state info' = state_number s) ->
  session_inv (set_attachments (<[id := info']> (sm_attachments m)) (<[id := (info', rs)]> (sm_handles m)) m, o).
Proof.
  intros (Hc & Ht & (Ha & Hwf) & Hr) Hh Hid Hs. split_and!; cbn [fst snd] in *; [done|done| |].
  - split; cbn; [by rewrite fmap_insert, Ha|]. apply map_Forall_insert_2; [|done].
    split_and!; [done..|]. by apply (Hwf id (info, rs)).
  - eapply reservable_perm; [|exact Hr]. unfold held. cbn. by rewrite (bag_update snd _ _ (info, rs)) by done.
Qed.

Lemma handle_registry m o handle info rs :
  session_inv (m, o) -> sm_handles m !! handle = Some (info, rs) ->
  ai_id info = handle /\ sm_attachments m !! handle = Some info /\
  exists s, s <> StateUnspecified /\ ai_state info = state_number s.
Proof.
  intros (_ & _ & (Ha & Hwf) & _) Hh. cbn [fst] in *. destruct (Hwf _ _ Hh) as (Hid & Hs & _).
  split_and!; [done| |done]. by rewrite Ha, lookup_fmap, Hh.
Qed.
Lemma state_try_from_number s : state_try_from (state_number s) = Some s.
Proof. by destruct s. Qed.

(** A transition is taken when it is allowed, and recorded on both sides. *)
Lemma handle_set_state_exact m o handle info rs s state :
  session_inv (m, o) -> sm_handles m !! handle = Some (info, rs) -> ai_state info = state_number s ->
  handle_set_state handle state m =
  if allowed_transition s state
  then (set_attachments (<[handle := with_state state info]> (sm_attachments m))
          (<[handle := (with_state state info, rs)]> (sm_handles m)) m, Ok tt)
  else (m, Err "invalid attachment state transition").
Proof.
  intros Hinv Hh Hs. destruct (handle_registry _ _ _ _ _ Hinv Hh) as (Hid & Hreg & _).
  unfold handle_set_state, set_attachment_state. rewrite Hh, Hid, Hreg. cbn [ok_or mbind result_bind].
  rewrite Hs, state_try_from_number. cbn [ok_or mbind result_bind]. by destruct (allowed_transition s state).
Qed.
Lemma handle_set_role_exact m o handle info rs role :
  session_inv (m, o) -> sm_handles m !! handle = Some (info, rs) ->
  handle_set_role handle role m =
  (set_attachments (<[handle := with_role role info]> (sm_attachments m))
     (<[handle := (with_role role info, rs)]> (sm_handles m)) m, Ok tt).
Proof.
  intros Hinv Hh. destruct (handle_registry _ _ _ _ _ Hinv Hh) as (Hid & Hreg & _).
  unfold handle_set_role, set_attachment_role. rewrite Hh, Hid, Hreg. done.
Qed.

Lemma handle_set_state_inv m o handle state : session_inv (m, o) -> session_inv ((handle_set_state handle state m).1, o).
Proof.
  intros Hinv. destruct (sm_handles m !! handle) as [[info rs]|] eqn:Hh; [|unfold handle_set_state; by rewrite Hh].
  destruct (handle_registry _ _ _ _ _ Hinv Hh) as (Hid & _ & s & Hs & Hst).
  rewrite (handle_set_state_exact _ _ _ _ _ _ _ Hinv Hh Hst). destruct (allowed_transition s state) eqn:Ht; [|done].
  eapply attachment_update_inv; [done|done|done|]. exists state. split; [|done]. by destruct s, state.
Qed.
Lemma handle_set_role_inv m o handle role : session_inv (m, o) -> session_inv ((handle_set_role handle role m).1, o).
Proof.
  intros Hinv. destruct (sm_handles m !! handle) as [[info rs]|] eqn:Hh; [|unfold handle_set_role; by rewrite Hh].
  destruct (handle_registry _ _ _ _ _ Hinv Hh) as (Hid & _ & Hs).
  rewrite (handle_set_role_exact _ _ _ _ _ _ Hinv Hh). by eapply attachment_update_inv.
Qed.
Lemma handle_drop_inv m o handle : session_inv (m, o) -> exists m', handle_drop handle m = Ok m' /\ session_inv (m', o).
Proof.
  intros Hinv. unfold handle_drop. destruct (sm_handles m !! handle) as [[info rs]|] eqn:Hh; [|by exists m].
  destruct (handle_registry _ _ _ _ _ Hinv Hh) as (-> & _). destruct Hinv as (Hc & Ht & (Ha & Hwf) & Hr). cbn [fst snd] in *.
  set (m1 := set_attachments _ _ m). destruct (release_inv rs m1 (held m1 ++ o)) as (s & Hs & Hr').
  { eapply reservable_perm; [|exact Hr]. unfold held. cbn. rewrite (bag_delete snd _ _ _ Hh). cbn. solve_Permutation. }
  exists (set_manager_pools s m1). split; [done|]. split_and!; [done|done| |done].
  split; cbn; [by rewrite fmap_delete, Ha|by apply map_Forall_delete].
Qed.

(** ** Every reachable state *)

Lemma session_inv_new root file id now fault account policy pools o file' m :
  validate_uuid id = Ok tt -> reservable pools account o ->
  with_resources root file true id now fault account policy pools = (file', Ok m) -> session_inv (m, o).
Proof.
  intros Hid Hr Hm. unfold with_resources in Hm. destruct (mbind _ _) as [root'|]; [|done].
  destruct (load_or_create_catalog file true id now fault) as [f [c|]] eqn:Hl; [|done]. injection Hm as <- <-.
  assert (Hcat : valid_catalog c /\ exists b c', f = Some b /\ catalog_decode b = Some c' /\ valid_catalog c' /\
                   llen b <= MAX_SESSION_CATALOG_BYTES).
  { unfold load_or_create_catalog in Hl. cbn [negb] in Hl. destruct file as [b|].
    - injection Hl as <- Hl. ok_inv Hl. bool_prop.
      repeat match goal with u : unit |- _ => destruct u end.
      match goal with Hv : validate_catalog _ = Ok tt |- _ => apply validate_catalog_Ok in Hv end.
      destruct (catalog_decode b) eqn:Hdec; [|done]. injection Hr0 as ->. eauto 10.
    - destruct now as [now|]; [|done]. unfold persist_catalog in Hl.
      destruct (validate_catalog _) as [[]|] eqn:Hv in Hl; [|done]. apply validate_catalog_Ok in Hv.
      destruct (_ <=? _) eqn:Hsz in Hl; cbn [negb] in Hl; [|done]. destruct fault; [done|]. injection Hl as <- <-.
      bool_prop. eauto 10 using catalog_decode_encode. }
  split_and!; cbn [fst snd].
  - exact Hcat.
  - unfold terminals_inv. cbn. split_and!; [apply map_Forall_empty|intros i j ? ? Hi; by rewrite lookup_empty in Hi|apply map_Forall_empty|done|done].
  - split; cbn; [by rewrite fmap_empty|apply map_Forall_empty].
  - unfold held. cbn. by rewrite !bag_empty.
Qed.

Lemma session_inv_step w w' : session_inv w -> session_step w w' -> session_inv w'.
Proof.
  intros Hinv Hs. destruct Hs.
  - eapply session_inv_catalog; [apply create_workspace_shape|done].
  - eapply session_inv_catalog; [apply rename_workspace_shape|done].
  - eapply session_inv_catalog; [apply delete_workspace_shape|done].
  - by apply spawn_terminal_inv.
  - by apply terminal_exited_inv.
  - by apply terminal_removed_inv.
  - destruct (terminal_dropped_inv m o id Hinv) as (? & ? & ?). congruence.
  - by apply register_attachment_inv.
  - by apply handle_set_state_inv.
  - by apply handle_set_role_inv.
  - destruct (handle_drop_inv m o handle Hinv) as (? & ? & ?). congruence.
  - apply (session_inv_pools m o); [done|]. destruct Hinv as (_ & _ & _ & (Hnd & Hex & Hp)). cbn [fst snd] in *.
    pose proof (account_reserve_inv _ _ claim _ Hnd Hex Hp) as Hi. rewrite H1 in Hi. destruct Hi as [Hi Hdom].
    eapply reservable_perm; [|split_and!; [exact Hnd| |exact Hi]]; [solve_Permutation|]. intros id Hid. by apply Hdom, Hex.
  - apply (session_inv_pools m o); [done|]. destruct Hinv as (_ & _ & _ & (Hnd & Hex & Hp)). cbn [fst snd] in *.
    destruct (drop_reservations_inv (sm_pools m) rs (held m ++ rest)) as (s' & Hs' & Hi & Hdom).
    { eapply pool_inv_perm; [|exact Hp]. rewrite H1. solve_Permutation. }
    assert (s' = s) as -> by congruence. split_and!; [done| |done]. intros id Hid. by apply Hdom, Hex.
Qed.

Lemma session_invariant w : session_reachable w -> session_inv w.
Proof. induction 1; [by eapply session_inv_new|by eapply session_inv_step]. Qed.

(** ** Counting *)

Lemma held_within_limits m o id p :
  session_inv (m, o) -> id ∈ sm_account m -> sm_pools m !! id = Some p ->
  N.of_nat (size (sm_terminals m) + size (sm_detached m)) <= rl_terminals (pool_limits p) /\
  N.of_nat (size (sm_handles m)) <= rl_attachments (pool_limits p).
Proof.
  intros (_ & (Hwf & _ & Hdet & _) & (_ & Hat) & (Hnd & _ & Hp)) Hid Hpool. cbn [fst snd] in *.
  destruct Hp as [Hu _]. destruct (Hu _ _ Hpool) as [Husage Hle]. cbn [ps_live] in Husage. rewrite Husage in Hle. clear Hu Husage.
  assert (Ht : additive rc_terminals) by done. assert (Ha : additive rc_attachments) by done.
  pose proof (bag_count te_resources rc_terminals 1 id (sm_terminals m) Ht) as Hn1.
  pose proof (bag_count (fun rs => rs) rc_terminals 1 id (sm_detached m) Ht) as Hn2.
  pose proof (bag_count snd rc_attachments 1 id (sm_handles m) Ha) as Hn3.
  unfold held in Hle. rewrite !live_claims_app in Hle.
  assert (Hterm := proj1 (proj2 (proj2 (proj2 Hle)))). assert (Hatt := proj1 (proj2 (proj2 (proj2 (proj2 Hle))))).
  rewrite !additive_sum_app in Hterm by done. rewrite !additive_sum_app in Hatt by done.
  rewrite Hn1, Hn2 in Hterm; [rewrite Hn3 in Hatt|..].
  - cbn in Hterm, Hatt. lia.
  - intros i h Hi. destruct (Hat i h Hi) as (_ & _ & c & -> & Hc). exists (sm_account m). split_and!; [done..|]. by exists claim_attachment.
  - intros i rs Hi. destruct (Hdet i rs Hi) as [(c & [? _] & Hc) _]. exists (sm_account m). split_and!; [done..|]. by exists c.
  - intros i t Hi. destruct (Hwf i t Hi) as (_ & _ & _ & c & [? _] & Hc). exists (sm_account m). split_and!; [done..|]. by exists c.
Qed.

(** ** Lookups *)

Lemma find_map_unique {A B} (f : A -> option B) l x y :
  x ∈ l -> f x = Some y -> (forall z w, z ∈ l -> f z = Some w -> w = y) -> find_map f l = Some y.
Proof.
  intros Hx Hf Hu. induction l as [|a l IH]; [by apply elem_of_nil in Hx|]. cbn [find_map].
  destruct (f a) as [w|] eqn:Ha; [f_equal; eapply Hu; [left|done]|].
  apply elem_of_cons in Hx as [->|Hx]; [congruence|]. apply IH; [done|]. intros z w Hz. apply Hu. by right.
Qed.
Lemma elem_of_terminal_infos m i : i ∈ terminal_infos m <-> exists id t, sm_terminals m !! id = Some t /\ i = te_info t.
Proof.
  unfold terminal_infos. rewrite list_elem_of_fmap. split.
  - intros ([id t] & -> & Hin%elem_of_map_to_list). eauto.
  - intros (id & t & Hin & ->). exists (id, t). by rewrite elem_of_map_to_list.
Qed.

Lemma select_terminal m id t :
  terminals_inv m -> sm_terminals m !! id = Some t ->
  get_by_selector id m = Some (te_info t) /\
  get_by_selector (pretty (ti_display_id (te_info t))) m = Some (te_info t).
Proof.
  intros (Hwf & Hinj & _ & Hmax & _) Ht. destruct (Hwf _ _ Ht) as (_ & _ & Hd & _). unfold get_by_selector.
  split; [by rewrite Ht|].
  destruct (sm_terminals m !! pretty (ti_display_id (te_info t))) as [u|] eqn:Hu.
  { destruct (Hwf _ _ Hu) as (_ & Hv & _). by destruct (pretty_not_uuid (ti_display_id (te_info t)) _ ltac:(lia) Hv). }
  rewrite parse_display_id_pretty by lia. cbn [mbind option_bind].
  eapply find_map_unique; [apply elem_of_terminal_infos; eauto|by rewrite N.eqb_refl|].
  intros z w (j & u & Hj & ->)%elem_of_terminal_infos Hz. destruct (N.eqb_spec (ti_display_id (te_info u)) (ti_display_id (te_info t))) as [He|]; [|done].
  injection Hz as <-. assert (j = id) as -> by (by eapply Hinj). congruence.
Qed.

Lemma spawn_display_id request host m i : (spawn_terminal request host m).2 = Ok i -> ti_display_id i = sm_next_display_id m.
Proof.
  unfold spawn_terminal. destruct (spawn_checks request host m) as [[[[[rows cols] cwd] argv] env]|]; cbn [mbind result_bind]; [|done].
  destruct (claim_terminal rows cols (sm_policy m)) as [claim|]; cbn [mbind result_bind]; [|done].
  unfold reserve_session. destruct (account_reserve _ _ _) as [s [rs|q|]]; [|done..].
  unfold allocate_display_id, fail_released. cbn [set_manager_pools sm_next_display_id].
  destruct (checked_add _ _ _); [|destruct (release _ _); done].
  destruct (ho_pty host); [|destruct (release _ _); done]. by intros [= <-].
Qed.

(** ** Claims *)

(** C30: at any moment a restarted worker finds a valid catalog.  A change that is
    acknowledged is the catalog it finds; a change that is refused leaves the memory
    as it was, and the file too unless the failing call came after the rename. *)
Theorem catalog_durable m o id now fault :
  session_reachable (m, o) ->
  (exists c, load_or_create_catalog (sm_file m) true id now fault = (sm_file m, Ok c) /\ valid_catalog c) /\
  forall update fault',
    match update_catalog update fault' m with
    | (m', Ok _) =>
        update (sm_catalog m) = Ok (sm_catalog m') /\
        load_or_create_catalog (sm_file m') true id now fault = (sm_file m', Ok (sm_catalog m'))
    | (m', Err _) =>
        sm_catalog m' = sm_catalog m /\
        (sm_file m' = sm_file m \/
         exists c k, update (sm_catalog m) = Ok c /\ fault' = Some k /\ (RENAME_CALL < k)%nat /\
                     sm_file m' = Some (catalog_encode c))
    end.
Proof.
  intros ((Hv & b & c & Hf & Hdec & Hc & Hlen) & _)%session_invariant. cbn [fst] in *.
  assert (Hload : forall c' b', catalog_decode b' = Some c' -> valid_catalog c' -> llen b' <= MAX_SESSION_CATALOG_BYTES ->
            load_or_create_catalog (Some b') true id now fault = (Some b', Ok c')).
  { intros c' b' Hd Hv'%validate_catalog_Ok Hl. unfold load_or_create_catalog. cbn [negb].
    rewrite (proj2 (N.leb_le _ _) Hl), Hd. cbn [ok_or mbind result_bind]. by rewrite Hv'. }
  split; [exists c; rewrite Hf; by rewrite (Hload c)|].
  intros update fault'. unfold update_catalog, persist_catalog.
  destruct (update (sm_catalog m)) as [c'|] eqn:Hu; [|by eauto].
  destruct (validate_catalog c') as [[]|] eqn:Hv'; [|by eauto]. apply validate_catalog_Ok in Hv'.
  destruct (_ <=? MAX_SESSION_CATALOG_BYTES) eqn:Hsz; cbn [negb]; [|by cbn; eauto]. bool_prop.
  destruct fault' as [k|]; cbn.
  - split; [done|]. destruct (k <=? RENAME_CALL)%nat eqn:Hk; [by left|right].
    apply Nat.leb_gt in Hk. eauto 10.
  - split; [done|]. apply Hload; [apply catalog_decode_encode|done..].
Qed.

(** Creating, renaming and deleting a workspace is inserting into, updating and
    removing from a map of workspaces with distinct names: each operation fails
    exactly on its own guards, on the size limit and on a failed write, and never
    because its own candidate is rejected by the validation. *)
Theorem workspace_operations_exact m o name id now fault :
  session_reachable (m, o) -> validate_uuid id = Ok tt ->
  let c := sm_catalog m in
  (view c !! id = None -> create_workspace name id now fault m = run_spec (create_spec name id now c) fault m) /\
  rename_workspace id name fault m = run_spec (rename_spec id name c) fault m /\
  delete_workspace id fault m = run_spec (delete_spec id (list_in_workspace id true m) c) fault m /\
  (forall c' w, view c !! id = None -> create_spec name id now c = Ok (c', w) -> view c' = <[id := w]> (view c)) /\
  (forall c' w, rename_spec id name c = Ok (c', w) ->
     exists v, view c !! id = Some v /\ w = renamed (ws_name w) v /\ view c' = <[id := w]> (view c)) /\
  (forall l c' u, delete_spec id l c = Ok (c', u) -> id <> sc_default_workspace_id c /\ view c' = delete id (view c)).
Proof.
  intros ((Hv & _) & _)%session_invariant Hid. cbn [fst] in *. assert (Hnd := proj1 (proj2 (proj2 (proj2 Hv)))).
  split_and!.
  - intros Hn. by apply create_workspace_exact.
  - by apply rename_workspace_exact.
  - by apply delete_workspace_exact.
  - intros c' w Hn Hs. unfold create_spec in Hs. ok_inv Hs. by apply view_created.
  - intros c' w Hs. unfold rename_spec in Hs. ok_inv Hs.
    destruct (view (sm_catalog m) !! id) as [v|] eqn:Hview; [|done]. injection Hr1 as ->.
    exists a1. split; [done|]. split; [done|]. by apply view_renamed.
  - intros l c' u Hs. unfold delete_spec in Hs. ok_inv Hs. bool_prop. split; [done|]. by apply view_deleted.
Qed.

(** A terminal is found by its identifier and by the decimal form of its
    display identifier, which no other terminal has; the next spawn uses a larger
    one. *)
Theorem terminal_selectors_exact m o id t :
  session_reachable (m, o) -> sm_terminals m !! id = Some t ->
  get_by_selector id m = Some (te_info t) /\
  get_by_selector (pretty (ti_display_id (te_info t))) m = Some (te_info t) /\
  ti_id (te_info t) = id /\
  (forall j u, sm_terminals m !! j = Some u -> ti_display_id (te_info u) = ti_display_id (te_info t) -> j = id) /\
  forall request host i, (spawn_terminal request host m).2 = Ok i -> ti_display_id (te_info t) < ti_display_id i.
Proof.
  intros (_ & Ht & _)%session_invariant Hid. cbn [fst] in Ht.
  destruct (select_terminal _ _ _ Ht Hid) as [Hs1 Hs2]. destruct Ht as (Hwf & Hinj & _).
  destruct (Hwf _ _ Hid) as (Hti & _ & Hd & _). split_and!; try done.
  - intros j u Hj He. by eapply Hinj.
  - intros request host i Hi. rewrite (spawn_display_id _ _ _ _ Hi). lia.
Qed.

(** The worker's terminals, in the registry or still referenced, and its
    attachments never exceed the limits of any pool of its account, whatever else
    the account is used for; and giving one back never underflows a counter. *)
Theorem session_resources_accounted m o :
  session_reachable (m, o) ->
  (forall pool p, pool ∈ sm_account m -> sm_pools m !! pool = Some p ->
     N.of_nat (size (sm_terminals m) + size (sm_detached m)) <= rl_terminals (pool_limits p) /\
     N.of_nat (size (sm_handles m)) <= rl_attachments (pool_limits p)) /\
  (forall id, is_ok (terminal_dropped id m) = true) /\ (forall handle, is_ok (handle_drop handle m) = true).
Proof.
  intros Hinv%session_invariant. split_and!.
  - intros pool p Hpool Hp. by eapply held_within_limits.
  - intros id. by destruct (terminal_dropped_inv _ _ id Hinv) as (m' & -> & _).
  - intros handle. by destruct (handle_drop_inv _ _ handle Hinv) as (m' & -> & _).
Qed.

(** The attachments that are listed are the information of the live handles of
    the workspace and terminal asked for, and a handle moves from subscribing to
    snapshotting to live and back to snapshotting, in no other way; both sides record
    the move. *)
Theorem attachments_exact m o handle info rs state :
  session_reachable (m, o) -> sm_handles m !! handle = Some (info, rs) ->
  (forall ws terminal l a, list_attachments ws terminal m = Ok l ->
     a ∈ l <-> (exists h r, sm_handles m !! h = Some (a, r)) /\ ai_workspace_id a = ws /\
               (terminal = "" \/ ai_terminal_id a = terminal)) /\
  exists s, ai_state info = state_number s /\
    match handle_set_state handle state m with
    | (m', Ok _) =>
        (s, state) ∈ [(Subscribing, Snapshotting); (Snapshotting, Live); (Live, Snapshotting)] /\
        sm_attachments m' !! handle = Some (with_state state info) /\
        sm_handles m' !! handle = Some (with_state state info, rs)
    | (m', Err _) =>
        m' = m /\ (s, state) ∉ [(Subscribing, Snapshotting); (Snapshotting, Live); (Live, Snapshotting)]
    end.
Proof.
  intros Hinv%session_invariant Hh. split.
  - intros ws terminal l a Hl. unfold list_attachments in Hl. ok_inv Hl.
    rewrite merge_sort_Permutation, list_elem_of_filter, list_elem_of_fmap.
    destruct Hinv as (_ & _ & (Ha & _) & _). cbn [fst] in Ha. rewrite Ha. split.
    + intros ((-> & Ht) & [h b] & -> & Hb%elem_of_map_to_list). rewrite lookup_fmap in Hb. cbn.
      destruct (sm_handles m !! h) as [[a r]|] eqn:E; [|done]. injection Hb as <-. eauto.
    + intros ((h & r & Hhr) & Hw). split; [done|]. exists (h, a). split; [done|].
      apply elem_of_map_to_list. by rewrite lookup_fmap, Hhr.
  - destruct (handle_registry _ _ _ _ _ Hinv Hh) as (_ & _ & s & Hs & Hst). exists s. split; [done|].
    rewrite (handle_set_state_exact _ _ _ _ _ _ _ Hinv Hh Hst).
    destruct (allowed_transition s state) eqn:Ht; cbn; rewrite ?lookup_insert_eq.
    + split; [|done]. destruct s, state; try done; set_solver.
    + split; [done|]. destruct s, state; try done; set_solver.
Qed.
End inv.

(** ** Witnesses

    A codec of catalogs, and a short history: a workspace, a terminal in it and an
    attachment. *)

#[local] Instance WorkspaceInfo_countable : Countable WorkspaceInfo.
Proof.
  refine (inj_countable'
    (fun w => (ws_id w, ws_name w, ws_revision w, ws_created_at_unix_ms w, ws_is_default w))
    (fun '(id, name, revision, created, default) => mkWorkspace id name revision created default) _).
  by intros [].
Defined.
#[local] Instance SessionCatalog_eq_dec : EqDecision SessionCatalog.
Proof. solve_decision. Defined.
#[local] Instance SessionCatalog_countable : Countable SessionCatalog.
Proof.
  refine (inj_countable'
    (fun c => (sc_schema_version c, sc_default_workspace_id c, sc_workspaces c))
    (fun '(version, id, ws) => mkCatalog version id ws) _).
  by intros [].
Defined.

Definition demo_lib : SessionLib := {|
  catalog_encode c := [Npos (encode c)];
  catalog_decode b := match b with [Npos p] => decode p | _ => None end;
  parse_uuid s := if existsb (N.eqb 45) (lit s) then Some s else None;
  canonicalize_cwd := Some
|}.
Lemma demo_laws : @SessionLaws demo_lib.
Proof.
  split.
  - intros c. cbn. apply decode_encode.
  - intros s. cbn. destruct (existsb _ _) eqn:E; [|done]. intros _.
    apply existsb_exists in E as (x & Hx & Heq). apply N.eqb_eq in Heq as <-. by apply list_elem_of_In.
Qed.
#[local] Existing Instance demo_lib.
#[local] Existing Instance demo_laws.

Definition demo_pools : PoolStore :=
  match pool_new "user" (rp_user policy_default) with Ok p => {[0 := p]} | Err _ => ∅ end.
Lemma demo_pools_inv : pool_inv (mkPoolSystem demo_pools []).
Proof.
  unfold demo_pools. destruct (pool_new _ _) as [p|] eqn:Hp; [|by split; [intros ? ?|intros r ?%elem_of_nil]].
  eapply (pool_inv_step (mkPoolSystem ∅ [])); [by split; [intros ? ?|intros r ?%elem_of_nil]|].
  by apply (Resources.step_create (mkPoolSystem ∅ []) 0 "user" (rp_user policy_default) p).
Qed.
Definition demo_new : option bytes * result SessionManager :=
  with_resources [lit "home"] None true "w-0" (Ok 5) None [0] policy_default demo_pools.
Definition demo_start : SessionManager :=
  match demo_new.2 with
  | Ok m => m
  | Err _ => mkManager (mkCatalog 0 "" []) None ∅ ∅ 0 ∅ ∅ [] policy_default [] ∅
  end.
Definition demo_created : SessionManager := (create_workspace (lit " dev ") "w-1" (Ok 6) None demo_start).1.
Definition demo_host : SpawnHost := mkSpawnHost None (fun _ => true) "t-1" (Ok tt).
Definition demo_spawn : SpawnRequest := mkSpawn "" [] "" 0 0 "" [] "w-1".
Definition demo_spawned : SessionManager := (spawn_terminal demo_spawn demo_host demo_created).1.
Definition demo_entry : option TerminalEntry := sm_terminals demo_spawned !! "t-1".
Definition demo_info : TerminalInfo :=
  match demo_entry with Some t => te_info t | None => mkTerminalInfo "" [] [] [] "" None 0 0 0 None None "" 0%Z end.
Definition demo_attached : SessionManager :=
  (register_attachment "c-1" demo_info false "a-1" (Ok 7) demo_spawned).1.

Lemma demo_reachable : session_reachable (demo_attached, []).
Proof.
  eapply reach_step; [eapply reach_step; [eapply reach_step; [eapply (reach_new [lit "home"] None "w-0" (Ok 5) None [0] policy_default demo_pools [] (demo_new.1) demo_start)|]|]|].
  - reflexivity.
  - unfold reservable. split_and!.
    + apply NoDup_singleton.
    + intros id ->%list_elem_of_singleton. by eexists.
    + exact demo_pools_inv.
  - vm_compute. reflexivity.
  - apply (step_create demo_start [] (lit " dev ") "w-1" (Ok 6) None); vm_compute; reflexivity.
  - apply (step_spawn demo_created [] demo_spawn demo_host); vm_compute; reflexivity.
  - apply (step_register demo_spawned [] "c-1" demo_info false "a-1" (Ok 7)). vm_compute. reflexivity.
Qed.

Lemma catalog_durable_witness :
  (exists c, load_or_create_catalog (sm_file demo_attached) true "w-9" (Ok 8) None = (sm_file demo_attached, Ok c) /\
             valid_catalog c) /\
  sm_catalog (create_workspace (lit "x") "w-2" (Ok 8) None demo_attached).1 <> sm_catalog demo_attached.
Proof.
  split; [|vm_compute; discriminate].
  exact (proj1 (catalog_durable demo_attached [] "w-9" (Ok 8) None demo_reachable)).
Defined.

Lemma workspace_operations_exact_witness :
  create_workspace (lit "ops ") "w-2" (Ok 8) None demo_attached =
    run_spec (create_spec (lit "ops ") "w-2" (Ok 8) (sm_catalog demo_attached)) None demo_attached /\
  is_ok (create_spec (lit "ops ") "w-2" (Ok 8) (sm_catalog demo_attached)) = true /\
  is_ok (create_spec (lit " dev") "w-2" (Ok 8) (sm_catalog demo_attached)) = false.
Proof.
  split; [|split; vm_compute; reflexivity].
  apply (proj1 (workspace_operations_exact demo_attached [] (lit "ops ") "w-2" (Ok 8) None demo_reachable eq_refl)).
  vm_compute. reflexivity.
Defined.

Lemma terminal_selectors_exact_witness :
  get_by_selector "1" demo_attached = Some demo_info /\ get_by_selector "t-1" demo_attached = Some demo_info.
Proof.
  destruct (terminal_selectors_exact demo_attached [] "t-1" (mkEntry demo_info [mkReservation 0 (mkClaim 0 0 0 1 0 4194304 8388608 0 0 0 0 0)])
              demo_reachable) as (H1 & H2 & _).
  - vm_compute. reflexivity.
  - split; [exact H2|exact H1].
Defined.

Lemma session_resources_accounted_witness :
  size (sm_terminals demo_attached) = 1%nat /\ size (sm_handles demo_attached) = 1%nat /\
  is_ok (handle_drop "a-1" demo_attached) = true.
Proof.
  split; [vm_compute; reflexivity|]. split; [vm_compute; reflexivity|].
  exact (proj2 (proj2 (session_resources_accounted demo_attached [] demo_reachable)) "a-1").
Defined.

Definition demo_attachment : AttachmentInfo := mkAttachment "a-1" "c-1" "w-1" "t-1" 2 1 7.
Lemma attachments_exact_witness :
  exists s, ai_state demo_attachment = state_number s /\
    sm_attachments (handle_set_state "a-1" Snapshotting demo_attached).1 !! "a-1" =
      Some (with_state Snapshotting demo_attachment).
Proof.
  destruct (proj2 (attachments_exact demo_attached [] "a-1" demo_attachment [mkReservation 0 claim_attachment] Snapshotting
              demo_reachable eq_refl)) as (s & Hs & Hm).
  exists s. split; [exact Hs|]. vm_compute. reflexivity.
Defined.

(** A spawn checks its workspace before the terminal manager's work, and a deletion
    can come in between: the terminal is then registered in a workspace that no
    longer exists, where no request that names a workspace finds it. *)
Lemma spawn_survives_workspace_deletion :
  spawn_target demo_spawn true demo_created = Ok demo_spawn /\
  (delete_workspace "w-1" None demo_created).2 = Ok tt /\
  (let m := (spawn_terminal demo_spawn demo_host (delete_workspace "w-1" None demo_created).1).1 in
   (exists t, sm_terminals m !! "t-1" = Some t /\ ti_workspace_id (te_info t) = "w-1") /\
   is_ok (get_terminal "w-1" "t-1" true m) = false).
Proof.
  split; [vm_compute; reflexivity|]. split; [vm_compute; reflexivity|]. cbv zeta. split; [|vm_compute; reflexivity].
  eexists. split; vm_compute; reflexivity.
Qed.
