(* ===== verification/Engine.v ===== *)
(** * The terminal engine ([terminal_engine.rs])

    The emulator is vendored code: what the engine reads of it, the views of
    [astra.rs] in [vendor], are records here, and its operations are those of the
    class [Emulator].  The engine exports a view as a [State] or a page of history,
    interning styles and hyperlinks in tables as it goes. *)
From S2P Require Import Prelude TerminalState.
Open Scope N_scope.

(** ** The emulator's views *)

(** A colour by its three bytes. *)
Record SrgbaTuple := mkSrgb { srgb_red : N; srgb_green : N; srgb_blue : N }.
Inductive ColorAttribute :=
| ColorDefault
| ColorPaletteIndex (index : N)
| TrueColor (c : SrgbaTuple).
Inductive CellIntensity := CellNormal | CellBold | CellHalf.
Inductive CellUnderline := NoUnderline | SingleLine | DoubleLine | CurlyLine | DottedLine | DashedLine.
Inductive CellBlink := NoBlink | SlowBlink | RapidBlink.
Inductive CellSemantic := CellOutput | CellInput | CellPrompt.
Inductive CellAlign := BaseLine | SuperScript | SubScript.
(** A hyperlink with its [id] parameter. *)
Record Link := mkLink { link_uri : string; link_params_id : option string }.
Record CellAttributes := mkAttributes {
  ca_foreground : ColorAttribute; ca_background : ColorAttribute; ca_underline_color : ColorAttribute;
  ca_intensity : CellIntensity; ca_underline : CellUnderline; ca_blink : CellBlink;
  ca_italic : bool; ca_reverse : bool; ca_strikethrough : bool; ca_invisible : bool; ca_overline : bool;
  ca_semantic_type : CellSemantic; ca_vertical_align : CellAlign; ca_hyperlink : option Link }.
Record CellView := mkCellView { cv_column : N; cv_grapheme : string; cv_width : N; cv_attributes : CellAttributes }.
Record RowView := mkRowView {
  rv_logical_line_id : N; rv_cell_offset : N; rv_version : N; rv_cells : list CellView; rv_wrapped_to_next : bool }.
Inductive AstraCursorShape := ViewBlock | ViewUnderline | ViewBar.
Record CursorView := mkCursorView {
  cu_x : N; cu_y : N; cu_shape : AstraCursorShape; cu_visible : bool; cu_version : N; cu_wrap_pending : bool }.
Inductive AstraScreenKind := ViewPrimary | ViewAlternate.
#[global] Instance AstraScreenKind_eq_dec : EqDecision AstraScreenKind.
Proof. solve_decision. Defined.
Record ScreenView := mkScreenView {
  sv_kind : AstraScreenKind; sv_allows_scrollback : bool; sv_all_rows : list RowView; sv_viewport_start : N;
  sv_history_row_count : N; sv_history_bytes : N; sv_column_count : N; sv_viewport_row_count : N;
  sv_cursor : CursorView; sv_saved_cursor : option CursorView;
  sv_margin_top : N; sv_margin_bottom : N; sv_margin_left : N; sv_margin_right : N; sv_tab_stops : list N }.
Inductive AstraMouseTracking := TrackNone | TrackX10 | TrackVt200 | TrackButtonEvent | TrackAnyEvent.
Inductive AstraMouseEncoding := EncodeDefault | EncodeUtf8 | EncodeSgr | EncodeSgrPixels.
Inductive AstraKeyboardEncoding := KeysXterm | KeysCsiU | KeysKitty (flags : N).
Record ModesView := mkModesView {
  mv_application_cursor_keys : bool; mv_application_keypad : bool; mv_bracketed_paste : bool;
  mv_focus_tracking : bool; mv_origin : bool; mv_insert : bool; mv_auto_wrap : bool;
  mv_reverse_wraparound : bool; mv_newline : bool; mv_left_right_margin : bool; mv_reverse_video : bool;
  mv_alternate_scroll : bool; mv_mouse_tracking : AstraMouseTracking; mv_mouse_encoding : AstraMouseEncoding;
  mv_keyboard_encoding : AstraKeyboardEncoding }.
Record ColorPalette := mkColorPalette {
  cp_colors : list SrgbaTuple; cp_foreground : SrgbaTuple; cp_background : SrgbaTuple;
  cp_cursor_fg : SrgbaTuple; cp_cursor_bg : SrgbaTuple; cp_cursor_border : SrgbaTuple;
  cp_selection_fg : SrgbaTuple; cp_selection_bg : SrgbaTuple }.
Record TerminalView := mkView {
  vw_primary : ScreenView; vw_alternate : ScreenView; vw_active_screen : AstraScreenKind; vw_modes : ModesView;
  vw_title : string; vw_title_was_set : bool; vw_working_directory : option string; vw_palette : ColorPalette;
  vw_sequence : N; vw_identity_epoch : N * N }.
(** [AstraTerminalView::rows] and [columns]: the primary screen's. *)
Definition view_rows (v : TerminalView) : N := sv_viewport_row_count (vw_primary v).
Definition view_columns (v : TerminalView) : N := sv_column_count (vw_primary v).

Definition row_count (s : ScreenView) : N := llen (sv_all_rows s).
(** [AstraScreenView::rows(start, maximum_rows)] *)
Definition rows_from (s : ScreenView) (start maximum_rows : N) : list RowView :=
  take (N.to_nat maximum_rows) (drop (N.to_nat start) (sv_all_rows s)).

Record TerminalSize := mkSize { ts_rows : N; ts_cols : N; ts_pixel_width : N; ts_pixel_height : N; ts_dpi : N }.
Class Emulator (T : Type) := {
  astra_view : T -> TerminalView;
  advance_bytes : bytes -> T -> T;
  emulator_resize : TerminalSize -> T -> T
}.

(** ** Colours *)

Definition rgb_color (rgb : N) : SrgbaTuple :=
  mkSrgb (N.land (N.shiftr rgb 16) 255) (N.land (N.shiftr rgb 8) 255) (N.land rgb 255).
Definition pack_rgb (c : SrgbaTuple) : N :=
  N.lor (N.lor (N.shiftl (srgb_red c) 16) (N.shiftl (srgb_green c) 8)) (srgb_blue c).

Definition ASTRA_ANSI : list N :=
  [0x000000; 0xc23621; 0x25bc24; 0xadad27; 0x492ee1; 0xd338d3; 0x33bbc8; 0xcbcccd; 0x818383;
   0xfc391f; 0x31e722; 0xeaec23; 0x5833ff; 0xf935f8; 0x14f0f0; 0xe9ebeb].
(** The emulator's default palette is the argument. *)
Definition astra_color_palette (palette : ColorPalette) : ColorPalette :=
  mkColorPalette ((rgb_color <$> ASTRA_ANSI) ++ drop 16 (cp_colors palette)) (rgb_color 0xd4e0f2)
    (rgb_color 0x090e17) (rgb_color 0x090e17) (rgb_color 0x35d3a1) (rgb_color 0x35d3a1) (rgb_color 0xd4e0f2)
    (rgb_color 0x24445a).
Definition export_palette (palette : ColorPalette) : Palette :=
  mkPalette (pack_rgb <$> cp_colors palette) (pack_rgb (cp_foreground palette)) (pack_rgb (cp_background palette))
    (pack_rgb (cp_cursor_fg palette)) (pack_rgb (cp_cursor_bg palette)) (pack_rgb (cp_selection_fg palette))
    (pack_rgb (cp_selection_bg palette)).

Inductive WireColor := WireDefault | WirePalette (index : N) | WireRgb (rgb : N).
#[global] Instance WireColor_eq_dec : EqDecision WireColor.
Proof. solve_decision. Defined.
Definition wire_color (c : ColorAttribute) : WireColor :=
  match c with
  | ColorDefault => WireDefault
  | ColorPaletteIndex index => WirePalette index
  | TrueColor c => WireRgb (pack_rgb c)
  end.
Definition export_color (c : WireColor) : Color :=
  mkColor (Some match c with
                | WireDefault => DefaultColor true
                | WirePalette index => PaletteIndex index
                | WireRgb rgb => Rgb rgb
                end).

(** ** Styles and hyperlinks *)

Record StyleKey := mkStyleKey {
  sk_foreground : WireColor; sk_background : WireColor; sk_underline_color : WireColor;
  sk_intensity : Z; sk_underline : Z; sk_blink : Z;
  sk_italic : bool; sk_reverse : bool; sk_strikethrough : bool; sk_invisible : bool; sk_overline : bool;
  sk_semantic_type : Z; sk_vertical_align : Z }.
#[global] Instance StyleKey_eq_dec : EqDecision StyleKey.
Proof. solve_decision. Defined.
Definition default_style_key : StyleKey :=
  mkStyleKey WireDefault WireDefault WireDefault 0 0 0 false false false false false 0 0.

Definition style_key (a : CellAttributes) : StyleKey :=
  mkStyleKey (wire_color (ca_foreground a)) (wire_color (ca_background a)) (wire_color (ca_underline_color a))
    (match ca_intensity a with CellNormal => 0 | CellBold => 1 | CellHalf => 2 end)%Z
    (match ca_underline a with
     | NoUnderline => 0 | SingleLine => 1 | DoubleLine => 2 | CurlyLine => 3 | DottedLine => 4 | DashedLine => 5
     end)%Z
    (match ca_blink a with NoBlink => 0 | SlowBlink => 1 | RapidBlink => 2 end)%Z
    (ca_italic a) (ca_reverse a) (ca_strikethrough a) (ca_invisible a) (ca_overline a)
    (match ca_semantic_type a with CellOutput => 0 | CellInput => 1 | CellPrompt => 2 end)%Z
    (match ca_vertical_align a with BaseLine => 0 | SuperScript => 1 | SubScript => 2 end)%Z.

(** The [BTreeMap]s are association lists: only lookups matter. *)
Record ExportTables := mkTables {
  et_style_ids : list (StyleKey * N); et_styles : list Style;
  et_hyperlink_ids : list (string * string * N); et_hyperlinks : list Hyperlink }.
Definition no_tables : ExportTables := mkTables [] [] [] [].
Definition assoc `{EqDecision K} {A} (k : K) (l : list (K * A)) : option A :=
  find_map (fun kv => if bool_decide (kv.1 = k) then Some kv.2 else None) l.

Arguments assoc : simpl never.

Definition style_of (id : N) (key : StyleKey) : Style :=
  mkStyle id (Some (export_color (sk_foreground key))) (Some (export_color (sk_background key)))
    (Some (export_color (sk_underline_color key))) (sk_intensity key) (sk_underline key) (sk_blink key)
    (sk_italic key) (sk_reverse key) (sk_strikethrough key) (sk_invisible key) (sk_overline key)
    (sk_semantic_type key) (sk_vertical_align key).

Definition tables_style_id (key : StyleKey) (t : ExportTables) : result (ExportTables * N) :=
  if bool_decide (key = default_style_key) then Ok (t, 0)
  else match assoc key (et_style_ids t) with
       | Some id => Ok (t, id)
       | None =>
           id ← try_u32 (llen (et_styles t) + 1);
           ensure! llen (et_styles t) <? MAX_STYLES, "terminal style table is full";
           Ok (mkTables ((key, id) :: et_style_ids t) (et_styles t ++ [style_of id key])
                 (et_hyperlink_ids t) (et_hyperlinks t), id)
       end.

Definition tables_hyperlink_id (a : CellAttributes) (t : ExportTables) : result (ExportTables * N) :=
  match ca_hyperlink a with
  | None => Ok (t, 0)
  | Some link =>
      let explicit_id := default "" (link_params_id link) in
      let key := (link_uri link, explicit_id) in
      match assoc key (et_hyperlink_ids t) with
      | Some id => Ok (t, id)
      | None =>
          ensure! llen (et_hyperlinks t) <? MAX_HYPERLINKS, "terminal hyperlink table is full";
          let id := llen (et_hyperlinks t) + 1 in
          Ok (mkTables (et_style_ids t) (et_styles t) ((key, id) :: et_hyperlink_ids t)
                (et_hyperlinks t ++ [mkHyperlink id key.1 explicit_id]), id)
      end
  end.

Definition export_cell (cell : CellView) (t : ExportTables) : result (ExportTables * option Cell) :=
  '(t, style_id) ← tables_style_id (style_key (cv_attributes cell)) t;
  '(t, hyperlink_id) ← tables_hyperlink_id (cv_attributes cell) t;
  if bool_decide (cv_grapheme cell = " ") && (style_id =? 0) && (hyperlink_id =? 0) then Ok (t, None)
  else
    column ← try_u32 (cv_column cell);
    width ← try_u32 (cv_width cell);
    Ok (t, Some (mkCell column (cv_grapheme cell) width style_id hyperlink_id)).

(** ** Rows, cursors and screens *)

Definition epoch_relative_version (sequence epoch_sequence_start : N) : result N :=
  if sequence <=? epoch_sequence_start then Ok 1
  else ok_or (v ← checked_sub sequence epoch_sequence_start; checked_add U64_MAX v 1)
         "terminal state version overflowed".

(** A cell offset beyond [u32] is a failed [expect]. *)
Definition anchor (logical_line_id cell_offset : N) : result Anchor :=
  if cell_offset <=? U32_MAX then Ok (mkAnchor logical_line_id cell_offset) else panic.

(** A cell that does not fit the columns is left out. *)
Definition cell_fits (columns : N) (cell : CellView) : bool :=
  match checked_add U64_MAX (cv_column cell) (cv_width cell) with Some e => e <=? columns | None => false end.
Fixpoint export_cells (columns : N) (cells : list CellView) (t : ExportTables) : result (ExportTables * list Cell) :=
  match cells with
  | [] => Ok (t, [])
  | cell :: cells =>
      if cell_fits columns cell then
        '(t, exported) ← export_cell cell t;
        '(t, rest) ← export_cells columns cells t;
        Ok (t, match exported with Some c => c :: rest | None => rest end)
      else export_cells columns cells t
  end.

Definition export_row (row : RowView) (columns epoch_sequence_start generation : N) (t : ExportTables)
    : result (ExportTables * Row) :=
  row_version ← epoch_relative_version (rv_version row) epoch_sequence_start;
  ensure! row_version <=? generation, "row version exceeds generation";
  '(t, cells) ← export_cells columns (rv_cells row) t;
  start ← anchor (rv_logical_line_id row) (rv_cell_offset row);
  Ok (t, mkRow (Some start) row_version cells (rv_wrapped_to_next row)).
Fixpoint export_rows (rows : list RowView) (columns epoch_sequence_start generation : N) (t : ExportTables)
    : result (ExportTables * list Row) :=
  match rows with
  | [] => Ok (t, [])
  | row :: rows =>
      '(t, r) ← export_row row columns epoch_sequence_start generation t;
      '(t, rs) ← export_rows rows columns epoch_sequence_start generation t;
      Ok (t, r :: rs)
  end.

Definition export_cursor (cursor : CursorView) (epoch_sequence_start : N) (rows : list Row)
    (viewport_start columns viewport_rows : N) : result Cursor :=
  let display_x := N.min (if cu_wrap_pending cursor then cu_x cursor - 1 else cu_x cursor) (columns - 1) in
  let display_y := N.min (cu_y cursor) (viewport_rows - 1) in
  row ← ok_or (match rows !! N.to_nat (saturating_add U64_MAX viewport_start display_y) with
               | Some row => Some row
               | None => rows !! N.to_nat viewport_start
               end) "cursor is outside included viewport";
  start ← ok_or (row_start row) "cursor row has no anchor";
  x ← try_u32 display_x;
  y ← try_u32 display_y;
  a ← anchor (an_logical_line_id start) (an_cell_offset start + display_x);
  version ← epoch_relative_version (cu_version cursor) epoch_sequence_start;
  Ok (mkCursor x y (Some a) (match cu_shape cursor with ViewBlock => 1 | ViewUnderline => 2 | ViewBar => 3 end)%Z
        (cu_visible cursor) version (cu_wrap_pending cursor && (display_x + 1 =? columns))).

Definition view_anchor (row : option RowView) (e : string) : result Anchor :=
  match row with Some row => anchor (rv_logical_line_id row) (rv_cell_offset row) | None => Err e end.
Definition oldest_anchor (view : ScreenView) : result Anchor :=
  view_anchor (head (rows_from view 0 1)) "terminal screen has no oldest row".
Definition newest_anchor (view : ScreenView) : result Anchor :=
  view_anchor (head (rows_from view (row_count view - 1) 1)) "terminal screen has no newest row".

Definition try_u32s (l : list N) : result (list N) :=
  try_fold (fun acc n => n ← try_u32 n; Ok (acc ++ [n])) [] l.

Definition export_screen (view : ScreenView) (included_row_budget epoch_sequence_start generation : N)
    (t : ExportTables) : result (ExportTables * Screen) :=
  let row_count := row_count view in
  ensure! 0 <? row_count, "terminal engine returned an empty screen";
  let viewport_start := sv_viewport_start view in
  let included_start_index := N.min (row_count - included_row_budget) viewport_start in
  let maximum_rows := row_count - included_start_index in
  '(t, included_rows) ← export_rows (rows_from view included_start_index maximum_rows) (sv_column_count view)
                          epoch_sequence_start generation t;
  oldest_available ← oldest_anchor view;
  newest_available ← newest_anchor view;
  included_start ← ok_or (head included_rows ≫= row_start) "terminal included segment is empty";
  included_end ← ok_or (last included_rows ≫= row_start) "terminal included segment is empty";
  let included_viewport_start := viewport_start - included_start_index in
  cursor ← export_cursor (sv_cursor view) epoch_sequence_start included_rows included_viewport_start
             (sv_column_count view) (sv_viewport_row_count view);
  saved_cursor ← match sv_saved_cursor view with
                 | Some c => c ← export_cursor c epoch_sequence_start included_rows included_viewport_start
                                   (sv_column_count view) (sv_viewport_row_count view); Ok (Some c)
                 | None => Ok None
                 end;
  start ← try_u32 included_viewport_start;
  top ← try_u32 (sv_margin_top view);
  bottom ← try_u32 (sv_margin_bottom view);
  left ← try_u32 (sv_margin_left view);
  right ← try_u32 (sv_margin_right view);
  tab_stops ← try_u32s (filter (fun c => c < sv_column_count view) (sv_tab_stops view));
  Ok (t, mkScreen included_rows start (Some cursor) saved_cursor (Some oldest_available) (Some newest_available)
           (Some included_start) (Some included_end) top bottom left right tab_stops).

Definition export_modes (m : ModesView) : Modes :=
  let '(encoding, flags) := match mv_keyboard_encoding m with
                            | KeysXterm => (0%Z, 0) | KeysCsiU => (1%Z, 0) | KeysKitty flags => (2%Z, flags)
                            end in
  mkModes (mv_application_cursor_keys m) (mv_application_keypad m) (mv_bracketed_paste m) (mv_focus_tracking m)
    (mv_origin m) (mv_insert m) (mv_auto_wrap m) (mv_reverse_wraparound m) (mv_newline m) (mv_left_right_margin m)
    (mv_reverse_video m)
    (match mv_mouse_tracking m with
     | TrackNone => 0 | TrackX10 => 1 | TrackVt200 => 2 | TrackButtonEvent => 3 | TrackAnyEvent => 4 end)%Z
    (match mv_mouse_encoding m with
     | EncodeDefault => 0 | EncodeUtf8 => 1 | EncodeSgr => 2 | EncodeSgrPixels => 3 end)%Z
    encoding flags (mv_alternate_scroll m).

(** ** The engine *)

Record HistoryLimits := mkHistoryLimits { hi_rows : N; hi_bytes : N }.

Definition validate_authoritative_screens (view : TerminalView) (limits : HistoryLimits) : result unit :=
  let primary := vw_primary view in
  let alternate := vw_alternate view in
  ensure! bool_decide (sv_kind primary = ViewPrimary) && sv_allows_scrollback primary,
    "primary terminal screen lost scrollback semantics";
  ensure! (sv_history_row_count primary =? sv_viewport_start primary)
          && (sv_viewport_start primary + view_rows view =? row_count primary),
    "primary terminal history and viewport are not contiguous";
  ensure! (sv_history_row_count primary <=? hi_rows limits) && (sv_history_bytes primary <=? hi_bytes limits),
    "primary terminal history exceeds its configured capacity";
  ensure! bool_decide (sv_kind alternate = ViewAlternate) && negb (sv_allows_scrollback alternate)
          && (sv_history_row_count alternate =? 0) && (sv_history_bytes alternate =? 0)
          && (sv_viewport_start alternate =? 0) && (row_count alternate =? view_rows view),
    "alternate terminal screen must contain exactly one viewport and no history";
  Ok tt.

Definition generation (view : TerminalView) (epoch_sequence_start : N) : result N :=
  v ← ok_or (checked_sub (vw_sequence view) epoch_sequence_start)
        "terminal sequence moved backwards within an epoch";
  ok_or (checked_add U64_MAX v 1) "terminal generation overflowed".

Section engine.
Context `{StateLib} {T : Type} `{Emulator T}.

Record TerminalEngine := mkEngine {
  en_terminal : T;
  en_history_limits : HistoryLimits;
  en_epoch : bytes;
  en_identity_epoch : N * N;
  en_epoch_sequence_start : N;
  en_cached_viewport : option State
}.
Definition set_terminal (t : T) (e : TerminalEngine) : TerminalEngine :=
  mkEngine t (en_history_limits e) (en_epoch e) (en_identity_epoch e) (en_epoch_sequence_start e)
    (en_cached_viewport e).
Definition set_cached (c : option State) (e : TerminalEngine) : TerminalEngine :=
  mkEngine (en_terminal e) (en_history_limits e) (en_epoch e) (en_identity_epoch e) (en_epoch_sequence_start e) c.

Definition terminal_size (rows columns pixel_width pixel_height : N) : TerminalSize :=
  mkSize rows columns pixel_width pixel_height 0.

(** [new_terminal] is [Terminal::new] with the configuration; [epoch] the random
    bytes. *)
Definition with_history_limits (rows columns : N) (limits : HistoryLimits) (new_terminal : TerminalSize -> T)
    (epoch : bytes) : result TerminalEngine :=
  ensure! in_range 1 MAX_DIMENSION rows && in_range 1 MAX_DIMENSION columns, "terminal dimensions are out of range";
  let terminal := new_terminal (terminal_size rows columns 0 0) in
  let view := astra_view terminal in
  Ok (mkEngine terminal limits epoch (vw_identity_epoch view) (vw_sequence view) None).

Definition advance (data : bytes) (e : TerminalEngine) : TerminalEngine :=
  set_terminal (advance_bytes data (en_terminal e)) (set_cached None e).

Definition resize_engine (rows columns pixel_width pixel_height : N) (e : TerminalEngine)
    : TerminalEngine * result unit :=
  let e := set_cached None e in
  if in_range 1 MAX_DIMENSION rows && in_range 1 MAX_DIMENSION columns then
    (set_terminal (emulator_resize (terminal_size rows columns pixel_width pixel_height) (en_terminal e)) e, Ok tt)
  else (e, Err "terminal dimensions are out of range").

Definition program_title (e : TerminalEngine) : option string :=
  let view := astra_view (en_terminal e) in
  if vw_title_was_set view then Some (vw_title view) else None.

Definition refresh_identity_epoch (fresh : bytes) (e : TerminalEngine) : TerminalEngine :=
  let view := astra_view (en_terminal e) in
  if bool_decide (vw_identity_epoch view = en_identity_epoch e) then e
  else mkEngine (en_terminal e) (en_history_limits e) fresh (vw_identity_epoch view) (vw_sequence view)
         (en_cached_viewport e).

(** The export of a view under an epoch. *)
Definition export_view (view : TerminalView) (limits : HistoryLimits) (epoch : bytes)
    (epoch_sequence_start : N) (viewport_only : bool) : result State :=
  _ ← validate_authoritative_screens view limits;
  generation ← generation view epoch_sequence_start;
  let alternate_row_count := row_count (vw_alternate view) in
  ensure! alternate_row_count <=? MAX_INCLUDED_ROWS, "alternate screen exceeds terminal state row budget";
  let primary_row_budget := if viewport_only then view_rows view else MAX_INCLUDED_ROWS - alternate_row_count in
  '(t, primary) ← export_screen (vw_primary view) primary_row_budget epoch_sequence_start generation no_tables;
  '(t, alternate) ← export_screen (vw_alternate view) alternate_row_count epoch_sequence_start generation t;
  rows ← try_u32 (view_rows view);
  cols ← try_u32 (view_columns view);
  let state := mkState SCHEMA_VERSION epoch generation rows cols (Some primary) (Some alternate)
                 (match vw_active_screen view with ViewPrimary => 1 | ViewAlternate => 2 end)%Z
                 (et_styles t) (et_hyperlinks t) (Some (export_modes (vw_modes view))) (vw_title view)
                 (default "" (vw_working_directory view)) (Some (export_palette (vw_palette view))) in
  _ ← with_context (validate state) "authoritative terminal state is invalid";
  Ok state.
Definition export_engine (viewport_only : bool) (e : TerminalEngine) : result State :=
  export_view (astra_view (en_terminal e)) (en_history_limits e) (en_epoch e) (en_epoch_sequence_start e)
    viewport_only.
Definition export_state (viewport_only : bool) (fresh : bytes) (e : TerminalEngine) : TerminalEngine * result State :=
  let e := refresh_identity_epoch fresh e in
  (e, export_engine viewport_only e).

Definition semantic_state (fresh : bytes) (e : TerminalEngine) : TerminalEngine * result State :=
  export_state false fresh e.
Definition semantic_state_after (previous : bytes * N) (fresh fresh' : bytes) (e : TerminalEngine)
    : TerminalEngine * result (option State) :=
  let e := refresh_identity_epoch fresh e in
  match generation (astra_view (en_terminal e)) (en_epoch_sequence_start e) with
  | Err err => (e, Err err)
  | Ok revision =>
      if bool_decide (en_epoch e = previous.1) && (revision =? previous.2) then (e, Ok None)
      else let '(e, r) := semantic_state fresh' e in (e, s ← r; Ok (Some s))
  end.
Definition semantic_viewport (fresh : bytes) (e : TerminalEngine) : TerminalEngine * result State :=
  match en_cached_viewport e with
  | Some state => (e, Ok state)
  | None =>
      match export_state true fresh e with
      | (e, Err err) => (e, Err err)
      | (e, Ok state) => (set_cached (Some state) e, Ok state)
      end
  end.

(** ** Pages of history *)

Definition row_key (row : RowView) : N * N := (rv_logical_line_id row, rv_cell_offset row).
(** [Iterator::position] *)
Fixpoint position {A} (p : A -> bool) (l : list A) : option N :=
  match l with
  | [] => None
  | x :: l => if p x then Some 0 else n ← position p l; Some (n + 1)
  end.

Definition page_of (request_id : N) (request : HistoryPageRequest) (e : TerminalEngine) : result HistoryPage :=
  let view := astra_view (en_terminal e) in
  _ ← validate_authoritative_screens view (en_history_limits e);
  generation ← generation view (en_epoch_sequence_start e);
  let primary := vw_primary view in
  let row_count := row_count primary in
  oldest_available ← oldest_anchor primary;
  newest_available ← newest_anchor primary;
  if negb (bool_decide (hpr_epoch request = en_epoch e)) then
    cols ← try_u32 (view_columns view);
    let page := mkHistoryPage request_id (en_epoch e) generation cols [] (Some oldest_available)
                  (Some newest_available) None None [] [] false true in
    _ ← validate_history_page page;
    Ok page
  else
    before ← ok_or (hpr_before request) "history request anchor is missing";
    let end_index := N.min (default row_count
                       (position (fun row => key_leb (anchor_key before) (row_key row))
                          (rows_from primary 0 row_count))) (sv_viewport_start primary) in
    let start_index := end_index - hpr_maximum_rows request in
    '(t, included_rows) ← export_rows (rows_from primary start_index (end_index - start_index))
                            (sv_column_count primary) (en_epoch_sequence_start e) generation no_tables;
    cols ← try_u32 (view_columns view);
    let page := mkHistoryPage request_id (en_epoch e) generation cols included_rows (Some oldest_available)
                  (Some newest_available) (head included_rows ≫= row_start) (last included_rows ≫= row_start)
                  (et_styles t) (et_hyperlinks t) (0 <? start_index) false in
    _ ← with_context (validate_history_page page) "authoritative terminal history page is invalid";
    Ok page.

Definition history_page (request_id : N) (request : HistoryPageRequest) (fresh : bytes) (e : TerminalEngine)
    : TerminalEngine * result HistoryPage :=
  match (ensure! 0 <? request_id, "history request ID is zero"; validate_history_page_request request) with
  | Err err => (e, Err err)
  | Ok _ => let e := refresh_identity_epoch fresh e in (e, page_of request_id request e)
  end.
End engine.
Arguments TerminalEngine : clear implicits.
Arguments mkEngine {_} _ _ _ _ _ _.
