(* ===== verification/EngineSpec.v ===== *)
(** * Properties of the engine's export

    An exported state shows the emulator's screens cell by cell, the cached
    viewport is what a fresh export would give, and pages of history cover the
    scrollback. *)
From S2P Require Import Prelude TerminalState Engine.
Open Scope N_scope.

(** ** Interning *)

(** What a style identifier stands for, and a hyperlink identifier. *)
Definition resolve_style (styles : list Style) (id : N) : option Style :=
  if id =? 0 then Some (style_of 0 default_style_key)
  else find_map (fun s => if sty_id s =? id then Some s else None) styles.
Definition resolve_link (links : list Hyperlink) (id : N) : option Hyperlink :=
  if id =? 0 then None else find_map (fun l => if hl_id l =? id then Some l else None) links.

Definition link_key (l : Link) : string * string := (link_uri l, default "" (link_params_id l)).

(** An exported cell shows the emulator's cell: same place and text, a style
    identifier that stands for the cell's style, and its hyperlink. *)
Record shows (styles : list Style) (links : list Hyperlink) (v : CellView) (c : Cell) : Prop := {
  sh_column : cell_column c = cv_column v;
  sh_grapheme : cell_grapheme c = cv_grapheme v;
  sh_width : cell_width c = cv_width v;
  sh_style : resolve_style styles (cell_style_id c) = Some (style_of (cell_style_id c) (style_key (cv_attributes v)));
  sh_link : match ca_hyperlink (cv_attributes v) with
            | None => cell_hyperlink_id c = 0
            | Some l => cell_hyperlink_id c <> 0 /\
                resolve_link links (cell_hyperlink_id c) =
                  Some (mkHyperlink (cell_hyperlink_id c) (link_key l).1 (link_key l).2)
            end
}.

(** A blank cell is not exported. *)
Definition blank (v : CellView) : bool :=
  bool_decide (cv_grapheme v = " ") && bool_decide (style_key (cv_attributes v) = default_style_key)
  && is_none (ca_hyperlink (cv_attributes v)).
Definition visible_cells (columns : N) (cells : list CellView) : list CellView :=
  filter (fun v => cell_fits columns v = true /\ blank v = false) cells.

(** The tables give every key one identifier, its position. *)
Definition tables_ok (t : ExportTables) : Prop :=
  (forall id s, et_styles t !! id = Some s -> sty_id s = N.of_nat id + 1) /\
  (forall id l, et_hyperlinks t !! id = Some l -> hl_id l = N.of_nat id + 1) /\
  (forall k id, assoc k (et_style_ids t) = Some id -> 0 < id /\ et_styles t !! N.to_nat (id - 1) = Some (style_of id k)) /\
  (forall k id, assoc k (et_hyperlink_ids t) = Some id ->
     0 < id /\ et_hyperlinks t !! N.to_nat (id - 1) = Some (mkHyperlink id k.1 k.2)).
Definition tables_le (t t' : ExportTables) : Prop :=
  et_styles t `prefix_of` et_styles t' /\ et_hyperlinks t `prefix_of` et_hyperlinks t'.

#[global] Instance tables_le_preorder : PreOrder tables_le.
Proof. split; [by split|]. intros a b c [? ?] [? ?]. split; by etrans. Qed.

Lemma find_map_position {A} (f : A -> N) (l : list A) i x :
  (forall j y, l !! j = Some y -> f y = N.of_nat j + 1) -> l !! i = Some x ->
  find_map (fun y => if f y =? N.of_nat i + 1 then Some y else None) l = Some x.
Proof.
  intros Hf Hi. assert (Hgen : forall k l, (forall j y, l !! j = Some y -> f y = N.of_nat (k + j) + 1) ->
    forall i, l !! i = Some x -> find_map (fun y => if f y =? N.of_nat (k + i) + 1 then Some y else None) l = Some x).
  { clear. intros k l. revert k. induction l as [|y l IH]; intros k Hf i Hi; [done|]. cbn [find_map].
    pose proof (Hf O y eq_refl) as Hy. destruct i as [|i].
    - injection Hi as ->. rewrite Hy, N.eqb_refl. done.
    - rewrite (proj2 (N.eqb_neq _ _)) by lia. replace (k + S i)%nat with (S k + i)%nat by lia.
      apply IH; [|done]. intros j z Hz. rewrite (Hf (S j) z Hz). f_equal. lia. }
  apply (Hgen O l Hf i Hi).
Qed.

Lemma prefix_resolve_style t t' id s :
  tables_ok t' -> et_styles t `prefix_of` et_styles t' -> 0 < id ->
  et_styles t !! N.to_nat (id - 1) = Some s -> resolve_style (et_styles t') id = Some s.
Proof.
  intros (Hs & _) Hp Hid Hl. unfold resolve_style. rewrite (proj2 (N.eqb_neq id 0)) by lia.
  pose proof (find_map_position sty_id (et_styles t') (N.to_nat (id - 1)) s Hs (prefix_lookup_Some _ _ _ _ Hl Hp)) as Hf.
  by replace (N.of_nat (N.to_nat (id - 1)) + 1) with id in Hf by lia.
Qed.
Lemma prefix_resolve_link t t' id l :
  tables_ok t' -> et_hyperlinks t `prefix_of` et_hyperlinks t' -> 0 < id ->
  et_hyperlinks t !! N.to_nat (id - 1) = Some l -> resolve_link (et_hyperlinks t') id = Some l.
Proof.
  intros (_ & Hs & _) Hp Hid Hl. unfold resolve_link. rewrite (proj2 (N.eqb_neq id 0)) by lia.
  pose proof (find_map_position hl_id (et_hyperlinks t') (N.to_nat (id - 1)) l Hs (prefix_lookup_Some _ _ _ _ Hl Hp)) as Hf.
  by replace (N.of_nat (N.to_nat (id - 1)) + 1) with id in Hf by lia.
Qed.

Lemma assoc_cons `{EqDecision K} {A} (k k' : K) (a : A) l :
  assoc k ((k', a) :: l) = if decide (k' = k) then Some a else assoc k l.
Proof. unfold assoc. cbn. by case_bool_decide; case_decide. Qed.

Lemma tables_ok_empty : tables_ok no_tables.
Proof. split_and!; intros ? ? Hl; try done; by rewrite lookup_nil in Hl. Qed.

Lemma lookup_snoc_index {A} (l : list A) (x : A) (f : A -> N) :
  (forall i z, l !! i = Some z -> f z = N.of_nat i + 1) -> f x = llen l + 1 ->
  forall i z, (l ++ [x]) !! i = Some z -> f z = N.of_nat i + 1.
Proof.
  intros Hl Hx i z [Hz|[Hi Hz]]%lookup_app_Some; [by apply Hl|].
  apply list_lookup_singleton_Some in Hz as [Hz <-]. rewrite Hx. unfold llen. lia.
Qed.

(** ** One cell *)

Lemma tables_style_id_spec key t t' id :
  tables_ok t -> tables_style_id key t = Ok (t', id) ->
  tables_ok t' /\ tables_le t t' /\ et_hyperlinks t' = et_hyperlinks t /\
  (id = 0 <-> key = default_style_key) /\
  (0 < id -> et_styles t' !! N.to_nat (id - 1) = Some (style_of id key)).
Proof.
  intros Hok Hs. unfold tables_style_id in Hs. case_bool_decide as Hd.
  { injection Hs as <- <-. by split_and!. }
  destruct Hok as (H1 & H2 & H3 & H4). destruct (assoc key (et_style_ids t)) as [i|] eqn:Ha.
  - injection Hs as <- <-. destruct (H3 _ _ Ha) as [Hi Hl]. split_and!; try done. split; [lia|done].
  - ok_inv Hs. unfold try_u32 in Hr. destruct (_ <=? U32_MAX); [|done]. injection Hr as <-.
    set (id := llen (et_styles t) + 1) in *.
    assert (Hnew : (et_styles t ++ [style_of id key]) !! N.to_nat (id - 1) = Some (style_of id key)).
    { rewrite lookup_app_r by (unfold id, llen; lia). replace (N.to_nat (id - 1) - length (et_styles t))%nat with O by (unfold id, llen; lia). done. }
    split_and!; cbn; try done.
    + split_and!; cbn; try done.
      * by apply lookup_snoc_index.
      * intros k i. rewrite assoc_cons. case_decide as Hk.
        -- intros [= <-]. subst k. split; [unfold id; lia|done].
        -- intros Hi. destruct (H3 _ _ Hi) as [? ?]. split; [done|]. by apply lookup_app_l_Some.
    + split; cbn; [by apply prefix_app_r|done].
    + split; [unfold id; lia|done].
Qed.

Lemma tables_hyperlink_id_spec a t t' id :
  tables_ok t -> tables_hyperlink_id a t = Ok (t', id) ->
  tables_ok t' /\ tables_le t t' /\ et_styles t' = et_styles t /\
  match ca_hyperlink a with
  | None => id = 0
  | Some l => 0 < id /\ et_hyperlinks t' !! N.to_nat (id - 1) = Some (mkHyperlink id (link_key l).1 (link_key l).2)
  end.
Proof.
  intros Hok Hs. unfold tables_hyperlink_id in Hs. destruct (ca_hyperlink a) as [l|].
  2: { injection Hs as <- <-. by split_and!. }
  destruct Hok as (H1 & H2 & H3 & H4). cbv zeta in Hs. change (link_uri l, default "" (link_params_id l)) with (link_key l) in Hs.
  change (default "" (link_params_id l)) with (link_key l).2 in Hs.
  destruct (assoc (link_key l) (et_hyperlink_ids t)) as [i|] eqn:Ha.
  - injection Hs as <- <-. destruct (H4 _ _ Ha). by split_and!.
  - destruct (_ <? _); [|done]. injection Hs as <- <-. set (id := llen (et_hyperlinks t) + 1) in *.
    set (h := mkHyperlink id (link_key l).1 (link_key l).2).
    assert (Hnew : (et_hyperlinks t ++ [h]) !! N.to_nat (id - 1) = Some h).
    { rewrite lookup_app_r by (unfold id, llen; lia). replace (N.to_nat (id - 1) - length (et_hyperlinks t))%nat with O by (unfold id, llen; lia). done. }
    split_and!; cbn; try done.
    + split_and!; cbn; try done.
      * by apply lookup_snoc_index.
      * intros k i. rewrite assoc_cons. case_decide as Hk.
        -- intros [= <-]. subst k. split; [unfold id; lia|done].
        -- intros Hi. destruct (H4 _ _ Hi) as [? ?]. split; [done|]. by apply lookup_app_l_Some.
    + split; cbn; [done|by apply prefix_app_r].
    + unfold id. lia.
Qed.

Lemma try_u32_Ok n m : try_u32 n = Ok m <-> m = n /\ n <= U32_MAX.
Proof. unfold try_u32. destruct (N.leb_spec n U32_MAX); split; intros; simplify_eq; intuition (congruence || lia). Qed.

(** In any later tables an exported cell still shows the same. *)
Lemma export_cell_spec v t t' c :
  tables_ok t -> export_cell v t = Ok (t', c) ->
  tables_ok t' /\ tables_le t t' /\
  match c with
  | None => blank v = true
  | Some c => blank v = false /\
      forall t'', tables_ok t'' -> tables_le t' t'' -> shows (et_styles t'') (et_hyperlinks t'') v c
  end.
Proof.
  intros Hok He. unfold export_cell in He.
  destruct (tables_style_id (style_key (cv_attributes v)) t) as [[t1 sid]|] eqn:Hs; [|done]. cbn [mbind result_bind] in He.
  destruct (tables_hyperlink_id (cv_attributes v) t1) as [[t2 lid]|] eqn:Hl; [|done]. cbn [mbind result_bind] in He.
  destruct (tables_style_id_spec _ _ _ _ Hok Hs) as (Hok1 & Hle1 & _ & Hdef & Hsty).
  destruct (tables_hyperlink_id_spec _ _ _ _ Hok1 Hl) as (Hok2 & Hle2 & Hsame & Hlink).
  assert (Hblank : blank v = bool_decide (cv_grapheme v = " ") && (sid =? 0) && (lid =? 0)).
  { unfold blank. f_equal; [f_equal|].
    - destruct (N.eqb_spec sid 0) as [E|E]; [by rewrite bool_decide_true by (by apply Hdef)|]. rewrite bool_decide_false; [done|]. intros ?. by apply E, Hdef.
    - destruct (ca_hyperlink (cv_attributes v)); cbn; [|by subst]. symmetry. apply N.eqb_neq. lia. }
  rewrite <- Hblank in He. destruct (blank v).
  { injection He as <- <-. split_and!; [done|by etrans|done]. }
  ok_inv He. apply try_u32_Ok in Hr as [-> _]. apply try_u32_Ok in Hr0 as [-> _].
  split_and!; [done|by etrans|done|]. intros t'' Hok3 Hle3. split; cbn; try done.
  - destruct (decide (sid = 0)) as [E|E]; [subst sid; by rewrite (proj1 Hdef eq_refl)|].
    apply (prefix_resolve_style t'); [done|by apply Hle3|lia|]. rewrite Hsame. apply Hsty. lia.
  - destruct (ca_hyperlink (cv_attributes v)) as [l|]; [|done]. split; [lia|].
    apply (prefix_resolve_link t'); [done|by apply Hle3|lia|]. by apply Hlink.
Qed.

(** ** Rows and screens *)

Lemma export_cells_spec columns cells : forall t t' out,
  tables_ok t -> export_cells columns cells t = Ok (t', out) ->
  tables_ok t' /\ tables_le t t' /\
  forall t'', tables_ok t'' -> tables_le t' t'' ->
    Forall2 (shows (et_styles t'') (et_hyperlinks t'')) (visible_cells columns cells) out.
Proof.
  induction cells as [|v cells IH]; intros t t' out Hok He; cbn [export_cells] in He.
  { injection He as <- <-. split_and!; [done|done|constructor]. }
  unfold visible_cells. rewrite filter_cons. destruct (cell_fits columns v) eqn:Hfit.
  - destruct (export_cell v t) as [[t1 c]|] eqn:Hc; [|done]. cbn [mbind result_bind] in He.
    destruct (export_cells columns cells t1) as [[t2 rest]|] eqn:Hr; [|done]. cbn [mbind result_bind] in He. injection He as <- <-.
    destruct (export_cell_spec _ _ _ _ Hok Hc) as (Hok1 & Hle1 & Hsh).
    destruct (IH _ _ _ Hok1 Hr) as (Hok2 & Hle2 & Hrest). split_and!; [done|by etrans|].
    intros t'' Hok3 Hle3. destruct c as [c|].
    + destruct Hsh as [Hb Hsh]. rewrite decide_True by done. constructor; [apply Hsh; [done|by etrans]|by apply Hrest].
    + rewrite decide_False by (intros [_ ?]; congruence). by apply Hrest.
  - rewrite decide_False by (intros [? _]; congruence). apply (IH _ _ _ Hok He).
Qed.

(** A row of the state shows a row of the emulator. *)
Record shows_row (styles : list Style) (links : list Hyperlink) (columns : N) (v : RowView) (r : Row) : Prop := {
  sr_start : row_start r = Some (mkAnchor (rv_logical_line_id v) (rv_cell_offset v));
  sr_wrapped : row_wrapped_to_next r = rv_wrapped_to_next v;
  sr_cells : Forall2 (shows styles links) (visible_cells columns (rv_cells v)) (row_cells r)
}.

Lemma anchor_Ok l o a : anchor l o = Ok a -> a = mkAnchor l o.
Proof. unfold anchor. destruct (_ <=? _); [|done]. by intros [= <-]. Qed.

Lemma export_row_spec v columns start gen t t' r :
  tables_ok t -> export_row v columns start gen t = Ok (t', r) ->
  tables_ok t' /\ tables_le t t' /\
  forall t'', tables_ok t'' -> tables_le t' t'' -> shows_row (et_styles t'') (et_hyperlinks t'') columns v r.
Proof.
  intros Hok He. unfold export_row in He. ok_step He. ok_step He.
  destruct (export_cells columns (rv_cells v) t) as [[t1 cells]|] eqn:Hc; [|done]. cbn [mbind result_bind] in He.
  ok_step He. injection He as <- <-. destruct (export_cells_spec _ _ _ _ _ Hok Hc) as (Hok1 & Hle1 & Hsh).
  split_and!; [done|done|]. intros t'' Hok2 Hle2. split; cbn; [|done|by apply Hsh].
  match goal with H : anchor _ _ = Ok _ |- _ => by apply anchor_Ok in H as -> end.
Qed.

Lemma export_rows_spec columns start gen vs : forall t t' rs,
  tables_ok t -> export_rows vs columns start gen t = Ok (t', rs) ->
  tables_ok t' /\ tables_le t t' /\
  forall t'', tables_ok t'' -> tables_le t' t'' -> Forall2 (shows_row (et_styles t'') (et_hyperlinks t'') columns) vs rs.
Proof.
  induction vs as [|v vs IH]; intros t t' rs Hok He; cbn [export_rows] in He.
  { injection He as <- <-. split_and!; [done|done|constructor]. }
  destruct (export_row v columns start gen t) as [[t1 r]|] eqn:Hr; [|done]. cbn [mbind result_bind] in He.
  destruct (export_rows vs columns start gen t1) as [[t2 rest]|] eqn:Hrs; [|done]. cbn [mbind result_bind] in He. injection He as <- <-.
  destruct (export_row_spec _ _ _ _ _ _ _ Hok Hr) as (Hok1 & Hle1 & Hsh).
  destruct (IH _ _ _ Hok1 Hrs) as (Hok2 & Hle2 & Hrest). split_and!; [done|by etrans|].
  intros t'' Hok3 Hle3. constructor; [apply Hsh; [done|by etrans]|by apply Hrest].
Qed.

(** The rows of a screen that are exported: at least the viewport, and as much of
    the scrollback as the budget allows. *)
Definition included_start_index (v : ScreenView) (budget : N) : N := N.min (row_count v - budget) (sv_viewport_start v).

Record shows_screen (styles : list Style) (links : list Hyperlink) (budget : N) (v : ScreenView) (s : Screen) : Prop := {
  ss_rows : Forall2 (shows_row styles links (sv_column_count v))
              (drop (N.to_nat (included_start_index v budget)) (sv_all_rows v)) (sc_included_rows s);
  ss_viewport : sc_viewport_start s + included_start_index v budget = sv_viewport_start v;
  ss_tabs : sc_tab_stops s = filter (fun c => c < sv_column_count v) (sv_tab_stops v)
}.

Lemma try_u32s_Ok l out : try_u32s l = Ok out -> out = l.
Proof.
  unfold try_u32s. assert (Hgen : forall acc, try_fold (fun acc n => n ← try_u32 n; Ok (acc ++ [n])) acc l = Ok out -> out = acc ++ l).
  { induction l as [|n l IH]; intros acc Hf; cbn [try_fold] in Hf; [injection Hf as <-; by rewrite app_nil_r|].
    destruct (try_u32 n) as [m|] eqn:Hn; [|done]. cbn [mbind result_bind] in Hf. apply try_u32_Ok in Hn as [-> _].
    rewrite (IH _ Hf). by rewrite <- app_assoc. }
  apply Hgen.
Qed.

Lemma export_screen_spec v budget start gen t t' s :
  tables_ok t -> export_screen v budget start gen t = Ok (t', s) ->
  tables_ok t' /\ tables_le t t' /\
  forall t'', tables_ok t'' -> tables_le t' t'' -> shows_screen (et_styles t'') (et_hyperlinks t'') budget v s.
Proof.
  intros Hok He. unfold export_screen in He. cbv zeta in He. ok_step He.
  destruct (export_rows _ _ _ _ t) as [[t1 rows]|] eqn:Hr; [|done]. cbn [mbind result_bind] in He.
  fold (included_start_index v budget) in Hr, He.
  destruct (export_rows_spec _ _ _ _ _ _ _ Hok Hr) as (Hok1 & Hle1 & Hsh).
  do 12 ok_step He. injection He as <- <-. split_and!; [done|done|]. intros t'' Hok2 Hle2.
  repeat match goal with H : try_u32 _ = Ok _ |- _ => apply try_u32_Ok in H as [-> _] end.
  match goal with H : try_u32s _ = Ok _ |- _ => apply try_u32s_Ok in H as -> end.
  split; cbn; [|unfold included_start_index; lia|done].
  specialize (Hsh t'' Hok2 Hle2). unfold rows_from in Hsh. rewrite take_ge in Hsh; [done|].
  rewrite length_drop. unfold row_count, llen. lia.
Qed.

(** ** Whole states *)

Section engine_spec.
Context `{StateLib} {T : Type} `{Emulator T}.

(** Line [y] of the viewport, in the emulator and in the state. *)
Definition shows_line (styles : list Style) (links : list Hyperlink) (v : ScreenView) (s : Screen) (y : N) : Prop :=
  exists rv r, sv_all_rows v !! N.to_nat (sv_viewport_start v + y) = Some rv /\
    sc_included_rows s !! N.to_nat (sc_viewport_start s + y) = Some r /\
    shows_row styles links (sv_column_count v) rv r.

Lemma shows_screen_line styles links budget v s y :
  shows_screen styles links budget v s -> sv_viewport_start v + y < row_count v -> shows_line styles links v s y.
Proof.
  intros [Hrows Hvp _] Hy. unfold row_count, llen in Hy.
  destruct (lookup_lt_is_Some_2 (sv_all_rows v) (N.to_nat (sv_viewport_start v + y))) as [rv Hrv]; [lia|].
  assert (Hd : drop (N.to_nat (included_start_index v budget)) (sv_all_rows v) !! N.to_nat (sc_viewport_start s + y) = Some rv).
  { rewrite lookup_drop. rewrite <- Hrv. f_equal. lia. }
  destruct (Forall2_lookup_l _ _ _ _ _ Hrows Hd) as (r & Hr & Hsh). by exists rv, r.
Qed.

Lemma export_view_shows v limits epoch start only st :
  export_view v limits epoch start only = Ok st ->
  validate st = Ok tt /\ st_epoch st = epoch /\ generation v start = Ok (st_generation st) /\
  st_rows st = view_rows v /\ st_cols st = view_columns v /\
  st_title st = vw_title v /\ st_modes st = Some (export_modes (vw_modes v)) /\
  exists p a, st_primary st = Some p /\ st_alternate st = Some a /\
    shows_screen (st_styles st) (st_hyperlinks st)
      (if only then view_rows v else MAX_INCLUDED_ROWS - row_count (vw_alternate v)) (vw_primary v) p /\
    shows_screen (st_styles st) (st_hyperlinks st) (row_count (vw_alternate v)) (vw_alternate v) a /\
    validate_authoritative_screens v limits = Ok tt.
Proof.
  unfold export_view. intros He. ok_step He. ok_step He. cbv zeta in He. ok_step He.
  destruct (export_screen (vw_primary v) _ _ _ no_tables) as [[t1 p]|] eqn:Hp; [|done]. cbn [mbind result_bind] in He.
  destruct (export_screen (vw_alternate v) _ _ _ t1) as [[t2 alt]|] eqn:Ha; [|done]. cbn [mbind result_bind] in He.
  ok_step He. ok_step He. ok_step He. injection He as <-. repeat match goal with u : unit |- _ => destruct u end.
  repeat match goal with H : try_u32 _ = Ok _ |- _ => apply try_u32_Ok in H as [-> _] end.
  destruct (export_screen_spec _ _ _ _ _ _ _ tables_ok_empty Hp) as (Hok1 & Hle1 & Hsh1).
  destruct (export_screen_spec _ _ _ _ _ _ _ Hok1 Ha) as (Hok2 & Hle2 & Hsh2).
  match goal with H : with_context (validate ?s) _ = Ok _ |- _ => destruct (validate s) as [[]|] eqn:Hv; [|cbn in H; by case_bool_decide] end.
  cbn. split_and!; try done. exists p, alt. split_and!; [done|done|by apply Hsh1|by apply Hsh2|done].
Qed.

Lemma refresh_view fresh (e : TerminalEngine T) :
  en_terminal (refresh_identity_epoch fresh e) = en_terminal e /\
  en_history_limits (refresh_identity_epoch fresh e) = en_history_limits e.
Proof. unfold refresh_identity_epoch. by case_bool_decide. Qed.

(** C37: an exported state is valid and shows the emulator: every line of both
    viewports holds exactly the cells of the emulator's line that fit the columns and
    are not blank, each with its place, text, style and hyperlink; an export of the
    viewport includes no scrollback. *)
Theorem export_shows_screens only fresh (e e' : TerminalEngine T) st :
  export_state only fresh e = (e', Ok st) ->
  let v := astra_view (en_terminal e) in
  validate st = Ok tt /\ st_rows st = view_rows v /\ st_cols st = view_columns v /\
  exists p a, st_primary st = Some p /\ st_alternate st = Some a /\
    (forall y, y < st_rows st ->
       shows_line (st_styles st) (st_hyperlinks st) (vw_primary v) p y /\
       shows_line (st_styles st) (st_hyperlinks st) (vw_alternate v) a y) /\
    (only = true -> sc_viewport_start p = 0 /\ llen (sc_included_rows p) = st_rows st).
Proof.
  unfold export_state. intros [= <- He]. unfold export_engine in He. destruct (refresh_view fresh e) as [Ht Hl].
  rewrite Ht, Hl in He. destruct (export_view_shows _ _ _ _ _ _ He) as (Hv & _ & _ & Hrows & Hcols & _ & _ & p & a & Hp & Ha & Sp & Sa & Hauth).
  cbv zeta. split_and!; try done. exists p, a. unfold validate_authoritative_screens in Hauth. ok_inv Hauth. bool_prop.
  split_and!; try done.
  - intros y Hy. rewrite Hrows in Hy. split; eapply shows_screen_line; try done; lia.
  - intros ->. destruct Sp as [Srows Svp _].
    assert (Hidx : included_start_index (vw_primary (astra_view (en_terminal e))) (view_rows (astra_view (en_terminal e))) =
                   sv_viewport_start (vw_primary (astra_view (en_terminal e)))) by (unfold included_start_index; lia).
    rewrite Hidx in *. apply Forall2_length in Srows. rewrite length_drop in Srows. split; [lia|].
    rewrite Hrows. unfold llen. rewrite <- Srows, Nat2N.inj_sub, N2Nat.id. fold (llen (sv_all_rows (vw_primary (astra_view (en_terminal e))))).
    fold (row_count (vw_primary (astra_view (en_terminal e)))). lia.
Qed.

(** ** Caching *)

(** The emulator moves by output and by resizes. *)
Definition emulator_step (t t' : T) : Prop :=
  (exists data, t' = advance_bytes data t) \/ (exists size, t' = emulator_resize size t).

Abbreviation engine_world := (TerminalEngine T * list State * list bytes)%type.

(** The engine, the complete states it has exported and the epochs it has drawn; a
    drawn epoch is new. *)
Inductive engine_step : engine_world -> engine_world -> Prop :=
| step_advance e log used data : engine_step (e, log, used) (advance data e, log, used)
| step_resize e log used rows cols w h :
    engine_step (e, log, used) ((resize_engine rows cols w h e).1, log, used)
| step_state e log used fresh e' st :
    fresh ∉ used -> semantic_state fresh e = (e', Ok st) -> engine_step (e, log, used) (e', st :: log, fresh :: used)
| step_state_failed e log used fresh e' err :
    fresh ∉ used -> semantic_state fresh e = (e', Err err) -> engine_step (e, log, used) (e', log, fresh :: used)
| step_viewport e log used fresh :
    fresh ∉ used -> engine_step (e, log, used) ((semantic_viewport fresh e).1, log, fresh :: used)
| step_page e log used id request fresh :
    fresh ∉ used -> engine_step (e, log, used) ((history_page id request fresh e).1, log, fresh :: used).

Inductive engine_reachable : engine_world -> Prop :=
| reach_engine rows cols limits new_terminal epoch e :
    with_history_limits rows cols limits new_terminal epoch = Ok e -> engine_reachable (e, [], [epoch])
| reach_engine_step w w' : engine_reachable w -> engine_step w w' -> engine_reachable w'.

(** Where a state of the current epoch comes from. *)
Definition exported_from (e : TerminalEngine T) (st : State) : Prop :=
  exists t, rtc emulator_step t (en_terminal e) /\ vw_identity_epoch (astra_view t) = en_identity_epoch e /\
    export_view (astra_view t) (en_history_limits e) (en_epoch e) (en_epoch_sequence_start e) false = Ok st.

Definition engine_inv (w : engine_world) : Prop :=
  let '(e, log, used) := w in
  en_epoch e ∈ used /\
  (forall st, st ∈ log -> st_epoch st ∈ used /\ (st_epoch st = en_epoch e -> exported_from e st)) /\
  (forall st, en_cached_viewport e = Some st ->
     vw_identity_epoch (astra_view (en_terminal e)) = en_identity_epoch e /\ export_engine true e = Ok st).

(** Only the emulator moves. *)
Lemma engine_inv_move e log used t :
  engine_inv (e, log, used) -> rtc emulator_step (en_terminal e) t ->
  engine_inv (set_terminal t (set_cached None e), log, used).
Proof.
  intros (Hu & Hlog & _) Ht. split_and!; [done| |done]. intros st Hst. destruct (Hlog _ Hst) as [Hin Hfrom].
  split; [done|]. intros He. destruct (Hfrom He) as (t0 & Hs & Hi & Hx). exists t0. split; [by etrans|]. by split.
Qed.
Lemma engine_inv_refresh e log used fresh :
  engine_inv (e, log, used) -> fresh ∉ used -> engine_inv (refresh_identity_epoch fresh e, log, fresh :: used).
Proof.
  intros (Hu & Hlog & Hc) Hf. unfold refresh_identity_epoch. case_bool_decide as Hid; split_and!; cbn [en_epoch].
  - by right.
  - intros st Hst. destruct (Hlog _ Hst) as [Hin Hfrom]. split; [by right|done].
  - done.
  - left.
  - intros st Hst. destruct (Hlog _ Hst) as [Hin _]. split; [by right|]. intros He. congruence.
  - intros st Hst. cbn in Hst. destruct (Hc _ Hst). congruence.
Qed.
Lemma refreshed fresh (e : TerminalEngine T) :
  vw_identity_epoch (astra_view (en_terminal (refresh_identity_epoch fresh e))) =
  en_identity_epoch (refresh_identity_epoch fresh e).
Proof. unfold refresh_identity_epoch. by case_bool_decide. Qed.

Lemma refresh_cases fresh (e : TerminalEngine T) :
  refresh_identity_epoch fresh e = e \/ en_epoch (refresh_identity_epoch fresh e) = fresh.
Proof. unfold refresh_identity_epoch. case_bool_decide; [by left|by right]. Qed.

Lemma engine_inv_step w w' : engine_inv w -> engine_step w w' -> engine_inv w'.
Proof.
  intros Hinv Hs. destruct Hs as [e log used data|e log used rows cols pw ph|e log used fresh e' st Hf Hst|e log used fresh e' err Hf Hst|e log used fresh Hf|e log used id request fresh Hf].
  - apply (engine_inv_move e); [done|]. apply rtc_once. left. by eexists.
  - unfold resize_engine. destruct (_ && _); cbn [fst].
    + apply (engine_inv_move e); [done|]. apply rtc_once. right. by eexists.
    + destruct Hinv as (? & ? & _). by split_and!.
  - unfold semantic_state, export_state in Hst. injection Hst as <- Hst.
    destruct (engine_inv_refresh _ _ _ _ Hinv Hf) as (Hu & Hlog & Hc). split_and!; [done| |done].
    intros st' [->|Hin]%elem_of_cons; [|by apply Hlog]. unfold export_engine in Hst.
    destruct (export_view_shows _ _ _ _ _ _ Hst) as (_ & He & _).
    split; [by rewrite He|]. intros _. eexists. split; [reflexivity|]. split; [apply refreshed|exact Hst].
  - unfold semantic_state, export_state in Hst. injection Hst as <- _. by apply engine_inv_refresh.
  - unfold semantic_viewport. destruct (en_cached_viewport e) as [st|] eqn:Hcache; cbn [fst].
    + destruct Hinv as (Hu & Hlog & Hc). split_and!; [by right| |done]. intros s Hs. destruct (Hlog _ Hs). split; [by right|done].
    + unfold export_state. pose proof (engine_inv_refresh _ _ _ _ Hinv Hf) as Hi.
      destruct (export_engine true (refresh_identity_epoch fresh e)) as [st|] eqn:Hx; cbn [fst]; [|done].
      destruct Hi as (Hu & Hlog & _). split_and!; [done|done|]. intros s [= <-]. split; [apply refreshed|exact Hx].
  - unfold history_page. destruct (if 0 <? id then _ else _); cbn [fst]; [by apply engine_inv_refresh|].
    destruct Hinv as (Hu & Hlog & Hc). split_and!; [by right| |done]. intros s Hs. destruct (Hlog _ Hs). split; [by right|done].
Qed.

Lemma engine_invariant w : engine_reachable w -> engine_inv w.
Proof.
  induction 1 as [rows cols limits nt epoch e He|]; [|by eapply engine_inv_step].
  unfold with_history_limits in He. destruct (_ && _); [|done]. injection He as <-. split_and!; [left| |done].
  by intros st ?%elem_of_nil.
Qed.

Lemma generation_inj v v' start g : generation v start = Ok g -> generation v' start = Ok g -> vw_sequence v = vw_sequence v'.
Proof.
  unfold generation, checked_sub, checked_add. destruct (N.leb_spec start (vw_sequence v)); [|done].
  destruct (N.leb_spec start (vw_sequence v')); [|done]. cbn [ok_or mbind result_bind].
  destruct (_ <=? _); [|done]. destruct (_ <=? _); [|done]. cbn. intros [= <-] [= ?]. lia.
Qed.

(** The cached viewport is the one that an export would give now; and when a
    client's state is reported as current, by its epoch and generation, it is the state
    that an export would give now, provided the emulator's sequence number identifies
    its view within an identity epoch. *)
Theorem viewport_cache_exact e log used fresh :
  engine_reachable (e, log, used) -> fresh ∉ used ->
  (forall t t', rtc emulator_step t t' -> vw_identity_epoch (astra_view t) = vw_identity_epoch (astra_view t') ->
     vw_sequence (astra_view t) = vw_sequence (astra_view t') -> astra_view t = astra_view t') ->
  (semantic_viewport fresh e).2 = (export_state true fresh e).2 /\
  forall st fresh' e', st ∈ log ->
    semantic_state_after (st_epoch st, st_generation st) fresh fresh' e = (e', Ok None) ->
    export_state false fresh e = (e', Ok st).
Proof.
  intros (Hu & Hlog & Hc)%engine_invariant Hf Hseq. split.
  - unfold semantic_viewport. destruct (en_cached_viewport e) as [st|].
    + destruct (Hc st eq_refl) as [Hid Hx]. unfold export_state, refresh_identity_epoch. rewrite bool_decide_true by done. by rewrite Hx.
    + unfold export_state. by destruct (export_engine true (refresh_identity_epoch fresh e)).
  - intros st fresh' e' Hst Ha. unfold semantic_state_after in Ha.
    destruct (generation _ _) as [rev|] eqn:Hg; [|done]. destruct (Hlog _ Hst) as [Hin Hfrom].
    pose proof (refresh_cases fresh e) as Hcase.
    destruct (bool_decide _ && _) eqn:Hb; [|by destruct (semantic_state fresh' _) as [? []]]. cbn [fst snd] in Hb. bool_prop.
    injection Ha as <-. destruct Hcase as [Hr|Hr]; [|congruence]. pose proof (refreshed fresh e) as Hid. rewrite Hr in *.
    destruct (Hfrom ltac:(done)) as (t & Hsteps & Hti & Hx).
    destruct (export_view_shows _ _ _ _ _ _ Hx) as (_ & _ & Hgt & _). subst rev.
    assert (Hsame : astra_view t = astra_view (en_terminal e)).
    { apply Hseq; [done|congruence|]. by eapply generation_inj. }
    unfold export_state, export_engine. rewrite Hr. rewrite <- Hsame. by rewrite Hx.
Qed.

(** ** Paging through the history *)

(** A reader that asks for pages of at most [n] rows, each before the first row of
    the last one, until there is nothing before.  [None] would be an unfinished
    reading. *)
Fixpoint read_history (fuel : nat) (n : N) (before : Anchor) (fresh : bytes) (e : TerminalEngine T)
    : option (result (list HistoryPage)) :=
  match fuel with
  | O => None
  | S fuel =>
      match (history_page 1 (mkHistoryPageRequest (en_epoch e) (Some before) n) fresh e).2 with
      | Err err => Some (Err err)
      | Ok page =>
          match hp_more_before page, hp_included_start page with
          | true, Some start =>
              r ← read_history fuel n start fresh e; Some (pages ← r; Ok (pages ++ [page]))
          | _, _ => Some (Ok [page])
          end
      end
  end.

Definition row_lt (a b : RowView) : Prop := key_ltb (row_key a) (row_key b) = true.

Lemma key_ltb_irrefl a b : key_ltb a b = true -> key_leb b a = false.
Proof.
  unfold key_ltb, key_leb. destruct a as [a1 a2], b as [b1 b2]. cbn. intros [Hl|[Hl%N.eqb_eq Hr%N.ltb_lt]%andb_prop]%orb_prop.
  - apply N.ltb_lt in Hl. rewrite (proj2 (N.ltb_ge b1 a1)), (proj2 (N.eqb_neq b1 a1)) by lia. done.
  - subst. rewrite N.ltb_irrefl, N.eqb_refl, (proj2 (N.leb_gt _ _)) by lia. done.
Qed.
Lemma key_leb_refl a : key_leb a a = true.
Proof. unfold key_leb. by rewrite N.eqb_refl, N.leb_refl, orb_true_r. Qed.

(** In rows ordered by their identity, a row's own anchor is found at its index. *)
Lemma position_own_key l i r :
  StronglySorted row_lt l -> l !! i = Some r -> position (fun x => key_leb (row_key r) (row_key x)) l = Some (N.of_nat i).
Proof.
  intros Hs. revert i. induction Hs as [|x l _ IH Hx]; intros i Hi; [done|]. cbn [position]. destruct i as [|i].
  - injection Hi as ->. by rewrite key_leb_refl.
  - cbn in Hi. rewrite Forall_forall in Hx. assert (Hlt : row_lt x r) by (apply Hx; by eapply list_elem_of_lookup_2).
    rewrite (key_ltb_irrefl _ _ Hlt), (IH i Hi). cbn. f_equal. lia.
Qed.

(** The rows a page shows, with the page's own tables. *)
Definition page_shows (columns : N) (page : HistoryPage) (vs : list RowView) : Prop :=
  Forall2 (shows_row (hp_styles page) (hp_hyperlinks page) columns) vs (hp_included_rows page).

(** The page before row [i]: the [n] rows before it, or as many as there are. *)
Lemma page_before (e : TerminalEngine T) i r n fresh page :
  let v := vw_primary (astra_view (en_terminal e)) in
  vw_identity_epoch (astra_view (en_terminal e)) = en_identity_epoch e ->
  StronglySorted row_lt (sv_all_rows v) -> sv_all_rows v !! i = Some r -> N.of_nat i <= sv_viewport_start v ->
  (history_page 1 (mkHistoryPageRequest (en_epoch e) (Some (mkAnchor (rv_logical_line_id r) (rv_cell_offset r))) n) fresh e).2 = Ok page ->
  let start := (i - N.to_nat n)%nat in
  page_shows (sv_column_count v) page (take (i - start) (drop start (sv_all_rows v))) /\
  hp_more_before page = (0 <? start)%nat /\
  ((start < i)%nat -> exists r', sv_all_rows v !! start = Some r' /\
     hp_included_start page = Some (mkAnchor (rv_logical_line_id r') (rv_cell_offset r'))).
Proof.
  intros v Hid Hs Hr Hi Hp. unfold history_page in Hp. destruct (if 0 <? 1 then _ else _); [|done].
  assert (Hre : refresh_identity_epoch fresh e = e) by (unfold refresh_identity_epoch; by rewrite bool_decide_true).
  rewrite Hre in Hp. cbn [snd] in Hp. unfold page_of in Hp. cbv zeta in Hp. fold v in Hp.
  do 4 ok_step Hp. rewrite bool_decide_true in Hp by done. cbn [negb hpr_before ok_or mbind result_bind] in Hp.
  set (p := fun row => key_leb _ (row_key row)) in Hp.
  assert (Hpos : position p (rows_from v 0 (row_count v)) = Some (N.of_nat i)).
  { unfold rows_from, row_count, llen. rewrite drop_0, take_ge by lia. by apply (position_own_key _ i r). }
  rewrite Hpos in Hp. unfold default, from_option, id in Hp. rewrite N.min_l in Hp by done. cbn [hpr_maximum_rows] in Hp.
  destruct (export_rows _ _ _ _ no_tables) as [[t rows]|] eqn:Hx; [|done]. cbn [mbind result_bind] in Hp.
  do 2 ok_step Hp. injection Hp as <-. destruct (export_rows_spec _ _ _ _ _ _ _ tables_ok_empty Hx) as (Hok & _ & Hsh).
  specialize (Hsh t Hok ltac:(reflexivity)). unfold rows_from in Hsh.
  set (start := (i - N.to_nat n)%nat). replace (N.to_nat (N.of_nat i - n)) with start in Hsh by (unfold start; lia).
  replace (N.to_nat (N.of_nat i - (N.of_nat i - n))) with (i - start)%nat in Hsh by (unfold start; lia).
  cbn [hp_more_before hp_included_start hp_included_rows hp_styles hp_hyperlinks]. split_and!; [exact Hsh| |].
  - destruct (Nat.ltb_spec 0 start); destruct (N.ltb_spec 0 (N.of_nat i - n)); try done; unfold start in *; lia.
  - intros Hlt. destruct (lookup_lt_is_Some_2 (sv_all_rows v) start) as [r' Hr']; [apply lookup_lt_Some in Hr; lia|].
    exists r'. split; [done|]. rewrite (drop_S _ _ _ Hr') in Hsh. destruct (i - start)%nat as [|k] eqn:Hk; [lia|]. cbn [take] in Hsh.
    inversion Hsh as [|? r0 ? rs Hrow _]; subst. cbn. by apply sr_start in Hrow.
Qed.

Lemma read_history_before (e : TerminalEngine T) n fresh :
  let v := vw_primary (astra_view (en_terminal e)) in
  vw_identity_epoch (astra_view (en_terminal e)) = en_identity_epoch e -> 0 < n -> StronglySorted row_lt (sv_all_rows v) ->
  forall fuel i r, (i < fuel)%nat -> sv_all_rows v !! i = Some r -> N.of_nat i <= sv_viewport_start v ->
  match read_history fuel n (mkAnchor (rv_logical_line_id r) (rv_cell_offset r)) fresh e with
  | None => False
  | Some (Err err) => exists before, (history_page 1 (mkHistoryPageRequest (en_epoch e) (Some before) n) fresh e).2 = Err err
  | Some (Ok pages) => exists chunks, Forall2 (page_shows (sv_column_count v)) pages chunks /\
                         concat chunks = take i (sv_all_rows v)
  end.
Proof.
  intros v Hid Hn Hs fuel. induction fuel as [|fuel IH]; intros i r Hf Hr Hi; [lia|]. cbn [read_history].
  destruct ((history_page 1 _ fresh e).2) as [page|err] eqn:Hp; [|eauto].
  destruct (page_before e i r n fresh page Hid Hs Hr Hi Hp) as (Hsh & Hmore & Hstart). fold v in Hsh, Hstart.
  set (start := (i - N.to_nat n)%nat) in *. rewrite Hmore. destruct (Nat.ltb_spec 0 start) as [Hpos|Hpos].
  - destruct (Hstart ltac:(lia)) as (r' & Hr' & ->). specialize (IH start r' ltac:(lia) Hr' ltac:(lia)).
    destruct (read_history fuel n _ fresh e) as [[pages|err]|]; [|exact IH|done]. cbn [mbind option_bind result_bind].
    destruct IH as (chunks & Hch & Hcat). exists (chunks ++ [take (i - start) (drop start (sv_all_rows v))]). split.
    + apply Forall2_app; [done|]. by constructor.
    + rewrite concat_app, Hcat. cbn. rewrite app_nil_r. rewrite take_take_drop. f_equal. unfold start. lia.
  - assert (start = 0%nat) as Hz by lia. rewrite Hz, Nat.sub_0_r, drop_0 in Hsh.
    exists [take i (sv_all_rows v)]. split; [by repeat constructor|]. cbn. apply app_nil_r.
Qed.

(** Reading the history page by page from the first line of the viewport ends
    within as many pages as there are rows of scrollback, and unless the engine
    reports an error the pages are exactly the scrollback, every row once and in
    order. *)
Theorem history_paging_complete (e : TerminalEngine T) n fresh r :
  let v := vw_primary (astra_view (en_terminal e)) in
  vw_identity_epoch (astra_view (en_terminal e)) = en_identity_epoch e -> 0 < n -> StronglySorted row_lt (sv_all_rows v) ->
  sv_all_rows v !! N.to_nat (sv_viewport_start v) = Some r ->
  match read_history (S (N.to_nat (sv_viewport_start v))) n (mkAnchor (rv_logical_line_id r) (rv_cell_offset r)) fresh e with
  | None => False
  | Some (Err err) => exists before, (history_page 1 (mkHistoryPageRequest (en_epoch e) (Some before) n) fresh e).2 = Err err
  | Some (Ok pages) => exists chunks, Forall2 (page_shows (sv_column_count v)) pages chunks /\
                         concat chunks = take (N.to_nat (sv_viewport_start v)) (sv_all_rows v)
  end.
Proof. intros v Hid Hn Hs Hr. apply (read_history_before e n fresh Hid Hn Hs _ _ r); [apply Nat.lt_succ_diag_r|done|by rewrite N2Nat.id]. Qed.
End engine_spec.

(** ** Witnesses

    An emulator that only counts: a view with two lines of scrollback and a line of
    viewport, the second line styled and linked. *)
#[local] Instance demo_state_lib : StateLib := {| state_encoded_len _ := 0; page_encoded_len _ := 0; grapheme_count _ := 1 |}.
Definition bump (v : TerminalView) : TerminalView :=
  mkView (vw_primary v) (vw_alternate v) (vw_active_screen v) (vw_modes v) (vw_title v) (vw_title_was_set v)
    (vw_working_directory v) (vw_palette v) (vw_sequence v + 1) (vw_identity_epoch v).
#[local] Instance demo_emulator : Emulator TerminalView :=
  {| astra_view v := v; advance_bytes _ := bump; emulator_resize _ := bump |}.

Definition plain : CellAttributes :=
  mkAttributes ColorDefault ColorDefault ColorDefault CellNormal NoUnderline NoBlink false false false false false
    CellOutput BaseLine None.
Definition bold_link : CellAttributes :=
  mkAttributes (ColorPaletteIndex 3) ColorDefault ColorDefault CellBold NoUnderline NoBlink false false false false false
    CellOutput BaseLine (Some (mkLink "http://x" None)).
Definition demo_row (id : N) (a : CellAttributes) : RowView :=
  mkRowView id 0 1 [mkCellView 0 "a" 1 a; mkCellView 1 " " 1 plain] false.
Definition demo_cursor : CursorView := mkCursorView 0 0 ViewBlock true 1 false.
Definition demo_primary : ScreenView :=
  mkScreenView ViewPrimary true [demo_row 1 plain; demo_row 2 bold_link; demo_row 3 plain] 2 2 10 2 1 demo_cursor None
    0 1 0 2 [0].
Definition demo_alternate : ScreenView :=
  mkScreenView ViewAlternate false [demo_row 9 plain] 0 0 0 2 1 demo_cursor None 0 1 0 2 [0].
Definition demo_palette : ColorPalette :=
  let c := mkSrgb 0 0 0 in astra_color_palette (mkColorPalette (replicate 256 c) c c c c c c c).
Definition demo_view : TerminalView :=
  mkView demo_primary demo_alternate ViewPrimary
    (mkModesView false false false false false false true false false false false false TrackNone EncodeDefault KeysXterm)
    "t" true None demo_palette 5 (0, 0).
Definition demo_epoch : bytes := replicate 16 1.
Definition demo_engine : TerminalEngine TerminalView :=
  mkEngine demo_view (mkHistoryLimits 100 1000) demo_epoch (0, 0) 5 None.
Definition demo_state : State :=
  match export_engine true demo_engine with Ok s => s | Err _ => mkState 0 [] 0 0 0 None None 0 [] [] None "" "" None end.

Lemma export_shows_screens_witness : validate demo_state = Ok tt /\ st_rows demo_state = 1.
Proof.
  destruct (export_shows_screens true (replicate 16 2) demo_engine demo_engine demo_state) as (Hv & Hr & _).
  - vm_compute. reflexivity.
  - split; [exact Hv|exact Hr].
Defined.

Lemma demo_engine_reachable : engine_reachable (demo_engine, [], [demo_epoch]).
Proof. apply (reach_engine 1 2 (mkHistoryLimits 100 1000) (fun _ => demo_view)). vm_compute. reflexivity. Qed.
Lemma bump_grows t t' : rtc emulator_step t t' -> t = t' \/ vw_sequence t < vw_sequence t'.
Proof.
  induction 1 as [|t t1 t2 Hs _ IH]; [by left|]. right.
  assert (Hb : t1 = bump t) by (destruct Hs as [[? ->]|[? ->]]; done). subst t1.
  destruct IH as [<-|IH]; unfold bump in *; cbn in *; lia.
Qed.
Lemma viewport_cache_exact_witness :
  (semantic_viewport (replicate 16 2) demo_engine).2 = Ok demo_state.
Proof.
  rewrite (proj1 (viewport_cache_exact demo_engine [] [demo_epoch] (replicate 16 2) demo_engine_reachable
             ltac:(by apply (bool_decide_unpack _)) ltac:(intros t t' Hs _ Hq; cbn in *; destruct (bump_grows _ _ Hs); [done|lia]))).
  vm_compute. reflexivity.
Defined.

Lemma demo_sorted : StronglySorted row_lt (sv_all_rows demo_primary).
Proof. repeat constructor. Qed.
Lemma history_paging_complete_witness :
  exists pages chunks, read_history 3 1 (mkAnchor 3 0) (replicate 16 2) demo_engine = Some (Ok pages) /\
    length pages = 2%nat /\ Forall2 (page_shows 2) pages chunks /\
    concat chunks = [demo_row 1 plain; demo_row 2 bold_link].
Proof.
  pose proof (history_paging_complete demo_engine 1 (replicate 16 2) (demo_row 3 plain) eq_refl eq_refl demo_sorted eq_refl) as Hh.
  change (S (N.to_nat (sv_viewport_start (vw_primary (astra_view (en_terminal demo_engine)))))) with 3%nat in Hh.
  destruct (read_history 3 1 _ (replicate 16 2) demo_engine) as [[pages|err]|] eqn:Hr; [|vm_compute in Hr; discriminate|done].
  destruct Hh as (chunks & Hf & Hc). exists pages, chunks. split_and!; [reflexivity| |exact Hf|exact Hc].
  vm_compute in Hr. injection Hr as <-. reflexivity.
Defined.
