(* ===== verification/Renderer.v ===== *)
(** * The viewport renderer ([terminal_engine.rs])

    A state is drawn on the local terminal as escape sequences, redrawing only the
    lines that changed.  The output is a list of items with their bytes, so that the
    effect of an item on a display can be stated beside what is sent for it. *)
From stdpp Require Import pretty.
From S2P Require Import Prelude Text TerminalState TerminalStateSpec Engine.
Open Scope N_scope.

(** ** Output *)

Definition ESC : bytes := [27].
Definition csi (s : string) : bytes := ESC ++ lit "[" ++ lit s.
Definition decimal (n : N) : bytes := lit (pretty n).

(** A part of a cell: a sequence of the renderer's own, or text of the program. *)
Inductive fragment := Sequence (b : bytes) | Content (s : string).
Inductive item :=
| EraseAll
| EraseLine (row : N)
| PaintCell (row column : N) (parts : list fragment)
| SetCursor (shape y x : N) (visible : bool)
| SetMode (mode : N) (enabled : bool)
| Fixed (b : bytes).

Definition print_fragment (f : fragment) : bytes := match f with Sequence b => b | Content s => lit s end.
Definition move_to (row column : N) : bytes :=
  ESC ++ lit "[" ++ decimal (row + 1) ++ lit ";" ++ decimal (column + 1) ++ lit "H".
Definition print_item (i : item) : bytes :=
  match i with
  | EraseAll => csi "2J" ++ csi "H"
  | EraseLine row => ESC ++ lit "[" ++ decimal (row + 1) ++ lit ";1H" ++ csi "0m" ++ csi "2K"
  | PaintCell row column parts => move_to row column ++ concat (print_fragment <$> parts)
  | SetCursor shape y x visible =>
      ESC ++ lit "[" ++ decimal shape ++ lit " q" ++ move_to y x ++ (if visible then csi "?25h" else csi "?25l")
  | SetMode mode enabled => ESC ++ lit "[?" ++ decimal mode ++ (if enabled then lit "h" else lit "l")
  | Fixed b => b
  end.

(** ** Styles *)

(** [char::is_control] somewhere in a UTF-8 string: [U+0000] to [U+001F], [U+007F],
    and [U+0080] to [U+009F], which are two bytes. *)
Fixpoint has_control (l : bytes) : bool :=
  match l with
  | [] => false
  | b :: rest =>
      (b <? 32) || (b =? 127)
      || match rest with c :: _ => (b =? 194) && (128 <=? c) && (c <=? 159) | [] => false end
      || has_control rest
  end.
Definition contains_control (s : string) : bool := has_control (lit s).

(** [try_from(..).unwrap_or(..)] *)
Definition unwrap_or {A} (d : A) (r : result A) : A := match r with Ok a => a | Err _ => d end.

Definition push_legacy_color (color : option Color) (prefix reset : N) : bytes :=
  match color ≫= col_value with
  | None | Some (DefaultColor _) => decimal reset
  | Some (PaletteIndex index) => decimal prefix ++ lit ";5;" ++ decimal index
  | Some (Rgb rgb) =>
      decimal prefix ++ lit ";2;" ++ decimal (N.land (N.shiftr rgb 16) 255) ++ lit ";"
      ++ decimal (N.land (N.shiftr rgb 8) 255) ++ lit ";" ++ decimal (N.land rgb 255)
  end.

(** [codes.join(";")] *)
Fixpoint join (sep : bytes) (l : list bytes) : bytes :=
  match l with [] => [] | [x] => x | x :: l => x ++ sep ++ join sep l end.

Definition flag (b : bool) (code : string) : list bytes := if b then [lit code] else [].
Definition legacy_codes (style : Style) : list bytes :=
  match unwrap_or Intensity_Normal (Intensity_try_from (sty_intensity style)) with
  | Intensity_Normal => [] | Intensity_Bold => [lit "1"] | Intensity_Faint => [lit "2"]
  end
  ++ flag (sty_italic style) "3"
  ++ match unwrap_or Underline_None (Underline_try_from (sty_underline style)) with
     | Underline_None => [] | Underline_Single => [lit "4"] | Underline_Double => [lit "4:2"]
     | Underline_Curly => [lit "4:3"] | Underline_Dotted => [lit "4:4"] | Underline_Dashed => [lit "4:5"]
     end
  ++ match unwrap_or Blink_None (Blink_try_from (sty_blink style)) with
     | Blink_None => [] | Blink_Slow => [lit "5"] | Blink_Rapid => [lit "6"]
     end
  ++ flag (sty_reverse style) "7" ++ flag (sty_invisible style) "8" ++ flag (sty_strikethrough style) "9"
  ++ flag (sty_overline style) "53"
  ++ [push_legacy_color (sty_foreground style) 38 39; push_legacy_color (sty_background style) 48 49;
      push_legacy_color (sty_underline_color style) 58 59].
Definition legacy_sgr (style : Style) : bytes :=
  match legacy_codes style with [] => [] | codes => ESC ++ lit "[" ++ join (lit ";") codes ++ lit "m" end.

(** ** Screens *)

(** A [BTreeMap] collected from a list: a later entry wins. *)
Definition style_map (styles : list Style) : gmap N Style :=
  list_to_map (reverse ((fun s => (sty_id s, s)) <$> styles)).
Definition link_map (links : list Hyperlink) : gmap N Hyperlink :=
  list_to_map (reverse ((fun l => (hl_id l, l)) <$> links)).

Definition link_fragments (link : Hyperlink) : list fragment :=
  if contains_control (hl_uri link) || contains_control (hl_explicit_id link) then []
  else [Sequence (ESC ++ lit "]8;")]
       ++ (if bool_decide (hl_explicit_id link = "") then [] else [Sequence (lit "id="); Content (hl_explicit_id link)])
       ++ [Sequence (lit ";"); Content (hl_uri link); Sequence (ESC ++ lit "\")].
Definition cell_fragments (styles : gmap N Style) (links : gmap N Hyperlink) (cell : Cell) : list fragment :=
  [Sequence (csi "0m")]
  ++ match styles !! cell_style_id cell with Some style => [Sequence (legacy_sgr style)] | None => [] end
  ++ match links !! cell_hyperlink_id cell with Some link => link_fragments link | None => [] end
  ++ (if contains_control (cell_grapheme cell) then [] else [Content (cell_grapheme cell)])
  ++ (if cell_hyperlink_id cell =? 0 then [] else [Sequence (ESC ++ lit "]8;;" ++ ESC ++ lit "\")]).

Definition row_items (state : State) (row_index : N) (row : Row) : list item :=
  EraseLine row_index ::
  ((fun cell => PaintCell row_index (cell_column cell)
                  (cell_fragments (style_map (st_styles state)) (link_map (st_hyperlinks state)) cell)) <$> row_cells row).

(** A line is left as it is when the same cells are drawn with the same tables. *)
Definition unchanged (previous : option (State * Screen)) (state : State) (row_index : N) (row : Row) : bool :=
  match previous with
  | None => false
  | Some (old, old_screen) =>
      bool_decide (st_styles old = st_styles state) && bool_decide (st_hyperlinks old = st_hyperlinks state)
      && bool_decide (st_palette old = st_palette state)
      && match sc_included_rows old_screen !! N.to_nat (sc_viewport_start old_screen + row_index) with
         | Some old_row => bool_decide (row_cells old_row = row_cells row)
         | None => false
         end
  end.
Fixpoint rows_items (previous : option (State * Screen)) (state : State) (row_index : N) (rows : list Row)
    : list item :=
  match rows with
  | [] => []
  | row :: rows =>
      (if unchanged previous state row_index row then [] else row_items state row_index row)
      ++ rows_items previous state (row_index + 1) rows
  end.

Definition cursor_items (cursor : option Cursor) : list item :=
  match cursor with
  | None => []
  | Some cursor =>
      let shape := match unwrap_or CursorShape_Block (CursorShape_try_from (cur_shape cursor)) with
                   | CursorShape_Bar => 5 | CursorShape_Underline => 3 | _ => 1
                   end in
      [SetCursor shape (cur_y cursor) (cur_x cursor) (cur_visible cursor)]
  end.

Definition modes_items (modes : option Modes) (restore_output_modes : bool) : list item :=
  match modes with
  | None => []
  | Some m =>
      ((fun mode => SetMode mode false) <$> [9; 1000; 1002; 1003; 1005; 1006; 1016])
      ++ [SetMode 1 (md_application_cursor_keys m); SetMode 5 (md_reverse_video m)]
      ++ (if restore_output_modes
          then [SetMode 6 (md_origin m); SetMode 7 (md_auto_wrap m); SetMode 45 (md_reverse_wraparound m);
                SetMode 69 (md_left_right_margin m)]
          else [])
      ++ [SetMode 1004 (md_focus_tracking m); SetMode 1007 (md_alternate_scroll m);
          SetMode 2004 (md_bracketed_paste m)]
      ++ match unwrap_or MouseTracking_None (MouseTracking_try_from (md_mouse_tracking m)) with
         | MouseTracking_None => [] | MouseTracking_X10 => [SetMode 9 true] | MouseTracking_Vt200 => [SetMode 1000 true]
         | MouseTracking_ButtonEvent => [SetMode 1002 true] | MouseTracking_AnyEvent => [SetMode 1003 true]
         end
      ++ match unwrap_or MouseEncoding_Default (MouseEncoding_try_from (md_mouse_encoding m)) with
         | MouseEncoding_Default => [] | MouseEncoding_Utf8 => [SetMode 1005 true]
         | MouseEncoding_Sgr => [SetMode 1006 true] | MouseEncoding_SgrPixels => [SetMode 1016 true]
         end
      ++ [Fixed (ESC ++ if md_application_keypad m then lit "=" else lit ">");
          Fixed match unwrap_or KeyboardEncoding_Xterm (KeyboardEncoding_try_from (md_keyboard_encoding m)) with
                | KeyboardEncoding_Kitty => ESC ++ lit "[=" ++ decimal (md_keyboard_flags m) ++ lit "u"
                | KeyboardEncoding_CsiU => csi "=1u"
                | KeyboardEncoding_Xterm => csi "=0u"
                end]
  end.

(** The first sequences: hide the cursor and switch origin, margins, wrapping and
    insertion off. *)
Definition SETUP : bytes :=
  csi "?25l" ++ csi "?6l" ++ csi "?69l" ++ csi "r" ++ csi "?7l" ++ csi "4l" ++ csi "0m".

Definition viewport (state : State) (screen : Screen) : list Row :=
  take (N.to_nat (st_rows state)) (drop (N.to_nat (sc_viewport_start screen)) (sc_included_rows screen)).

Definition screen_items (state : State) (screen : Screen) (previous : option (State * Screen))
    (restore_output_modes : bool) : list item :=
  (if restore_output_modes then [EraseAll] else [])
  ++ [Fixed SETUP]
  ++ (if negb restore_output_modes && is_none previous then [EraseAll] else [])
  ++ rows_items previous state 0 (viewport state screen)
  ++ [Fixed (csi "0m")]
  ++ cursor_items (sc_cursor screen)
  ++ modes_items (st_modes state) restore_output_modes.
Definition render_screen (state : State) (screen : Screen) (previous : option (State * Screen))
    (restore_output_modes : bool) : bytes :=
  concat (print_item <$> screen_items state screen previous restore_output_modes).

(** ** The renderer *)

Definition active_screen (state : State) : option Screen :=
  if (st_active_screen state =? 2)%Z then st_alternate state else st_primary state.

Record ViewportRenderer := mkRenderer { vr_previous : option State }.

Definition previous_screen (previous : option State) (state : State) : option (State * Screen) :=
  old ← previous;
  if (st_rows old =? st_rows state) && (st_cols old =? st_cols state)
     && (st_active_screen old =? st_active_screen state)%Z
  then screen ← active_screen old; Some (old, screen) else None.

Section renderer.
Context `{StateLib}.

Definition render_items (state : State) (r : ViewportRenderer) : ViewportRenderer * result (list item) :=
  match (_ ← validate state; ok_or (active_screen state) "active viewport missing") with
  | Err e => (r, Err e)
  | Ok screen =>
      (mkRenderer (Some state), Ok (screen_items state screen (previous_screen (vr_previous r) state) false))
  end.
Definition render (state : State) (r : ViewportRenderer) : ViewportRenderer * result bytes :=
  let '(r, items) := render_items state r in (r, items ← items; Ok (concat (print_item <$> items))).
Definition invalidate (r : ViewportRenderer) : ViewportRenderer := mkRenderer None.

(** [TerminalEngine::legacy_snapshot]: of the state that it exports. *)
Record TerminalSnapshot := mkSnapshot {
  sn_rows : N; sn_cols : N; sn_contents : bytes; sn_alternate_screen : bool; sn_normal_contents : bytes }.
Definition render_legacy_screen (state : State) (screen : Screen) : bytes := render_screen state screen None true.
Definition snapshot_of (state : State) : result TerminalSnapshot :=
  primary ← ok_or (st_primary state) "primary screen is missing";
  alternate ← ok_or (st_alternate state) "alternate screen is missing";
  let alternate_screen := (st_active_screen state =? 2)%Z in
  Ok (mkSnapshot (st_rows state) (st_cols state)
        (render_legacy_screen state (if alternate_screen then alternate else primary)) alternate_screen
        (if alternate_screen then render_legacy_screen state primary else [])).
Definition legacy_snapshot {T} `{Emulator T} (fresh : bytes) (e : TerminalEngine T)
    : TerminalEngine T * result TerminalSnapshot :=
  let '(e, r) := semantic_state fresh e in (e, state ← r; snapshot_of state).

(** ** A display

    What the items do to a terminal: lines of painted cells, the cursor and the
    modes. *)
Record display := mkDisplay {
  di_lines : gmap N (list (N * list fragment));
  di_cursor : option (N * N * N * bool);
  di_modes : gmap N bool }.
Definition show_item (d : display) (i : item) : display :=
  match i with
  | EraseAll => mkDisplay ∅ (di_cursor d) (di_modes d)
  | EraseLine row => mkDisplay (<[row := []]> (di_lines d)) (di_cursor d) (di_modes d)
  | PaintCell row column parts =>
      mkDisplay (<[row := default [] (di_lines d !! row) ++ [(column, parts)]]> (di_lines d)) (di_cursor d) (di_modes d)
  | SetCursor shape y x visible => mkDisplay (di_lines d) (Some (shape, y, x, visible)) (di_modes d)
  | SetMode mode enabled => mkDisplay (di_lines d) (di_cursor d) (<[mode := enabled]> (di_modes d))
  | Fixed _ => d
  end.
Definition show_items (items : list item) (d : display) : display := foldl show_item d items.

Definition painted (state : State) (row : Row) : list (N * list fragment) :=
  (fun cell => (cell_column cell,
                cell_fragments (style_map (st_styles state)) (link_map (st_hyperlinks state)) cell)) <$> row_cells row.

(** The whole viewport drawn on an empty display. *)
Definition drawing (state : State) (screen : Screen) : display :=
  show_items (screen_items state screen None false) (mkDisplay ∅ None ∅).

(** The display shows a state: every line of its viewport and nothing else, and the
    cursor and the modes as a complete drawing leaves them. *)
Record displays (state : State) (d : display) : Prop := {
  ds_screen : exists screen, active_screen state = Some screen /\
    length (viewport state screen) = N.to_nat (st_rows state) /\
    (forall y, di_lines d !! y = painted state <$> viewport state screen !! N.to_nat y) /\
    di_lines d = di_lines (drawing state screen) /\ di_cursor d = di_cursor (drawing state screen) /\
    di_modes (drawing state screen) ⊆ di_modes d
}.

(** The renderer and a display that receives its output.  [invalidate] is called
    when something else may have drawn on the display. *)
Inductive renderer_step : ViewportRenderer * display -> ViewportRenderer * display -> Prop :=
| step_render r d state r' items :
    render_items state r = (r', Ok items) -> renderer_step (r, d) (r', show_items items d)
| step_render_failed r d state r' e : render_items state r = (r', Err e) -> renderer_step (r, d) (r', d)
| step_invalidate r d d' : renderer_step (r, d) (invalidate r, d').
Definition renderer_reachable (w : ViewportRenderer * display) : Prop :=
  exists d, rtc renderer_step (mkRenderer None, d) w.

(** *** Lines *)

Lemma show_items_app l k d : show_items (l ++ k) d = show_items k (show_items l d).
Proof. apply foldl_app. Qed.

Lemma show_items_cons i l d : show_items (i :: l) d = show_items l (show_item d i).
Proof. done. Qed.

Lemma show_cells state row cells : forall d acc,
  di_lines d !! row = Some acc ->
  show_items ((fun cell => PaintCell row (cell_column cell)
     (cell_fragments (style_map (st_styles state)) (link_map (st_hyperlinks state)) cell)) <$> cells) d =
  mkDisplay (<[row := acc ++ painted state (mkRow None 0 cells false)]> (di_lines d)) (di_cursor d) (di_modes d).
Proof.
  induction cells as [|c cells IH]; intros d acc Ha.
  - unfold painted. cbn. rewrite app_nil_r, insert_id by done. by destruct d.
  - rewrite fmap_cons, show_items_cons. cbn [show_item]. rewrite Ha. cbn [default from_option].
    rewrite (IH _ (acc ++ [(cell_column c, cell_fragments (style_map (st_styles state)) (link_map (st_hyperlinks state)) c)])).
    + cbn [di_lines di_cursor di_modes]. rewrite insert_insert_eq. unfold painted. cbn [row_cells]. rewrite fmap_cons, <- app_assoc. done.
    + apply lookup_insert_eq.
Qed.
Lemma show_row state row r d :
  show_items (row_items state row r) d =
  mkDisplay (<[row := painted state r]> (di_lines d)) (di_cursor d) (di_modes d).
Proof.
  unfold row_items. rewrite show_items_cons, (show_cells state row (row_cells r) _ []); [|apply lookup_insert_eq].
  cbn [show_item di_lines di_cursor di_modes]. by rewrite insert_insert_eq.
Qed.

(** Lines that are skipped already show what they should. *)
Lemma show_rows prev state rows : forall k d,
  (forall i row, rows !! i = Some row -> unchanged prev state (k + N.of_nat i) row = true ->
     di_lines d !! (k + N.of_nat i) = Some (painted state row)) ->
  let d' := show_items (rows_items prev state k rows) d in
  (forall i row, rows !! i = Some row -> di_lines d' !! (k + N.of_nat i) = Some (painted state row)) /\
  (forall y, y < k \/ k + N.of_nat (length rows) <= y -> di_lines d' !! y = di_lines d !! y) /\
  di_cursor d' = di_cursor d /\ di_modes d' = di_modes d.
Proof.
  induction rows as [|r rows IH]; intros k d Hd; cbn [rows_items]; [by split_and!|]. cbv zeta. rewrite show_items_app.
  set (d1 := show_items _ d).
  assert (Hd1 : di_lines d1 !! k = Some (painted state r) /\ (forall y, y <> k -> di_lines d1 !! y = di_lines d !! y) /\
                di_cursor d1 = di_cursor d /\ di_modes d1 = di_modes d).
  { unfold d1. destruct (unchanged prev state k r) eqn:Hu.
    - split_and!; try done. specialize (Hd O r eq_refl). rewrite N.add_0_r in Hd. by apply Hd.
    - rewrite show_row. cbn. split_and!; [apply lookup_insert_eq| |done|done]. intros y Hy. by rewrite lookup_insert_ne. }
  destruct Hd1 as (Hk & Hne & Hc & Hm). destruct (IH (k + 1) d1) as (I1 & I2 & I3 & I4).
  { intros i row Hi Hu. rewrite Hne by lia. replace (k + 1 + N.of_nat i) with (k + N.of_nat (S i)) in * by lia. by apply Hd. }
  split_and!.
  - intros [|i] row Hi; [injection Hi as ->|].
    + rewrite N.add_0_r, I2 by lia. done.
    + replace (k + N.of_nat (S i)) with (k + 1 + N.of_nat i) by lia. by apply I1.
  - intros y Hy. cbn [length] in Hy. rewrite I2 by lia. apply Hne. lia.
  - congruence.
  - congruence.
Qed.

(** *** Cursor and modes *)

Definition tail_items (state : State) (screen : Screen) : list item :=
  [Fixed (csi "0m")] ++ cursor_items (sc_cursor screen) ++ modes_items (st_modes state) false.

Definition off_lines (i : item) : Prop :=
  match i with EraseAll | EraseLine _ | PaintCell _ _ _ => False | _ => True end.
Definition off_cursor (i : item) : Prop := match i with SetCursor _ _ _ _ => False | _ => True end.

Lemma show_off_lines items d : Forall off_lines items -> di_lines (show_items items d) = di_lines d.
Proof. intros Hi. revert d. induction Hi as [|i l Hi _ IH]; intros d; [done|]. rewrite show_items_cons, IH. by destruct i. Qed.
Lemma show_off_cursor items d : Forall off_cursor items -> di_cursor (show_items items d) = di_cursor d.
Proof. intros Hi. revert d. induction Hi as [|i l Hi _ IH]; intros d; [done|]. rewrite show_items_cons, IH. by destruct i. Qed.
Lemma show_modes_mono items d d' :
  di_modes d ⊆ di_modes d' -> di_modes (show_items items d) ⊆ di_modes (show_items items d').
Proof.
  revert d d'. induction items as [|i items IH]; intros d d' Hd; [done|]. rewrite !show_items_cons. apply IH.
  destruct i; cbn; try done. by apply insert_mono.
Qed.

Lemma modes_items_off m b : Forall off_lines (modes_items m b) /\ Forall off_cursor (modes_items m b).
Proof.
  destruct m as [m|]; [|by split; constructor]. unfold modes_items.
  cbn [fmap list_fmap]. split; repeat first [apply Forall_app_2|apply Forall_cons_2|apply Forall_nil_2|exact I|case_match].
Qed.
Lemma tail_items_off state screen : Forall off_lines (tail_items state screen).
Proof.
  unfold tail_items. rewrite !Forall_app. split_and!; [by repeat constructor| |apply modes_items_off].
  unfold cursor_items. destruct (sc_cursor screen); by repeat constructor.
Qed.
Lemma tail_cursor state screen c d d' :
  sc_cursor screen = Some c ->
  di_cursor (show_items (tail_items state screen) d) = di_cursor (show_items (tail_items state screen) d').
Proof.
  intros Hc. unfold tail_items. rewrite !show_items_app. do 2 rewrite (show_off_cursor (modes_items _ _)) by apply modes_items_off.
  unfold cursor_items. rewrite Hc. reflexivity.
Qed.

(** *** A whole screen *)

Definition lines_of (state : State) (screen : Screen) (d : display) : Prop :=
  forall y, di_lines d !! y = painted state <$> viewport state screen !! N.to_nat y.

(** What may be skipped: the previous state is on the display and has the same
    number of lines. *)
Definition skippable (prev : option (State * Screen)) (state : State) (screen : Screen) (d : display) : Prop :=
  match prev with
  | None => True
  | Some (old, old_screen) => lines_of old old_screen d /\ length (viewport old old_screen) = length (viewport state screen)
  end.

Lemma unchanged_painted old old_screen state screen d i row :
  lines_of old old_screen d -> length (viewport old old_screen) = length (viewport state screen) ->
  viewport state screen !! i = Some row -> unchanged (Some (old, old_screen)) state (N.of_nat i) row = true ->
  di_lines d !! N.of_nat i = Some (painted state row).
Proof.
  intros Hd Hlen Hi Hu. cbn in Hu.
  destruct (sc_included_rows old_screen !! _) as [r|] eqn:Hr; [|by rewrite andb_false_r in Hu]. bool_prop.
  assert (Hold : viewport old old_screen !! i = Some r).
  { destruct (lookup_lt_is_Some_2 (viewport old old_screen) i) as [r' Hr']; [rewrite Hlen; by eapply lookup_lt_Some|].
    rewrite Hr'. f_equal. unfold viewport in Hr'. apply lookup_take_Some in Hr' as [Hr' _]. rewrite lookup_drop in Hr'.
    rewrite N2Nat.inj_add, Nat2N.id in Hr. congruence. }
  rewrite Hd, Nat2N.id, Hold. cbn. f_equal. unfold painted.
  by repeat match goal with E : _ = _ |- _ => rewrite E; clear E end.
Qed.

Definition head_items (prev : option (State * Screen)) : list item :=
  Fixed SETUP :: match prev with None => [EraseAll] | Some _ => [] end.
Lemma screen_items_split state screen prev :
  screen_items state screen prev false =
  head_items prev ++ rows_items prev state 0 (viewport state screen) ++ tail_items state screen.
Proof. by destruct prev. Qed.
Lemma show_screen prev state screen d :
  skippable prev state screen d -> lines_of state screen (show_items (screen_items state screen prev false) d).
Proof.
  intros Hskip. rewrite screen_items_split, !show_items_app. intros y. rewrite show_off_lines by apply tail_items_off.
  set (d1 := show_items (head_items prev) d).
  assert (Hd1 : di_lines d1 = match prev with None => ∅ | Some _ => di_lines d end) by (by destruct prev as [[]|]).
  destruct (show_rows prev state (viewport state screen) 0 d1) as (H1 & H2 & _).
  { intros i row Hi Hu. rewrite Hd1. rewrite N.add_0_l in *. destruct prev as [[old os]|]; [|done].
    destruct Hskip as [Hl Hlen]. by eapply unchanged_painted. }
  destruct (viewport state screen !! N.to_nat y) as [row|] eqn:Hy; cbn [fmap option_fmap option_map].
  - specialize (H1 _ _ Hy). by rewrite N.add_0_l, N2Nat.id in H1.
  - apply lookup_ge_None in Hy. rewrite H2 by lia. rewrite Hd1. destruct prev as [[old os]|]; [|apply lookup_empty].
    destruct Hskip as [Hl Hlen]. rewrite Hl, lookup_ge_None_2 by lia. done.
Qed.

Lemma active_screen_ok state :
  validate state = Ok tt ->
  exists screen c, active_screen state = Some screen /\ sc_cursor screen = Some c /\
    length (viewport state screen) = N.to_nat (st_rows state).
Proof.
  intros (p & a & sids & hids & Hok)%validate_Ok. unfold active_screen.
  assert (Hs : exists screen, (if (st_active_screen state =? 2)%Z then st_alternate state else st_primary state) = Some screen /\
                              screen_ok state sids hids screen).
  { destruct (_ =? 2)%Z; [exists a|exists p]; split; apply Hok. }
  destruct Hs as (screen & Hs & Hsc). destruct (screen_cursor _ _ _ _ Hsc) as (c & Hc & _). exists screen, c. split_and!; [done|done|].
  pose proof (screen_viewport _ _ _ _ Hsc) as Hv. unfold viewport, llen in *. rewrite length_take, length_drop. lia.
Qed.

Lemma show_rows_modes prev state rows k d : di_modes (show_items (rows_items prev state k rows) d) = di_modes d.
Proof.
  revert k d. induction rows as [|row rows IH]; intros k d; [done|]. cbn [rows_items]. rewrite show_items_app, IH.
  destruct (unchanged prev state k row); [done|]. by rewrite show_row.
Qed.

Lemma displays_rendered state prev screen c d :
  active_screen state = Some screen -> sc_cursor screen = Some c ->
  length (viewport state screen) = N.to_nat (st_rows state) -> skippable prev state screen d ->
  displays state (show_items (screen_items state screen prev false) d).
Proof.
  intros Hs Hc Hlen Hskip. split. exists screen. pose proof (show_screen prev state screen d Hskip) as Hl.
  pose proof (show_screen None state screen (mkDisplay ∅ None ∅) I) as Hl'. fold (drawing state screen) in Hl'.
  split_and!; [done|done|exact Hl| | |].
  - apply map_eq. intros y. by rewrite Hl, Hl'.
  - unfold drawing. rewrite !screen_items_split, !show_items_app. by eapply tail_cursor.
  - unfold drawing. rewrite !screen_items_split, !show_items_app. apply show_modes_mono.
    rewrite show_rows_modes. apply map_empty_subseteq.
Qed.

(** *** Every history *)

Definition renderer_inv (w : ViewportRenderer * display) : Prop :=
  forall state, vr_previous w.1 = Some state -> displays state w.2.

Lemma render_displays state r d r' items :
  renderer_inv (r, d) -> render_items state r = (r', Ok items) ->
  vr_previous r' = Some state /\ displays state (show_items items d).
Proof.
  intros Hinv Hr. unfold render_items in Hr. destruct (validate state) as [[]|] eqn:Hv; [|done].
  destruct (active_screen_ok _ Hv) as (screen & c & Hs & Hc & Hlen). rewrite Hs in Hr. cbn [ok_or mbind result_bind] in Hr.
  injection Hr as <- <-. split; [done|]. eapply displays_rendered; try done.
  unfold skippable, previous_screen. destruct (vr_previous r) as [old|] eqn:Hp; [|done]. cbn [mbind option_bind].
  destruct (_ && _) eqn:Hb; [|done]. bool_prop. destruct (Hinv old Hp) as [(os & Hos & Hol & Hll & _)]. rewrite Hos. cbn [mbind option_bind].
  split; [exact Hll|]. rewrite Hlen, Hol. f_equal. done.
Qed.

Lemma renderer_invariant w : renderer_reachable w -> renderer_inv w.
Proof.
  intros [d Hs]. assert (Hgen : forall w0, rtc renderer_step w0 w -> renderer_inv w0 -> renderer_inv w).
  { clear Hs. induction 1 as [|x y z Hxy _ IH]; [done|]. intros Hx. apply IH. destruct Hxy as [r d0 st r' items Hr|r d0 st r' e Hr|r d0 d'].
    - destruct (render_displays _ _ _ _ _ Hx Hr) as [Hp Hd]. intros st' Hst'. cbn in *. rewrite Hp in Hst'. by injection Hst' as <-.
    - unfold render_items in Hr. destruct (mbind _ _); [done|]. injection Hr as <- _. exact Hx.
    - intros st' Hst'. done. }
  by apply (Hgen _ Hs).
Qed.

(** C38: after any history of drawings, failed drawings and invalidations, drawing a
    valid state leaves on the display exactly that state's viewport, with the cursor and
    the modes of a complete drawing, although only changed lines were sent. *)
Theorem renderer_incremental_exact r d state :
  renderer_reachable (r, d) -> validate state = Ok tt ->
  exists r' items, render_items state r = (r', Ok items) /\ displays state (show_items items d) /\
    render state r = (r', Ok (concat (print_item <$> items))).
Proof.
  intros Hinv%renderer_invariant Hv. destruct (active_screen_ok _ Hv) as (screen & c & Hs & _).
  destruct (render_items state r) as [r' [items|e]] eqn:Hr.
  - exists r', items. split_and!; [done|by apply (render_displays _ _ _ _ _ Hinv Hr)|]. unfold render. by rewrite Hr.
  - unfold render_items in Hr. rewrite Hv, Hs in Hr. done.
Qed.

(** *** What a program can make the renderer send *)

Definition clean_fragment (f : fragment) : Prop :=
  match f with Sequence _ => True | Content s => contains_control s = false end.
Definition clean_item (i : item) : Prop :=
  match i with PaintCell _ _ parts => Forall clean_fragment parts | _ => True end.

Lemma cell_fragments_clean styles links cell : Forall clean_fragment (cell_fragments styles links cell).
Proof.
  unfold cell_fragments, link_fragments.
  repeat first [apply Forall_app_2|apply Forall_cons_2|apply Forall_nil_2|exact I|case_match];
    try (match goal with E : _ || _ = false |- _ => apply orb_false_elim in E as [? ?] end); done.
Qed.

(** Text of a program, the graphemes and the hyperlinks of a state, is sent to the
    local terminal only when it has no control characters; every other byte is the
    renderer's own.  It holds of any state, valid or not. *)
Theorem rendered_content_clean state screen previous restore :
  Forall clean_item (screen_items state screen previous restore).
Proof.
  unfold screen_items.
  repeat (apply Forall_app_2; [first [by destruct restore, previous; repeat constructor|by repeat constructor|idtac]|]).
  - generalize 0 (viewport state screen). intros k rows. revert k. induction rows as [|row rows IH]; intros k; [constructor|].
    cbn [rows_items]. apply Forall_app_2; [|apply IH]. destruct (unchanged previous state k row); [constructor|].
    constructor; [done|]. rewrite Forall_fmap. apply Forall_forall. intros cell _. apply cell_fragments_clean.
  - unfold cursor_items. destruct (sc_cursor screen); by repeat constructor.
  - unfold modes_items. destruct (st_modes state); [|constructor]. cbn [fmap list_fmap].
    repeat first [apply Forall_app_2|apply Forall_cons_2|apply Forall_nil_2|exact I|case_match].
Qed.
End renderer.

(** ** Witness

    The second state differs in its second line only, so that the first is not sent
    again. *)
#[local] Existing Instance ex_lib.
Definition ex_first : list item := match (render_items (ex_state 1 ex_rows1) (mkRenderer None)).2 with Ok l => l | Err _ => [] end.
Definition ex_shown : display := show_items ex_first (mkDisplay {[7 := []]} None ∅).
Lemma renderer_incremental_exact_witness :
  exists items, (render_items (ex_state 2 ex_rows2) (mkRenderer (Some (ex_state 1 ex_rows1)))).2 = Ok items /\
    (EraseLine 0 ∉ items) /\ displays (ex_state 2 ex_rows2) (show_items items ex_shown).
Proof.
  destruct (renderer_incremental_exact (mkRenderer (Some (ex_state 1 ex_rows1))) ex_shown (ex_state 2 ex_rows2))
    as (r' & items & Hr & Hd & _).
  - exists (mkDisplay {[7 := []]} None ∅). eapply rtc_once, (step_render _ _ (ex_state 1 ex_rows1)). vm_compute. reflexivity.
  - vm_compute. reflexivity.
  - exists items. rewrite Hr. split_and!; [reflexivity| |exact Hd].
    vm_compute in Hr. injection Hr as _ <-. rewrite !elem_of_cons, elem_of_nil. intuition discriminate.
Defined.
