(* ===== verification/KnownHosts.v ===== *)
(** * Known hosts ([known_hosts.rs])

    Trust on first use: the certificate of a server is compared with what a file
    records for its host and port.  The parsing of the file, the decision, and the
    update by a temporary file and a rename; the lock makes a verification one step. *)
From stdpp Require Import pretty.
From S2P Require Import Prelude Text.
Open Scope N_scope.

Definition CERTIFICATE_ALGORITHM : text := lit "x509-cert-sha256".

Inductive StrictHostKeyChecking := Yes | Ask | AcceptNew | No.
#[global] Instance StrictHostKeyChecking_eq_dec : EqDecision StrictHostKeyChecking.
Proof. solve_decision. Defined.
Inductive HostTrustResult := Known | Added | AcceptedWithoutSaving.
#[global] Instance HostTrustResult_eq_dec : EqDecision HostTrustResult.
Proof. solve_decision. Defined.

(** [FromStr] *)
Definition parse_policy (value : text) : result StrictHostKeyChecking :=
  let v := to_ascii_lowercase <$> value in
  if bool_decide (v ∈ [lit "yes"; lit "on"; lit "true"]) then Ok Yes
  else if bool_decide (v = lit "ask") then Ok Ask
  else if bool_decide (v = lit "accept-new") then Ok AcceptNew
  else if bool_decide (v ∈ [lit "no"; lit "off"; lit "false"]) then Ok No
  else Err "invalid StrictHostKeyChecking value".

(** The file as the system calls see it. *)
Record KnownHostsFile := mkHostsFile {
  kf_contents : text; kf_regular : bool; kf_owned : bool; kf_mode : N }.

(** [IpAddr]'s parser with its printer, and the unpadded Base64 of a SHA-256. *)
Class HostLib := {
  parse_ip : text -> option text;
  base64_sha256 : bytes -> text
}.
Definition plain_char (c : N) : Prop := is_whitespace c = false /\ is_control c = false /\ c <> 35.
Class HostLaws `{HostLib} := {
  parse_ip_plain t a : parse_ip t = Some a -> a <> [] /\ Forall plain_char a;
  base64_sha256_plain b : base64_sha256 b <> [] /\ Forall plain_char (base64_sha256 b)
}.

Section known_hosts.
Context `{HostLib}.

Definition certificate_fingerprint (certificate : bytes) : text := lit "SHA256:" ++ base64_sha256 certificate.

Definition host_key (host : text) (port : N) : result text :=
  let host := trim host in
  ensure! negb (bool_decide (host = [])
                || existsb (fun c => is_whitespace c || is_control c || (c =? 35)) host),
    "invalid host name for known-host verification";
  let normalized := match parse_ip host with
                    | Some address => address
                    | None => to_ascii_lowercase <$> trim_end_matches (N.eqb 46) host
                    end in
  ensure! negb (bool_decide (normalized = [])), "invalid host name for known-host verification";
  Ok (lit "[" ++ normalized ++ lit "]:" ++ lit (pretty port)).

Definition validate_known_hosts_file (file : KnownHostsFile) : result unit :=
  ensure! kf_regular file, "Astra known-hosts path is not a regular file";
  ensure! kf_owned file, "Astra known-hosts file has the wrong owner";
  ensure! N.land (kf_mode file) 18 =? 0, "Astra known-hosts file is group/other writable";
  Ok tt.
(** [readable] says whether the file, when there is one, could be opened and is
    UTF-8. *)
Definition read_known_hosts (file : option KnownHostsFile) (readable : bool) : result text :=
  match file with
  | None => Ok []
  | Some file =>
      ensure! readable, "failed to open";
      _ ← validate_known_hosts_file file;
      Ok (kf_contents file)
  end.

(** The calls of [atomic_write] in order: 0 to 2 fill the temporary file, 3 renames it,
    4 syncs the directory. *)
Definition atomic_write (file : option KnownHostsFile) (contents : text) (fault : option nat)
    : option KnownHostsFile * result unit :=
  let written := Some (mkHostsFile contents true true 384) in
  match fault with
  | None => (written, Ok tt)
  | Some k => (if (k <=? 3)%nat then file else written, Err "failed to write")
  end.

Definition host_line (host_key fingerprint : text) : text :=
  host_key ++ [32] ++ CERTIFICATE_ALGORITHM ++ [32] ++ fingerprint.
Definition append_known_host (file : option KnownHostsFile) (contents host_key fingerprint : text)
    (fault : option nat) : option KnownHostsFile * result unit :=
  let updated := if bool_decide (contents = []) || bool_decide (last contents = Some 10) then contents
                 else contents ++ [10] in
  atomic_write file (updated ++ host_line host_key fingerprint ++ [10]) fault.

(** The fields of a line: up to a [#], trimmed and split. *)
Definition line_fields (line : text) : list text :=
  let entry := trim (match split_once 35 line with Some (entry, _) => entry | None => line end) in
  if bool_decide (entry = []) then [] else split_whitespace entry.

(** The loop over the lines: the host is known, or what it is expected to present. *)
Fixpoint scan (key fingerprint : text) (expected : list text) (entries : list (list text))
    : result (bool * list text) :=
  match entries with
  | [] => Ok (false, expected)
  | fields :: entries =>
      if negb (bool_decide (head fields = Some key)) then scan key fingerprint expected entries
      else match fields with
           | _ :: algorithm :: recorded :: _ =>
               if negb (bool_decide (algorithm = CERTIFICATE_ALGORITHM)) then scan key fingerprint expected entries
               else if bool_decide (recorded = fingerprint) then Ok (true, expected)
               else scan key fingerprint (expected ++ [recorded]) entries
           | _ => Err "malformed Astra known-host entry"
           end
  end.

(** One verification: the files may be in the way ([prepared]), the user answers
    ([confirm]), and a write may fail. *)
Record call := mkCall {
  ca_host : text; ca_port : N; ca_certificate : bytes; ca_policy : StrictHostKeyChecking;
  ca_prepared : result unit; ca_readable : bool; ca_confirm : result bool; ca_fault : option nat }.

Definition verify_server_certificate_with_confirmation (c : call) (file : option KnownHostsFile)
    : option KnownHostsFile * result HostTrustResult :=
  match (ensure! negb (bool_decide (ca_certificate c = [])), "server presented an empty TLS certificate";
         host_key ← host_key (ca_host c) (ca_port c);
         let fingerprint := certificate_fingerprint (ca_certificate c) in
         _ ← ca_prepared c;
         contents ← read_known_hosts file (ca_readable c);
         found ← scan host_key fingerprint [] (line_fields <$> lines contents);
         Ok (host_key, fingerprint, contents, found)) with
  | Err e => (file, Err e)
  | Ok (_, _, _, (true, _)) => (file, Ok Known)
  | Ok (host_key, fingerprint, contents, (false, expected)) =>
      if negb (bool_decide (expected = [])) && negb (bool_decide (ca_policy c = No))
      then (file, Err "REMOTE HOST CERTIFICATE HAS CHANGED")
      else if negb (bool_decide (expected = [])) then (file, Ok AcceptedWithoutSaving)
      else
        let add := match append_known_host file contents host_key fingerprint (ca_fault c) with
                   | (file, Ok _) => (file, Ok Added)
                   | (file, Err e) => (file, Err e)
                   end in
        match ca_policy c with
        | Yes => (file, Err "no trusted host certificate")
        | Ask => match ca_confirm c with
                 | Err e => (file, Err e)
                 | Ok false => (file, Err "host certificate was not trusted")
                 | Ok true => add
                 end
        | AcceptNew => add
        | No => (file, Ok AcceptedWithoutSaving)
        end
  end.

(** [prompt_for_confirmation], of the line that was read. *)
Definition confirmed (answer : text) : bool :=
  bool_decide ((to_ascii_lowercase <$> trim answer) = lit "yes").

(** Verifications one after the other; the lock file orders them. *)
Fixpoint verify_all (calls : list call) (file : option KnownHostsFile)
    : option KnownHostsFile * list (result HostTrustResult) :=
  match calls with
  | [] => (file, [])
  | c :: calls =>
      let '(file, r) := verify_server_certificate_with_confirmation c file in
      let '(file, rs) := verify_all calls file in (file, r :: rs)
  end.
End known_hosts.

(** ** Reading back what was written *)

Lemma lines_from_cons current x t :
  lines_from current (x :: t) = if x =? 10 then strip_cr (rev current) :: lines_from [] t else lines_from (x :: current) t.
Proof.
  destruct (N.eqb_spec x 10) as [->|Hx]; [done|]. cbn [lines_from].
  repeat (done || match goal with |- match ?x with _ => _ end = _ => destruct x end).
Qed.

Definition words_of (t : text) : list text := split_whitespace t.
Lemma words_app_space current t c : is_whitespace c = true -> words current (t ++ [c]) = words current t.
Proof.
  intros Hc. revert current. induction t as [|x t IH]; intros current; cbn; rewrite ?Hc; [by rewrite app_nil_r|].
  destruct (is_whitespace x); [by rewrite IH|apply IH].
Qed.
Lemma words_app_spaces current t l : Forall (fun c => is_whitespace c = true) l -> words current (t ++ l) = words current t.
Proof.
  revert t. induction l as [|c l IH]; intros t Hl; [by rewrite app_nil_r|]. apply Forall_cons in Hl as [Hc Hl].
  replace (t ++ c :: l) with ((t ++ [c]) ++ l) by (by rewrite <- app_assoc). by rewrite IH, words_app_space.
Qed.
Lemma words_drop_start l t : Forall (fun c => is_whitespace c = true) l -> words [] (l ++ t) = words [] t.
Proof. induction 1 as [|c l Hc _ IH]; [done|]. cbn. by rewrite Hc, IH. Qed.
(** Trimming does not change the words. *)
Lemma words_trim t : words [] (trim t) = words [] t.
Proof.
  unfold trim, trim_end_matches.
  destruct (drop_while_suffix is_whitespace t) as (pre & Ht & Hpre). fold (trim_start t) in Ht.
  destruct (drop_while_suffix is_whitespace (rev (trim_start t))) as (suf & Hs & Hsuf).
  set (k := drop_while is_whitespace (rev (trim_start t))) in *.
  assert (Hk : trim_start t = rev k ++ rev suf) by (rewrite <- rev_app_distr, <- Hs; by rewrite rev_involutive).
  rewrite Ht at 1. rewrite words_drop_start, Hk, words_app_spaces by (done || by apply Forall_rev). done.
Qed.

Definition before_hash (line : text) : text := match split_once 35 line with Some (e, _) => e | None => line end.
Lemma line_fields_words line : line_fields line = words [] (before_hash line).
Proof.
  unfold line_fields. fold (before_hash line). case_bool_decide as He.
  - rewrite <- words_trim, He. done.
  - apply words_trim.
Qed.
Lemma before_hash_cr t : before_hash (t ++ [13]) = before_hash t \/ before_hash (t ++ [13]) = before_hash t ++ [13].
Proof.
  unfold before_hash. induction t as [|x t IH]; [by right|]. cbn [app split_once]. destruct (x =? 35); [by left|].
  destruct (split_once 35 (t ++ [13])) as [[a b]|], (split_once 35 t) as [[a' b']|]; destruct IH as [IH|IH]; subst;
    (by left) || (by right) || idtac.
  all: try (left; f_equal; done); try (right; cbn; f_equal; done).
Qed.
Lemma line_fields_strip_cr line : line_fields (strip_cr line) = line_fields line.
Proof.
  unfold strip_cr. destruct (last line) as [c|] eqn:Hl; [|done].
  destruct (decide (c = 13)) as [->|Hc].
  - apply last_Some in Hl as [t ->]. rewrite removelast_last, !line_fields_words.
    destruct (before_hash_cr t) as [->| ->]; [done|]. by rewrite words_app_space.
  - by repeat (done || match goal with |- context [match ?x with _ => _ end] => is_var x; destruct x end).
Qed.

Abbreviation entries t := (line_fields <$> lines_from [] t).

Lemma entries_app_newline c : forall current e,
  (c = [] -> current <> []) -> last c <> Some 10 ->
  line_fields <$> lines_from current (c ++ 10 :: e) = (line_fields <$> lines_from current c) ++ entries e.
Proof.
  induction c as [|x c IH]; intros current e Hc Hl; cbn [app].
  - rewrite lines_from_cons. cbn [N.eqb Pos.eqb lines_from]. rewrite bool_decide_false by auto.
    rewrite fmap_cons, line_fields_strip_cr. done.
  - rewrite !lines_from_cons. assert (Hl' : last c <> Some 10) by (destruct c; [done|]; by rewrite last_cons_cons in Hl).
    destruct (N.eqb_spec x 10) as [->|Hx].
    + rewrite !fmap_cons, IH; [done| |done]. intros ->. exfalso. by apply Hl.
    + apply IH; done.
Qed.
Lemma entries_app_closed c : forall current e,
  last c = Some 10 -> lines_from current (c ++ e) = lines_from current c ++ lines_from [] e.
Proof.
  induction c as [|x c IH]; intros current e Hl; [done|]. cbn [app]. rewrite !lines_from_cons.
  destruct c as [|y c].
  - cbn in Hl. injection Hl as ->. done.
  - rewrite last_cons_cons in Hl. destruct (x =? 10); [cbn [app]; f_equal|]; by apply IH.
Qed.

Definition plain_word (w : text) : Prop := w <> [] /\ Forall plain_char w.
Lemma words_word current w t : Forall plain_char w -> words current (w ++ t) = words (rev w ++ current) t.
Proof.
  intros Hw. revert current. induction Hw as [|c w [Hc _] _ IH]; intros current; [done|]. cbn. rewrite Hc, IH.
  by rewrite <- app_assoc.
Qed.
Lemma words_three a b c : plain_word a -> plain_word b -> plain_word c -> words [] (a ++ [32] ++ b ++ [32] ++ c) = [a; b; c].
Proof.
  intros [Ha Pa] [Hb Pb] [Hc Pc]. rewrite words_word by done. cbn [app words is_whitespace].
  assert (Hr : forall l : text, l <> [] -> rev l ++ [] <> []) by (intros [|? ?] Hl; [done|]; cbn; destruct (rev _); done).
  change (is_whitespace 32) with true. cbn iota. rewrite bool_decide_false by auto. rewrite words_word by done. cbn [app words].
  change (is_whitespace 32) with true. cbn iota. rewrite bool_decide_false by auto. rewrite <- (app_nil_r c) at 1.
  rewrite words_word by done. cbn [words]. rewrite bool_decide_false by auto. rewrite !app_nil_r, !rev_involutive. done.
Qed.

Lemma split_once_None c t : c ∉ t -> split_once c t = None.
Proof.
  induction t as [|x t IH]; intros Hn; cbn; [done|]. apply not_elem_of_cons in Hn as [Hx Ht].
  rewrite (proj2 (N.eqb_neq x c)) by congruence. by rewrite IH.
Qed.
Lemma plain_no_hash w : Forall plain_char w -> 35 ∉ w.
Proof. rewrite Forall_forall. intros Hw Hin. by destruct (Hw _ Hin) as (_ & _ & ?). Qed.
Lemma plain_no_newline w : Forall plain_char w -> (10 ∉ w) /\ (13 ∉ w).
Proof. rewrite Forall_forall. intros Hw. split; intros Hin; by destruct (Hw _ Hin) as (? & _). Qed.

Lemma lines_one t : 10 ∉ t -> t <> [] -> forall current, lines_from current (t ++ [10]) = [strip_cr (rev current ++ t)].
Proof.
  induction t as [|x t IH]; intros Hn Ht current; [done|]. cbn [app]. apply not_elem_of_cons in Hn as [Hx Hn].
  rewrite lines_from_cons, (proj2 (N.eqb_neq x 10)) by congruence. destruct t as [|y t].
  - cbn [app]. rewrite lines_from_cons. cbn. done.
  - rewrite IH by done. cbn [rev]. by rewrite <- app_assoc.
Qed.
Lemma algorithm_plain : plain_word CERTIFICATE_ALGORITHM.
Proof. split; [done|]. apply Forall_forall. intros c Hc. unfold plain_char. vm_compute in Hc. 
  repeat (apply elem_of_cons in Hc as [->|Hc]; [split_and!; try reflexivity; discriminate|]). by apply elem_of_nil in Hc.
Qed.

(** A line that was written is read as its three fields. *)
Lemma entries_host_line key fp : plain_word key -> plain_word fp -> entries (host_line key fp ++ [10]) = [[key; CERTIFICATE_ALGORITHM; fp]].
Proof.
  intros Hk Hf. pose proof algorithm_plain as Ha. rewrite lines_one.
  - cbn [fmap list_fmap rev app]. rewrite line_fields_strip_cr, line_fields_words. f_equal. unfold before_hash.
    rewrite split_once_None; [by apply words_three|]. unfold host_line. rewrite !elem_of_app, !list_elem_of_singleton.
    pose proof (plain_no_hash _ (proj2 Hk)). pose proof (plain_no_hash _ (proj2 Hf)). pose proof (plain_no_hash _ (proj2 Ha)). naive_solver.
  - unfold host_line. rewrite !elem_of_app, !list_elem_of_singleton.
    pose proof (plain_no_newline _ (proj2 Hk)). pose proof (plain_no_newline _ (proj2 Hf)). pose proof (plain_no_newline _ (proj2 Ha)). naive_solver.
  - unfold host_line. destruct Hk as [Hk _]. by destruct key.
Qed.

(** ** What a file records for a host *)

Section trust.
Context `{HostLaws}.

(** [None] is a malformed entry, which makes every verification of the host fail. *)
Definition recorded_entry (key : text) (fields : list text) : list (option text) :=
  match fields with
  | k :: rest =>
      if bool_decide (k = key) then
        match rest with
        | algorithm :: fp :: _ => if bool_decide (algorithm = CERTIFICATE_ALGORITHM) then [Some fp] else []
        | _ => [None]
        end
      else []
  | [] => []
  end.
Definition recorded_in (key : text) (contents : text) : list (option text) := entries contents ≫= recorded_entry key.
Definition recorded (key : text) (file : option KnownHostsFile) : list (option text) :=
  match file with Some f => recorded_in key (kf_contents f) | None => [] end.

Fixpoint scan_recorded (fp : text) (expected : list text) (l : list (option text)) : result (bool * list text) :=
  match l with
  | [] => Ok (false, expected)
  | None :: _ => Err "malformed Astra known-host entry"
  | Some r :: l => if bool_decide (r = fp) then Ok (true, expected) else scan_recorded fp (expected ++ [r]) l
  end.
Lemma scan_spec key fp es : forall expected, scan key fp expected es = scan_recorded fp expected (es ≫= recorded_entry key).
Proof.
  induction es as [|fields es IH]; intros expected; [done|]. rewrite bind_cons. cbn [scan].
  destruct fields as [|k [|a [|r rest]]]; cbn [head recorded_entry]; [by rewrite IH| | |]; destruct (decide (k = key)) as [->|Hk];
    try (rewrite (bool_decide_true (Some key = Some key)), (bool_decide_true (key = key)) by done; cbn [negb]);
    try (rewrite (bool_decide_false (Some k = Some key)), (bool_decide_false (k = key)) by congruence; cbn [negb app]; by apply IH); try done.
  case_bool_decide; cbn [negb app scan_recorded]; [|apply IH]. case_bool_decide; [done|apply IH].
Qed.

Lemma lit_pretty_plain (n : N) : Forall plain_char (lit (pretty n)).
Proof.
  assert (Hgo : forall x s, Forall plain_char (lit s) -> Forall plain_char (lit (pretty_N_go x s))).
  { intros x. induction (N.lt_wf_0 x) as [x _ IH]. intros s Hs. destruct (decide (x = 0)) as [->|Hne]; [by rewrite pretty_N_go_0|].
    rewrite pretty_N_go_step by lia. apply IH; [apply N.div_lt; lia|]. unfold lit. cbn. constructor; [|exact Hs].
    assert (Hm : x mod 10 < 10) by (by apply N.mod_lt). rewrite <- (N2Nat.id (x mod 10)) in *.
    generalize dependent (N.to_nat (x mod 10)). intros k Hk.
    do 10 (destruct k as [|k]; [split_and!; try reflexivity; discriminate|]). lia. }
  unfold pretty, pretty_N. case_decide; [|apply Hgo; constructor].
  constructor; [split_and!; try reflexivity; discriminate|constructor].
Qed.
Lemma lower_plain c : plain_char c -> plain_char (to_ascii_lowercase c).
Proof.
  intros (Hw & Hc & Hh). unfold to_ascii_lowercase. destruct (_ && _) eqn:E; [|done]. bool_prop.
  assert (Hb : 97 <= c + 32 <= 122) by lia. revert Hb. generalize (c + 32). intros d Hd. unfold plain_char, is_whitespace, is_control.
  split_and!; [|by rewrite (proj2 (N.ltb_ge d 32)), (proj2 (N.leb_gt 127 d)) by lia|lia].
  repeat match goal with |- context [?a <=? ?b] => destruct (N.leb_spec a b); try lia end.
  all: repeat match goal with |- context [?a =? ?b] => destruct (N.eqb_spec a b); try lia end; done.
Qed.
Lemma trim_end_matches_Forall (P : N -> Prop) p t : Forall P t -> Forall P (trim_end_matches p t).
Proof.
  intros Ht. unfold trim_end_matches. apply Forall_rev. destruct (drop_while_suffix p (rev t)) as (pre & Hpre & _).
  apply Forall_rev in Ht. rewrite Hpre in Ht. by apply Forall_app in Ht as [_ ?].
Qed.
Lemma host_key_plain host port k : host_key host port = Ok k -> plain_word k.
Proof.
  unfold host_key. cbv zeta. intros Hk. ok_inv Hk. bool_prop.
  set (normalized := match parse_ip (trim host) with Some _ => _ | None => _ end) in *.
  assert (Hn : Forall plain_char normalized).
  { assert (Hh : Forall plain_char (trim host)).
    { apply Forall_forall. intros c Hc. match goal with E : existsb _ _ = false |- _ => rename E into He end.
      assert (Hx : is_whitespace c || is_control c || (c =? 35) = false).
      { destruct (is_whitespace c || is_control c || (c =? 35)) eqn:E; [|done]. exfalso. apply Bool.not_true_iff_false in He. apply He.
        apply existsb_exists. exists c. by rewrite <- list_elem_of_In. }
      bool_prop. done. }
    unfold normalized. destruct (parse_ip (trim host)) as [a|] eqn:Hip; [by eapply parse_ip_plain|].
    apply Forall_fmap. eapply Forall_impl; [by apply trim_end_matches_Forall|]. apply lower_plain. }
  split; [done|]. constructor; [split_and!; try reflexivity; discriminate|]. apply Forall_app. split; [done|].
  do 2 (constructor; [split_and!; try reflexivity; discriminate|]). apply lit_pretty_plain.
Qed.
Lemma fingerprint_plain b : plain_word (certificate_fingerprint b).
Proof.
  split; [done|]. unfold certificate_fingerprint. apply Forall_app. split; [|apply base64_sha256_plain].
  repeat (constructor; [split_and!; try reflexivity; discriminate|]). constructor.
Qed.

(** Appending an entry records it for its host, and changes nothing for others. *)
Lemma recorded_append contents key fp key' :
  plain_word key' -> plain_word fp ->
  let updated := if bool_decide (contents = []) || bool_decide (last contents = Some 10) then contents else contents ++ [10] in
  recorded_in key (updated ++ host_line key' fp ++ [10]) = recorded_in key contents ++ (if bool_decide (key' = key) then [Some fp] else []).
Proof.
  intros Hk Hf updated.
  assert (He : entries (updated ++ host_line key' fp ++ [10]) = entries contents ++ [[key'; CERTIFICATE_ALGORITHM; fp]]).
  { rewrite <- (entries_host_line key' fp Hk Hf). unfold updated. case_bool_decide as Hn; cbn [orb]; [by subst|].
    case_bool_decide as Hl; [by rewrite entries_app_closed, fmap_app by done|]. rewrite <- app_assoc. cbn [app]. by apply entries_app_newline. }
  unfold recorded_in. rewrite He, bind_app. f_equal. cbn. case_bool_decide; [|done]. by rewrite app_nil_r.
Qed.

(** ** One verification *)

(** The records stay, or the first one of a host is added under a policy that allows
    it. *)
Definition trust_step (key fp : text) (policy : StrictHostKeyChecking) (file file' : option KnownHostsFile)
    (r : result HostTrustResult) : Prop :=
  ((forall k, recorded k file' = recorded k file) /\
   match r with
   | Ok Known => Some fp ∈ recorded key file
   | Ok Added => False
   | Ok AcceptedWithoutSaving => policy = No
   | Err _ => True
   end) \/
  (recorded key file = [] /\ policy ∈ [Ask; AcceptNew] /\ (r = Ok Added \/ is_ok r = false) /\
   forall k, recorded k file' = recorded k file ++ if bool_decide (key = k) then [Some fp] else []).

Lemma scan_recorded_spec fp l : forall expected,
  match scan_recorded fp expected l with
  | Ok (true, _) => Some fp ∈ l
  | Ok (false, e) => e = [] -> l = [] /\ expected = []
  | Err _ => True
  end.
Proof.
  induction l as [|[r|] l IH]; intros expected; cbn [scan_recorded]; [by auto| |done]. case_bool_decide as Hr; [subst; left|].
  specialize (IH (expected ++ [r])). destruct (scan_recorded fp (expected ++ [r]) l) as [[[] e]|]; [by right| |done].
  intros He. destruct (IH He) as [_ Hx]. by destruct expected.
Qed.

Lemma append_step file contents key fp policy fault :
  plain_word key -> plain_word fp -> (forall k, recorded k file = recorded_in k contents) -> recorded key file = [] ->
  policy ∈ [Ask; AcceptNew] ->
  match append_known_host file contents key fp fault with
  | (file', Ok _) => trust_step key fp policy file file' (Ok Added)
  | (file', Err e) => trust_step key fp policy file file' (Err e)
  end.
Proof.
  intros Hk Hf Hrec Hnil Hpol. unfold append_known_host, atomic_write.
  destruct fault as [k|]; [destruct (k <=? 3)%nat; [by left|]|]; right; split_and!; eauto;
    intros k0; cbn [recorded kf_contents]; rewrite recorded_append by done; by rewrite <- Hrec.
Qed.

Lemma verify_spec c file :
  let '(file', r) := verify_server_certificate_with_confirmation c file in
  match host_key (ca_host c) (ca_port c) with
  | Ok key => trust_step key (certificate_fingerprint (ca_certificate c)) (ca_policy c) file file' r
  | Err _ => file' = file /\ is_ok r = false
  end.
Proof.
  unfold verify_server_certificate_with_confirmation.
  destruct (bool_decide (ca_certificate c = [])); cbn [negb]; [destruct (host_key _ _); [by left|done]|].
  destruct (host_key (ca_host c) (ca_port c)) as [key|] eqn:Hk; cbn [mbind result_bind]; [|done].
  set (fp := certificate_fingerprint (ca_certificate c)).
  destruct (ca_prepared c); cbn [mbind result_bind]; [|by left].
  destruct (read_known_hosts file (ca_readable c)) as [contents|] eqn:Hread; cbn [mbind result_bind]; [|by left].
  assert (Hrec : forall k, recorded k file = recorded_in k contents).
  { intros k. unfold read_known_hosts in Hread. destruct file as [f|]; [|by injection Hread as <-]. ok_inv Hread. done. }
  unfold lines. rewrite scan_spec. fold (recorded_in key contents). rewrite <- Hrec.
  pose proof (scan_recorded_spec fp (recorded key file) []) as Hscan.
  destruct (scan_recorded fp [] (recorded key file)) as [[[] expected]|]; cbn [mbind result_bind]; [by left| |by left].
  destruct (decide (expected = [])) as [->|Hne].
  - rewrite bool_decide_true by done. cbn [negb andb]. destruct (Hscan eq_refl) as [Hnil _].
    pose proof (fun p Hp => append_step file contents key fp p (ca_fault c) (host_key_plain _ _ _ Hk) (fingerprint_plain _) Hrec Hnil Hp) as Ha.
    destruct (append_known_host file contents key fp (ca_fault c)) as [file' [[]|]];
      destruct (ca_policy c); try (by left); try destruct (ca_confirm c) as [[]|]; try (by left); apply Ha; set_solver.
  - rewrite (bool_decide_false (expected = [])) by done. cbn [negb andb]. case_bool_decide; cbn [negb]; by left.
Qed.

(** ** Histories *)

(** A call that made the client trust the server of [key], and its fingerprint. *)
Definition trusts (key : text) (c : call) (r : result HostTrustResult) : Prop :=
  host_key (ca_host c) (ca_port c) = Ok key /\ ca_policy c <> No /\ is_ok r = true.
Definition fingerprint_of (c : call) : text := certificate_fingerprint (ca_certificate c).

Lemma trusted_only key fp calls : forall file,
  recorded key file = [Some fp] ->
  Forall2 (fun c r => trusts key c r -> fingerprint_of c = fp) calls (verify_all calls file).2.
Proof.
  induction calls as [|c calls IH]; intros file Hf; [constructor|]. cbn [verify_all]. pose proof (verify_spec c file) as Hv.
  destruct (verify_server_certificate_with_confirmation c file) as [file' r]. specialize (IH file').
  destruct (verify_all calls file') as [file'' rs]. cbn [snd] in *.
  assert (Hkeep : recorded key file' = [Some fp] /\ (trusts key c r -> fingerprint_of c = fp)).
  { destruct (host_key (ca_host c) (ca_port c)) as [k|] eqn:Hk.
    - destruct Hv as [[Hsame Hr]|(Hnil & _ & _ & Happ)].
      + split; [by rewrite Hsame|]. intros (Hk' & Hp & Hok). rewrite Hk in Hk'. injection Hk' as ->.
        destruct r as [[]|]; try done. rewrite Hf in Hr. apply list_elem_of_singleton in Hr. by injection Hr.
      + assert (key <> k) by congruence. rewrite Happ, bool_decide_false, app_nil_r by congruence. split; [done|]. intros (Hk' & _). congruence.
    - destruct Hv as [-> Hr]. split; [done|]. intros (? & _). congruence. }
  destruct Hkeep. constructor; auto.
Qed.

(** Trust on first use.  In any history of verifications, with any answers of the
    user and any failing writes, starting from a file that records nothing for a host,
    all the certificates that are trusted for that host under a policy other than
    [No] are the same one. *)
Theorem trust_on_first_use key file calls :
  recorded key file = [] ->
  exists fp, Forall2 (fun c r => trusts key c r -> fingerprint_of c = fp) calls (verify_all calls file).2.
Proof.
  revert file. induction calls as [|c calls IH]; intros file Hf; [exists []; constructor|]. cbn [verify_all].
  pose proof (verify_spec c file) as Hv. destruct (verify_server_certificate_with_confirmation c file) as [file' r].
  specialize (IH file'). pose proof (fun fp => trusted_only key fp calls file') as Honly.
  destruct (verify_all calls file') as [file'' rs]. cbn [snd] in *.
  destruct (host_key (ca_host c) (ca_port c)) as [k|] eqn:Hk.
  - destruct Hv as [[Hsame Hr]|(Hnil & _ & _ & Happ)].
    + destruct IH as [fp Hfp]; [by rewrite Hsame|]. exists fp. constructor; [|done]. intros (Hk' & Hp & Hok).
      rewrite Hk in Hk'. injection Hk' as ->. destruct r as [[]|]; try done. rewrite Hf in Hr. by apply elem_of_nil in Hr.
    + destruct (decide (k = key)) as [->|Hne].
      * exists (fingerprint_of c). constructor; [done|]. apply Honly. by rewrite Happ, bool_decide_true, Hf.
      * destruct IH as [fp Hfp]; [by rewrite Happ, bool_decide_false, app_nil_r|]. exists fp. constructor; [|done].
        intros (Hk' & _). congruence.
  - destruct Hv as [-> Hr]. destruct (IH Hf) as [fp Hfp]. exists fp. constructor; [|done]. intros (Hk' & _). congruence.
Qed.

Lemma verify_added c file file' :
  verify_server_certificate_with_confirmation c file = (file', Ok Added) ->
  exists contents, file' = Some (mkHostsFile contents true true 384).
Proof.
  unfold verify_server_certificate_with_confirmation. destruct (if negb _ then _ else _) as [[[[key fp] contents] [[] expected]]|]; [done| |done].
  destruct (_ && _); [done|]. destruct (negb _); [done|]. unfold append_known_host, atomic_write.
  destruct (ca_policy c); [done|destruct (ca_confirm c) as [[]|]; [|done..]| |done]; destruct (ca_fault c); intros Hv; try done;
    injection Hv as <-; eauto.
Qed.

(** Once a certificate has been added, the same host and port accept it from
    any policy without asking or writing, and any other certificate is refused unless
    the policy is [No]. *)
Theorem added_certificate_recalled c file file' c' :
  verify_server_certificate_with_confirmation c file = (file', Ok Added) ->
  host_key (ca_host c') (ca_port c') = host_key (ca_host c) (ca_port c) ->
  ca_certificate c' <> [] -> ca_prepared c' = Ok tt -> ca_readable c' = true ->
  (fingerprint_of c' = fingerprint_of c -> verify_server_certificate_with_confirmation c' file' = (file', Ok Known)) /\
  (fingerprint_of c' <> fingerprint_of c -> ca_policy c' <> No ->
   verify_server_certificate_with_confirmation c' file' = (file', Err "REMOTE HOST CERTIFICATE HAS CHANGED")).
Proof.
  intros Hv Hk Hne Hp Hrd. destruct (verify_added _ _ _ Hv) as [contents Hfile]. pose proof (verify_spec c file) as Hs. rewrite Hv in Hs.
  destruct (host_key (ca_host c) (ca_port c)) as [key|] eqn:Hkey; [|by destruct Hs].
  destruct Hs as [[_ []]|(Hnil & _ & _ & Happ)]. specialize (Happ key). rewrite Hnil, bool_decide_true in Happ by done.
  rewrite Hfile in Happ. cbn [app recorded kf_contents] in Happ. unfold verify_server_certificate_with_confirmation.
  rewrite Hk, Hp, Hrd, Hfile, (bool_decide_false _ Hne). cbn [negb mbind result_bind read_known_hosts].
  unfold validate_known_hosts_file. cbn [kf_regular kf_owned kf_mode kf_contents]. change (N.land 384 18 =? 0) with true. cbn [mbind result_bind].
  unfold lines. rewrite scan_spec. fold (recorded_in key contents). rewrite Happ. cbn [scan_recorded app].
  fold (fingerprint_of c) (fingerprint_of c'). split; intros Hfp.
  - by rewrite (bool_decide_true (fingerprint_of c = _)).
  - intros Hpol. rewrite bool_decide_false by congruence. cbn [mbind result_bind]. by rewrite (bool_decide_false _ Hpol).
Qed.
End trust.

(** ** Witnesses *)

#[local] Instance demo_hosts : HostLib := {| parse_ip _ := None; base64_sha256 b := lit "h" ++ lit (pretty (foldr N.add 0 b)) |}.
#[local] Instance demo_host_laws : HostLaws.
Proof.
  split; [done|]. intros b. split; [done|]. constructor; [split_and!; try reflexivity; discriminate|apply lit_pretty_plain].
Qed.
Definition demo_call (cert : bytes) (policy : StrictHostKeyChecking) : call :=
  mkCall (lit "Example.org.") 4433 cert policy (Ok tt) true (Ok true) None.
Definition demo_key : text := lit "[example.org]:4433".
(** A file with a comment, another host and no final newline. *)
Definition demo_file : option KnownHostsFile :=
  Some (mkHostsFile (lit "# hosts" ++ [13; 10] ++ lit "[a]:1 x509-cert-sha256 SHA256:x # old") true true 420).

Lemma trust_on_first_use_witness :
  recorded demo_key demo_file = [] /\
  exists fp, Forall2 (fun c r => trusts demo_key c r -> fingerprint_of c = fp)
    [demo_call [1] AcceptNew; demo_call [2] Ask; demo_call [1] Yes]
    [Ok Added; Err "REMOTE HOST CERTIFICATE HAS CHANGED"; Ok Known].
Proof.
  split; [vm_compute; reflexivity|].
  destruct (trust_on_first_use demo_key demo_file [demo_call [1] AcceptNew; demo_call [2] Ask; demo_call [1] Yes]) as [fp Hfp].
  - vm_compute. reflexivity.
  - exists fp. assert (Hr : (verify_all [demo_call [1] AcceptNew; demo_call [2] Ask; demo_call [1] Yes] demo_file).2 =
      [Ok Added; Err "REMOTE HOST CERTIFICATE HAS CHANGED"; Ok Known]) by (vm_compute; reflexivity).
    rewrite Hr in Hfp. exact Hfp.
Defined.
Definition demo_added : option KnownHostsFile := (verify_server_certificate_with_confirmation (demo_call [1] AcceptNew) demo_file).1.
Lemma added_certificate_recalled_witness :
  verify_server_certificate_with_confirmation (demo_call [1] Yes) demo_added = (demo_added, Ok Known).
Proof.
  apply (added_certificate_recalled (demo_call [1] AcceptNew) demo_file demo_added (demo_call [1] Yes));
    first [reflexivity|discriminate|vm_compute; reflexivity].
Defined.
