(* ===== verification/AttachServer.v ===== *)
(** * The attachment handler of the worker ([server.rs], [handle_attach_inner])

    One call serves one attached client: it admits the attachment, acquires the
    input lease, answers the request, sends the first state, and then repeats a
    [select!] over the client's commands, lease events, timers and the output of
    the PTY.  The state of the call is a record; [M] threads it together with the
    errors of [?].  A turn of the loop is [turn], a run of the loop is [serve].

    The terminal's lease part is [Lease.Terminal], the registry is
    [SessionManager] of [Sessions]; both are shared with other attachments, which
    may change them between two turns.  What the engine exports, the clock, fresh
    identifiers and the outcome of system calls come with each turn ([Moment]). *)
From S2P Require Import Prelude Text Resources Negotiation TerminalState TerminalSync Payload ViewportDelta.
From S2P Require Import Transfer DatagramV3 Streaming Lease Messages Sessions.
Open Scope N_scope.

(** ** Messages ([protocol.rs]) *)

Inductive LeaseControlAction := LcUnspecified | LcRenew | LcRelease.
Definition action_i32 (a : LeaseControlAction) : Z :=
  match a with LcUnspecified => 0 | LcRenew => 1 | LcRelease => 2 end.
Definition action_try_from (n : Z) : option LeaseControlAction :=
  match n with 0%Z => Some LcUnspecified | 1%Z => Some LcRenew | 2%Z => Some LcRelease | _ => None end.

Inductive CommandKind :=
| CInput (data : bytes)
| CResize (size : Size)
| CDetach (value : bool)
| CHistoryPage (request : HistoryPageRequest)
| CLeaseControl (action : Z)
| CStateAck (ack : TerminalStateAck)
| CStateRepair (repair : TerminalStateRepairRequest).

Record TerminalCommand := mkCommand {
  cm_terminal_id : string;
  cm_lease_id : string;
  cm_sequence : N;
  cm_attachment_id : string;
  cm_command : option CommandKind
}.

Record LeaseChanged := mkLeaseChanged {
  lc_read_only : bool; lc_reason : string; lc_lease_id : string; lc_lease_ttl_ms : N }.
Record ClipboardWrite := mkClipboard { cw_selection : Z; cw_contents : bytes; cw_clear : bool }.

(** A [TerminalSnapshot] is kept as its encoding. *)
Inductive EventKind :=
| EOutput (data : bytes)
| EExited (code : Z)
| EError (message : string)
| EInteractive (interactive : bool)
| ESnapshot (encoded : bytes)
| ELeaseChanged (change : LeaseChanged)
| ESemanticStateChunk (chunk : TransferChunk)
| EClipboardWrite (write : ClipboardWrite)
| EHistoryPageChunk (chunk : TransferChunk)
| ESemanticStateDiffChunk (chunk : TerminalStateDiffChunk)
| EViewportDatagram (datagram : TerminalViewportDatagram).

Record TerminalEvent := mkEvent {
  te_terminal_id : string; te_attachment_id : string; te_event : option EventKind }.

Record AttachResponse := mkAttachResponse {
  ar_terminal : option TerminalInfo;
  ar_lease_id : string;
  ar_read_only : bool;
  ar_resume_token : string;
  ar_snapshot : option bytes;
  ar_attachment : option AttachmentInfo;
  ar_lease_ttl_ms : N;
  ar_recovery_generation : N
}.

(** ** Libraries

    The codecs of the two state paths share one state schema and one zstd. *)
Class AttachLib := {
  attach_stream_lib :: StreamLib;
  attach_state_to_vec : State -> bytes;
  attach_state_decode : bytes -> result State;
  attach_page_to_vec : HistoryPage -> bytes;
  attach_page_decode : bytes -> result HistoryPage;
  attach_diff_to_vec : TerminalStateDiff -> bytes
}.
#[global] Instance attach_wire_lib `{AttachLib} : WireLib := {|
  wire_sync_lib := stream_sync_lib;
  wire_payload_lib := datagram_payload_lib;
  state_to_vec := attach_state_to_vec;
  state_decode := attach_state_decode;
  page_to_vec := attach_page_to_vec;
  page_decode := attach_page_decode;
  diff_to_vec := attach_diff_to_vec
|}.

(** ** The state of a call *)

Definition TERMINAL_STATE_COALESCE_INTERVAL : N := 16 * 1000000.
Definition TERMINAL_DATAGRAM_RETRY_INTERVAL : N := 100 * 1000000.
Definition TERMINAL_DATAGRAM_REKEY_INTERVAL : N := 1000 * 1000000.

Inductive TerminalDatagramTransport := Direct | WorkerBridge (maximum_datagram_size : N).

(** What stays fixed after the response. *)
Record AttachConfig := mkConfig {
  ac_terminal_id : string;
  ac_attachment_id : string;
  ac_lease_id : string;
  ac_input_lease : bool;
  ac_semantic : bool;
  ac_zstd : bool;
  ac_session_objects : bool;
  ac_history_paging : bool;
  ac_clipboard_write : bool;
  ac_state_ack : bool;
  ac_semantic_diff : bool;
  ac_datagram_state : bool;
  ac_transport : option TerminalDatagramTransport
}.

(** [sv_writes] says how many more messages the send stream takes before it fails;
    [sv_air] are the datagrams given to the connection. *)
Record Attached := mkAttached {
  sv_terminal : Lease.Terminal;
  sv_manager : SessionManager;
  sv_state_sync : StateSyncWindow;
  sv_streaming_sync : option StreamingStateWindow;
  sv_streaming_dirty : bool;
  sv_independent_dirty : bool;
  sv_independent_revision : bytes * N;
  sv_last_state_sent : N;
  sv_last_state_sampled : N;
  sv_last_streaming_rekey : N;
  sv_out : list TerminalEvent;
  sv_air : list TerminalViewportDatagram;
  sv_writes : option nat
}.

Definition with_terminal (t : Lease.Terminal) (s : Attached) : Attached :=
  mkAttached t (sv_manager s) (sv_state_sync s) (sv_streaming_sync s) (sv_streaming_dirty s)
    (sv_independent_dirty s) (sv_independent_revision s) (sv_last_state_sent s) (sv_last_state_sampled s)
    (sv_last_streaming_rekey s) (sv_out s) (sv_air s) (sv_writes s).
Definition with_manager (m : SessionManager) (s : Attached) : Attached :=
  mkAttached (sv_terminal s) m (sv_state_sync s) (sv_streaming_sync s) (sv_streaming_dirty s)
    (sv_independent_dirty s) (sv_independent_revision s) (sv_last_state_sent s) (sv_last_state_sampled s)
    (sv_last_streaming_rekey s) (sv_out s) (sv_air s) (sv_writes s).
Definition with_sync (w : StateSyncWindow) (s : Attached) : Attached :=
  mkAttached (sv_terminal s) (sv_manager s) w (sv_streaming_sync s) (sv_streaming_dirty s)
    (sv_independent_dirty s) (sv_independent_revision s) (sv_last_state_sent s) (sv_last_state_sampled s)
    (sv_last_streaming_rekey s) (sv_out s) (sv_air s) (sv_writes s).
Definition with_streaming (w : option StreamingStateWindow) (s : Attached) : Attached :=
  mkAttached (sv_terminal s) (sv_manager s) (sv_state_sync s) w (sv_streaming_dirty s)
    (sv_independent_dirty s) (sv_independent_revision s) (sv_last_state_sent s) (sv_last_state_sampled s)
    (sv_last_streaming_rekey s) (sv_out s) (sv_air s) (sv_writes s).
Definition with_dirty (streaming independent : bool) (s : Attached) : Attached :=
  mkAttached (sv_terminal s) (sv_manager s) (sv_state_sync s) (sv_streaming_sync s) streaming
    independent (sv_independent_revision s) (sv_last_state_sent s) (sv_last_state_sampled s)
    (sv_last_streaming_rekey s) (sv_out s) (sv_air s) (sv_writes s).
Definition with_revision (r : bytes * N) (s : Attached) : Attached :=
  mkAttached (sv_terminal s) (sv_manager s) (sv_state_sync s) (sv_streaming_sync s) (sv_streaming_dirty s)
    (sv_independent_dirty s) r (sv_last_state_sent s) (sv_last_state_sampled s)
    (sv_last_streaming_rekey s) (sv_out s) (sv_air s) (sv_writes s).
Definition with_times (sent sampled rekey : N) (s : Attached) : Attached :=
  mkAttached (sv_terminal s) (sv_manager s) (sv_state_sync s) (sv_streaming_sync s) (sv_streaming_dirty s)
    (sv_independent_dirty s) (sv_independent_revision s) sent sampled rekey (sv_out s) (sv_air s) (sv_writes s).
Definition with_output (out : list TerminalEvent) (air : list TerminalViewportDatagram) (writes : option nat)
    (s : Attached) : Attached :=
  mkAttached (sv_terminal s) (sv_manager s) (sv_state_sync s) (sv_streaming_sync s) (sv_streaming_dirty s)
    (sv_independent_dirty s) (sv_independent_revision s) (sv_last_state_sent s) (sv_last_state_sampled s)
    (sv_last_streaming_rekey s) out air writes.
Definition set_sent_time (t : N) (s : Attached) : Attached :=
  with_times t (sv_last_state_sampled s) (sv_last_streaming_rekey s) s.
Definition set_sampled_time (t : N) (s : Attached) : Attached :=
  with_times (sv_last_state_sent s) t (sv_last_streaming_rekey s) s.
Definition set_rekey_time (t : N) (s : Attached) : Attached :=
  with_times (sv_last_state_sent s) (sv_last_state_sampled s) t s.

(** ** State and errors *)

Definition M (A : Type) : Type := Attached -> Attached * result A.
Definition m_ret {A} (a : A) : M A := fun s => (s, Ok a).
Definition m_bind {A B} (m : M A) (f : A -> M B) : M B := fun s =>
  match m s with (s, Ok a) => f a s | (s, Err e) => (s, Err e) end.
Definition m_lift {A} (r : result A) : M A := fun s => (s, r).
Definition m_fail {A} (e : string) : M A := fun s => (s, Err e).
Definition m_get {A} (f : Attached -> A) : M A := fun s => (s, Ok (f s)).
Definition m_set (f : Attached -> Attached) : M unit := fun s => (f s, Ok tt).

Declare Scope attach_scope.
Delimit Scope attach_scope with attach.
Notation "x <- m ;; k" := (m_bind m (fun x => k)) (at level 100, m at next level, right associativity) : attach_scope.
Notation "m ;;; k" := (m_bind m (fun _ => k)) (at level 100, right associativity) : attach_scope.
Open Scope attach_scope.

Definition on_terminal (f : Lease.Terminal -> Lease.Terminal * result unit) : M unit := fun s =>
  let '(t, r) := f (sv_terminal s) in (with_terminal t s, r).
Definition on_manager (f : SessionManager -> SessionManager * result unit) : M unit := fun s =>
  let '(m, r) := f (sv_manager s) in (with_manager m s, r).
Definition on_sync {A} (f : StateSyncWindow -> StateSyncWindow * result A) : M A := fun s =>
  let '(w, r) := f (sv_state_sync s) in (with_sync w s, r).
(** [streaming_sync.as_mut().context(..)?] *)
Definition on_streaming {A} (f : StreamingStateWindow -> StreamingStateWindow * result A) : M A := fun s =>
  match sv_streaming_sync s with
  | None => (s, Err "terminal streaming state is missing")
  | Some w => let '(w, r) := f w in (with_streaming (Some w) s, r)
  end.

(** ** What a turn gets from outside *)

(** [max_datagram_size] of the path, and whether [send_datagram] queues the packet. *)
Record PathIo := mkPath { pi_max : option N; pi_send : result bool }.
Record Moment := mkMoment {
  mo_now : N;
  mo_later : N;
  mo_pty : PtyIo;
  mo_page : result HistoryPage;
  mo_state : result State;
  mo_after : result (option State);
  mo_snapshot : result bytes;
  mo_transfer_id : bytes;
  mo_path : N -> PathIo
}.

Inductive PtyEvent :=
| PtyOutput (data : bytes)
| PtyExited (code : Z)
| PtyError (message : string)
| PtyInteractive (interactive : bool)
| PtyClipboardWrite (primary : bool) (contents : option bytes)
| PtyLagged
| PtyClosed.

Inductive Turn :=
| TIncoming (r : result (option (option TerminalCommand)))
| TLeaseEvent (e : option LeaseEvent)
| TLeaseExpiry
| TStateUpdate
| TStreamingRetry
| TStreamingRekey
| TPty (e : PtyEvent).

Section server.
Context `{AttachLib} `{SessionLib}.

(** ** Writing *)

Definition write_terminal_event (c : AttachConfig) (event : EventKind) : M unit := fun s =>
  let e := mkEvent (ac_terminal_id c) (ac_attachment_id c) (Some event) in
  match sv_writes s with
  | Some O => (s, Err "write failed")
  | Some (S n) => (with_output (sv_out s ++ [e]) (sv_air s) (Some n) s, Ok tt)
  | None => (with_output (sv_out s ++ [e]) (sv_air s) None s, Ok tt)
  end.
Fixpoint write_events (c : AttachConfig) (events : list EventKind) : M unit :=
  match events with
  | [] => m_ret tt
  | event :: events => write_terminal_event c event;;; write_events c events
  end.

Definition write_terminal_state (c : AttachConfig) (transfer_id : bytes) (state : State) : M unit :=
  chunks <- m_lift (terminal_state_chunks transfer_id state (ac_zstd c));;
  write_events c (ESemanticStateChunk <$> chunks).
Definition write_terminal_state_diff (c : AttachConfig) (transfer_id : bytes) (diff : TerminalStateDiff) : M unit :=
  chunks <- m_lift (terminal_state_diff_chunks transfer_id diff);;
  write_events c (ESemanticStateDiffChunk <$> chunks).
Definition write_prepared_state_update (c : AttachConfig) (transfer_id : bytes) (update : PreparedStateUpdate) : M unit :=
  match update with
  | Snapshot state => write_terminal_state c transfer_id state
  | Diff diff => write_terminal_state_diff c transfer_id diff
  end.
Definition write_history_page (c : AttachConfig) (transfer_id : bytes) (page : HistoryPage) : M unit :=
  chunks <- m_lift (history_page_chunks transfer_id page (ac_zstd c));;
  write_events c (EHistoryPageChunk <$> chunks).

Definition send_datagram (d : TerminalViewportDatagram) : M unit :=
  m_set (fun s => with_output (sv_out s) (sv_air s ++ [d]) (sv_writes s) s).

(** The loop over the fragments; a [break] leaves the rest unsent. *)
Fixpoint send_fragments (c : AttachConfig) (transport : TerminalDatagramTransport) (transfer : ViewportTransfer)
    (path : N -> PathIo) (indices : list N) : M unit :=
  match indices with
  | [] => m_ret tt
  | index :: indices =>
      datagram <- m_lift (packet transfer index);;
      match transport with
      | Direct =>
          match pi_max (path index) with
          | None => m_ret tt
          | Some maximum =>
              if maximum <? llen (datagram_to_vec datagram) then m_ret tt
              else
                sent <- m_lift (pi_send (path index));;
                if sent then send_datagram datagram;;; send_fragments c transport transfer path indices
                else m_ret tt
          end
      | WorkerBridge maximum =>
          if maximum <? datagram_encoded_len datagram then m_ret tt
          else write_terminal_event c (EViewportDatagram datagram);;; send_fragments c transport transfer path indices
      end
  end.

Definition write_streaming_update (c : AttachConfig) (transport : TerminalDatagramTransport) (mo : Moment)
    (update : StreamingUpdate) : M unit :=
  match update with
  | ReliableKeyframe state => write_terminal_state c (mo_transfer_id mo) state
  | FragmentedDelta transfer =>
      if negb (bool_decide (route transfer = (ac_terminal_id c, ac_attachment_id c)))
      then m_fail "fragmented viewport route is inconsistent"
      else send_fragments c transport transfer (mo_path mo) (range0 (transfer_count transfer))
  | DatagramDelta datagram =>
      if negb (bool_decide (dg_terminal_id datagram = ac_terminal_id c)
               && bool_decide (dg_attachment_id datagram = ac_attachment_id c)
               && negb (is_none (dg_diff datagram)))
      then m_fail "terminal viewport datagram route is inconsistent"
      else
        match transport with
        | Direct =>
            match pi_max (mo_path mo 0) with
            | None => m_ret tt
            | Some maximum =>
                if maximum <? llen (datagram_to_vec datagram) then m_ret tt
                else
                  sent <- m_lift (pi_send (mo_path mo 0));;
                  if sent then send_datagram datagram else m_ret tt
            end
        | WorkerBridge _ => write_terminal_event c (EViewportDatagram datagram)
        end
  end.

Definition the_transport (c : AttachConfig) : M TerminalDatagramTransport :=
  m_lift (ok_or (ac_transport c) "terminal datagram transport is missing").
(** [TerminalDatagramTransport::maximum_datagram_size], or zero. *)
Definition maximum_datagram_size (c : AttachConfig) (mo : Moment) : N :=
  match ac_transport c with
  | Some Direct => default 0 (pi_max (mo_path mo 0))
  | Some (WorkerBridge maximum) => maximum
  | None => 0
  end.
(** The write of an update, and the instants that are recorded after it. *)
Definition deliver_update (c : AttachConfig) (mo : Moment) (rekeys : StreamingUpdate -> bool)
    (update : option StreamingUpdate) : M unit :=
  match update with
  | None => m_ret tt
  | Some update =>
      transport <- the_transport c;;
      write_streaming_update c transport mo update;;;
      m_set (set_sent_time (mo_later mo));;;
      if rekeys update then m_set (set_rekey_time (mo_later mo)) else m_ret tt
  end.
Definition is_keyframe (u : StreamingUpdate) : bool := match u with ReliableKeyframe _ => true | _ => false end.

(** ** Commands *)

Definition validate_terminal_command_target (command : TerminalCommand) (terminal_id attachment_id : string)
    (session_objects : bool) (attachment_lease_id : string) : result unit :=
  ensure! bool_decide (cm_terminal_id command = terminal_id), "terminal command targets the wrong terminal";
  ensure! negb session_objects || bool_decide (cm_attachment_id command = attachment_id),
    "terminal command targets the wrong attachment";
  let owned := match cm_command command with
               | Some (CInput _) | Some (CResize _) | Some (CLeaseControl _) => true
               | _ => false
               end in
  ensure! negb owned || (negb (bool_decide (attachment_lease_id = ""))
                         && bool_decide (cm_lease_id command = attachment_lease_id)),
    "terminal command does not own this attachment's input lease";
  Ok tt.

(** New output: the state path that was negotiated has something to send. *)
Definition note_output (c : AttachConfig) : M unit :=
  if negb (ac_semantic c) then m_ret tt
  else if ac_datagram_state c then m_set (fun s => with_dirty true (sv_independent_dirty s) s)
  else if ac_state_ack c then m_set (fun s => with_sync (mark_dirty (sv_state_sync s)) s)
  else m_set (fun s => with_dirty (sv_streaming_dirty s) true s).

Definition base_acknowledged (s : Attached) : bool :=
  match sv_streaming_sync s with Some w => base_is_acknowledged w | None => false end.
Definition pending_update (s : Attached) : bool :=
  match sv_streaming_sync s with Some w => has_pending_update w | None => false end.

Definition handle_state_ack (c : AttachConfig) (mo : Moment) (ack : TerminalStateAck) : M unit :=
  if negb (ac_state_ack c) then m_fail "terminal state ACK received without negotiated capability" else
  was_acknowledged <- m_get (fun s => ac_datagram_state c && base_acknowledged s);;
  disposition <- (if ac_datagram_state c then on_streaming (fun w => stream_acknowledge w ack)
                  else on_sync (fun w => acknowledge w ack));;
  if negb (ac_datagram_state c) then m_ret tt else
  acknowledged <- m_get base_acknowledged;;
  pending <- m_get pending_update;;
  (if bool_decide (disposition = Accepted) || (negb was_acknowledged && acknowledged)
   then m_set (set_rekey_time (mo_now mo)) else m_ret tt);;;
  if acknowledged && pending then m_set (fun s => with_dirty true (sv_independent_dirty s) s) else m_ret tt.

(** The answer says whether the loop ends. *)
Definition handle_command (c : AttachConfig) (mo : Moment) (command : TerminalCommand) : M bool :=
  m_lift (validate_terminal_command_target command (ac_terminal_id c) (ac_attachment_id c) (ac_session_objects c)
            (ac_lease_id c));;;
  match cm_command command with
  | Some (CInput data) =>
      on_terminal (fun t => write_input t (cm_lease_id command) (cm_sequence command) data (mo_now mo) (mo_pty mo));;;
      m_ret false
  | Some (CResize size) =>
      on_terminal (fun t => resize t (cm_lease_id command) (cm_sequence command) size (mo_now mo) (mo_pty mo));;;
      note_output c;;; m_ret false
  | Some (CHistoryPage request) =>
      if negb (ac_history_paging c) then m_fail "history page requested without negotiated capability" else
      page <- m_lift (mo_page mo);;
      write_history_page c (mo_transfer_id mo) page;;; m_ret false
  | Some (CLeaseControl action) =>
      if negb (ac_input_lease c) then m_fail "lease control requested without negotiated capability" else
      match action_try_from action with
      | Some LcRenew =>
          on_terminal (fun t => renew_lease_at t (cm_lease_id command) (cm_sequence command) INPUT_LEASE_TTL
                                  (mo_now mo) (mo_later mo));;; m_ret false
      | Some LcRelease =>
          on_terminal (fun t => release_lease_command t (cm_lease_id command) (cm_sequence command) (mo_now mo));;;
          m_ret false
      | Some LcUnspecified | None => m_fail "invalid lease control action"
      end
  | Some (CStateAck ack) => handle_state_ack c mo ack;;; m_ret false
  | Some (CStateRepair request) =>
      if negb (ac_datagram_state c)
      then m_fail "terminal state repair requested without negotiated datagram capability" else
      update <- on_streaming (fun w => repair w request);;
      deliver_update c mo (fun _ => true) update;;; m_ret false
  | Some (CDetach _) | None => m_ret true
  end.

(** ** Turns *)

Definition reason_name (r : LeaseRevocationReason) : string :=
  match r with TakenOver => "taken_over" | Expired => "expired" | Released => "released" end.

Definition handle_lease_event (c : AttachConfig) (event : option LeaseEvent) : M unit :=
  match event with
  | Some event =>
      if bool_decide (ev_revoked_lease_id event = ac_lease_id c) then
        on_manager (handle_set_role (ac_attachment_id c) Viewer);;;
        write_terminal_event c (ELeaseChanged
          (mkLeaseChanged true (reason_name (ev_reason event)) (ev_revoked_lease_id event) 0))
      else m_ret tt
  | None => m_ret tt
  end.

(** [wait_for_state_update] has fired. *)
Definition handle_state_update (c : AttachConfig) (mo : Moment) : M unit :=
  pending <- m_get pending_update;;
  m_set (set_sampled_time (mo_now mo));;;
  if ac_datagram_state c then
    m_set (fun s => with_dirty false (sv_independent_dirty s) s);;;
    latest <- m_lift (mo_state mo);;
    (if pending then m_ret tt else m_set (set_rekey_time (mo_now mo)));;;
    update <- on_streaming (fun w => stream_prepare_update w latest (maximum_datagram_size c mo));;
    deliver_update c mo is_keyframe update
  else if negb (ac_state_ack c) then
    m_set (fun s => with_dirty (sv_streaming_dirty s) false s);;;
    latest <- m_lift (mo_after mo);;
    match latest with
    | None => m_ret tt
    | Some latest =>
        write_terminal_state c (mo_transfer_id mo) latest;;;
        m_set (with_revision (st_epoch latest, st_generation latest));;;
        m_set (set_sent_time (mo_later mo))
    end
  else
    latest <- m_lift (mo_state mo);;
    update <- on_sync (fun w => prepare_update w latest (ac_semantic_diff c));;
    match update with
    | None => m_ret tt
    | Some update =>
        write_prepared_state_update c (mo_transfer_id mo) update;;;
        m_set (set_sent_time (mo_later mo))
    end.

Definition handle_streaming_retry (c : AttachConfig) (mo : Moment) : M unit :=
  update <- on_streaming (fun w => retry_latest w (maximum_datagram_size c mo));;
  deliver_update c mo is_keyframe update.
Definition handle_streaming_rekey (c : AttachConfig) (mo : Moment) : M unit :=
  update <- on_streaming rekey_latest;;
  deliver_update c mo (fun _ => true) update.

Definition handle_lagged (c : AttachConfig) (mo : Moment) : M unit :=
  (if ac_semantic c && ac_datagram_state c then m_set (fun s => with_dirty true (sv_independent_dirty s) s)
   else if ac_semantic c && ac_state_ack c then m_set (fun s => with_sync (mark_dirty (sv_state_sync s)) s)
   else on_manager (handle_set_state (ac_attachment_id c) Snapshotting));;;
  (if ac_semantic c && negb (ac_state_ack c) then m_set (fun s => with_dirty (sv_streaming_dirty s) true s)
   else if negb (ac_semantic c) then
     snapshot <- m_lift (mo_snapshot mo);;
     write_terminal_event c (ESnapshot snapshot)
   else m_ret tt);;;
  if negb (ac_state_ack c) then on_manager (handle_set_state (ac_attachment_id c) Live) else m_ret tt.

Definition handle_pty_event (c : AttachConfig) (mo : Moment) (event : PtyEvent) : M bool :=
  match event with
  | PtyOutput data =>
      (if ac_semantic c then note_output c else write_terminal_event c (EOutput data));;; m_ret false
  | PtyExited code =>
      (if ac_semantic c then state <- m_lift (mo_state mo);; write_terminal_state c (mo_transfer_id mo) state
       else m_ret tt);;;
      write_terminal_event c (EExited code);;; m_ret true
  | PtyError message => write_terminal_event c (EError message);;; m_ret false
  | PtyInteractive interactive => write_terminal_event c (EInteractive interactive);;; m_ret false
  | PtyClipboardWrite primary contents =>
      (if ac_clipboard_write c
       then write_terminal_event c (EClipboardWrite
              (mkClipboard (if primary then 2 else 1) (default [] contents) (is_none contents)))
       else m_ret tt);;; m_ret false
  | PtyLagged => handle_lagged c mo;;; m_ret false
  | PtyClosed => m_ret true
  end.

(** The arm of the [select!] that was taken. *)
Definition turn (c : AttachConfig) (mo : Moment) (t : Turn) : M bool :=
  match t with
  | TIncoming (Err e) => m_fail e
  | TIncoming (Ok None) => m_ret true
  | TIncoming (Ok (Some None)) => m_fail "unexpected message on attach stream"
  | TIncoming (Ok (Some (Some command))) => handle_command c mo command
  | TLeaseEvent event => handle_lease_event c event;;; m_ret false
  | TLeaseExpiry => on_terminal (fun t => ((expire_lease_if_due_at t (ac_lease_id c) (mo_now mo)).1, Ok tt));;; m_ret false
  | TStateUpdate => handle_state_update c mo;;; m_ret false
  | TStreamingRetry => handle_streaming_retry c mo;;; m_ret false
  | TStreamingRekey => handle_streaming_rekey c mo;;; m_ret false
  | TPty event => handle_pty_event c mo event
  end.

Definition should_send_state (c : AttachConfig) (s : Attached) : bool :=
  if ac_datagram_state c then sv_streaming_dirty s
  else if ac_state_ack c then needs_update (sv_state_sync s)
  else ac_semantic c && sv_independent_dirty s.
Definition should_retry_streaming (c : AttachConfig) (s : Attached) : bool :=
  ac_datagram_state c && pending_update s && base_acknowledged s && negb (sv_streaming_dirty s).

(** Which arms can be taken: the guards of the [select!] and the deadlines.  Without
    acknowledgements a state also waits for an empty queue ([wait_until_drained]),
    which only delays it. *)
Definition enabled (c : AttachConfig) (s : Attached) (now : N) (t : Turn) : bool :=
  match t with
  | TIncoming _ | TPty _ => true
  | TLeaseEvent _ => negb (bool_decide (ac_lease_id c = ""))
  | TLeaseExpiry =>
      ac_input_lease c && negb (bool_decide (ac_lease_id c = ""))
      && match lease_deadline (sv_terminal s) (ac_lease_id c) with Some d => d <=? now | None => false end
  | TStateUpdate =>
      should_send_state c s && (sv_last_state_sampled s + TERMINAL_STATE_COALESCE_INTERVAL <=? now)
  | TStreamingRetry =>
      should_retry_streaming c s && (sv_last_state_sent s + TERMINAL_DATAGRAM_RETRY_INTERVAL <=? now)
  | TStreamingRekey =>
      ac_datagram_state c && pending_update s && base_acknowledged s
      && (sv_last_streaming_rekey s + TERMINAL_DATAGRAM_REKEY_INTERVAL <=? now)
  end.

(** The loop, over the arms that are taken; [None] when it is still running. *)
Fixpoint serve (c : AttachConfig) (turns : list (Turn * Moment)) (s : Attached) : Attached * option (result unit) :=
  match turns with
  | [] => (s, None)
  | (t, mo) :: turns =>
      match turn c mo t s with
      | (s, Ok false) => serve c turns s
      | (s, Ok true) => (s, Some (Ok tt))
      | (s, Err e) => (s, Some (Err e))
      end
  end.

(** The drop of [ActiveAttachment], and before it the one of [ReleaseLease]. *)
Definition drop_attachment (attachment_id : string) (s : Attached) : Attached :=
  match handle_drop attachment_id (sv_manager s) with
  | Ok m => with_manager m s
  | Err _ => s
  end.
Definition drop_guards (attachment_id lease_id : string) (s : Attached) : Attached :=
  drop_attachment attachment_id (with_terminal (release_lease (sv_terminal s) lease_id) s).

(** After the loop: the error is reported if the stream still takes it. *)
Definition finish (c : AttachConfig) (r : result unit) (s : Attached) : Attached :=
  let s := match r with
           | Err e => (write_terminal_event c (EError e) s).1
           | Ok _ => s
           end in
  drop_guards (ac_attachment_id c) (ac_lease_id c) s.

(** ** Setting up *)

(** [send_domain_error]: a refused quota has a code of its own. *)
Definition domain_code (default_code error : string) : string :=
  if bool_decide (error = "resource quota exceeded"%string) then "quota" else default_code.

(** The flags that the capabilities of the connection determine. *)
Definition attach_config (np : NegotiatedProtocol) (transport : option TerminalDatagramTransport)
    (terminal_id attachment_id lease_id : string) : AttachConfig :=
  let semantic := negotiated_has np CAPABILITY_SEMANTIC_STATE 2 in
  let session_objects := negotiated_has np CAPABILITY_SESSION_OBJECTS 1 in
  let state_ack := semantic && negotiated_has np CAPABILITY_STATE_ACK 1 in
  mkConfig terminal_id attachment_id lease_id
    (negotiated_has np CAPABILITY_INPUT_LEASE 1) semantic (negotiated_has np CAPABILITY_PAYLOAD_ZSTD 1)
    session_objects (semantic && negotiated_has np CAPABILITY_HISTORY_PAGING 1)
    (semantic && negotiated_has np CAPABILITY_CLIPBOARD_WRITE 1) state_ack
    (state_ack && negotiated_has np CAPABILITY_SEMANTIC_DIFF 1)
    (state_ack && session_objects && negotiated_has np CAPABILITY_DATAGRAM_STATE 1) transport.

(** The response; the first of the messages on the stream. *)
Definition send_response (response : AttachResponse) : M AttachResponse := fun s =>
  match sv_writes s with
  | Some O => (s, Err "write failed")
  | Some (S n) => (with_output (sv_out s) (sv_air s) (Some n) s, Ok response)
  | None => (s, Ok response)
  end.

(** From the granted lease to the start of the loop. *)
Definition attach_live (c : AttachConfig) (datagram_version : N) (mo : Moment) (request : AttachRequest)
    (info : TerminalInfo) (attachment : AttachmentInfo) (grant : LeaseGrant) : M AttachResponse :=
  on_manager (handle_set_state (ac_attachment_id c) Snapshotting);;;
  (if ac_datagram_state c && (is_none (ac_transport c) || (maximum_datagram_size c mo =? 0))
   then m_fail "terminal datagram capability has no payload budget" else m_ret tt);;;
  initial <- m_lift (if ac_semantic c then Some <$> mo_state mo else _ ← mo_snapshot mo; Ok None);;
  response <- send_response
    (mkAttachResponse (Some info) (lg_lease_id grant) (at_read_only request) (lg_resume_token grant)
       (if ac_semantic c then None else match mo_snapshot mo with Ok b => Some b | Err _ => None end)
       (Some (with_state Snapshotting attachment))
       (match lg_ttl grant with Some ttl => N.min (ttl / 1000000) U32_MAX | None => 0 end)
       (lg_recovery_generation grant));;
  match initial with
  | None => m_ret tt
  | Some state =>
      m_set (with_revision (st_epoch state, st_generation state));;;
      write_terminal_state c (mo_transfer_id mo) state;;;
      if ac_datagram_state c then
        w <- m_lift (with_route_version state (ac_terminal_id c) (ac_attachment_id c) datagram_version);;
        m_set (with_streaming (Some w))
      else if ac_state_ack c then on_sync (fun w => begin_initial w state)
      else m_ret tt
  end;;;
  m_set (with_times (mo_later mo) (mo_later mo) (mo_later mo));;;
  on_manager (handle_set_state (ac_attachment_id c) Live);;;
  m_ret response.

(** A terminal that has exited is reported, and the call is over. *)
Definition attach_exited (c : AttachConfig) (info : TerminalInfo) : M bool :=
  if bool_decide (ti_status info = "running") then m_ret false
  else write_terminal_event c (EExited (default 1%Z (ti_exit_code info)));;; m_ret true.

Inductive Outcome :=
| Refused (code error : string)
| Ended (r : result unit)
| Serving (c : AttachConfig) (response : AttachResponse).

(** Fresh identifiers: of the attachment, of the lease and of a recovery token. *)
Record Fresh := mkFresh { fr_attachment : string; fr_lease : string; fr_token : string; fr_created : result N }.

Definition handle_attach_inner (np : NegotiatedProtocol) (connection_id : string)
    (transport : option TerminalDatagramTransport) (request : AttachRequest) (info : TerminalInfo)
    (fresh : Fresh) (mo : Moment) (s : Attached) : Attached * Outcome :=
  let client := at_client_instance_id request in
  if negb (bool_decide (client = "")) && negb (negotiated_has np CAPABILITY_INPUT_RESUME 2)
  then (s, Refused "capability" "input resume capability required") else
  match register_attachment connection_id info (at_read_only request) (fr_attachment fresh) (fr_created fresh)
          (sv_manager s) with
  | (m, Err e) => (with_manager m s, Refused (domain_code "attachment" e) e)
  | (m, Ok attachment) =>
      let s := with_manager m s in
      match acquire_resumable_lease_at (fun id => is_ok (validate_uuid id)) (sv_terminal s)
              (at_read_only request) (at_takeover request) (at_resume_token request)
              (if negotiated_has np CAPABILITY_INPUT_LEASE 1 then Some INPUT_LEASE_TTL else None)
              (if bool_decide (client = "") then None else Some client)
              (mo_now mo) (fr_token fresh) (fr_lease fresh) with
      | (t, Err e) =>
          let s := with_terminal t s in
          (drop_attachment (fr_attachment fresh) s, Refused "lease_conflict" e)
      | (t, Ok grant) =>
          let s := with_terminal t s in
          let c := attach_config np transport (ti_id info) (fr_attachment fresh) (lg_lease_id grant) in
          match attach_live c (default 0 (np_capabilities np !! CAPABILITY_DATAGRAM_STATE)) mo request info attachment
                  grant s with
          | (s, Err e) =>
              (drop_guards (fr_attachment fresh) (ac_lease_id c) s, Ended (Err e))
          | (s, Ok response) =>
              match attach_exited c info s with
              | (s, Ok false) => (s, Serving c response)
              | (s, Ok true) => (finish c (Ok tt) s, Ended (Ok tt))
              | (s, Err e) =>
                  (drop_guards (fr_attachment fresh) (ac_lease_id c) s, Ended (Err e))
              end
          end
      end
  end.
End server.
