(* ===== verification/AttachClient.v ===== *)
(** * The streaming attachment of the client ([client.rs])

    The router gives the datagrams of a connection to the mailboxes of its
    attachments, each of which keeps only the newest one; an attachment reads its
    reliable stream and its mailbox, applies both to the replica, acknowledges,
    renews its lease and sends numbered commands.  The router's task and the
    attachment share the mailboxes under one lock, so each of their steps on it is
    atomic.  [sa_out] are the commands given to the send stream, which takes
    [sa_writes] more of them. *)
From S2P Require Import Prelude Text Resources Negotiation TerminalState TerminalSync Payload ViewportDelta.
From S2P Require Import Transfer DatagramV3 Streaming Lease Messages Sessions AttachServer.
Open Scope N_scope.

(** ** The datagram router *)

Inductive DatagramDelivery :=
| DDatagram (datagram : TerminalViewportDatagram)
| DClosed (message : string).

Abbreviation DatagramRoute := (string * string)%type.

(** The sender of a [watch] channel with its current value, whether the receiver has
    yet to see it, and whether the receiver is gone. *)
Record DatagramMailbox := mkMailbox {
  mb_value : option DatagramDelivery;
  mb_changed : bool;
  mb_closed : bool;
  mb_epoch : bytes;
  mb_generation : N
}.
Abbreviation Routes := (gmap DatagramRoute DatagramMailbox).

(** [watch::Sender::send_replace] *)
Definition send_replace (value : option DatagramDelivery) (m : DatagramMailbox) : DatagramMailbox :=
  mkMailbox value true (mb_closed m) (mb_epoch m) (mb_generation m).

Definition deliver (m : DatagramMailbox) (datagram : TerminalViewportDatagram) : DatagramMailbox :=
  match dg_diff datagram with
  | None => m
  | Some diff =>
      if negb (bool_decide (tsd_epoch diff = mb_epoch m)) || (tsd_target_generation diff <=? mb_generation m) then m
      else send_replace (Some (DDatagram datagram))
             (mkMailbox (mb_value m) (mb_changed m) (mb_closed m) (mb_epoch m) (tsd_target_generation diff))
  end.

Definition register (route : DatagramRoute) (routes : Routes) : result Routes :=
  ensure! match routes !! route with Some m => mb_closed m | None => true end,
    "terminal attachment already has a datagram consumer";
  Ok (<[route := mkMailbox None false false [] 0]> routes).

Definition commit_keyframe (route : DatagramRoute) (state : State) (routes : Routes) : Routes :=
  match routes !! route with
  | None => routes
  | Some m =>
      <[route := if negb (bool_decide (mb_epoch m = st_epoch state))
                 then mkMailbox None true (mb_closed m) (st_epoch state) (st_generation state)
                 else mkMailbox (mb_value m) (mb_changed m) (mb_closed m) (mb_epoch m)
                        (N.max (mb_generation m) (st_generation state))]> routes
  end.

Definition unregister (route : DatagramRoute) (routes : Routes) : Routes := delete route routes.

(** [next_datagram], once it is ready: the value that changed; [None] as well when the
    sender is gone. *)
Definition next_datagram (route : DatagramRoute) (routes : Routes) : Routes * option DatagramDelivery :=
  match routes !! route with
  | None => (routes, None)
  | Some m => (<[route := mkMailbox (mb_value m) false (mb_closed m) (mb_epoch m) (mb_generation m)]> routes, mb_value m)
  end.
Definition datagram_ready (route : DatagramRoute) (routes : Routes) : bool :=
  match routes !! route with Some m => mb_changed m | None => true end.

(** ** The attachment *)

Inductive TerminalStateDelivery := ReliableKeyframeDelivery | DatagramDelivered.

Inductive AttachmentEvent :=
| AState (state : State) (delivery : TerminalStateDelivery)
| AExited (code : Z)
| AError (message : string)
| AInteractive (interactive : bool)
| ALeaseChanged (change : LeaseChanged)
| AClipboardWrite (write : ClipboardWrite)
| AHistoryPage (page : HistoryPage).

(** A decoding job of the background with what it was given. *)
Inductive PendingDecode :=
| DecodeState (assembler : TransferAssembler) (chunk : TransferChunk)
| DecodeHistory (assembler : TransferAssembler) (chunk : TransferChunk).

Record StreamingAttachment := mkAttachment' {
  sa_out : list TerminalCommand;
  sa_writes : option nat;
  sa_terminal_id : string;
  sa_attachment_id : string;
  sa_lease_id : string;
  sa_lease_ttl : option N;
  sa_next_lease_renewal : option N;
  sa_next_sequence : N;
  sa_state_assembler : TransferAssembler;
  sa_history_assembler : TransferAssembler;
  sa_pending_decode : option PendingDecode;
  sa_replica : StreamingReplica
}.
Definition sa_route (a : StreamingAttachment) : DatagramRoute := (sa_terminal_id a, sa_attachment_id a).

Definition with_out (out : list TerminalCommand) (writes : option nat) (a : StreamingAttachment) : StreamingAttachment :=
  mkAttachment' out writes (sa_terminal_id a) (sa_attachment_id a) (sa_lease_id a) (sa_lease_ttl a)
    (sa_next_lease_renewal a) (sa_next_sequence a) (sa_state_assembler a) (sa_history_assembler a)
    (sa_pending_decode a) (sa_replica a).
Definition with_lease (id : string) (ttl renewal : option N) (a : StreamingAttachment) : StreamingAttachment :=
  mkAttachment' (sa_out a) (sa_writes a) (sa_terminal_id a) (sa_attachment_id a) id ttl
    renewal (sa_next_sequence a) (sa_state_assembler a) (sa_history_assembler a)
    (sa_pending_decode a) (sa_replica a).
Definition with_next_sequence (n : N) (a : StreamingAttachment) : StreamingAttachment :=
  mkAttachment' (sa_out a) (sa_writes a) (sa_terminal_id a) (sa_attachment_id a) (sa_lease_id a) (sa_lease_ttl a)
    (sa_next_lease_renewal a) n (sa_state_assembler a) (sa_history_assembler a)
    (sa_pending_decode a) (sa_replica a).
Definition with_decode (state history : TransferAssembler) (pending : option PendingDecode) (a : StreamingAttachment)
    : StreamingAttachment :=
  mkAttachment' (sa_out a) (sa_writes a) (sa_terminal_id a) (sa_attachment_id a) (sa_lease_id a) (sa_lease_ttl a)
    (sa_next_lease_renewal a) (sa_next_sequence a) state history pending (sa_replica a).
Definition with_replica (r : StreamingReplica) (a : StreamingAttachment) : StreamingAttachment :=
  mkAttachment' (sa_out a) (sa_writes a) (sa_terminal_id a) (sa_attachment_id a) (sa_lease_id a) (sa_lease_ttl a)
    (sa_next_lease_renewal a) (sa_next_sequence a) (sa_state_assembler a) (sa_history_assembler a)
    (sa_pending_decode a) r.

(** What the [select!] of [next_event] picked. *)
Inductive Incoming :=
| IWriter (r : result unit)
| IReliable (r : result (option (option TerminalEvent)))
| IDatagram
| IRenewal.

(** The errors of a writer whose stream the peer has closed. *)
Definition BROKEN_PIPE : string := "broken pipe".

Section client.
Context `{AttachLib}.

(** The task of the router: one datagram, or the end of the connection; the flag says
    whether the loop goes on. *)
Definition router_read (read : result bytes) (routes : Routes) : Routes * bool :=
  match read with
  | Err e =>
      (send_replace (Some (DClosed e)) <$> filter (fun p => mb_closed p.2 = false) routes, false)
  | Ok payload =>
      match datagram_decode payload with
      | Err _ => (routes, true)
      | Ok datagram =>
          if negb (negb (bool_decide (dg_terminal_id datagram = "")) && negb (bool_decide (dg_attachment_id datagram = ""))
                   && negb (is_none (dg_diff datagram)))
          then (routes, true)
          else
            let route := (dg_terminal_id datagram, dg_attachment_id datagram) in
            match routes !! route with
            | None => (routes, true)
            | Some m => (if mb_closed m then delete route routes else <[route := deliver m datagram]> routes, true)
            end
      end
  end.

(** *** Commands *)

(** [failure] is the kind of error once the stream does not take more. *)
Definition send_command (failure : string) (sequence : N) (command : CommandKind) (a : StreamingAttachment)
    : StreamingAttachment * result unit :=
  let m := mkCommand (sa_terminal_id a) (sa_lease_id a) sequence (sa_attachment_id a) (Some command) in
  match sa_writes a with
  | Some O => (a, Err failure)
  | Some (S n) => (with_out (sa_out a ++ [m]) (Some n) a, Ok tt)
  | None => (with_out (sa_out a ++ [m]) None a, Ok tt)
  end.
Definition send_state_control (failure : string) (command : CommandKind) (a : StreamingAttachment)
    : StreamingAttachment * result unit := send_command failure 0 command a.

Definition take_sequence (a : StreamingAttachment) : StreamingAttachment * result N :=
  match checked_add U64_MAX (sa_next_sequence a) 1 with
  | None => (a, Err "terminal command sequence overflowed")
  | Some next => (with_next_sequence next a, Ok (sa_next_sequence a))
  end.

(** Half of the lease's life as [Duration::div_f32] rounds it. *)
Context (half : N -> N).
Definition next_lease_renewal (now ttl : N) : N := now + N.max (half ttl) (1000 * 1000000).

(** A command with a fresh sequence. *)
Definition numbered (failure : string) (command : CommandKind) (a : StreamingAttachment)
    : StreamingAttachment * result unit :=
  match take_sequence a with
  | (a, Err e) => (a, Err e)
  | (a, Ok sequence) => send_command failure sequence command a
  end.

Definition renew_lease (failure : string) (now : N) (a : StreamingAttachment) : StreamingAttachment * result unit :=
  match sa_lease_ttl a with
  | None => (with_lease (sa_lease_id a) None None a, Ok tt)
  | Some ttl =>
      if bool_decide (sa_lease_id a = "") then (with_lease (sa_lease_id a) None None a, Ok tt)
      else
        match numbered failure (CLeaseControl (action_i32 LcRenew)) a with
        | (a, Err e) => (a, Err e)
        | (a, Ok _) => (with_lease (sa_lease_id a) (sa_lease_ttl a) (Some (next_lease_renewal now ttl)) a, Ok tt)
        end
  end.
Definition renew_lease_if_due (failure : string) (now : N) (a : StreamingAttachment) : StreamingAttachment * result unit :=
  if match sa_next_lease_renewal a with Some deadline => deadline <=? now | None => false end
  then renew_lease failure now a else (a, Ok tt).

Definition after_renewal (failure : string) (now : N) (command : CommandKind) (a : StreamingAttachment)
    : StreamingAttachment * result unit :=
  match renew_lease_if_due failure now a with
  | (a, Err e) => (a, Err e)
  | (a, Ok _) => numbered failure command a
  end.
Definition send_input (failure : string) (now : N) (data : bytes) (a : StreamingAttachment) :=
  after_renewal failure now (CInput data) a.
Definition sa_resize (failure : string) (now : N) (size : Size) (a : StreamingAttachment) :=
  after_renewal failure now (CResize size) a.
Definition request_history (failure : string) (request : HistoryPageRequest) (a : StreamingAttachment) :=
  numbered failure (CHistoryPage request) a.
(** [drained] is how the shutdown and the wait for the writer end. *)
Definition detach (failure : string) (drained : result unit) (a : StreamingAttachment) : StreamingAttachment * result unit :=
  match send_command failure 0 (CDetach true) a with
  | (a, Ok _) => (a, drained)
  | (a, Err e) => (a, Err e)
  end.

(** An acknowledgement that the closing peer does not take is not an error. *)
Definition send_state_ack (failure : string) (a : StreamingAttachment) : StreamingAttachment * result unit :=
  match state_ack (sa_replica a) with
  | None => (a, Err "terminal replica has no state to acknowledge")
  | Some ack =>
      match send_state_control failure (CStateAck ack) a with
      | (a, Ok _) => (a, Ok tt)
      | (a, Err e) => (a, if bool_decide (e = BROKEN_PIPE) then Ok tt else Err e)
      end
  end.

(** *** Events *)

Definition validate_event_target (event : TerminalEvent) (a : StreamingAttachment) : result unit :=
  ensure! bool_decide (te_terminal_id event = sa_terminal_id a)
          && bool_decide (te_attachment_id event = sa_attachment_id a),
    "server sent a terminal event for the wrong attachment";
  Ok tt.

(** The acknowledgement of what the replica shows, and the event for it. *)
Definition publish_state (failure : string) (delivery : TerminalStateDelivery) (a : StreamingAttachment)
    : StreamingAttachment * result (option AttachmentEvent) :=
  match send_state_ack failure a with
  | (a, Err e) => (a, Err e)
  | (a, Ok _) =>
      (a, match rep_current (sa_replica a) with
          | None => Err "applied terminal state disappeared"
          | Some state => Ok (Some (AState state delivery))
          end)
  end.

(** A decoded keyframe. *)
Definition apply_decoded (failure : string) (state : State) (a : StreamingAttachment) (routes : Routes)
    : StreamingAttachment * Routes * result (option AttachmentEvent) :=
  match apply_keyframe (sa_replica a) state with
  | (r, Err e) => (with_replica r a, routes, Err e)
  | (r, Ok Applied) =>
      let a := with_replica r a in
      match rep_current r with
      | None => (a, routes, Err "missing committed keyframe")
      | Some current =>
          let routes := commit_keyframe (sa_route a) current routes in
          let '(a, r) := publish_state failure ReliableKeyframeDelivery a in (a, routes, r)
      end
  | (r, Ok Stale) =>
      match send_state_ack failure (with_replica r a) with
      | (a, Err e) => (a, routes, Err e)
      | (a, Ok _) => (a, routes, Ok None)
      end
  | (r, Ok MissingBase) => (with_replica r a, routes, panic)
  end.

(** The start of a turn of [next_event]: the job of the background is finished. *)
Definition finish_decode (failure : string) (a : StreamingAttachment) (routes : Routes)
    : StreamingAttachment * Routes * result (option AttachmentEvent) :=
  match sa_pending_decode a with
  | None => (a, routes, Ok None)
  | Some (DecodeState assembler chunk) =>
      let a := with_decode (sa_state_assembler a) (sa_history_assembler a) None a in
      match state_push assembler chunk with
      | (_, Err e) => (a, routes, Err e)
      | (assembler, Ok state) =>
          let a := with_decode assembler (sa_history_assembler a) None a in
          match state with
          | None => (a, routes, Ok None)
          | Some state => apply_decoded failure state a routes
          end
      end
  | Some (DecodeHistory assembler chunk) =>
      let a := with_decode (sa_state_assembler a) (sa_history_assembler a) None a in
      match page_push assembler chunk with
      | (_, Err e) => (a, routes, Err e)
      | (assembler, Ok page) =>
          let a := with_decode (sa_state_assembler a) assembler None a in
          (a, routes, Ok (AHistoryPage <$> page))
      end
  end.

(** [std::mem::take] leaves the default assembler. *)
Definition handle_event (now : N) (event : TerminalEvent) (a : StreamingAttachment)
    : StreamingAttachment * result (option AttachmentEvent) :=
  match validate_event_target event a with
  | Err e => (a, Err e)
  | Ok _ =>
      match te_event event with
      | Some (ESemanticStateChunk chunk) =>
          (with_decode (with_zstd false) (sa_history_assembler a) (Some (DecodeState (sa_state_assembler a) chunk)) a,
           Ok None)
      | Some (EExited code) => (a, Ok (Some (AExited code)))
      | Some (EError message) => (a, Ok (Some (AError message)))
      | Some (EInteractive interactive) => (a, Ok (Some (AInteractive interactive)))
      | Some (ELeaseChanged change) =>
          let ends := lc_read_only change || bool_decide (lc_lease_id change = "") || (lc_lease_ttl_ms change =? 0) in
          let ttl := lc_lease_ttl_ms change * 1000000 in
          (if ends then with_lease (lc_lease_id change) None None a
           else with_lease (lc_lease_id change) (Some ttl) (Some (next_lease_renewal now ttl)) a,
           Ok (Some (ALeaseChanged change)))
      | Some (EClipboardWrite write) => (a, Ok (Some (AClipboardWrite write)))
      | Some (EHistoryPageChunk chunk) =>
          (with_decode (sa_state_assembler a) (with_zstd false) (Some (DecodeHistory (sa_history_assembler a) chunk)) a,
           Ok None)
      | Some (ESemanticStateDiffChunk _) => (a, Err "server mixed reliable semantic diffs with datagram state")
      | Some (EViewportDatagram _) => (a, Err "server forwarded an internal datagram bridge frame")
      | Some (EOutput _) | Some (ESnapshot _) =>
          (a, Err "server sent legacy terminal output to a streaming attachment")
      | None => (a, Ok None)
      end
  end.

Definition handle_datagram (failure : string) (datagram : TerminalViewportDatagram) (a : StreamingAttachment)
    : StreamingAttachment * result (option AttachmentEvent) :=
  match apply_datagram (sa_replica a) datagram with
  | (r, Err e) => (with_replica r a, Err e)
  | (r, Ok Applied) => publish_state failure DatagramDelivered (with_replica r a)
  | (r, Ok Stale) => (with_replica r a, Ok None)
  | (r, Ok MissingBase) =>
      let a := with_replica r a in
      match repair_request r datagram with
      | Err e => (a, Err e)
      | Ok repair =>
          match send_state_control failure (CStateRepair repair) a with
          | (a, Err e) => (a, Err e)
          | (a, Ok _) => (a, Ok None)
          end
      end
  end.

(** The [select!] of [next_event] and the arm it took. *)
Definition select_turn (failure : string) (now : N) (incoming : Incoming) (a : StreamingAttachment) (routes : Routes)
    : StreamingAttachment * Routes * result (option AttachmentEvent) :=
  match incoming with
  | IWriter r => (a, routes, _ ← r; Err "terminal command stream ended")
  | IRenewal => match renew_lease failure now a with
                | (a, Err e) => (a, routes, Err e)
                | (a, Ok _) => (a, routes, Ok None)
                end
  | IDatagram =>
      match next_datagram (sa_route a) routes with
      | (routes, Some (DDatagram datagram)) =>
          let '(a, r) := handle_datagram failure datagram a in (a, routes, r)
      | (routes, Some (DClosed message)) => (a, routes, Err message)
      | (routes, None) => (a, routes, Ok None)
      end
  | IReliable (Err e) => (a, routes, Err e)
  | IReliable (Ok None) => (a, routes, Err "attachment stream ended")
  | IReliable (Ok (Some None)) => (a, routes, Err "unexpected message on streaming attachment")
  | IReliable (Ok (Some (Some event))) => let '(a, r) := handle_event now event a in (a, routes, r)
  end.

(** [next_event] over what the [select!] picks turn after turn; [None] while it waits. *)
Fixpoint next_event (failure : string) (script : list (N * Incoming)) (a : StreamingAttachment) (routes : Routes)
    : StreamingAttachment * Routes * option (result AttachmentEvent) :=
  match finish_decode failure a routes with
  | (a, routes, Err e) => (a, routes, Some (Err e))
  | (a, routes, Ok (Some event)) => (a, routes, Some (Ok event))
  | (a, routes, Ok None) =>
      match script with
      | [] => (a, routes, None)
      | (now, incoming) :: script =>
          match select_turn failure now incoming a routes with
          | (a, routes, Err e) => (a, routes, Some (Err e))
          | (a, routes, Ok (Some event)) => (a, routes, Some (Ok event))
          | (a, routes, Ok None) => next_event failure script a routes
          end
      end
  end.

(** *** Attaching *)

(** [attach_streaming], of the response of the server; a failure of [for_route] leaves
    the mailbox with a dropped receiver. *)
Definition attach_streaming (np : NegotiatedProtocol) (request : AttachRequest) (attached : AttachResponse) (now : N)
    (writes : option nat) (routes : Routes) : Routes * result StreamingAttachment :=
  match (ensure! negotiated_has np CAPABILITY_DATAGRAM_STATE 2, "terminal datagram state was not negotiated";
         ensure! negb (bool_decide (at_workspace_id request = "")), "streaming attachment requires a workspace ID";
         terminal ← ok_or (ar_terminal attached) "server returned an attach response without terminal identity";
         attachment ← ok_or (ar_attachment attached) "server returned an attach response without attachment identity";
         let route := (ti_id terminal, ai_id attachment) in
         routes ← register route routes;
         Ok (route, routes)) with
  | Err e => (routes, Err e)
  | Ok (route, routes) =>
      let ttl := if negb (bool_decide (ar_lease_id attached = "")) && (0 <? ar_lease_ttl_ms attached)
                 then Some (ar_lease_ttl_ms attached * 1000000) else None in
      let zstd := negotiated_has np CAPABILITY_PAYLOAD_ZSTD 1 in
      match for_route route.1 route.2 with
      | Err e => (<[route := mkMailbox None false true [] 0]> routes, Err e)
      | Ok replica =>
          (routes, Ok (mkAttachment' [] writes route.1 route.2 (ar_lease_id attached) ttl
             (next_lease_renewal now <$> ttl) 1 (with_zstd zstd) (with_zstd zstd) None replica))
      end
  end.

(** [StreamingAttachment::drop] *)
Definition drop_streaming (a : StreamingAttachment) (routes : Routes) : Routes := unregister (sa_route a) routes.
End client.
