(* ===== verification/AttachSpec.v ===== *)
(** * What the attachment handler puts on the wire

    A discipline of the handler's output: transfers are complete and in order, so that
    the assemblers of a client that reads them never fail, and every state or delta in
    it was issued by the window.  [emits] is for computations that leave the window
    alone, [steps] for those that move it by a step of the sender of [StreamingNet];
    both are compositional over the binds of the handler. *)
From S2P Require Import Prelude Text Resources Negotiation TerminalState TerminalStateSpec TerminalSync TerminalSyncSpec Payload.
From S2P Require Import ViewportDelta ViewportDeltaSpec Transfer TransferSpec DatagramV3 DatagramV3Spec.
From S2P Require Import Streaming StreamingSpec StreamingNet Lease Messages Sessions AttachServer.
Open Scope N_scope.

Class AttachLaws `{AttachLib} := {
  attach_datagram_laws :: @DatagramLaws stream_datagram_lib;
  attach_wire_laws :: WireLaws
}.

(** ** Chunks in order *)

Section order.
Context `{WireLaws}.

Lemma pieces_NoDup tid digest ds encoding size : NoDup (pieces tid digest ds encoding size).
Proof.
  unfold pieces. apply NoDup_alt. intros i j x Hi Hj. rewrite list_lookup_imap in Hi, Hj.
  destruct (ds !! i) as [d|]; [|done]. destruct (ds !! j) as [d'|]; [|done]. cbn in Hi, Hj.
  apply (inj Some) in Hi, Hj. rewrite <- Hi in Hj. apply (f_equal index_of) in Hj. by rewrite !index_of_piece in Hj.
Qed.
Lemma in_order tid digest p chunks :
  llen (ep_data p) <= MAX_ENCODED_STATE_BYTES ->
  split_payload tid digest p = Ok chunks -> exists l c, chunks = l ++ [c] /\ delivery chunks l c.
Proof.
  intros Hmax Hs. apply split_payload_pieces in Hs as (ds & -> & Hds & Hcount).
  pose proof (chunk_count_bounds (ep_data p) Hmax) as Hb.
  set (ps := pieces _ _ _ _ _). pose proof (pieces_NoDup tid digest ds (ep_encoding p) (ep_uncompressed_size p)) as Hnd.
  fold ps in Hnd. destruct (exists_last (l := ps)) as (l & c & Hl).
  { intros Hnil. apply (f_equal length) in Hnil. unfold ps, pieces in Hnil. rewrite length_imap in Hnil. cbn in Hnil.
    unfold llen in Hcount. lia. }
  exists l, c. split; [done|]. rewrite Hl in *. apply NoDup_app in Hnd as (_ & Hd & _).
  split_and!; [set_solver|apply Forall_forall; set_solver| |done|done].
  intros Hc. apply (Hd _ Hc). set_solver.
Qed.

Lemma state_in_order tid s zstd chunks :
  llen tid = 16 -> validate s = Ok tt -> terminal_state_chunks tid s zstd = Ok chunks ->
  exists l c, chunks = l ++ [c] /\
    state_push_all (with_zstd zstd) chunks = (with_zstd zstd, replicate (length l) (Ok None) ++ [Ok (Some s)]).
Proof.
  intros Htid Hv Hc. unfold terminal_state_chunks in Hc. do 2 ok_step Hc.
  pose proof (encode_header _ _ _ _ Hr) as (Hraw & Hwire & _).
  assert (Hle : llen (ep_data a) <= MAX_ENCODED_STATE_BYTES) by (clear - Hraw Hwire; lia).
  destruct (in_order _ _ _ _ Hle Hc) as (l & c & -> & Hd). exists l, c. split; [done|].
  rewrite state_push_all_eq, (transfer_delivers tid (state_to_vec s) zstd MAX_ENCODED_STATE_BYTES a _ l c) by done.
  rewrite fmap_app, fmap_replicate. cbn. rewrite state_roundtrip. cbn. by rewrite Hv.
Qed.
Lemma page_in_order tid page zstd chunks :
  llen tid = 16 -> validate_history_page page = Ok tt -> history_page_chunks tid page zstd = Ok chunks ->
  exists l c, chunks = l ++ [c] /\
    page_push_all (with_zstd zstd) chunks = (with_zstd zstd, replicate (length l) (Ok None) ++ [Ok (Some page)]).
Proof.
  intros Htid Hv Hc. unfold history_page_chunks in Hc. do 2 ok_step Hc.
  pose proof (encode_header _ _ _ _ Hr) as (Hraw & Hwire & _).
  assert (Hmax : MAX_ENCODED_HISTORY_PAGE_BYTES <= MAX_ENCODED_STATE_BYTES) by done.
  assert (Hle : llen (ep_data a) <= MAX_ENCODED_STATE_BYTES) by (clear - Hraw Hwire Hmax; lia).
  destruct (in_order _ _ _ _ Hle Hc) as (l & c & -> & Hd). exists l, c. split; [done|].
  rewrite page_push_all_eq, (transfer_delivers tid (page_to_vec page) zstd MAX_ENCODED_HISTORY_PAGE_BYTES a _ l c) by done.
  rewrite fmap_app, fmap_replicate. cbn. rewrite page_roundtrip. cbn. by rewrite Hv.
Qed.
End order.

(** ** What is on its way *)

Definition Assemblers : Type := TransferAssembler * TransferAssembler.
(** Events that only inform. *)
Definition plain (e : EventKind) : bool :=
  match e with
  | EExited _ | EError _ | EInteractive _ | ELeaseChanged _ | EClipboardWrite _ => true
  | _ => false
  end.

Section pipe.
Context `{AttachLib} (K : StreamingUpdate -> Prop) (tid aid : string).

(** A datagram on its way carries a delta of [K] or a fragment. *)
Definition flies (d : TerminalViewportDatagram) : Prop := dg_diff d = None \/ K (DatagramDelta d).

(** An event leaves the assemblers without an error, and a state it completes is one
    of [K]. *)
Inductive pipe1 : Assemblers -> TerminalEvent -> Assemblers -> Prop :=
| pipe_state sa ha c sa' o :
    state_push sa c = (sa', Ok o) -> (forall s, o = Some s -> K (ReliableKeyframe s)) ->
    pipe1 (sa, ha) (mkEvent tid aid (Some (ESemanticStateChunk c))) (sa', ha)
| pipe_page sa ha c ha' o :
    page_push ha c = (ha', Ok o) -> pipe1 (sa, ha) (mkEvent tid aid (Some (EHistoryPageChunk c))) (sa, ha')
| pipe_datagram x d : flies d -> pipe1 x (mkEvent tid aid (Some (EViewportDatagram d))) x
| pipe_plain x e : plain e = true -> pipe1 x (mkEvent tid aid (Some e)) x.
Inductive pipe : Assemblers -> list TerminalEvent -> Assemblers -> Prop :=
| pipe_nil x : pipe x [] x
| pipe_cons x e y es z : pipe1 x e y -> pipe y es z -> pipe x (e :: es) z.

Lemma pipe_app x es y fs z : pipe x es y -> pipe y fs z -> pipe x (es ++ fs) z.
Proof. induction 1; cbn; eauto using pipe. Qed.
Lemma pipe_app_inv x es fs z : pipe x (es ++ fs) z -> exists y, pipe x es y /\ pipe y fs z.
Proof.
  revert x. induction es as [|e es IH]; intros x; cbn; [eauto using pipe|].
  inversion_clear 1 as [|? ? y ? ? H1 H2]. destruct (IH _ H2) as (w & ? & ?). eauto using pipe.
Qed.
Lemma pipe_inv x e es z : pipe x (e :: es) z -> exists y, pipe1 x e y /\ pipe y es z.
Proof. inversion 1; subst. eauto. Qed.
Lemma pipe_take x es z n : pipe x es z -> exists y, pipe x (take n es) y.
Proof. rewrite <- (take_drop n es) at 1. intros (y & ? & _)%pipe_app_inv. eauto. Qed.

Lemma pipe_states sa ha chunks sa' rs :
  state_push_all sa chunks = (sa', rs) -> Forall (fun r => r = Ok None \/ exists s, r = Ok (Some s) /\ K (ReliableKeyframe s)) rs ->
  pipe (sa, ha) ((fun c => mkEvent tid aid (Some (ESemanticStateChunk c))) <$> chunks) (sa', ha).
Proof.
  revert sa rs. induction chunks as [|c chunks IH]; intros sa rs; cbn [state_push_all fmap list_fmap].
  { intros [= <- <-]. constructor. }
  destruct (state_push sa c) as [a r] eqn:E. destruct (state_push_all a chunks) as [a' rs'] eqn:E'.
  intros [= <- <-] [Hr Hrs]%Forall_cons. econstructor; [|by eapply IH].
  destruct Hr as [->|(s & -> & Hs)]; econstructor; try done. by intros ? [= <-].
Qed.
Lemma pipe_pages sa ha chunks ha' rs :
  page_push_all ha chunks = (ha', rs) -> Forall (fun r => is_ok r = true) rs ->
  pipe (sa, ha) ((fun c => mkEvent tid aid (Some (EHistoryPageChunk c))) <$> chunks) (sa, ha').
Proof.
  revert ha rs. induction chunks as [|c chunks IH]; intros ha rs; cbn [page_push_all fmap list_fmap].
  { intros [= <- <-]. constructor. }
  destruct (page_push ha c) as [a r] eqn:E. destruct (page_push_all a chunks) as [a' rs'] eqn:E'.
  intros [= <- <-] [Hr Hrs]%Forall_cons. destruct r; [|done]. econstructor; [by econstructor|by eapply IH].
Qed.
End pipe.

Lemma pipe_mono `{AttachLib} (K K' : StreamingUpdate -> Prop) tid aid x es z :
  (forall u, K u -> K' u) -> pipe K tid aid x es z -> pipe K' tid aid x es z.
Proof.
  intros HK. induction 1 as [|x e y es z H1 _ IH]; [constructor|]. econstructor; [|done].
  destruct H1; econstructor; eauto. match goal with H : flies _ _ |- _ => destruct H end; [by left|right; auto].
Qed.

(** ** What a turn of the handler emits *)

Definition idle (c : AttachConfig) : Assemblers := (with_zstd (ac_zstd c), with_zstd (ac_zstd c)).

(** A computation of the handler that leaves the window alone: what it writes is a
    piece of pipeline, complete transfers only if it does not fail. *)
Definition emits `{AttachLib} (c : AttachConfig) (K : StreamingUpdate -> Prop) {A} (m : M A) : Prop := forall s,
  let '(s', r) := m s in
  sv_streaming_sync s' = sv_streaming_sync s /\
  exists out air fin, sv_out s' = sv_out s ++ out /\ sv_air s' = sv_air s ++ air /\ Forall (flies K) air /\
    pipe K (ac_terminal_id c) (ac_attachment_id c) (idle c) out fin /\ (is_ok r = true -> fin = idle c).

Create HintDb emits.
Section emits.
Context `{AttachLaws} `{SessionLib} (c : AttachConfig) (K : StreamingUpdate -> Prop).
Abbreviation emits := (emits c K).

Lemma emits_still {A} (m : M A) :
  (forall s, sv_streaming_sync (m s).1 = sv_streaming_sync s /\ sv_out (m s).1 = sv_out s /\ sv_air (m s).1 = sv_air s) ->
  emits m.
Proof.
  intros Hm s. specialize (Hm s). destruct (m s) as [s' r]. destruct Hm as (Hw & Ho & Ha).
  split; [done|]. exists [], [], (idle c). rewrite !app_nil_r. eauto using pipe.
Qed.
Lemma emits_ret {A} (a : A) : emits (m_ret a).
Proof. by apply emits_still. Qed.
Lemma emits_lift {A} (r : result A) : emits (m_lift r).
Proof. by apply emits_still. Qed.
Lemma emits_fail {A} e : emits (@m_fail A e).
Proof. by apply emits_still. Qed.
Lemma emits_get {A} (f : Attached -> A) : emits (m_get f).
Proof. by apply emits_still. Qed.
Lemma emits_on_terminal f : emits (on_terminal f).
Proof. apply emits_still. intros s. unfold on_terminal. by destruct (f (sv_terminal s)). Qed.
Lemma emits_on_manager f : emits (on_manager f).
Proof. apply emits_still. intros s. unfold on_manager. by destruct (f (sv_manager s)). Qed.
Lemma emits_on_sync {A} (f : _ -> _ * result A) : emits (on_sync f).
Proof. apply emits_still. intros s. unfold on_sync. by destruct (f (sv_state_sync s)). Qed.
Lemma emits_set f :
  (forall s, sv_streaming_sync (f s) = sv_streaming_sync s /\ sv_out (f s) = sv_out s /\ sv_air (f s) = sv_air s) ->
  emits (m_set f).
Proof. intros Hf. apply emits_still. intros s. apply Hf. Qed.
Lemma emits_bind {A B} (m : M A) (f : A -> M B) : emits m -> (forall a, emits (f a)) -> emits (m_bind m f).
Proof.
  intros Hm Hf s. specialize (Hm s). unfold m_bind. destruct (m s) as [s1 [a|e]].
  - destruct Hm as (Hw1 & out1 & air1 & fin1 & Ho1 & Ha1 & Hf1 & Hp1 & Hi1). specialize (Hi1 eq_refl). subst fin1.
    specialize (Hf a s1). destruct (f a s1) as [s2 r]. destruct Hf as (Hw2 & out2 & air2 & fin & Ho2 & Ha2 & Hf2 & Hp2 & Hi2).
    split; [congruence|]. exists (out1 ++ out2), (air1 ++ air2), fin. rewrite Ho2, Ho1, Ha2, Ha1, <- !app_assoc.
    split_and!; try done; [by apply Forall_app|by eapply pipe_app].
  - destruct Hm as (Hw & out & air & fin & Hm). split; [done|]. exists out, air, fin. naive_solver.
Qed.
Lemma emits_if {A} (b : bool) (m n : M A) : (b = true -> emits m) -> (b = false -> emits n) -> emits (if b then m else n).
Proof. destruct b; auto. Qed.
Lemma emits_lift_bind {A B} (r : result A) (f : A -> M B) : (forall a, r = Ok a -> emits (f a)) -> emits (m_bind (m_lift r) f).
Proof. intros Hf. destruct r as [a|e]; [apply (Hf a eq_refl)|]. apply (emits_fail e). Qed.

(** The events that were written are a prefix of the list. *)
Lemma write_events_prefix es s :
  let '(s', r) := write_events c es s in
  sv_streaming_sync s' = sv_streaming_sync s /\ sv_air s' = sv_air s /\
  exists n, sv_out s' = sv_out s ++ take n ((fun e => mkEvent (ac_terminal_id c) (ac_attachment_id c) (Some e)) <$> es) /\
    (is_ok r = true -> n = length es).
Proof.
  revert s. induction es as [|e es IH]; intros s; cbn [write_events].
  { cbn. split_and!; [done..|]. exists 0%nat. by rewrite app_nil_r. }
  unfold m_bind at 1. destruct (write_terminal_event c e s) as [s1 r1] eqn:E.
  assert (Hs1 : (r1 = Ok tt /\ sv_streaming_sync s1 = sv_streaming_sync s /\ sv_air s1 = sv_air s /\
     sv_out s1 = sv_out s ++ [mkEvent (ac_terminal_id c) (ac_attachment_id c) (Some e)]) \/ s1 = s /\ is_ok r1 = false).
  { unfold write_terminal_event in E. destruct (sv_writes s) as [[|n]|]; simplify_eq; [by right|left; done..]. }
  destruct Hs1 as [(-> & Hw & Ha & Ho)|[-> Hr]].
  - specialize (IH s1). destruct (write_events c es s1) as [s2 r]. destruct IH as (Hw2 & Ha2 & n & Ho2 & Hn).
    split_and!; [congruence..|]. exists (S n). cbn [fmap list_fmap take]. rewrite Ho2, Ho, <- app_assoc. split; [done|].
    intros Hr. cbn. by rewrite Hn.
  - destruct r1; [done|]. split_and!; [done..|]. exists 0%nat. by rewrite app_nil_r.
Qed.
Lemma emits_write_events es :
  pipe K (ac_terminal_id c) (ac_attachment_id c) (idle c)
    ((fun e => mkEvent (ac_terminal_id c) (ac_attachment_id c) (Some e)) <$> es) (idle c) ->
  emits (write_events c es).
Proof.
  intros Hp s. pose proof (write_events_prefix es s) as Hw. destruct (write_events c es s) as [s' r].
  destruct Hw as (Hw & Ha & n & Ho & Hn). split; [done|]. set (l := _ <$> es) in *.
  assert (Hfin : exists y, pipe K (ac_terminal_id c) (ac_attachment_id c) (idle c) (take n l) y /\ (is_ok r = true -> y = idle c)).
  { destruct (is_ok r) eqn:Hr; [|destruct (pipe_take _ _ _ _ _ _ n Hp) as [y Hy]; by exists y].
    exists (idle c). rewrite take_ge; [done|]. unfold l. rewrite length_fmap, (Hn eq_refl). done. }
  destruct Hfin as (y & Hy & Hi). exists (take n l), [], y. rewrite app_nil_r. split_and!; eauto.
Qed.
Lemma emits_event e : plain e = true -> emits (write_terminal_event c e).
Proof.
  intros He s. pose proof (emits_write_events [e]) as Hw. cbn [write_events fmap list_fmap] in Hw.
  assert (Hp : emits (m_bind (write_terminal_event c e) (fun _ => m_ret tt))).
  { apply Hw. econstructor; [by apply pipe_plain|constructor]. }
  specialize (Hp s). unfold m_bind, m_ret in Hp. destruct (write_terminal_event c e s) as [s' [[]|]]; exact Hp.
Qed.
Lemma emits_state tid s :
  llen tid = 16 -> @validate (@sync_state_lib stream_sync_lib) s = Ok tt -> K (ReliableKeyframe s) -> emits (write_terminal_state c tid s).
Proof.
  intros Htid Hv HK. apply emits_lift_bind. intros chunks Hc. apply emits_write_events.
  destruct (@state_in_order attach_wire_lib attach_wire_laws tid s (ac_zstd c) chunks Htid Hv Hc) as (l & x & _ & Hp). rewrite <- list_fmap_compose.
  eapply pipe_states; [exact Hp|]. apply Forall_app. split; [apply Forall_replicate; by left|].
  constructor; [|constructor]. right. eauto.
Qed.
Lemma emits_page tid page : llen tid = 16 -> validate_history_page page = Ok tt -> emits (write_history_page c tid page).
Proof.
  intros Htid Hv. apply emits_lift_bind. intros chunks Hc. apply emits_write_events.
  destruct (@page_in_order attach_wire_lib attach_wire_laws tid page (ac_zstd c) chunks Htid Hv Hc) as (l & x & _ & Hp). rewrite <- list_fmap_compose.
  eapply pipe_pages; [exact Hp|]. apply Forall_app. split; [by apply Forall_replicate|by constructor].
Qed.
Lemma emits_air d : flies K d -> emits (send_datagram d).
Proof.
  intros Hd s. cbn. split; [done|]. exists [], [d], (idle c). rewrite app_nil_r. split_and!; eauto using pipe.
Qed.
Lemma emits_bridge d : flies K d -> emits (write_terminal_event c (EViewportDatagram d)).
Proof.
  intros He s. pose proof (emits_write_events [EViewportDatagram d]) as Hw. cbn [write_events fmap list_fmap] in Hw.
  assert (Hp : emits (m_bind (write_terminal_event c (EViewportDatagram d)) (fun _ => m_ret tt))).
  { apply Hw. econstructor; [by apply pipe_datagram|constructor]. }
  specialize (Hp s). unfold m_bind, m_ret in Hp. destruct (write_terminal_event c _ s) as [s' [[]|]]; exact Hp.
Qed.
End emits.

#[export] Hint Resolve emits_ret emits_lift emits_fail emits_get emits_on_terminal emits_on_manager emits_on_sync : emits.
(** Goes through the binds of a computation. *)
Ltac emits :=
  repeat first
    [ apply emits_bind; [|intros ?] | apply emits_lift_bind; intros ? ?
    | apply emits_if; intros ? | apply emits_set; by intros ?
    | by eauto with emits
    | match goal with |- emits _ _ (match ?x with _ => _ end) => destruct x end ].

Section window.
Context `{AttachLaws} `{SessionLib}.
Context (truth : State -> Prop) (c : AttachConfig).
Hypothesis truth_valid : forall s, truth s -> validate_viewport_state s = Ok tt.
Hypothesis truth_unique : forall s s', truth s -> truth s' ->
  st_epoch s = st_epoch s' -> st_generation s = st_generation s' -> s = s'.
Abbreviation tid := (ac_terminal_id c).
Abbreviation aid := (ac_attachment_id c).

Lemma truth_validate s : truth s -> @validate (@sync_state_lib stream_sync_lib) s = Ok tt.
Proof.
  intros Hs. apply validate_viewport_state_valid, truth_valid, Hs.
Qed.

(** What an exported state, a page and fresh identifiers are like. *)
Record moment_ok (mo : Moment) : Prop := {
  mok_state : forall s, mo_state mo = Ok s -> truth s;
  mok_page : forall p, mo_page mo = Ok p -> validate_history_page p = Ok tt;
  mok_transfer : llen (mo_transfer_id mo) = 16
}.

Lemma emits_fragments K transport t path indices :
  emits c K (send_fragments c transport t path indices).
Proof.
  induction indices as [|i indices IH]; cbn [send_fragments]; [apply emits_ret|].
  apply emits_lift_bind. intros d Hd.
  assert (Hfly : flies K d).
  { left. unfold packet in Hd. destruct (negb _); [done|]. by injection Hd as <-. }
  destruct transport as [|maximum].
  - destruct (pi_max (path i)); [|apply emits_ret]. apply emits_if; intros _; [apply emits_ret|].
    apply emits_lift_bind. intros sent _. apply emits_if; intros _; [|apply emits_ret].
    apply emits_bind; [by apply emits_air|done].
  - apply emits_if; intros _; [apply emits_ret|]. apply emits_bind; [by apply emits_bridge|done].
Qed.
Lemma emits_update (K : StreamingUpdate -> Prop) mo transport u :
  moment_ok mo -> K u -> update_ok truth tid aid u -> emits c K (write_streaming_update c transport mo u).
Proof.
  intros Hm HK Hu. destruct u as [s|d|t]; cbn [write_streaming_update].
  - apply emits_state; [apply Hm|by apply truth_validate|done].
  - assert (flies K d) by by right. apply emits_if; intros _; [apply emits_fail|]. destruct transport; [|by apply emits_bridge].
    destruct (pi_max _); [|apply emits_ret]. apply emits_if; intros _; [apply emits_ret|].
    apply emits_lift_bind. intros sent _. apply emits_if; intros _; [by apply emits_air|apply emits_ret].
  - apply emits_if; intros _; [apply emits_fail|apply emits_fragments].
Qed.
Lemma emits_deliver (K : StreamingUpdate -> Prop) mo rekeys o :
  moment_ok mo -> (forall u, o = Some u -> K u /\ update_ok truth tid aid u) -> emits c K (deliver_update c mo rekeys o).
Proof.
  intros Hm Ho. destruct o as [u|]; [|apply emits_ret]. destruct (Ho u eq_refl) as [HK Hu]. cbn [deliver_update]. unfold the_transport.
  apply emits_lift_bind. intros transport _. apply emits_bind; [by apply emits_update|intros _]. emits.
Qed.

(** A computation that may also move the window by a step of the sender. *)
Definition steps (acks : list TerminalStateAck) (repairs : list TerminalStateRepairRequest) {A} (m : M A) : Prop :=
  forall s w, sv_streaming_sync s = Some w -> window_ok truth tid aid w ->
  let '(s', r) := m s in
  exists w' us, sv_streaming_sync s' = Some w' /\ (w' = w /\ us = [] \/ sender_step truth w acks repairs w' us) /\
    forall K : StreamingUpdate -> Prop, Forall K us ->
    exists out air fin, sv_out s' = sv_out s ++ out /\ sv_air s' = sv_air s ++ air /\ Forall (flies K) air /\
      pipe K tid aid (idle c) out fin /\ (is_ok r = true -> fin = idle c).

Section acks.
Context (acks : list TerminalStateAck) (repairs : list TerminalStateRepairRequest).
Abbreviation steps := (steps acks repairs).
Lemma steps_emits {A} (m : M A) : (forall K, emits c K m) -> steps m.
Proof.
  intros Hm s w Hw _. destruct (m s) as [s' r] eqn:E. exists w, []. split; [|split; [by left|]].
  - pose proof (Hm (fun _ => True) s) as Hs. rewrite E in Hs. by destruct Hs as [-> _].
  - intros K _. specialize (Hm K s). rewrite E in Hm. apply Hm.
Qed.
Lemma steps_after {A B} (m : M A) (f : A -> M B) : (forall K, emits c K m) -> (forall a, steps (f a)) -> steps (m_bind m f).
Proof.
  intros Hm Hf s w Hw Hok. unfold m_bind. destruct (m s) as [s1 [a|e]] eqn:E.
  - assert (Hw1 : sv_streaming_sync s1 = Some w).
    { specialize (Hm (fun _ => True) s). rewrite E in Hm. destruct Hm as [-> _]. done. }
    specialize (Hf a s1 w Hw1 Hok). destruct (f a s1) as [s2 r]. destruct Hf as (w' & us & Hw2 & Hs & Hk).
    exists w', us. split_and!; [done..|]. intros K HK. destruct (Hk K HK) as (out2 & air2 & fin & Ho2 & Ha2 & Hf2 & Hp2 & Hi2).
    specialize (Hm K s). rewrite E in Hm. destruct Hm as (_ & out & air & fin' & Ho & Ha & Hfl & Hp & Hi). rewrite (Hi eq_refl) in Hp.
    exists (out ++ out2), (air ++ air2), fin. rewrite Ho2, Ho, Ha2, Ha, <- !app_assoc.
    split_and!; [done..|by apply Forall_app|by eapply pipe_app|done].
  - pose proof (steps_emits m Hm s w Hw Hok) as Hs. by rewrite E in Hs.
Qed.
Lemma steps_window {A B} (f : StreamingStateWindow -> StreamingStateWindow * result A) (k : A -> M B)
    (us : result A -> list StreamingUpdate) :
  (forall w w' r, f w = (w', r) -> sender_step truth w acks repairs w' (us r)) ->
  (forall a (K : StreamingUpdate -> Prop), Forall (fun u => K u /\ update_ok truth tid aid u) (us (Ok a)) -> emits c K (k a)) ->
  steps (m_bind (on_streaming f) k).
Proof.
  intros Hf Hk s w Hw Hok. unfold m_bind, on_streaming. rewrite Hw. destruct (f w) as [w' r] eqn:E.
  specialize (Hf w w' r E). destruct (sender_step_ok truth tid aid truth_valid truth_unique _ _ _ _ _ Hok Hf) as [_ Hus].
  destruct r as [a|e].
  - destruct (k a (with_streaming (Some w') s)) as [s2 r] eqn:E2. exists w', (us (Ok a)). split; [|split; [by right|]].
    + pose proof (Hk a (fun _ => True)) as Hs. specialize (Hs ltac:(eapply Forall_impl; [exact Hus|done]) (with_streaming (Some w') s)).
      rewrite E2 in Hs. by destruct Hs as [-> _].
    + intros K HK. specialize (Hk a K ltac:(by apply Forall_and) (with_streaming (Some w') s)). rewrite E2 in Hk. apply Hk.
  - exists w', (us (Err e)). split_and!; [done|by right|]. intros K _. exists [], [], (idle c). cbn. rewrite !app_nil_r.
    split_and!; eauto using pipe; done.
Qed.
Lemma steps_then {A B} (m : M A) (f : A -> M B) : steps m -> (forall a K, emits c K (f a)) -> steps (m_bind m f).
Proof.
  intros Hm Hf s w Hw Hok. specialize (Hm s w Hw Hok). unfold m_bind. destruct (m s) as [s1 [a|e]].
  - destruct Hm as (w' & us & Hw1 & Hs & Hk). destruct (f a s1) as [s2 r] eqn:E. exists w', us.
    split; [|split; [done|]].
    + specialize (Hf a (fun _ => True) s1). rewrite E in Hf. destruct Hf as [-> _]. done.
    + intros K HK. destruct (Hk K HK) as (out & air & fin & Ho & Ha & Hfl & Hp & Hi). rewrite (Hi eq_refl) in Hp.
      specialize (Hf a K s1). rewrite E in Hf. destruct Hf as (_ & out2 & air2 & fin2 & Ho2 & Ha2 & Hf2 & Hp2 & Hi2).
      exists (out ++ out2), (air ++ air2), fin2. rewrite Ho2, Ho, Ha2, Ha, <- !app_assoc.
      split_and!; [done..|by apply Forall_app|by eapply pipe_app|done].
  - destruct Hm as (w' & us & Hm). exists w', us. naive_solver.
Qed.

(** The acknowledgements and repair requests of the receiver. *)
Definition command_ok (m : TerminalCommand) : Prop :=
  match cm_command m with
  | Some (CStateAck a) => a ∈ acks
  | Some (CStateRepair q) => q ∈ repairs
  | _ => True
  end.
Definition admissible (t : Turn) : Prop :=
  match t with
  | TIncoming (Ok (Some (Some m))) => command_ok m
  | TPty (PtyExited _) => False
  | _ => True
  end.

Hypothesis streaming : ac_semantic c = true /\ ac_state_ack c = true /\ ac_datagram_state c = true.

Lemma emits_note_output K : emits c K (note_output c).
Proof. unfold note_output. emits. Qed.
Lemma emits_set_bind {B} K f (k : unit -> M B) :
  (forall s, sv_streaming_sync (f s) = sv_streaming_sync s /\ sv_out (f s) = sv_out s /\ sv_air (f s) = sv_air s) ->
  (forall u, emits c K (k u)) -> emits c K (m_bind (m_set f) k).
Proof. intros. apply emits_bind; [by apply emits_set|done]. Qed.

Lemma steps_state_ack mo ack : ack ∈ acks -> steps (handle_state_ack c mo ack).
Proof.
  intros Ha. unfold handle_state_ack. destruct streaming as (_ & -> & ->). cbn [negb].
  apply steps_after; [intros K; apply emits_get|intros was].
  apply (steps_window _ _ (fun _ => [])); [intros w w' r Hf; by eapply NAck|].
  intros disposition K _. emits.
Qed.
Lemma steps_deliver {A} (f : StreamingStateWindow -> StreamingStateWindow * result (option StreamingUpdate)) mo rekeys (k : M A) :
  moment_ok mo -> (forall w w' r, f w = (w', r) -> sender_step truth w acks repairs w' (issued r)) ->
  (forall K, emits c K k) ->
  steps (m_bind (on_streaming f) (fun u => m_bind (deliver_update c mo rekeys u) (fun _ => k))).
Proof.
  intros Hm Hf Hk. apply (steps_window _ _ issued); [done|]. intros u K Hu. apply emits_bind; [|done].
  apply emits_deliver; [done|]. intros v ->. cbn in Hu. by apply Forall_cons in Hu as [? _].
Qed.
Lemma steps_deliver' f mo rekeys :
  moment_ok mo -> (forall w w' r, f w = (w', r) -> sender_step truth w acks repairs w' (issued r)) ->
  steps (m_bind (on_streaming f) (fun u => deliver_update c mo rekeys u)).
Proof.
  intros Hm Hf. apply (steps_window _ _ issued); [done|]. intros u K Hu.
  apply emits_deliver; [done|]. intros v ->. cbn in Hu. by apply Forall_cons in Hu as [? _].
Qed.
Lemma steps_lift_bind {A B} (r : result A) (f : A -> M B) : (forall a, r = Ok a -> steps (f a)) -> steps (m_bind (m_lift r) f).
Proof. intros Hf. destruct r as [a|e]; [apply (Hf a eq_refl)|]. apply steps_emits. intros K. apply (emits_fail c K e). Qed.
Lemma steps_state_update mo : moment_ok mo -> steps (handle_state_update c mo).
Proof.
  intros Hm. unfold handle_state_update. destruct streaming as (_ & _ & ->).
  apply steps_after; [intros K; apply emits_get|intros pending].
  apply steps_after; [intros K; by apply emits_set|intros _].
  apply steps_after; [intros K; by apply emits_set|intros _].
  apply steps_lift_bind. intros latest Hl.
  apply steps_after; [intros K; emits|intros _].
  apply steps_deliver'; [done|]. intros w w' r Hf. eapply NPrepare; [by apply Hm|done].
Qed.
Lemma turn_steps mo t : moment_ok mo -> admissible t -> steps (turn c mo t).
Proof.
  intros Hm Ht. pose proof streaming as (Hsem & Hack & Hdg). destruct t as [[[[m|]|]|e]|e| | | | |e]; cbn [turn].
  - apply steps_after; [intros K; apply emits_lift|intros _]. cbn in Ht. unfold command_ok in Ht.
    destruct (cm_command m) as [[data|size|v|request|action|ack|q]|].
    + apply steps_emits. intros K. emits.
    + apply steps_emits. intros K. apply emits_bind; [apply emits_on_terminal|intros _].
      apply emits_bind; [apply emits_note_output|intros _; apply emits_ret].
    + apply steps_emits. intros K. emits.
    + apply steps_emits. intros K. apply emits_if; intros _; [apply emits_fail|]. apply emits_lift_bind. intros page Hp.
      apply emits_bind; [apply emits_page; [apply Hm|by apply (mok_page _ Hm)]|intros _; apply emits_ret].
    + apply steps_emits. intros K. emits.
    + apply steps_then; [by apply steps_state_ack|intros; apply emits_ret].
    + rewrite Hdg. cbn [negb]. apply steps_deliver; [done| |intros; apply emits_ret]. intros w w' r Hf. by eapply NRepair.
    + apply steps_emits. intros K. emits.
  - apply steps_emits. intros K. emits.
  - apply steps_emits. intros K. emits.
  - apply steps_emits. intros K. emits.
  - apply steps_emits. intros K. unfold handle_lease_event. apply emits_bind; [|intros _; apply emits_ret].
    destruct e; [|apply emits_ret]. apply emits_if; intros _; [|apply emits_ret].
    apply emits_bind; [apply emits_on_manager|intros _; by apply emits_event].
  - apply steps_emits. intros K. emits.
  - apply steps_then; [by apply steps_state_update|intros; apply emits_ret].
  - apply steps_then; [|intros; apply emits_ret]. apply steps_deliver'; [done|]. intros w w' r Hf. by eapply NRetry.
  - apply steps_then; [|intros; apply emits_ret]. apply steps_deliver'; [done|]. intros w w' r Hf. by eapply NRekey.
  - apply steps_emits. intros K. destruct e; cbn [handle_pty_event]; try (by cbn in Ht); try apply emits_ret;
      apply emits_bind; try (intros; apply emits_ret); try (by apply emits_event).
    + rewrite Hsem. apply emits_note_output.
    + apply emits_if; intros _; [by apply emits_event|apply emits_ret].
    + unfold handle_lagged. rewrite Hsem, Hack, Hdg. cbn [andb negb]. emits.
Qed.
Lemma turn_exit (K : StreamingUpdate -> Prop) mo code :
  moment_ok mo -> (forall s, truth s -> K (ReliableKeyframe s)) -> emits c K (turn c mo (TPty (PtyExited code))).
Proof.
  intros Hm HK. pose proof streaming as (Hsem & Hack & Hdg). cbn [turn handle_pty_event]. rewrite Hsem. apply emits_bind.
  - apply emits_lift_bind. intros s Hs. apply (mok_state _ Hm) in Hs. apply emits_state; [apply Hm|by apply truth_validate|by apply HK].
  - intros _. apply emits_bind; [by apply emits_event|intros _; apply emits_ret].
Qed.
End acks.
End window.
