(* ===== verification/AttachNet.v ===== *)
(** * An attached client end to end

    The handler of the worker ([AttachServer]), the relay of the gateway ([worker.rs],
    [forward_worker_messages_inner]), the network and the attachment of the client
    ([AttachClient]) together.  The system refines the protocol of [StreamingNet]:
    what the user sees is what that protocol guarantees, and neither side ever
    treats the other as faulty. *)
From S2P Require Import Prelude Text Resources Negotiation TerminalState TerminalStateSpec TerminalSync TerminalSyncSpec Payload.
From S2P Require Import ViewportDelta ViewportDeltaSpec Transfer TransferSpec DatagramV3 DatagramV3Spec.
From S2P Require Import Streaming StreamingSpec StreamingNet Lease Messages Sessions Gateway SessionsInv AttachServer AttachClient AttachSpec.
Open Scope N_scope.

(** ** The system *)

(** One message of the worker at the gateway: what goes on to the client's stream, and
    what becomes a datagram. *)
Definition relay `{AttachLib} (version : N) (path : PathIo) (event : TerminalEvent)
    : result (list TerminalEvent * list TerminalViewportDatagram) :=
  match te_event event with
  | Some (EViewportDatagram d) =>
      ensure! negb (bool_decide (te_terminal_id event = "")) && negb (bool_decide (te_attachment_id event = ""))
              && bool_decide (te_terminal_id event = dg_terminal_id d)
              && bool_decide (te_attachment_id event = dg_attachment_id d),
        "worker emitted an inconsistent terminal datagram route";
      _ ← validate_worker_datagram d version;
      match pi_max path with
      | None => Ok ([], [])
      | Some maximum =>
          if maximum <? llen (datagram_to_vec d) then Ok ([], [])
          else sent ← pi_send path; Ok ([], if (sent : bool) then [d] else [])
      end
  | _ => Ok ([event], [])
  end.

Record System := mkSystem {
  sy_server : Attached;
  sy_live : bool;
  sy_worker : list TerminalEvent;
  sy_stream : list TerminalEvent;
  sy_air : list TerminalViewportDatagram;
  sy_commands : list TerminalCommand;
  sy_client : StreamingAttachment;
  sy_routes : Routes
}.

(** What was written is on its way. *)
Definition flush (s : Attached) : Attached := with_output [] [] (sv_writes s) s.
Definition flush_client (a : StreamingAttachment) : StreamingAttachment := with_out [] (sa_writes a) a.

Section system.
Context `{AttachLib} `{SessionLib} (half : N -> N).
Context (truth : State -> Prop) (c : AttachConfig).
Abbreviation tid := (ac_terminal_id c).
Abbreviation aid := (ac_attachment_id c).

(** The server after a turn; the loop may be over. *)
Definition after_turn (r : result bool) (s : Attached) : Attached :=
  match r with
  | Ok false => s
  | Ok true => finish c (Ok tt) s
  | Err e => finish c (Err e) s
  end.
Definition server_moves (r : result bool) (s' : Attached) (commands : list TerminalCommand) (y : System) : System :=
  let s' := after_turn r s' in
  mkSystem (flush s') (bool_decide (r = Ok false)) (sy_worker y ++ sv_out s') (sy_stream y) (sy_air y ++ sv_air s')
    commands (sy_client y) (sy_routes y).
Definition client_moves (a : StreamingAttachment) (routes : Routes) (stream : list TerminalEvent) (y : System) : System :=
  mkSystem (sy_server y) (sy_live y) (sy_worker y) stream (sy_air y) (sy_commands y ++ sa_out a) (flush_client a) routes.

(** The command a turn consumes is the next one of the client. *)
Definition takes (t : Turn) (commands rest : list TerminalCommand) : Prop :=
  match t with
  | TIncoming (Ok (Some (Some m))) => commands = m :: rest
  | TIncoming (Ok (Some None)) => False
  | _ => rest = commands
  end.
Definition reads (i : Incoming) (y : System) (rest : list TerminalEvent) : Prop :=
  match i with
  | IReliable (Ok (Some (Some e))) => sy_stream y = e :: rest
  | IDatagram => datagram_ready (tid, aid) (sy_routes y) = true /\ rest = sy_stream y
  | IRenewal => rest = sy_stream y
  | _ => False
  end.

Inductive UserCommand :=
| UInput (data : bytes) | UResize (size : Size) | UHistory (request : HistoryPageRequest).
Definition user_command (failure : string) (now : N) (u : UserCommand) : StreamingAttachment -> StreamingAttachment * result unit :=
  match u with
  | UInput data => send_input half failure now data
  | UResize size => sa_resize half failure now size
  | UHistory request => request_history failure request
  end.

Inductive sys_step : System -> System -> Prop :=
| YTurn y t mo s' r rest :
    sy_live y = true -> moment_ok truth mo -> enabled c (sy_server y) (mo_now mo) t = true ->
    takes t (sy_commands y) rest -> turn c mo t (sy_server y) = (s', r) ->
    sys_step y (server_moves r s' rest y)
| YShared y t m :
    sys_step y (mkSystem (with_manager m (with_terminal t (sy_server y))) (sy_live y) (sy_worker y) (sy_stream y) (sy_air y)
                  (sy_commands y) (sy_client y) (sy_routes y))
| YRelay y version path e es evs ds :
    sy_worker y = e :: es -> relay version path e = Ok (evs, ds) ->
    sys_step y (mkSystem (sy_server y) (sy_live y) es (sy_stream y ++ evs) (sy_air y ++ ds) (sy_commands y)
                  (sy_client y) (sy_routes y))
| YRouter y d routes goes :
    d ∈ sy_air y -> router_read (Ok (datagram_to_vec d)) (sy_routes y) = (routes, goes) ->
    sys_step y (mkSystem (sy_server y) (sy_live y) (sy_worker y) (sy_stream y) (sy_air y) (sy_commands y)
                  (sy_client y) routes)
| YOther y routes :
    routes !! (tid, aid) = sy_routes y !! (tid, aid) ->
    sys_step y (mkSystem (sy_server y) (sy_live y) (sy_worker y) (sy_stream y) (sy_air y) (sy_commands y)
                  (sy_client y) routes)
| YDecode y failure a routes o :
    is_Some (sa_pending_decode (sy_client y)) ->
    finish_decode failure (sy_client y) (sy_routes y) = (a, routes, Ok o) ->
    sys_step y (client_moves a routes (sy_stream y) y)
| YSelect y failure now i a routes o rest :
    sa_pending_decode (sy_client y) = None -> reads i y rest ->
    select_turn half failure now i (sy_client y) (sy_routes y) = (a, routes, Ok o) ->
    sys_step y (client_moves a routes rest y)
| YUser y failure now u a :
    user_command failure now u (sy_client y) = (a, Ok tt) -> sys_step y (client_moves a (sy_routes y) (sy_stream y) y).

(** The worker has answered an attach request with a stream of datagram states, and the
    client has built its attachment from the answer. *)
Definition sys_init (y : System) : Prop :=
  exists np connection_id transport request info fresh mo s0 s response now writes routes0 routes a,
    sv_out s0 = [] /\ sv_air s0 = [] /\ moment_ok truth mo /\
    handle_attach_inner np connection_id transport request info fresh mo s0 = (s, Serving c response) /\
    ac_datagram_state c = true /\
    attach_streaming half np request response now writes routes0 = (routes, Ok a) /\
    y = mkSystem (flush s) true (sv_out s) [] (sv_air s) [] a routes.
Definition sys_reachable (y : System) : Prop := exists y0, sys_init y0 /\ rtc sys_step y0 y.
End system.

(** ** The client *)

(** The chunk a decoding job holds is still to be read. *)
Definition inbox (tid aid : string) (a : StreamingAttachment) : Assemblers * list TerminalEvent :=
  match sa_pending_decode a with
  | None => ((sa_state_assembler a, sa_history_assembler a), [])
  | Some (DecodeState x chunk) => ((x, sa_history_assembler a), [mkEvent tid aid (Some (ESemanticStateChunk chunk))])
  | Some (DecodeHistory x chunk) => ((sa_state_assembler a, x), [mkEvent tid aid (Some (EHistoryPageChunk chunk))])
  end.

(** A command that is neither an acknowledgement nor a repair request. *)
Definition user_sent (m : TerminalCommand) : Prop :=
  match cm_command m with Some (CStateAck _) | Some (CStateRepair _) => False | _ => True end.

Section client.
Context `{AttachLaws} (half : N -> N) (K : StreamingUpdate -> Prop) (tid aid : string).

Definition addressed (a : StreamingAttachment) (m : TerminalCommand) : Prop :=
  cm_terminal_id m = sa_terminal_id a /\ cm_attachment_id m = sa_attachment_id a.

(** How a step of the client moves its replica, and what it says about it. *)
Inductive client_move (a a' : StreamingAttachment) : Prop :=
| move_none ms :
    sa_route a' = sa_route a -> sa_replica a' = sa_replica a -> sa_out a' = sa_out a ++ ms -> Forall (fun m => user_sent m /\ addressed a m) ms -> client_move a a'
| move_apply u res ms :
    sa_route a' = sa_route a -> K u -> apply_update (sa_replica a) u = (sa_replica a', res) -> sa_out a' = sa_out a ++ ms ->
    Forall (fun m => (exists ack, state_ack (sa_replica a') = Some ack /\ cm_command m = Some (CStateAck ack)) /\ addressed a m) ms ->
    client_move a a'
| move_repair d q m :
    sa_route a' = sa_route a -> K (DatagramDelta d) -> repair_request (sa_replica a) d = Ok q -> sa_replica a' = sa_replica a ->
    sa_out a' = sa_out a ++ [m] -> cm_command m = Some (CStateRepair q) -> addressed a m -> client_move a a'.

(** The mailbox of the route holds a delta of [K]. *)
Definition mail_ok (routes : Routes) : Prop :=
  forall m d, routes !! (tid, aid) = Some m -> mb_value m = Some (DDatagram d) -> K (DatagramDelta d).

Lemma send_command_out failure sequence command a a' r :
  send_command failure sequence command a = (a', r) ->
  (sa_out a' = sa_out a /\ is_ok r = false \/
   sa_out a' = sa_out a ++ [mkCommand (sa_terminal_id a) (sa_lease_id a) sequence (sa_attachment_id a) (Some command)]) /\
  a' = with_out (sa_out a') (sa_writes a') a /\ (sa_writes a = None -> r = Ok tt /\ sa_writes a' = None).
Proof.
  unfold send_command. intros Hs. destruct (sa_writes a) as [[|n]|] eqn:Hw; simplify_eq; split_and!; auto; try done.
  all: destruct a'; cbn in *; by subst.
Qed.

Lemma ack_out failure a a' r :
  send_state_ack failure a = (a', r) ->
  exists ms, sa_out a' = sa_out a ++ ms /\ a' = with_out (sa_out a') (sa_writes a') a /\
    Forall (fun m => (exists ack, state_ack (sa_replica a) = Some ack /\ cm_command m = Some (CStateAck ack)) /\ addressed a m) ms.
Proof.
  unfold send_state_ack, send_state_control. destruct (state_ack (sa_replica a)) as [ack|] eqn:Ha.
  - destruct (send_command failure 0 (CStateAck ack) a) as [a1 r1] eqn:E.
    apply send_command_out in E as (Ho & Ha1 & _). intros Heq. assert (a1 = a') as -> by (destruct r1; by simplify_eq). clear Heq.
    destruct Ho as [[Ho _]|Ho].
    + exists []. rewrite app_nil_r. auto.
    + eexists. split_and!; [exact Ho|done|]. constructor; [|constructor]. split; [eauto|done].
  - intros [= <- <-]. exists []. rewrite app_nil_r. split_and!; [done| |constructor]. by destruct a.
Qed.

Lemma missing_base_same rep d rep' : apply_datagram rep d = (rep', Ok MissingBase) -> rep' = rep.
Proof.
  unfold apply_datagram. repeat case_match; intros; by simplify_eq.
Qed.
Lemma keyframe_no_base rep s rep' : apply_keyframe rep s <> (rep', Ok MissingBase).
Proof. unfold apply_keyframe. repeat case_match; by intros. Qed.
Lemma publish_move failure delivery a a' r :
  publish_state failure delivery a = (a', r) ->
  exists ms, sa_out a' = sa_out a ++ ms /\ a' = with_out (sa_out a') (sa_writes a') a /\
    Forall (fun m => (exists ack, state_ack (sa_replica a) = Some ack /\ cm_command m = Some (CStateAck ack)) /\ addressed a m) ms.
Proof.
  unfold publish_state. destruct (send_state_ack failure a) as [a1 r1] eqn:E. apply ack_out in E.
  intros Heq. assert (a1 = a') as <- by (destruct r1; by simplify_eq). done.
Qed.

Lemma decoded_move failure s a routes a' routes' r :
  K (ReliableKeyframe s) -> apply_decoded failure s a routes = (a', routes', r) ->
  client_move a a' /\ inbox tid aid a' = inbox tid aid a /\ (mail_ok routes -> mail_ok routes').
Proof.
  intros HK. unfold apply_decoded. destruct (apply_keyframe (sa_replica a) s) as [rep [[]|e]] eqn:E; intros Hd.
  - destruct (rep_current rep) as [current|] eqn:Ec.
    + destruct (publish_state failure ReliableKeyframeDelivery (with_replica rep a)) as [a1 r1] eqn:Ep. simplify_eq.
      apply publish_move in Ep as (ms & Ho & Ha & Hms). split_and!.
      * eapply (move_apply _ _ (ReliableKeyframe s) _ ms); [by rewrite Ha|done| |done|]; rewrite Ha; cbn; [exact E|exact Hms].
      * by rewrite Ha.
      * intros Hm m d. unfold commit_keyframe. destruct (routes !! sa_route (with_replica rep a)) as [m0|] eqn:Em; [|apply Hm].
        destruct (decide (sa_route (with_replica rep a) = (tid, aid))) as [Hr|Hr].
        -- rewrite <- Hr, lookup_insert_eq. intros [= <-]. destruct (negb _); [done|]. cbn. apply Hm. by rewrite <- Hr.
        -- rewrite lookup_insert_ne by done. apply Hm.
    + simplify_eq. split_and!; [|done..]. by eapply (move_apply _ _ (ReliableKeyframe s) _ []); [done|done|exact E|by rewrite app_nil_r|constructor].
  - destruct (send_state_ack failure (with_replica rep a)) as [a1 r1] eqn:Ep. apply ack_out in Ep as (ms & Ho & Ha & Hms).
    assert (a1 = a' /\ routes' = routes) as [<- ->] by (destruct r1; by simplify_eq). clear Hd. split_and!; [|by rewrite Ha|done].
    eapply (move_apply _ _ (ReliableKeyframe s) _ ms); [by rewrite Ha|done| |done|]; rewrite Ha; cbn; [exact E|exact Hms].
  - simplify_eq. split_and!; [|done..]. by eapply (move_apply _ _ (ReliableKeyframe s) _ []); [done|done|exact E|by rewrite app_nil_r|constructor].
  - simplify_eq. split_and!; [|done..]. by eapply (move_apply _ _ (ReliableKeyframe s) _ []); [done|done|exact E|by rewrite app_nil_r|constructor].
Qed.

(** A finished decoding job. *)
Lemma decode_move failure a routes a' routes' r es fin :
  is_Some (sa_pending_decode a) -> pipe K tid aid (inbox tid aid a).1 ((inbox tid aid a).2 ++ es) fin ->
  finish_decode failure a routes = (a', routes', r) ->
  client_move a a' /\ pipe K tid aid (inbox tid aid a').1 ((inbox tid aid a').2 ++ es) fin /\ (mail_ok routes -> mail_ok routes').
Proof.
  intros [p Hp] Hpipe. unfold finish_decode. unfold inbox in Hpipe at 1 2. rewrite Hp in *.
  destruct p as [x chunk|x chunk]; cbn [fst snd app] in Hpipe; apply pipe_inv in Hpipe as (y & H1 & Hrest).
  - inversion H1 as [? ? ? sa' o Hpush HK| | |]; simplify_eq. rewrite Hpush. destruct o as [s|].
    + intros Hd. apply decoded_move in Hd as (Hm & Hi & Hmail); [|by apply HK]. rewrite Hi. split_and!; [|exact Hrest|done].
      destruct Hm; [eapply move_none|eapply move_apply|eapply move_repair]; cbn in *; eauto.
    + intros [= <- <- <-]. split_and!; [|exact Hrest|done]. apply (move_none _ _ []); [done|done|by rewrite app_nil_r|constructor].
  - inversion H1 as [|? ? ? ha' o Hpush| |]; simplify_eq. rewrite Hpush.
    intros [= <- <- <-]. split_and!; [|exact Hrest|done]. apply (move_none _ _ []); [done|done|by rewrite app_nil_r|constructor].
Qed.

(** Steps that only send commands of the user or renew the lease. *)
Record quiet (a a' : StreamingAttachment) : Prop := {
  qt_route : sa_route a' = sa_route a;
  qt_replica : sa_replica a' = sa_replica a;
  qt_inbox : inbox tid aid a' = inbox tid aid a;
  qt_out : exists ms, sa_out a' = sa_out a ++ ms /\ Forall (fun m => user_sent m /\ addressed a m) ms
}.
Lemma quiet_move a a' : quiet a a' -> client_move a a'.
Proof. intros [Ht Hr _ (ms & Ho & Hms)]. by eapply move_none. Qed.
Lemma quiet_refl a a' : sa_route a' = sa_route a -> sa_replica a' = sa_replica a -> inbox tid aid a' = inbox tid aid a -> sa_out a' = sa_out a -> quiet a a'.
Proof. intros ? ? ? Ho. split; [done..|]. exists []. by rewrite app_nil_r. Qed.
Lemma quiet_trans a b d : quiet a b -> quiet b d -> quiet a d.
Proof.
  intros [Ht1 Hr1 Hi1 (ms1 & Ho1 & Hm1)] [Ht2 Hr2 Hi2 (ms2 & Ho2 & Hm2)]. split; [congruence..|]. exists (ms1 ++ ms2).
  rewrite Ho2, Ho1, <- app_assoc. split; [done|]. apply Forall_app. split; [done|]. eapply Forall_impl; [exact Hm2|].
  unfold sa_route in Ht1. injection Ht1 as Ht1 Ht1'. unfold addressed. by rewrite Ht1, Ht1'.
Qed.
Lemma numbered_quiet failure command a a' r :
  match command with CStateAck _ | CStateRepair _ => False | _ => True end ->
  numbered failure command a = (a', r) -> quiet a a'.
Proof.
  intros Hc. unfold numbered, take_sequence. destruct (checked_add U64_MAX (sa_next_sequence a) 1) as [next|];
    [|intros [= <- <-]; by apply quiet_refl].
  intros Hs. apply send_command_out in Hs as (Ho & Ha & _). split; rewrite Ha; [done|done|done|]. cbn.
  destruct Ho as [[Ho _]|Ho]; cbn in Ho; [exists []; by rewrite app_nil_r|]. eexists. split; [done|]. by constructor.
Qed.
Lemma renew_quiet failure now a a' r : renew_lease half failure now a = (a', r) -> quiet a a'.
Proof.
  unfold renew_lease. destruct (sa_lease_ttl a) as [ttl|]; [|intros [= <- <-]; by apply quiet_refl].
  destruct (bool_decide _); [intros [= <- <-]; by apply quiet_refl|].
  destruct (numbered failure _ a) as [a1 r1] eqn:E. apply numbered_quiet in E; [|done]. destruct r1; intros [= <- <-]; [|done].
  eapply quiet_trans; [done|]. by apply quiet_refl.
Qed.
Lemma user_quiet failure now u a a' r : user_command half failure now u a = (a', r) -> quiet a a'.
Proof.
  assert (Hafter : forall command, match command with CStateAck _ | CStateRepair _ => False | _ => True end ->
    after_renewal half failure now command a = (a', r) -> quiet a a').
  { intros command Hc. unfold after_renewal, renew_lease_if_due. destruct (match sa_next_lease_renewal a with Some deadline => deadline <=? now | None => false end).
    - destruct (renew_lease half failure now a) as [a1 r1] eqn:E. apply renew_quiet in E. destruct r1; [|by intros [= <- <-]].
      intros Hn. apply numbered_quiet in Hn; [|done]. by eapply quiet_trans.
    - by apply numbered_quiet. }
  destruct u; cbn; [by apply Hafter|by apply Hafter|by apply numbered_quiet].
Qed.

Lemma datagram_move failure d a a' r :
  K (DatagramDelta d) -> handle_datagram failure d a = (a', r) -> client_move a a' /\ inbox tid aid a' = inbox tid aid a.
Proof.
  intros HK. unfold handle_datagram. destruct (apply_datagram (sa_replica a) d) as [rep [[]|e]] eqn:E; intros Hd.
  - apply publish_move in Hd as (ms & Ho & Ha & Hms). split; [|by rewrite Ha].
    eapply (move_apply _ _ (DatagramDelta d) _ ms); [by rewrite Ha|done| |done|]; rewrite Ha; cbn; [exact E|exact Hms].
  - simplify_eq. split; [|done]. by eapply (move_apply _ _ (DatagramDelta d) _ []); [done|done|exact E|by rewrite app_nil_r|constructor].
  - apply missing_base_same in E as ->. destruct (repair_request (sa_replica a) d) as [q|] eqn:Eq.
    + unfold send_state_control in Hd. destruct (send_command failure 0 (CStateRepair q) _) as [a1 r1] eqn:Es.
      apply send_command_out in Es as (Ho & Ha & _). assert (a1 = a') as <- by (destruct r1; by simplify_eq).
      split; [|by rewrite Ha]. destruct Ho as [[Ho _]|Ho].
      * apply (move_none _ _ []); [by rewrite Ha|by rewrite Ha|by rewrite app_nil_r|constructor].
      * eapply move_repair; [by rewrite Ha|done|done|by rewrite Ha|exact Ho|done|done].
    + simplify_eq. split; [|done]. apply (move_none _ _ []); [done|done|by rewrite app_nil_r|constructor].
  - simplify_eq. split; [|done]. by eapply (move_apply _ _ (DatagramDelta d) _ []); [done|done|exact E|by rewrite app_nil_r|constructor].
Qed.
Lemma event_move now e a a' r es fin :
  sa_pending_decode a = None -> pipe K tid aid (inbox tid aid a).1 (e :: es) fin -> handle_event half now e a = (a', r) -> is_ok r = true ->
  client_move a a' /\ pipe K tid aid (inbox tid aid a').1 ((inbox tid aid a').2 ++ es) fin.
Proof.
  intros Hp Hpipe He Hr. assert (Hmove : sa_route a' = sa_route a /\ sa_replica a' = sa_replica a /\ sa_out a' = sa_out a).
  { unfold handle_event in He. destruct (validate_event_target e a); [|by simplify_eq].
    destruct (te_event e) as [[]|]; simplify_eq; try done. by destruct (_ || _). }
  destruct Hmove as (Hroute & Hrep & Hout). split; [apply (move_none _ _ []); [done|done|by rewrite app_nil_r|constructor]|].
  unfold handle_event in He. destruct (validate_event_target e a); [|by simplify_eq].
  apply pipe_inv in Hpipe as (y & H1 & Hrest). unfold inbox in H1 at 1. rewrite Hp in H1. cbn in H1.
  inversion H1 as [? ? ? sa' o Hpush HK|? ? ? ha' o Hpush|? d Hd|? k Hk]; subst; cbn in He.
  - simplify_eq. unfold inbox. cbn. econstructor; [by econstructor|done].
  - simplify_eq. unfold inbox. cbn. econstructor; [by econstructor|done].
  - by simplify_eq.
  - assert (Hi : inbox tid aid a' = inbox tid aid a).
    { destruct k; simplify_eq; try done. by destruct (_ || _). }
    rewrite Hi. unfold inbox. rewrite Hp. cbn. exact Hrest.
Qed.
End client.

(** ** Refinement *)

Section refine.
Context `{AttachLaws} `{SessionLib} (half : N -> N).
Context (truth : State -> Prop) (c : AttachConfig).
Hypothesis truth_valid : forall s, truth s -> validate_viewport_state s = Ok tt.
Hypothesis truth_unique : forall s s', truth s -> truth s' ->
  st_epoch s = st_epoch s' -> st_generation s = st_generation s' -> s = s'.
Abbreviation tid := (ac_terminal_id c).
Abbreviation aid := (ac_attachment_id c).

(** Everything on its way to the client is made of updates of [K]. *)
Record link (K : StreamingUpdate -> Prop) (fin : Assemblers) (y : System) : Prop := {
  lk_pipe : pipe K tid aid (inbox tid aid (sy_client y)).1 ((inbox tid aid (sy_client y)).2 ++ sy_stream y ++ sy_worker y) fin;
  lk_stream : Forall (fun e => forall d, te_event e <> Some (EViewportDatagram d)) (sy_stream y);
  lk_air : Forall (flies K) (sy_air y);
  lk_mail : mail_ok K tid aid (sy_routes y)
}.
(** While the handler runs, window and replica are those of a reachable network. *)
Definition simulates (y : System) (n : Net) : Prop :=
  net_reachable truth tid aid n /\ sv_streaming_sync (sy_server y) = Some (net_window n) /\
  net_replica n = sa_replica (sy_client y) /\ link (fun u => u ∈ net_down n) (idle c) y /\
  Forall (command_ok (net_acks n) (net_repairs n)) (sy_commands y).
Record sys_inv (y : System) : Prop := {
  si_server : sv_out (sy_server y) = [] /\ sv_air (sy_server y) = [];
  si_client : sa_out (sy_client y) = [] /\ sa_terminal_id (sy_client y) = tid /\ sa_attachment_id (sy_client y) = aid;
  si_modes : ac_semantic c = true /\ ac_state_ack c = true /\ ac_datagram_state c = true;
  si_commands : Forall (fun m => cm_terminal_id m = tid /\ cm_attachment_id m = aid) (sy_commands y);
  si_replica : replica_ok truth tid aid (sa_replica (sy_client y));
  si_live : sy_live y = true -> exists n, simulates y n;
  si_link : exists fin, link (update_ok truth tid aid) fin y
}.

Lemma mail_mono (K K' : StreamingUpdate -> Prop) routes : (forall u, K u -> K' u) -> mail_ok K tid aid routes -> mail_ok K' tid aid routes.
Proof. intros HK Hm m d Hr Hv. eapply HK, Hm; eauto. Qed.
Lemma link_mono (K K' : StreamingUpdate -> Prop) fin y : (forall u, K u -> K' u) -> link K fin y -> link K' fin y.
Proof.
  intros HK [Hp Hs Ha Hm]. split; [by eapply pipe_mono|done| |by eapply mail_mono].
  eapply Forall_impl; [exact Ha|]. intros d [?|?]; [by left|right; auto].
Qed.
Lemma down_ok n u : net_reachable truth tid aid n -> u ∈ net_down n -> update_ok truth tid aid u.
Proof.
  intros Hn Hu. pose proof (net_reachable_inv truth tid aid truth_valid truth_unique n Hn) as [_ _ Hd].
  rewrite Forall_forall in Hd. by apply Hd.
Qed.
Lemma net_more n n' : net_reachable truth tid aid n -> net_step truth n n' -> net_reachable truth tid aid n'.
Proof. intros (n0 & Hi & Hr) Hs. exists n0. split; [done|]. by eapply rtc_r. Qed.

Lemma command_ok_mono acks repairs acks' repairs' m :
  acks ⊆ acks' -> repairs ⊆ repairs' -> command_ok acks repairs m -> command_ok acks' repairs' m.
Proof. unfold command_ok. destruct (cm_command m) as [[]|]; set_solver. Qed.
Lemma user_sent_ok acks repairs m : user_sent m -> command_ok acks repairs m.
Proof. unfold user_sent, command_ok. by destruct (cm_command m) as [[]|]. Qed.

(** A step of the client is at most two steps of the network. *)
Lemma client_simulates w rep down acks repairs a a' :
  net_reachable truth tid aid (mkNet w rep down acks repairs) -> rep = sa_replica a -> sa_out a = [] ->
  client_move (fun u => u ∈ down) a a' ->
  exists acks' repairs', net_reachable truth tid aid (mkNet w (sa_replica a') down acks' repairs') /\
    acks ⊆ acks' /\ repairs ⊆ repairs' /\ Forall (command_ok acks' repairs') (sa_out a').
Proof.
  intros Hn -> Ho Hm. destruct Hm as [ms _ Hr Hms Hu|u res ms _ Hu Ha Hms Hacks|d q m _ Hd Hq Hr Hms Hc _]; rewrite Ho in Hms; cbn in Hms.
  - exists acks, repairs. rewrite Hr, Hms. split_and!; [done|done|done|]. eapply Forall_impl; [exact Hu|]. intros m [Hm _]. by apply user_sent_ok.
  - assert (Hn1 : net_reachable truth tid aid (mkNet w (sa_replica a') down acks repairs)) by (eapply net_more; [exact Hn|by eapply NDeliver]).
    rewrite Hms. destruct (state_ack (sa_replica a')) as [ack|] eqn:Eack.
    + exists (acks ++ [ack]), repairs. split_and!; [eapply net_more; [exact Hn1|by apply NSendAck]|set_solver|done|].
      eapply Forall_impl; [exact Hacks|]. intros m [(ack' & [= <-] & Hm) _]. unfold command_ok. rewrite Hm. set_solver.
    + exists acks, repairs. split_and!; [done..|]. eapply Forall_impl; [exact Hacks|]. by intros m [(? & ? & _) _].
  - exists acks, (repairs ++ [q]). rewrite Hr, Hms. split_and!; [|done|set_solver|].
    + eapply net_more; [exact Hn|]. by eapply (NSendRepair _ _ _ _ _ _ (DatagramDelta d)).
    + constructor; [|constructor]. unfold command_ok. rewrite Hc. set_solver.
Qed.
Lemma client_replica a a' :
  replica_ok truth tid aid (sa_replica a) -> client_move (update_ok truth tid aid) a a' ->
  replica_ok truth tid aid (sa_replica a') /\ replica_le (sa_replica a) (sa_replica a').
Proof.
  intros Hr [ms _ Hs _ _|u res ms _ Hu Ha _ _|d q m _ _ _ Hs _ _ _].
  - rewrite Hs. split; [done|apply replica_le_refl].
  - edestruct apply_update_ok as (? & ? & _); eauto.
  - rewrite Hs. split; [done|apply replica_le_refl].
Qed.
Lemma client_move_mono (K K' : StreamingUpdate -> Prop) a a' : (forall u, K u -> K' u) -> client_move K a a' -> client_move K' a a'.
Proof. intros HK []; [by eapply move_none|eapply move_apply; eauto|eapply move_repair; eauto]. Qed.

Lemma client_route (K : StreamingUpdate -> Prop) a a' : client_move K a a' -> sa_route a' = sa_route a.
Proof. by intros []. Qed.

Lemma client_addressed (K : StreamingUpdate -> Prop) a a' :
  client_move K a a' -> sa_out a = [] -> Forall (addressed a) (sa_out a').
Proof.
  intros [ms _ _ Ho Hms|u res ms _ _ _ Ho Hms|d q m _ _ _ _ Ho _ Hm] Hnil; rewrite Hnil in Ho; cbn in Ho; rewrite Ho.
  - eapply Forall_impl; [exact Hms|]. by intros ? [].
  - eapply Forall_impl; [exact Hms|]. by intros ? [].
  - by repeat constructor; apply Hm.
Qed.

(** What the steps of the client have in common. *)
Lemma client_step_inv y a routes rest :
  sys_inv y -> (forall K fin, link K fin y -> client_move K (sy_client y) a /\ link K fin (client_moves a routes rest y)) ->
  sys_inv (client_moves a routes rest y) /\ replica_le (sa_replica (sy_client y)) (sa_replica a).
Proof.
  intros [[Hso Hsa] (Hco & Ht & Hat) Hmodes Hcmds Hrep Hlive (fin & Hlink)] Hm.
  destruct (Hm _ _ Hlink) as [Hmove Hlink']. destruct (client_replica _ _ Hrep Hmove) as [Hrep' Hle].
  pose proof (client_route _ _ _ Hmove) as Hroute. unfold sa_route in Hroute. injection Hroute as Hroute1 Hroute2.
  pose proof (client_addressed _ _ _ Hmove Hco) as Haddr. unfold addressed in Haddr. rewrite Ht, Hat in Haddr.
  split; [|done]. split; cbn; [done| |done|by apply Forall_app|done| |by exists fin]; [by rewrite Hroute1, Hroute2|].
  intros Hl. destruct (Hlive Hl) as ([w rep down acks repairs] & Hn & Hw & Hr & Hlk & Hcm). cbn in Hr, Hlk, Hcm, Hw.
  destruct (Hm _ _ Hlk) as [Hmove' Hlk'].
  destruct (client_simulates _ _ _ _ _ _ _ Hn Hr Hco Hmove') as (acks' & repairs' & Hn' & Hacks & Hreps & Hout).
  exists (mkNet w (sa_replica a) down acks' repairs'). split_and!; cbn; [done|done|done|done|]. apply Forall_app. split; [|done].
  eapply Forall_impl; [exact Hcm|]. intros m. by apply command_ok_mono.
Qed.

Lemma decode_step_inv y failure a routes o :
  sys_inv y -> is_Some (sa_pending_decode (sy_client y)) ->
  finish_decode failure (sy_client y) (sy_routes y) = (a, routes, Ok o) ->
  sys_inv (client_moves a routes (sy_stream y) y) /\ replica_le (sa_replica (sy_client y)) (sa_replica a).
Proof.
  intros Hinv Hp Hd. apply client_step_inv; [done|]. intros K fin [Hpipe Hs Ha Hm].
  destruct (decode_move K tid aid _ _ _ _ _ _ _ _ Hp Hpipe Hd) as (Hmove & Hpipe' & Hmail). split; [done|]. split; cbn; auto.
Qed.
Lemma mail_read (K : StreamingUpdate -> Prop) r routes routes' v :
  next_datagram r routes = (routes', v) -> mail_ok K tid aid routes -> mail_ok K tid aid routes' /\
    (r = (tid, aid) -> forall d, v = Some (DDatagram d) -> K (DatagramDelta d)).
Proof.
  unfold next_datagram. destruct (routes !! r) as [m|] eqn:Em; intros [= <- <-] Hm; [|done]. split.
  - intros m' d. destruct (decide (r = (tid, aid))) as [->|Hne].
    + rewrite lookup_insert_eq. intros [= <-]. cbn. by apply Hm.
    + rewrite lookup_insert_ne by done. apply Hm.
  - intros -> d Hd. by eapply Hm.
Qed.
Lemma select_step_inv y failure now i a routes o rest :
  sys_inv y -> sa_pending_decode (sy_client y) = None -> reads c i y rest ->
  select_turn half failure now i (sy_client y) (sy_routes y) = (a, routes, Ok o) ->
  sys_inv (client_moves a routes rest y) /\ replica_le (sa_replica (sy_client y)) (sa_replica a).
Proof.
  intros Hinv Hp Hread Hsel. apply client_step_inv; [done|]. intros K fin [Hpipe Hs Ha Hm].
  destruct (si_client _ Hinv) as (_ & Ht & Hat). assert (Hin : (inbox tid aid (sy_client y)).2 = []) by (unfold inbox; by rewrite Hp).
  destruct i as [r|[[[e|]|]|err]| |]; cbn in Hread; try done; cbn [select_turn] in Hsel.
  - destruct (handle_event half now e (sy_client y)) as [a1 r1] eqn:E. simplify_eq. rewrite Hread, Hin in Hpipe. cbn [app] in Hpipe.
    destruct (event_move half K tid aid _ _ _ _ _ _ _ Hp Hpipe E eq_refl) as [Hmove Hpipe']. split; [done|].
    rewrite Hread in Hs. apply Forall_cons in Hs as [_ Hs]. split; cbn; auto.
  - destruct Hread as [_ ->]. destruct (next_datagram _ _) as [routes1 v] eqn:En.
    destruct (mail_read K _ _ _ _ En Hm) as [Hm1 Hv]. unfold sa_route in Hv. rewrite Ht, Hat in Hv. specialize (Hv eq_refl).
    destruct v as [[d|]|]; simplify_eq.
    + destruct (handle_datagram failure d (sy_client y)) as [a1 r1] eqn:E. simplify_eq.
      destruct (datagram_move K tid aid _ _ _ _ _ (Hv d eq_refl) E) as [Hmove Hi]. split; [done|].
      split; cbn; [|done..]. by rewrite <- Hi in Hpipe.
    + split; [apply (move_none _ _ _ []); [done|done|by rewrite app_nil_r|constructor]|]. split; cbn; auto.
  - destruct (renew_lease half failure now (sy_client y)) as [a1 r1] eqn:E. apply (renew_quiet half tid aid) in E.
    destruct r1; simplify_eq. split; [by eapply quiet_move|]. destruct E as [_ _ Hi _]. rewrite <- Hi in Hpipe. split; cbn; auto.
Qed.

(** *** The handler *)

Lemma finish_out r s : exists es, sv_out (finish c r s) = sv_out s ++ es /\ sv_air (finish c r s) = sv_air s /\
  forall K x, pipe K tid aid x es x.
Proof.
  unfold finish, drop_guards, drop_attachment.
  set (s1 := match r with Ok _ => s | Err e => (write_terminal_event c (EError e) s).1 end).
  assert (Hs1 : exists es, sv_out s1 = sv_out s ++ es /\ sv_air s1 = sv_air s /\ forall K x, pipe K tid aid x es x).
  { unfold s1. destruct r as [|e]; [exists []; rewrite app_nil_r; eauto using pipe|]. unfold write_terminal_event.
    assert (Hone : forall K x, pipe K tid aid x [mkEvent tid aid (Some (EError e))] x).
    { intros K x. econstructor; [by apply pipe_plain|constructor]. }
    destruct (sv_writes s) as [[|n]|]; cbn; [exists []; rewrite app_nil_r; eauto using pipe|eauto..]. }
  cbn. by destruct (handle_drop _ _).
Qed.
Lemma after_turn_out r s : exists es, sv_out (after_turn c r s) = sv_out s ++ es /\ sv_air (after_turn c r s) = sv_air s /\
  (r = Ok false -> es = [] /\ sv_streaming_sync (after_turn c r s) = sv_streaming_sync s) /\ forall K x, pipe K tid aid x es x.
Proof.
  destruct r as [[]|e]; cbn [after_turn].
  - destruct (finish_out (Ok tt) s) as (es & ? & ? & ?). exists es. done.
  - exists []. rewrite app_nil_r. split_and!; [done|done|done|intros; constructor].
  - destruct (finish_out (Err e) s) as (es & ? & ? & ?). exists es. done.
Qed.

(** Output of a turn that goes on top of what is already on its way. *)
Lemma link_server (K : StreamingUpdate -> Prop) r s' commands y out air fin :
  link K (idle c) y -> sv_out s' = out -> sv_air s' = air -> Forall (flies K) air ->
  pipe K tid aid (idle c) out fin -> link K fin (server_moves c r s' commands y).
Proof.
  intros [Hp Hs Ha Hm] Ho Hai Hfl Hout. destruct (after_turn_out r s') as (es & Hes & Haes & _ & Hpes).
  split; cbn; [|done| |done].
  - rewrite Hes, Ho. rewrite !app_assoc in Hp |- *. rewrite (app_assoc _ (sy_worker y)).
    eapply pipe_app; [exact Hp|]. eapply pipe_app; [exact Hout|apply Hpes].
  - rewrite Haes, Hai. by apply Forall_app.
Qed.

Lemma turn_step_inv y t mo s' r rest :
  sys_inv y -> sy_live y = true -> moment_ok truth mo -> takes t (sy_commands y) rest ->
  turn c mo t (sy_server y) = (s', r) -> sys_inv (server_moves c r s' rest y).
Proof.
  intros [[Hso Hsa] Hclient Hmodes Hcmds Hrep Hlive Hlink] Hl Hm Htakes Ht.
  destruct (Hlive Hl) as ([w rep down acks repairs] & Hn & Hw & Hr & Hlk & Hcm). cbn in Hr, Hlk, Hcm, Hw.
  pose proof (net_reachable_inv truth tid aid truth_valid truth_unique _ Hn) as [Hwok _ Hdown]. cbn in Hwok, Hdown.
  assert (Hrest : Forall (command_ok acks repairs) rest).
  { destruct t as [[[[m|]|]|e]| | | | | |]; cbn in Htakes; subst; try done. rewrite Htakes in Hcm. by apply Forall_cons in Hcm as [_ ?]. }
  assert (Hrest' : Forall (fun m => cm_terminal_id m = tid /\ cm_attachment_id m = aid) rest).
  { destruct t as [[[[m|]|]|e]| | | | | |]; cbn in Htakes; subst; try done. rewrite Htakes in Hcmds. by apply Forall_cons in Hcmds as [_ ?]. }
  assert (Hflushed : sv_out (sy_server (server_moves c r s' rest y)) = [] /\ sv_air (sy_server (server_moves c r s' rest y)) = []) by done.
  assert (Hdead : (exists fin, link (update_ok truth tid aid) fin (server_moves c r s' rest y)) ->
    (r = Ok false -> exists n, simulates (server_moves c r s' rest y) n) -> sys_inv (server_moves c r s' rest y)).
  { intros Hl' Hs'. split; cbn; [done..| |done]. intros Hd. apply Hs'. by apply bool_decide_eq_true in Hd. }
  assert (Hexit : (exists code, t = TPty (PtyExited code)) \/ forall code, t <> TPty (PtyExited code)).
  { destruct t as [| | | | | |[]]; eauto; by right. }
  destruct Hexit as [(code & ->)|Hne].
  - pose proof (turn_exit truth c truth_valid Hmodes (update_ok truth tid aid) mo code Hm ltac:(done) (sy_server y)) as He.
    rewrite Ht in He. destruct He as (_ & out & air & fin & Ho & Hai & Hfl & Hp & _). rewrite Hso in Ho. rewrite Hsa in Hai.
    apply Hdead.
    + exists fin. eapply link_server; [|exact Ho|exact Hai|done|done]. eapply link_mono; [|exact Hlk].
      intros u Hu. by apply (down_ok _ _ Hn).
    + intros ->. exfalso. cbn [turn handle_pty_event] in Ht. unfold m_bind in Ht.
      repeat (match type of Ht with context [match ?x with _ => _ end] => destruct x as [? [?|?]] eqn:? end; try done).
  - assert (Hadm : admissible acks repairs t).
    { destruct t as [[[[m|]|]|e]| | | | | |[]]; cbn in *; try done; [|by eapply Hne].
      rewrite Htakes in Hcm. by apply Forall_cons in Hcm as [? _]. }
    pose proof (turn_steps truth c truth_valid truth_unique acks repairs Hmodes mo t Hm Hadm (sy_server y) w Hw Hwok) as Hst.
    rewrite Ht in Hst. destruct Hst as (w' & us & Hw' & Hstep & Hout).
    assert (Hn' : net_reachable truth tid aid (mkNet w' rep (down ++ us) acks repairs)).
    { destruct Hstep as [[-> ->]|Hstep]; [by rewrite app_nil_r|]. eapply net_more; [exact Hn|by apply NSender]. }
    destruct (Hout (fun u => u ∈ down ++ us)) as (out & air & fin & Ho & Hai & Hfl & Hp & Hfin); [apply Forall_forall; set_solver|].
    rewrite Hso in Ho. rewrite Hsa in Hai.
    assert (Hlk' : link (fun u => u ∈ down ++ us) fin (server_moves c r s' rest y)).
    { eapply link_server; [|exact Ho|exact Hai|done|done]. eapply link_mono; [|exact Hlk]. set_solver. }
    apply Hdead.
    + exists fin. eapply link_mono; [|exact Hlk']. intros u Hu. by apply (down_ok _ _ Hn').
    + intros ->. rewrite Hfin in Hlk' by done. exists (mkNet w' rep (down ++ us) acks repairs). split_and!; cbn; try done.
Qed.

(** *** The rest of the way *)

Lemma other_step_inv y s worker stream air routes :
  sys_inv y -> sv_out s = [] -> sv_air s = [] -> sv_streaming_sync s = sv_streaming_sync (sy_server y) ->
  (forall K fin, link K fin y -> link K fin (mkSystem s (sy_live y) worker stream air (sy_commands y) (sy_client y) routes)) ->
  sys_inv (mkSystem s (sy_live y) worker stream air (sy_commands y) (sy_client y) routes).
Proof.
  intros [_ Hclient Hmodes Hcmds Hrep Hlive (fin & Hlink)] Ho Ha Hw Hl. split; cbn; [done..| |eauto].
  intros Hlv. destruct (Hlive Hlv) as (n & Hn & Hwn & Hr & Hlk & Hcm). exists n. split_and!; cbn; try done; [congruence|auto].
Qed.
Lemma relay_link (K : StreamingUpdate -> Prop) fin version path e es evs ds y :
  sy_worker y = e :: es -> relay version path e = Ok (evs, ds) -> link K fin y ->
  link K fin (mkSystem (sy_server y) (sy_live y) es (sy_stream y ++ evs) (sy_air y ++ ds) (sy_commands y) (sy_client y) (sy_routes y)).
Proof.
  intros Hw Hrel [Hp Hs Ha Hm]. rewrite Hw in Hp. unfold relay in Hrel.
  assert (Hcase : (exists d, te_event e = Some (EViewportDatagram d) /\ evs = [] /\ (ds = [] \/ ds = [d])) \/
    (evs = [e] /\ ds = [] /\ forall d, te_event e <> Some (EViewportDatagram d))).
  { destruct (te_event e) as [[]|]; try (right; by simplify_eq). left. eexists. split; [done|]. do 2 ok_step Hrel.
    destruct (pi_max path); [|simplify_eq; auto]. ok_step Hrel; [by simplify_eq; auto|]. ok_step Hrel. ok_inv Hrel.
    split; [done|]. destruct a0; auto. }
  destruct Hcase as [(d & He & -> & Hds)|(-> & -> & He)].
  - assert (Hfly : flies K d /\ pipe K tid aid (inbox tid aid (sy_client y)).1 ((inbox tid aid (sy_client y)).2 ++ sy_stream y ++ es) fin).
    { rewrite app_assoc in Hp. apply pipe_app_inv in Hp as (x & Hp1 & Hp2). apply pipe_inv in Hp2 as (x' & He1 & Hp2).
      destruct He1 as [| |? d' Hd'|? k Hk]; cbn in He; simplify_eq. split; [done|]. rewrite app_assoc. by eapply pipe_app. }
    destruct Hfly as [Hfly Hp']. split; cbn; [by rewrite app_nil_r|by rewrite app_nil_r| |done]. apply Forall_app. split; [done|].
    destruct Hds as [->| ->]; [constructor|constructor; [done|constructor]].
  - split; cbn; [by rewrite <- app_assoc|apply Forall_app; by auto|by rewrite app_nil_r|done].
Qed.
Lemma router_link (K : StreamingUpdate -> Prop) fin d routes goes y :
  d ∈ sy_air y -> router_read (Ok (datagram_to_vec d)) (sy_routes y) = (routes, goes) -> link K fin y ->
  link K fin (mkSystem (sy_server y) (sy_live y) (sy_worker y) (sy_stream y) (sy_air y) (sy_commands y) (sy_client y) routes).
Proof.
  intros Hd Hr [Hp Hs Ha Hm]. split; cbn; [done..|]. unfold router_read in Hr. rewrite datagram_roundtrip in Hr.
  destruct (negb _) eqn:Eb; [by simplify_eq|]. destruct (sy_routes y !! _) as [m|] eqn:Em; [|by simplify_eq]. simplify_eq.
  apply negb_false_iff in Eb. rewrite !andb_true_iff, !negb_true_iff in Eb. destruct Eb as [_ Hdiff].
  rewrite Forall_forall in Ha. destruct (Ha _ Hd) as [Hnone|HK]; [by rewrite Hnone in Hdiff|].
  intros m' d'. destruct (mb_closed m).
  - intros [_ Hl]%lookup_delete_Some. by apply Hm.
  - destruct (decide ((dg_terminal_id d, dg_attachment_id d) = (tid, aid))) as [Heq|Hne].
    + rewrite Heq, lookup_insert_eq. intros [= <-]. unfold deliver. rewrite Heq in Em. destruct (dg_diff d); [|done].
      destruct (_ || _); [by apply Hm|]. cbn. by intros [= <-].
    + rewrite lookup_insert_ne by done. apply Hm.
Qed.

Lemma sys_step_inv y y' : sys_inv y -> sys_step half truth c y y' ->
  sys_inv y' /\ replica_le (sa_replica (sy_client y)) (sa_replica (sy_client y')).
Proof.
  intros Hinv Hs. destruct Hs as [y t mo s' r rest Hl Hm _ Htk Ht|y t m|y version path e es evs ds Hw Hr|y d routes goes Hd Hr|y routes Hr|
    y failure a routes o Hp Hd|y failure now i a routes o rest Hp Hrd Hsel|y failure now u a Hu].
  - split; [by eapply turn_step_inv|apply replica_le_refl].
  - split; [|apply replica_le_refl]. apply other_step_inv; try done; [apply (si_server _ Hinv)..|]. intros K fin []. by split.
  - split; [|apply replica_le_refl]. apply other_step_inv; try done; [apply (si_server _ Hinv)..|]. intros K fin. by eapply relay_link.
  - split; [|apply replica_le_refl]. apply other_step_inv; try done; [apply (si_server _ Hinv)..|]. intros K fin. by eapply router_link.
  - split; [|apply replica_le_refl]. apply other_step_inv; try done; [apply (si_server _ Hinv)..|]. intros K fin [Hp Hst Ha Hm].
    split; cbn; [done..|]. intros m d. rewrite Hr. apply Hm.
  - exact (decode_step_inv _ _ _ _ _ Hinv Hp Hd).
  - exact (select_step_inv _ _ _ _ _ _ _ _ Hinv Hp Hrd Hsel).
  - refine (client_step_inv y a (sy_routes y) (sy_stream y) Hinv _). intros K fin [Hp Hst Ha Hm]. apply (user_quiet half tid aid) in Hu.
    split; [by eapply quiet_move|]. destruct Hu as [_ _ Hi _]. split; cbn; try done. by rewrite <- Hi in Hp.
Qed.

(** *** The start *)

Lemma m_bind_Ok {A B} (m : M A) (f : A -> M B) s s' b :
  m_bind m f s = (s', Ok b) -> exists s1 a, m s = (s1, Ok a) /\ f a s1 = (s', Ok b).
Proof. unfold m_bind. destruct (m s) as [s1 [a|e]]; [eauto|done]. Qed.
Definition same_output (s s' : Attached) : Prop :=
  sv_streaming_sync s' = sv_streaming_sync s /\ sv_out s' = sv_out s /\ sv_air s' = sv_air s.
Lemma on_manager_same f s s' r : on_manager f s = (s', r) -> same_output s s'.
Proof. unfold on_manager. destruct (f (sv_manager s)). by intros [= <- <-]. Qed.
Lemma send_response_same x s s' r : send_response x s = (s', Ok r) -> same_output s s' /\ r = x.
Proof. unfold send_response. destruct (sv_writes s) as [[|n]|]; intros; by simplify_eq. Qed.

Lemma attach_live_spec version mo request info attachment grant s s' response :
  ac_semantic c = true -> ac_datagram_state c = true -> moment_ok truth mo -> sv_out s = [] -> sv_air s = [] ->
  attach_live c version mo request info attachment grant s = (s', Ok response) ->
  exists state w, truth state /\ with_route_version state tid aid version = Ok w /\ sv_streaming_sync s' = Some w /\
    Forall (flies (fun u => u ∈ [ReliableKeyframe state])) (sv_air s') /\ pipe (fun u => u ∈ [ReliableKeyframe state]) tid aid (idle c) (sv_out s') (idle c) /\
    ar_terminal response = Some info /\ ar_attachment response = Some (with_state Snapshotting attachment).
Proof.
  intros Hsem Hdg Hm Ho Ha Hl. unfold attach_live in Hl. rewrite Hsem, Hdg in Hl. cbn [andb] in Hl.
  apply m_bind_Ok in Hl as (s1 & [] & E1 & Hl). apply on_manager_same in E1 as (_ & Ho1 & Ha1).
  apply m_bind_Ok in Hl as (s2 & [] & E2 & Hl). destruct (_ || _); [done|]. injection E2 as <-.
  apply m_bind_Ok in Hl as (s3 & initial & E3 & Hl). unfold m_lift in E3. injection E3 as <- E3.
  destruct (mo_state mo) as [state|] eqn:Es; [|done]. cbn in E3. injection E3 as <-. pose proof (mok_state _ _ Hm _ Es) as Ht.
  apply m_bind_Ok in Hl as (s4 & resp & E4 & Hl). apply send_response_same in E4 as [(_ & Ho4 & Ha4) ->].
  apply m_bind_Ok in Hl as (s5 & [] & E5 & Hl). cbv beta iota in E5.
  apply m_bind_Ok in E5 as (s6 & [] & E6 & E5). injection E6 as <-.
  apply m_bind_Ok in E5 as (s7 & [] & E7 & E5).
  apply m_bind_Ok in E5 as (s8 & w & E8 & E5). unfold m_lift in E8. injection E8 as <- E8. injection E5 as <-.
  apply m_bind_Ok in Hl as (s9 & [] & E9 & Hl). injection E9 as <-.
  apply m_bind_Ok in Hl as (s10 & [] & E10 & Hl). apply on_manager_same in E10 as (Hw10 & Ho10 & Ha10). injection Hl as <- <-.
  assert (HK : ReliableKeyframe state ∈ [ReliableKeyframe state]) by (by apply list_elem_of_singleton).
  pose proof (emits_state c (fun u => u ∈ [ReliableKeyframe state]) (mo_transfer_id mo) state (mok_transfer _ _ Hm)
    (truth_validate truth truth_valid _ Ht) HK (with_revision (st_epoch state, st_generation state) s4)) as He.
  rewrite E7 in He. destruct He as (_ & out & air & fin & Hout & Hair & Hfl & Hp & Hfin). rewrite (Hfin eq_refl) in Hp.
  exists state, w. cbn in *. split_and!; try done.
  - rewrite Ha10, Hair, Ha4, Ha1, Ha. by rewrite app_nil_l.
  - rewrite Ho10, Hout, Ho4, Ho1, Ho. done.
Qed.

Lemma attach_exited_same info s s' : attach_exited c info s = (s', Ok false) -> s' = s.
Proof.
  unfold attach_exited. destruct (bool_decide _); [by intros [= <-]|]. unfold m_bind.
  destruct (write_terminal_event c _ s) as [s1 [|]]; by intros.
Qed.
Lemma sys_init_inv y : sys_init half truth c y -> sys_inv y.
Proof.
  intros (np & connection_id & transport & request & info & fresh & mo & s0 & s & response & now & writes & routes0 & routes & a &
    Ho & Ha & Hm & Hatt & Hdg & Hcl & ->).
  unfold handle_attach_inner in Hatt. destruct (negb _ && negb _); [done|].
  destruct (register_attachment _ _ _ _ _ _) as [m [attachment|e]] eqn:Ereg; [|done].
  destruct (acquire_resumable_lease_at _ _ _ _ _ _ _ _ _ _) as [t [grant|e]]; [|done].
  remember (attach_config _ _ _ _ _) as c' eqn:Hc'. destruct (attach_live c' _ _ _ _ _ _ _) as [s1 [resp|e]] eqn:El; [|done].
  destruct (attach_exited c' info s1) as [s2 [[]|e]] eqn:Ee; [done| |done]. injection Hatt as <- -> ->.
  apply attach_exited_same in Ee as ->.
  assert (Haid : ai_id attachment = fr_attachment fresh).
  { clear - Ereg. unfold register_attachment, fail_released in Ereg. repeat case_match; by simplify_eq. }
  assert (Hmodes : ac_semantic c = true /\ ac_state_ack c = true /\ ac_datagram_state c = true).
  { rewrite Hc' in Hdg |- *. cbn [attach_config ac_datagram_state ac_semantic ac_state_ack] in *.
    pose proof Hdg as Hdg'. apply andb_prop in Hdg as [[Hack _]%andb_prop _]. pose proof Hack as [Hsem Hack']%andb_prop. cbn zeta. rewrite Hdg'. by rewrite Hsem, Hack'. }
  pose proof Hmodes as (Hsem & Hack & _).
  apply attach_live_spec in El as (state & w & Ht & Hroute & Hw & Hair & Hp & Hterm & Hatt); [|done..].
  assert (Hclient : exists rep, for_route tid aid = Ok rep /\ routes !! (tid, aid) = Some (mkMailbox None false false [] 0) /\
    sa_out a = [] /\ sa_terminal_id a = tid /\ sa_attachment_id a = aid /\ sa_replica a = rep /\
    inbox tid aid a = (idle c, [])).
  { unfold attach_streaming in Hcl. rewrite Hterm, Hatt in Hcl. cbn [ok_or] in Hcl. rewrite Hc'. unfold idle. cbn [attach_config ac_terminal_id ac_attachment_id ac_zstd].
    destruct (if negotiated_has np CAPABILITY_DATAGRAM_STATE 2 then _ else _) as [[route routes1]|] eqn:Ereq; [|done].
    ok_step Ereq. ok_step Ereq. cbn [mbind result_bind] in Ereq. ok_step Ereq. ok_inv Ereq. unfold register in Hr. ok_step Hr. ok_inv Hr.
    cbn [fst snd ai_id with_state] in Hcl. rewrite Haid in Hcl. destruct (for_route (ti_id info) (fr_attachment fresh)) as [rep|] eqn:Erep; [|done].
    injection Hcl as <- <-. exists rep. rewrite <- Haid. split_and!; cbn; try done; by rewrite ?Haid, ?lookup_insert_eq. }
  destruct Hclient as (rep & Hrep & Hmail & Hout & Hti & Hai & Hsr & Hin).
  set (n := mkNet w (sa_replica a) [ReliableKeyframe state] [] []).
  assert (Hn : net_reachable truth tid aid n).
  { exists n. split; [|apply rtc_refl]. eexists _, _, _, _. split_and!; [done|exact Hroute| |reflexivity]. by rewrite Hsr. }
  assert (Hlk : link (fun u => u ∈ net_down n) (idle c) (mkSystem (flush s1) true (sv_out s1) [] (sv_air s1) [] a routes)).
  { split; cbn; [by rewrite Hin|constructor|done|]. intros m' d Hm' Hv. rewrite Hmail in Hm'. by simplify_eq. }
  pose proof (net_reachable_inv truth tid aid truth_valid truth_unique _ Hn) as [_ Hrok _].
  split; cbn; try done.
  - intros _. exists n. by split_and!.
  - exists (idle c). eapply link_mono; [|exact Hlk]. intros u Hu. by apply (down_ok _ _ Hn).
Qed.

Lemma sys_reachable_inv y : sys_reachable half truth c y -> sys_inv y.
Proof.
  intros (y0 & Hi & Hr). revert Hr. apply rtc_invariant; [by apply sys_init_inv|]. intros x z Hx Hs. by apply (sys_step_inv x z).
Qed.

(** *** What cannot fail *)

Lemma ack_accepted a failure : sa_writes a = None -> is_Some (rep_current (sa_replica a)) -> is_ok (send_state_ack failure a).2 = true.
Proof.
  intros Hw [cur Hc]. unfold send_state_ack, send_state_control, send_command, state_ack. rewrite Hc. cbn. by rewrite Hw.
Qed.
Lemma publish_accepted a failure d : sa_writes a = None -> is_Some (rep_current (sa_replica a)) -> is_ok (publish_state failure d a).2 = true.
Proof.
  intros Hw Hc. pose proof (ack_accepted a failure Hw Hc) as Ha. unfold publish_state.
  destruct (send_state_ack failure a) as [a1 r] eqn:E. cbn in Ha. destruct r; [|done].
  apply ack_out in E as (_ & _ & E & _). rewrite E. cbn. by destruct Hc as [? ->].
Qed.
Lemma apply_keyframe_current r s r' : apply_keyframe r s = (r', Ok Applied) -> is_Some (rep_current r').
Proof. unfold apply_keyframe. repeat case_match; intros; simplify_eq; eauto. Qed.
Lemma apply_datagram_current r d r' : apply_datagram r d = (r', Ok Applied) -> is_Some (rep_current r').
Proof. unfold apply_datagram. repeat case_match; intros; simplify_eq; eauto. Qed.

Lemma decoded_accepted failure s a routes :
  replica_ok truth tid aid (sa_replica a) -> truth s -> sa_writes a = None -> is_ok (apply_decoded failure s a routes).2 = true.
Proof.
  intros Hr Hs Hw. unfold apply_decoded. destruct (apply_keyframe (sa_replica a) s) as [rep res] eqn:E.
  destruct (apply_keyframe_ok truth tid aid truth_valid _ _ _ _ Hr Hs E) as (_ & _ & Hok & cur & Hcur & _).
  destruct res as [[]|]; [| |by apply keyframe_no_base in E|done].
  - rewrite Hcur. pose proof (publish_accepted (with_replica rep a) failure ReliableKeyframeDelivery Hw (mk_is_Some _ _ Hcur)) as Hp.
    by destruct (publish_state _ _ _).
  - pose proof (ack_accepted (with_replica rep a) failure Hw (mk_is_Some _ _ Hcur)) as Ha.
    by destruct (send_state_ack _ _) as [? []].
Qed.
Lemma datagram_accepted failure d a :
  replica_ok truth tid aid (sa_replica a) -> update_ok truth tid aid (DatagramDelta d) -> sa_writes a = None ->
  is_ok (handle_datagram failure d a).2 = true.
Proof.
  intros Hr Hd Hw. unfold handle_datagram. destruct (apply_datagram (sa_replica a) d) as [rep res] eqn:E.
  destruct (apply_update_ok truth tid aid truth_valid truth_unique (sa_replica a) (DatagramDelta d) rep res Hr Hd E) as (_ & _ & Hok).
  destruct res as [[]|]; [|done| |done].
  - apply publish_accepted; [done|]. by eapply apply_datagram_current.
  - apply missing_base_same in E as ->. destruct (repair_request (sa_replica a) d) as [q|e] eqn:Eq.
    + unfold send_state_control, send_command. cbn [sa_writes with_replica]. by rewrite Hw.
    + exfalso. destruct Hd as (b & t & Hb & Ht & _ & _ & Hc). destruct (compact_header _ _ _ _ _ Hc) as (Hdt & Hda & _ & diff & Hdiff & _).
      destruct (rok_route _ _ _ _ Hr) as [Hr1 Hr2]. unfold repair_request in Eq. rewrite Hdt, Hda, Hr1, Hr2, !bool_decide_true, Hdiff in Eq by done. done.
Qed.

Lemma finish_accepted y failure :
  sys_inv y -> sa_writes (sy_client y) = None -> is_ok (finish_decode failure (sy_client y) (sy_routes y)).2 = true.
Proof.
  intros Hinv Hw. unfold finish_decode. destruct (sa_pending_decode (sy_client y)) as [p|] eqn:Hp; [|done].
  destruct (si_link _ Hinv) as (fin & [Hpipe _ _ _]). unfold inbox in Hpipe. rewrite Hp in Hpipe.
  destruct p as [x chunk|x chunk]; cbn [fst snd app] in Hpipe; apply pipe_inv in Hpipe as (z & Hone & _).
  - inversion Hone as [? ? ? sa' o Hpush HK| | |]; simplify_eq. rewrite Hpush. destruct o as [s|]; [|done].
    apply decoded_accepted; [apply (si_replica _ Hinv)|by apply HK|done].
  - inversion Hone as [|? ? ? ha' o Hpush| |]; simplify_eq. by rewrite Hpush.
Qed.
Lemma event_accepted y failure now e rest :
  sys_inv y -> sa_pending_decode (sy_client y) = None -> sy_stream y = e :: rest ->
  is_ok (select_turn half failure now (IReliable (Ok (Some (Some e)))) (sy_client y) (sy_routes y)).2 = true.
Proof.
  intros Hinv Hp Hs. destruct (si_link _ Hinv) as (fin & [Hpipe Hst _ _]). destruct (si_client _ Hinv) as (_ & Ht & Ha).
  unfold inbox in Hpipe. rewrite Hp, Hs in Hpipe. cbn [fst snd app] in Hpipe. apply pipe_inv in Hpipe as (z & Hone & _).
  rewrite Hs in Hst. apply Forall_cons in Hst as [Hst _]. cbn [select_turn]. unfold handle_event, validate_event_target.
  inversion Hone as [? ? ? sa' o Hpush HK|? ? ? ha' o Hpush|? d Hd|? k Hk]; subst; cbn [te_terminal_id te_attachment_id te_event] in *;
    rewrite Ht, Ha, !bool_decide_true by done; cbn [andb mbind result_bind]; [done|done|by destruct (Hst d)|].
  by destruct k.
Qed.
Lemma mail_accepted y failure now m d :
  sys_inv y -> sa_writes (sy_client y) = None -> sy_routes y !! (tid, aid) = Some m -> mb_value m = Some (DDatagram d) ->
  is_ok (select_turn half failure now IDatagram (sy_client y) (sy_routes y)).2 = true.
Proof.
  intros Hinv Hw Hm Hd. destruct (si_link _ Hinv) as (fin & [_ _ _ Hmail]). destruct (si_client _ Hinv) as (_ & Ht & Ha).
  cbn [select_turn]. unfold next_datagram, sa_route. rewrite Ht, Ha, Hm, Hd.
  pose proof (datagram_accepted failure d (sy_client y) (si_replica _ Hinv) (Hmail _ _ Hm Hd) Hw) as Hok.
  by destruct (handle_datagram failure d (sy_client y)).
Qed.

Lemma ack_turn mo m ack s w :
  ac_state_ack c = true -> ac_datagram_state c = true -> cm_terminal_id m = tid -> cm_attachment_id m = aid ->
  cm_command m = Some (CStateAck ack) -> sv_streaming_sync s = Some w -> is_ok (stream_acknowledge w ack).2 = true ->
  (turn c mo (TIncoming (Ok (Some (Some m)))) s).2 = Ok false.
Proof.
  intros Hack Hdg Ht Ha Hm Hw Hok. cbn [turn]. unfold handle_command, validate_terminal_command_target.
  rewrite Hm, Ht, Ha, !bool_decide_true, orb_true_r by done. cbn [negb orb].
  unfold m_bind at 1, m_lift. cbv iota beta. unfold handle_state_ack. rewrite Hack, Hdg. cbn [negb].
  unfold m_bind, m_get, on_streaming. rewrite Hw. destruct (stream_acknowledge w ack) as [w' [disposition|e]]; [|done].
  cbn [andb]. destruct (bool_decide _ || _); cbn; by destruct (_ && _).
Qed.
End refine.

(** ** Theorems *)



(** ** A concrete attachment *)

(** A codec with short codes for the two states of the example. *)
Definition ex_code (s : State) : bytes :=
  if decide (s = ex_s1) then [1; 0] else if decide (s = ex_s2) then [2; 0] else [3; Npos (encode s)].
Definition ex_uncode (b : bytes) : result State :=
  match b with
  | 1 :: _ => Ok ex_s1
  | 2 :: _ => Ok ex_s2
  | _ :: b => unnumber (take 1 b)
  | [] => Err "empty"
  end.
Definition padded (b : bytes) : bytes := b ++ replicate 998 0.
Lemma ex_code_spec s : ex_uncode (padded (ex_code s)) = Ok s /\ llen (padded (ex_code s)) = 1000.
Proof.
  unfold ex_code. destruct (decide (s = ex_s1)) as [->|]; [done|]. destruct (decide (s = ex_s2)) as [->|]; [done|].
  split; [apply (unnumber_number s)|done].
Qed.
Definition ex_attach_lib : AttachLib := {|
  attach_stream_lib := ex_stream_lib;
  attach_state_to_vec s := padded (ex_code s);
  attach_state_decode := ex_uncode;
  attach_page_to_vec p := padded [0; Npos (encode p)];
  attach_page_decode b := unnumber (take 1 (drop 1 b));
  attach_diff_to_vec := fun _ => []
|}.
Lemma ex_attach_laws : @AttachLaws ex_attach_lib.
Proof.
  split; [exact ex_datagram_laws|]. split.
  - exact ex_payload_laws.
  - intros s. apply ex_code_spec.
  - intros s. symmetry. apply ex_code_spec.
  - intros p. apply (unnumber_number p).
  - done.
Qed.

#[local] Existing Instance ex_attach_lib.
#[local] Existing Instance demo_lib.
Definition ex_np : NegotiatedProtocol := mkNegotiated 2
  {[CAPABILITY_SEMANTIC_STATE := 2; CAPABILITY_STATE_ACK := 1; CAPABILITY_SESSION_OBJECTS := 1;
    CAPABILITY_DATAGRAM_STATE := 2; CAPABILITY_INPUT_LEASE := 1]}.
Definition ex_moment (s : State) : Moment :=
  mkMoment 0 0 IoOk (Err "no page") (Ok s) (Ok None) (Err "no snapshot") ex_tid (fun _ => mkPath (Some 1200) (Ok true)).
Definition ex_request : AttachRequest := mkAttach "" "t-1" false false "" "w-1".
Definition ex_before : Attached :=
  mkAttached (new_terminal 2 3) demo_spawned window_default None false false ([], 0) 0 0 0 [] [] None.
Definition ex_fresh : Fresh := mkFresh "a-1" "l-1" "k-1" (Ok 7).
Definition ex_served : Attached * Outcome :=
  @handle_attach_inner ex_attach_lib demo_lib ex_np "c-1" (Some Direct) ex_request demo_info ex_fresh (ex_moment ex_s1) ex_before.
Definition ex_config : AttachConfig :=
  attach_config ex_np (Some Direct) "t-1" "a-1" "l-1".
Definition ex_response : AttachResponse :=
  match ex_served.2 with Serving _ r => r | _ => mkAttachResponse None "" false "" None None 0 0 end.
Definition ex_joined : Routes * result StreamingAttachment :=
  attach_streaming (fun n => n / 2) ex_np ex_request ex_response 0 None ∅.
Definition ex_client : StreamingAttachment :=
  match ex_joined.2 with
  | Ok a => a
  | Err _ => mkAttachment' [] None "" "" "" None None 0 (with_zstd false) (with_zstd false) None replica_default
  end.
Definition ex_system : System :=
  mkSystem (flush ex_served.1) true (sv_out ex_served.1) [] (sv_air ex_served.1) [] ex_client ex_joined.1.
(** The first keyframe is relayed, read and decoded; the client acknowledges it. *)
Definition ex_relayed : System :=
  mkSystem (sy_server ex_system) true [] (sy_worker ex_system) (sy_air ex_system) [] ex_client ex_joined.1.
Definition ex_event : TerminalEvent := default (mkEvent "" "" None) (head (sy_worker ex_system)).
Definition ex_reading :=
  select_turn (fun n => n / 2) "closed" 0 (IReliable (Ok (Some (Some ex_event)))) ex_client ex_joined.1.
Definition ex_read : System := client_moves ex_reading.1.1 ex_reading.1.2 [] ex_relayed.
Definition ex_decoding := @finish_decode ex_attach_lib "closed" (sy_client ex_read) (sy_routes ex_read).
Definition ex_shown : System := client_moves ex_decoding.1.1 ex_decoding.1.2 [] ex_read.

Lemma ex_reachable : @sys_reachable ex_attach_lib demo_lib (fun n => n / 2) ex_truth ex_config ex_shown.
Proof.
  exists ex_system. split.
  - exists ex_np, "c-1", (Some Direct), ex_request, demo_info, ex_fresh, (ex_moment ex_s1), ex_before, ex_served.1, ex_response, 0, None, ∅,
      ex_joined.1, ex_client.
    split; [reflexivity|]. split; [reflexivity|]. split; [split; [intros s [= <-]; by left|done|done]|].
    split; [vm_compute; reflexivity|]. split; [reflexivity|]. split; [vm_compute; reflexivity|reflexivity].
  - eapply rtc_l. { apply (YRelay _ _ _ ex_system 2 (mkPath None (Ok true)) ex_event [] [ex_event] []); vm_compute; reflexivity. }
    eapply rtc_l.
    { assert (Hr : ex_relayed = mkSystem (sy_server ex_system) (sy_live ex_system) [] (sy_stream ex_system ++ [ex_event])
        (sy_air ex_system ++ []) (sy_commands ex_system) (sy_client ex_system) (sy_routes ex_system)) by (vm_compute; reflexivity).
      rewrite <- Hr. apply (YSelect _ _ _ ex_relayed "closed" 0 (IReliable (Ok (Some (Some ex_event)))) ex_reading.1.1 ex_reading.1.2 None []);
        vm_compute; reflexivity. }
    eapply rtc_l; [|apply rtc_refl].
    apply (YDecode _ _ _ ex_read "closed" ex_decoding.1.1 ex_decoding.1.2 (Some (AState ex_s1 ReliableKeyframeDelivery))); vm_compute; eauto.
Qed.

