(* ===== verification/AttachInput.v ===== *)
(** * What the user types reaches the PTY

    The commands of a streaming attachment ([AttachClient]), read in order by the handler
    of the worker ([AttachServer]) whose terminal still holds the lease. *)
From S2P Require Import Prelude Text Resources Negotiation TerminalState TerminalSync Payload ViewportDelta.
From S2P Require Import Transfer DatagramV3 Streaming StreamingNet Lease Messages Sessions SessionsInv AttachServer AttachClient AttachSpec AttachNet.
Open Scope N_scope.

Section input.
Context (half : N -> N) (failure : string).

(** One [send_input] after the other, each at its own time. *)
Fixpoint send_all (inputs : list (N * bytes)) (a : StreamingAttachment) : StreamingAttachment * result unit :=
  match inputs with
  | [] => (a, Ok tt)
  | (now, data) :: inputs =>
      match send_input half failure now data a with
      | (a, Ok _) => send_all inputs a
      | (a, Err e) => (a, Err e)
      end
  end.

Lemma numbered_Ok command a a' :
  numbered failure command a = (a', Ok tt) ->
  sa_out a' = sa_out a ++ [mkCommand (sa_terminal_id a) (sa_lease_id a) (sa_next_sequence a) (sa_attachment_id a) (Some command)] /\
  sa_next_sequence a' = sa_next_sequence a + 1 /\ sa_route a' = sa_route a /\ sa_lease_id a' = sa_lease_id a /\
  sa_lease_ttl a' = sa_lease_ttl a.
Proof.
  unfold numbered, take_sequence, checked_add. destruct (N.leb_spec (sa_next_sequence a + 1) U64_MAX); [|done].
  unfold send_command. cbn. destruct (sa_writes a) as [[|n]|]; intros; by simplify_eq.
Qed.
Lemma renewal_Ok now a a' :
  renew_lease_if_due half failure now a = (a', Ok tt) ->
  sa_route a' = sa_route a /\ sa_lease_id a' = sa_lease_id a /\ (sa_lease_ttl a' = sa_lease_ttl a \/ sa_lease_ttl a' = None) /\
  (sa_out a' = sa_out a /\ sa_next_sequence a' = sa_next_sequence a \/
   is_Some (sa_lease_ttl a) /\ sa_next_sequence a' = sa_next_sequence a + 1 /\
   sa_out a' = sa_out a ++ [mkCommand (sa_terminal_id a) (sa_lease_id a) (sa_next_sequence a) (sa_attachment_id a)
                              (Some (CLeaseControl (action_i32 LcRenew)))]).
Proof.
  unfold renew_lease_if_due, renew_lease.
  destruct (match sa_next_lease_renewal a with Some deadline => deadline <=? now | None => false end); [|intros [= <-]; by auto 10].
  destruct (sa_lease_ttl a) as [ttl|] eqn:Ettl; [|intros [= <-]; cbn; by auto 10].
  destruct (bool_decide _); [intros [= <-]; cbn; by auto 10|].
  destruct (numbered failure _ a) as [a1 [[]|e]] eqn:E; [|done]. apply numbered_Ok in E as (Ho & Hn & Hr & Hl & Ht). intros [= <-].
  unfold sa_route in *. cbn. rewrite Ho, Hn, Hr, Hl, Ht, Ettl. split_and!; eauto 10.
Qed.
End input.

Section server.
Context `{AttachLib} (c : AttachConfig).
Context (deadline : N).
Hypothesis owned : ac_lease_id c <> "".

(** The terminal still holds the lease of the attachment, and not the sequence [next]. *)
Definition holds (next : N) (t : Lease.Terminal) : Prop :=
  exists l, tm_lease t = Some l /\ ls_id l = ac_lease_id c /\ ls_last_sequence l < next /\
    forall d, ls_expires_at l = Some d -> deadline <= d.
(** The command is read while the lease lasts, and the PTY takes what it gets. *)
Definition timely (mo : Moment) : Prop :=
  mo_pty mo = IoOk /\ mo_now mo < deadline <= mo_later mo + INPUT_LEASE_TTL.

Lemma not_due next t now : holds next t -> now < deadline -> (expire_lease_if_due_at t (ac_lease_id c) now).1 = t.
Proof.
  intros (l & Hl & Hid & _ & Hd) Hnow. unfold expire_lease_if_due_at. rewrite Hl, Hid, bool_decide_true by done. cbn [andb].
  unfold past_deadline. destruct (ls_expires_at l) as [d|]; [|done]. specialize (Hd d eq_refl).
  rewrite (proj2 (N.leb_gt _ _)) by lia. done.
Qed.
Lemma admitted sequence t : holds sequence t -> exists l, tm_lease t = Some l /\ check_lease t (ac_lease_id c) sequence = Ok l /\
  ls_id l = ac_lease_id c /\ forall d, ls_expires_at l = Some d -> deadline <= d.
Proof.
  intros (l & Hl & Hid & Hs & Hd). exists l. split_and!; [done| |done|done]. unfold check_lease. rewrite Hl. cbn [ok_or mbind result_bind].
  rewrite Hid, bool_decide_true by done. rewrite (proj2 (N.leb_gt _ _)) by lia. done.
Qed.

Abbreviation command sequence k :=
  (mkCommand (ac_terminal_id c) (ac_lease_id c) sequence (ac_attachment_id c) (Some k)).
Lemma target_ok sequence k :
  validate_terminal_command_target (command sequence k) (ac_terminal_id c) (ac_attachment_id c) (ac_session_objects c) (ac_lease_id c) = Ok tt.
Proof.
  unfold validate_terminal_command_target. cbn [cm_terminal_id cm_attachment_id cm_lease_id cm_command].
  rewrite (bool_decide_false _ owned), !bool_decide_true, orb_true_r by done. by destruct k.
Qed.

Lemma input_turn mo sequence data s :
  timely mo -> holds sequence (sv_terminal s) ->
  exists t, turn c mo (TIncoming (Ok (Some (Some (command sequence (CInput data)))))) s = (with_terminal t s, Ok false) /\
    tm_written t = tm_written (sv_terminal s) ++ data /\ holds (sequence + 1) t.
Proof.
  intros (Hio & Hnow & _) Hh. cbn [turn]. unfold handle_command. rewrite target_ok. unfold m_bind, m_lift, on_terminal.
  cbn [cm_command cm_lease_id cm_sequence]. unfold write_input. rewrite (not_due _ _ _ Hh Hnow). unfold write_input_locked.
  destruct (admitted _ _ Hh) as (l & Hl & -> & Hid & Hd). rewrite Hio. eexists. split; [done|]. split; [done|].
  exists (with_sequence l sequence). cbn. split_and!; [done|done|lia|done].
Qed.
Lemma renew_turn mo sequence s :
  ac_input_lease c = true -> timely mo -> holds sequence (sv_terminal s) ->
  exists t, turn c mo (TIncoming (Ok (Some (Some (command sequence (CLeaseControl (action_i32 LcRenew))))))) s = (with_terminal t s, Ok false) /\
    tm_written t = tm_written (sv_terminal s) /\ holds (sequence + 1) t.
Proof.
  intros Hil (Hio & Hnow & Hlater) Hh. cbn [turn]. unfold handle_command. rewrite target_ok. unfold m_bind, m_lift, on_terminal.
  cbn [cm_command cm_lease_id cm_sequence action_i32 action_try_from]. rewrite Hil. cbn [negb]. unfold renew_lease_at.
  rewrite (not_due _ _ _ Hh Hnow). unfold renew_lease_locked.
  destruct (admitted _ _ Hh) as (l & Hl & -> & Hid & Hd). eexists. split; [done|]. split; [done|].
  eexists. split; [reflexivity|]. cbn. split_and!; [done|lia|]. by intros d [= <-].
Qed.
End server.

Section run.
Context `{AttachLib} (half : N -> N) (failure : string) (c : AttachConfig) (deadline : N).
Hypothesis owned : ac_lease_id c <> "".

Definition incoming (ms : list TerminalCommand) : list Turn := (fun m => TIncoming (Ok (Some (Some m)))) <$> ms.

(** The attachment and the handler agree on terminal, attachment and lease. *)
Record agrees (a : StreamingAttachment) : Prop := {
  ag_terminal : sa_terminal_id a = ac_terminal_id c;
  ag_attachment : sa_attachment_id a = ac_attachment_id c;
  ag_lease : sa_lease_id a = ac_lease_id c;
  ag_ttl : is_Some (sa_lease_ttl a) -> ac_input_lease c = true
}.

Lemma send_all_out inputs a a' : send_all half failure inputs a = (a', Ok tt) -> exists ms, sa_out a' = sa_out a ++ ms.
Proof.
  revert a. induction inputs as [|[now data] inputs IH]; intros a; cbn [send_all].
  { intros [= <-]. exists []. by rewrite app_nil_r. }
  destruct (send_input half failure now data a) as [a1 [[]|e]] eqn:E; [|done]. intros Hs. destruct (IH _ Hs) as (ms & ->).
  destruct (user_quiet half "" "" failure now (UInput data) a a1 (Ok tt) E) as [_ _ _ (ms0 & -> & _)]. exists (ms0 ++ ms). by rewrite <- app_assoc.
Qed.

(** The handler goes through the commands of the client. *)
Lemma send_all_served inputs a a' s moments ms :
  agrees a -> holds c deadline (sa_next_sequence a) (sv_terminal s) ->
  send_all half failure inputs a = (a', Ok tt) -> sa_out a' = sa_out a ++ ms ->
  length moments = length ms -> Forall (timely deadline) moments ->
  exists t, serve c (zip (incoming ms) moments) s = (with_terminal t s, None) /\
    tm_written t = tm_written (sv_terminal s) ++ concat inputs.*2.
Proof.
  revert a s moments ms. induction inputs as [|[now data] inputs IH]; intros a s moments ms Hag Hh Hs Hms Hlen Hm; cbn [send_all] in Hs.
  { injection Hs as <-. rewrite <- (app_nil_r (sa_out a)) in Hms at 1. apply app_inv_head in Hms as <-. exists (sv_terminal s).
    cbn. rewrite app_nil_r. by destruct s. }
  destruct (send_input half failure now data a) as [a1 [[]|e]] eqn:E; [|done].
  unfold send_input, after_renewal in E. destruct (renew_lease_if_due half failure now a) as [a0 [[]|e]] eqn:Er; [|done].
  apply renewal_Ok in Er as (Hr0 & Hl0 & Ht0 & Hcase). apply numbered_Ok in E as (Ho1 & Hn1 & Hr1 & Hl1 & Ht1).
  destruct Hag as [Htid Haid Hlid Httl]. unfold sa_route in *. injection Hr0 as Htid0 Haid0. injection Hr1 as Htid1 Haid1.
  assert (Hag1 : agrees a1).
  { split; [congruence..|]. rewrite Ht1. destruct Ht0 as [->| ->]; [done|]. by intros [? ?]. }
  destruct (send_all_out inputs a1 a' Hs) as (ms1 & Hms1).
  rewrite Htid0, Haid0, Hl0, Htid, Haid, Hlid in Ho1.
  (* the input itself, then the rest *)
  assert (Hinput : forall s1 mo moments1, timely deadline mo -> Forall (timely deadline) moments1 -> length moments1 = length ms1 ->
    holds c deadline (sa_next_sequence a0) (sv_terminal s1) -> exists t,
    serve c (zip (incoming (mkCommand (ac_terminal_id c) (ac_lease_id c) (sa_next_sequence a0) (ac_attachment_id c) (Some (CInput data)) :: ms1))
      (mo :: moments1)) s1 = (with_terminal t s1, None) /\ tm_written t = tm_written (sv_terminal s1) ++ data ++ concat inputs.*2).
  { intros s1 mo moments1 Hmo Hmoments1 Hlen1 Hh1. destruct (input_turn c deadline owned mo _ data s1 Hmo Hh1) as (t & Hturn & Hwr & Hh2).
    rewrite <- Hn1 in Hh2. destruct (IH a1 (with_terminal t s1) moments1 ms1 Hag1 Hh2 Hs Hms1 Hlen1 Hmoments1) as (t' & Hserve & Hwr').
    exists t'. cbn [incoming fmap list_fmap zip zip_with serve]. rewrite Hturn. split; [exact Hserve|]. rewrite Hwr'. cbn. by rewrite Hwr, <- app_assoc. }
  destruct Hcase as [[Ho0 Hn0]|(Hsome & Hn0 & Ho0)].
  - rewrite Hms1, Ho1, Ho0, <- app_assoc in Hms. apply app_inv_head in Hms as <-. cbn in Hlen.
    destruct moments as [|mo moments]; [done|]. apply Forall_cons in Hm as [Hmo Hm]. injection Hlen as Hlen. apply Hinput; try done. by rewrite Hn0.
  - rewrite Hms1, Ho1, Ho0, <- !app_assoc in Hms. apply app_inv_head in Hms as <-. cbn in Hlen.
    destruct moments as [|mo0 [|mo moments]]; [done..|]. apply Forall_cons in Hm as [Hmo0 [Hmo Hm]%Forall_cons]. injection Hlen as Hlen.
    rewrite Htid, Haid, Hlid. destruct (renew_turn c deadline owned mo0 _ s (Httl Hsome) Hmo0 Hh) as (t0 & Hturn & Hwr & Hh1). rewrite <- Hn0 in Hh1.
    destruct (Hinput (with_terminal t0 s) mo moments Hmo Hm Hlen Hh1) as (t & Hserve & Hwr'). exists t. cbn [incoming fmap list_fmap app zip zip_with serve].
    rewrite Hturn. split; [exact Hserve|]. rewrite Hwr'. cbn. by rewrite Hwr.
Qed.
End run.

(** ** From the attach request on *)

(** A computation that leaves the terminal alone. *)
Definition keeps {A} (m : M A) : Prop := forall s, sv_terminal (m s).1 = sv_terminal s.
Section keeps.
Context `{AttachLib} `{SessionLib} (c : AttachConfig).
Lemma keeps_bind {A B} (m : M A) (f : A -> M B) : keeps m -> (forall a, keeps (f a)) -> keeps (m_bind m f).
Proof.
  intros Hm Hf s. specialize (Hm s). unfold m_bind. destruct (m s) as [s1 [a|e]]; [|done]. rewrite <- Hm. apply Hf.
Qed.
Lemma keeps_event e : keeps (write_terminal_event c e).
Proof. intros s. unfold write_terminal_event. by destruct (sv_writes s) as [[|n]|]. Qed.
Lemma keeps_events es : keeps (write_events c es).
Proof. induction es as [|e es IH]; [done|]. apply keeps_bind; [apply keeps_event|done]. Qed.
Lemma keeps_manager f : keeps (on_manager f).
Proof. intros s. unfold on_manager. by destruct (f (sv_manager s)). Qed.
Lemma keeps_sync {A} (f : _ -> _ * result A) : keeps (on_sync f).
Proof. intros s. unfold on_sync. by destruct (f (sv_state_sync s)). Qed.
Lemma keeps_response r : keeps (send_response r).
Proof. intros s. unfold send_response. by destruct (sv_writes s) as [[|n]|]. Qed.
Lemma keeps_live version mo request info attachment grant : keeps (attach_live c version mo request info attachment grant).
Proof.
  unfold attach_live. apply keeps_bind; [apply keeps_manager|intros _].
  apply keeps_bind; [by destruct (_ && _)|intros _]. apply keeps_bind; [done|intros initial].
  apply keeps_bind; [apply keeps_response|intros response].
  apply keeps_bind; [|intros _; apply keeps_bind; [done|intros _; apply keeps_bind; [apply keeps_manager|done]]].
  destruct initial as [state|]; [|done]. apply keeps_bind; [done|intros _]. apply keeps_bind.
  - apply keeps_bind; [done|intros chunks; apply keeps_events].
  - intros _. destruct (ac_datagram_state c); [by apply keeps_bind|]. destruct (ac_state_ack c); [apply keeps_sync|done].
Qed.
Lemma keeps_eq {A} (m : M A) s s' r : keeps m -> m s = (s', r) -> sv_terminal s' = sv_terminal s.
Proof. intros Hm E. specialize (Hm s). by rewrite E in Hm. Qed.
Lemma live_response version mo request info attachment grant s s' response :
  attach_live c version mo request info attachment grant s = (s', Ok response) ->
  ar_terminal response = Some info /\ ar_attachment response = Some (with_state Snapshotting attachment) /\
  ar_lease_id response = lg_lease_id grant /\ (lg_ttl grant = None -> ar_lease_ttl_ms response = 0).
Proof.
  unfold attach_live. intros Hl. do 3 apply m_bind_Ok in Hl as (? & ? & _ & Hl).
  apply m_bind_Ok in Hl as (? & resp & Hr & Hl). apply send_response_same in Hr as [_ Hr].
  do 3 apply m_bind_Ok in Hl as (? & ? & _ & Hl). injection Hl as _ <-. rewrite Hr. cbn. split_and!; try done. by intros ->.
Qed.
End keeps.

Lemma acquired canonical_uuid t takeover token ttl client now fresh_token fresh_id t' grant :
  acquire_resumable_lease_at canonical_uuid t false takeover token ttl client now fresh_token fresh_id = (t', Ok grant) ->
  lg_lease_id grant = fresh_id /\ lg_ttl grant = ttl /\
  exists l, tm_lease t' = Some l /\ ls_id l = fresh_id /\ ls_last_sequence l = 0 /\ ls_expires_at l = (fun d => now + d) <$> ttl.
Proof.
  unfold acquire_resumable_lease_at. repeat (case_match; try done). all: intros; simplify_eq; split_and!; try done.
  all: unfold install_lease; destruct (tm_lease (set_recovery _ _)); cbn; eauto 10.
Qed.

Section attached.
Context `{AttachLib} `{SessionLib} (half : N -> N).

(** The lease that was granted is the one the client uses. *)
Lemma attached_agrees np connection_id transport request info fresh mo s0 s c response now writes routes0 routes a :
  handle_attach_inner np connection_id transport request info fresh mo s0 = (s, Serving c response) ->
  attach_streaming half np request response now writes routes0 = (routes, Ok a) ->
  at_read_only request = false -> fr_lease fresh <> "" ->
  agrees c a /\ ac_lease_id c <> "" /\ holds c (mo_now mo + INPUT_LEASE_TTL) (sa_next_sequence a) (sv_terminal s) /\ sa_out a = [].
Proof.
  intros Hatt Hcl Hro Hfresh. unfold handle_attach_inner in Hatt. destruct (negb _ && negb _); [done|].
  destruct (register_attachment _ _ _ _ _ _) as [m [attachment|e]] eqn:Ereg; [|done].
  assert (Haid : ai_id attachment = fr_attachment fresh).
  { clear - Ereg. unfold register_attachment, fail_released in Ereg. repeat case_match; by simplify_eq. }
  destruct (acquire_resumable_lease_at _ _ _ _ _ _ _ _ _ _) as [t [grant|e]] eqn:Eacq; [|done].
  remember (attach_config _ _ _ _ _) as c' eqn:Hc'. destruct (attach_live c' _ _ _ _ _ _ _) as [s1 [resp|e]] eqn:El; [|done].
  destruct (attach_exited c' info s1) as [s2 [[]|e]] eqn:Ee; [done| |done]. injection Hatt as <- -> ->.
  apply attach_exited_same in Ee as ->.
  pose proof (keeps_eq _ _ _ _ (keeps_live c _ _ _ _ _ _) El) as Hkeep. cbn in Hkeep.
  apply live_response in El as (Hterm & Hattach & Hlease & Httl). rewrite Hro in Eacq. apply acquired in Eacq as (Hid & Hgt & l & Hl & Hli & Hls & Hle).
  rewrite <- Hkeep in Hl. clear Hkeep.
  unfold attach_streaming in Hcl. rewrite Hterm, Hattach in Hcl. cbn [ok_or] in Hcl.
  destruct (if negotiated_has np CAPABILITY_DATAGRAM_STATE 2 then _ else _) as [[route routes1]|] eqn:Ereq; [|done].
  ok_step Ereq. ok_step Ereq. cbn [mbind result_bind] in Ereq. ok_step Ereq. ok_inv Ereq. cbn [fst snd ai_id with_state] in Hcl.
  destruct (for_route _ _) as [rep|]; [|done]. injection Hcl as <- <-. cbn. rewrite Hid. split_and!; [|done| |done].
  - split; cbn; [done|done|congruence|]. intros [? Hsome]. destruct (negotiated_has np CAPABILITY_INPUT_LEASE 1); [done|].
    rewrite (Httl Hgt) in Hsome. cbn in Hsome. by rewrite andb_false_r in Hsome.
  - exists l. split_and!; [done|done|lia|]. intros d Hd. rewrite Hle in Hd. destruct (negotiated_has np CAPABILITY_INPUT_LEASE 1); [|done].
    injection Hd as <-. lia.
Qed.
End attached.


Definition ex_inputs : list (N * bytes) := [(1, [108; 115]); (9 * 1000000000, [10])].
Definition ex_typed : StreamingAttachment * result unit := send_all (fun n => n / 2) "closed" ex_inputs ex_client.
