(* ===== verification/LiveClient.v ===== *)
(** * Sessions that survive reconnection ([streaming_client.rs])

    A driver owns the attachment of a terminal, publishes its states and executes the
    actions of the user; when the attachment fails it attaches again.  The driver is a
    machine that makes one step per input: a call of the user, a poll of the
    attachment, an action taken from the queue, or the end of a recovery attempt.
    Every command that reaches a stream is kept with the incarnation of its
    attachment. *)
From S2P Require Import Prelude Text Resources Negotiation TerminalState TerminalSync Payload ViewportDelta.
From S2P Require Import Transfer DatagramV3 Streaming Lease Messages Sessions AttachServer AttachClient AttachNet.
Open Scope N_scope.

(** An [anyhow::Error]: an answer of the server with its code, or anything else. *)
Inductive Failure := ServerResponseError (code message : string) | OtherFailure (message : string).
Definition failure_text (f : Failure) : string :=
  match f with ServerResponseError _ m => m | OtherFailure m => m end.

Inductive ConnectionState :=
| CsSynchronizing
| CsLive (incarnation : N)
| CsRecovering (attempt retry_after : N) (reason : string).
#[global] Instance ConnectionState_eq_dec : EqDecision ConnectionState.
Proof. solve_decision. Defined.

Inductive ActionKind :=
| KInput (incarnation : N) (data : bytes)
| KResize (size : Size)
| KHistory (request : HistoryPageRequest)
| KDetach.
(** An action with the number of the call that waits for its reply. *)
Record Action := mkAction { an_kind : ActionKind; an_reply : N }.

Definition QUEUE : nat := 32.
Definition MAX_INPUT : N := 64 * 1024.

Record Driver := mkDriver {
  dv_request : AttachRequest;
  dv_commands : list Action;
  dv_states : option (State * TerminalStateDelivery);
  dv_status : ConnectionState;
  dv_events : list AttachmentEvent;
  dv_size : option Size;
  dv_incarnation : N
}.
Definition with_request (r : AttachRequest) (d : Driver) : Driver :=
  mkDriver r (dv_commands d) (dv_states d) (dv_status d) (dv_events d) (dv_size d) (dv_incarnation d).
Definition with_commands (l : list Action) (d : Driver) : Driver :=
  mkDriver (dv_request d) l (dv_states d) (dv_status d) (dv_events d) (dv_size d) (dv_incarnation d).
Definition with_published (s : option (State * TerminalStateDelivery)) (d : Driver) : Driver :=
  mkDriver (dv_request d) (dv_commands d) s (dv_status d) (dv_events d) (dv_size d) (dv_incarnation d).
Definition with_status (s : ConnectionState) (d : Driver) : Driver :=
  mkDriver (dv_request d) (dv_commands d) (dv_states d) s (dv_events d) (dv_size d) (dv_incarnation d).
Definition with_events (l : list AttachmentEvent) (d : Driver) : Driver :=
  mkDriver (dv_request d) (dv_commands d) (dv_states d) (dv_status d) l (dv_size d) (dv_incarnation d).
Definition with_size (s : option Size) (d : Driver) : Driver :=
  mkDriver (dv_request d) (dv_commands d) (dv_states d) (dv_status d) (dv_events d) s (dv_incarnation d).
Definition with_incarnation (n : N) (d : Driver) : Driver :=
  mkDriver (dv_request d) (dv_commands d) (dv_states d) (dv_status d) (dv_events d) (dv_size d) n.

Definition set_read_only (b : bool) (r : AttachRequest) : AttachRequest :=
  mkAttach (at_client_instance_id r) (at_terminal_id r) b (at_takeover r) (at_resume_token r) (at_workspace_id r).
Definition set_resume_token (t : string) (r : AttachRequest) : AttachRequest :=
  mkAttach (at_client_instance_id r) (at_terminal_id r) (at_read_only r) (at_takeover r) t (at_workspace_id r).

(** The bounds between which [retry_delay] draws, in milliseconds. *)
Definition retry_range (attempt : N) : N * N :=
  let ceiling := N.min (N.min (250 * N.shiftl 1 (N.min (attempt - 1) 5)) U64_MAX) 5000 in (ceiling / 2, ceiling).
Definition is_permanent_recovery_error (f : Failure) : bool :=
  match f with
  | ServerResponseError code _ =>
      negb (bool_decide (code ∈ ["quota_exceeded"; "lease_conflict"; "unavailable"; "busy"]%string))
  | OtherFailure _ => false
  end.

(** Where the task is: in the loop over an attachment, in a recovery attempt, or over. *)
Inductive Phase :=
| Running (attachment : StreamingAttachment)
| Recovering (attempt : N)
| Over (r : result unit).

(** [lv_wire] are the commands given to streams, [lv_requests] the attach requests of
    recovery attempts. *)
Record Live := mkLive {
  lv_driver : Driver;
  lv_phase : Phase;
  lv_routes : Routes;
  lv_wire : list (N * TerminalCommand);
  lv_requests : list AttachRequest;
  lv_replies : list (N * result unit);
  lv_calls : N
}.
Definition with_driver (d : Driver) (l : Live) : Live :=
  mkLive d (lv_phase l) (lv_routes l) (lv_wire l) (lv_requests l) (lv_replies l) (lv_calls l).
Definition with_phase (p : Phase) (l : Live) : Live :=
  mkLive (lv_driver l) p (lv_routes l) (lv_wire l) (lv_requests l) (lv_replies l) (lv_calls l).
Definition reply (id : N) (r : result unit) (l : Live) : Live :=
  mkLive (lv_driver l) (lv_phase l) (lv_routes l) (lv_wire l) (lv_requests l) (lv_replies l ++ [(id, r)]) (lv_calls l).
(** The attachment after one of its methods; its commands go out. *)
Definition ship (a : StreamingAttachment) (routes : Routes) (l : Live) : Live :=
  mkLive (lv_driver l) (Running (with_out [] (sa_writes a) a)) routes
    (lv_wire l ++ ((dv_incarnation (lv_driver l),.) <$> sa_out a)) (lv_requests l) (lv_replies l) (lv_calls l).

(** The task ends and drops its attachment. *)
Definition stop (r : result unit) (l : Live) : Live :=
  mkLive (lv_driver l) (Over r) (match lv_phase l with Running a => drop_streaming a (lv_routes l) | _ => lv_routes l end)
    (lv_wire l) (lv_requests l) (lv_replies l) (lv_calls l).

Section driver.
Context `{AttachLib} (half : N -> N).

(** ** The user's side *)

(** [LiveTerminal::submit]: the queue is bounded; the reply comes later. *)
Definition submit (kind : ActionKind) (l : Live) : Live * result N :=
  let d := lv_driver l in
  match lv_phase l with
  | Over _ => (l, Err "terminal command queue unavailable")
  | _ =>
      if (QUEUE <=? length (dv_commands d))%nat then (l, Err "terminal command queue unavailable")
      else
        let id := lv_calls l in
        (mkLive (with_commands (dv_commands d ++ [mkAction kind id]) d) (lv_phase l) (lv_routes l) (lv_wire l) (lv_requests l)
           (lv_replies l) (id + 1), Ok id)
  end.
(** [LiveTerminal::send_input]; the task runs between the look at the state, [seen], and
    the submission, so [seen] may be an older one. *)
Definition live_send_input (seen : ConnectionState) (data : bytes) (l : Live) : Live * result N :=
  if negb (llen data <=? MAX_INPUT) then (l, Err "input batch is too large")
  else match seen with
       | CsLive incarnation => submit (KInput incarnation data) l
       | _ => (l, Err "disconnected input discarded; input is never replayed")
       end.

(** ** Recovery *)

(** The start of an attempt, which sends the attach request after its delay. *)
Definition attempt_recovery (attempt delay : N) (f : Failure) (l : Live) : Live :=
  let d := with_status (CsRecovering attempt delay (failure_text f)) (lv_driver l) in
  mkLive d (Recovering attempt) (lv_routes l) (lv_wire l) (lv_requests l ++ [dv_request d]) (lv_replies l) (lv_calls l).
(** The attachment has failed and is dropped. *)
Definition lose (f : Failure) (delay : N) (l : Live) : Live :=
  let routes := match lv_phase l with Running a => drop_streaming a (lv_routes l) | _ => lv_routes l end in
  let l := mkLive (lv_driver l) (lv_phase l) routes (lv_wire l) (lv_requests l) (lv_replies l) (lv_calls l) in
  match checked_add U64_MAX (dv_incarnation (lv_driver l)) 1 with
  | None => stop (Err "connection incarnation overflow") l
  | Some incarnation => attempt_recovery 1 delay f (with_driver (with_incarnation incarnation (lv_driver l)) l)
  end.

(** The top of the loop of [run]: the size is sent again. *)
Definition start (failure : string) (now delay : N) (a : StreamingAttachment) (l : Live) : Live :=
  let l := with_phase (Running a) l in
  match dv_size (lv_driver l) with
  | Some size =>
      if at_read_only (dv_request (lv_driver l)) then l
      else match sa_resize half failure now size a with
           | (a, Ok _) => ship a (lv_routes l) l
           | (a, Err e) => lose (OtherFailure e) delay (ship a (lv_routes l) l)
           end
  | None => l
  end.

(** An attempt has ended; the queued actions were answered before. *)
Definition recovered (failure : string) (now delay : N) (attempt : N) (outcome : StreamingAttachment * AttachResponse + Failure)
    (l : Live) : Live :=
  match outcome with
  | inl (a, response) =>
      let d := lv_driver l in
      let d := with_request (set_resume_token (ar_resume_token response) (dv_request d)) d in
      start failure now delay a (with_driver (with_status CsSynchronizing d) l)
  | inr f =>
      if is_permanent_recovery_error f then stop (Err (failure_text f)) l
      else attempt_recovery (N.min (attempt + 1) U32_MAX) delay f l
  end.
(** An action while the terminal is disconnected. *)
Definition offline_action (action : Action) (l : Live) : Live :=
  match an_kind action with
  | KResize size => reply (an_reply action) (Ok tt) (with_driver (with_size (Some size) (lv_driver l)) l)
  | KDetach => stop (Err "terminal detached during recovery") (reply (an_reply action) (Ok tt) l)
  | KInput _ _ | KHistory _ =>
      reply (an_reply action) (Err "disconnected command discarded; input is never replayed") l
  end.

(** ** The loop over an attachment *)

Definition handle_attachment_event (event : AttachmentEvent) (l : Live) : Live :=
  let d := lv_driver l in
  match event with
  | AState state delivery =>
      with_driver (with_status (CsLive (dv_incarnation d)) (with_published (Some (state, delivery)) d)) l
  | _ =>
      let d := match event with
               | ALeaseChanged change => with_request (set_read_only (lc_read_only change) (dv_request d)) d
               | _ => d
               end in
      if (QUEUE <=? length (dv_events d))%nat
      then stop (Err "terminal control event consumer is too slow") (with_driver d l)
      else
        let l := with_driver (with_events (dv_events d ++ [event]) d) l in
        match event with AExited _ => stop (Ok tt) l | _ => l end
  end.
(** The poll of [next_event]. *)
Definition poll_attachment (failure : string) (delay : N) (script : list (N * AttachClient.Incoming)) (a : StreamingAttachment) (l : Live)
    : Live :=
  match next_event half failure script a (lv_routes l) with
  | (a, routes, None) => ship a routes l
  | (a, routes, Some (Ok event)) => handle_attachment_event event (ship a routes l)
  | (a, routes, Some (Err e)) => lose (OtherFailure e) delay (ship a routes l)
  end.

(** The result of a method goes to the caller; a failure ends the attachment. *)
Definition answered (id : N) (delay : N) (r : result unit) (l : Live) : Live :=
  match r with
  | Ok _ => reply id (Ok tt) l
  | Err e => lose (OtherFailure e) delay (reply id (Err e) l)
  end.
Definition online_action (failure : string) (drained : result unit) (now delay : N) (action : Action) (a : StreamingAttachment) (l : Live)
    : Live :=
  let d := lv_driver l in
  let perform (r : StreamingAttachment * result unit) l := answered (an_reply action) delay r.2 (ship r.1 (lv_routes l) l) in
  match an_kind action with
  | KInput incarnation data =>
      if negb (incarnation =? dv_incarnation d)
      then reply (an_reply action) (Err "stale input discarded after recovery") l
      else perform (send_input half failure now data a) l
  | KResize size =>
      let l := with_driver (with_size (Some size) d) l in
      if at_read_only (dv_request d) then reply (an_reply action) (Ok tt) l
      else perform (sa_resize half failure now size a) l
  | KHistory request => perform (request_history failure request a) l
  | KDetach =>
      let '(a, r) := detach failure drained a in
      stop (Ok tt) (reply (an_reply action) r (ship a (lv_routes l) l))
  end.

(** ** The machine *)

Inductive Input :=
| InSend (seen : ConnectionState) (data : bytes)
| InResize (size : Size)
| InHistory (request : HistoryPageRequest)
| InDetach
| InConsume
| InPoll (script : list (N * AttachClient.Incoming))
| InAction
| InOutcome (outcome : StreamingAttachment * AttachResponse + Failure).
(** What a step gets beside its input: the error of a writer that fails, how it is drained,
    the clock and the delay that is drawn. *)
Record Tick := mkTick { tk_failure : string; tk_drained : result unit; tk_now : N; tk_delay : N }.

Definition live_step (l : Live) (i : Input * Tick) : Live :=
  let '(i, t) := i in
  let d := lv_driver l in
  match i, lv_phase l with
  | InSend seen data, _ => (live_send_input seen data l).1
  | InResize size, _ => (submit (KResize size) l).1
  | InHistory request, _ => (submit (KHistory request) l).1
  | InDetach, _ => (submit KDetach l).1
  | InConsume, _ => with_driver (with_events (tail (dv_events d)) d) l
  | InPoll script, Running a => poll_attachment (tk_failure t) (tk_delay t) script a l
  | InAction, Running a =>
      match dv_commands d with
      | [] => l
      | action :: rest => online_action (tk_failure t) (tk_drained t) (tk_now t) (tk_delay t) action a (with_driver (with_commands rest d) l)
      end
  | InAction, Recovering _ =>
      match dv_commands d with
      | [] => l
      | action :: rest => offline_action action (with_driver (with_commands rest d) l)
      end
  | InOutcome outcome, Recovering attempt =>
      match dv_commands d with
      | [] => recovered (tk_failure t) (tk_now t) (tk_delay t) attempt outcome l
      | _ => l
      end
  | _, _ => l
  end.

(** [StreamingConnection::attach], of the answer to the first request. *)
Definition attached (request : AttachRequest) (a : StreamingAttachment) (response : AttachResponse) (routes : Routes) : result Live :=
  terminal ← ok_or (ar_terminal response) "missing terminal";
  let request := mkAttach (at_client_instance_id request) (ti_id terminal) (at_read_only request) false
                   (ar_resume_token response) (at_workspace_id request) in
  Ok (mkLive (mkDriver request [] None CsSynchronizing [] None 1) (Running a) routes [] [] [] 0).
Definition live_run (inputs : list (Input * Tick)) (l : Live) : Live := foldl live_step l inputs.
End driver.

(** ** Inputs on the wire *)

Definition typed (m : TerminalCommand) : option bytes :=
  match cm_command m with Some (CInput data) => Some data | _ => None end.
Definition wire_inputs (w : list (N * TerminalCommand)) : list (N * bytes) :=
  omap (fun p => (p.1,.) <$> typed p.2) w.
Definition queued_inputs (q : list Action) : list (N * bytes) :=
  omap (fun x => match an_kind x with KInput n data => Some (n, data) | _ => None end) q.

(** Commands without input. *)
Abbreviation silent := (Forall (fun m => typed m = None)).

Section wire.
Context `{AttachLib} (half : N -> N).

Lemma send_command_more failure sequence command a a' r :
  send_command failure sequence command a = (a', r) ->
  sa_out a' = sa_out a \/
  sa_out a' = sa_out a ++ [mkCommand (sa_terminal_id a) (sa_lease_id a) sequence (sa_attachment_id a) (Some command)].
Proof. unfold send_command. destruct (sa_writes a) as [[|n]|]; intros; simplify_eq; auto. Qed.
(** What a method adds to the stream. *)
Definition adds (P : list TerminalCommand -> Prop) (a a' : StreamingAttachment) : Prop :=
  exists ms, sa_out a' = sa_out a ++ ms /\ P ms.
Lemma adds_none a : adds silent a a.
Proof. exists []. by rewrite app_nil_r. Qed.
Lemma adds_same a a' : sa_out a' = sa_out a -> adds silent a a'.
Proof. intros Ho. exists []. by rewrite app_nil_r. Qed.
Lemma adds_trans (P : list TerminalCommand -> Prop) a b d : (forall l k, Forall (fun m => typed m = None) l -> P k -> P (l ++ k)) ->
  adds silent a b -> adds P b d -> adds P a d.
Proof.
  intros HP (l & Hl & Hs) (k & Hk & Hp). exists (l ++ k). rewrite Hk, Hl, <- app_assoc. split; [done|by apply HP].
Qed.
Lemma silent_trans a b d : adds silent a b -> adds silent b d -> adds silent a d.
Proof. apply adds_trans. intros. by apply Forall_app. Qed.
Lemma send_silent failure sequence command a a' r :
  (forall data, command <> CInput data) -> send_command failure sequence command a = (a', r) -> adds silent a a'.
Proof.
  intros Hc [Ho|Ho]%send_command_more; [by apply adds_same|]. eexists. split; [exact Ho|]. constructor; [|constructor].
  unfold typed. cbn. destruct command; try done. by edestruct Hc.
Qed.
Lemma numbered_silent failure command a a' r :
  (forall data, command <> CInput data) -> numbered failure command a = (a', r) -> adds silent a a'.
Proof.
  intros Hc. unfold numbered, take_sequence. destruct (checked_add _ _ _); [|intros [= <- <-]; apply adds_none].
  intros Hs. by apply send_silent in Hs.
Qed.
Lemma renew_silent failure now a a' r : renew_lease half failure now a = (a', r) -> adds silent a a'.
Proof.
  unfold renew_lease. destruct (sa_lease_ttl a); [|intros [= <- <-]; by apply adds_same].
  destruct (bool_decide _); [intros [= <- <-]; by apply adds_same|].
  destruct (numbered failure _ a) as [a1 r1] eqn:E. apply numbered_silent in E; [|done]. destruct r1; by intros [= <- <-].
Qed.
Lemma if_due_silent failure now a a' r : renew_lease_if_due half failure now a = (a', r) -> adds silent a a'.
Proof.
  unfold renew_lease_if_due. destruct (match sa_next_lease_renewal a with Some deadline => deadline <=? now | None => false end);
    [apply renew_silent|intros [= <- <-]; apply adds_none].
Qed.
Lemma after_silent failure now command a a' r :
  (forall data, command <> CInput data) -> after_renewal half failure now command a = (a', r) -> adds silent a a'.
Proof.
  intros Hc. unfold after_renewal. destruct (renew_lease_if_due half failure now a) as [a1 r1] eqn:E. apply if_due_silent in E.
  destruct r1; [|by intros [= <- <-]]. intros Hn. apply numbered_silent in Hn; [|done]. by eapply silent_trans.
Qed.
(** [send_input] adds its data at most once. *)
Lemma send_input_adds failure now data a a' r :
  send_input half failure now data a = (a', r) ->
  adds (fun ms => omap typed ms = [] \/ omap typed ms = [data]) a a'.
Proof.
  unfold send_input, after_renewal. destruct (renew_lease_if_due half failure now a) as [a1 r1] eqn:E. apply if_due_silent in E.
  assert (Hnil : forall l, Forall (fun m => typed m = None) l -> omap typed l = []).
  { induction 1 as [|m l Hm _ IH]; [done|]. cbn. by rewrite Hm. }
  destruct r1; [|intros [= <- <-]; destruct E as (ms & Ho & Hms); exists ms; auto].
  unfold numbered, take_sequence. intros Hn. eapply adds_trans; [|exact E|].
  { intros l k Hl Hk. cbn beta. rewrite omap_app, (Hnil l Hl). exact Hk. }
  destruct (checked_add _ _ _); [|injection Hn as <- <-; exists []; rewrite app_nil_r; auto].
  apply send_command_more in Hn as [Ho|Ho]; cbn in Ho; [exists []; rewrite app_nil_r; auto|]. eexists. split; [exact Ho|]. by right.
Qed.

Lemma ack_silent failure a a' r : send_state_ack failure a = (a', r) -> adds silent a a'.
Proof.
  unfold send_state_ack, send_state_control. destruct (state_ack _) as [ack|]; [|intros [= <- <-]; apply adds_none].
  destruct (send_command failure 0 (CStateAck ack) a) as [a1 r1] eqn:E. apply send_silent in E; [|done]. destruct r1; by intros [= <- <-].
Qed.
Lemma publish_silent failure d a a' r : publish_state failure d a = (a', r) -> adds silent a a'.
Proof.
  unfold publish_state. destruct (send_state_ack failure a) as [a1 r1] eqn:E. apply ack_silent in E. destruct r1; by intros [= <- <-].
Qed.
Lemma decoded_silent failure s a routes a' routes' r : apply_decoded failure s a routes = (a', routes', r) -> adds silent a a'.
Proof.
  unfold apply_decoded. destruct (apply_keyframe (sa_replica a) s) as [rep [[]|e]]; intros Hd; try (simplify_eq; by apply adds_same).
  - destruct (rep_current rep); [|simplify_eq; by apply adds_same].
    destruct (publish_state failure _ _) as [a1 r1] eqn:E. apply publish_silent in E. simplify_eq. exact E.
  - destruct (send_state_ack failure _) as [a1 r1] eqn:E. apply ack_silent in E. destruct r1; simplify_eq; exact E.
Qed.
Lemma finish_silent failure a routes a' routes' r : finish_decode failure a routes = (a', routes', r) -> adds silent a a'.
Proof.
  unfold finish_decode. destruct (sa_pending_decode a) as [[x k|x k]|]; [| |intros [= <- <- <-]; apply adds_none].
  - destruct (state_push x k) as [x' [[s|]|e]]; [|intros [= <- <- <-]; by apply adds_same..].
    intros Hd. apply decoded_silent in Hd. exact Hd.
  - destruct (page_push x k) as [x' [o|e]]; intros [= <- <- <-]; by apply adds_same.
Qed.
Lemma event_silent now e a a' r : handle_event half now e a = (a', r) -> adds silent a a'.
Proof.
  intros He. apply adds_same. unfold handle_event in He. destruct (validate_event_target e a); [|by simplify_eq].
  destruct (te_event e) as [[]|]; simplify_eq; try done. by destruct (_ || _).
Qed.
Lemma datagram_silent failure d a a' r : handle_datagram failure d a = (a', r) -> adds silent a a'.
Proof.
  unfold handle_datagram. destruct (apply_datagram (sa_replica a) d) as [rep [[]|e]]; intros Hd; try (simplify_eq; by apply adds_same).
  - apply publish_silent in Hd. exact Hd.
  - destruct (repair_request rep d); [|simplify_eq; by apply adds_same]. unfold send_state_control in Hd.
    destruct (send_command failure 0 _ _) as [a1 r1] eqn:E. apply send_silent in E; [|done]. destruct r1; simplify_eq; exact E.
Qed.
Lemma select_silent failure now i a routes a' routes' r : select_turn half failure now i a routes = (a', routes', r) -> adds silent a a'.
Proof.
  destruct i as [r0|[[[e|]|]|err]| |]; cbn [select_turn]; intros Hs; try (simplify_eq; apply adds_none).
  - destruct (handle_event half now e a) as [a1 r1] eqn:E. apply event_silent in E. by simplify_eq.
  - destruct (next_datagram _ _) as [routes1 [[d|msg]|]]; try (simplify_eq; apply adds_none).
    destruct (handle_datagram failure d a) as [a1 r1] eqn:E. apply datagram_silent in E. by simplify_eq.
  - destruct (renew_lease half failure now a) as [a1 r1] eqn:E. apply renew_silent in E. destruct r1; by simplify_eq.
Qed.
Lemma next_event_silent failure script a routes a' routes' r : next_event half failure script a routes = (a', routes', r) -> adds silent a a'.
Proof.
  revert a routes. induction script as [|[now i] script IH]; intros a routes; cbn [next_event];
    destruct (finish_decode failure a routes) as [[a1 routes1] r1] eqn:E; apply finish_silent in E;
    destruct r1 as [[ev|]|e]; try (intros; simplify_eq; exact E).
  destruct (select_turn half failure now i a1 routes1) as [[a2 routes2] r2] eqn:E2. apply select_silent in E2.
  pose proof (silent_trans _ _ _ E E2) as E3. destruct r2 as [[ev|]|e]; try (intros; simplify_eq; exact E3).
  intros Hn. apply IH in Hn. by eapply silent_trans.
Qed.
End wire.

(** ** The invariant of the machine *)

Section machine.
Context `{AttachLib} (half : N -> N).

(** The inputs of the user that were accepted, with the incarnation the user saw. *)
Definition accepted_now (l : Live) (i : Input) : list (N * bytes) :=
  match i with
  | InSend (CsLive n) data => match (live_send_input (CsLive n) data l).2 with Ok _ => [(n, data)] | Err _ => [] end
  | _ => []
  end.
Fixpoint accepted (inputs : list (Input * Tick)) (l : Live) : list (N * bytes) :=
  match inputs with
  | [] => []
  | i :: inputs => accepted_now l i.1 ++ accepted inputs (live_step half l i)
  end.
(** The token of the newest answer to an attach request. *)
Definition token_now (l : Live) (i : Input) (token : string) : string :=
  match i, lv_phase l, dv_commands (lv_driver l) with
  | InOutcome (inl (_, response)), Recovering _, [] => ar_resume_token response
  | _, _, _ => token
  end.
Fixpoint latest_token (inputs : list (Input * Tick)) (l : Live) (token : string) : string :=
  match inputs with
  | [] => token
  | i :: inputs => latest_token inputs (live_step half l i) (token_now l i.1 token)
  end.
(** A new attachment has not sent anything. *)
Definition fresh_input (i : Input) : Prop :=
  match i with InOutcome (inl (a, _)) => sa_out a = [] | _ => True end.

Context (first : AttachRequest).
Definition recovery_request (token : string) (r : AttachRequest) : Prop :=
  at_takeover r = false /\ at_terminal_id r = at_terminal_id first /\ at_workspace_id r = at_workspace_id first /\
  at_client_instance_id r = at_client_instance_id first /\ at_resume_token r = token.

Record live_inv (acc : list (N * bytes)) (token : string) (l : Live) : Prop := {
  li_inputs : sublist (wire_inputs (lv_wire l) ++ queued_inputs (dv_commands (lv_driver l))) acc;
  li_flushed : match lv_phase l with Running a => sa_out a = [] | _ => True end;
  li_status : forall n, dv_status (lv_driver l) = CsLive n -> n = dv_incarnation (lv_driver l) /\
    match lv_phase l with Recovering _ => False | _ => True end;
  li_request : recovery_request token (dv_request (lv_driver l));
  li_recovering : forall attempt, lv_phase l = Recovering attempt -> last (lv_requests l) = Some (dv_request (lv_driver l))
}.

Lemma wire_inputs_app w w' : wire_inputs (w ++ w') = wire_inputs w ++ wire_inputs w'.
Proof. apply omap_app. Qed.
Lemma wire_inputs_tagged n ms : wire_inputs ((n,.) <$> ms) = (n,.) <$> omap typed ms.
Proof.
  unfold wire_inputs. induction ms as [|m ms IH]; [done|]. cbn. destruct (typed m); cbn; by rewrite IH.
Qed.
Lemma silent_typed ms : Forall (fun m => typed m = None) ms -> omap typed ms = [].
Proof. induction 1 as [|m l Hm _ IH]; [done|]. cbn. by rewrite Hm. Qed.
Lemma ship_silent a routes l : Forall (fun m => typed m = None) (sa_out a) -> wire_inputs (lv_wire (ship a routes l)) = wire_inputs (lv_wire l).
Proof. intros Ha. cbn. by rewrite wire_inputs_app, wire_inputs_tagged, silent_typed, app_nil_r. Qed.
(** After a method that does not send input. *)
Lemma adds_flushed a a' : sa_out a = [] -> adds (Forall (fun m => typed m = None)) a a' -> Forall (fun m => typed m = None) (sa_out a').
Proof. intros Ho (ms & Hms & Hs). by rewrite Hms, Ho. Qed.

(** A step that does not touch the inputs. *)
Lemma inv_same acc token token' l l' :
  live_inv acc token l -> wire_inputs (lv_wire l') = wire_inputs (lv_wire l) -> dv_commands (lv_driver l') = dv_commands (lv_driver l) ->
  match lv_phase l' with Running a => sa_out a = [] | _ => True end ->
  (forall n, dv_status (lv_driver l') = CsLive n -> n = dv_incarnation (lv_driver l') /\ match lv_phase l' with Recovering _ => False | _ => True end) ->
  recovery_request token' (dv_request (lv_driver l')) ->
  (forall attempt, lv_phase l' = Recovering attempt -> last (lv_requests l') = Some (dv_request (lv_driver l'))) ->
  live_inv acc token' l'.
Proof. intros [Hi _ _ _ _] Hw Hc Hf Hs Hr Hv. split; [by rewrite Hw, Hc|done..]. Qed.

Lemma lose_inv acc token f delay l :
  live_inv acc token l -> live_inv acc token (lose f delay l).
Proof.
  intros Hinv. unfold lose. destruct (checked_add _ _ _) as [n|].
  - eapply inv_same; [exact Hinv|done|done|done|done|apply Hinv|]. cbn. intros _ _. by rewrite last_snoc.
  - eapply inv_same; [exact Hinv|done|done|done| |apply Hinv|done]. cbn. intros n Hn. by destruct (li_status _ _ _ Hinv n Hn).
Qed.
Lemma reply_inv acc token id r l : live_inv acc token l -> live_inv acc token (reply id r l).
Proof. intros [? ? ? ? ?]. by split. Qed.
Lemma stop_inv acc token r l : live_inv acc token l -> live_inv acc token (stop r l).
Proof.
  intros Hinv. eapply inv_same; [exact Hinv|done|done|done| |apply Hinv|done]. cbn. intros n Hn. by destruct (li_status _ _ _ Hinv n Hn).
Qed.
Lemma ship_inv acc token a a' routes l :
  live_inv acc token l -> lv_phase l = Running a -> adds (Forall (fun m => typed m = None)) a a' -> live_inv acc token (ship a' routes l).
Proof.
  intros Hinv Hp Ha. pose proof (li_flushed _ _ _ Hinv) as Hf. rewrite Hp in Hf.
  eapply inv_same; [exact Hinv|apply ship_silent; by eapply adds_flushed|done|done| |apply Hinv|done].
  cbn. intros n Hn. by destruct (li_status _ _ _ Hinv n Hn).
Qed.
Lemma start_inv acc token failure now delay a l :
  live_inv acc token (with_phase (Running a) l) -> live_inv acc token (start half failure now delay a l).
Proof.
  intros Hrun. unfold start. destruct (dv_size _) as [size|]; [|done]. destruct (at_read_only _); [done|].
  destruct (sa_resize half failure now size a) as [a' [u|e]] eqn:E; apply after_silent in E; try done;
    [|apply lose_inv]; by eapply ship_inv.
Qed.

(** ** The steps *)

(** An action leaves the queue. *)
Lemma pop_inv acc token l x rest :
  live_inv acc token l -> dv_commands (lv_driver l) = x :: rest -> live_inv acc token (with_driver (with_commands rest (lv_driver l)) l).
Proof.
  intros [Hi Hf Hs Hr Hv] Hc. split; [|done..]. etrans; [|exact Hi]. rewrite Hc. cbn.
  apply sublist_app; [done|]. destruct (an_kind x); cbn; try done. by constructor.
Qed.
(** A change of the driver that keeps the request's identity and the status. *)
Lemma size_inv acc token s l : live_inv acc token l -> live_inv acc token (with_driver (with_size s (lv_driver l)) l).
Proof. intros [? ? ? ? ?]. by split. Qed.
Lemma submit_cases kind l :
  (exists e, submit kind l = (l, Err e)) \/
  exists calls id, submit kind l = (mkLive (with_commands (dv_commands (lv_driver l) ++ [mkAction kind id]) (lv_driver l)) (lv_phase l)
    (lv_routes l) (lv_wire l) (lv_requests l) (lv_replies l) calls, Ok id).
Proof.
  unfold submit. destruct (lv_phase l); [| |by left; eexists]; destruct (QUEUE <=? _)%nat; [by left; eexists|by right; eexists _, _|by left; eexists|by right; eexists _, _].
Qed.
(** An action joins the queue. *)
Lemma enqueue_inv acc token kind l : live_inv acc token l ->
  live_inv (acc ++ match (submit kind l).2 with Ok _ => queued_inputs [mkAction kind 0] | Err _ => [] end) token (submit kind l).1.
Proof.
  intros Hinv. destruct (submit_cases kind l) as [[e ->]|(calls & id & ->)]; cbn [fst snd]; [by rewrite app_nil_r|].
  destruct Hinv as [Hi Hf Hs Hr Hv]. split; [|done..]. cbn [lv_driver lv_wire dv_commands with_commands]. unfold queued_inputs.
  rewrite omap_app, app_assoc. by apply sublist_app.
Qed.
Lemma submit_inv acc token kind l :
  (forall n data, kind <> KInput n data) -> live_inv acc token l -> live_inv acc token (submit kind l).1.
Proof.
  intros Hk Hinv. apply (enqueue_inv _ _ kind) in Hinv. destruct (submit kind l).2; [|by rewrite app_nil_r in Hinv].
  destruct kind; [by edestruct Hk|by rewrite app_nil_r in Hinv..].
Qed.
Lemma send_inv acc token seen data l :
  live_inv acc token l -> live_inv (acc ++ accepted_now l (InSend seen data)) token (live_send_input seen data l).1.
Proof.
  intros Hinv. unfold accepted_now, live_send_input. destruct (negb _); [destruct seen; by rewrite app_nil_r|].
  destruct seen as [|n|]; [by rewrite app_nil_r|by apply (enqueue_inv _ _ (KInput n data))|by rewrite app_nil_r].
Qed.
Lemma answered_inv acc token id delay r l : live_inv acc token l -> live_inv acc token (answered id delay r l).
Proof. intros Hinv. destruct r; cbn; [by apply reply_inv|]. by apply lose_inv, reply_inv. Qed.
Lemma event_inv acc token event l a : lv_phase l = Running a -> live_inv acc token l -> live_inv acc token (handle_attachment_event event l).
Proof.
  intros Hp Hinv.
  assert (Hd : forall d' : Driver, dv_commands d' = dv_commands (lv_driver l) -> dv_incarnation d' = dv_incarnation (lv_driver l) ->
    (dv_status d' = dv_status (lv_driver l) \/ dv_status d' = CsLive (dv_incarnation d')) ->
    recovery_request token (dv_request d') -> live_inv acc token (with_driver d' l)).
  { intros d' Hc Hn Hs Hr. eapply inv_same; [exact Hinv|done|done|cbn; apply Hinv| |done|cbn; by rewrite Hp].
    cbn. rewrite Hp. intros n Hl. split; [|done]. destruct Hs as [Hs|Hs]; [|congruence].
    rewrite Hn. by destruct (li_status _ _ _ Hinv n) as [? _]; [congruence|]. }
  pose proof (li_request _ _ _ Hinv) as Hr.
  destruct event; cbn [handle_attachment_event]; [apply Hd; [done|done|by right|done]|..];
    (case_match; [apply stop_inv|try apply stop_inv]; apply Hd; first [exact Hr|by left|reflexivity]).
Qed.
Lemma poll_inv acc token failure delay script a l :
  live_inv acc token l -> lv_phase l = Running a -> live_inv acc token (poll_attachment half failure delay script a l).
Proof.
  intros Hinv Hp. unfold poll_attachment. destruct (next_event half failure script a (lv_routes l)) as [[a' routes] r] eqn:E.
  apply next_event_silent in E. pose proof (ship_inv _ _ _ _ routes _ Hinv Hp E) as Hship.
  destruct r as [[event|e]|]; [by eapply event_inv|by apply lose_inv|done].
Qed.
Lemma offline_inv acc token action l : live_inv acc token l -> live_inv acc token (offline_action action l).
Proof.
  intros Hinv. unfold offline_action. destruct (an_kind action); try (by apply reply_inv); [by apply reply_inv, size_inv|by apply stop_inv, reply_inv].
Qed.
Lemma recovered_inv acc token failure now delay attempt outcome l :
  live_inv acc token l -> fresh_input (InOutcome outcome) ->
  live_inv acc (match outcome with inl (_, response) => ar_resume_token response | inr _ => token end)
    (recovered half failure now delay attempt outcome l).
Proof.
  intros Hinv Ho. destruct outcome as [[a response]|f]; cbn [recovered].
  - apply start_inv. destruct (li_request _ _ _ Hinv) as (? & ? & ? & ? & _).
    eapply inv_same; [exact Hinv|done|done|exact Ho|done|by split_and!|done].
  - destruct (is_permanent_recovery_error f); [by apply stop_inv|].
    eapply inv_same; [exact Hinv|done|done|done|done|apply Hinv|]. cbn. intros _ _. by rewrite last_snoc.
Qed.
(** Input that is executed moves from the queue to the wire of its own incarnation. *)
Lemma input_inv acc token failure now incarnation data id rest a l a' r :
  live_inv acc token l -> lv_phase l = Running a -> dv_commands (lv_driver l) = mkAction (KInput incarnation data) id :: rest ->
  incarnation = dv_incarnation (lv_driver l) -> send_input half failure now data a = (a', r) ->
  live_inv acc token (ship a' (lv_routes l) (with_driver (with_commands rest (lv_driver l)) l)).
Proof.
  intros [Hi Hf Hs Hr Hv] Hp Hc -> Hsend. rewrite Hp in Hf. apply send_input_adds in Hsend as (ms & Ho & Hms). rewrite Hf in Ho. cbn in Ho.
  split; cbn; [|done| |done|done]; [|by intros n Hn; destruct (Hs n Hn)].
  rewrite Hc in Hi. cbn in Hi. rewrite wire_inputs_app, wire_inputs_tagged, Ho, <- app_assoc. etrans; [|exact Hi].
  apply sublist_app; [done|]. destruct Hms as [-> | ->]; cbn; [by constructor|done].
Qed.
Lemma online_inv acc token failure drained now delay action rest a l :
  live_inv acc token l -> lv_phase l = Running a -> dv_commands (lv_driver l) = action :: rest ->
  live_inv acc token (online_action half failure drained now delay action a (with_driver (with_commands rest (lv_driver l)) l)).
Proof.
  intros Hinv Hp Hc. pose proof (pop_inv _ _ _ _ _ Hinv Hc) as Hpop. destruct action as [[n data|size|request|] id]; unfold online_action; cbn [an_kind an_reply].
  - destruct (N.eqb_spec n (dv_incarnation (lv_driver (with_driver (with_commands rest (lv_driver l)) l)))) as [He|He]; cbn [negb];
      [|by apply reply_inv].
    apply answered_inv. destruct (send_input half failure now data a) as [a' r] eqn:E. exact (input_inv _ _ _ _ _ _ _ _ _ _ _ _ Hinv Hp Hc He E).
  - apply (size_inv _ _ (Some size)) in Hpop. case_match; [by apply reply_inv|]. apply answered_inv.
    destruct (sa_resize half failure now size a) as [a' r] eqn:E. apply after_silent in E; [|done]. by eapply ship_inv.
  - apply answered_inv. destruct (request_history failure request a) as [a' r] eqn:E. apply numbered_silent in E; [|done]. by eapply ship_inv.
  - destruct (detach failure drained a) as [a' r] eqn:E. apply stop_inv, reply_inv. unfold detach in E.
    destruct (send_command failure 0 (CDetach true) a) as [b [u|e]] eqn:Es; apply send_silent in Es; try done; simplify_eq; by eapply ship_inv.
Qed.
Lemma step_inv acc token l i : live_inv acc token l -> fresh_input i.1 ->
  live_inv (acc ++ accepted_now l i.1) (token_now l i.1 token) (live_step half l i).
Proof.
  intros Hinv Hi. destruct i as [[seen data|size|request| | |script| |outcome] t]; cbn [fst live_step] in *;
    [by apply send_inv|cbn [accepted_now token_now]; rewrite app_nil_r..].
  - by apply submit_inv.
  - by apply submit_inv.
  - by apply submit_inv.
  - by destruct Hinv.
  - destruct (lv_phase l) eqn:Hp; try done. by apply poll_inv.
  - destruct (lv_phase l) eqn:Hp; [| |done]; destruct (dv_commands (lv_driver l)) as [|x rest] eqn:Hc; try done;
      [by apply online_inv|]. by eapply offline_inv, pop_inv.
  - unfold token_now. destruct (lv_phase l) eqn:Hp, (dv_commands (lv_driver l)) eqn:Hc, outcome as [[b response]|f]; try done;
      by apply (recovered_inv _ _ _ _ _ _ _ _ Hinv Hi).
Qed.
Lemma run_inv inputs acc token l : live_inv acc token l -> Forall (fun i => fresh_input i.1) inputs ->
  live_inv (acc ++ accepted inputs l) (latest_token inputs l token) (live_run half inputs l).
Proof.
  revert acc token l. induction inputs as [|i inputs IH]; intros acc token l Hinv Hi; cbn [accepted latest_token]; [by rewrite app_nil_r|].
  apply Forall_cons in Hi as [Hi Hr]. rewrite app_assoc. unfold live_run. cbn [foldl]. exact (IH _ _ _ (step_inv _ _ _ _ Hinv Hi) Hr).
Qed.

(** ** Replies *)

(** The calls that were answered and those that wait, in the order of the calls. *)
Definition settled (l : Live) : Prop :=
  (lv_replies l).*1 ++ (an_reply <$> dv_commands (lv_driver l)) = N.of_nat <$> seq 0 (N.to_nat (lv_calls l)).
(** Nothing was answered or submitted. *)
Definition still (l l' : Live) : Prop :=
  lv_replies l' = lv_replies l /\ dv_commands (lv_driver l') = dv_commands (lv_driver l) /\ lv_calls l' = lv_calls l.
Lemma still_settled l l' : still l l' -> settled l -> settled l'.
Proof. unfold settled. intros (-> & -> & ->). done. Qed.
Lemma still_trans l l' l'' : still l l' -> still l' l'' -> still l l''.
Proof. unfold still. intros (? & ? & ?) (? & ? & ?). split_and!; congruence. Qed.
Lemma lose_still f delay l : still l (lose f delay l).
Proof. unfold lose. by destruct (checked_add _ _ _). Qed.
Lemma start_still failure now delay a l : still l (start half failure now delay a l).
Proof.
  unfold start. destruct (dv_size _); [|done]. destruct (at_read_only _); [done|]. destruct (sa_resize _ _ _ _ _) as [b [u|e]]; [done|].
  apply (lose_still _ _ (ship b _ (with_phase _ l))).
Qed.
Lemma event_still event l : still l (handle_attachment_event event l).
Proof. destruct event; cbn [handle_attachment_event]; [done|..]; by case_match. Qed.
Lemma poll_still failure delay script a l : still l (poll_attachment half failure delay script a l).
Proof.
  unfold poll_attachment. destruct (next_event _ _ _ _ _) as [[b routes] [[event|e]|]]; [| |done].
  - apply (event_still event (ship b routes l)).
  - apply (lose_still _ _ (ship b routes l)).
Qed.
Lemma recovered_still failure now delay attempt outcome l : still l (recovered half failure now delay attempt outcome l).
Proof.
  destruct outcome as [[a response]|f]; cbn [recovered]; [|by destruct (is_permanent_recovery_error f)].
  eapply (still_trans _ (with_driver _ l)); [|apply start_still]. done.
Qed.
(** The action at the head of the queue gets its reply. *)
Definition replied (id : N) (l l' : Live) : Prop :=
  (lv_replies l').*1 = (lv_replies l).*1 ++ [id] /\ dv_commands (lv_driver l') = dv_commands (lv_driver l) /\ lv_calls l' = lv_calls l.
Lemma reply_replied id r l : replied id l (reply id r l).
Proof. unfold replied. cbn. by rewrite fmap_app. Qed.
Lemma replied_still id l l' l'' : replied id l l' -> still l' l'' -> replied id l l''.
Proof. unfold replied. intros (Hr & Hc & Hn) (-> & -> & ->). done. Qed.
Lemma still_replied id l l' l'' : still l l' -> replied id l' l'' -> replied id l l''.
Proof. unfold replied. intros (<- & <- & <-). done. Qed.
Lemma answered_replied id delay r l : replied id l (answered id delay r l).
Proof.
  destruct r as [u|e]; cbn [answered]; [apply reply_replied|]. eapply replied_still; [apply reply_replied|apply lose_still].
Qed.
Lemma online_replied failure drained now delay action a l : replied (an_reply action) l (online_action half failure drained now delay action a l).
Proof.
  unfold online_action. destruct (an_kind action).
  - case_match; [apply reply_replied|]. eapply still_replied; [|apply answered_replied]. done.
  - case_match; (eapply still_replied; [|apply reply_replied || apply answered_replied]); done.
  - eapply still_replied; [|apply answered_replied]. done.
  - destruct (detach failure drained a) as [b r]. eapply replied_still; [eapply still_replied; [|apply reply_replied]|]; done.
Qed.
Lemma offline_replied action l : replied (an_reply action) l (offline_action action l).
Proof.
  unfold offline_action. destruct (an_kind action); try apply reply_replied. eapply still_replied; [|apply reply_replied]. done.
Qed.
Lemma replied_settled action rest l l' : settled l -> dv_commands (lv_driver l) = action :: rest ->
  replied (an_reply action) (with_driver (with_commands rest (lv_driver l)) l) l' -> settled l'.
Proof. unfold settled. intros Hs Hc (-> & -> & ->). cbn. rewrite <- Hs, Hc, <- app_assoc. done. Qed.
Lemma submit_settled kind l : settled l -> settled (submit kind l).1.
Proof.
  unfold settled, submit. intros Hs. destruct (lv_phase l); [| |done]; (destruct (QUEUE <=? _)%nat; [done|]); cbn;
    rewrite fmap_app, app_assoc, Hs, N.add_1_r, N2Nat.inj_succ, seq_S, fmap_app; cbn; by rewrite N2Nat.id.
Qed.
Lemma send_settled seen data l : settled l -> settled (live_send_input seen data l).1.
Proof. intros Hs. unfold live_send_input. destruct (negb _); [done|]. destruct seen; [done| |done]. by apply submit_settled. Qed.
Lemma step_settled l i : settled l -> settled (live_step half l i).
Proof.
  intros Hs. destruct i as [[seen data|size|request| | |script| |outcome] t]; cbn [live_step];
    [by apply send_settled|by apply submit_settled..|done| | |]; destruct (lv_phase l); try done.
  - eapply still_settled; [apply poll_still|done].
  - destruct (dv_commands (lv_driver l)) as [|x rest] eqn:Hc; [done|]. eapply replied_settled; [done|exact Hc|apply online_replied].
  - destruct (dv_commands (lv_driver l)) as [|x rest] eqn:Hc; [done|]. eapply replied_settled; [done|exact Hc|apply offline_replied].
  - destruct (dv_commands (lv_driver l)); [|done]. eapply still_settled; [apply recovered_still|done].
Qed.
Lemma run_settled inputs l : settled l -> settled (live_run half inputs l).
Proof. revert l. induction inputs as [|i inputs IH]; intros l Hs; [done|]. exact (IH _ (step_settled _ _ Hs)). Qed.
End machine.

(** The delay of an attempt doubles up to five seconds and is drawn from its upper half. *)
Lemma retry_range_bounds attempt : 125 <= (retry_range attempt).1 <= (retry_range attempt).2 /\ (retry_range attempt).2 <= 5000.
Proof.
  unfold retry_range. cbn [fst snd]. set (k := N.min (attempt - 1) 5). assert (Hk : 1 <= N.shiftl 1 k).
  { rewrite N.shiftl_1_l. pose proof (N.pow_nonzero 2 k). lia. }
  unfold U64_MAX. set (c := N.min _ 5000). assert (Hc : 250 <= c <= 5000) by lia.
  split; [|lia]. split; [|by apply N.Div0.div_le_upper_bound; lia]. apply (N.Div0.div_le_mono 250 c 2). lia.
Qed.

Section sessions.
Context `{AttachLib} (half : N -> N).

(** C3: Whatever the user, the network and the server do after a terminal was attached, input is never replayed: what
    reached streams is, in order, a part of what was accepted, and every input goes only to the attachment of the
    incarnation that the user saw when it was typed, also when the attachment was replaced before the submission.
    Every call is answered at most once and in the order of the calls.  A state [Live] names the incarnation of the
    attachment that runs, and while the driver recovers it asks for the terminal, workspace and client of the first
    request with the newest resume token and never for a takeover. *)
Theorem reconnection_never_replays request a response routes l inputs :
  attached request a response routes = Ok l -> sa_out a = [] -> Forall (fun i => fresh_input i.1) inputs ->
  let l' := live_run half inputs l in
  sublist (wire_inputs (lv_wire l')) (accepted half inputs l) /\
  (exists waiting, (lv_replies l').*1 ++ waiting = N.of_nat <$> seq 0 (N.to_nat (lv_calls l'))) /\
  (forall n, dv_status (lv_driver l') = CsLive n -> n = dv_incarnation (lv_driver l')) /\
  (forall attempt, lv_phase l' = Recovering attempt -> exists again, last (lv_requests l') = Some again /\
    (forall n, dv_status (lv_driver l') <> CsLive n) /\ at_takeover again = false /\
    (exists info, ar_terminal response = Some info /\ at_terminal_id again = ti_id info) /\
    at_workspace_id again = at_workspace_id request /\ at_client_instance_id again = at_client_instance_id request /\
    at_resume_token again = latest_token half inputs l (ar_resume_token response)).
Proof.
  unfold attached. destruct (ar_terminal response) as [info|]; [|done]. intros [= El] Ho Hi. set (l' := live_run half inputs l).
  assert (Hl : live_inv (dv_request (lv_driver l)) [] (ar_resume_token response) l) by (subst l; split; done).
  assert (Hset : settled l) by (by subst l). apply (run_settled half inputs) in Hset.
  destruct (run_inv half _ inputs _ _ _ Hl Hi) as [Hw _ Hs Hr Hv]. fold l' in Hset, Hw, Hs, Hr, Hv.
  split_and!; [by etrans; [by apply sublist_inserts_r|exact Hw]|by eexists|by intros n Hn; apply Hs|].
  intros attempt Hp. exists (dv_request (lv_driver l')). rewrite Hp in Hs. destruct Hr as (? & Ht & Hk & Hc & ?). rewrite <- El in Ht, Hk, Hc.
  split_and!; try done; [by eapply Hv|by intros n Hn; destruct (Hs n Hn)|by exists info].
Qed.
End sessions.

(** ** A session with a recovery: input reaches the first attachment, is discarded while the
    terminal is disconnected, and input that was typed before the recovery is stale after
    it. *)
#[local] Existing Instance ex_attach_lib.
Definition ex_session : Live :=
  match attached ex_request ex_client ex_response ex_joined.1 with
  | Ok l => l
  | Err _ => mkLive (mkDriver ex_request [] None CsSynchronizing [] None 1) (Over (Ok tt)) ∅ [] [] [] 0
  end.
Definition ex_again : AttachResponse :=
  mkAttachResponse (ar_terminal ex_response) (ar_lease_id ex_response) false "k-2" None (ar_attachment ex_response)
    (ar_lease_ttl_ms ex_response) 2.
Definition ex_session_inputs : list (Input * Tick) :=
  (., mkTick "closed" (Ok tt) 1 250) <$>
    [ InPoll [(0, IReliable (Ok (Some (Some ex_event))))]; InSend (CsLive 1) [108; 115]; InAction;
      InPoll [(1, IReliable (Err "reset"))]; InSend (CsLive 1) [10]; InAction; InOutcome (inl (ex_client, ex_again));
      InSend (CsLive 1) [13]; InAction; InPoll [(2, IReliable (Err "reset"))] ].
Lemma reconnection_never_replays_witness :
  wire_inputs (lv_wire (live_run (fun n => n / 2) ex_session_inputs ex_session)) = [(1, [108; 115])] /\
  accepted (fun n => n / 2) ex_session_inputs ex_session = [(1, [108; 115]); (1, [10]); (1, [13])] /\
  exists again, last (lv_requests (live_run (fun n => n / 2) ex_session_inputs ex_session)) = Some again /\
    at_takeover again = false /\ at_resume_token again = "k-2"%string.
Proof.
  split; [vm_compute; reflexivity|]. split; [vm_compute; reflexivity|].
  destruct (@reconnection_never_replays ex_attach_lib (fun n => n / 2) ex_request ex_client ex_response ex_joined.1 ex_session ex_session_inputs)
    as (_ & _ & _ & Hrec).
  - vm_compute. reflexivity.
  - vm_compute. reflexivity.
  - repeat constructor.
  - destruct (Hrec 1 ltac:(vm_compute; reflexivity)) as (again & Hl & _ & Ht & _ & _ & _ & Hk). exists again.
    split; [exact Hl|]. split; [exact Ht|]. rewrite Hk. vm_compute. reflexivity.
Defined.
