(* ===== verification/FileReads.v ===== *)
(** * The file service ([files.rs]): reading, the tree, Git status and watches

    The operations of a worker's file service beside the uploads of [Files].  Those
    that only read look at a [Disk], the file system with the attributes that the
    operating system reports; those that change the tree are [FileM] computations.
    Which system calls fail is given by an [Io] argument, as in [Files].  Output of
    Git and events of the watcher are arguments. *)
From S2P Require Import Prelude Text Resources TerminalState Payload Negotiation Files Messages.
Open Scope N_scope.

Definition FILE_PROTOCOL_VERSION : N := 1.
Definition MAX_DIRECTORY_PAGE_SIZE : N := 500.
Definition MAX_GIT_STATUS_SIZE : N := 4 * 1024 * 1024.
Definition MAX_GIT_STATUS_ENTRIES : N := 20000.
Definition MAX_WATCHED_FILES : N := 128.
Definition MAX_RECURSIVE_WATCH_ROOTS : N := 8.
Definition MAX_PENDING_FILE_EVENTS : nat := 4096.
Definition MAX_FILE_CHANGES_PER_EVENT : nat := 1024.

(** ** Messages ([protocol.rs]) *)

Record FileCapabilitiesResponse := mkFileCapabilities {
  fp_version : N; fp_max_chunk_size : N; fp_resumable_uploads : bool; fp_atomic_upload_commit : bool;
  fp_chunk_sha256 : bool; fp_file_watch_events : bool; fp_recursive_file_watch_events : bool }.
Inductive FileKind := FkUnspecified | FkRegular | FkDirectory | FkSymlink | FkOther.
#[global] Instance FileKind_eq_dec : EqDecision FileKind.
Proof. solve_decision. Defined.
Definition file_kind_i32 (k : FileKind) : Z :=
  match k with FkUnspecified => 0 | FkRegular => 1 | FkDirectory => 2 | FkSymlink => 3 | FkOther => 4 end.
Definition file_kind_try_from (n : Z) : option FileKind :=
  match n with
  | 0%Z => Some FkUnspecified | 1%Z => Some FkRegular | 2%Z => Some FkDirectory | 3%Z => Some FkSymlink | 4%Z => Some FkOther
  | _ => None
  end.
Record FileMetadata := mkFileMetadata {
  fm_path : bytes; fm_name : bytes; fm_kind : Z; fm_size : N; fm_mode : N; fm_modified_unix_ns : Z }.
Record FileListResponse := mkFileListing { fr_entries : list FileMetadata; fr_next_cursor : bytes }.
Record BeginDownloadResponse := mkDownload {
  dl_metadata : option FileMetadata; dl_snapshot : bytes; dl_sha256 : bytes; dl_max_chunk_size : N }.
Record GitFileStatus := mkGitFile {
  gf_path : bytes; gf_index_status : text; gf_worktree_status : text; gf_original_path : bytes }.
Record GitStatusResponse := mkGitResponse {
  gr_repository_root : bytes; gr_branch : text; gr_detached : bool; gr_ahead : N; gr_behind : N;
  gr_files : list GitFileStatus }.
Record FileChange := mkFileChange { ch_path : bytes; ch_kind : string }.
Record FileChangesResponse := mkFileChanges { cs_changes : list FileChange; cs_rescan_required : bool }.

(** ** The disk *)

(** [fs::Metadata] *)
Record Metadata := mkMetadata {
  mt_kind : FileKind; mt_len : N; mt_mode : N; mt_dev : N; mt_ino : N; mt_mtime : Z; mt_mtime_nsec : Z }.
(** What the operating system reports of a node; the length of a file is the one of its
    content. *)
Record Attributes := mkAttributes {
  ab_len : N; ab_mode : N; ab_dev : N; ab_ino : N; ab_mtime : Z; ab_mtime_nsec : Z }.
Record Disk := mkDisk { dk_fs : FileSystem; dk_attributes : Path -> Attributes }.

Definition node_metadata (node : Node) (a : Attributes) : Metadata :=
  let '(kind, len, mode) := match node with
                            | NFile content mode => (FkRegular, llen content, mode)
                            | NDir => (FkDirectory, ab_len a, ab_mode a)
                            | NLink _ => (FkSymlink, ab_len a, ab_mode a)
                            | NOther => (FkOther, ab_len a, ab_mode a)
                            end in
  mkMetadata kind len mode (ab_dev a) (ab_ino a) (ab_mtime a) (ab_mtime_nsec a).
(** [fs::symlink_metadata] *)
Definition symlink_metadata (d : Disk) (p : Path) : option Metadata :=
  (fun node => node_metadata node (dk_attributes d p)) <$> dk_fs d !! p.
(** Where a path leads through at most [fuel] links, as [follow]. *)
Fixpoint followed (fuel : nat) (fs : FileSystem) (p : Path) : Path :=
  match fs !! p with
  | Some (NLink q) => match fuel with O => p | S fuel => followed fuel fs q end
  | _ => p
  end.
(** [fs::metadata] *)
Definition disk_metadata (d : Disk) (p : Path) : option Metadata :=
  (fun node => node_metadata node (dk_attributes d (followed 40 (dk_fs d) p))) <$> path_metadata (dk_fs d) p.

(** [Path::as_os_str().as_bytes()] *)
Definition path_bytes (p : Path) : bytes :=
  match p with [] => [47] | _ => concat ((fun name => 47 :: name) <$> p) end.

(** [i64] operations that saturate. *)
Definition saturate_i64 (n : Z) : Z := Z.max (- 2 ^ 63) (Z.min n (2 ^ 63 - 1)).
(** [to_be_bytes] of a 64-bit value. *)
Definition be64 (n : N) : bytes :=
  (fun k => N.shiftr n (8 * k) mod 256) <$> [7; 6; 5; 4; 3; 2; 1; 0].
Definition be_i64 (n : Z) : bytes := be64 (Z.to_N (n mod 2 ^ 64)).

Definition file_metadata (path : Path) (m : Metadata) : FileMetadata :=
  mkFileMetadata (path_bytes path) (match last path with Some name => name | None => path_bytes path end)
    (file_kind_i32 (mt_kind m)) (mt_len m) (N.land (mt_mode m) 4095)
    (saturate_i64 (saturate_i64 (mt_mtime m * 1000000000) + mt_mtime_nsec m)).

(** Calls of an operation that only reads. *)
Definition system_call (io : Io) (k : nat) (action : string) : outcome FileServiceError () :=
  match io_fault io k with Some code => refuse code action | None => Returned tt end.
Definition check (b : bool) (code message : string) : outcome FileServiceError () :=
  if b then Returned tt else refuse code message.
Definition found {A} (o : option A) (action : string) : outcome FileServiceError A :=
  match o with Some a => Returned a | None => refuse "not_found" action end.

(** The order of byte strings. *)
Fixpoint bytes_leb (a b : bytes) : bool :=
  match a, b with
  | [], _ => true
  | _ :: _, [] => false
  | x :: a, y :: b => (x <? y) || ((x =? y) && bytes_leb a b)
  end.
Definition bytes_le (a b : bytes) : Prop := bytes_leb a b = true.
#[global] Instance bytes_le_dec : RelDecision bytes_le := fun a b => decide (bytes_leb a b = true).

Section reads.
Context `{PayloadLib}.
Variable canonicalize : FileSystem -> Path -> FileServiceError + Path.

(** ** Metadata and listings *)

Definition capabilities : FileCapabilitiesResponse :=
  mkFileCapabilities FILE_PROTOCOL_VERSION MAX_FILE_CHUNK_SIZE true true true true true.

Definition stat (io : Io) (root : Path) (d : Disk) (request : FileStatRequest) : outcome FileServiceError FileMetadata :=
  path ← resolve_existing canonicalize (dk_fs d) root (fs_path request) (fs_follow_symlinks request);
  _ ← system_call io 0 "cannot stat";
  metadata ← found (if fs_follow_symlinks request then disk_metadata d path else symlink_metadata d path) "cannot stat";
  Returned (file_metadata path metadata).

(** [fs::read_dir], the names in the order of the system. *)
Definition read_dir (fs : FileSystem) (directory : Path) : list bytes :=
  omap (fun p => match split_last p with
                 | Some (parent, name) => if decide (parent = directory) then Some name else None
                 | None => None
                 end) (map_to_list fs).*1.
Definition page_limit (limit : N) : N := if limit =? 0 then 100 else N.min limit MAX_DIRECTORY_PAGE_SIZE.

(** The loop over the sorted entries, with the page so far; the answer says whether there
    are more. *)
Fixpoint fill_page (io : Io) (d : Disk) (directory : Path) (cursor : bytes) (limit : N) (names : list bytes)
    (page : list FileMetadata) : outcome FileServiceError (list FileMetadata * bool) :=
  match names with
  | [] => Returned (page, false)
  | name :: names =>
      if negb (bool_decide (cursor = [])) && bytes_leb name cursor
      then fill_page io d directory cursor limit names page
      else if llen page =? limit then Returned (page, true)
      else
        let path := directory ++ [name] in
        _ ← system_call io (3 + length page) "cannot stat";
        metadata ← found (symlink_metadata d path) "cannot stat";
        fill_page io d directory cursor limit names (page ++ [file_metadata path metadata])
  end.
Definition list_directory (io : Io) (root : Path) (d : Disk) (request : FileListRequest)
    : outcome FileServiceError FileListResponse :=
  directory ← resolve_existing canonicalize (dk_fs d) root (fl_path request) true;
  _ ← system_call io 0 "cannot stat";
  metadata ← found (disk_metadata d directory) "cannot stat";
  _ ← check (bool_decide (mt_kind metadata = FkDirectory)) "invalid" "is not a directory";
  _ ← system_call io 1 "cannot read directory";
  _ ← system_call io 2 "cannot read directory entry in";
  '(page, has_more) ← fill_page io d directory (fl_cursor request) (page_limit (fl_limit request))
                        (merge_sort bytes_le (read_dir (dk_fs d) directory)) [];
  Returned (mkFileListing page
    (if has_more : bool then match last page with Some entry => fm_name entry | None => [] end else [])).

(** ** Downloads *)

Definition file_snapshot (path : Path) (m : Metadata) : bytes :=
  sha256 (path_bytes path ++ be64 (mt_dev m) ++ be64 (mt_ino m) ++ be64 (mt_len m)
          ++ be_i64 (mt_mtime m) ++ be_i64 (mt_mtime_nsec m)).

(** What the reads of an open file return: its content, or what a writer that runs at the
    same time makes of it. *)
Variable seen : bytes -> bytes.
Definition content_of (d : Disk) (path : Path) : bytes :=
  match path_metadata (dk_fs d) path with Some (NFile content _) => seen content | _ => [] end.

Definition begin_download (io : Io) (root : Path) (d : Disk) (request : BeginDownloadRequest)
    : outcome FileServiceError BeginDownloadResponse :=
  path ← resolve_existing canonicalize (dk_fs d) root (bd_path request) true;
  _ ← system_call io 0 "cannot stat";
  metadata ← found (disk_metadata d path) "cannot stat";
  _ ← check (bool_decide (mt_kind metadata = FkRegular)) "invalid" "is not a regular file";
  digest ← (if bd_want_sha256 request then
              _ ← system_call io 1 "cannot open for checksum";
              _ ← system_call io 2 "cannot read for checksum";
              Returned (sha256 (content_of d path))
            else Returned []);
  Returned (mkDownload (Some (file_metadata path metadata)) (file_snapshot path metadata) digest MAX_FILE_CHUNK_SIZE).

(** [read_up_to_at] *)
Definition read_up_to_at (content : bytes) (offset length : N) : bytes :=
  take (N.to_nat length) (drop (N.to_nat offset) content).

Definition read_chunk (io : Io) (root : Path) (d : Disk) (request : ReadFileChunkRequest)
    : outcome FileServiceError FileChunkResponse :=
  _ ← check (llen (rf_snapshot request) =? 32) "invalid" "download snapshot must be a SHA-256 value";
  let length := N.min (rf_length request) MAX_FILE_CHUNK_SIZE in
  _ ← check (negb (length =? 0)) "invalid" "download chunk length is zero";
  path ← resolve_existing canonicalize (dk_fs d) root (rf_path request) true;
  _ ← system_call io 0 "cannot open";
  metadata ← found (disk_metadata d path) "cannot open";
  _ ← system_call io 1 "cannot stat";
  _ ← check (bool_decide (mt_kind metadata = FkRegular)) "invalid" "is not a regular file";
  _ ← check (bool_decide (file_snapshot path metadata = rf_snapshot request)) "conflict"
        "remote file changed while it was being downloaded";
  _ ← check (rf_offset request <=? mt_len metadata) "invalid" "download offset is beyond end of file";
  let requested := N.min (mt_len metadata - rf_offset request) length in
  _ ← system_call io 2 "cannot read file";
  let data := read_up_to_at (content_of d path) (rf_offset request) requested in
  Returned (mkFileChunk (rf_offset request) data (sha256 data) (mt_len metadata <=? rf_offset request + llen data) 0 0).

(** ** Changing the tree *)

Definition make_directory (io : Io) (raw_path : bytes) : FileM () :=
  w ← get id;
  path ← lift (resolve_new canonicalize (w_fs w) (w_root w) raw_path);
  _ ← io_call io 0 "cannot create directory";
  match w_fs w !! path with
  | Some _ => fail "conflict" "cannot create directory"
  | None => modify (fun w => set_fs (<[path := NDir]> (w_fs w)) w)
  end.

Definition is_dir (node : Node) : bool := match node with NDir => true | _ => false end.
Definition remove (io : Io) (raw_path : bytes) : FileM () :=
  w ← get id;
  path ← lift (resolve_existing canonicalize (w_fs w) (w_root w) raw_path false);
  _ ← require (negb (bool_decide (path = w_root w))) "invalid" "cannot remove file root";
  _ ← io_call io 0 "cannot stat";
  node ← lift (found (w_fs w !! path) "cannot stat");
  _ ← io_call io 1 "cannot remove";
  _ ← require (negb (is_dir node) || is_empty (read_dir (w_fs w) path)) "filesystem" "cannot remove";
  modify (fun w => set_fs (delete path (w_fs w)) w).

(** [fs::rename]: the node and everything below it move. *)
Definition move_path (source destination p : Path) : Path :=
  if bool_decide (source `prefix_of` p) then destination ++ drop (length source) p else p.
Definition move_tree (source destination : Path) (fs : FileSystem) : FileSystem :=
  list_to_map (prod_map (move_path source destination) id <$>
    map_to_list (filter (fun kv => ~ destination `prefix_of` kv.1) fs)).
Definition rename_tree (io : Io) (k : nat) (source destination : Path) : FileM () :=
  _ ← io_call io k "cannot rename";
  fs ← get w_fs;
  node ← lift (found (fs !! source) "cannot rename");
  if decide (source = destination) then mret tt
  else
    _ ← require (negb (bool_decide (source `prefix_of` destination))) "invalid" "cannot rename";
    _ ← require (match fs !! destination with
                 | None => true
                 | Some NDir => is_dir node && is_empty (read_dir fs destination)
                 | Some _ => negb (is_dir node)
                 end) "filesystem" "cannot rename";
    modify (fun w => set_fs (move_tree source destination (w_fs w)) w).

Definition rename (io : Io) (source destination : bytes) (overwrite : bool) : FileM () :=
  w ← get id;
  source ← lift (resolve_existing canonicalize (w_fs w) (w_root w) source false);
  destination ← lift (resolve_new canonicalize (w_fs w) (w_root w) destination);
  _ ← require (negb (bool_decide (source = w_root w))) "invalid" "cannot rename file root";
  _ ← require (negb (path_exists (w_fs w) destination) || overwrite) "conflict" "destination already exists";
  rename_tree io 0 source destination.
End reads.
