(* ===== verification/FileReadsSpec.v ===== *)
(** * The file service: listings, the tree and downloads *)
From S2P Require Import Prelude Text Resources TerminalState Payload Negotiation Files FilesSpec Messages FileReads.
Open Scope N_scope.

(** ** The order of names *)

Lemma bytes_le_refl a : bytes_le a a.
Proof. unfold bytes_le. induction a as [|x a IH]; [done|]. cbn. by rewrite N.ltb_irrefl, N.eqb_refl, IH. Qed.
Lemma bytes_le_cons x a y b : bytes_le (x :: a) (y :: b) <-> x < y \/ (x = y /\ bytes_le a b).
Proof.
  unfold bytes_le. cbn. rewrite orb_true_iff, andb_true_iff, N.ltb_lt, N.eqb_eq. done.
Qed.
#[global] Instance bytes_le_trans : Transitive bytes_le.
Proof.
  intros a. induction a as [|x a IH]; intros [|y b] [|z c]; try done. rewrite !bytes_le_cons.
  intros [?|[-> ?]] [?|[-> ?]]; [left; lia|by left|by left|right; eauto].
Qed.
#[global] Instance bytes_le_antisym : AntiSymm (=) bytes_le.
Proof.
  intros a. induction a as [|x a IH]; intros [|y b]; try done. rewrite !bytes_le_cons.
  intros [?|[-> ?]] [?|[? ?]]; try lia. f_equal. by apply IH.
Qed.
#[global] Instance bytes_le_total : Total bytes_le.
Proof.
  intros a. induction a as [|x a IH]; intros [|y b]; try (by left); try (by right). rewrite !bytes_le_cons.
  destruct (N.lt_trichotomy x y) as [?|[->|?]]; [by left; left| |by right; left].
  destruct (IH b); [left|right]; by right.
Qed.

(** ** Entries of a directory *)

Lemma read_dir_elem fs directory name : name ∈ read_dir fs directory <-> is_Some (fs !! (directory ++ [name])).
Proof.
  unfold read_dir. rewrite list_elem_of_omap. split.
  - intros (p & Hp & Hn). destruct (split_last p) as [[parent n]|] eqn:Es; [|done]. destruct (decide _) as [->|]; [|done].
    injection Hn as ->. apply split_last_Some in Es as ->. apply list_elem_of_fmap in Hp as ([q node] & -> & Hq).
    apply elem_of_map_to_list in Hq. by exists node.
  - intros [node Hn]. exists (directory ++ [name]). split.
    + apply list_elem_of_fmap. exists (directory ++ [name], node). by rewrite elem_of_map_to_list.
    + by rewrite split_last_snoc, decide_True.
Qed.
Lemma read_dir_NoDup fs directory : NoDup (read_dir fs directory).
Proof.
  unfold read_dir. pose proof (NoDup_fst_map_to_list fs) as Hnd. revert Hnd. generalize ((map_to_list fs).*1). intros l Hl.
  induction Hl as [|p l Hp Hl IH]; [constructor|]. cbn. destruct (split_last p) as [[parent n]|] eqn:Es; [|done].
  destruct (decide _) as [->|]; [|done]. constructor; [|done]. rewrite list_elem_of_omap. intros (q & Hq & Hn).
  destruct (split_last q) as [[parent' n']|] eqn:Eq; [|done]. destruct (decide _) as [->|]; [|done]. injection Hn as ->.
  apply split_last_Some in Es, Eq. by subst.
Qed.
(** The names of a directory in the order of its listing. *)
Definition sorted_names (fs : FileSystem) (directory : Path) : list bytes := merge_sort bytes_le (read_dir fs directory).
Lemma sorted_names_elem fs directory name : name ∈ sorted_names fs directory <-> is_Some (fs !! (directory ++ [name])).
Proof. unfold sorted_names. by rewrite merge_sort_Permutation, read_dir_elem. Qed.
Lemma sorted_names_NoDup fs directory : NoDup (sorted_names fs directory).
Proof. unfold sorted_names. rewrite merge_sort_Permutation. apply read_dir_NoDup. Qed.
Lemma sorted_names_sorted fs directory : StronglySorted bytes_le (sorted_names fs directory).
Proof. apply (StronglySorted_merge_sort _). Qed.

(** The names behind a cursor. *)
Definition behind (cursor : bytes) (names : list bytes) : list bytes :=
  filter (fun name => cursor = [] \/ ~ bytes_le name cursor) names.

(** In a sorted list the names behind an entry are those that follow it. *)
Lemma behind_middle pre name post : StronglySorted bytes_le (pre ++ name :: post) -> NoDup (pre ++ name :: post) ->
  name <> [] -> behind name (pre ++ name :: post) = post.
Proof.
  intros Hs Hnd Hne. unfold behind. rewrite filter_app, filter_cons_False by (intros [?|Hn]; [done|apply Hn, bytes_le_refl]).
  assert (Hpre : filter (fun x => name = [] \/ ~ bytes_le x name) pre = []).
  { clear Hnd. induction pre as [|x pre IH]; [done|]. cbn in Hs. inversion_clear Hs as [|? ? Hs' Hx].
    rewrite filter_cons_False, IH; [done|done|]. intros [?|Hn]; [done|]. apply Hn. rewrite Forall_forall in Hx. apply Hx.
    apply elem_of_app. right. by left. }
  rewrite Hpre. cbn. apply NoDup_app in Hnd as (_ & _ & Hnd). inversion_clear Hnd as [|? ? Hin Hnd'].
  assert (Hpost : Forall (fun y => bytes_le name y) post).
  { clear Hin Hnd' Hpre. induction pre as [|x pre IH]; cbn in Hs; inversion_clear Hs; [done|by apply IH]. }
  assert (Hall : Forall (fun y => name = [] \/ ~ bytes_le y name) post).
  { apply Forall_forall. intros y Hy. right. intros Hle. rewrite Forall_forall in Hpost. specialize (Hpost y Hy).
    assert (y = name) as -> by (by apply (anti_symm bytes_le)). done. }
  clear -Hall. induction Hall as [|y l Hy _ IH]; [done|]. by rewrite filter_cons_True, IH.
Qed.

Section listing.
Context `{PayloadLib}.
Variable canonicalize : FileSystem -> Path -> FileServiceError + Path.

(** The metadata that a listing gives of an entry. *)
Definition entry_metadata (d : Disk) (directory : Path) (name : bytes) : FileMetadata :=
  file_metadata (directory ++ [name])
    (default (mkMetadata FkOther 0 0 0 0 0 0) (symlink_metadata d (directory ++ [name]))).
Lemma entry_metadata_name d directory name : fm_name (entry_metadata d directory name) = name.
Proof. unfold entry_metadata, file_metadata. cbn. by rewrite last_snoc. Qed.

Lemma fill_page_exact d directory cursor limit names page :
  (forall name, name ∈ names -> is_Some (dk_fs d !! (directory ++ [name]))) -> llen page <= limit ->
  fill_page io_reliable d directory cursor limit names page =
    Returned (page ++ (entry_metadata d directory <$> take (N.to_nat (limit - llen page)) (behind cursor names)),
              bool_decide (limit - llen page < llen (behind cursor names))).
Proof.
  revert page. induction names as [|name names IH]; intros page Hin Hl; cbn [fill_page].
  - cbn. rewrite take_nil, app_nil_r. cbn. rewrite bool_decide_eq_false_2; [done|]. unfold llen at 2. cbn. lia.
  - assert (Hin' : forall x, x ∈ names -> is_Some (dk_fs d !! (directory ++ [x]))) by (intros; apply Hin; by right).
    destruct (negb (bool_decide (cursor = [])) && bytes_leb name cursor) eqn:Ec.
    + rewrite IH by done. bool_prop. unfold behind. by rewrite filter_cons_False by (intros [?|Hn]; [done|by apply Hn]).
    + unfold behind. rewrite filter_cons_True.
      2:{ apply andb_false_iff in Ec as [Ec|Ec]; [left|right; unfold bytes_le; by rewrite Ec]. bool_prop. done. }
      fold (behind cursor names). destruct (N.eqb_spec (llen page) limit) as [He|Hne].
      * rewrite <- He, N.sub_diag. cbn. rewrite app_nil_r, bool_decide_eq_true_2; [done|]. rewrite llen_cons. lia.
      * destruct (Hin name) as [node Hnode]; [by left|]. cbn [system_call io_fault io_reliable mbind outcome_bind].
        unfold symlink_metadata at 1. rewrite Hnode. cbn [fmap option_fmap option_map found mbind outcome_bind].
        rewrite IH by (try done; rewrite llen_app, llen_cons, llen_nil; lia). rewrite llen_app, llen_cons, llen_nil.
        replace (N.to_nat (limit - llen page)) with (S (N.to_nat (limit - (llen page + N.succ 0)))) by lia.
        cbn [take fmap list_fmap]. rewrite <- app_assoc. cbn [app]. f_equal. f_equal.
        -- f_equal. f_equal. unfold entry_metadata, symlink_metadata. by rewrite Hnode.
        -- apply bool_decide_ext. rewrite llen_cons. lia.
Qed.

(** A listing returns the first entries behind its cursor, and the name of the last one
    when there are more. *)
Lemma list_directory_page root d raw directory cursor limit :
  resolve_existing canonicalize (dk_fs d) root raw true = Returned directory -> path_metadata (dk_fs d) directory = Some NDir ->
  let names := behind cursor (sorted_names (dk_fs d) directory) in
  let page := take (N.to_nat (page_limit limit)) names in
  list_directory canonicalize io_reliable root d (mkFileList raw cursor limit) =
    Returned (mkFileListing (entry_metadata d directory <$> page)
      (if bool_decide (page_limit limit < llen names) then default [] (last page) else [])).
Proof.
  intros Hr Hd names page. unfold list_directory. cbn [fl_path fl_cursor fl_limit]. rewrite Hr. cbn [mbind outcome_bind].
  cbn [system_call io_fault io_reliable mbind outcome_bind]. unfold disk_metadata. rewrite Hd. cbn - [fill_page merge_sort].
  fold (sorted_names (dk_fs d) directory). rewrite fill_page_exact; [|intros; by apply sorted_names_elem|unfold llen; cbn; lia].
  cbn [mbind outcome_bind]. rewrite llen_nil, N.sub_0_r. fold names. fold page. cbn [app].
  rewrite (bool_decide_eq_true_2 (FkDirectory = _)) by done. cbn [check mbind outcome_bind]. f_equal. f_equal.
  destruct (bool_decide _); [|done]. rewrite fmap_last. destruct (last page) as [name|]; [apply entry_metadata_name|done].
Qed.
End listing.

(** ** The tree *)

Section tree.
Context (source destination : Path) (fs : FileSystem).
Hypothesis Hsd : ~ source `prefix_of` destination.

Lemma move_path_under p : source `prefix_of` p -> move_path source destination p = destination ++ drop (length source) p.
Proof. intros. unfold move_path. by rewrite bool_decide_eq_true_2. Qed.
Lemma move_path_other p : ~ source `prefix_of` p -> move_path source destination p = p.
Proof. intros. unfold move_path. by rewrite bool_decide_eq_false_2. Qed.
Lemma move_path_inj p q : ~ destination `prefix_of` p -> ~ destination `prefix_of` q ->
  move_path source destination p = move_path source destination q -> p = q.
Proof.
  intros Hp Hq. destruct (decide (source `prefix_of` p)) as [[x ->]|Hsp], (decide (source `prefix_of` q)) as [[y ->]|Hsq];
    rewrite ?(move_path_under (source ++ _)), ?move_path_other by (done || by eexists);
    rewrite ?drop_app_length; intros He; [by simplify_eq|exfalso..|done].
  - apply Hq. by exists x.
  - apply Hp. by exists y.
Qed.

(** The paths of the moved tree are distinct. *)
Lemma move_tree_Some q node : move_tree source destination fs !! q = Some node <->
  exists p, fs !! p = Some node /\ ~ destination `prefix_of` p /\ q = move_path source destination p.
Proof.
  unfold move_tree. rewrite <- elem_of_list_to_map, list_elem_of_fmap.
  - split.
    + intros ([p n] & [= -> ->] & Hp). apply elem_of_map_to_list, map_lookup_filter_Some in Hp as [Hp Hdp]. eauto.
    + intros (p & Hp & Hdp & ->). exists (p, node). split; [done|]. by apply elem_of_map_to_list, map_lookup_filter_Some.
  - rewrite <- list_fmap_compose. apply NoDup_fmap_2_strong; [|apply NoDup_map_to_list].
    intros [p n] [p' n'] Hp Hp' He. apply elem_of_map_to_list, map_lookup_filter_Some in Hp as [Hp Hdp].
    apply elem_of_map_to_list, map_lookup_filter_Some in Hp' as [Hp' Hdp']. cbn in *. apply move_path_inj in He; [|done..].
    subst. rewrite Hp in Hp'. by simplify_eq.
Qed.
(** After the move the destination holds what was below the source, and nothing is left
    there; the rest is as it was. *)
Lemma move_tree_lookup q : ~ destination `prefix_of` source ->
  move_tree source destination fs !! q =
    if decide (destination `prefix_of` q) then fs !! (source ++ drop (length destination) q)
    else if decide (source `prefix_of` q) then None else fs !! q.
Proof.
  intros Hds. apply option_eq. intros node. rewrite move_tree_Some. split.
  - intros (p & Hp & Hdp & ->). destruct (decide (source `prefix_of` p)) as [[x ->]|Hsp].
    + rewrite move_path_under, drop_app_length by (by exists x). rewrite decide_True by (by exists x). by rewrite drop_app_length.
    + rewrite move_path_other by done. by rewrite !decide_False.
  - destruct (decide (destination `prefix_of` q)) as [[x ->]|Hdq].
    + rewrite drop_app_length. intros Hn. exists (source ++ x). rewrite move_path_under by (by exists x).
      rewrite drop_app_length. split_and!; [done| |done]. intros [y Hy].
      destruct (prefix_weak_total source destination (source ++ x)) as [?|?]; [by exists x|by rewrite Hy; exists y|done..].
    + destruct (decide (source `prefix_of` q)) as [|Hsq]; [done|]. intros Hn. exists q. by rewrite move_path_other.
Qed.
(** Outside of both trees nothing changes, whatever lies where. *)
Lemma move_tree_outside q : ~ destination `prefix_of` q -> ~ source `prefix_of` q -> move_tree source destination fs !! q = fs !! q.
Proof.
  intros Hdq Hsq. apply option_eq. intros node. rewrite move_tree_Some. split.
  - intros (p & Hp & Hdp & ->). destruct (decide (source `prefix_of` p)) as [Hsp|Hsp]; [|by rewrite move_path_other].
    rewrite move_path_under in Hdq by done. exfalso. apply Hdq. by eexists.
  - intros Hn. exists q. by rewrite move_path_other.
Qed.
End tree.

Section changes.
Context `{PayloadLib}.
Variable parse_uuid : string -> option string.
Variable canonicalize : FileSystem -> Path -> FileServiceError + Path.
Hypothesis canonicalize_names : forall fs p q, canonicalize fs p = inr q -> Forall proper_name q.

(** What an operation that changes the tree does: it fails and changes nothing, or
    replaces the file system. *)
Definition changes_to {A} (m : FileM A) (w : World) (P : FileSystem -> Prop) : Prop :=
  wp m w (fun w' o => match o with Returned _ => exists fs, w' = set_fs fs w /\ P fs | _ => w' = w end).

Lemma changes_require {A} b code message (m : FileM A) w P :
  (b = true -> changes_to m w P) -> changes_to (require b code message ≫= fun _ => m) w P.
Proof. intros Hm. destruct b; [by apply Hm|done]. Qed.
Lemma changes_call {A} io k action (m : FileM A) w P : changes_to m w P -> changes_to (io_call io k action ≫= fun _ => m) w P.
Proof. intros Hm. unfold io_call. by destruct (io_fault io k). Qed.
Lemma changes_lift {A B} (o : outcome FileServiceError A) (f : A -> FileM B) w P :
  (forall a, o = Returned a -> changes_to (f a) w P) -> changes_to (lift o ≫= f) w P.
Proof. intros Hf. destruct o; [by apply Hf|done|done]. Qed.
Lemma changes_get {A B} (g : World -> A) (f : A -> FileM B) w P : changes_to (f (g w)) w P -> changes_to (get g ≫= f) w P.
Proof. done. Qed.
Lemma changes_modify (f : FileSystem -> FileSystem) (w : World) (P : FileSystem -> Prop) : P (f (w_fs w)) -> changes_to (modify (fun w : World => set_fs (f (w_fs w)) w)) w P.
Proof. intros Hp. by exists (f (w_fs w)). Qed.

Lemma make_directory_changes io raw w :
  changes_to (make_directory canonicalize io raw) w (fun fs => exists path,
    resolve_new canonicalize (w_fs w) (w_root w) raw = Returned path /\ w_fs w !! path = None /\ fs = <[path := NDir]> (w_fs w)).
Proof.
  apply changes_get, changes_lift. intros path Hp. apply changes_call. cbn. destruct (w_fs w !! path) eqn:E; [done|].
  apply (changes_modify (fun fs => <[path := NDir]> fs)). eauto.
Qed.
Lemma remove_changes io raw w :
  changes_to (remove canonicalize io raw) w (fun fs => exists path,
    resolve_existing canonicalize (w_fs w) (w_root w) raw false = Returned path /\ path <> w_root w /\
    (w_fs w !! path = Some NDir -> read_dir (w_fs w) path = []) /\ fs = delete path (w_fs w)).
Proof.
  apply changes_get, changes_lift. intros path Hp. apply changes_require. intros Hroot. apply changes_call, changes_lift.
  intros node Hn. apply changes_call, changes_require. intros He. bool_prop.
  apply (changes_modify (fun fs => delete path fs)). exists path. split_and!; [done|done| |done].
  cbn in Hn. destruct (w_fs w !! path) as [n|]; [|done]. injection Hn as <-. intros [= ->]. cbn in He.
  by destruct (read_dir _ _).
Qed.
Lemma rename_changes io source destination overwrite w :
  changes_to (rename canonicalize io source destination overwrite) w (fun fs => exists s d,
    resolve_existing canonicalize (w_fs w) (w_root w) source false = Returned s /\ s <> w_root w /\
    resolve_new canonicalize (w_fs w) (w_root w) destination = Returned d /\
    (overwrite = false -> path_exists (w_fs w) d = false) /\ is_Some (w_fs w !! s) /\
    ((s = d /\ fs = w_fs w) \/
     ~ s `prefix_of` d /\ (w_fs w !! d = Some NDir -> read_dir (w_fs w) d = []) /\ fs = move_tree s d (w_fs w))).
Proof.
  apply changes_get, changes_lift. intros s Hs. apply changes_lift. intros d Hd. apply changes_require. intros Hroot.
  apply changes_require. intros Hex. unfold rename_tree. apply changes_call, changes_get, changes_lift. intros node Hn.
  assert (Hnode : w_fs w !! s = Some node) by (destruct (w_fs w !! s); [by injection Hn as ->|done]).
  assert (Hov : overwrite = false -> path_exists (w_fs w) d = false).
  { intros ->. rewrite orb_false_r in Hex. by bool_prop. }
  bool_prop. destruct (decide (s = d)) as [He|Hne].
  - exists (w_fs w). split; [by destruct w|]. exists s, d. rewrite Hnode. eauto 10.
  - apply changes_require. intros Hpre. apply changes_require. intros Hdir. bool_prop.
    apply (changes_modify (fun fs => move_tree s d fs)). exists s, d. rewrite Hnode. split_and!; try done. right.
    split_and!; [done| |done]. intros Hdd. rewrite Hdd in Hdir. bool_prop. by destruct (read_dir _ _).
Qed.

(** ** Confinement of the whole service *)

Inductive service_op :=
| SUpload (op : file_op)
| SMakeDirectory (io : Io) (raw : bytes)
| SRemove (io : Io) (raw : bytes)
| SRename (io : Io) (source destination : bytes) (overwrite : bool).
Definition run_service_op (w : World) (op : service_op) : World :=
  match op with
  | SUpload op => run_file_op parse_uuid canonicalize w op
  | SMakeDirectory io raw => (make_directory canonicalize io raw w).1
  | SRemove io raw => (remove canonicalize io raw w).1
  | SRename io source destination overwrite => (rename canonicalize io source destination overwrite w).1
  end.

Lemma changes_inside {A} (m : FileM A) w0 w P :
  inside w0 w -> changes_to m w P -> (forall fs, P fs -> forall p, ~ w_root w0 `prefix_of` p -> fs !! p = w_fs w !! p) ->
  inside w0 (m w).1.
Proof.
  intros Hw Hm Hp. unfold changes_to, wp in Hm. destruct (m w).2 as [a|e|]; [|by rewrite Hm..].
  destruct Hm as (fs & -> & Hfs). destruct Hw as [Hr Hf Hu]. split; cbn; [done| |done].
  intros p Hout. rewrite <- (Hf p Hout). by apply Hp.
Qed.
Lemma run_service_op_inside w0 w op : Forall proper_name (w_root w0) -> inside w0 w -> inside w0 (run_service_op w op).
Proof.
  intros Hroot Hw. pose proof (in_root _ _ Hw) as Hr. destruct op as [op|io raw|io raw|io source destination overwrite]; cbn.
  - by apply run_file_op_inside.
  - eapply (changes_inside _ _ _ _ Hw); [apply make_directory_changes|]. intros fs (path & Hp & _ & ->) p Hout. rewrite Hr in Hp.
    apply resolve_new_spec in Hp as (parent & name & -> & Hpre & _); [|done..].
    rewrite lookup_insert_ne; [done|]. intros <-. apply Hout. by apply prefix_app_r.
  - eapply (changes_inside _ _ _ _ Hw); [apply remove_changes|]. intros fs (path & Hp & _ & _ & ->) p Hout. rewrite Hr in Hp.
    apply resolve_existing_spec in Hp as [Hpre _]; [|done..]. rewrite lookup_delete_ne; [done|]. by intros <-.
  - eapply (changes_inside _ _ _ _ Hw); [apply rename_changes|]. intros fs (s & d & Hs & _ & Hd & _ & _ & Hfs) p Hout. rewrite Hr in Hs, Hd.
    apply resolve_existing_spec in Hs as [Hpre _]; [|done..]. apply resolve_new_spec in Hd as (parent & name & -> & Hpd & _); [|done..].
    destruct Hfs as [[_ ->]|(Hsd & _ & ->)]; [done|]. apply move_tree_outside.
    + intros Hd. apply Hout. etrans; [|exact Hd]. by apply prefix_app_r.
    + intros Hps. apply Hout. by transitivity s.
Qed.
Lemma run_service_ops_inside w0 w ops :
  Forall proper_name (w_root w0) -> inside w0 w -> inside w0 (foldl run_service_op w ops).
Proof.
  intros Hroot. revert w. induction ops as [|op ops IH]; intros w Hw; [done|]. by apply IH, run_service_op_inside.
Qed.


(** ** Renaming *)

(** Every node lies in a directory. *)
Definition tree_closed (fs : FileSystem) : Prop :=
  forall p name, is_Some (fs !! (p ++ [name])) -> p <> [] -> fs !! p = Some NDir.

Lemma tree_closed_parent fs p x q : tree_closed fs -> p <> [] -> is_Some (fs !! (p ++ x :: q)) -> is_Some (fs !! (p ++ [x])).
Proof.
  intros Hc Hp. induction q as [|y q IH] using rev_ind; [done|]. intros Hq. apply IH.
  replace (p ++ x :: q ++ [y]) with ((p ++ x :: q) ++ [y]) in Hq by by rewrite <- app_assoc.
  exists NDir. apply (Hc _ y); [done|]. by destruct p.
Qed.

Lemma no_entries fs d name : read_dir fs d = [] -> fs !! (d ++ [name]) = None.
Proof. intros He. apply eq_None_not_Some. rewrite <- read_dir_elem, He. apply not_elem_of_nil. Qed.
(** A new name that stands for nothing or for an empty directory is not above a node. *)
Lemma empty_not_above fs root raw s d :
  tree_closed fs -> Forall proper_name root -> resolve_new canonicalize fs root raw = Returned d -> is_Some (fs !! s) ->
  ~ s `prefix_of` d -> (fs !! d = Some NDir -> read_dir fs d = []) -> ~ d `prefix_of` s.
Proof.
  intros Hc Hroot Hd Hs Hsd Hempty [[|x q] ->]; [apply Hsd; by rewrite app_nil_r|].
  apply resolve_new_spec in Hd as (parent & name & -> & _); [|done..].
  assert (Hne : parent ++ [name] <> []) by (by destruct parent). pose proof (tree_closed_parent _ _ _ _ Hc Hne Hs) as Hx.
  rewrite (no_entries fs (parent ++ [name]) x) in Hx; [by destruct Hx|]. apply Hempty. by apply (Hc _ x).
Qed.

(** Renaming is exact and atomic.  When it succeeds, the destination holds the node that
    the source named with everything below it, the source and everything below it are
    gone, and every other path is as it was; a directory that was replaced had no
    entries, and without overwrite nothing was replaced.  When it fails, nothing has
    changed. *)
Theorem rename_exact io source destination overwrite w :
  tree_closed (w_fs w) -> Forall proper_name (w_root w) ->
  let '(w', o) := rename canonicalize io source destination overwrite w in
  match o with
  | Returned _ => exists s d, resolve_existing canonicalize (w_fs w) (w_root w) source false = Returned s /\
      resolve_new canonicalize (w_fs w) (w_root w) destination = Returned d /\ s <> w_root w /\
      (forall q, w_fs w' !! (d ++ q) = w_fs w !! (s ++ q)) /\
      (forall q, s <> d -> w_fs w' !! (s ++ q) = None) /\
      (forall p, ~ s `prefix_of` p -> ~ d `prefix_of` p -> w_fs w' !! p = w_fs w !! p) /\
      (s <> d -> w_fs w !! d = Some NDir -> forall name, w_fs w !! (d ++ [name]) = None) /\
      (overwrite = false -> path_exists (w_fs w) d = false)
  | _ => w' = w
  end.
Proof.
  intros Hc Hroot. pose proof (rename_changes io source destination overwrite w) as Hm. unfold changes_to, wp in Hm.
  destruct (rename _ _ _ _ _ w) as [w' [a|e|]]; [|done..]. cbn [fst snd] in Hm.
  destruct Hm as (fs & -> & s & d & Hs & Hsr & Hd & Hov & Hsome & Hfs). exists s, d. cbn [w_fs set_fs].
  split_and!; try done; destruct Hfs as [[He ->]|(Hsd & Hempty & ->)]; try (by subst); try done.
  4: { intros _ Hdd name. by apply no_entries, Hempty. }
  all: assert (Hds : ~ d `prefix_of` s) by (by eapply empty_not_above).
  - intros q. rewrite move_tree_lookup, decide_True, drop_app_length by (done || by eexists). done.
  - intros q _. rewrite move_tree_lookup by done. rewrite decide_False, decide_True; [done|by eexists|].
    intros Hp. destruct (prefix_weak_total s d (s ++ q)) as [?|?]; [by eexists|done..].
  - intros p Hsp Hdp. rewrite move_tree_lookup by done. by rewrite !decide_False.
Qed.
End changes.

(** ** Witnesses *)

Definition ex_service_ops : list service_op :=
  [SUpload (OpBegin io_reliable ex_request); SMakeDirectory io_reliable [100]; SRename io_reliable [100] [98] false;
   SRemove ex_broken [98]; SRename io_reliable [97; 47; 46; 46] [98] true].

Definition ex_tree : World :=
  mkWorld [[104]] [] (<[ [[104]] := NDir ]> (<[ [[104]; [100]] := NDir ]> (<[ [[104]; [100]; [102]] := NFile [7] 420 ]> ∅))) ∅ ∅.
Lemma ex_tree_closed : tree_closed (w_fs ex_tree).
Proof.
  intros p name [node Hn] Hp. cbn in Hn.
  repeat (apply lookup_insert_Some in Hn as [[He _]|[_ Hn]];
    [destruct p as [|x [|y [|z p]]]; simplify_eq/=; (done || (vm_compute; reflexivity) || (by destruct p))|]). by rewrite lookup_empty in Hn.
Qed.
Lemma rename_exact_witness :
  let w := (rename ex_canonicalize io_reliable [100] [98] false ex_tree).1 in
  w_fs w !! [[104]; [98]; [102]] = Some (NFile [7] 420) /\ w_fs w !! [[104]; [100]; [102]] = None.
Proof.
  pose proof (@rename_exact ex_canonicalize ex_canonicalize_names io_reliable [100] [98] false ex_tree ex_tree_closed) as H.
  assert (Hroot : Forall proper_name (w_root ex_tree)) by (repeat constructor; intros ?; discriminate). specialize (H Hroot).
  cbv zeta. destruct (rename _ _ _ _ _ _) as [w o] eqn:E. assert (Eo : o = Returned tt) by (apply (f_equal snd) in E; vm_compute in E; done).
  subst o. destruct H as (s & d & Hs & Hd & _ & H1 & H2 & _). vm_compute in Hs, Hd. injection Hs as <-. injection Hd as <-. cbn [fst]. split.
  - refine (eq_trans (H1 [[102]]) _). vm_compute. reflexivity.
  - apply (H2 [[102]]). discriminate.
Defined.
