(* ===== verification/FileClient.v ===== *)
(** * File transfers of the command line ([bin/astra.rs], [client.rs])

    [astra files ls], [put] and [get]: the loops that page through a directory, send a
    file chunk by chunk and fetch one chunk by chunk, reconnecting when the
    connection is lost, against the file service of [Files] and [FileReads].  What
    happens to a request is given by a list: it may be lost before or after the server
    has executed it.  A [Run] is stopped when the program is killed or its fuel ends,
    so that a theorem on every fuel is one on every interruption. *)
From S2P Require Import Prelude Text Resources TerminalState Payload Negotiation Files Messages FileReads.
Open Scope N_scope.

(** ** Errors and runs *)

(** An [anyhow::Error] of a file call: an answer of the server, an invalid payload, a lost
    connection, or a refusal of the program itself. *)
Inductive ClientError :=
| EServer (e : FileServiceError)
| EPayload (message : string)
| ELost
| EBail (message : string).
Definition is_permanent_file_error (e : ClientError) : bool :=
  match e with EServer _ | EPayload _ => true | ELost | EBail _ => false end.

Inductive Run (A : Type) := Done (a : A) | Gone (e : ClientError) | Stopped.
Arguments Done {A} a.
Arguments Gone {A} e.
Arguments Stopped {A}.

Definition Client (S A : Type) : Type := S -> S * Run A.
Definition c_ret {S A} (a : A) : Client S A := fun s => (s, Done a).
Definition c_bind {S A B} (m : Client S A) (f : A -> Client S B) : Client S B := fun s =>
  match m s with
  | (s, Done a) => f a s
  | (s, Gone e) => (s, Gone e)
  | (s, Stopped) => (s, Stopped)
  end.
Definition c_gone {S A} (e : ClientError) : Client S A := fun s => (s, Gone e).
Definition c_bail {S A} (message : string) : Client S A := c_gone (EBail message).
Definition c_stop {S A} : Client S A := fun s => (s, Stopped).
(** [Result] as a value. *)
Definition c_try {S A} (m : Client S A) : Client S (A + ClientError) := fun s =>
  match m s with
  | (s, Done a) => (s, Done (inl a))
  | (s, Gone e) => (s, Done (inr e))
  | (s, Stopped) => (s, Stopped)
  end.
Notation "x <~ m ;; k" := (c_bind m (fun x => k)) (at level 100, m at next level, right associativity) : rust_scope.
Notation "m ;~ k" := (c_bind m (fun _ => k)) (at level 100, right associativity) : rust_scope.

(** The answer to a request whose handler panics is never written. *)
Definition answer_of {A} (o : outcome FileServiceError A) : Run A :=
  match o with Returned a => Done a | Failed e => Gone (EServer e) | Panicked => Gone ELost end.

(** [usize::try_from(n).unwrap_or(1024 * 1024).clamp(1, 1024 * 1024)] *)
Definition clamp_chunk (n : N) : N := N.min (N.max n 1) MAX_FILE_CHUNK_SIZE.

Section transfers.
Context `{PayloadLib}.
Variable parse_uuid : string -> option string.
Variable canonicalize : FileSystem -> Path -> FileServiceError + Path.
(** Whether the connection negotiated compressed payloads. *)
Variable zstd : bool.

(** ** [astra files put] *)

(** What happens to a request: its system calls run as [io] says, and a response may be
    lost although the request was executed. *)
Inductive Fate := Delivered (io : Io) | LostBefore | LostAfter (io : Io).
Record Uploading := mkUploading { ul_world : World; ul_fates : list Fate }.

Definition rpc {A} (serve : Io -> FileM A) : Client Uploading A := fun s =>
  match ul_fates s with
  | [] => let '(w, o) := serve io_reliable (ul_world s) in (mkUploading w [], answer_of o)
  | Delivered io :: fates => let '(w, o) := serve io (ul_world s) in (mkUploading w fates, answer_of o)
  | LostBefore :: fates => (mkUploading (ul_world s) fates, Gone ELost)
  | LostAfter io :: fates => (mkUploading (serve io (ul_world s)).1 fates, Gone ELost)
  end.

(** [AstraClient::write_file_chunk] and the handler of the request. *)
Definition serve_write (chunk : WriteFileChunkRequest) (io : Io) : FileM UploadStatusResponse :=
  match decode_upload chunk zstd with
  | Ok chunk => write_chunk parse_uuid io chunk
  | Err e => fail "invalid" e
  end.
Definition client_write_chunk (chunk : WriteFileChunkRequest) : Client Uploading UploadStatusResponse :=
  match encode_upload chunk zstd with
  | Ok chunk => rpc (serve_write chunk)
  | Err e => c_gone (EPayload e)
  end.

(** [reconnect_file_client] tries until it has a connection; it changes nothing else. *)
Fixpoint begin_upload_with_reconnect (fuel : nat) (request : BeginUploadRequest) : Client Uploading UploadStatusResponse :=
  match fuel with
  | O => c_stop
  | S fuel =>
      answer <~ c_try (rpc (fun io => begin_upload parse_uuid canonicalize io request));;
      match answer with
      | inl status => c_ret status
      | inr e => if is_permanent_file_error e then c_gone e else begin_upload_with_reconnect fuel request
      end
  end.
Definition write_chunk_with_reconnect (fuel : nat) (begin : BeginUploadRequest) (chunk : WriteFileChunkRequest)
    : Client Uploading UploadStatusResponse :=
  answer <~ c_try (client_write_chunk chunk);;
  match answer with
  | inl status => c_ret status
  | inr e => if is_permanent_file_error e then c_gone e else begin_upload_with_reconnect fuel begin
  end.
Fixpoint commit_upload_with_reconnect (fuel : nat) (begin : BeginUploadRequest) : Client Uploading UploadStatusResponse :=
  match fuel with
  | O => c_stop
  | S fuel =>
      answer <~ c_try (rpc (fun io => commit_upload parse_uuid io (bu_transfer_id begin)));;
      match answer with
      | inl status => c_ret status
      | inr e =>
          if is_permanent_file_error e then c_gone e
          else
            status <~ begin_upload_with_reconnect fuel begin;;
            if bool_decide (us_state status = "completed") then c_ret status
            else commit_upload_with_reconnect fuel begin
      end
  end.

(** The loop over the chunks of the local file. *)
Fixpoint send_chunks (fuel : nat) (chunk_size : N) (request : BeginUploadRequest) (data : bytes) (offset : N)
    : Client Uploading () :=
  if negb (offset <? bu_size request) then c_ret tt
  else match fuel with
       | O => c_stop
       | S fuel =>
           let remaining := N.min (bu_size request - offset) chunk_size in
           let chunk := take (N.to_nat remaining) (drop (N.to_nat offset) data) in
           if negb (llen chunk =? remaining) then c_bail "local file changed while being uploaded"
           else
             status <~ write_chunk_with_reconnect fuel request
                         (mkWriteChunk (bu_transfer_id request) offset chunk (sha256 chunk) 0 0);;
             send_chunks fuel chunk_size request data (us_committed_offset status)
       end.

(** The local file does not change while it is sent. *)
Definition upload_file (fuel : nat) (transfer_id : string) (data : bytes) (mode : N) (remote : bytes) (overwrite : bool)
    : Client Uploading () :=
  features <~ rpc (fun _ => mret capabilities);;
  if negb (fp_version features =? 1) || negb (fp_resumable_uploads features) || negb (fp_atomic_upload_commit features)
     || negb (fp_chunk_sha256 features)
  then c_bail "server does not provide the required Astra Files/1 upload capabilities"
  else
    let request := mkBeginUpload transfer_id remote (llen data) (sha256 data) overwrite (N.land mode 511) in
    status <~ begin_upload_with_reconnect fuel request;;
    if bool_decide (us_state status = "completed") then c_ret tt
    else
      send_chunks fuel (clamp_chunk (fp_max_chunk_size features)) request data (us_committed_offset status);~
      committed <~ commit_upload_with_reconnect fuel request;;
      if bool_decide (us_state committed = "completed") then c_ret tt else c_bail "server did not complete upload".

(** ** [astra files get] *)

(** An exchange: the answer is computed from the disk at that time, with what reads see; or
    the connection is lost.  After the list the disk is [dn_disk]. *)
Inductive Exchange := Answered (io : Io) (d : Disk) (seen : bytes -> bytes) | Lost.
(** [dn_kill]: the program is killed after so many changes of local files, the next one
    being stored up to some bytes. *)
Record Downloading := mkDownloading {
  dn_local : FileSystem; dn_kill : option (nat * nat); dn_exchanges : list Exchange; dn_root : Path; dn_disk : Disk }.

Definition query {A} (serve : Io -> Path -> Disk -> (bytes -> bytes) -> outcome FileServiceError A) : Client Downloading A := fun s =>
  match dn_exchanges s with
  | [] => (s, answer_of (serve io_reliable (dn_root s) (dn_disk s) id))
  | exchange :: exchanges =>
      (mkDownloading (dn_local s) (dn_kill s) exchanges (dn_root s) (dn_disk s),
       match exchange with Answered io d seen => answer_of (serve io (dn_root s) d seen) | Lost => Gone ELost end)
  end.
Definition local {A} (f : FileSystem -> A) : Client Downloading A := fun s => (s, Done (f (dn_local s))).
(** A change of local files; [partly k] is it when the program is killed. *)
Definition change (f : FileSystem -> FileSystem) (partly : nat -> FileSystem -> FileSystem) : Client Downloading () := fun s =>
  let set fs kill := mkDownloading fs kill (dn_exchanges s) (dn_root s) (dn_disk s) in
  match dn_kill s with
  | None => (set (f (dn_local s)) None, Done tt)
  | Some (S n, k) => (set (f (dn_local s)) (Some (n, k)), Done tt)
  | Some (O, k) => (set (partly k (dn_local s)) (Some (O, k)), Stopped)
  end.
Definition atomically (f : FileSystem -> FileSystem) : Client Downloading () := change f (fun _ fs => fs).

(** [AstraClient::begin_download] with its handler. *)
Definition client_begin_download (path : bytes) : Client Downloading BeginDownloadResponse :=
  query (fun io root d seen => begin_download canonicalize seen io root d (mkBeginDownload path true)).
(** [AstraClient::read_file_chunk] with its handler. *)
Definition serve_read (request : ReadFileChunkRequest) (io : Io) (root : Path) (d : Disk) (seen : bytes -> bytes)
    : outcome FileServiceError FileChunkResponse :=
  chunk ← read_chunk canonicalize seen io root d request;
  match encode_download chunk zstd with Ok chunk => Returned chunk | Err e => refuse "invalid" e end.
Definition client_read_chunk (request : ReadFileChunkRequest) : Client Downloading FileChunkResponse :=
  chunk <~ query (serve_read request);;
  match decode_download chunk zstd with
  | Err e => c_gone (EPayload e)
  | Ok chunk =>
      if (fc_offset chunk =? rf_offset request) && (llen (fc_data chunk) <=? rf_length request) then c_ret chunk
      else c_gone (EPayload "file response range does not match request")
  end.

Fixpoint begin_download_with_reconnect (fuel : nat) (path : bytes) : Client Downloading BeginDownloadResponse :=
  match fuel with
  | O => c_stop
  | S fuel =>
      answer <~ c_try (client_begin_download path);;
      match answer with
      | inl download => c_ret download
      | inr e => if is_permanent_file_error e then c_gone e else begin_download_with_reconnect fuel path
      end
  end.
(** [current] is the newest answer to a request for the download. *)
Fixpoint read_chunk_with_reconnect (fuel : nat) (path : bytes) (download current : BeginDownloadResponse)
    (request : ReadFileChunkRequest) : Client Downloading (BeginDownloadResponse * FileChunkResponse) :=
  match fuel with
  | O => c_stop
  | S fuel =>
      answer <~ c_try (client_read_chunk request);;
      match answer with
      | inl chunk => c_ret (current, chunk)
      | inr e =>
          if is_permanent_file_error e then c_gone e
          else
            resumed <~ begin_download_with_reconnect fuel path;;
            if negb (bool_decide (dl_snapshot resumed = dl_snapshot download)) || negb (bool_decide (dl_sha256 resumed = dl_sha256 download))
            then c_bail "remote file changed while reconnecting; download was not resumed"
            else read_chunk_with_reconnect fuel path download resumed request
      end
  end.

(** The temporary file and the file that says which snapshot it belongs to.  That one of them is a
    symbolic link is not modelled: such a run ends with an error here. *)
Definition download_temporary_paths (destination : Path) : result (Path * Path) :=
  match split_last destination with
  | None => Err "local download destination has no file name"
  | Some (parent, name) =>
      Ok (parent ++ [name ++ str_bytes ".astra-part"], parent ++ [(name ++ str_bytes ".astra-part") ++ str_bytes ".snapshot"])
  end.
(** The mode of a new local file. *)
Variable new_mode : N.

Definition prepare_download_temporary (temporary snapshot_file : Path) (snapshot : bytes) : Client Downloading () :=
  fs <~ local id;;
  reusable <~ match fs !! snapshot_file with
              | Some (NFile existing _) =>
                  c_ret (bool_decide (existing = snapshot) && match fs !! temporary with Some (NFile _ _) => true | _ => false end)
              | None => c_ret false
              | Some _ => c_bail "cannot read snapshot"
              end;;
  (if reusable : bool then c_ret tt
   else match fs !! temporary with
        | Some NDir => c_bail "cannot remove temporary"
        | _ => atomically (delete temporary)
        end);~
  change (<[snapshot_file := NFile snapshot new_mode]>) (fun k => <[snapshot_file := NFile (take k snapshot) new_mode]>).

Fixpoint fetch_chunks (fuel : nat) (chunk_size : N) (path : bytes) (temporary : Path) (size : N)
    (download : BeginDownloadResponse) (offset : N) : Client Downloading BeginDownloadResponse :=
  if negb (offset <? size) then c_ret download
  else match fuel with
       | O => c_stop
       | S fuel =>
           answer <~ read_chunk_with_reconnect fuel path download download
                       (mkReadChunk path (dl_snapshot download) offset chunk_size);;
           let '(download, chunk) := answer in
           let data := fc_data chunk in
           if negb (fc_offset chunk =? offset) || is_empty data
           then c_bail "server returned a non-progressing download chunk"
           else
             let store d fs := match fs !! temporary with
                               | Some (NFile content mode) => <[temporary := NFile (write_at content (N.to_nat offset) d) mode]> fs
                               | _ => fs
                               end in
             change (store data) (fun k => store (take k data));~
             fetch_chunks fuel chunk_size path temporary size download (offset + llen data)
       end.

Definition download_file (fuel : nat) (path : bytes) (destination : Path) (overwrite : bool) : Client Downloading () :=
  fs <~ local id;;
  if path_exists fs destination && negb overwrite then c_bail "local destination already exists" else
  download <~ begin_download_with_reconnect fuel path;;
  match dl_metadata download with
  | None => c_bail "server returned download metadata without a file"
  | Some metadata =>
      if negb (bool_decide (file_kind_try_from (fm_kind metadata) = Some FkRegular)) then c_bail "remote path is not a regular file" else
      if negb (llen (dl_sha256 download) =? 32) || negb (llen (dl_snapshot download) =? 32)
      then c_bail "server returned incomplete download integrity metadata" else
      match download_temporary_paths destination with
      | Err e => c_bail e
      | Ok (temporary, snapshot_file) =>
          prepare_download_temporary temporary snapshot_file (dl_snapshot download);~
          fs <~ local id;;
          length <~ match fs !! temporary with
                    | Some (NFile content _) => c_ret (llen content)
                    | None => atomically (<[temporary := NFile [] new_mode]>);~ c_ret 0
                    | Some _ => c_bail "failed to open temporary"
                    end;;
          offset <~ (if fm_size metadata <? length
                     then atomically (alter (fun node => match node with NFile _ mode => NFile [] mode | _ => node end) temporary);~ c_ret 0
                     else c_ret length);;
          download <~ fetch_chunks fuel (clamp_chunk (dl_max_chunk_size download)) path temporary (fm_size metadata) download offset;;
          fs <~ local id;;
          match fs !! temporary with
          | Some (NFile content _) =>
              if negb (bool_decide (sha256 content = dl_sha256 download))
              then c_bail "complete download failed SHA-256 verification; partial file was retained"
              else
                atomically (<[temporary := NFile content (N.land (fm_mode metadata) 511)]>);~
                match fs !! destination with
                | Some NDir => c_bail "failed to commit download"
                | _ =>
                    atomically (fun fs => <[destination := NFile content (N.land (fm_mode metadata) 511)]> (delete temporary fs));~
                    atomically (delete snapshot_file)
                end
          | _ => c_bail "failed to open for checksum"
          end
      end
  end.

(** ** [astra files ls] *)

(** The loop over the pages, with what was printed. *)
Fixpoint list_pages (fuel : nat) (io : Io) (root : Path) (d : Disk) (path cursor : bytes) : outcome FileServiceError (list FileMetadata * bool) :=
  match fuel with
  | O => Returned ([], false)
  | S fuel =>
      page ← list_directory canonicalize io root d (mkFileList path cursor 200);
      if is_empty (fr_next_cursor page) then Returned (fr_entries page, true)
      else
        '(rest, finished) ← list_pages fuel io root d path (fr_next_cursor page);
        Returned (fr_entries page ++ rest, finished)
  end.
End transfers.
