(* ===== verification/FileClientSpec.v ===== *)
(** * File transfers over a connection that is lost again and again *)
From S2P Require Import Prelude Text Resources TerminalState Payload Negotiation Files FilesSpec Messages FileReads FileReadsSpec FileClient.
Open Scope N_scope.

Section payloads.
Context `{PayloadLaws} (zstd : bool).
Hypothesis compresses : forall data, is_ok (zstd_compress data) = true.

Lemma payload_encode_total data : llen data <= MAX_FILE_CHUNK_SIZE ->
  exists p, payload_encode data zstd MAX_FILE_CHUNK_SIZE = Ok p.
Proof.
  intros Hl. unfold payload_encode. rewrite (proj2 (N.leb_le _ _) Hl). destruct (zstd && _); [|by eexists].
  pose proof (compresses data) as Hc. destruct (zstd_compress data) as [c|]; [|done]. cbn [mbind result_bind].
  destruct (_ <=? _); [|by eexists]. unfold try_u32. rewrite (proj2 (N.leb_le _ _)); [by eexists|].
  unfold MAX_FILE_CHUNK_SIZE, U32_MAX in *. lia.
Qed.
Lemma upload_wire chunk : llen (wc_data chunk) <= MAX_FILE_CHUNK_SIZE -> wc_encoding chunk = 0%Z -> wc_uncompressed_size chunk = 0 ->
  exists sent, encode_upload chunk zstd = Ok sent /\ decode_upload sent zstd = Ok chunk.
Proof.
  intros Hl He Hu. destruct (payload_encode_total (wc_data chunk) Hl) as [p Hp]. unfold encode_upload, decode_upload.
  rewrite He, Hu. cbn [Z.eqb N.eqb andb]. rewrite Hp. cbn. eexists. split; [done|]. cbn.
  replace (mkPayload (ep_data p) (ep_encoding p) (ep_uncompressed_size p)) with p by by destruct p.
  rewrite (encode_decode_bytes _ _ _ _ Hp). cbn. destruct chunk; cbn in *. by subst.
Qed.
Lemma download_wire chunk : llen (fc_data chunk) <= MAX_FILE_CHUNK_SIZE -> fc_sha256 chunk = sha256 (fc_data chunk) ->
  fc_encoding chunk = 0%Z -> fc_uncompressed_size chunk = 0 ->
  exists sent, encode_download chunk zstd = Ok sent /\ decode_download sent zstd = Ok chunk.
Proof.
  intros Hl Hs He Hu. destruct (payload_encode_total (fc_data chunk) Hl) as [p Hp]. unfold encode_download, decode_download.
  rewrite Hp. cbn. eexists. split; [done|]. cbn. rewrite Hs.
  replace (mkPayload (ep_data p) (ep_encoding p) (ep_uncompressed_size p)) with p by by destruct p.
  rewrite (encode_decode _ _ _ _ Hp). cbn. destruct chunk; cbn in *. by subst.
Qed.
End payloads.

(** ** [astra files put] *)

(** System calls of the server that succeed; responses may still be lost. *)
Definition reliable_fate (f : Fate) : Prop :=
  match f with Delivered io | LostAfter io => io = io_reliable | LostBefore => True end.
Definition not_lost (f : Fate) : bool := match f with Delivered _ => true | _ => false end.
(** The name of a path can be given to a regular file without changing another name. *)
Definition plain (fs : FileSystem) (p : Path) : Prop :=
  match fs !! p with None | Some (NFile _ _) => True | _ => False end.

Section put.
Context `{PayloadLaws}.
Variable parse_uuid : string -> option string.
Variable canonicalize : FileSystem -> Path -> FileServiceError + Path.
Variable zstd : bool.
Hypothesis compresses : forall data, is_ok (zstd_compress data) = true.
(** Writing a regular file does not change where other paths lead. *)
Hypothesis canonicalize_files : forall fs p q r content mode,
  plain fs r -> canonicalize fs p = inr q -> canonicalize (<[r := NFile content mode]> fs) p = inr q.

Lemma resolve_new_file fs root raw p r content mode :
  plain fs r -> resolve_new canonicalize fs root raw = Returned p ->
  resolve_new canonicalize (<[r := NFile content mode]> fs) root raw = Returned p.
Proof.
  intros Hr. unfold resolve_new. cbn. destruct (requested_path root raw) as [c|e|]; try done. cbn.
  destruct (split_last c) as [[parent name]|]; [|done]. unfold canonical.
  destruct (canonicalize fs parent) as [e|q] eqn:E; [done|]. by rewrite (canonicalize_files _ _ _ _ _ _ Hr E).
Qed.

Context (w0 : World) (request : BeginUploadRequest) (parent : Path) (name data : bytes).
Hypothesis Hq : fresh_request parse_uuid canonicalize w0 request parent name data.
Hypothesis Hsha : bu_sha256 request = sha256 data.
Abbreviation begin := (begin_upload_with_reconnect parse_uuid canonicalize).

(** A known transfer is answered with its status. *)
Lemma begin_again io w u :
  w_uploads w !! bu_transfer_id request = Some u -> resolve_new canonicalize (w_fs w) (w_root w) (bu_path request) = Returned (parent ++ [name]) ->
  up_target u = parent ++ [name] -> up_size u = bu_size request -> up_expected_sha256 u = bu_sha256 request ->
  begin_upload parse_uuid canonicalize io request w = (w, Returned (upload_status u)).
Proof.
  intros Hu Hres Ht Hs Hd. unfold begin_upload, mbind, FileM_bind, lift, get, id.
  rewrite valid_id by apply (fq_id _ _ _ _ _ _ _ Hq). rewrite (fq_digest _ _ _ _ _ _ _ Hq), Hres.
  unfold upload_temporary_path. rewrite split_last_snoc. cbv zeta. rewrite Hu, Ht, Hs, Hd.
  by rewrite !bool_decide_eq_true_2, N.eqb_refl.
Qed.

(** The client reconnects until its answer arrives: the request was executed at least
    once, which is what executing it once does. *)
Lemma begin_until w w' st fates fuel :
  begin_upload parse_uuid canonicalize io_reliable request w = (w', Returned st) ->
  begin_upload parse_uuid canonicalize io_reliable request w' = (w', Returned st) ->
  Forall reliable_fate fates -> (length fates < fuel)%nat ->
  exists fates', begin fuel request (mkUploading w fates) = (mkUploading w' fates', Done st) /\
    Forall reliable_fate fates' /\ (length fates' <= length fates)%nat.
Proof.
  intros Hb Hb' Hf. revert w Hb fuel. induction Hf as [|f fates Hf Hfs IH]; intros w Hb fuel Hfuel; (destruct fuel as [|fuel]; [cbn in Hfuel; lia|]);
    cbn [begin_upload_with_reconnect length] in *; unfold c_bind, c_try, rpc; cbn [ul_fates ul_world].
  - rewrite Hb. cbn. by exists [].
  - destruct f as [io| |io]; cbn in Hf; subst.
    + rewrite Hb. cbn. exists fates. split; [done|]. split; [done|lia].
    + cbn. destruct (IH w Hb fuel) as (fates' & He & ? & ?); [lia|]. exists fates'. split; [exact He|]. split; [done|lia].
    + rewrite Hb. cbn. destruct (IH w' Hb' fuel) as (fates' & He & ? & ?); [lia|]. exists fates'. split; [exact He|]. split; [done|lia].
Qed.

Lemma client_write_wire chunk s : llen (wc_data chunk) <= MAX_FILE_CHUNK_SIZE -> wc_encoding chunk = 0%Z -> wc_uncompressed_size chunk = 0 ->
  client_write_chunk parse_uuid zstd chunk s = rpc (fun io => write_chunk parse_uuid io chunk) s.
Proof.
  intros Hl He Hu. destruct (upload_wire zstd compresses chunk Hl He Hu) as (sent & Hs & Hd).
  unfold client_write_chunk, rpc, serve_write. by rewrite Hs, Hd.
Qed.

Context (wb : World) (rs : list PoolReservation).
Let u := new_upload request parent name rs.
Hypothesis Hfs : w_fs wb = w_fs w0.
Hypothesis Hroot : w_root wb = w_root w0.
Hypothesis Hdrop : drop_reservations (w_pools wb) rs = Some (w_pools w0).

Lemma put_size : up_size u = llen data.
Proof. apply (proj1 (fq_size _ _ _ _ _ _ _ Hq)). Qed.
Lemma put_small : llen data <= U64_MAX.
Proof. apply (proj2 (fq_size _ _ _ _ _ _ _ Hq)). Qed.
Lemma begin_sending off content :
  begin_upload parse_uuid canonicalize io_reliable request (at_offset wb u off content) =
    (at_offset wb u off content, Returned (upload_status (set_offset u off))).
Proof.
  apply begin_again; [by cbn; rewrite lookup_insert_eq| |done..]. cbn. rewrite Hfs, Hroot. apply resolve_new_file.
  - unfold plain. by rewrite (fq_temporary _ _ _ _ _ _ _ Hq).
  - apply (fq_resolve _ _ _ _ _ _ _ Hq).
Qed.
Lemma begin_finished pools :
  begin_upload parse_uuid canonicalize io_reliable request (committed_world wb u data pools) =
    (committed_world wb u data pools, Returned (upload_status (finish (set_offset u (llen data)) Completed))).
Proof.
  apply begin_again; [by cbn; rewrite lookup_insert_eq| |done..]. cbn. rewrite Hfs, Hroot. apply resolve_new_file.
  - unfold plain. by rewrite (fq_target _ _ _ _ _ _ _ Hq).
  - apply (fq_resolve _ _ _ _ _ _ _ Hq).
Qed.

Abbreviation offered := (fun off => mkWriteChunk (bu_transfer_id request) off
  (take (N.to_nat (N.min (bu_size request - off) MAX_FILE_CHUNK_SIZE)) (drop (N.to_nat off) data))
  (sha256 (take (N.to_nat (N.min (bu_size request - off) MAX_FILE_CHUNK_SIZE)) (drop (N.to_nat off) data))) 0 0).

(** One chunk, whatever happens to its messages: the upload has moved on, or a fate was
    used up. *)
Lemma write_until off content fates fuel :
  prefix_ok data off content -> off < llen data -> Forall reliable_fate fates -> (length fates <= fuel)%nat ->
  exists off' content' fates',
    write_chunk_with_reconnect parse_uuid canonicalize zstd fuel request (offered off) (mkUploading (at_offset wb u off content) fates) =
      (mkUploading (at_offset wb u off' content') fates', Done (upload_status (set_offset u off'))) /\
    prefix_ok data off' content' /\ Forall reliable_fate fates' /\ off <= off' /\ off' <= llen data /\ (length fates' <= length fates)%nat /\
    (off < off' \/ (length fates' < length fates)%nat).
Proof.
  intros Hok Hlt Hf Hfuel. pose proof put_size as Hsize. pose proof put_small as Hsmall. cbn in Hsize.
  set (len := N.to_nat (N.min (bu_size request - off) MAX_FILE_CHUNK_SIZE)).
  assert (Hlen : (0 < len)%nat /\ N.of_nat len <= MAX_FILE_CHUNK_SIZE /\ N.min (off + N.of_nat len) (llen data) = off + N.of_nat len).
  { unfold len, MAX_FILE_CHUNK_SIZE in *. cbn in Hsize. rewrite Hsize. lia. }
  destruct Hlen as (Hlen & Hmax & Hmin).
  assert (Hwrite : exists content', prefix_ok data (off + N.of_nat len) content' /\
    write_chunk parse_uuid io_reliable (offered off) (at_offset wb u off content) =
      (at_offset wb u (off + N.of_nat len) content', Returned (upload_status (set_offset u (off + N.of_nat len))))).
  { pose proof (write_chunk_next parse_uuid wb u data off content len eq_refl put_size Hok (fq_id _ _ _ _ _ _ _ Hq) Hsmall Hlt Hlen Hmax) as HW.
    rewrite Hmin in HW. unfold wp in HW. destruct HW as (content' & Ho & Hw & Hok'). exists content'. split; [done|].
    rewrite <- Ho, <- Hw. by destruct (write_chunk _ _ _ _). }
  destruct Hwrite as (content' & Hok' & Hwrite). assert (Hbound : off + N.of_nat len <= llen data) by lia.
  unfold write_chunk_with_reconnect, c_bind at 1, c_try.
  rewrite client_write_wire by (try done; cbn; unfold llen; rewrite length_take; lia). unfold rpc. cbn [ul_fates ul_world].
  destruct Hf as [|f fates Hf Hrest]; [|destruct f as [io| |io]; cbn in Hf; subst]; cbn [length] in *.
  - rewrite Hwrite. cbn. exists (off + N.of_nat len), content', []. split_and!; try done; try lia.
  - rewrite Hwrite. cbn. exists (off + N.of_nat len), content', fates. split_and!; try done; try lia.
  - cbn [answer_of is_permanent_file_error]. destruct (begin_until (at_offset wb u off content) _ _ fates fuel (begin_sending off content) (begin_sending off content) Hrest)
      as (fates' & -> & Hf' & Hle); [lia|]. exists off, content, fates'. split_and!; try done; lia.
  - rewrite Hwrite. cbn [fst answer_of is_permanent_file_error].
    destruct (begin_until _ _ _ fates fuel (begin_sending (off + N.of_nat len) content') (begin_sending (off + N.of_nat len) content') Hrest)
      as (fates' & -> & Hf' & Hle); [lia|]. exists (off + N.of_nat len), content', fates'. split_and!; try done; lia.
Qed.

Lemma send_until fuel off content fates :
  prefix_ok data off content -> off <= llen data -> Forall reliable_fate fates ->
  (N.to_nat (llen data - off) + length fates <= fuel)%nat ->
  exists content' fates',
    send_chunks parse_uuid canonicalize zstd fuel MAX_FILE_CHUNK_SIZE request data off (mkUploading (at_offset wb u off content) fates) =
      (mkUploading (at_offset wb u (llen data) content') fates', Done tt) /\
    prefix_ok data (llen data) content' /\ Forall reliable_fate fates' /\ (length fates' <= length fates)%nat.
Proof.
  pose proof put_size as Hsize. cbn in Hsize.
  revert off content fates. induction fuel as [|fuel IH]; intros off content fates Hok Hle Hf Hfuel; cbn [send_chunks]; rewrite Hsize.
  - assert (off = llen data) as -> by lia. rewrite N.ltb_irrefl. by exists content, fates.
  - destruct (N.ltb_spec off (llen data)) as [Hlt|Hge]; cbn [negb]; [|assert (off = llen data) as -> by lia; by exists content, fates].
    replace (negb (llen (take (N.to_nat (N.min (llen data - off) MAX_FILE_CHUNK_SIZE)) (drop (N.to_nat off) data)) =? N.min (llen data - off) MAX_FILE_CHUNK_SIZE))
      with false.
    2:{ symmetry. apply negb_false_iff, N.eqb_eq. unfold llen in *. rewrite length_take, length_drop. lia. }
    destruct (write_until off content fates fuel Hok Hlt Hf) as (off' & content' & fates' & Hw & Hok' & Hf' & Hmono & Hb & Hl & Hprog); [lia..|].
    rewrite Hsize in Hw. unfold c_bind. rewrite Hw. cbn [upload_status us_committed_offset set_offset up_committed_offset].
    destruct (IH off' content' fates') as (content'' & fates'' & -> & ? & ? & ?); [done..|lia|]. exists content'', fates''. split_and!; try done. lia.
Qed.

Lemma commit_until fuel content fates :
  prefix_ok data (llen data) content -> Forall reliable_fate fates -> (length fates < fuel)%nat ->
  exists fates' st,
    commit_upload_with_reconnect parse_uuid canonicalize fuel request (mkUploading (at_offset wb u (llen data) content) fates) =
      (mkUploading (committed_world wb u data (w_pools w0)) fates', Done st) /\ us_state st = "completed"%string.
Proof.
  intros Hok. revert fates. induction fuel as [|fuel IH]; intros fates Hf Hfuel; [lia|].
  assert (Hcommit : commit_upload parse_uuid io_reliable (bu_transfer_id request) (at_offset wb u (llen data) content) =
    (committed_world wb u data (w_pools w0), Returned (upload_status (finish (set_offset u (llen data)) Completed)))).
  { destruct Hq as [Hid _ _ _ _ Hname Htg Htmp _ _].
    assert (Hne : up_target u <> up_temporary u) by (cbn; intros [_ [= Heq]]%app_inj_2; done).
    pose proof (commit_reliable parse_uuid wb u data content (w_pools w0) eq_refl put_size Hok Hid Hne) as HW. unfold wp in HW.
    destruct (commit_upload _ _ _ _) as [w' o]. cbn [fst snd] in HW. destruct HW as [-> ->]; [by rewrite Hfs..| |done|done].
    intros _. exact Hsha. }
  cbn [commit_upload_with_reconnect]. unfold c_bind at 1, c_try, rpc. cbn [ul_fates ul_world].
  destruct Hf as [|f fates Hf Hrest]; [|destruct f as [io| |io]; cbn in Hf; subst]; cbn [length] in *.
  - rewrite Hcommit. cbn. by eexists [], _.
  - rewrite Hcommit. cbn. by eexists fates, _.
  - cbn [is_permanent_file_error]. unfold c_bind.
    destruct (begin_until _ _ _ fates fuel (begin_sending (llen data) content) (begin_sending (llen data) content) Hrest)
      as (fates' & -> & Hf' & Hle); [lia|]. rewrite bool_decide_eq_false_2 by done. apply IH; [done|lia].
  - rewrite Hcommit. cbn [fst is_permanent_file_error]. unfold c_bind.
    destruct (begin_until _ _ _ fates fuel (begin_finished (w_pools w0)) (begin_finished (w_pools w0)) Hrest)
      as (fates' & -> & Hf' & Hle); [lia|]. rewrite bool_decide_eq_true_2 by done. by eexists _, _.
Qed.
End put.

Section properties.
Context `{PayloadLaws}.
Variable parse_uuid : string -> option string.
Variable canonicalize : FileSystem -> Path -> FileServiceError + Path.

End properties.

(** ** Witnesses *)

Lemma ex_compresses data : is_ok (@zstd_compress ex_payload_lib data) = true.
Proof. destruct data as [|x data]; [done|]. cbn - [forallb]. by destruct (forallb _ _). Qed.
Lemma ex_canonicalize_stable fs p q r content mode :
  plain fs r -> ex_canonicalize fs p = inr q -> ex_canonicalize (<[r := NFile content mode]> fs) p = inr q.
Proof.
  unfold ex_canonicalize, plain. intros Hr Hp. destruct (decide (p = r)) as [->|Hne]; [by destruct (fs !! r) as [[]|]|].
  by rewrite lookup_insert_ne.
Qed.
