(* ===== verification/DownloadSpec.v ===== *)
(** * Downloads that are interrupted and resumed *)
From S2P Require Import Prelude Text Resources TerminalState Payload Negotiation Files FilesSpec Messages FileReads FileReadsSpec FileClient FileClientSpec.
Open Scope N_scope.
#[local] Arguments path_metadata : simpl never.
#[local] Arguments followed : simpl never.
#[local] Arguments begin_download : simpl never.
#[local] Arguments read_chunk : simpl never.

Definition with_local (fs : FileSystem) (kill : option (nat * nat)) (s : Downloading) : Downloading :=
  mkDownloading fs kill (dn_exchanges s) (dn_root s) (dn_disk s).
Definition with_exchanges (exchanges : list Exchange) (s : Downloading) : Downloading :=
  mkDownloading (dn_local s) (dn_kill s) exchanges (dn_root s) (dn_disk s).

(** A run that does not fail: [Q] when it ends, [K] when it is stopped. *)
Definition cwp {A} (m : Client Downloading A) (s : Downloading) (Q : Downloading -> A -> Prop) (K : Downloading -> Prop) : Prop :=
  match m s with (s', Done a) => Q s' a | (s', Stopped) => K s' | (_, Gone _) => False end.
Lemma cwp_bind {A B} (m : Client Downloading A) (f : A -> Client Downloading B) s Q K :
  cwp m s (fun s' a => cwp (f a) s' Q K) K -> cwp (c_bind m f) s Q K.
Proof. unfold cwp, c_bind. by destruct (m s) as [s' [a|e|]]. Qed.
Lemma cwp_ret {A} (a : A) s (Q : Downloading -> A -> Prop) K : Q s a -> cwp (c_ret a) s Q K.
Proof. done. Qed.
Lemma cwp_local {A} (f : FileSystem -> A) s (Q : Downloading -> A -> Prop) K : Q s (f (dn_local s)) -> cwp (local f) s Q K.
Proof. done. Qed.
Lemma cwp_conseq {A} (m : Client Downloading A) s (Q Q' : Downloading -> A -> Prop) (K : Downloading -> Prop) :
  cwp m s Q' K -> (forall s' a, Q' s' a -> Q s' a) -> cwp m s Q K.
Proof. unfold cwp. destruct (m s) as [s' [a|e|]]; auto. Qed.
Lemma cwp_change f partly s (Q : Downloading -> () -> Prop) (K : Downloading -> Prop) :
  (forall kill, (dn_kill s = None -> kill = None) -> Q (with_local (f (dn_local s)) kill s) tt) ->
  (forall k, dn_kill s = Some (O, k) -> K (with_local (partly k (dn_local s)) (Some (O, k)) s)) ->
  cwp (change f partly) s Q K.
Proof.
  intros HQ HK. unfold cwp, change. destruct (dn_kill s) as [[[|n] k]|] eqn:E; [by apply HK|by apply HQ|by apply HQ].
Qed.
Lemma cwp_done {A} (m : Client Downloading A) s s' a Q K : m s = (s', Done a) -> Q s' a -> cwp m s Q K.
Proof. unfold cwp. by intros ->. Qed.

Section get.
Context `{PayloadLaws}.
Variable canonicalize : FileSystem -> Path -> FileServiceError + Path.
Variable zstd : bool.
Variable new_mode : N.
Hypothesis compresses : forall data, is_ok (zstd_compress data) = true.

(** A remote file that does not change. *)
Context (root : Path) (d : Disk) (raw : bytes) (p : Path) (c : bytes) (mode : N).
Hypothesis Hresolve : resolve_existing canonicalize (dk_fs d) root raw true = Returned p.
Hypothesis Hfile : path_metadata (dk_fs d) p = Some (NFile c mode).
Definition remote_metadata : Metadata := node_metadata (NFile c mode) (dk_attributes d (followed 40 (dk_fs d) p)).
Definition remote_snapshot : bytes := file_snapshot p remote_metadata.
Lemma remote_snapshot_length : llen remote_snapshot = 32.
Proof. apply sha256_length. Qed.
Definition remote_download : BeginDownloadResponse :=
  mkDownload (Some (file_metadata p remote_metadata)) remote_snapshot (sha256 c) MAX_FILE_CHUNK_SIZE.

Definition steady (e : Exchange) : Prop :=
  match e with Answered io d' seen => io = io_reliable /\ d' = d /\ seen = id | Lost => True end.
Record steady_state (n : nat) (s : Downloading) : Prop := {
  sy_root : dn_root s = root;
  sy_disk : dn_disk s = d;
  sy_exchanges : Forall steady (dn_exchanges s);
  sy_bound : (length (dn_exchanges s) <= n)%nat
}.

Lemma begin_steady : begin_download canonicalize id io_reliable root d (mkBeginDownload raw true) = Returned remote_download.
Proof.
  unfold begin_download. cbn [bd_path]. rewrite Hresolve. cbn [mbind outcome_bind system_call io_fault io_reliable]. unfold disk_metadata.
  rewrite Hfile. cbn - [sha256 file_metadata file_snapshot]. unfold content_of. by rewrite Hfile.
Qed.

Lemma begin_steadily fuel n s : steady_state n s -> (length (dn_exchanges s) < fuel)%nat ->
  exists exchanges, begin_download_with_reconnect canonicalize fuel raw s = (with_exchanges exchanges s, Done remote_download) /\
    Forall steady exchanges /\ (length exchanges <= length (dn_exchanges s))%nat.
Proof.
  intros [Hr Hd Hex _]. destruct s as [fs kill exchanges root' d']. cbn in *. subst root' d'.
  revert fuel. induction Hex as [|e exchanges He Hrest IH]; intros fuel Hfuel; (destruct fuel as [|fuel]; [lia|]);
    cbn [begin_download_with_reconnect length] in *; unfold c_bind, c_try, client_begin_download, query; cbn [dn_exchanges dn_root dn_disk dn_local dn_kill].
  - rewrite begin_steady. by exists [].
  - destruct e as [io d' seen|].
    + destruct He as (-> & -> & ->). rewrite begin_steady. exists exchanges. split; [done|]. split; [done|lia].
    + cbn [is_permanent_file_error]. destruct (IH fuel) as (ex & Heq & ? & ?); [lia|]. exists ex. rewrite Heq. split; [done|]. split; [done|lia].
Qed.

(** The bytes of a chunk. *)
Definition chunk_at (offset : N) : bytes := take (N.to_nat (N.min (llen c - offset) MAX_FILE_CHUNK_SIZE)) (drop (N.to_nat offset) c).
Definition chunk_request_at (offset : N) : ReadFileChunkRequest := mkReadChunk raw remote_snapshot offset MAX_FILE_CHUNK_SIZE.
Lemma chunk_at_length offset : llen (chunk_at offset) = N.min (llen c - offset) MAX_FILE_CHUNK_SIZE.
Proof. unfold chunk_at, llen. rewrite length_take, length_drop. lia. Qed.

Lemma read_steady offset : offset < llen c ->
  exists chunk sent, serve_read canonicalize zstd (chunk_request_at offset) io_reliable root d id = Returned sent /\
    decode_download sent zstd = Ok chunk /\ fc_offset chunk = offset /\ fc_data chunk = chunk_at offset.
Proof.
  intros Hlt. unfold serve_read.
  assert (Hread : exists chunk, read_chunk canonicalize id io_reliable root d (chunk_request_at offset) = Returned chunk /\
    fc_offset chunk = offset /\ fc_data chunk = chunk_at offset /\ fc_sha256 chunk = sha256 (fc_data chunk) /\
    fc_encoding chunk = 0%Z /\ fc_uncompressed_size chunk = 0).
  { unfold read_chunk. cbn [chunk_request_at rf_snapshot rf_length rf_path rf_offset]. rewrite remote_snapshot_length, N.min_id.
    change (negb (MAX_FILE_CHUNK_SIZE =? 0)) with true. change (32 =? 32) with true.
    cbn [check mbind outcome_bind]. rewrite Hresolve. cbn [mbind outcome_bind system_call io_fault io_reliable]. unfold disk_metadata. rewrite Hfile.
    cbn [fmap option_fmap option_map found mbind outcome_bind]. fold remote_metadata. change (mt_kind remote_metadata) with FkRegular. change (mt_len remote_metadata) with (llen c).
    rewrite (bool_decide_eq_true_2 (FkRegular = FkRegular)) by done. cbn [check mbind outcome_bind]. fold remote_snapshot.
    rewrite (bool_decide_eq_true_2 (remote_snapshot = _)) by done. cbn [check mbind outcome_bind]. rewrite (proj2 (N.leb_le offset (llen c))) by lia.
    cbn [check mbind outcome_bind]. eexists. split; [reflexivity|]. cbn. unfold content_of. rewrite Hfile. done. }
  destruct Hread as (chunk & -> & Ho & Hd & Hs & He & Hu). cbn [mbind outcome_bind].
  destruct (download_wire zstd compresses chunk) as (sent & -> & Hdec); [rewrite Hd, chunk_at_length; lia|done..|].
  by exists chunk, sent.
Qed.

Lemma read_steadily fuel n s offset : steady_state n s -> (length (dn_exchanges s) < fuel)%nat -> offset < llen c ->
  exists exchanges chunk, read_chunk_with_reconnect canonicalize zstd fuel raw remote_download remote_download (chunk_request_at offset) s =
      (with_exchanges exchanges s, Done (remote_download, chunk)) /\
    fc_offset chunk = offset /\ fc_data chunk = chunk_at offset /\
    Forall steady exchanges /\ (length exchanges <= length (dn_exchanges s))%nat.
Proof.
  intros Hs Hfuel Hlt. destruct (read_steady offset Hlt) as (chunk & sent & Hserve & Hdec & Ho & Hd).
  assert (Hsmall : (fc_offset chunk =? offset) && (llen (fc_data chunk) <=? MAX_FILE_CHUNK_SIZE) = true).
  { rewrite Ho, Hd, N.eqb_refl, chunk_at_length. apply N.leb_le. lia. }
  revert n s Hs Hfuel. induction fuel as [|fuel IH]; intros n s Hs Hfuel; [lia|].
  destruct s as [fs kill exchanges root' d']. destruct Hs as [Hr Hdk Hex Hb]. cbn in Hr, Hdk, Hex, Hb, Hfuel |- *. subst root' d'.
  unfold c_bind, c_try, client_read_chunk, query. cbn [dn_exchanges dn_root dn_disk dn_local dn_kill].
  destruct Hex as [|e exchanges He Hrest]; [|destruct e as [io d' seen|]]; cbn [length dn_exchanges] in *.
  - unfold c_bind. cbn [dn_exchanges dn_root dn_disk dn_local dn_kill]. rewrite Hserve. cbn [answer_of]. rewrite Hdec. cbn [chunk_request_at rf_offset rf_length].
    rewrite Hsmall. by exists [], chunk.
  - destruct He as (-> & -> & ->). unfold c_bind. cbn [dn_exchanges dn_root dn_disk dn_local dn_kill]. rewrite Hserve. cbn [answer_of]. rewrite Hdec.
    cbn [chunk_request_at rf_offset rf_length]. rewrite Hsmall. exists exchanges, chunk. split_and!; try done. lia.
  - unfold c_bind. cbn [dn_exchanges dn_root dn_disk dn_local dn_kill is_permanent_file_error].
    destruct (begin_steadily fuel n (mkDownloading fs kill exchanges root d)) as (ex & Heq & Hex & Hlen); [by split; cbn; (done || lia)|cbn; lia|].
    cbn in Heq, Hlen. rewrite Heq. rewrite !bool_decide_eq_true_2 by done. cbn [negb orb].
    destruct (IH n (with_exchanges ex (mkDownloading fs kill exchanges root d))) as (ex' & chunk' & -> & ? & ? & ? & Hlen'); [by split; cbn; (done || lia)|cbn; lia|].
    cbn in Hlen'. exists ex', chunk'. split_and!; try done. cbn. lia.
Qed.

(** *** The local files *)

Context (fuel : nat) (parent : Path) (name : bytes).
Definition destination : Path := parent ++ [name].
Definition temporary : Path := parent ++ [name ++ str_bytes ".astra-part"].
Definition snapshot_file : Path := parent ++ [(name ++ str_bytes ".astra-part") ++ str_bytes ".snapshot"].

Lemma download_paths : download_temporary_paths destination = Ok (temporary, snapshot_file).
Proof. unfold download_temporary_paths, destination. by rewrite split_last_snoc. Qed.
Lemma snoc_longer (x y : bytes) : (length x < length y)%nat -> parent ++ [x] <> parent ++ [y].
Proof. intros Hl E. apply app_inv_head in E. injection E as ->. lia. Qed.
Lemma destination_temporary : destination <> temporary.
Proof. apply snoc_longer. rewrite length_app. cbn. lia. Qed.
Lemma destination_snapshot : destination <> snapshot_file.
Proof. apply snoc_longer. rewrite !length_app. cbn. lia. Qed.
Lemma temporary_snapshot : temporary <> snapshot_file.
Proof. apply snoc_longer. rewrite !length_app. cbn. lia. Qed.

Definition file_or_absent (o : option Node) : Prop := match o with None | Some (NFile _ _) => True | _ => False end.
(** What an interrupted download leaves: a partial file whose snapshot is recorded holds the
    first bytes of the file. *)
Record resumable (fs : FileSystem) : Prop := {
  rs_temporary : file_or_absent (fs !! temporary);
  rs_snapshot : file_or_absent (fs !! snapshot_file);
  rs_destination : fs !! destination <> Some NDir;
  rs_prefix content m m' : fs !! snapshot_file = Some (NFile remote_snapshot m') -> fs !! temporary = Some (NFile content m) ->
    content `prefix_of` c
}.
Definition fetched : option Node := Some (NFile c (N.land mode 511)).
(** Nothing but the three files differs. *)
Definition elsewhere (fs fs' : FileSystem) : Prop :=
  forall x, x <> destination -> x <> temporary -> x <> snapshot_file -> fs' !! x = fs !! x.
Record interrupted (fs fs' : FileSystem) : Prop := {
  in_resumable : resumable fs';
  in_elsewhere : elsewhere fs fs';
  in_destination : fs' !! destination = fs !! destination \/ fs' !! destination = fetched
}.
Lemma elsewhere_trans fs fs' fs'' : elsewhere fs fs' -> elsewhere fs' fs'' -> elsewhere fs fs''.
Proof. intros H1 H2 x Hd Ht Hs. rewrite H2, H1; done. Qed.
Lemma interrupted_refl fs : resumable fs -> interrupted fs fs.
Proof. intros Hr. split; [done|by intros x|by left]. Qed.
Lemma interrupted_trans fs fs' fs'' : interrupted fs fs' -> interrupted fs' fs'' -> interrupted fs fs''.
Proof.
  intros H1 H2. split; [apply H2|exact (elsewhere_trans _ _ _ (in_elsewhere _ _ H1) (in_elsewhere _ _ H2))|].
  destruct (in_destination _ _ H2) as [->|]; [apply H1|by right].
Qed.

(** The partial file holds [offset] bytes of the file. *)
Definition holds (offset : N) (fs : FileSystem) : Prop :=
  exists m, fs !! temporary = Some (NFile (take (N.to_nat offset) c) m).
Lemma insert_temporary fs content m : resumable fs -> content `prefix_of` c -> interrupted fs (<[temporary := NFile content m]> fs).
Proof.
  intros Hr Hc. pose proof destination_temporary. pose proof temporary_snapshot. split.
  - split.
    + by rewrite lookup_insert_eq.
    + rewrite lookup_insert_ne by done. apply Hr.
    + rewrite lookup_insert_ne by done. apply Hr.
    + intros content' m1 m2. rewrite lookup_insert_ne, lookup_insert_eq by done. by intros _ [= <- <-].
  - intros x _ Hx _. by rewrite lookup_insert_ne.
  - left. by rewrite lookup_insert_ne.
Qed.
Lemma delete_temporary fs : resumable fs -> interrupted fs (delete temporary fs).
Proof.
  intros Hr. pose proof destination_temporary. pose proof temporary_snapshot. split.
  - split.
    + by rewrite lookup_delete_eq.
    + rewrite lookup_delete_ne by done. apply Hr.
    + rewrite lookup_delete_ne by done. apply Hr.
    + intros content' m1 m2 _. by rewrite lookup_delete_eq.
  - intros x _ Hx _. by rewrite lookup_delete_ne.
  - left. by rewrite lookup_delete_ne.
Qed.
(** The snapshot is recorded over any part of itself. *)
Lemma insert_snapshot fs content m : resumable fs ->
  fs !! temporary = None \/ (exists m', fs !! snapshot_file = Some (NFile remote_snapshot m')) ->
  interrupted fs (<[snapshot_file := NFile content m]> fs).
Proof.
  intros Hr Hc. pose proof destination_snapshot. pose proof temporary_snapshot. split.
  - split.
    + rewrite lookup_insert_ne by done. apply Hr.
    + by rewrite lookup_insert_eq.
    + rewrite lookup_insert_ne by done. apply Hr.
    + intros content' m1 m2. rewrite lookup_insert_eq. intros _. rewrite lookup_insert_ne by done. intros Ht.
      destruct Hc as [Hc|[m' Hs]]; [congruence|]. exact (rs_prefix _ Hr _ _ _ Hs Ht).
  - intros x _ _ Hx. by rewrite lookup_insert_ne.
  - left. by rewrite lookup_insert_ne.
Qed.

Lemma write_next offset data k : data = chunk_at offset -> offset <= llen c ->
  write_at (take (N.to_nat offset) c) (N.to_nat offset) (take k data) = take (N.to_nat (N.min (offset + N.of_nat k) (offset + llen data))) c.
Proof.
  intros -> Ho. pose proof (chunk_at_length offset) as Hl. unfold llen in *.
  set (off := N.to_nat offset). set (data' := take k (chunk_at offset)).
  assert (Hd : length data' = Nat.min k (length (chunk_at offset))) by apply length_take.
  pose proof (write_at_extends (take off c) off data' c) as Hw. pose proof (write_at_length (take off c) off data') as Hlen.
  rewrite length_take in Hw, Hlen. rewrite (take_ge (write_at _ _ _)) in Hw by lia. rewrite Hw.
  - f_equal. lia.
  - lia.
  - by rewrite take_take, Nat.min_id.
  - lia.
  - rewrite Hd. unfold data', chunk_at. rewrite length_take, length_drop, take_take. f_equal. unfold llen. lia.
Qed.

(** *** A run *)

Record stage (fs : FileSystem) (kill : option (nat * nat)) (n : nat) (s : Downloading) : Prop := {
  sg_steady : steady_state n s;
  sg_interrupted : interrupted fs (dn_local s);
  sg_kill : kill = None -> dn_kill s = None
}.
(** A run that is killed leaves a download that can be resumed. *)
Definition killed (fs : FileSystem) (kill : option (nat * nat)) (s : Downloading) : Prop :=
  kill <> None /\ interrupted fs (dn_local s).
Lemma stage_resumable fs kill n s : stage fs kill n s -> resumable (dn_local s).
Proof. intros Hs. apply Hs. Qed.
Lemma stage_exchanges fs kill n s exchanges : stage fs kill n s -> Forall steady exchanges -> (length exchanges <= length (dn_exchanges s))%nat ->
  stage fs kill n (with_exchanges exchanges s).
Proof. intros [[H1 H2 H3 H4] H5 H6] He Hl. split; [split|done..]; cbn; (done || lia). Qed.
Lemma stage_change fs kill n s f partly (Q : Downloading -> () -> Prop) : stage fs kill n s ->
  (forall k, interrupted (dn_local s) (partly k (dn_local s))) -> interrupted (dn_local s) (f (dn_local s)) ->
  (forall s', stage fs kill n s' -> dn_local s' = f (dn_local s) -> dn_exchanges s' = dn_exchanges s -> Q s' tt) ->
  cwp (change f partly) s Q (killed fs kill).
Proof.
  intros [[H1 H2 H3 H4] H5 H6] Hpartly Hf HQ. apply cwp_change.
  - intros kill' Hkill. apply HQ; [|done..]. split; [by split|exact (interrupted_trans _ _ _ H5 Hf)|]. intros ->. by apply Hkill, H6.
  - intros k Hk. split; [intros Hn; rewrite H6 in Hk; done|]. exact (interrupted_trans _ _ _ H5 (Hpartly k)).
Qed.
Lemma stage_atomically fs kill n s f (Q : Downloading -> () -> Prop) : stage fs kill n s -> interrupted (dn_local s) (f (dn_local s)) ->
  (forall s', stage fs kill n s' -> dn_local s' = f (dn_local s) -> dn_exchanges s' = dn_exchanges s -> Q s' tt) ->
  cwp (atomically f) s Q (killed fs kill).
Proof. intros Hs. apply (stage_change fs kill n); [done|]. intros _. apply interrupted_refl, Hs. Qed.

Definition recorded (fs : FileSystem) : Prop := exists m, fs !! snapshot_file = Some (NFile remote_snapshot m).
Lemma recorded_temporary fs content m : recorded fs -> recorded (<[temporary := NFile content m]> fs).
Proof. intros [m' Hm]. exists m'. by rewrite lookup_insert_ne by apply temporary_snapshot. Qed.
Lemma take_prefix k : take k c `prefix_of` c.
Proof. exists (drop k c). by rewrite take_drop. Qed.

Lemma fetch_steadily fs kill n f s offset : stage fs kill n s -> holds offset (dn_local s) -> recorded (dn_local s) -> offset <= llen c ->
  (N.to_nat (llen c - offset) + length (dn_exchanges s) < f)%nat ->
  cwp (fetch_chunks canonicalize zstd f MAX_FILE_CHUNK_SIZE raw temporary (llen c) remote_download offset) s
    (fun s' r => r = remote_download /\ stage fs kill n s' /\ holds (llen c) (dn_local s')) (killed fs kill).
Proof.
  revert s offset. induction f as [|f IH]; intros s offset Hs Hholds Hrec Hle Hf; [lia|]. cbn [fetch_chunks].
  destruct (N.ltb_spec offset (llen c)) as [Hlt|Hge]; cbn [negb]; [|apply cwp_ret; by replace (llen c) with offset by lia].
  destruct (read_steadily f n s offset) as (ex & chunk & Heq & Ho & Hd & Hex & Hlen); [apply Hs|lia|done|].
  apply cwp_bind, (cwp_done _ _ _ _ _ _ Heq). cbn beta iota zeta.
  pose proof (chunk_at_length offset) as Hl. rewrite Ho, N.eqb_refl. cbn [negb orb].
  assert (0 < llen (fc_data chunk)) by (rewrite Hd, Hl; unfold MAX_FILE_CHUNK_SIZE; lia).
  destruct (fc_data chunk) as [|b data'] eqn:Edata; [by cbn in *|]. cbn [is_empty]. rewrite <- Edata in *. clear b data' Edata.
  destruct Hholds as [m Hm]. pose proof (write_next offset (fc_data chunk)) as Hw. rewrite Hd in Hw.
  apply cwp_bind, (stage_change fs kill n); [by apply stage_exchanges|..]; cbn [dn_local with_exchanges]; rewrite ?Hm, Hd.
  - intros k. rewrite Hw by done. apply insert_temporary; [apply Hs|apply take_prefix].
  - rewrite <- (take_ge (chunk_at offset) (length (chunk_at offset))) by done. rewrite Hw by done. apply insert_temporary; [apply Hs|apply take_prefix].
  - intros s' Hs' Hfs' Hex'. cbn in Hex'. rewrite <- (take_ge (chunk_at offset) (length (chunk_at offset))), Hw in Hfs' by done.
    apply IH; [done|..].
    + exists m. rewrite Hfs', lookup_insert_eq. unfold llen. by rewrite N.min_id.
    + rewrite Hfs'. by apply recorded_temporary.
    + lia.
    + rewrite Hex'. rewrite Hd in *. lia.
Qed.

Definition record_snapshot : Client Downloading () :=
  change (<[snapshot_file := NFile remote_snapshot new_mode]>) (fun k => <[snapshot_file := NFile (take k remote_snapshot) new_mode]>).
Definition prepared (fs : FileSystem) (kill : option (nat * nat)) (n : nat) (exchanges : list Exchange) (s : Downloading) (_ : ()) : Prop :=
  stage fs kill n s /\ recorded (dn_local s) /\ dn_exchanges s = exchanges.
Lemma record_steadily fs kill n s : stage fs kill n s -> dn_local s !! temporary = None \/ recorded (dn_local s) ->
  cwp record_snapshot s (prepared fs kill n (dn_exchanges s)) (killed fs kill).
Proof.
  intros Hs Hor.
  assert (Hi : forall content, interrupted (dn_local s) (<[snapshot_file := NFile content new_mode]> (dn_local s))).
  { intros content. apply insert_snapshot; [exact (stage_resumable _ _ _ _ Hs)|exact Hor]. }
  apply (stage_change fs kill n); [done|intros; apply Hi|apply Hi|]. intros s2 Hs2 Hfs Hex. split; [done|]. split; [|done].
  exists new_mode. rewrite Hfs. apply lookup_insert_eq.
Qed.
Lemma prepare_steadily fs kill n s : stage fs kill n s ->
  cwp (prepare_download_temporary new_mode temporary snapshot_file remote_snapshot) s (prepared fs kill n (dn_exchanges s)) (killed fs kill).
Proof.
  intros Hs. pose proof (stage_resumable _ _ _ _ Hs) as Hr. unfold prepare_download_temporary. fold record_snapshot.
  apply cwp_bind, cwp_local. cbn beta. unfold id.
  assert (Hfresh : cwp (c_bind (match dn_local s !! temporary with Some NDir => c_bail "cannot remove temporary" | _ => atomically (delete temporary) end)
      (fun _ => record_snapshot)) s (prepared fs kill n (dn_exchanges s)) (killed fs kill)).
  { pose proof (rs_temporary _ Hr) as Ht. apply cwp_bind.
    assert (Hd : cwp (atomically (delete temporary)) s
      (fun s' _ => cwp record_snapshot s' (prepared fs kill n (dn_exchanges s)) (killed fs kill)) (killed fs kill)).
    { apply (stage_atomically fs kill n); [done|by apply delete_temporary|]. intros s' Hs' Hfs <-. apply record_steadily; [done|].
      left. rewrite Hfs. apply lookup_delete_eq. }
    by destruct (dn_local s !! temporary) as [[]|]. }
  apply cwp_bind. pose proof (rs_snapshot _ Hr) as Hsn.
  destruct (dn_local s !! snapshot_file) as [[existing m| | |]|] eqn:Es; [|done..|exact Hfresh]. apply (cwp_ret (A := bool)).
  destruct (decide (existing = remote_snapshot)) as [->|Hex]; [|by rewrite bool_decide_eq_false_2].
  rewrite bool_decide_eq_true_2 by done. cbn [andb]. destruct (dn_local s !! temporary) as [[content m2| | |]|] eqn:Et; try exact Hfresh.
  apply record_steadily; [done|]. right. by exists m.
Qed.

(** A run on a steady remote file: it ends with the file, or it is killed. *)
Record complete (fs fs' : FileSystem) : Prop := {
  co_destination : fs' !! destination = fetched;
  co_temporary : fs' !! temporary = None;
  co_snapshot : fs' !! snapshot_file = None;
  co_elsewhere : elsewhere fs fs'
}.
Lemma commit_interrupted fs m : resumable fs -> interrupted fs (<[destination := NFile c (N.land mode 511)]> (delete temporary fs)) /\
  interrupted fs (delete snapshot_file fs) /\ (fs !! temporary = Some (NFile c m) -> interrupted fs (<[temporary := NFile c (N.land mode 511)]> fs)).
Proof.
  intros Hr. pose proof destination_temporary. pose proof destination_snapshot. pose proof temporary_snapshot. split_and!.
  - split; [split|..].
    + by rewrite lookup_insert_ne, lookup_delete_eq.
    + rewrite lookup_insert_ne, lookup_delete_ne by done. apply Hr.
    + by rewrite lookup_insert_eq.
    + intros content m1 m2 _. by rewrite lookup_insert_ne, lookup_delete_eq.
    + intros x Hx1 Hx2 _. by rewrite lookup_insert_ne, lookup_delete_ne.
    + right. apply lookup_insert_eq.
  - split; [split|..].
    + rewrite lookup_delete_ne by done. apply Hr.
    + by rewrite lookup_delete_eq.
    + rewrite lookup_delete_ne by done. apply Hr.
    + intros content m1 m2. by rewrite lookup_delete_eq.
    + intros x _ _ Hx. by rewrite lookup_delete_ne.
    + left. by rewrite lookup_delete_ne.
  - intros _. by apply insert_temporary.
Qed.

Definition get_file (overwrite : bool) : Client Downloading () :=
  download_file canonicalize zstd new_mode fuel raw destination overwrite.
Lemma open_steadily fs kill n s : stage fs kill n s -> recorded (dn_local s) ->
  cwp (match dn_local s !! temporary with
       | Some (NFile content _) => c_ret (llen content)
       | None => c_bind (atomically (<[temporary := NFile [] new_mode]>)) (fun _ => c_ret 0)
       | Some _ => c_bail "failed to open temporary"
       end) s
    (fun s' offset => stage fs kill n s' /\ recorded (dn_local s') /\ dn_exchanges s' = dn_exchanges s /\
       offset <= llen c /\ holds offset (dn_local s')) (killed fs kill).
Proof.
  intros Hs Hrec. pose proof (stage_resumable _ _ _ _ Hs) as Hr.
  pose proof (rs_temporary _ Hr) as Ht. destruct (dn_local s !! temporary) as [[content m| | |]|] eqn:Et; try done.
  - apply cwp_ret. destruct Hrec as [m' Hm]. pose proof (rs_prefix _ Hr _ _ _ Hm Et) as [rest Hrest].
    pose proof (f_equal length Hrest) as Hl. rewrite length_app in Hl. split_and!; [done|by exists m'|done|unfold llen; lia|].
    exists m. rewrite Et. unfold llen. by rewrite Nat2N.id, Hrest, take_app_length.
  - apply cwp_bind, (stage_atomically fs kill n); [done|by apply insert_temporary; [|apply prefix_nil]|]. intros s' Hs' Hfs Hex. apply cwp_ret.
    split_and!; [done|rewrite Hfs; by apply recorded_temporary|done|lia|]. exists new_mode. rewrite Hfs. apply lookup_insert_eq.
Qed.
Lemma commit_steadily fs kill n s m : stage fs kill n s -> dn_local s !! temporary = Some (NFile c m) ->
  cwp (c_bind (atomically (<[temporary := NFile c (N.land mode 511)]>)) (fun _ =>
    match dn_local s !! destination with
    | Some NDir => c_bail "failed to commit download"
    | _ => c_bind (atomically (fun fs => <[destination := NFile c (N.land mode 511)]> (delete temporary fs))) (fun _ => atomically (delete snapshot_file))
    end)) s (fun s' _ => complete fs (dn_local s')) (killed fs kill).
Proof.
  intros Hs Ht. pose proof destination_temporary. pose proof destination_snapshot. pose proof temporary_snapshot.
  apply cwp_bind, (stage_atomically fs kill n); [done|by apply (commit_interrupted _ m (stage_resumable _ _ _ _ Hs))|]. intros s1 Hs1 Hfs1 _.
  assert (Hrest : cwp (c_bind (atomically (fun fs => <[destination := NFile c (N.land mode 511)]> (delete temporary fs))) (fun _ => atomically (delete snapshot_file)))
    s1 (fun s' _ => complete fs (dn_local s')) (killed fs kill)).
  { apply cwp_bind, (stage_atomically fs kill n); [done|apply (commit_interrupted _ m (stage_resumable _ _ _ _ Hs1))|]. intros s2 Hs2 Hfs2 _.
    apply (stage_atomically fs kill n); [done|apply (commit_interrupted _ m (stage_resumable _ _ _ _ Hs2))|]. intros s3 Hs3 Hfs3 _. split.
    - by rewrite Hfs3, lookup_delete_ne, Hfs2, lookup_insert_eq.
    - by rewrite Hfs3, lookup_delete_ne, Hfs2, lookup_insert_ne, lookup_delete_eq.
    - by rewrite Hfs3, lookup_delete_eq.
    - apply Hs3. }
  pose proof (rs_destination _ (stage_resumable _ _ _ _ Hs)) as Hdest. by destruct (dn_local s !! destination) as [[]|].
Qed.

Lemma get_steadily s n : steady_state n s -> resumable (dn_local s) -> (N.to_nat (llen c) + n < fuel)%nat ->
  cwp (get_file true) s (fun s' _ => complete (dn_local s) (dn_local s')) (killed (dn_local s) (dn_kill s)).
Proof.
  intros Hst Hr Hfuel. pose proof (sy_bound _ _ Hst) as Hb. unfold get_file, download_file. apply cwp_bind, cwp_local. cbn beta. rewrite andb_false_r.
  destruct (begin_steadily fuel n s) as (ex & Heq & Hex & Hlen); [done|lia|]. apply cwp_bind, (cwp_done _ _ _ _ _ _ Heq).
  cbn [remote_download dl_metadata dl_sha256 dl_snapshot dl_max_chunk_size].
  change (file_kind_try_from (fm_kind (file_metadata p remote_metadata))) with (Some FkRegular). rewrite bool_decide_eq_true_2 by done. cbn [negb].
  rewrite remote_snapshot_length, sha256_length. change (negb (32 =? 32)) with false. cbn [orb].
  rewrite download_paths. change (fm_size (file_metadata p remote_metadata)) with (llen c).
  assert (Hmode : N.land (fm_mode (file_metadata p remote_metadata)) 511 = N.land mode 511).
  { cbn [file_metadata fm_mode remote_metadata node_metadata mt_mode]. by rewrite <- N.land_assoc. }
  rewrite Hmode. change (clamp_chunk MAX_FILE_CHUNK_SIZE) with MAX_FILE_CHUNK_SIZE.
  assert (Hs : stage (dn_local s) (dn_kill s) n (with_exchanges ex s)).
  { apply stage_exchanges; [|done|done]. split; [done|by apply interrupted_refl|done]. }
  apply cwp_bind, (cwp_conseq _ _ _ _ _ (prepare_steadily _ _ _ _ Hs)). intros s1 [] (Hs1 & Hrec1 & Hex1).
  apply cwp_bind, cwp_local. cbn beta. unfold id at 1.
  apply cwp_bind, (cwp_conseq _ _ _ _ _ (open_steadily _ _ _ _ Hs1 Hrec1)). intros s2 offset (Hs2 & Hrec2 & Hex2 & Hle & Hholds).
  apply cwp_bind. rewrite (proj2 (N.ltb_ge (llen c) offset)) by done. apply cwp_ret.
  apply cwp_bind, (cwp_conseq _ _ _ _ _ (fetch_steadily _ _ n fuel s2 offset Hs2 Hholds Hrec2 Hle ltac:(rewrite Hex2, Hex1; cbn; lia))).
  intros s3 r (-> & Hs3 & [m Hm]). rewrite take_ge in Hm by (unfold llen; lia). apply cwp_bind, cwp_local. cbn beta. unfold id. rewrite Hm.
  cbn [remote_download dl_sha256]. rewrite bool_decide_eq_true_2 by done. exact (commit_steadily _ _ _ _ m Hs3 Hm).
Qed.

(** Runs of [astra files get], one after another, each killed at some change of the local
    files unless it ends before. *)
Fixpoint attempts (runs : list ((nat * nat) * list Exchange)) (fs : FileSystem) : FileSystem :=
  match runs with
  | [] => fs
  | (kill, exchanges) :: runs => attempts runs (dn_local (get_file true (mkDownloading fs (Some kill) exchanges root d)).1)
  end.
Definition fair_run (exchanges : list Exchange) : Prop := Forall steady exchanges /\ (N.to_nat (llen c) + length exchanges < fuel)%nat.
Lemma fair_state fs kill exchanges : fair_run exchanges -> steady_state (length exchanges) (mkDownloading fs kill exchanges root d).
Proof. by intros []. Qed.
Lemma complete_interrupted fs fs' : complete fs fs' -> interrupted fs fs'.
Proof.
  intros [Hd Ht Hs He]. split; [split|done|by right].
  - by rewrite Ht.
  - by rewrite Hs.
  - by rewrite Hd.
  - intros content m m'. by rewrite Hs.
Qed.
Lemma attempts_interrupted runs fs : resumable fs -> Forall (fun r => fair_run r.2) runs -> interrupted fs (attempts runs fs).
Proof.
  intros Hr Hruns. revert fs Hr. induction Hruns as [|[kill exchanges] runs Hrun _ IH]; intros fs Hr; cbn [attempts]; [by apply interrupted_refl|].
  pose proof (get_steadily _ _ (fair_state fs (Some kill) exchanges Hrun) Hr ltac:(apply Hrun)) as Hget. unfold cwp in Hget. cbn [dn_local dn_kill] in Hget.
  destruct (get_file true _) as [s' [[]|e|]]; [|done|]; cbn [fst].
  - apply complete_interrupted in Hget. exact (interrupted_trans _ _ _ Hget (IH _ (in_resumable _ _ Hget))).
  - destruct Hget as [_ Hget]. exact (interrupted_trans _ _ _ Hget (IH _ (in_resumable _ _ Hget))).
Qed.

(** C19: an interrupted download is finished by asking again: after any number of runs of
    [astra files get --overwrite], each killed at any of its changes of local files (the
    last chunk or the record of the snapshot being stored in part) and losing the
    connection any number of times, the destination is as it was or it is the whole remote
    file; and a run that is not killed ends, with the destination holding exactly the remote file
    and its permissions, both working files gone and every other local file as at the start. *)
Theorem download_resumes fs runs exchanges :
  resumable fs -> Forall (fun r => fair_run r.2) runs -> fair_run exchanges ->
  let fs' := attempts runs fs in
  (fs' !! destination = fs !! destination \/ fs' !! destination = fetched) /\
  exists s', get_file true (mkDownloading fs' None exchanges root d) = (s', Done tt) /\ complete fs (dn_local s').
Proof.
  intros Hr Hruns Hrun fs'. pose proof (attempts_interrupted _ _ Hr Hruns) as Hi. fold fs' in Hi. split; [apply Hi|].
  pose proof (get_steadily _ _ (fair_state fs' None exchanges Hrun) (in_resumable _ _ Hi) ltac:(apply Hrun)) as Hget.
  unfold cwp in Hget. cbn [dn_local dn_kill] in Hget. destruct (get_file true _) as [s' [[]|e|]]; [|done|by destruct Hget].
  exists s'. split; [done|]. destruct Hget as [H1 H2 H3 H4]. split; [done..|]. exact (elsewhere_trans _ _ _ (in_elsewhere _ _ Hi) H4).
Qed.
End get.

(** ** Listings page by page *)

Section list.
Context `{PayloadLib}.
Variable canonicalize : FileSystem -> Path -> FileServiceError + Path.
Context (root : Path) (d : Disk) (raw : bytes) (directory : Path).
Hypothesis Hresolve : resolve_existing canonicalize (dk_fs d) root raw true = Returned directory.
Hypothesis Hdirectory : path_metadata (dk_fs d) directory = Some NDir.
(** No entry has the empty name. *)
Hypothesis Hnames : dk_fs d !! (directory ++ [[]]) = None.
Let names : list bytes := sorted_names (dk_fs d) directory.

Lemma pages_behind fuel cursor pre post : names = pre ++ post -> behind cursor names = post -> (length post < fuel)%nat ->
  list_pages canonicalize fuel io_reliable root d raw cursor = Returned (entry_metadata d directory <$> post, true).
Proof.
  revert cursor pre post. induction fuel as [|fuel IH]; intros cursor pre post Hsplit Hbehind Hfuel; [lia|]. cbn [list_pages].
  rewrite (list_directory_page canonicalize root d raw directory cursor 200 Hresolve Hdirectory). fold names. cbn [mbind outcome_bind fr_entries fr_next_cursor].
  change (page_limit 200) with 200. rewrite Hbehind. destruct (bool_decide_reflect (200 < llen post)) as [Hmore|Hlast].
  - destruct (last (take (N.to_nat 200) post)) as [name|] eqn:El; cbn [default].
    2:{ apply last_None in El. apply (f_equal length) in El. rewrite length_take in El. unfold llen in Hmore. cbn [length] in El. lia. }
    apply last_Some in El as [page Hpage].
    assert (Hn : names = (pre ++ page) ++ name :: drop (N.to_nat 200) post).
    { rewrite Hsplit, <- app_assoc. f_equal. rewrite <- (take_drop (N.to_nat 200) post) at 1. by rewrite Hpage, <- app_assoc. }
    assert (Hne : name <> []).
    { intros ->. assert (Hin : [] ∈ names) by (rewrite Hn; apply elem_of_app; right; by left).
      apply sorted_names_elem in Hin. rewrite Hnames in Hin. by destruct Hin. }
    pose proof (sorted_names_sorted (dk_fs d) directory) as Hs. pose proof (sorted_names_NoDup (dk_fs d) directory) as Hnd.
    fold names in Hs, Hnd. rewrite Hn in Hs, Hnd. pose proof (behind_middle _ _ _ Hs Hnd Hne) as Hnext. rewrite <- Hn in Hnext.
    destruct name as [|b name]; [done|]. cbn [is_empty]. rewrite (IH _ ((pre ++ page) ++ [b :: name]) (drop (N.to_nat 200) post)).
    + cbn [mbind outcome_bind]. by rewrite <- fmap_app, take_drop.
    + rewrite Hn. by rewrite <- (app_assoc (pre ++ page)).
    + done.
    + rewrite length_drop. unfold llen in Hmore. lia.
  - cbn [is_empty]. unfold llen in Hlast. by rewrite take_ge by lia.
Qed.

(** [astra files ls] shows a whole directory: its loop over pages ends, whatever the number of
    entries, and it has then printed every entry of the directory exactly once, in the
    order of the names. *)
Theorem list_pages_complete fuel : (length (read_dir (dk_fs d) directory) < fuel)%nat ->
  exists entries, list_pages canonicalize fuel io_reliable root d raw [] = Returned (entries, true) /\
    let names := fm_name <$> entries in
    entries = entry_metadata d directory <$> names /\
    StronglySorted bytes_le names /\ NoDup names /\ forall name, name ∈ names <-> is_Some (dk_fs d !! (directory ++ [name])).
Proof.
  intros Hfuel. exists (entry_metadata d directory <$> names). split.
  - apply (pages_behind fuel [] [] names); [done| |].
    + clear. induction names as [|x l IH]; [done|]. unfold behind. rewrite filter_cons_True by by left. f_equal. exact IH.
    + unfold names, sorted_names. by rewrite merge_sort_Permutation.
  - assert (Hl : fm_name <$> (entry_metadata d directory <$> names) = names).
    { clear. induction names as [|x l IH]; [done|]. cbn - [entry_metadata]. by rewrite entry_metadata_name, IH. }
    cbv zeta. rewrite Hl. split; [done|]. split; [apply sorted_names_sorted|]. split; [apply sorted_names_NoDup|apply sorted_names_elem].
Qed.
End list.

(** ** Witnesses *)

(** A host without links. *)
Definition ex_resolve (fs : FileSystem) (p : Path) : FileServiceError + Path :=
  match fs !! p with
  | Some _ => if forallb proper_nameb p then inr p else inl (mkFileError "invalid" "cannot resolve")
  | None => inl (mkFileError "not_found" "cannot resolve")
  end.
Definition ex_disk : Disk :=
  mkDisk {[ [[104]] := NDir; [[104]; [97]] := NFile [1; 2; 3] 420; [[104]; [98]] := NDir; [[104]; [99]] := NOther ]}
    (fun _ => mkAttributes 0 493 1 2 3 4).
Definition ex_answered : Exchange := Answered io_reliable ex_disk id.
Definition ex_local : FileSystem := {[ [[100]] := NFile [8] 384 ]}.
Definition ex_runs : list ((nat * nat) * list Exchange) :=
  [((1%nat, 0%nat), [Lost; ex_answered; ex_answered]); ((1%nat, 2%nat), [ex_answered; Lost]); ((9%nat, 9%nat), [Lost])].

Lemma download_resumes_witness :
  let run := @get_file ex_payload_lib ex_resolve true 384 [97] 20 [] [100] true in
  let fs' := @attempts ex_payload_lib ex_resolve true 384 [[104]] ex_disk [97] 20 [] [100] ex_runs ex_local in
  exists s', run (mkDownloading fs' None [Lost; Lost; ex_answered] [[104]] ex_disk) = (s', Done tt) /\
    dn_local s' !! [[100]] = Some (NFile [1; 2; 3] 420).
Proof.
  cbv zeta.
  pose proof (@download_resumes ex_payload_lib ex_payload_laws ex_resolve true 384 ex_compresses [[104]] ex_disk [97] [[104]; [97]] [1; 2; 3] 420
    ltac:(vm_compute; reflexivity) ltac:(vm_compute; reflexivity) 20 [] [100] ex_local ex_runs [Lost; Lost; ex_answered]) as Hget.
  destruct Hget as (_ & s' & Hrun & Hc).
  - split; try (vm_compute; exact I); [vm_compute; discriminate|]. intros content m m' Hs. vm_compute in Hs. discriminate.
  - repeat constructor; vm_compute; lia.
  - repeat constructor; vm_compute; lia.
  - exists s'. split; [exact Hrun|]. exact (co_destination _ _ _ _ _ _ Hc).
Defined.

Lemma list_pages_complete_witness :
  exists entries, @list_pages ex_resolve 4 io_reliable [[104]] ex_disk [] [] = Returned (entries, true) /\
    forall name, name ∈ fm_name <$> entries <-> is_Some (dk_fs ex_disk !! [[104]; name]).
Proof.
  destruct (@list_pages_complete ex_resolve [[104]] ex_disk [] [[104]] ltac:(vm_compute; reflexivity) ltac:(vm_compute; reflexivity)
    ltac:(vm_compute; reflexivity) 4) as (entries & Hl & _ & _ & _ & Hn).
  - vm_compute. lia.
  - exists entries. split; [exact Hl|exact Hn].
Defined.
