(* ===== verification/Utf8.v ===== *)
(** * UTF-8 and numbers in text

    The bytes of a Rust [String], [String::from_utf8_lossy] and [str::parse::<u32>]. *)
From S2P Require Import Prelude Text TerminalState.
Open Scope N_scope.

(** A Unicode scalar value, Rust's [char]. *)
Definition scalar (c : N) : bool := (c <? 0xd800) || ((0xe000 <=? c) && (c <? 0x110000)).
(** [char::encode_utf8] and the bytes of a string. *)
Definition encode_char (c : N) : bytes :=
  if c <? 128 then [c]
  else if c <? 2048 then [192 + c / 64; 128 + c mod 64]
  else if c <? 65536 then [224 + c / 4096; 128 + c / 64 mod 64; 128 + c mod 64]
  else [240 + c / 262144; 128 + c / 4096 mod 64; 128 + c / 64 mod 64; 128 + c mod 64].
Definition encode_utf8 (t : text) : bytes := concat (encode_char <$> t).

Definition between (low high b : N) : bool := (low <=? b) && (b <=? high).
Definition continuation : N -> bool := between 128 191.
(** The second bytes that may follow a first one. *)
Definition second_byte (first : N) : N -> bool :=
  if first =? 0xe0 then between 0xa0 0xbf else if first =? 0xed then between 0x80 0x9f
  else if first =? 0xf0 then between 0x90 0xbf else if first =? 0xf4 then between 0x80 0x8f else continuation.
Definition REPLACEMENT : N := 0xfffd.
(** The first character of some bytes, and how many bytes it takes; the longest prefix that
    can begin a character but does not is replaced as a whole. *)
Definition decode_char (first : N) (rest : bytes) : N * nat :=
  if first <? 128 then (first, 1%nat)
  else if between 0xc2 0xdf first then
    match rest with
    | b :: _ => if continuation b then ((first - 192) * 64 + (b - 128), 2%nat) else (REPLACEMENT, 1%nat)
    | [] => (REPLACEMENT, 1%nat)
    end
  else if between 0xe0 0xef first then
    match rest with
    | b :: rest =>
        if second_byte first b then
          match rest with
          | c :: _ => if continuation c then ((first - 224) * 4096 + (b - 128) * 64 + (c - 128), 3%nat) else (REPLACEMENT, 2%nat)
          | [] => (REPLACEMENT, 2%nat)
          end
        else (REPLACEMENT, 1%nat)
    | [] => (REPLACEMENT, 1%nat)
    end
  else if between 0xf0 0xf4 first then
    match rest with
    | b :: rest =>
        if second_byte first b then
          match rest with
          | c :: rest =>
              if continuation c then
                match rest with
                | d :: _ => if continuation d then ((first - 240) * 262144 + (b - 128) * 4096 + (c - 128) * 64 + (d - 128), 4%nat)
                            else (REPLACEMENT, 3%nat)
                | [] => (REPLACEMENT, 3%nat)
                end
              else (REPLACEMENT, 2%nat)
          | [] => (REPLACEMENT, 2%nat)
          end
        else (REPLACEMENT, 1%nat)
    | [] => (REPLACEMENT, 1%nat)
    end
  else (REPLACEMENT, 1%nat).
(** [String::from_utf8_lossy]; a byte of a character that was read is skipped. *)
Fixpoint lossy_from (skip : nat) (raw : bytes) : text :=
  match raw with
  | [] => []
  | b :: rest =>
      match skip with
      | S skip => lossy_from skip rest
      | O => let '(c, n) := decode_char b rest in c :: lossy_from (n - 1) rest
      end
  end.
Definition from_utf8_lossy (raw : bytes) : text := lossy_from 0 raw.

(** [str::parse::<u32>] *)
Fixpoint digits_u32 (acc : N) (t : text) : option N :=
  match t with
  | [] => Some acc
  | c :: t =>
      if between 48 57 c then
        let acc := acc * 10 + (c - 48) in
        if acc <=? U32_MAX then digits_u32 acc t else None
      else None
  end.
Definition parse_u32 (t : text) : option N :=
  match t with
  | [] => None
  | c :: rest => if is_empty rest && ((c =? 43) || (c =? 45)) then None else digits_u32 0 (if c =? 43 then rest else t)
  end.

(** The decimal digits of a number, as [Display] writes them. *)
Fixpoint digits_from (fuel : nat) (n : N) (t : text) : text :=
  match fuel with
  | O => t
  | S fuel => let t := (48 + n mod 10) :: t in if n <? 10 then t else digits_from fuel (n / 10) t
  end.
Definition display_decimal (n : N) : text := digits_from 40 n [].

(** ** Lemmas *)

Lemma split_64 c : exists q r, c / 64 = q /\ c mod 64 = r /\ c = 64 * q + r /\ r < 64.
Proof. exists (c / 64), (c mod 64). split_and!; [done|done|apply N.div_mod; lia|apply N.mod_lt; lia]. Qed.
#[local] Ltac tests :=
  repeat first
    [ match goal with |- context [N.ltb ?a ?b] => destruct (N.ltb_spec a b); try (exfalso; lia) end
    | match goal with |- context [N.leb ?a ?b] => destruct (N.leb_spec a b); try (exfalso; lia) end
    | match goal with |- context [N.eqb ?a ?b] => destruct (N.eqb_spec a b); try (exfalso; lia) end
    | progress cbn [andb orb negb] ].

Lemma decode_encoded c rest : scalar c = true ->
  exists b more, encode_char c = b :: more /\ decode_char b (more ++ rest) = (c, length (encode_char c)).
Proof.
  unfold scalar, encode_char. intros Hc.
  assert (Hr : c < 55296 \/ 57344 <= c < 1114112).
  { apply orb_true_iff in Hc as [?%N.ltb_lt|[?%N.leb_le ?%N.ltb_lt]%andb_true_iff]; lia. }
  clear Hc. replace (c / 4096) with (c / 64 / 64) by by rewrite N.Div0.div_div.
  replace (c / 262144) with (c / 64 / 64 / 64) by by rewrite !N.Div0.div_div.
  destruct (split_64 c) as (q & r & -> & -> & Hq & Hr0), (split_64 q) as (q2 & r2 & -> & -> & Hq2 & Hr2), (split_64 q2) as (q3 & r3 & -> & -> & Hq3 & Hr3).
  unfold decode_char, second_byte, continuation, between. tests; eexists _, _; (split; [reflexivity|]); cbn [app length]; tests; f_equal; lia.
Qed.
Lemma from_utf8_lossy_app t rest : forallb scalar t = true -> from_utf8_lossy (encode_utf8 t ++ rest) = t ++ from_utf8_lossy rest.
Proof.
  intros Ht. induction t as [|c t IH]; [done|]. cbn [forallb] in Ht. apply andb_true_iff in Ht as [Hc Ht].
  unfold encode_utf8, from_utf8_lossy in *. cbn [fmap list_fmap concat app]. rewrite <- app_assoc.
  destruct (decode_encoded c (concat (encode_char <$> t) ++ rest) Hc) as (b & more & He & Hd). rewrite He in *. cbn [app lossy_from length] in *.
  rewrite Hd. cbn [app]. f_equal. rewrite <- IH by done. clear. replace (S (length more) - 1)%nat with (length more) by lia.
  induction more as [|x more IH]; [done|]. cbn [length app lossy_from]. exact IH.
Qed.
Lemma from_utf8_lossy_encode t : forallb scalar t = true -> from_utf8_lossy (encode_utf8 t) = t.
Proof. intros Ht. rewrite <- (app_nil_r (encode_utf8 t)), from_utf8_lossy_app by done. apply app_nil_r. Qed.


Lemma digit_between n : between 48 57 (48 + n mod 10) = true.
Proof.
  unfold between. pose proof (N.mod_lt n 10 ltac:(lia)) as Hm. apply andb_true_iff. split; apply N.leb_le; revert Hm; generalize (n mod 10); intros m Hm; lia.
Qed.
Lemma digits_from_digits fuel n t : Forall (fun c => between 48 57 c = true) (digits_from fuel n []) /\
  digits_from fuel n t = digits_from fuel n [] ++ t.
Proof.
  revert n t. induction fuel as [|fuel IH]; intros n t; cbn [digits_from]; [done|].
  pose proof (digit_between n) as Hd.
  destruct (n <? 10); [by split; [constructor|]|]. destruct (IH (n / 10) [48 + n mod 10]) as [H1 H2].
  destruct (IH (n / 10) ((48 + n mod 10) :: t)) as [_ H3]. split.
  - rewrite H2. apply Forall_app. split; [done|]. by constructor.
  - rewrite H3, H2. by rewrite <- app_assoc.
Qed.
Lemma digits_from_cons fuel n : exists c t, digits_from (S fuel) n [] = c :: t.
Proof.
  cbn [digits_from]. destruct (n <? 10); [by eexists _, _|]. rewrite (proj2 (digits_from_digits _ _ _)).
  destruct (digits_from fuel (n / 10) []); by eexists _, _.
Qed.
Lemma digits_from_parse fuel n t : n < 10 ^ N.of_nat fuel -> n <= U32_MAX -> digits_u32 0 (digits_from fuel n t) = digits_u32 n t.
Proof.
  revert n t. induction fuel as [|fuel IH]; intros n t Hn Hmax; cbn [digits_from]; [change (n < 1) in Hn; by replace n with 0 by lia|].
  pose proof (digit_between n) as Hd. pose proof (N.div_mod n 10 ltac:(lia)) as Hdm. pose proof (N.mod_lt n 10 ltac:(lia)) as Hm.
  destruct (N.ltb_spec n 10) as [Hlt|Hge].
  - cbn [digits_u32]. rewrite Hd, N.mod_small by done. clear Hdm Hm Hd. replace (0 * 10 + (48 + n - 48)) with n by lia. by rewrite (proj2 (N.leb_le _ _)).
  - revert Hd Hdm Hm. generalize (n mod 10) (n / 10). intros m q Hd Hdm Hm. rewrite IH by (rewrite Nat2N.inj_succ, N.pow_succ_r' in Hn; lia).
    cbn [digits_u32]. rewrite Hd. replace (q * 10 + (48 + m - 48)) with n by lia. by rewrite (proj2 (N.leb_le _ _)).
Qed.
Lemma decimal_digits n : Forall (fun c => between 48 57 c = true) (display_decimal n).
Proof. apply (digits_from_digits 40 n []). Qed.
Lemma parse_decimal n : n <= U32_MAX -> parse_u32 (display_decimal n) = Some n.
Proof.
  intros Hn. pose proof (decimal_digits n) as Hd. unfold display_decimal in *. destruct (digits_from_cons 39 n) as (c & t & Hc).
  unfold parse_u32. rewrite Hc in *. apply Forall_cons_1 in Hd as [Hc0 _]. unfold between in Hc0. apply andb_true_iff in Hc0 as [H1%N.leb_le H2%N.leb_le].
  rewrite (proj2 (N.eqb_neq c 43)), (proj2 (N.eqb_neq c 45)) by lia. cbn [orb]. rewrite andb_false_r, <- Hc.
  rewrite digits_from_parse; [done| |done]. eapply N.le_lt_trans; [exact Hn|reflexivity].
Qed.
Lemma decimal_scalar n : forallb scalar (display_decimal n) = true.
Proof.
  apply forallb_forall. intros c Hc. apply list_elem_of_In in Hc. pose proof (decimal_digits n) as Hd. rewrite Forall_forall in Hd.
  specialize (Hd c Hc). unfold between in Hd. apply andb_true_iff in Hd as [H1%N.leb_le H2%N.leb_le]. unfold scalar. rewrite (proj2 (N.ltb_lt _ _)); [done|lia].
Qed.
(** ASCII text is its own encoding. *)
Lemma encode_ascii t : Forall (fun c => c < 128) t -> encode_utf8 t = t.
Proof.
  unfold encode_utf8. induction 1 as [|c t Hc _ IH]; [done|]. cbn. unfold encode_char at 1. by rewrite (proj2 (N.ltb_lt _ _)), IH.
Qed.
