(* ===== verification/GitStatus.v ===== *)
(** * Git status ([files.rs])

    [git_status] runs Git twice and parses the porcelain format of version 2.  Git is a
    program beside the service: what a run of it gives is an argument. *)
From S2P Require Import Prelude Text TerminalState Payload Files Messages FileReads Utf8.
Open Scope N_scope.

(** [slice::split], [splitn] and [strip_prefix] *)
Fixpoint split_byte (c : N) (current raw : bytes) : list bytes :=
  match raw with
  | [] => [rev current]
  | b :: raw => if b =? c then rev current :: split_byte c [] raw else split_byte c (b :: current) raw
  end.
Fixpoint splitn (n : nat) (c : N) (raw : bytes) : list bytes :=
  match n with
  | O => []
  | S O => [raw]
  | S n => match split_once c raw with Some (field, raw) => field :: splitn n c raw | None => [raw] end
  end.
Definition strip_prefix (prefix raw : bytes) : option bytes :=
  if bool_decide (take (length prefix) raw = prefix) then Some (drop (length prefix) raw) else None.
Definition has_prefix (prefix raw : bytes) : bool := negb (is_none (strip_prefix prefix raw)).

Definition parse_tracked_git_record (record : bytes) (field_count : nat) (original_path : bytes) : option GitFileStatus :=
  let fields := splitn field_count 32 record in
  status ← fields !! 1%nat;
  path ← last fields;
  index_status ← status !! 0%nat;
  worktree_status ← status !! 1%nat;
  Some (mkGitFile path [index_status] [worktree_status] original_path).
Definition parse_git_count (value : bytes) : N := default 0 (parse_u32 (from_utf8_lossy value)).

Definition mark_detached (r : GitStatusResponse) : GitStatusResponse :=
  mkGitResponse (gr_repository_root r) (gr_branch r) true (gr_ahead r) (gr_behind r) (gr_files r).
Definition set_branch (branch : text) (r : GitStatusResponse) : GitStatusResponse :=
  mkGitResponse (gr_repository_root r) branch (gr_detached r) (gr_ahead r) (gr_behind r) (gr_files r).
Definition set_ahead (n : N) (r : GitStatusResponse) : GitStatusResponse :=
  mkGitResponse (gr_repository_root r) (gr_branch r) (gr_detached r) n (gr_behind r) (gr_files r).
Definition set_behind (n : N) (r : GitStatusResponse) : GitStatusResponse :=
  mkGitResponse (gr_repository_root r) (gr_branch r) (gr_detached r) (gr_ahead r) n (gr_files r).
Definition push_file (f : GitFileStatus) (r : GitStatusResponse) : GitStatusResponse :=
  mkGitResponse (gr_repository_root r) (gr_branch r) (gr_detached r) (gr_ahead r) (gr_behind r) (gr_files r ++ [f]).

(** The fields of [branch.ab]. *)
Definition git_count_field (r : GitStatusResponse) (field : bytes) : GitStatusResponse :=
  match strip_prefix (str_bytes "+") field with
  | Some ahead => set_ahead (parse_git_count ahead) r
  | None => match strip_prefix (str_bytes "-") field with Some behind => set_behind (parse_git_count behind) r | None => r end
  end.
Definition git_header (record : bytes) (r : GitStatusResponse) : option GitStatusResponse :=
  match strip_prefix (str_bytes "# branch.head ") record with
  | Some value => Some (if bool_decide (value = str_bytes "(detached)") then mark_detached r else set_branch (from_utf8_lossy value) r)
  | None =>
      match strip_prefix (str_bytes "# branch.ab ") record with
      | Some value => Some (foldl git_count_field r (split_byte 32 [] value))
      | None => None
      end
  end.

(** The loop over the records; the record after a rename is the original path. *)
Fixpoint parse_records (records : list bytes) (r : GitStatusResponse) : outcome FileServiceError GitStatusResponse :=
  match records with
  | [] => Returned r
  | record :: records =>
      let push parsed next :=
        match parsed with
        | Some file =>
            let r := push_file file r in
            if MAX_GIT_STATUS_ENTRIES <? llen (gr_files r) then refuse "quota" "Git status has too many entries" else next r
        | None => next r
        end in
      if is_empty record then parse_records records r
      else match git_header record r with
      | Some r => parse_records records r
      | None =>
          if has_prefix (str_bytes "1 ") record then push (parse_tracked_git_record record 9 []) (parse_records records)
          else if has_prefix (str_bytes "2 ") record then
            match records with
            | original_path :: records => push (parse_tracked_git_record record 10 original_path) (parse_records records)
            | [] => push (parse_tracked_git_record record 10 []) Returned
            end
          else if has_prefix (str_bytes "u ") record then push (parse_tracked_git_record record 11 []) (parse_records records)
          else push ((fun path => mkGitFile path (lit "?") (lit "?") []) <$> strip_prefix (str_bytes "? ") record) (parse_records records)
      end
  end.
Definition parse_git_status (repository_root output : bytes) : outcome FileServiceError GitStatusResponse :=
  parse_records (split_byte 0 [] output) (mkGitResponse repository_root [] false 0 0 []).

(** [u8::is_ascii_whitespace] *)
Definition is_ascii_whitespace (b : N) : bool := (b =? 32) || (b =? 9) || (b =? 10) || (b =? 12) || (b =? 13).
Definition trim_ascii_whitespace (value : bytes) : bytes := trim_end_matches is_ascii_whitespace (drop_while is_ascii_whitespace value).

(** ** Running Git *)

Record GitOutput := mkGitOutput { go_code : option Z; go_stdout : bytes; go_stderr : bytes }.
(** A run takes too long, cannot be started with an error of some code, or exits. *)
Inductive GitRun := GitTimeout | GitUnavailable (code : string) | GitExited (output : GitOutput).
Definition text_string (t : text) : string := String.string_of_list_ascii (Ascii.ascii_of_N <$> encode_utf8 t).

Section git.
Variable canonicalize : FileSystem -> Path -> FileServiceError + Path.
(** [git -C directory arguments] *)
Variable git : Path -> list string -> GitRun.
(** The directory that relative paths of the worker are looked up in. *)
Variable working_directory : Path.

Definition run_git (directory : Path) (arguments : list string) : outcome FileServiceError GitOutput :=
  match git directory arguments with
  | GitTimeout => refuse "timeout" "Git status exceeded 5 seconds"
  | GitUnavailable code => refuse code "cannot execute Git"
  | GitExited output =>
      if bool_decide (go_code output = Some 0%Z) then Returned output
      else
        let message := trim (from_utf8_lossy (go_stderr output)) in
        refuse (if bool_decide (go_code output = Some 128%Z) then "not_found" else "git")
          (if is_empty message then "Git command failed" else text_string message)
  end.

(** [Path::as_os_str] of a relative path. *)
Fixpoint relative_bytes (p : Path) : bytes :=
  match p with [] => [] | [name] => name | name :: p => name ++ 47 :: relative_bytes p end.

Definition git_status (fs : FileSystem) (root : Path) (raw_path : bytes) : outcome FileServiceError GitStatusResponse :=
  project ← resolve_existing canonicalize fs root raw_path true;
  _ ← check (match path_metadata fs project with Some NDir => true | _ => false end) "invalid" "is not a directory";
  root_output ← run_git project ["rev-parse"; "--show-toplevel"];
  let root_bytes := trim_ascii_whitespace (go_stdout root_output) in
  _ ← check (negb (is_empty root_bytes)) "not_found" "cannot resolve Git repository root";
  _ ← check (negb (existsb (fun b => b =? 0) root_bytes)) "invalid" "cannot resolve Git repository root";
  repository ← canonical canonicalize fs (if is_absolute root_bytes then components root_bytes else working_directory ++ components root_bytes);
  _ ← check (bool_decide (root `prefix_of` repository)) "permission_denied" "Git repository is outside the file root";
  let relative_root := drop (length root) repository in
  let repository_root := if is_empty relative_root then str_bytes "." else relative_bytes relative_root in
  status_output ← run_git project ["status"; "--porcelain=v2"; "--branch"; "-z"; "--untracked-files=all"; "--"; "."];
  _ ← check (llen (go_stdout status_output) <=? MAX_GIT_STATUS_SIZE) "quota" "Git status output exceeds 4 MiB";
  parse_git_status repository_root (go_stdout status_output).
End git.

(** The test of the source. *)
Example parse_git_status_example :
  parse_git_status (str_bytes "project")
    (str_bytes "# branch.oid abcdef" ++ 0 :: str_bytes "# branch.head main" ++ 0 :: str_bytes "# branch.ab +2 -3" ++ 0 ::
     str_bytes "1 .M N... 100644 100644 100644 abc abc src/main.rs" ++ 0 :: str_bytes "? notes.txt" ++ 0 ::
     str_bytes "2 R. N... 100644 100644 100644 abc def R100 src/new.rs" ++ 0 :: str_bytes "src/old.rs" ++ [0])
  = Returned (mkGitResponse (str_bytes "project") (lit "main") false 2 3
      [mkGitFile (str_bytes "src/main.rs") (lit ".") (lit "M") []; mkGitFile (str_bytes "notes.txt") (lit "?") (lit "?") [];
       mkGitFile (str_bytes "src/new.rs") (lit "R") (lit ".") (str_bytes "src/old.rs")]).
Proof. vm_compute. reflexivity. Qed.
