(* ===== verification/GitStatusSpec.v ===== *)
(** * Git status: what Git prints is read back exactly

    The porcelain format of version 2 as Git documents it, and the response that the
    service gives of it. *)
From S2P Require Import Prelude Text TerminalState Payload Files FilesSpec Messages FileReads Utf8 GitStatus.
Open Scope N_scope.

(** ** The format *)

(** A changed file: the two status letters, the fields between them and the path (6, 7 and
    8 of them), the path and for a rename the original one. *)
Inductive GitEntry :=
| GitOrdinary (x y : N) (fields : list bytes) (path : bytes)
| GitRenamed (x y : N) (fields : list bytes) (path original : bytes)
| GitUnmerged (x y : N) (fields : list bytes) (path : bytes)
| GitUntracked (path : bytes).
Record GitRepository := mkGitRepository {
  gs_oid : bytes; gs_head : option text; gs_upstream : option (bytes * N * N); gs_entries : list GitEntry }.

Definition join_fields (fields : list bytes) (path : bytes) : bytes := foldr (fun field raw => field ++ 32 :: raw) path fields.
Definition entry_records (e : GitEntry) : list bytes :=
  match e with
  | GitOrdinary x y fields path => [join_fields (str_bytes "1" :: [x; y] :: fields) path]
  | GitRenamed x y fields path original => [join_fields (str_bytes "2" :: [x; y] :: fields) path; original]
  | GitUnmerged x y fields path => [join_fields (str_bytes "u" :: [x; y] :: fields) path]
  | GitUntracked path => [str_bytes "? " ++ path]
  end.
Definition header_records (g : GitRepository) : list bytes :=
  [str_bytes "# branch.oid " ++ gs_oid g;
   str_bytes "# branch.head " ++ match gs_head g with Some branch => encode_utf8 branch | None => str_bytes "(detached)" end]
  ++ match gs_upstream g with
     | Some (upstream, ahead, behind) =>
         [str_bytes "# branch.upstream " ++ upstream; str_bytes "# branch.ab +" ++ display_decimal ahead ++ str_bytes " -" ++ display_decimal behind]
     | None => []
     end.
Definition print_git_status (g : GitRepository) : bytes :=
  concat ((fun record => record ++ [0]) <$> (header_records g ++ concat (entry_records <$> gs_entries g))).

(** No field holds a space and nothing a zero byte; paths are arbitrary otherwise. *)
Definition free_of (c : N) (raw : bytes) : Prop := Forall (fun b => b <> c) raw.
Definition good_entry (e : GitEntry) : Prop :=
  let good_field f := free_of 32 f /\ free_of 0 f in
  match e with
  | GitOrdinary x y fields path => length fields = 6%nat /\ good_field [x; y] /\ Forall good_field fields /\ free_of 0 path
  | GitRenamed x y fields path original => length fields = 7%nat /\ good_field [x; y] /\ Forall good_field fields /\ free_of 0 path /\ free_of 0 original
  | GitUnmerged x y fields path => length fields = 8%nat /\ good_field [x; y] /\ Forall good_field fields /\ free_of 0 path
  | GitUntracked path => free_of 0 path
  end.
Record good_repository (g : GitRepository) : Prop := {
  gg_oid : free_of 0 (gs_oid g);
  gg_head branch : gs_head g = Some branch -> forallb scalar branch = true /\ free_of 0 branch /\ encode_utf8 branch <> str_bytes "(detached)";
  gg_upstream upstream ahead behind : gs_upstream g = Some (upstream, ahead, behind) -> free_of 0 upstream /\ ahead <= U32_MAX /\ behind <= U32_MAX;
  gg_entries : Forall good_entry (gs_entries g)
}.
(** What a client is told of it. *)
Definition entry_file (e : GitEntry) : GitFileStatus :=
  match e with
  | GitOrdinary x y _ path | GitUnmerged x y _ path => mkGitFile path [x] [y] []
  | GitRenamed x y _ path original => mkGitFile path [x] [y] original
  | GitUntracked path => mkGitFile path (lit "?") (lit "?") []
  end.
Definition repository_response (repository_root : bytes) (g : GitRepository) : GitStatusResponse :=
  mkGitResponse repository_root (default [] (gs_head g)) (is_none (gs_head g))
    (match gs_upstream g with Some (_, ahead, _) => ahead | None => 0 end)
    (match gs_upstream g with Some (_, _, behind) => behind | None => 0 end) (entry_file <$> gs_entries g).

(** ** Splitting *)

Lemma split_byte_run c pre current raw : free_of c pre -> split_byte c current (pre ++ raw) = split_byte c (rev pre ++ current) raw.
Proof.
  intros Hpre. revert current. induction Hpre as [|b pre Hb _ IH]; intros current; [done|]. cbn [app split_byte].
  rewrite (proj2 (N.eqb_neq b c)), IH by done. cbn [rev]. by rewrite <- app_assoc.
Qed.
Lemma split_byte_cons c field raw : free_of c field -> split_byte c [] (field ++ c :: raw) = field :: split_byte c [] raw.
Proof. intros Hf. rewrite split_byte_run by done. cbn [split_byte]. by rewrite N.eqb_refl, app_nil_r, rev_involutive. Qed.
Lemma split_byte_last c field : free_of c field -> split_byte c [] field = [field].
Proof. intros Hf. rewrite <- (app_nil_r field) at 1. rewrite split_byte_run by done. cbn. by rewrite app_nil_r, rev_involutive. Qed.
Lemma split_records records : Forall (free_of 0) records ->
  split_byte 0 [] (concat ((fun record => record ++ [0]) <$> records)) = records ++ [[]].
Proof.
  induction 1 as [|record records Hr _ IH]; [done|]. cbn [fmap list_fmap concat]. rewrite <- app_assoc. cbn [app].
  by rewrite split_byte_cons, IH.
Qed.
Lemma split_once_free c field raw : free_of c field -> split_once c (field ++ c :: raw) = Some (field, raw).
Proof.
  induction 1 as [|b field Hb _ IH]; cbn [app split_once]; [by rewrite N.eqb_refl|]. by rewrite (proj2 (N.eqb_neq b c)), IH.
Qed.
Lemma splitn_fields fields path : Forall (free_of 32) fields -> splitn (S (length fields)) 32 (join_fields fields path) = fields ++ [path].
Proof.
  induction 1 as [|field fields Hf _ IH]; [done|]. change (join_fields (field :: fields) path) with (field ++ 32 :: join_fields fields path).
  cbn [length] in *. cbn [splitn]. rewrite split_once_free by done. cbn [app]. f_equal. exact IH.
Qed.
Lemma free_join c fields path : c <> 32 -> Forall (free_of c) fields -> free_of c path -> free_of c (join_fields fields path).
Proof.
  intros Hc Hf Hp. induction Hf as [|field fields Hfield _ IH]; [done|]. apply Forall_app. split; [done|]. constructor; [congruence|done].
Qed.

(** ** Records *)

Lemma parse_tracked letter x y fields path original : free_of 32 [x; y] -> Forall (free_of 32) fields ->
  free_of 32 letter ->
  parse_tracked_git_record (join_fields (letter :: [x; y] :: fields) path) (3 + length fields) original = Some (mkGitFile path [x] [y] original).
Proof.
  intros Hxy Hf Hl. unfold parse_tracked_git_record. pose proof (splitn_fields (letter :: [x; y] :: fields) path) as Hs. cbn [length] in Hs.
  change (3 + length fields)%nat with (S (S (S (length fields)))). rewrite Hs by (constructor; [exact Hl|constructor; [exact Hxy|exact Hf]]). cbn [app]. rewrite last_cons. cbn [lookup list_lookup mbind option_bind].
  by rewrite !last_cons, last_snoc.
Qed.
Lemma push_length f r : llen (gr_files (push_file f r)) = llen (gr_files r) + 1.
Proof. cbn. rewrite llen_app. unfold llen. cbn. lia. Qed.
Lemma parse_entry e records r : good_entry e ->
  parse_records (entry_records e ++ records) r =
    if MAX_GIT_STATUS_ENTRIES <? llen (gr_files r) + 1 then refuse "quota" "Git status has too many entries"
    else parse_records records (push_file (entry_file e) r).
Proof.
  destruct e as [x y fields path|x y fields path original|x y fields path|path]; intros He; cbn [good_entry entry_records app] in *.
  1-3: destruct He as (Hl & [Hxy _] & Hf & _).
  1-3: assert (Hfields : Forall (free_of 32) fields) by (eapply Forall_impl; [exact Hf|by intros ? []]).
  - assert (Hp := parse_tracked (str_bytes "1") x y fields path [] Hxy Hfields ltac:(by repeat constructor)). rewrite Hl in Hp.
    cbn [parse_records]. change (is_empty (join_fields (str_bytes "1" :: _) _)) with false.
    change (git_header (join_fields (str_bytes "1" :: [x; y] :: fields) path) r) with (@None GitStatusResponse).
    change (has_prefix (str_bytes "1 ") (join_fields (str_bytes "1" :: _) _)) with true.
    cbv iota. change (3 + 6)%nat with 9%nat in Hp. rewrite Hp. by rewrite push_length.
  - assert (Hp := parse_tracked (str_bytes "2") x y fields path original Hxy Hfields ltac:(by repeat constructor)). rewrite Hl in Hp.
    cbn [parse_records]. change (is_empty (join_fields (str_bytes "2" :: _) _)) with false.
    change (git_header (join_fields (str_bytes "2" :: [x; y] :: fields) path) r) with (@None GitStatusResponse).
    change (has_prefix (str_bytes "1 ") (join_fields (str_bytes "2" :: _) _)) with false.
    change (has_prefix (str_bytes "2 ") (join_fields (str_bytes "2" :: _) _)) with true.
    cbv iota. change (3 + 7)%nat with 10%nat in Hp. rewrite Hp. by rewrite push_length.
  - assert (Hp := parse_tracked (str_bytes "u") x y fields path [] Hxy Hfields ltac:(by repeat constructor)). rewrite Hl in Hp.
    cbn [parse_records]. change (is_empty (join_fields (str_bytes "u" :: _) _)) with false.
    change (git_header (join_fields (str_bytes "u" :: [x; y] :: fields) path) r) with (@None GitStatusResponse).
    change (has_prefix (str_bytes "1 ") (join_fields (str_bytes "u" :: _) _)) with false.
    change (has_prefix (str_bytes "2 ") (join_fields (str_bytes "u" :: _) _)) with false.
    change (has_prefix (str_bytes "u ") (join_fields (str_bytes "u" :: _) _)) with true.
    cbv iota. change (3 + 8)%nat with 11%nat in Hp. rewrite Hp. by rewrite push_length.
  - cbn [parse_records]. change (is_empty (str_bytes "? " ++ path)) with false.
    change (git_header (str_bytes "? " ++ path) r) with (@None GitStatusResponse).
    change (has_prefix (str_bytes "1 ") (str_bytes "? " ++ path)) with false.
    change (has_prefix (str_bytes "2 ") (str_bytes "? " ++ path)) with false.
    change (has_prefix (str_bytes "u ") (str_bytes "? " ++ path)) with false.
    change (strip_prefix (str_bytes "? ") (str_bytes "? " ++ path)) with (Some path).
    cbv iota. cbn [fmap option_fmap option_map]. by rewrite push_length.
Qed.
Definition push_files (files : list GitFileStatus) (r : GitStatusResponse) : GitStatusResponse :=
  mkGitResponse (gr_repository_root r) (gr_branch r) (gr_detached r) (gr_ahead r) (gr_behind r) (gr_files r ++ files).
Lemma parse_entries entries r : Forall good_entry entries -> llen (gr_files r) <= MAX_GIT_STATUS_ENTRIES ->
  parse_records (concat (entry_records <$> entries) ++ [[]]) r =
    if MAX_GIT_STATUS_ENTRIES <? llen (gr_files r) + llen entries then refuse "quota" "Git status has too many entries"
    else Returned (push_files (entry_file <$> entries) r).
Proof.
  intros He. revert r. induction He as [|e entries He _ IH]; intros r Hr; cbn [fmap list_fmap concat].
  - cbn. rewrite llen_nil, N.add_0_r, (proj2 (N.ltb_ge _ _)) by done. unfold push_files. rewrite app_nil_r. by destruct r.
  - rewrite <- app_assoc, parse_entry by done. rewrite llen_cons. destruct (N.ltb_spec MAX_GIT_STATUS_ENTRIES (llen (gr_files r) + 1)) as [Hlt|Hge].
    + rewrite (proj2 (N.ltb_lt _ _)) by lia. done.
    + rewrite IH by (rewrite push_length; lia). rewrite push_length. replace (llen (gr_files r) + 1 + llen entries) with (llen (gr_files r) + N.succ (llen entries)) by lia.
      destruct (_ <? _); [done|]. unfold push_files, push_file. cbn [gr_files gr_repository_root gr_branch gr_detached gr_ahead gr_behind]. by rewrite <- app_assoc.
Qed.

(** ** Headers *)

Lemma ascii_digits n : Forall (fun c => c < 128) (display_decimal n) /\ free_of 32 (display_decimal n) /\ free_of 0 (display_decimal n).
Proof.
  split_and!; (eapply Forall_impl; [apply decimal_digits|]); intros c [H1%N.leb_le H2%N.leb_le]%andb_true_iff; cbn in *; lia.
Qed.
Lemma parse_count n : n <= U32_MAX -> parse_git_count (display_decimal n) = n.
Proof.
  intros Hn. unfold parse_git_count. rewrite <- (encode_ascii (display_decimal n)) by apply ascii_digits.
  by rewrite from_utf8_lossy_encode, parse_decimal by (done || apply decimal_scalar).
Qed.
Lemma free_of_app c a b : free_of c (a ++ b) <-> free_of c a /\ free_of c b.
Proof. apply Forall_app. Qed.
Lemma encode_free branch : forallb scalar branch = true -> free_of 0 branch -> free_of 0 (encode_utf8 branch).
Proof.
  intros _ Hf. unfold encode_utf8. induction Hf as [|c branch Hc _ IH]; [constructor|]. cbn [fmap list_fmap concat]. apply free_of_app. split; [|done].
  unfold encode_char, free_of. destruct (c <? 128); [by rewrite Forall_singleton|]. destruct (c <? 2048); [|destruct (c <? 65536)]; rewrite !Forall_cons, Forall_nil; split_and!; (done || by intros [? _]%N.eq_add_0).
Qed.
Lemma headers_free g : good_repository g -> Forall (free_of 0) (header_records g).
Proof.
  intros [Hoid Hhead Hup _]. unfold header_records. apply Forall_app. split; [constructor; [|constructor; [|constructor]]|].
  - apply free_of_app. split; [by repeat constructor|done].
  - apply free_of_app. split; [by repeat constructor|]. destruct (gs_head g) as [branch|]; [|by repeat constructor].
    destruct (Hhead branch) as (Hs & Hf & _); [done|]. by apply encode_free.
  - destruct (gs_upstream g) as [[[upstream ahead] behind]|]; [|constructor]. destruct (Hup upstream ahead behind) as (Hf & _ & _); [done|].
    constructor; [|constructor; [|constructor]]; rewrite ?free_of_app; split_and!; try (by repeat constructor); (done || apply ascii_digits).
Qed.
Lemma entries_free entries : Forall good_entry entries -> Forall (free_of 0) (concat (entry_records <$> entries)).
Proof.
  induction 1 as [|e entries He _ IH]; [constructor|]. cbn [fmap list_fmap concat]. apply Forall_app. split; [|exact IH].
  assert (Hj : forall x y letter fields path, free_of 0 letter -> free_of 0 [x; y] -> Forall (fun f => free_of 32 f /\ free_of 0 f) fields ->
    free_of 0 path -> free_of 0 (join_fields (letter :: [x; y] :: fields) path)).
  { intros x y letter fields path Hl Hxy Hf Hp. apply free_join; [done| |done]. constructor; [done|]. constructor; [done|].
    eapply Forall_impl; [exact Hf|]. by intros ? []. }
  destruct e; cbn [good_entry entry_records] in *; destruct_and?; rewrite ?Forall_cons, Forall_nil; split_and!; try done.
  1-3: apply Hj; [by repeat constructor|done..].
  apply free_of_app. split; [by repeat constructor|done].
Qed.
Lemma strip_app prefix raw : strip_prefix prefix (prefix ++ raw) = Some raw.
Proof. unfold strip_prefix. by rewrite take_app_length, drop_app_length, bool_decide_eq_true_2. Qed.
Lemma parse_oid oid records r : parse_records ((str_bytes "# branch.oid " ++ oid) :: records) r = parse_records records r.
Proof. reflexivity. Qed.
Lemma parse_upstream upstream records r : parse_records ((str_bytes "# branch.upstream " ++ upstream) :: records) r = parse_records records r.
Proof. reflexivity. Qed.
Lemma parse_head value records r :
  parse_records ((str_bytes "# branch.head " ++ value) :: records) r =
    parse_records records (if bool_decide (value = str_bytes "(detached)") then mark_detached r else set_branch (from_utf8_lossy value) r).
Proof. reflexivity. Qed.
Lemma parse_ab value records r :
  parse_records ((str_bytes "# branch.ab " ++ value) :: records) r = parse_records records (foldl git_count_field r (split_byte 32 [] value)).
Proof. reflexivity. Qed.
Lemma count_fields ahead behind r : ahead <= U32_MAX -> behind <= U32_MAX ->
  foldl git_count_field r (split_byte 32 [] (str_bytes "+" ++ display_decimal ahead ++ str_bytes " -" ++ display_decimal behind)) = set_behind behind (set_ahead ahead r).
Proof.
  intros Ha Hb. change (str_bytes "+" ++ display_decimal ahead ++ str_bytes " -" ++ display_decimal behind) with ((str_bytes "+" ++ display_decimal ahead) ++ 32 :: (str_bytes "-" ++ display_decimal behind)).
  pose proof (ascii_digits ahead) as (_ & Ha32 & _). pose proof (ascii_digits behind) as (_ & Hb32 & _).
  rewrite split_byte_cons by (apply free_of_app; split; [by repeat constructor|done]).
  rewrite split_byte_last by (apply free_of_app; split; [by repeat constructor|done]). cbn [foldl].
  unfold git_count_field at 2. rewrite strip_app, parse_count by done. unfold git_count_field.
  change (strip_prefix (str_bytes "+") (str_bytes "-" ++ display_decimal behind)) with (@None bytes). by rewrite strip_app, parse_count.
Qed.
Lemma parse_headers g repository_root records : good_repository g ->
  parse_records (header_records g ++ records) (mkGitResponse repository_root [] false 0 0 []) =
    parse_records records (mkGitResponse repository_root (default [] (gs_head g)) (is_none (gs_head g))
      (match gs_upstream g with Some (_, ahead, _) => ahead | None => 0 end)
      (match gs_upstream g with Some (_, _, behind) => behind | None => 0 end) []).
Proof.
  intros [_ Hhead Hup _]. unfold header_records. rewrite <- app_assoc. cbn [app]. rewrite parse_oid, parse_head.
  assert (Hb : (if bool_decide (match gs_head g with Some branch => encode_utf8 branch | None => str_bytes "(detached)" end = str_bytes "(detached)")
      then mark_detached (mkGitResponse repository_root [] false 0 0 [])
      else set_branch (from_utf8_lossy (match gs_head g with Some branch => encode_utf8 branch | None => str_bytes "(detached)" end)) (mkGitResponse repository_root [] false 0 0 []))
    = mkGitResponse repository_root (default [] (gs_head g)) (is_none (gs_head g)) 0 0 []).
  { destruct (gs_head g) as [branch|]; [|done]. destruct (Hhead branch) as (Hs & _ & Hn); [done|]. by rewrite bool_decide_eq_false_2, from_utf8_lossy_encode. }
  rewrite Hb. destruct (gs_upstream g) as [[[upstream ahead] behind]|]; [|done]. destruct (Hup upstream ahead behind) as (_ & Ha & Hbe); [done|].
  cbn [app]. rewrite parse_upstream. change (str_bytes "# branch.ab +" ++ ?x) with (str_bytes "# branch.ab " ++ str_bytes "+" ++ x).
  by rewrite parse_ab, count_fields.
Qed.
Lemma parse_printed g repository_root : good_repository g ->
  parse_git_status repository_root (print_git_status g) =
    if MAX_GIT_STATUS_ENTRIES <? llen (gs_entries g) then refuse "quota" "Git status has too many entries"
    else Returned (repository_response repository_root g).
Proof.
  intros Hg. unfold parse_git_status, print_git_status. rewrite split_records by (apply Forall_app; split; [by apply headers_free|by apply entries_free, Hg]).
  rewrite <- app_assoc, parse_headers, parse_entries by (done || apply Hg). cbn [gr_files]. by rewrite llen_nil, N.add_0_l.
Qed.

(** ** The repository *)

Lemma components_absolute p : Forall proper_name p -> components (path_bytes p) = p.
Proof.
  intros Hp. unfold components.
  assert (Hs : split_slash [] (path_bytes p) = match p with [] => [[]; []] | _ => [] :: p end).
  { destruct p as [|name p]; [done|]. unfold path_bytes.
    assert (Hrun : forall pre current raw, Forall (fun b => b <> 47) pre -> split_slash current (pre ++ raw) = split_slash (rev pre ++ current) raw).
    { intros pre current raw Hpre. revert current. induction Hpre as [|b pre Hb _ IH]; intros current; [done|]. cbn [app split_slash].
      rewrite (proj2 (N.eqb_neq b 47)), IH by done. cbn [rev]. by rewrite <- app_assoc. }
    enough (Hall : forall p current, Forall proper_name p -> split_slash current (concat ((fun name => 47 :: name) <$> p)) = rev current :: p) by by apply Hall.
    clear -Hrun. intros p. induction p as [|name p IH]; intros current Hp; [done|]. apply Forall_cons_1 in Hp as [(_ & _ & _ & Hname) Hp].
    cbn [fmap list_fmap concat app split_slash]. rewrite N.eqb_refl. f_equal. rewrite Hrun.
    - rewrite app_nil_r. rewrite IH by done. by rewrite rev_involutive.
    - eapply Forall_impl; [exact Hname|]. by intros ? []. }
  rewrite Hs. destruct p as [|name p]; [done|]. rewrite filter_cons_False by (by intros []).
  clear Hs. induction Hp as [|x l (H1 & H2 & _) _ IH]; [done|]. by rewrite filter_cons_True, IH.
Qed.
Definition no_trailing_space (p : Path) : Prop :=
  exists parent name b, p = parent ++ [name ++ [b]] /\ is_ascii_whitespace b = false.
Lemma trim_toplevel p : Forall proper_name p -> no_trailing_space p -> trim_ascii_whitespace (path_bytes p ++ [10]) = path_bytes p.
Proof.
  intros Hp (parent & name & b & -> & Hb). unfold trim_ascii_whitespace, trim_end_matches.
  assert (Hhead : exists raw, path_bytes (parent ++ [name ++ [b]]) = 47 :: raw).
  { destruct parent as [|x parent]; unfold path_bytes; by eexists. }
  assert (Hlast : exists raw, path_bytes (parent ++ [name ++ [b]]) = raw ++ [b]).
  { exists (concat ((fun name => 47 :: name) <$> parent) ++ 47 :: name). unfold path_bytes. destruct parent as [|x parent].
    - cbn. by rewrite app_nil_r.
    - rewrite fmap_app, concat_app. change ((x :: parent) ++ ?l) with (x :: parent ++ l). cbv iota. cbn [fmap list_fmap concat].
      rewrite app_nil_r, <- !app_assoc. cbn [app]. by rewrite <- ?app_assoc. }
  destruct Hhead as [raw Hraw], Hlast as [raw' Hraw']. rewrite Hraw at 1. cbn [app drop_while is_ascii_whitespace N.eqb Pos.eqb orb].
  change (47 :: raw ++ [10]) with ((47 :: raw) ++ [10]). rewrite <- Hraw, rev_app_distr. cbn [rev app drop_while].
  change (is_ascii_whitespace 10) with true. cbv iota. rewrite Hraw', rev_app_distr. cbn [rev app drop_while]. rewrite Hb. cbn [rev]. by rewrite rev_involutive.
Qed.
Lemma no_zero_byte p : Forall proper_name p -> existsb (fun b => b =? 0) (path_bytes p) = false.
Proof.
  intros Hp. destruct (existsb _ (path_bytes p)) eqn:E; [|done]. apply existsb_exists in E as (b & Hb & Hz%N.eqb_eq). subst b. exfalso.
  apply list_elem_of_In in Hb. unfold path_bytes in Hb. destruct p as [|name p]; [by apply list_elem_of_singleton in Hb|].
  apply list_elem_of_In, in_concat in Hb as (l & Hl & Hin). apply list_elem_of_In, list_elem_of_fmap in Hl as (x & -> & Hx).
  rewrite Forall_forall in Hp. destruct (Hp x Hx) as (_ & _ & _ & Hf). destruct Hin as [?|Hin]; [done|].
  rewrite Forall_forall in Hf. apply list_elem_of_In in Hin. by destruct (Hf 0 Hin).
Qed.

Section property.
Variable canonicalize : FileSystem -> Path -> FileServiceError + Path.
Variable git : Path -> list string -> GitRun.
Variable working_directory : Path.

(** C35: the status of a repository is reported exactly.  When Git answers about a project
    directory in the format it documents, whatever the names of its files (with spaces,
    or such that look like records of the format), the service returns the branch, how far it is ahead
    and behind and each changed, renamed, conflicting or untracked file, in the order of Git and with the repository's
    path below the file root; a repository outside the root, an output above 4 MiB and
    more than 20000 files are refused. *)
Theorem git_status_exact fs root raw project toplevel repository g errors1 errors2 :
  resolve_existing canonicalize fs root raw true = Returned project -> path_metadata fs project = Some NDir ->
  Forall proper_name toplevel -> no_trailing_space toplevel -> canonicalize fs toplevel = inr repository ->
  git project ["rev-parse"; "--show-toplevel"] = GitExited (mkGitOutput (Some 0%Z) (path_bytes toplevel ++ [10]) errors1) ->
  git project ["status"; "--porcelain=v2"; "--branch"; "-z"; "--untracked-files=all"; "--"; "."] =
    GitExited (mkGitOutput (Some 0%Z) (print_git_status g) errors2) ->
  good_repository g ->
  git_status canonicalize git working_directory fs root raw =
    if negb (bool_decide (root `prefix_of` repository)) then refuse "permission_denied" "Git repository is outside the file root"
    else if MAX_GIT_STATUS_SIZE <? llen (print_git_status g) then refuse "quota" "Git status output exceeds 4 MiB"
    else if MAX_GIT_STATUS_ENTRIES <? llen (gs_entries g) then refuse "quota" "Git status has too many entries"
    else Returned (repository_response
      (if bool_decide (root = repository) then str_bytes "." else relative_bytes (drop (length root) repository)) g).
Proof.
  intros Hproject Hdir Htop Hspace Hcanon Hroot Hstatus Hg. unfold git_status. rewrite Hproject. cbn [mbind outcome_bind]. rewrite Hdir.
  assert (Hrun : forall arguments output e, git project arguments = GitExited (mkGitOutput (Some 0%Z) output e) ->
    run_git git project arguments = Returned (mkGitOutput (Some 0%Z) output e)).
  { intros arguments output e He. unfold run_git. rewrite He. cbn [go_code]. by rewrite bool_decide_eq_true_2. }
  cbn [check mbind outcome_bind]. rewrite (Hrun _ _ _ Hroot).
  cbn [mbind outcome_bind go_stdout]. rewrite trim_toplevel by done.
  destruct (path_bytes toplevel) as [|b rest] eqn:E; [destruct toplevel; discriminate|]. cbn [is_empty negb check mbind outcome_bind].
  rewrite <- E, no_zero_byte by done. cbn [negb check mbind outcome_bind].
  assert (Ha : is_absolute (path_bytes toplevel) = true) by (by destruct toplevel as [|[]]). rewrite Ha, components_absolute by done.
  unfold canonical. rewrite Hcanon. cbn [mbind outcome_bind]. destruct (bool_decide_reflect (root `prefix_of` repository)) as [[p ->]|Hout]; [|done].
  cbn [check mbind outcome_bind negb]. rewrite (Hrun _ _ _ Hstatus).
  cbn [mbind outcome_bind go_stdout]. rewrite drop_app_length, N.leb_antisym. destruct (_ <? _); [done|]. cbn [negb check mbind outcome_bind].
  rewrite parse_printed by done. destruct (_ <? _); [done|]. f_equal. f_equal. destruct p as [|x p].
  - by rewrite app_nil_r, bool_decide_eq_true_2.
  - rewrite bool_decide_eq_false_2; [done|]. intros Heq. apply (f_equal length) in Heq. rewrite length_app in Heq. cbn in Heq. lia.
Qed.
End property.

(** ** Witness *)

Definition ex_git_fs : FileSystem := {[ [[104]] := NDir; [[104]; [112]] := NDir ]}.
Definition ex_git_repository : GitRepository :=
  mkGitRepository (str_bytes "abcdef") (Some [102; 233; 0x1f600]) (Some (str_bytes "origin/main", 2, 30))
    [GitOrdinary 46 77 (replicate 6 (str_bytes "x")) (str_bytes "a file # branch.head b");
     GitRenamed 82 46 (replicate 7 (str_bytes "x")) (str_bytes "1 new") (str_bytes "? old"); GitUntracked (str_bytes "notes.txt")].
Definition ex_git (_ : Path) (arguments : list string) : GitRun :=
  GitExited (mkGitOutput (Some 0%Z) (if bool_decide (head arguments = Some "rev-parse"%string) then path_bytes [[104]; [112]] ++ [10]
                                     else print_git_status ex_git_repository) []).
Lemma git_status_exact_witness :
  git_status ex_canonicalize ex_git [] ex_git_fs [[104]] [112] = Returned (repository_response [112] ex_git_repository) /\
  gr_files (repository_response [112] ex_git_repository) !! 1%nat =
    Some (mkGitFile (str_bytes "1 new") (lit "R") (lit ".") (str_bytes "? old")).
Proof.
  split; [|vm_compute; reflexivity].
  refine (eq_trans (git_status_exact ex_canonicalize ex_git [] ex_git_fs [[104]] [112] [[104]; [112]] [[104]; [112]] [[104]; [112]] ex_git_repository [] [] _ _ _ _ _ _ _ _) _);
    try (vm_compute; reflexivity).
  - repeat constructor; intros ?; discriminate.
  - exists [[104]], [], 112. split; reflexivity.
  - split.
    + repeat constructor; discriminate.
    + intros branch [= <-]. split; [vm_compute; reflexivity|]. split; [repeat constructor; discriminate|vm_compute; discriminate].
    + intros upstream ahead behind [= <- <- <-]. split; [repeat constructor; discriminate|]. split; vm_compute; discriminate.
    + repeat constructor; discriminate.
Defined.
