(* ===== verification/FileWatch.v ===== *)
(** * File watches ([files.rs])

    [watch_files] registers directories with the watcher of the system; its callback
    puts events into a bounded queue, and [FileChangeSubscription::next] takes them in
    batches and reports which of the requested paths changed.  The callback runs at any
    time, so that a subscription is a step relation. *)
From S2P Require Import Prelude Text Resources TerminalState Payload Files FilesSpec Messages FileReads FileReadsSpec.
Open Scope N_scope.

(** [notify::EventKind], without the details, and [notify::Event]. *)
Inductive NotifyEventKind := EkAny | EkAccess | EkCreate | EkModify | EkRemove | EkOther.
Record Event := mkFsEvent { ev_kind : NotifyEventKind; ev_paths : list Path }.
(** [notify::Result<Event>] *)
Abbreviation Notification := (option Event).

Definition file_change_kind (kind : NotifyEventKind) : option string :=
  match kind with
  | EkAccess => None
  | EkCreate => Some "created"%string
  | EkModify => Some "modified"%string
  | EkRemove => Some "removed"%string
  | EkAny | EkOther => Some "rescan"%string
  end.

Record RecursiveWatchRoot := mkWatchRoot { rr_resolved : Path; rr_requested : bytes }.
Record FileChangeSubscription := mkSubscription {
  sb_watched : list (Path * bool); sb_requested_paths : gmap Path bytes; sb_recursive_roots : list RecursiveWatchRoot }.

(** ** Subscribing *)

Section watch.
Variable canonicalize : FileSystem -> Path -> FileServiceError + Path.

Definition watch_directory (p : Path) (recursive : bool) (s : FileChangeSubscription) : FileChangeSubscription :=
  mkSubscription (if bool_decide (p ∈ (sb_watched s).*1) then sb_watched s else sb_watched s ++ [(p, recursive)])
    (sb_requested_paths s) (sb_recursive_roots s).
Definition add_root (r : RecursiveWatchRoot) (s : FileChangeSubscription) : FileChangeSubscription :=
  mkSubscription (sb_watched s) (sb_requested_paths s) (sb_recursive_roots s ++ [r]).
Definition add_path (p : Path) (raw : bytes) (s : FileChangeSubscription) : FileChangeSubscription :=
  mkSubscription (sb_watched s) (<[p := raw]> (sb_requested_paths s)) (sb_recursive_roots s).

(** The loop over the paths; call [2 k] looks at path [k], call [2 k + 1] registers its
    directory. *)
Fixpoint watch_paths (io : Io) (root : Path) (fs : FileSystem) (recursive : bool) (k : nat) (paths : list bytes)
    (s : FileChangeSubscription) : outcome FileServiceError FileChangeSubscription :=
  match paths with
  | [] => Returned s
  | raw_path :: paths =>
      path ← resolve_existing canonicalize fs root raw_path recursive;
      _ ← system_call io (2 * k) "cannot inspect";
      node ← found (fs !! path) "cannot inspect";
      if recursive then
        _ ← check (is_dir node) "invalid" "is not a directory";
        _ ← (if bool_decide (path ∈ (sb_watched s).*1) then Returned tt else system_call io (2 * k + 1) "cannot watch");
        watch_paths io root fs recursive (S k) paths (add_root (mkWatchRoot path raw_path) (watch_directory path true s))
      else
        _ ← check (negb (is_dir node)) "invalid" "is a directory";
        let parent := match split_last path with Some (parent, _) => parent | None => root end in
        _ ← (if bool_decide (parent ∈ (sb_watched s).*1) then Returned tt else system_call io (2 * k + 1) "cannot watch");
        watch_paths io root fs recursive (S k) paths (add_path path raw_path (watch_directory parent false s))
  end.
Definition watch_files (io : Io) (root : Path) (fs : FileSystem) (paths : list bytes) (recursive : bool)
    : outcome FileServiceError FileChangeSubscription :=
  _ ← check (negb (is_empty paths)) "invalid" "at least one file path is required";
  _ ← check (llen paths <=? MAX_WATCHED_FILES) "quota" "too many files to watch";
  _ ← check (negb (recursive && (MAX_RECURSIVE_WATCH_ROOTS <? llen paths))) "quota" "too many recursive roots to watch";
  watch_paths io root fs recursive 0 paths (mkSubscription [] ∅ []).
End watch.

(** ** Coalescing *)

(** The bytes of a relative path, and [PathBuf::join]. *)
Definition join_bytes (base : bytes) (relative : Path) : bytes :=
  let raw := drop 1 (path_bytes relative) in
  match last base with None => raw | Some 47 => base ++ raw | Some _ => base ++ 47 :: raw end.
(** The names under which a path of the system is reported. *)
Definition reported_under (r : RecursiveWatchRoot) (path : Path) : option bytes :=
  if decide (rr_resolved r `prefix_of` path) then
    let relative := drop (length (rr_resolved r)) path in
    Some (if is_empty relative then rr_requested r else join_bytes (rr_requested r) relative)
  else None.
Definition reported (s : FileChangeSubscription) (path : Path) : list bytes :=
  match sb_requested_paths s !! path with Some raw => [raw] | None => [] end
  ++ omap (fun r => reported_under r path) (sb_recursive_roots s).

Definition coalesce_path (s : FileChangeSubscription) (kind : string) (changes : gmap bytes string) (path : Path) : gmap bytes string :=
  foldl (fun changes raw => <[raw := kind]> changes) changes (reported s path).
Definition coalesce_event (s : FileChangeSubscription) (acc : gmap bytes string * bool) (event : Notification) : gmap bytes string * bool :=
  let '(changes, rescan_required) := acc in
  match event with
  | None => (changes, true)
  | Some event =>
      match file_change_kind (ev_kind event) with
      | None => (changes, rescan_required)
      | Some kind => (foldl (coalesce_path s kind) changes (ev_paths event), rescan_required || bool_decide (kind = "rescan"%string))
      end
  end.
Definition path_le (a b : FileChange) : Prop := bytes_le (ch_path a) (ch_path b).
#[global] Instance path_le_dec : RelDecision path_le := fun a b => decide (bytes_le (ch_path a) (ch_path b)).
Definition coalesce (s : FileChangeSubscription) (events : list Notification) : FileChangesResponse :=
  let '(changes, rescan_required) := foldl (coalesce_event s) (∅, false) events in
  mkFileChanges (merge_sort path_le ((fun kv => mkFileChange kv.1 kv.2) <$> map_to_list changes)) rescan_required.

(** ** The queue *)

(** The queue of the callback, its flag, and the batch that [next] is collecting. *)
Record Watch := mkWatch { wt_queue : list Notification; wt_rescan : bool; wt_batch : list Notification }.
(** The callback ran for an event; [next] received one event; or it found the queue empty or
    its batch full, and coalesced the batch. *)
Inductive watch_step (s : FileChangeSubscription) : Watch -> option Notification -> option FileChangesResponse -> Watch -> Prop :=
| watch_queued w event : (length (wt_queue w) < MAX_PENDING_FILE_EVENTS)%nat ->
    watch_step s w (Some event) None (mkWatch (wt_queue w ++ [event]) (wt_rescan w) (wt_batch w))
| watch_full w event : (MAX_PENDING_FILE_EVENTS <= length (wt_queue w))%nat ->
    watch_step s w (Some event) None (mkWatch (wt_queue w) true (wt_batch w))
| watch_receive w event queue : wt_queue w = event :: queue -> (length (wt_batch w) < MAX_FILE_CHANGES_PER_EVENT)%nat ->
    watch_step s w None None (mkWatch queue (wt_rescan w) (wt_batch w ++ [event]))
| watch_report w : wt_batch w <> [] -> wt_queue w = [] \/ (MAX_FILE_CHANGES_PER_EVENT <= length (wt_batch w))%nat ->
    let response := coalesce s (wt_batch w) in
    let response := mkFileChanges (cs_changes response) (cs_rescan_required response || wt_rescan w) in
    watch_step s w None (if cs_rescan_required response || negb (is_empty (cs_changes response)) then Some response else None)
      (mkWatch (wt_queue w) false []).

Inductive watch_run (s : FileChangeSubscription) : Watch -> list Notification -> list FileChangesResponse -> Watch -> Prop :=
| watch_stay w : watch_run s w [] [] w
| watch_more w1 event response w2 events responses w3 : watch_step s w1 event response w2 -> watch_run s w2 events responses w3 ->
    watch_run s w1 (option_list event ++ events) (option_list response ++ responses) w3.
Definition watch_start : Watch := mkWatch [] false [].

(** ** Lemmas *)

Section lemmas.
Context (s : FileChangeSubscription).

(** The names an event is reported under. *)
Definition event_reports (event : Event) : list bytes := concat (reported s <$> ev_paths event).
Lemma insert_each_lookup (kind : string) (raws : list bytes) (changes : gmap bytes string) (q : bytes) :
  foldl (fun changes raw => <[raw := kind]> changes) changes raws !! q = if decide (q ∈ raws) then Some kind else changes !! q.
Proof.
  revert changes. induction raws as [|raw raws IH]; intros changes; cbn [foldl].
  - rewrite decide_False; [done|]. apply not_elem_of_nil.
  - rewrite IH. destruct (decide (q ∈ raws)) as [Hin|Hout]; [by rewrite decide_True by by right|]. destruct (decide (q = raw)) as [->|Hne].
    + rewrite lookup_insert_eq, decide_True; [done|by left].
    + rewrite lookup_insert_ne, decide_False; [done| |done]. by intros [?|?]%elem_of_cons.
Qed.
Lemma coalesce_paths kind paths changes : foldl (coalesce_path s kind) changes paths =
  foldl (fun changes raw => <[raw := kind]> changes) changes (concat (reported s <$> paths)).
Proof.
  revert changes. induction paths as [|path paths IH]; intros changes; [done|]. cbn [foldl fmap list_fmap concat]. by rewrite foldl_app, IH.
Qed.
(** An event that says that [q] changed in the way [kind]. *)
Definition says (q : bytes) (kind : string) (event : Notification) : Prop :=
  exists ev, event = Some ev /\ file_change_kind (ev_kind ev) = Some kind /\ q ∈ event_reports ev.
Definition asks_rescan (event : Notification) : Prop :=
  match event with None => True | Some ev => file_change_kind (ev_kind ev) = Some "rescan"%string end.

Lemma coalesce_events events changes flag :
  let '(changes', flag') := foldl (coalesce_event s) (changes, flag) events in
  (forall q, is_Some (changes' !! q) <-> is_Some (changes !! q) \/ exists kind, Exists (says q kind) events) /\
  (forall q kind, changes' !! q = Some kind -> changes !! q = Some kind \/ Exists (says q kind) events) /\
  (flag' = true <-> flag = true \/ Exists asks_rescan events).
Proof.
  revert changes flag. induction events as [|event events IH]; intros changes flag; cbn [foldl].
  - split_and!; [intros q; split; [by left|intros [?|[kind He]]; [done|by apply Exists_nil in He]]|by left|].
    split; [by left|intros [?|He]; [done|by apply Exists_nil in He]].
  - destruct (coalesce_event s (changes, flag) event) as [changes1 flag1] eqn:E. specialize (IH changes1 flag1).
    destruct (foldl _ _ events) as [changes2 flag2]. destruct IH as (H1 & H2 & H3).
    assert (Hstep : (forall q, is_Some (changes1 !! q) <-> is_Some (changes !! q) \/ exists kind, says q kind event) /\
      (forall q kind, changes1 !! q = Some kind -> changes !! q = Some kind \/ says q kind event) /\ (flag1 = true <-> flag = true \/ asks_rescan event)).
    { clear -E. destruct event as [ev|]; cbn in E; [|injection E as <- <-; unfold says; split_and!; intros; cbn; naive_solver].
      destruct (file_change_kind (ev_kind ev)) as [kind|] eqn:Ek; injection E as <- <-.
      2:{ unfold says; split_and!; intros; cbn; rewrite ?Ek; naive_solver. }
      rewrite coalesce_paths. fold (event_reports ev). unfold says. split_and!.
      - intros q. rewrite insert_each_lookup. destruct (decide _); naive_solver.
      - intros q k. rewrite insert_each_lookup. destruct (decide _); naive_solver.
      - cbn. rewrite Ek, orb_true_iff, bool_decide_eq_true. naive_solver. }
    destruct Hstep as (G1 & G2 & G3). split_and!; intros.
    + rewrite H1, G1. setoid_rewrite Exists_cons. naive_solver.
    + rewrite Exists_cons. destruct (H2 q kind) as [Hc|Hc]; [done| |by right; right]. destruct (G2 q kind Hc); naive_solver.
    + rewrite H3, G3, Exists_cons. naive_solver.
Qed.

(** What a coalesced batch reports: each name that some event was about, under a kind that
    an event gave it. *)
Lemma coalesce_spec events :
  (forall q, (exists kind, mkFileChange q kind ∈ cs_changes (coalesce s events)) <-> exists kind, Exists (says q kind) events) /\
  (forall q kind, mkFileChange q kind ∈ cs_changes (coalesce s events) -> Exists (says q kind) events) /\
  (cs_rescan_required (coalesce s events) = true <-> Exists asks_rescan events).
Proof.
  pose proof (coalesce_events events ∅ false) as Hc. unfold coalesce. destruct (foldl _ _ events) as [changes flag]. destruct Hc as (H1 & H2 & H3). cbn [cs_changes cs_rescan_required].
  assert (Hin : forall q kind, mkFileChange q kind ∈ merge_sort path_le ((fun kv => mkFileChange kv.1 kv.2) <$> map_to_list changes) <-> changes !! q = Some kind).
  { intros q kind. rewrite merge_sort_Permutation, list_elem_of_fmap. split.
    - intros ([q' k'] & [= -> ->] & Hq). by apply elem_of_map_to_list in Hq.
    - intros Hq. exists (q, kind). by rewrite elem_of_map_to_list. }
  split_and!.
  - intros q. setoid_rewrite Hin. specialize (H1 q). rewrite lookup_empty in H1. unfold is_Some in H1 at 2.
    unfold is_Some in H1. naive_solver.
  - intros q kind Hq%Hin. destruct (H2 _ _ Hq) as [He|He]; [by rewrite lookup_empty in He|done].
  - rewrite H3. naive_solver.
Qed.
End lemmas.

(** ** Nothing is lost *)

Section property.
Context (s : FileChangeSubscription).

(** An event that a client must hear of: the watcher failed, or it changed something under a
    requested name. *)
Definition concerns (event : Notification) : Prop :=
  match event with None => True | Some ev => file_change_kind (ev_kind ev) <> None /\ event_reports s ev <> [] end.
(** A response that tells of it: each name it changed, or that everything must be read again. *)
Definition tells (event : Notification) (r : FileChangesResponse) : Prop :=
  cs_rescan_required r = true \/
  exists ev, event = Some ev /\ forall q, q ∈ event_reports s ev -> exists kind, mkFileChange q kind ∈ cs_changes r.
Definition pending (event : Notification) (w : Watch) : Prop :=
  event ∈ wt_queue w \/ event ∈ wt_batch w \/ wt_rescan w = true.
(** The flag is only set while there is something to read. *)
Definition awake (w : Watch) : Prop := wt_rescan w = true -> wt_queue w <> [] \/ wt_batch w <> [].
Definition quiet (w : Watch) : Prop := wt_queue w = [] /\ wt_batch w = [].

Lemma batch_tells event events : event ∈ events -> concerns event ->
  tells event (coalesce s events) /\ (cs_rescan_required (coalesce s events) || negb (is_empty (cs_changes (coalesce s events))) = true).
Proof.
  intros Hin Hc. destruct (coalesce_spec s events) as (H1 & _ & H3). destruct event as [ev|]; cbn in Hc.
  - destruct Hc as [Hk Hr]. destruct (file_change_kind (ev_kind ev)) as [kind|] eqn:Ek; [|done].
    assert (Hall : forall q, q ∈ event_reports s ev -> exists k, mkFileChange q k ∈ cs_changes (coalesce s events)).
    { intros q Hq. apply H1. exists kind. apply Exists_exists. exists (Some ev). split; [done|]. by exists ev. }
    split; [right; eauto|]. destruct (event_reports s ev) as [|q l]; [done|]. destruct (Hall q) as [k Hq]; [by left|].
    destruct (cs_changes _); [by apply elem_of_nil in Hq|]. apply orb_true_r.
  - assert (Hr : cs_rescan_required (coalesce s events) = true) by (apply H3, Exists_exists; by exists None).
    split; [by left|]. by rewrite Hr.
Qed.
Lemma step_awake w event response w' : watch_step s w event response w' -> awake w -> awake w'.
Proof.
  intros Hs Ha. destruct Hs as [w event Hl|w event Hl|w event queue Hq Hl|w Hb Hq]; unfold awake in *; cbn in *.
  - intros _. left. by destruct (wt_queue w).
  - intros _. left. destruct (wt_queue w); [cbn in Hl; unfold MAX_PENDING_FILE_EVENTS in Hl; lia|done].
  - intros _. right. by destruct (wt_batch w).
  - done.
Qed.
Lemma step_delivers w event response w' : watch_step s w (Some event) response w' -> pending event w'.
Proof.
  inversion 1; subst; unfold pending; cbn; [|by right; right]. left. apply elem_of_app. right. by left.
Qed.
Lemma step_pending w e event response w' : watch_step s w e response w' -> concerns event -> pending event w ->
  pending event w' \/ exists r, response = Some r /\ tells event r.
Proof.
  intros Hs Hc Hp. destruct Hs as [w e Hl|w e Hl|w e queue Hq Hl|w Hb Hq]; unfold pending in *; cbn in *.
  - left. destruct Hp as [?|[?|?]]; [left; apply elem_of_app; by left|by right; left|by right; right].
  - left. by right; right.
  - rewrite Hq in Hp. left. destruct Hp as [[->|?]%elem_of_cons|[?|?]]; [right; left; apply elem_of_app; right; by left|by left|right; left; apply elem_of_app; by left|by right; right].
  - destruct Hp as [?|[Hin|Hr]]; [left; by left| |].
    + destruct (batch_tells _ _ Hin Hc) as [Ht He]. right. exists response0. split.
      * unfold response0, response. cbn. destruct (cs_rescan_required _); [done|]. destruct (wt_rescan w); [done|]. cbn in *. by rewrite He.
      * destruct Ht as [Ht|Ht]; [left; unfold response0, response; cbn; by rewrite Ht|right; exact Ht].
    + right. exists response0. unfold response0, response. cbn. rewrite Hr, orb_true_r. split; [done|by left].
Qed.
Lemma run_awake w events responses w' : watch_run s w events responses w' -> awake w -> awake w'.
Proof. induction 1; [done|]. intros Ha. eauto using step_awake. Qed.
Lemma run_pending w events responses w' event : watch_run s w events responses w' -> concerns event -> pending event w ->
  pending event w' \/ exists r, r ∈ responses /\ tells event r.
Proof.
  intros Hr Hc. induction Hr as [w|w1 e response w2 events responses w3 Hs _ IH]; intros Hp; [by left|].
  destruct (step_pending _ _ _ _ _ Hs Hc Hp) as [Hp'|(r & -> & Ht)].
  - destruct (IH Hp') as [?|(r & Hin & Ht)]; [by left|]. right. exists r. split; [|done]. apply elem_of_app. by right.
  - right. exists r. split; [by left|done].
Qed.
(** Without new events the queue is read out. *)
Lemma drains w : exists responses w', watch_run s w [] responses w' /\ quiet w'.
Proof.
  assert (Hreport : forall n w, (2 * length (wt_queue w) + length (wt_batch w) < n)%nat -> exists responses w', watch_run s w [] responses w' /\ quiet w').
  { clear w. induction n as [|n IH]; intros w Hn; [lia|]. destruct (wt_queue w) as [|e queue] eqn:Eq.
    - destruct (wt_batch w) as [|b batch] eqn:Eb; [exists [], w; by split; [constructor|]|].
      destruct (IH (mkWatch (wt_queue w) false [])) as (rs & w' & Hr & Hq); [cbn; rewrite Eq; cbn in *; lia|].
      eexists _, w'. split; [|done]. eapply (watch_more s w None); [|exact Hr]. apply watch_report; [by rewrite Eb|by left].
    - destruct (decide (length (wt_batch w) < MAX_FILE_CHANGES_PER_EVENT)%nat) as [Hl|Hl].
      + destruct (IH (mkWatch queue (wt_rescan w) (wt_batch w ++ [e]))) as (rs & w' & Hr & Hq); [cbn; rewrite length_app; cbn in *; lia|].
        eexists _, w'. split; [|done]. eapply (watch_more s w None None); [|exact Hr]. by apply watch_receive.
      + destruct (IH (mkWatch (wt_queue w) false [])) as (rs & w' & Hr & Hq); [cbn; rewrite Eq; unfold MAX_FILE_CHANGES_PER_EVENT in Hl; cbn in *; lia|].
        eexists _, w'. split; [|done]. eapply (watch_more s w None); [|exact Hr]. apply watch_report; [|right; lia].
        intros Hb. rewrite Hb in Hl. unfold MAX_FILE_CHANGES_PER_EVENT in Hl. cbn in Hl. lia. }
  apply (Hreport (S (2 * length (wt_queue w) + length (wt_batch w))) w). lia.
Qed.

(** C34: no change of a watched file is lost.  Whatever the callback and the reader do, and
    however many events come at once: after an event that concerns a requested name, or a failure of the watcher, either it is still
    to be read, or a response that came after it told each of its names or asked
    to read everything again.  A rest of unread events is always read out, and once nothing is left
    to read every such event has been told. *)
Theorem watch_loses_nothing events1 responses1 w1 event response w2 events2 responses2 w3 :
  watch_run s watch_start events1 responses1 w1 -> watch_step s w1 (Some event) response w2 -> concerns event ->
  watch_run s w2 events2 responses2 w3 ->
  (pending event w3 \/ exists r, r ∈ responses2 /\ tells event r) /\
  (quiet w3 -> exists r, r ∈ responses2 /\ tells event r) /\
  exists responses w4, watch_run s w3 [] responses w4 /\ quiet w4.
Proof.
  intros H1 Hs Hc H2. pose proof (run_pending _ _ _ _ event H2 Hc (step_delivers _ _ _ _ Hs)) as Hp. split; [exact Hp|]. split; [|apply drains].
  intros [Hq Hb]. destruct Hp as [[Hp|[Hp|Hp]]|Hp]; [rewrite Hq in Hp; by apply elem_of_nil in Hp|rewrite Hb in Hp; by apply elem_of_nil in Hp| |done].
  assert (Ha : awake w3) by (eapply run_awake; [exact H2|eapply step_awake; [exact Hs|by eapply run_awake]]). by destruct (Ha Hp).
Qed.
End property.

(** ** Witness *)

Definition ex_subscription : FileChangeSubscription := mkSubscription [([[104]], false)] {[ [[104]; [97]] := [97] ]} [].
Definition ex_changed : Notification := Some (mkFsEvent EkModify [[[104]; [98]]; [[104]; [97]]]).
Lemma watch_loses_nothing_witness :
  concerns ex_subscription ex_changed /\
  forall events responses w, watch_run ex_subscription (mkWatch [ex_changed] false []) events responses w -> quiet w ->
    exists r, r ∈ responses /\ tells ex_subscription ex_changed r.
Proof.
  assert (Hc : concerns ex_subscription ex_changed) by (split; vm_compute; discriminate). split; [exact Hc|]. intros events responses w Hrun.
  refine (proj1 (proj2 (watch_loses_nothing ex_subscription [] [] watch_start ex_changed None _ events responses w _ _ Hc Hrun))).
  - constructor.
  - apply (watch_queued ex_subscription watch_start). apply Nat.ltb_lt. reflexivity.
Defined.
