(* ===== verification/Authentication.v ===== *)
(** * Authentication ([auth.rs], [accounts.rs], [server.rs], [client.rs])

    A connection begins with one exchange: the client says who it wants to be and what
    it offers, the gateway answers with a challenge, the client signs the challenge with its SSH key,
    and the gateway looks for that key in the files of the account.  Signatures, key formats
    and the account database are libraries: they are the operations of [SshLib] and the
    answers of [Host].  The gateway that negotiates is the one of [Negotiation], its quotas are
    those of [Resources]. *)
From stdpp Require Import strings pretty.
From S2P Require Import Prelude Resources TerminalState Negotiation Files Messages StreamChannels Gateway.
Open Scope N_scope.

Definition SSHSIG_NAMESPACE : string := "astra-shell-auth-v1".

(** ** Libraries and the host *)

Class SshLib := {
  (** [ssh_key::public::KeyData], private keys and [SshSig] *)
  KeyData : Type;
  KeyData_eq_dec :: EqDecision KeyData;
  PrivateKey : Type;
  SshSig : Type;
  (** [PublicKey::from_openssh] and [to_openssh] *)
  public_from_openssh : string -> result KeyData;
  public_to_openssh : KeyData -> string;
  (** [SshSig::from_pem] and [to_pem] *)
  sig_from_pem : string -> result SshSig;
  sig_to_pem : SshSig -> string;
  (** [AuthorizedKeys]: the entries of a file in order, each an error or a key with its
      options. *)
  authorized_entries : bytes -> list (result (KeyData * string));
  (** [PublicKey::verify] and [PublicKey::fingerprint] *)
  ssh_verify : KeyData -> string -> bytes -> SshSig -> bool;
  key_fingerprint : KeyData -> string;
  (** [PrivateKey::public_key], [is_encrypted] and [sign] *)
  public_of : PrivateKey -> KeyData;
  is_encrypted : PrivateKey -> bool;
  ssh_sign : PrivateKey -> string -> bytes -> result SshSig
}.

(** What a library of keys promises: formats are read back, and a signature verifies. *)
Class SshLaws `{SshLib} := {
  public_openssh k : public_from_openssh (public_to_openssh k) = Ok k;
  sig_pem s : sig_from_pem (sig_to_pem s) = Ok s;
  sign_verifies k namespace message s : ssh_sign k namespace message = Ok s -> ssh_verify (public_of k) namespace message s = true
}.

(** [fs::symlink_metadata]: what a path is, its owner and its mode. *)
Inductive PathKind := PkFile | PkDirectory | PkSymlink | PkOther.
#[global] Instance PathKind_eq_dec : EqDecision PathKind.
Proof. solve_decision. Defined.
Record PathMetadata := mkPathMetadata { pm_kind : PathKind; pm_uid : N; pm_mode : N }.
Inductive Inspected := Present (m : PathMetadata) | NotFound | Unreadable.
(** [nix::unistd::User] *)
Record UnixUser := mkUnixUser { uu_name : string; uu_uid : N; uu_gid : N; uu_dir : Path; uu_shell : Path }.
Record SystemAccount := mkAccount {
  ac_username : string; ac_uid : N; ac_gid : N; ac_home : Path; ac_shell : Path; ac_supplementary_groups : list N }.
(** The answers of the operating system. *)
Record Host := mkHost {
  ho_inspect : Path -> Inspected;
  ho_read : Path -> result bytes;
  ho_user : string -> result (option UnixUser);
  ho_groups : string -> N -> result (list N);
  ho_effective_uid : N
}.

(** ** Accounts ([accounts.rs]) *)

Definition lookup_account (h : Host) (username : string) : result SystemAccount :=
  ensure! negb (bool_decide (username = ""%string)) && (llen (str_bytes username) <=? 256)
          && negb (existsb (fun b => b =? 0) (str_bytes username)), "invalid Unix username";
  user ← ho_user h username;
  user ← ok_or user "unknown Unix user";
  groups ← ho_groups h (uu_name user) (uu_gid user);
  Ok (mkAccount (uu_name user) (uu_uid user) (uu_gid user) (uu_dir user) (uu_shell user) groups).

Definition check_secure_path (h : Host) (path : Path) (user_uid : N) (directory : bool) : result () :=
  match ho_inspect h path with
  | NotFound | Unreadable => Err "failed to inspect"
  | Present m =>
      ensure! negb (bool_decide (pm_kind m = PkSymlink)), "must not be a symbolic link";
      ensure! negb (directory && negb (bool_decide (pm_kind m = PkDirectory))), "is not a directory";
      ensure! negb (negb directory && negb (bool_decide (pm_kind m = PkFile))), "is not a regular file";
      ensure! negb (negb (pm_uid m =? user_uid) && negb (pm_uid m =? 0)), "is owned by another UID";
      ensure! negb (negb (N.land (pm_mode m) 18 =? 0)), "is writable by group or other users";
      Ok tt
  end.

(** The loop over the candidates. *)
Fixpoint existing_key_files (h : Host) (uid : N) (candidates : list Path) : result (list Path) :=
  match candidates with
  | [] => Ok []
  | path :: candidates =>
      match ho_inspect h path with
      | Present _ =>
          _ ← check_secure_path h path uid false;
          files ← existing_key_files h uid candidates;
          Ok (path :: files)
      | NotFound => existing_key_files h uid candidates
      | Unreadable => Err "failed to inspect"
      end
  end.
Definition authorized_key_files (h : Host) (account : SystemAccount) (override_directory : option Path) : result (list Path) :=
  candidates ← match override_directory with
               | Some directory =>
                   _ ← check_secure_path h directory (ac_uid account) true;
                   Ok [directory ++ [str_bytes (ac_username account)]]
               | None =>
                   let ssh_directory := ac_home account ++ [str_bytes ".ssh"] in
                   _ ← check_secure_path h (ac_home account) (ac_uid account) true;
                   _ ← check_secure_path h ssh_directory (ac_uid account) true;
                   Ok [ssh_directory ++ [str_bytes "authorized_keys"]; ssh_directory ++ [str_bytes "authorized_keys2"]]
               end;
  files ← existing_key_files h (ac_uid account) candidates;
  ensure! negb (is_empty files), "no authorized_keys file is configured for the requested user";
  Ok files.

Section authentication.
Context `{SshLib}.

(** ** Keys ([auth.rs]) *)

(** The loop over the entries of a file: whether the key is there. *)
Fixpoint find_entry (offered : KeyData) (entries : list (result (KeyData * string))) : result bool :=
  match entries with
  | [] => Ok false
  | entry :: entries =>
      '(key, options) ← entry;
      if decide (key = offered) then
        ensure! bool_decide (options = ""%string), "authorized_keys options are not supported for the matching key";
        Ok true
      else find_entry offered entries
  end.
Fixpoint find_key (h : Host) (offered : KeyData) (files : list Path) : result bool :=
  match files with
  | [] => Ok false
  | path :: files =>
      contents ← ho_read h path;
      authorized ← find_entry offered (authorized_entries contents);
      if authorized : bool then Ok true else find_key h offered files
  end.
Definition verify_authorized_keys (h : Host) (files : list Path) (public_key signature_pem : string) (challenge : bytes) : result string :=
  offered ← public_from_openssh public_key;
  signature ← sig_from_pem signature_pem;
  authorized ← find_key h offered files;
  ensure! (authorized : bool), "public key is not authorized";
  ensure! ssh_verify offered SSHSIG_NAMESPACE challenge signature, "SSH signature verification failed";
  Ok (key_fingerprint offered).
Definition verify_authorized_key (h : Host) (file : Path) (public_key signature_pem : string) (challenge : bytes) : result string :=
  verify_authorized_keys h [file] public_key signature_pem challenge.

(** The file of an identity: its mode, and the key it holds. *)
Record Identity := mkIdentityFile { if_mode : option N; if_key : result PrivateKey }.
Definition check_private_key_permissions (identity : Identity) : result () :=
  mode ← ok_or (if_mode identity) "failed to stat";
  ensure! N.land mode 63 =? 0, "private key is accessible to others";
  Ok tt.
Definition sign_challenge (identity : Identity) (challenge : bytes) : result (string * string) :=
  _ ← check_private_key_permissions identity;
  private ← if_key identity;
  ensure! negb (is_encrypted private), "encrypted private keys are not supported";
  signature ← ssh_sign private SSHSIG_NAMESPACE challenge;
  Ok (public_to_openssh (public_of private), sig_to_pem signature).

(** ** The gateway ([server.rs]) *)

Inductive ModeState :=
| Rootless (account : SystemAccount) (authorized_keys : Path)
| Managed (authorized_keys_directory : option Path).
Inductive ConnectionBackend := LocalBackend | WorkerBackend (account : SystemAccount).
Record ServerState := mkServer {
  sv_mode : ModeState; sv_instance_id : string; sv_tcp_forwarding_enabled : bool; sv_terminal_datagrams_enabled : bool;
  sv_governor : ResourceGovernor }.

Definition authenticate_user (h : Host) (mode : ModeState) (username public_key signature_pem : string) (payload : bytes)
    : result (string * ConnectionBackend) :=
  match mode with
  | Rootless account authorized_keys =>
      ensure! bool_decide (username = ac_username account), "rootless daemon belongs to another Unix user";
      fingerprint ← verify_authorized_key h authorized_keys public_key signature_pem payload;
      Ok (fingerprint, LocalBackend)
  | Managed authorized_keys_directory =>
      account ← lookup_account h username;
      ensure! negb (negb (ho_effective_uid h =? 0) && negb (ho_effective_uid h =? ac_uid account)),
        "non-root managed daemon cannot authenticate a different Unix UID";
      files ← authorized_key_files h account authorized_keys_directory;
      fingerprint ← verify_authorized_keys h files public_key signature_pem payload;
      Ok (fingerprint, WorkerBackend account)
  end.

(** A connection that passed: the user, the key, what serves it, the protocol, the epoch and
    the reservations it holds. *)
Record Authenticated := mkAuthenticated {
  au_username : string; au_fingerprint : string; au_backend : ConnectionBackend; au_negotiated : NegotiatedProtocol;
  au_stream_epoch : N; au_resources : ResourceAccount; au_reservation : list PoolReservation }.

(** [Display for QuotaExceeded] *)
Definition quota_message (e : QuotaExceeded) : string :=
  q_scope e +:+ " quota exceeded for " +:+ q_resource e +:+ ": requested " +:+ pretty (q_requested e)
  +:+ ", current " +:+ pretty (q_current e) +:+ ", limit " +:+ pretty (q_limit e).

(** What the gateway draws at random for a connection, and the handle of a new pool. *)
Record Draw := mkDraw { dr_challenge : bytes; dr_epoch : N; dr_pool : N }.
Record Pools := mkPools { po_store : PoolStore; po_governor : ResourceGovernor }.

(** [authenticate_connection] on the messages that the client sends: the messages it
    answers and its result.  [datagrams] says whether the transport carries datagrams.  A
    write fails when [writes] says so; an answer to a refused client is written at best. *)
Definition server_hello (s : ServerState) (negotiated : NegotiatedProtocol) (d : Draw) : WireMessage :=
  Some (BServerHello (mkServerHello (np_version negotiated) (dr_challenge d) (sv_instance_id s) (selections negotiated))).
Definition finish_authentication (s : ServerState) (h : Host) (d : Draw) (pools : Pools) (writes : nat -> bool) (username : string)
    (negotiated : NegotiatedProtocol) (incoming : list WireMessage) : Pools * list WireMessage * result Authenticated :=
  let payload := authentication_payload (dr_challenge d) (str_bytes username) (str_bytes (sv_instance_id s)) in
  match incoming with
  | Some (BAuthRequest public_key signature_pem) :: _ =>
      match authenticate_user h (sv_mode s) username public_key signature_pem payload with
      | Err e => (pools, [Some (BAuthResult false "public key authentication failed" "" 0)], Err e)
      | Ok (fingerprint, backend) =>
          match governor_account (po_store pools) (po_governor pools) (dr_pool d) username with
          | Err e => (pools, [], Err e)
          | Ok (store, governor, account) =>
              match account_reserve store account claim_connection with
              | (store, Returned reservation) =>
                  let stream_epoch := choose_epoch negotiated (dr_epoch d) in
                  if writes 1%nat then
                    (mkPools store governor, [Some (BAuthResult true fingerprint "" stream_epoch)],
                     Ok (mkAuthenticated username fingerprint backend negotiated stream_epoch account reservation))
                  else (mkPools (default store (drop_reservations store reservation)) governor, [], Err "cannot write")
              | (store, Failed e) =>
                  (mkPools store governor, if writes 1%nat then [Some (BAuthResult false (quota_message e) "connection_quota_exceeded" 0)] else [],
                   Err "connection quota exceeded")
              | (store, Panicked) => (mkPools store governor, [], Err "panic")
              end
          end
      end
  | _ => (pools, [], Err "expected AuthRequest")
  end.
Definition authenticate_connection (s : ServerState) (h : Host) (datagrams : bool) (d : Draw) (pools : Pools) (writes : nat -> bool)
    (incoming : list WireMessage) : Pools * list WireMessage * result Authenticated :=
  match incoming with
  | Some (BClientHello hello) :: incoming =>
      if bool_decide (ch_username hello = ""%string) then (pools, [], Err "ClientHello has no target Unix username")
      else
        let support := server_protocol_support (sv_tcp_forwarding_enabled s) (sv_terminal_datagrams_enabled s && datagrams) in
        match negotiate_client_hello hello support with
        | Err e => (pools, [], Err e)
        | Ok negotiated =>
            if writes 0%nat then
              let '(pools, sent, outcome) := finish_authentication s h d pools writes (ch_username hello) negotiated incoming in
              (pools, server_hello s negotiated d :: sent, outcome)
            else (pools, [], Err "cannot write")
        end
  | _ => (pools, [], Err "expected ClientHello")
  end.

(** ** The client ([client.rs]) *)

(** An answer of the server, with its code, or another failure. *)
Inductive AuthError := ServerResponseError (code message : string) | AuthFailure (message : string).
Definition as_failure {A} (r : result A) : AuthError + A := match r with Ok a => inr a | Err e => inl (AuthFailure e) end.

(** [authenticate] on the messages that the server sends: what it sends and its result. *)
Definition client_authenticate (identity : Identity) (username : string) (support : ProtocolSupport) (incoming : list WireMessage)
    : list WireMessage * (AuthError + NegotiatedProtocol * N) :=
  let client_hello := client_hello username support in
  let first := Some (BClientHello client_hello) in
  match incoming with
  | Some (BServerHello hello) :: incoming =>
      match (negotiated ← validate_server_hello client_hello hello;
             let payload := authentication_payload (sh_challenge hello) (str_bytes username) (str_bytes (sh_server_instance hello)) in
             signed ← sign_challenge identity payload;
             Ok (negotiated, signed)) with
      | Err e => ([first], inl (AuthFailure e))
      | Ok (negotiated, (public_key, signature_pem)) =>
          ([first; Some (BAuthRequest public_key signature_pem)],
           match incoming with
           | Some (BAuthResult true _ _ stream_epoch) :: _ =>
               if bool_decide (negotiated_has negotiated CAPABILITY_STREAM_CHANNELS 1 = negb (stream_epoch =? 0))
               then inr (negotiated, stream_epoch)
               else inl (AuthFailure "server returned an invalid stream epoch for the negotiated capabilities")
           | Some (BAuthResult false message code _) :: _ =>
               inl (ServerResponseError (if bool_decide (code = ""%string) then "authentication_failed" else code) message)
           | _ => inl (AuthFailure "server did not return AuthResult")
           end)
      end
  | _ => ([first], inl (AuthFailure "server did not send ServerHello"))
  end.
End authentication.
