(* ===== verification/AuthenticationSpec.v ===== *)
(** * Authentication: who gets in, and what both sides agree on *)
From stdpp Require Import strings pretty.
From S2P Require Import Prelude Resources TerminalState Negotiation NegotiationSpec Files Messages StreamChannels Gateway Authentication.
Open Scope N_scope.

(** ** The host *)

(** A path that only its user or root can change. *)
Definition secure (h : Host) (uid : N) (kind : PathKind) (path : Path) : Prop :=
  exists m, ho_inspect h path = Present m /\ pm_kind m = kind /\ (pm_uid m = uid \/ pm_uid m = 0) /\ N.land (pm_mode m) 18 = 0.
Lemma check_secure_path_ok h path uid directory :
  check_secure_path h path uid directory = Ok tt -> secure h uid (if directory then PkDirectory else PkFile) path.
Proof.
  unfold check_secure_path, secure. destruct (ho_inspect h path) as [m| |]; [|done..]. intros Hc. do 5 ok_step Hc. clear Hc.
  apply negb_true_iff, negb_false_iff, N.eqb_eq in Hb3. exists m. split; [done|]. split_and!; [| |done].
  - destruct directory; cbn in Hb0, Hb1; [clear Hb1|clear Hb0]; by bool_prop.
  - apply negb_true_iff, andb_false_iff in Hb2 as [Hb2|Hb2]; bool_prop; [by left|by right].
Qed.

(** Where the keys of an account may be: below directories that only the user or root can
    change. *)
Definition key_location (h : Host) (account : SystemAccount) (override_directory : option Path) (file : Path) : Prop :=
  match override_directory with
  | Some directory => secure h (ac_uid account) PkDirectory directory /\ file = directory ++ [str_bytes (ac_username account)]
  | None =>
      let ssh_directory := ac_home account ++ [str_bytes ".ssh"] in
      secure h (ac_uid account) PkDirectory (ac_home account) /\ secure h (ac_uid account) PkDirectory ssh_directory /\
      (file = ssh_directory ++ [str_bytes "authorized_keys"] \/ file = ssh_directory ++ [str_bytes "authorized_keys2"])
  end.
Lemma existing_key_files_ok h uid candidates files : existing_key_files h uid candidates = Ok files ->
  forall f, f ∈ files -> f ∈ candidates /\ secure h uid PkFile f.
Proof.
  revert files. induction candidates as [|c candidates IH]; intros files Hf f Hin; cbn [existing_key_files] in Hf.
  - injection Hf as <-. by apply elem_of_nil in Hin.
  - destruct (ho_inspect h c) as [m| |]; [| |done].
    + do 2 ok_step Hf. injection Hf as <-. apply elem_of_cons in Hin as [->|Hin].
      * split; [by left|]. destruct a. by apply (check_secure_path_ok _ _ _ false).
      * destruct (IH _ eq_refl f Hin) as [Hc Hs]. split; [by right|done].
    + destruct (IH _ Hf f Hin) as [Hc Hs]. split; [by right|done].
Qed.
Lemma authorized_key_files_ok h account override_directory files : authorized_key_files h account override_directory = Ok files ->
  forall f, f ∈ files -> key_location h account override_directory f /\ secure h (ac_uid account) PkFile f.
Proof.
  unfold authorized_key_files, key_location. intros Hf f Hin. destruct override_directory as [directory|]; do 4 ok_step Hf.
  - do 2 ok_step Hr. destruct (existing_key_files_ok _ _ _ _ Hr0 f Hin) as [Hc Hs]. apply list_elem_of_singleton in Hc.
    repeat match goal with u : () |- _ => destruct u end. split; [split; [by apply (check_secure_path_ok _ _ _ true)|done]|done].
  - do 3 ok_step Hr. destruct (existing_key_files_ok _ _ _ _ Hr0 f Hin) as [Hc Hs].
    repeat match goal with u : () |- _ => destruct u end.
    split; [|done]. split; [by apply (check_secure_path_ok _ _ _ true)|]. split; [by apply (check_secure_path_ok _ _ _ true)|].
    apply elem_of_cons in Hc as [->|Hc]; [by left|]. apply list_elem_of_singleton in Hc as ->. by right.
Qed.

Lemma str_bytes_inj s s' : str_bytes s = str_bytes s' -> s = s'.
Proof.
  unfold str_bytes. intros He. rewrite <- (String.string_of_list_ascii_of_string s), <- (String.string_of_list_ascii_of_string s').
  f_equal. revert He. generalize (String.list_ascii_of_string s) (String.list_ascii_of_string s'). intros l. induction l as [|a l IH]; intros [|b l']; try done.
  cbn. intros [= Ha Hl]. f_equal; [|by apply IH]. by rewrite <- (Ascii.ascii_N_embedding a), <- (Ascii.ascii_N_embedding b), Ha.
Qed.

Section safety.
Context `{SshLib}.

Lemma find_entry_ok k entries : find_entry k entries = Ok true -> Ok (k, ""%string) ∈ entries.
Proof.
  induction entries as [|entry entries IH]; cbn [find_entry]; [done|]. intros Hf. ok_step Hf. destruct a as [key options]. subst entry.
  destruct (decide (key = k)) as [->|]; [|right; by apply IH]. ok_step Hf. apply bool_decide_eq_true in Hb as ->. by left.
Qed.
Lemma find_key_ok h k files : find_key h k files = Ok true ->
  exists f contents, f ∈ files /\ ho_read h f = Ok contents /\ Ok (k, ""%string) ∈ authorized_entries contents.
Proof.
  induction files as [|f files IH]; cbn [find_key]; [done|]. intros Hf. do 2 ok_step Hf. destruct a0.
  - exists f, a. split; [by left|]. split; [done|by apply find_entry_ok].
  - destruct (IH Hf) as (f' & contents & Hin & Hrest). exists f', contents. split; [by right|done].
Qed.
Lemma verify_ok h files public_key signature_pem m fingerprint : verify_authorized_keys h files public_key signature_pem m = Ok fingerprint ->
  exists k signature, find_key h k files = Ok true /\ fingerprint = key_fingerprint k /\ ssh_verify k SSHSIG_NAMESPACE m signature = true.
Proof.
  unfold verify_authorized_keys. intros Hv. do 5 ok_step Hv. ok_step Hv. by exists a, a0.
Qed.

(** That a key opens the account of a user: it is listed, without options, in a file of the
    account that nobody else can change. *)
Definition opens (h : Host) (mode : ModeState) (username : string) (backend : ConnectionBackend) (k : KeyData) : Prop :=
  exists file contents, ho_read h file = Ok contents /\ Ok (k, ""%string) ∈ authorized_entries contents /\
    match mode with
    | Rootless account authorized_keys => username = ac_username account /\ backend = LocalBackend /\ file = authorized_keys
    | Managed override_directory => exists account, lookup_account h username = Ok account /\ backend = WorkerBackend account /\
        (ho_effective_uid h = 0 \/ ho_effective_uid h = ac_uid account) /\
        key_location h account override_directory file /\ secure h (ac_uid account) PkFile file
    end.
Lemma authenticate_user_ok h mode username public_key signature_pem payload fingerprint backend :
  authenticate_user h mode username public_key signature_pem payload = Ok (fingerprint, backend) ->
  exists k signature, opens h mode username backend k /\ fingerprint = key_fingerprint k /\
    ssh_verify k SSHSIG_NAMESPACE payload signature = true.
Proof.
  unfold authenticate_user, opens. intros Ha. destruct mode as [account keys|override_directory].
  - do 3 ok_step Ha. apply verify_ok in Hr as (k & signature & Hk & -> & Hv). exists k, signature. split; [|done].
    apply find_key_ok in Hk as (f & contents & Hf & Hc & Hin). apply list_elem_of_singleton in Hf as ->. apply bool_decide_eq_true in Hb. eauto 10.
  - do 4 ok_step Ha. ok_step Ha. apply verify_ok in Hr1 as (k & signature & Hk & -> & Hv). exists k, signature. split; [|done].
    apply find_key_ok in Hk as (f & contents & Hf & Hc & Hin). exists f, contents. split; [done|]. split; [done|]. exists a. split_and!; [done|done| |by apply (authorized_key_files_ok _ _ _ _ Hr0)..].
    apply negb_true_iff, andb_false_iff in Hb as [Hb|Hb]; bool_prop; [by left|by right].
Qed.
End safety.

(** ** Who gets in *)

(** Nothing but the pool that was just created differs. *)
Definition same_pools (fresh : N) (before after : Pools) : Prop :=
  forall id, id <> fresh -> po_store after !! id = po_store before !! id.
Lemma governor_account_store s g fresh user s' g' account : governor_account s g fresh user = Ok (s', g', account) ->
  forall id, id <> fresh -> s' !! id = s !! id.
Proof.
  unfold governor_account. intros Ha id Hid. do 2 ok_step Ha; [by simplify_eq|]. ok_step Ha. injection Ha as <- <- <-. by rewrite lookup_insert_ne.
Qed.
Section gateway.
Context `{SshLib}.
(** What the holders of private keys have signed for this namespace, and that nobody else
    can. *)
Variable Signed : KeyData -> bytes -> Prop.
Hypothesis unforgeable : forall k m s, ssh_verify k SSHSIG_NAMESPACE m s = true -> Signed k m.

(** A holder who signs only the challenges of exchanges it takes part in. *)
Definition signs_only (k : KeyData) (took_part : bytes -> string -> string -> Prop) : Prop :=
  forall m, Signed k m -> exists c u i, took_part c u i /\ m = authentication_payload c (str_bytes u) (str_bytes i) /\
    llen c <= U32_MAX /\ llen (str_bytes u) <= U32_MAX /\ llen (str_bytes i) <= U32_MAX.

(** A client that was told that it is authenticated. *)
Definition told (sent : list WireMessage) : Prop := exists m c n, Some (BAuthResult true m c n) ∈ sent.
Definition let_in (s : ServerState) (h : Host) (d : Draw) (pools pools' : Pools) (a : Authenticated) : Prop :=
  exists k, opens h (sv_mode s) (au_username a) (au_backend a) k /\ au_fingerprint a = key_fingerprint k /\
    Signed k (authentication_payload (dr_challenge d) (str_bytes (au_username a)) (str_bytes (sv_instance_id s))) /\
    (forall took_part, signs_only k took_part -> llen (str_bytes (au_username a)) <= U32_MAX ->
       took_part (dr_challenge d) (au_username a) (sv_instance_id s)) /\
    exists store governor, governor_account (po_store pools) (po_governor pools) (dr_pool d) (au_username a) = Ok (store, governor, au_resources a) /\
      pools' = mkPools (account_reserve store (au_resources a) claim_connection).1 governor /\
      au_reservation a = (fun id => mkReservation id claim_connection) <$> au_resources a /\
      drop_reservations (po_store pools') (au_reservation a) = Some store.
Definition guarded (s : ServerState) (h : Host) (d : Draw) (pools : Pools) (r : Pools * list WireMessage * result Authenticated) : Prop :=
  (told r.1.2 -> is_ok r.2 = true) /\
  match r.2 with Ok a => let_in s h d pools r.1.1 a | Err _ => same_pools (dr_pool d) pools r.1.1 end.

Lemma told_nil : ~ told [].
Proof. intros (m & c & n & Hin). by apply elem_of_nil in Hin. Qed.
Lemma told_cons message sent : told (message :: sent) -> (exists m c n, message = Some (BAuthResult true m c n)) \/ told sent.
Proof. intros (m & c & n & [Hm|Hin]%elem_of_cons); [left; eauto|right; by exists m, c, n]. Qed.
Lemma guarded_refused s h d pools pools' sent e : ~ told sent -> same_pools (dr_pool d) pools pools' -> guarded s h d pools (pools', sent, Err e).
Proof. intros Ht Hs. by split. Qed.

Lemma finish_guarded s h d pools writes username negotiated incoming :
  governor_wf (po_store pools) (po_governor pools) -> po_store pools !! dr_pool d = None ->
  llen (dr_challenge d) = 32 -> llen (str_bytes (sv_instance_id s)) <= U32_MAX ->
  guarded s h d pools (finish_authentication s h d pools writes username negotiated incoming).
Proof.
  intros Hwf Hfresh Hc Hi. unfold finish_authentication. cbv zeta.
  destruct incoming as [|[[|public_key signature_pem| | | | | | | | |]|] incoming]; try (apply guarded_refused; [exact told_nil|done]).
  destruct (authenticate_user _ _ _ _ _ _) as [[fingerprint backend]|e] eqn:Ha.
  2:{ apply guarded_refused; [|done]. intros [(m & c & n & [=])|Ht]%told_cons. by apply told_nil in Ht. }
  destruct (governor_account _ _ _ _) as [[[store governor] account]|e] eqn:Hg; [|apply guarded_refused; [exact told_nil|done]].
  pose proof (governor_account_reserve _ _ _ _ _ _ _ claim_connection Hwf Hfresh Hg) as Hres.
  pose proof (governor_account_store _ _ _ _ _ _ _ Hg) as Hsame.
  destruct (account_reserve store account claim_connection) as [store' [reservation|q|]] eqn:Er; cbn in Hres; [|destruct Hres as [-> _]|done].
  - destruct Hres as (Hrs & _ & _ & Hdrop). destruct (writes 1%nat).
    + split; [done|]. cbn [fst snd]. apply authenticate_user_ok in Ha as (k & signature & Hopens & -> & Hv). exists k.
      cbn [au_username au_backend au_fingerprint au_resources au_reservation]. split; [done|]. split; [done|].
      pose proof (unforgeable _ _ _ Hv) as Hsigned. split; [done|]. split.
      * intros took_part Hk Hu. destruct (Hk _ Hsigned) as (c & u & i & Htp & Hm & ? & ? & ?).
        apply authentication_payload_injective in Hm as (-> & Hus & His); try done; [|rewrite Hc; done].
        by apply str_bytes_inj in Hus, His; subst.
      * exists store, governor. rewrite Er. cbn [fst po_store]. done.
    + apply guarded_refused; [exact told_nil|]. intros id Hid. cbn [po_store]. rewrite Hdrop. by apply Hsame.
  - apply guarded_refused; [|exact Hsame]. destruct (writes 1%nat); [|exact told_nil]. intros [(m & c & n & [=])|Ht]%told_cons. by apply told_nil in Ht.
Qed.

End gateway.

(** ** What both sides agree on *)

Section agreement.
Context `{SshLaws}.

(** The files that may open an account, and what then serves the connection. *)
Definition key_files (h : Host) (mode : ModeState) (username : string) : result (list Path * ConnectionBackend) :=
  match mode with
  | Rootless account authorized_keys =>
      ensure! bool_decide (username = ac_username account), "rootless daemon belongs to another Unix user";
      Ok ([authorized_keys], LocalBackend)
  | Managed authorized_keys_directory =>
      account ← lookup_account h username;
      ensure! negb (negb (ho_effective_uid h =? 0) && negb (ho_effective_uid h =? ac_uid account)),
        "non-root managed daemon cannot authenticate a different Unix UID";
      files ← authorized_key_files h account authorized_keys_directory;
      Ok (files, WorkerBackend account)
  end.
Definition access (h : Host) (mode : ModeState) (username : string) (k : KeyData) : option ConnectionBackend :=
  match key_files h mode username with
  | Ok (files, backend) => match find_key h k files with Ok true => Some backend | _ => None end
  | Err _ => None
  end.
(** An identity file that can be used. *)
Record usable (identity : Identity) (key : PrivateKey) : Prop := {
  us_private : exists mode, if_mode identity = Some mode /\ N.land mode 63 = 0;
  us_key : if_key identity = Ok key;
  us_plain : is_encrypted key = false;
  us_signs m : is_ok (ssh_sign key SSHSIG_NAMESPACE m) = true
}.

Lemma sign_usable identity key m : usable identity key ->
  exists signature, ssh_sign key SSHSIG_NAMESPACE m = Ok signature /\
    sign_challenge identity m = Ok (public_to_openssh (public_of key), sig_to_pem signature).
Proof.
  intros [(mode & Hm & Hl) Hk Hp Hs]. specialize (Hs m). destruct (ssh_sign key SSHSIG_NAMESPACE m) as [signature|] eqn:E; [|done].
  exists signature. split; [done|]. unfold sign_challenge, check_private_key_permissions. rewrite Hm. cbn [ok_or mbind result_bind]. rewrite Hl.
  cbn [N.eqb mbind result_bind]. rewrite Hk. cbn [mbind result_bind]. rewrite Hp. cbn [negb]. by rewrite E.
Qed.
Lemma authenticate_signed h mode username key m signature : ssh_sign key SSHSIG_NAMESPACE m = Ok signature ->
  match access h mode username (public_of key) with
  | Some backend => authenticate_user h mode username (public_to_openssh (public_of key)) (sig_to_pem signature) m =
      Ok (key_fingerprint (public_of key), backend)
  | None => exists e, authenticate_user h mode username (public_to_openssh (public_of key)) (sig_to_pem signature) m = Err e
  end.
Proof.
  intros Hs. pose proof (sign_verifies _ _ _ _ Hs) as Hv.
  assert (Hfiles : forall files, verify_authorized_keys h files (public_to_openssh (public_of key)) (sig_to_pem signature) m =
    authorized ← find_key h (public_of key) files; if authorized : bool then Ok (key_fingerprint (public_of key)) else Err "public key is not authorized").
  { intros files. unfold verify_authorized_keys. rewrite public_openssh, sig_pem. cbn [mbind result_bind]. by rewrite Hv. }
  unfold access, key_files, authenticate_user, verify_authorized_key. destruct mode as [account keys|override_directory].
  - case_bool_decide; [|eauto]. cbn [mbind result_bind]. rewrite Hfiles. destruct (find_key _ _ _) as [[]|]; cbn; eauto.
  - destruct (lookup_account h username) as [account|]; cbn [mbind result_bind]; [|eauto]. destruct (negb _); [|eauto].
    destruct (authorized_key_files _ _ _) as [files|]; cbn [mbind result_bind]; [|eauto]. rewrite Hfiles. destruct (find_key _ _ _) as [[]|]; cbn; eauto.
Qed.

(** The exchange, message by message: each side answers what the other has sent so far. *)
Definition exchange (identity : Identity) (username : string) (support : ProtocolSupport) (s : ServerState) (h : Host) (datagrams : bool) (d : Draw) (pools : Pools)
    : Pools * result Authenticated * (AuthError + NegotiatedProtocol * N) :=
  let client := client_authenticate identity username support in
  let server := authenticate_connection s h datagrams d pools (fun _ => true) in
  let hello := (client []).1 in
  let challenge := (server hello).1.2 in
  let '(pools', answer, outcome) := server (client challenge).1 in
  (pools', outcome, (client answer).2).

(** C16: client and gateway reach the same result.  With a usable identity, the exchange ends on both
    sides, and: when the key opens the account and the quotas allow it, both have the
    same protocol, the best that both support, and the same stream epoch, which is not
    zero exactly when stream channels were negotiated; when the quota is used up the client learns just that; and when the
    key does not open the account it learns only that the authentication failed. *)
Theorem exchange_agrees identity key username support s h datagrams d pools np :
  governor_wf (po_store pools) (po_governor pools) -> po_store pools !! dr_pool d = None ->
  limits_validate (gov_user_limits (po_governor pools)) = Ok tt ->
  usable identity key -> username <> ""%string -> dr_epoch d <> 0 ->
  negotiate_client_hello (client_hello username support)
    (server_protocol_support (sv_tcp_forwarding_enabled s) (sv_terminal_datagrams_enabled s && datagrams)) = Ok np ->
  let '(pools', outcome, result) := exchange identity username support s h datagrams d pools in
  match access h (sv_mode s) username (public_of key) with
  | Some backend =>
      (exists a, outcome = Ok a /\ result = inr (np, au_stream_epoch a) /\ au_negotiated a = np /\ au_username a = username /\
         au_backend a = backend /\ au_fingerprint a = key_fingerprint (public_of key) /\
         (au_stream_epoch a <> 0 <-> negotiated_has np CAPABILITY_STREAM_CHANNELS 1 = true)) \/
      (exists q id p, is_ok outcome = false /\ result = inl (ServerResponseError "connection_quota_exceeded" (quota_message q)) /\
         po_store pools' !! id = Some p /\ pool_reserve p claim_connection = Failed q)
  | None => is_ok outcome = false /\ pools' = pools /\
      result = inl (ServerResponseError "authentication_failed" "public key authentication failed")
  end.
Proof.
  intros Hwf Hfresh Hlimits Hid Huser Hepoch Hneg.
  set (payload := authentication_payload (dr_challenge d) (str_bytes username) (str_bytes (sv_instance_id s))).
  destruct (sign_usable identity key payload Hid) as (signature & Hsig & Hsigned).
  pose proof (proj1 (negotiation_agreement _ _ _ (dr_challenge d) (sv_instance_id s) Hneg)) as Hval.
  assert (Hclient : forall rest, client_authenticate identity username support (server_hello s np d :: rest) =
    ([Some (BClientHello (client_hello username support)); Some (BAuthRequest (public_to_openssh (public_of key)) (sig_to_pem signature))],
     match rest with
     | Some (BAuthResult true _ _ stream_epoch) :: _ =>
         if bool_decide (negotiated_has np CAPABILITY_STREAM_CHANNELS 1 = negb (stream_epoch =? 0)) then inr (np, stream_epoch)
         else inl (AuthFailure "server returned an invalid stream epoch for the negotiated capabilities")
     | Some (BAuthResult false message code _) :: _ =>
         inl (ServerResponseError (if bool_decide (code = ""%string) then "authentication_failed" else code) message)
     | _ => inl (AuthFailure "server did not return AuthResult")
     end)).
  { intros rest. unfold client_authenticate, server_hello. rewrite Hval. cbn [mbind result_bind sh_challenge sh_server_instance].
    fold payload. by rewrite Hsigned. }
  assert (Hserver : forall rest, authenticate_connection s h datagrams d pools (fun _ => true) (Some (BClientHello (client_hello username support)) :: rest) =
    let '(pools', sent, outcome) := finish_authentication s h d pools (fun _ => true) username np rest in
    (pools', server_hello s np d :: sent, outcome)).
  { intros rest. unfold authenticate_connection. rewrite Hneg. change (ch_username (client_hello username support)) with username. by rewrite bool_decide_eq_false_2. }
  unfold exchange. change (client_authenticate identity username support []).1 with [Some (BClientHello (client_hello username support))].
  rewrite Hserver. cbn [finish_authentication fst snd]. rewrite Hclient. cbn [fst]. rewrite Hserver. unfold finish_authentication. fold payload. cbv zeta.
  pose proof (authenticate_signed h (sv_mode s) username key payload signature Hsig) as Hauth.
  destruct (access h (sv_mode s) username (public_of key)) as [backend|].
  2:{ destruct Hauth as [e ->]. by rewrite Hclient. }
  rewrite Hauth.
  assert (Hacc : exists store governor account, governor_account (po_store pools) (po_governor pools) (dr_pool d) username = Ok (store, governor, account)).
  { unfold governor_account, pool_new. rewrite bool_decide_eq_false_2 by done. cbn [negb]. destruct (_ !! username); [eauto|]. rewrite Hlimits. cbn. eauto. }
  destruct Hacc as (store & governor & account & Hacc). rewrite Hacc.
  pose proof (governor_account_reserve _ _ _ _ _ _ _ claim_connection Hwf Hfresh Hacc) as Hres.
  destruct (account_reserve store account claim_connection) as [store' [reservation|q|]] eqn:Er; cbn in Hres; [| |done]; rewrite Hclient; cbn [snd].
  - left. eexists. split; [reflexivity|]. cbn [au_stream_epoch au_negotiated au_username au_backend au_fingerprint].
    assert (He : negotiated_has np CAPABILITY_STREAM_CHANNELS 1 = negb (choose_epoch np (dr_epoch d) =? 0)).
    { unfold choose_epoch. destruct (negotiated_has _ _ _); [|done]. by rewrite (proj2 (N.eqb_neq _ _)). }
    rewrite bool_decide_eq_true_2 by exact He. split_and!; try done. rewrite He, negb_true_iff, N.eqb_neq. done.
  - right. destruct Hres as (-> & id & p & Hin & Hp & Hq). exists q, id, p. done.
Qed.
End agreement.

(** ** Witnesses *)

(** Keys that are their own names, and a signature that names its key and message. *)
Definition bytes_string (b : bytes) : string := String.string_of_list_ascii (Ascii.ascii_of_N <$> b).
Definition ex_signature (k : string) (m : bytes) : string := k +:+ ":" +:+ bytes_string m.
#[local] Instance ex_ssh_lib : SshLib := {|
  KeyData := string; KeyData_eq_dec := String.string_dec; PrivateKey := string; SshSig := string;
  public_from_openssh := Ok; public_to_openssh := id; sig_from_pem := Ok; sig_to_pem := id;
  authorized_entries contents := [Ok (bytes_string contents, ""%string)];
  ssh_verify k _ m s := bool_decide (s = ex_signature k m); key_fingerprint k := "SHA256:" +:+ k;
  public_of := id; is_encrypted _ := false; ssh_sign k _ m := Ok (ex_signature k m)
|}.
Lemma ex_ssh_laws : @SshLaws ex_ssh_lib.
Proof. split; [done|done|]. intros k namespace m s [= <-]. by apply bool_decide_eq_true_2. Qed.

Definition ex_home : Path := [str_bytes "alice"].
Definition ex_host : Host := {|
  ho_inspect path := if bool_decide (path = ex_home) || bool_decide (path = ex_home ++ [str_bytes ".ssh"]) then Present (mkPathMetadata PkDirectory 1000 448)
                     else if bool_decide (path = ex_home ++ [str_bytes ".ssh"; str_bytes "authorized_keys"]) then Present (mkPathMetadata PkFile 1000 384)
                     else NotFound;
  ho_read _ := Ok (str_bytes "key-of-alice");
  ho_user name := Ok (if bool_decide (name = "alice"%string) then Some (mkUnixUser "alice" 1000 100 ex_home ex_home) else None);
  ho_groups _ _ := Ok []; ho_effective_uid := 0
|}.
Definition ex_server : ServerState := mkServer (Managed None) "gateway" true true (mkGovernor 0 {["alice"%string := 1]} user_defaults).
Definition ex_draw : Draw := mkDraw (replicate 32 7) 99 5.
Definition ex_pools : Pools := mkPools ex_store (sv_governor ex_server).
Definition ex_client_identity : Identity := mkIdentityFile (Some 384) (Ok "key-of-alice"%string).

Lemma ex_governor_wf : governor_wf (po_store ex_pools) (po_governor ex_pools).
Proof.
  split; [by eexists|]. cbn. split.
  - intros u id [<- <-]%lookup_singleton_Some. split; [by eexists|done].
  - intros u v id [<- <-]%lookup_singleton_Some [<- _]%lookup_singleton_Some. done.
Qed.
Lemma exchange_agrees_witness :
  exists np a, negotiate_client_hello (client_hello "alice" support_runtime) (server_protocol_support true true) = Ok np /\
    (exchange ex_client_identity "alice" support_runtime ex_server ex_host true ex_draw ex_pools).1.2 = Ok a /\
    (exchange ex_client_identity "alice" support_runtime ex_server ex_host true ex_draw ex_pools).2 = inr (np, au_stream_epoch a).
Proof.
  destruct (negotiate_client_hello (client_hello "alice" support_runtime) (server_protocol_support true true)) as [np|e] eqn:Hneg.
  2:{ vm_compute in Hneg. discriminate. }
  exists np. pose proof (@exchange_agrees ex_ssh_lib ex_ssh_laws ex_client_identity "key-of-alice"%string "alice" support_runtime ex_server ex_host true ex_draw ex_pools np
    ex_governor_wf ltac:(vm_compute; reflexivity) ltac:(vm_compute; reflexivity)) as Hex.
  assert (Hus : usable ex_client_identity "key-of-alice"%string).
  { split; [exists 384; split; reflexivity|reflexivity|reflexivity|intros m; reflexivity]. }
  specialize (Hex Hus ltac:(discriminate) ltac:(discriminate) Hneg).
  assert (Hok : is_ok (exchange ex_client_identity "alice" support_runtime ex_server ex_host true ex_draw ex_pools).1.2 = true) by (vm_compute; reflexivity).
  destruct (exchange _ _ _ _ _ _ _ _) as [[pools' outcome] result]. cbn [fst snd] in *.
  destruct (access _ _ _ _).
  - destruct Hex as [(a & -> & -> & _)|(q & id & p & Hbad & _)]; [exists a; split; [reflexivity|split; reflexivity]|]. rewrite Hok in Hbad. discriminate.
  - destruct Hex as [Hbad _]. rewrite Hok in Hbad. discriminate.
Defined.
