(* ===== verification/Requests.v ===== *)
(** * Requests of a connection ([server.rs], [client.rs])

    A worker serves each request on a stream of its own: it charges the stream to the
    user, dispatches the command to the session manager or to the file service, and writes one response
    with the identifier of the request.  The client unwraps the response.  Both managers
    charge the same account: a [WorkerState] holds its pools once. *)
From S2P Require Import Prelude Text Resources TerminalState Payload Negotiation Files Messages StreamChannels Sessions FileReads GitStatus FileWatch.
Open Scope N_scope.

(** ** Responses ([protocol.rs]) *)

(** [response::Result]; the responses of an attachment and of a forwarded connection are those of their
    components. *)
Inductive Answer :=
| RError (code message : string)
| RList (terminals : list TerminalInfo)
| RSpawn (terminal : option TerminalInfo)
| RAck (message : string)
| RFileCapabilities (c : FileCapabilitiesResponse)
| RFileStat (metadata : option FileMetadata)
| RFileList (l : FileListResponse)
| RGitStatus (s : GitStatusResponse)
| RFileChanges (c : FileChangesResponse)
| RUploadStatus (s : UploadStatusResponse)
| RBeginDownload (d : BeginDownloadResponse)
| RFileChunk (c : FileChunkResponse)
| RWorkspace (workspace : option WorkspaceInfo)
| RWorkspaceList (workspaces : list WorkspaceInfo)
| RTerminalList (terminals : list TerminalInfo)
| RAttachmentList (attachments : list AttachmentInfo).
Record Response := mkResponse { rs_request_id : string; rs_result : Answer }.

(** ** The worker *)

Record WorkerState := mkWorkerState {
  wk_manager : SessionManager; wk_root : Path; wk_fs : FileSystem; wk_attributes : Path -> Attributes; wk_uploads : gmap string Upload }.
Definition wk_disk (w : WorkerState) : Disk := mkDisk (wk_fs w) (wk_attributes w).
Definition with_manager (m : SessionManager) (w : WorkerState) : WorkerState :=
  mkWorkerState m (wk_root w) (wk_fs w) (wk_attributes w) (wk_uploads w).
(** The file service works on the account of the manager. *)
Definition file_world (w : WorkerState) : World :=
  mkWorld (wk_root w) (sm_account (wk_manager w)) (wk_fs w) (wk_uploads w) (sm_pools (wk_manager w)).
Definition with_file_world (v : World) (w : WorkerState) : WorkerState :=
  mkWorkerState (set_manager_pools (w_pools v) (wk_manager w)) (wk_root w) (w_fs v) (wk_attributes w) (w_uploads v).

(** What the operating system, Git and the kernel answer while a request is served. *)
Record Surroundings := mkSurroundings {
  su_io : Io; su_seen : bytes -> bytes; su_spawn : SpawnHost; su_kill : result (); su_git : Path -> list string -> GitRun;
  su_working_directory : Path }.

(** How a request goes on: with one response; with responses of a watch; in the handler of an attachment or of
    a forwarded connection; or the stream breaks without a response. *)
Inductive Served :=
| Replied (a : Answer)
| Watching (s : FileChangeSubscription)
| Attaching (terminal : TerminalInfo) (r : AttachRequest)
| Forwarding (r : OpenTcpForwardRequest)
| Broken (e : string).

(** [send_file_result] and [send_file_ack]; a panic of the operation breaks the stream. *)
Definition file_served {A} (o : outcome FileServiceError A) (wrap : A -> Answer) : Served :=
  match o with
  | Returned a => Replied (wrap a)
  | Failed e => Replied (RError (fe_code e) (fe_message e))
  | Panicked => Broken "panic"
  end.
(** [send_error] *)
Definition error_served (code e : string) : Served := Replied (RError code e).
Definition is_quota (e : string) : bool := bool_decide (e = "resource quota exceeded"%string).
(** [send_domain_error] *)
Definition domain_error_served (default_code e : string) : Served := error_served (if is_quota e then "quota" else default_code) e.

Section requests.
Context `{PayloadLib} `{SessionLib} `{AdmissionLib}.
Variable canonicalize : FileSystem -> Path -> FileServiceError + Path.

(** An operation of the file service that changes its world. *)
Definition file_change {A} (op : FileM A) (wrap : A -> Answer) (w : WorkerState) : WorkerState * Served :=
  let '(v, o) := op (file_world w) in (with_file_world v w, file_served o wrap).

(** [Terminal::rename] of a terminal of the registry. *)
Definition rename_entry (name : text) (t : TerminalEntry) : TerminalEntry :=
  let i := te_info t in
  let cleaned := trim name in
  mkEntry (mkTerminalInfo (ti_id i) (ti_name i) (ti_argv i) (ti_cwd i) (ti_status i) (ti_exit_code i) (ti_rows i) (ti_cols i) (ti_display_id i)
             (if is_empty cleaned then None else Some cleaned) (ti_interactive i) (ti_workspace_id i) (ti_lifecycle i)) (te_resources t).
Definition rename_terminal (id : string) (name : text) (m : SessionManager) : SessionManager :=
  set_terminals (alter (rename_entry name) id (sm_terminals m)) m.
(** [SessionManager::list_terminals] *)
Definition list_terminals (workspace_id : string) (include_exited : bool) (m : SessionManager) : result (list TerminalInfo) :=
  _ ← workspace workspace_id m; Ok (list_in_workspace workspace_id include_exited m).

(** The branches of [handle_worker_message]. *)
Definition serve_file (u : Surroundings) (zstd : bool) (command : Command) (w : WorkerState) : WorkerState * Served :=
  let io := su_io u in
  let d := wk_disk w in
  match command with
  | FileCapabilities => (w, Replied (RFileCapabilities capabilities))
  | FileStat r => (w, file_served (stat canonicalize io (wk_root w) d r) (fun m => RFileStat (Some m)))
  | FileList r => (w, file_served (list_directory canonicalize io (wk_root w) d r) RFileList)
  | GitStatus r => (w, file_served (git_status canonicalize (su_git u) (su_working_directory u) (wk_fs w) (wk_root w) (gs_path r)) RGitStatus)
  | WatchFiles r =>
      (w, match watch_files canonicalize io (wk_root w) (wk_fs w) (wf_paths r) (wf_recursive r) with
          | Returned s => Watching s
          | o => file_served o (fun _ => RFileChanges (mkFileChanges [] false))
          end)
  | BeginUpload r => file_change (begin_upload parse_uuid canonicalize io r) RUploadStatus w
  | WriteFileChunk r =>
      file_change (match decode_upload r zstd with Ok chunk => write_chunk parse_uuid io chunk | Err e => fail "invalid" e end) RUploadStatus w
  | QueryUpload r => file_change (query_upload parse_uuid (qu_transfer_id r)) RUploadStatus w
  | CommitUpload r => file_change (commit_upload parse_uuid io (cu_transfer_id r)) RUploadStatus w
  | AbortUpload r => file_change (abort_upload parse_uuid io (au_transfer_id r)) RUploadStatus w
  | BeginDownload r => (w, file_served (begin_download canonicalize (su_seen u) io (wk_root w) d r) RBeginDownload)
  | ReadFileChunk r =>
      (w, file_served (chunk ← read_chunk canonicalize (su_seen u) io (wk_root w) d r;
                       match encode_download chunk zstd with Ok chunk => Returned chunk | Err e => refuse "invalid" e end) RFileChunk)
  | MakeDirectory r => file_change (make_directory canonicalize io (md_path r)) (fun _ => RAck "directory created") w
  | RemoveFile r => file_change (remove canonicalize io (rm_path r)) (fun _ => RAck "file removed") w
  | RenameFile r => file_change (rename canonicalize io (rn_source r) (rn_destination r) (rn_overwrite r)) (fun _ => RAck "file renamed") w
  | _ => (w, Broken "not a file request")
  end.
(** The requests of [session.objects]. *)
Definition serve_objects (session_objects : bool) (command : Command) (w : WorkerState) : WorkerState * Served :=
  let m := wk_manager w in
  let unsupported := error_served "unsupported" "session.objects capability was not negotiated" in
  match command with
  | ListWorkspaces =>
      (w, if session_objects then match workspace (sc_default_workspace_id (sm_catalog m)) m with
                                  | Ok workspace => Replied (RWorkspaceList [workspace])
                                  | Err e => Broken e
                                  end
          else unsupported)
  | CreateWorkspace _ | RenameWorkspace _ | DeleteWorkspace _ =>
      (w, if session_objects then error_served "unsupported" "multiple Workspaces are not enabled; use the default Workspace" else unsupported)
  | ListTerminals r =>
      (w, if session_objects then match list_terminals (lt_workspace_id r) (lt_include_exited r) m with
                                  | Ok terminals => Replied (RTerminalList terminals)
                                  | Err e => error_served "workspace" e
                                  end
          else unsupported)
  | ListAttachments r =>
      (w, if session_objects then match list_attachments (la_workspace_id r) (la_terminal_id r) m with
                                  | Ok attachments => Replied (RAttachmentList attachments)
                                  | Err e => error_served "workspace" e
                                  end
          else unsupported)
  | _ => (w, Broken "not a session request")
  end.
Definition serve_session (u : Surroundings) (session_objects : bool) (command : Command) (w : WorkerState) : WorkerState * Served :=
  let m := wk_manager w in
  match command with
  | List => (w, Replied (RList (list_running m)))
  | Spawn r =>
      let '(m, o) := spawn r session_objects (su_spawn u) m in
      (with_manager m w, match o with Ok t => Replied (RSpawn (Some t)) | Err e => domain_error_served "spawn" e end)
  | Close r =>
      (w, match get_terminal (cl_workspace_id r) (cl_terminal_id r) session_objects m with
          | Ok (Some _) => match su_kill u with
                           | Ok _ => Replied (RAck "terminal process signalled")
                           | Err e => error_served "terminal" e
                           end
          | Ok None => error_served "not_found" "terminal is not active"
          | Err e => error_served "workspace" e
          end)
  | RenameTerminal r =>
      match get_terminal (rt_workspace_id r) (rt_terminal_id r) session_objects m with
      | Ok (Some t) => (with_manager (rename_terminal (ti_id t) (lit (rt_name r)) m) w, Replied (RAck "terminal renamed"))
      | Ok None => (w, error_served "not_found" "terminal is not active")
      | Err e => (w, error_served "workspace" e)
      end
  | Attach r =>
      (w, match get_terminal (at_workspace_id r) (at_terminal_id r) session_objects m with
          | Ok (Some t) => Attaching t r
          | Ok None => error_served "not_found" "terminal is not active in this daemon"
          | Err e => error_served "workspace" e
          end)
  | command => serve_objects session_objects command w
  end.
Definition file_command (command : Command) : bool :=
  match command with
  | FileCapabilities | FileStat _ | FileList _ | GitStatus _ | WatchFiles _ | BeginUpload _ | WriteFileChunk _ | QueryUpload _ | CommitUpload _
  | AbortUpload _ | BeginDownload _ | ReadFileChunk _ | MakeDirectory _ | RemoveFile _ | RenameFile _ => true
  | _ => false
  end.
Definition serve_command (u : Surroundings) (negotiated : NegotiatedProtocol) (command : option Command) (w : WorkerState) : WorkerState * Served :=
  match command with
  | None => (w, error_served "protocol" "request has no command")
  | Some (OpenTcpForward r) => (w, Forwarding r)
  | Some command =>
      if file_command command then serve_file u (negotiated_has negotiated CAPABILITY_PAYLOAD_ZSTD 1) command w
      else serve_session u (negotiated_has negotiated CAPABILITY_SESSION_OBJECTS 1) command w
  end.

(** What is left of the request: nothing, an error of the stream, or the part that goes on, with
    the reservations it holds. *)
Inductive Rest := Finished | Aborting (e : string) | Continues (s : Served) (held : list PoolReservation).

(** [handle_worker_message]: the reservations, the command and the responses; the
    reservations are dropped when the handler returns. *)
Definition finish_served (request_id : string) (held : list PoolReservation) (r : WorkerState * Served) : WorkerState * list Response * Rest :=
  let '(w, served) := r in
  let drop_held rest := match release held (wk_manager w) with
                        | Ok m => (with_manager m w, rest)
                        | Err e => (w, Aborting e)
                        end in
  match served with
  | Replied a => let '(w, rest) := drop_held Finished in (w, [mkResponse request_id a], rest)
  | Broken e => let '(w, rest) := drop_held (Aborting e) in (w, [], rest)
  | continued => (w, [], Continues continued held)
  end.
Definition reserve_handler (file_request : bool) (m : SessionManager) : SessionManager * result (list PoolReservation) :=
  match reserve_session claim_stream m with
  | (m, Err e) => (m, Err e)
  | (m, Ok stream_resources) =>
      if file_request then
        match reserve_session claim_file_handle m with
        | (m, Err e) => fail_released stream_resources e m
        | (m, Ok file_resources) => (m, Ok (file_resources ++ stream_resources))
        end
      else (m, Ok stream_resources)
  end.
Definition handle_worker_message (u : Surroundings) (first_message : WireMessage) (context : Context) (w : WorkerState)
    : WorkerState * list Response * Rest :=
  match accept_request first_message context with
  | Err e => (w, [], Aborting e)
  | Ok (request, file_request) =>
      match reserve_handler file_request (wk_manager w) with
      | (m, Err e) =>
          if is_quota e then (with_manager m w, [mkResponse (rq_request_id request) (RError "quota" e)], Finished)
          else (with_manager m w, [], Aborting e)
      | (m, Ok held) =>
          finish_served (rq_request_id request) held (serve_command u (cx_negotiated context) (rq_command request) (with_manager m w))
      end
  end.

(** ** The client *)

(** The calls of [AstraClient] that wait for one response, with what they return. *)
Inductive Call : Type -> Type :=
| CallList : Call (list TerminalInfo)
| CallSpawn (r : SpawnRequest) : Call TerminalInfo
| CallListWorkspaces : Call (list WorkspaceInfo)
| CallCreateWorkspace (name : string) : Call WorkspaceInfo
| CallListTerminals (workspace_id : string) (include_exited : bool) : Call (list TerminalInfo)
| CallClose (workspace_id terminal_id : string) : Call string
| CallFileCapabilities : Call FileCapabilitiesResponse
| CallFileStat (path : bytes) (follow_symlinks : bool) : Call (option FileMetadata)
| CallFileList (path cursor : bytes) (limit : N) : Call FileListResponse
| CallBeginUpload (r : BeginUploadRequest) : Call UploadStatusResponse
| CallQueryUpload (transfer_id : string) : Call UploadStatusResponse
| CallCommitUpload (transfer_id : string) : Call UploadStatusResponse
| CallAbortUpload (transfer_id : string) : Call UploadStatusResponse
| CallBeginDownload (path : bytes) (want_sha256 : bool) : Call BeginDownloadResponse
| CallMakeDirectory (path : bytes) : Call string
| CallRemoveFile (path : bytes) : Call string
| CallRenameFile (source destination : bytes) (overwrite : bool) : Call string.

Definition call_command {A} (c : Call A) : Command :=
  match c with
  | CallList => List
  | CallSpawn r => Spawn r
  | CallListWorkspaces => ListWorkspaces
  | CallCreateWorkspace name => CreateWorkspace (mkCreateWorkspace name)
  | CallListTerminals workspace_id include_exited => ListTerminals (mkListTerminals workspace_id include_exited)
  | CallClose workspace_id terminal_id => Close (mkClose terminal_id workspace_id)
  | CallFileCapabilities => FileCapabilities
  | CallFileStat path follow_symlinks => FileStat (mkFileStat path follow_symlinks)
  | CallFileList path cursor limit => FileList (mkFileList path cursor limit)
  | CallBeginUpload r => BeginUpload r
  | CallQueryUpload id => QueryUpload (mkQueryUpload id)
  | CallCommitUpload id => CommitUpload (mkCommitUpload id)
  | CallAbortUpload id => AbortUpload (mkAbortUpload id)
  | CallBeginDownload path want_sha256 => BeginDownload (mkBeginDownload path want_sha256)
  | CallMakeDirectory path => MakeDirectory (mkMakeDirectory path)
  | CallRemoveFile path => RemoveFile (mkRemoveFile path)
  | CallRenameFile source destination overwrite => RenameFile (mkRenameFile source destination overwrite)
  end.
(** The variant of the response that a call expects; an absent terminal or workspace in it is an error. *)
Definition call_pick {A} (c : Call A) (a : Answer) : option (result A) :=
  match c in Call A return option (result A) with
  | CallList => match a with RList l => Some (Ok l) | _ => None end
  | CallSpawn _ => match a with RSpawn t => Some (ok_or t "server returned an empty spawn response") | _ => None end
  | CallListWorkspaces => match a with RWorkspaceList l => Some (Ok l) | _ => None end
  | CallCreateWorkspace _ => match a with RWorkspace w => Some (ok_or w "server returned an empty workspace response") | _ => None end
  | CallListTerminals _ _ => match a with RTerminalList l => Some (Ok l) | _ => None end
  | CallFileCapabilities => match a with RFileCapabilities c => Some (Ok c) | _ => None end
  | CallFileStat _ _ => match a with RFileStat m => Some (Ok m) | _ => None end
  | CallFileList _ _ _ => match a with RFileList l => Some (Ok l) | _ => None end
  | CallBeginUpload _ | CallQueryUpload _ | CallCommitUpload _ | CallAbortUpload _ => match a with RUploadStatus s => Some (Ok s) | _ => None end
  | CallBeginDownload _ _ => match a with RBeginDownload d => Some (Ok d) | _ => None end
  | CallClose _ _ | CallMakeDirectory _ | CallRemoveFile _ | CallRenameFile _ _ _ => match a with RAck message => Some (Ok message) | _ => None end
  end.

(** An answer of the server, or another failure. *)
Inductive CallError := CallRefused (code message : string) | CallFailed (message : string).
(** [require_response] and the match on the result. *)
Definition call_result {A} (c : Call A) (request_id : string) (responses : list Response) : CallError + A :=
  match responses with
  | [] => inl (CallFailed "server did not return a Response")
  | r :: _ =>
      if bool_decide (rs_request_id r = request_id) then
        match rs_result r with
        | RError code message => inl (CallRefused code message)
        | a => match call_pick c a with
               | Some (Ok v) => inr v
               | Some (Err e) => inl (CallFailed e)
               | None => inl (CallFailed "server returned the wrong response")
               end
        end
      else inl (CallFailed "response request ID mismatch")
  end.
End requests.
