(* ===== verification/RequestsSpec.v ===== *)
(** * Requests of a connection: a call is a call

    [reference] applies the operation of the component that a call of the client stands for.  The
    theorem composes everything between the two: the stream that the client opens, the admission of the gateway, the
    checks and reservations of the worker, the dispatch, the response and its unwrapping. *)
From S2P Require Import Prelude Resources TerminalState Payload Negotiation Files Messages StreamChannels StreamChannelsSpec Sessions SessionsSpec SessionsInv FileReads GitStatus Requests.
Open Scope N_scope.

(** ** What a call means *)

Section reference.
Context `{PayloadLib} `{SessionLib}.
Variable canonicalize : FileSystem -> Path -> FileServiceError + Path.

Definition NO_RESPONSE : string := "server did not return a Response".
Definition of_file {A} (o : outcome FileServiceError A) : CallError + A :=
  match o with
  | Returned a => inr a
  | Failed e => inl (CallRefused (fe_code e) (fe_message e))
  | Panicked => inl (CallFailed NO_RESPONSE)
  end.
Definition of_session {A} (code : string) (r : result A) : CallError + A :=
  match r with Ok a => inr a | Err e => inl (CallRefused code e) end.
Definition of_change {A} (op : FileM A) (w : WorkerState) : WorkerState * (CallError + A) :=
  let '(v, o) := op (file_world w) in (with_file_world v w, of_file o).
Definition acked {A} (message : string) (r : WorkerState * (CallError + A)) : WorkerState * (CallError + string) :=
  (r.1, match r.2 with inl e => inl e | inr _ => inr message end).
(** Calls on sessions need the capability. *)
Definition gated {A} (session_objects : bool) (r : CallError + A) : CallError + A :=
  if session_objects then r else inl (CallRefused "unsupported" "session.objects capability was not negotiated").

Definition reference {A} (u : Surroundings) (session_objects : bool) (c : Call A) (w : WorkerState) : WorkerState * (CallError + A) :=
  let io := su_io u in
  let m := wk_manager w in
  match c in Call A return WorkerState * (CallError + A) with
  | CallList => (w, inr (list_running m))
  | CallSpawn r => let '(m, o) := spawn r session_objects (su_spawn u) m in
                   (with_manager m w, match o with Ok t => inr t | Err e => inl (CallRefused (if is_quota e then "quota" else "spawn") e) end)
  | CallListWorkspaces => (w, gated session_objects (match workspace (sc_default_workspace_id (sm_catalog m)) m with
                                                     | Ok workspace => inr [workspace]
                                                     | Err _ => inl (CallFailed NO_RESPONSE)
                                                     end))
  | CallCreateWorkspace _ =>
      (w, gated session_objects (inl (CallRefused "unsupported" "multiple Workspaces are not enabled; use the default Workspace")))
  | CallListTerminals id exited => (w, gated session_objects (of_session "workspace" (list_terminals id exited m)))
  | CallClose workspace_id terminal_id =>
      (w, match get_terminal workspace_id terminal_id session_objects m with
          | Ok (Some _) => of_session "terminal" (_ ← su_kill u; Ok "terminal process signalled"%string)
          | Ok None => inl (CallRefused "not_found" "terminal is not active")
          | Err e => inl (CallRefused "workspace" e)
          end)
  | CallFileCapabilities => (w, inr capabilities)
  | CallFileStat path follow => (w, of_file (m ← stat canonicalize io (wk_root w) (wk_disk w) (mkFileStat path follow); Returned (Some m)))
  | CallFileList path cursor limit => (w, of_file (list_directory canonicalize io (wk_root w) (wk_disk w) (mkFileList path cursor limit)))
  | CallBeginUpload r => of_change (begin_upload parse_uuid canonicalize io r) w
  | CallQueryUpload id => of_change (query_upload parse_uuid id) w
  | CallCommitUpload id => of_change (commit_upload parse_uuid io id) w
  | CallAbortUpload id => of_change (abort_upload parse_uuid io id) w
  | CallBeginDownload path want => (w, of_file (begin_download canonicalize (su_seen u) io (wk_root w) (wk_disk w) (mkBeginDownload path want)))
  | CallMakeDirectory path => acked "directory created" (of_change (make_directory canonicalize io path) w)
  | CallRemoveFile path => acked "file removed" (of_change (remove canonicalize io path) w)
  | CallRenameFile source destination overwrite => acked "file renamed" (of_change (rename canonicalize io source destination overwrite) w)
  end.

(** The calls that only look. *)
Definition observes {A} (c : Call A) : bool :=
  match c with
  | CallList | CallListWorkspaces | CallCreateWorkspace _ | CallListTerminals _ _ | CallClose _ _ | CallFileCapabilities | CallFileStat _ _ | CallFileList _ _ _
  | CallBeginDownload _ _ => true
  | _ => false
  end.
(** The state when the handler has dropped its reservations. *)
Definition settle (held : list PoolReservation) (w : WorkerState) : WorkerState :=
  match release held (wk_manager w) with Ok m => with_manager m w | Err _ => w end.
End reference.

Section spec.
Context `{PayloadLib} `{SessionLib} `{AdmissionLib}.
Variable canonicalize : FileSystem -> Path -> FileServiceError + Path.

(** ** The dispatch *)

Lemma with_manager_id w : with_manager (wk_manager w) w = w.
Proof. by destruct w. Qed.
Lemma with_manager_twice m m' w : with_manager m (with_manager m' w) = with_manager m w.
Proof. done. Qed.

(** The response of the branch, read by the client. *)
Definition read_served {A} (c : Call A) (id : string) (s : Served) : CallError + A :=
  call_result c id (match s with Replied a => [mkResponse id a] | _ => [] end).
Definition served_answer (s : Served) : bool := match s with Replied _ | Broken _ => true | _ => false end.

Lemma read_replied {A} (c : Call A) id a :
  read_served c id (Replied a) =
    match a with
    | RError code message => inl (CallRefused code message)
    | a => match call_pick c a with
           | Some (Ok v) => inr v
           | Some (Err e) => inl (CallFailed e)
           | None => inl (CallFailed "server returned the wrong response")
           end
    end.
Proof. unfold read_served, call_result. cbn [rs_request_id rs_result]. rewrite bool_decide_eq_true_2 by done. by destruct a. Qed.
Lemma read_broken {A} (c : Call A) id e : read_served c id (Broken e) = inl (CallFailed NO_RESPONSE).
Proof. done. Qed.
Lemma read_file {A B} (c : Call A) id (o : outcome FileServiceError B) wrap (f : B -> A) :
  (forall b, read_served c id (Replied (wrap b)) = inr (f b)) ->
  served_answer (file_served o wrap) = true /\
  read_served c id (file_served o wrap) = match of_file o with inl e => inl e | inr b => inr (f b) end.
Proof. intros Hw. destruct o; cbn [file_served of_file served_answer]; (split; [done|]); [apply Hw|by rewrite read_replied|done]. Qed.
Lemma read_change {A B} (c : Call A) id (op : FileM B) wrap (f : B -> A) w :
  (forall b, read_served c id (Replied (wrap b)) = inr (f b)) ->
  let r := file_change op wrap w in
  served_answer r.2 = true /\ (r.1, read_served c id r.2) = ((of_change op w).1, match (of_change op w).2 with inl e => inl e | inr b => inr (f b) end).
Proof.
  intros Hw. unfold file_change, of_change. destruct (op (file_world w)) as [v o]. cbn [fst snd].
  destruct (read_file c id o wrap f Hw) as [Hs Hr]. split; [done|]. by rewrite Hr.
Qed.
Lemma sum_id {A} (r : CallError + A) : match r with inl e => inl e | inr a => inr a end = r.
Proof. by destruct r. Qed.
Lemma pair_sum_id {A} (r : WorkerState * (CallError + A)) : (r.1, match r.2 with inl e => inl e | inr a => inr a end) = r.
Proof. by destruct r as [? []]. Qed.

#[local] Arguments read_served : simpl never.
#[local] Opaque read_served.
Ltac read_answer f :=
  match goal with
  | |- context [read_served ?c ?id (file_served ?o ?wrap)] =>
      let Hr := fresh in destruct (read_file c id o wrap f) as [? Hr]; [intros; by rewrite read_replied|rewrite Hr, ?sum_id; done]
  | |- context [read_served ?c ?id (file_change ?op ?wrap ?w).2] =>
      let Hr := fresh in destruct (read_change c id op wrap f w) as [? Hr]; [intros; by rewrite read_replied|rewrite Hr, ?pair_sum_id; done]
  | _ => rewrite ?read_replied, ?read_broken; done
  end.
Lemma serve_file_reference {A} u zstd (c : Call A) so id w :
  file_command (call_command c) = true ->
  let r := serve_file canonicalize u zstd (call_command c) w in
  served_answer r.2 = true /\ (r.1, read_served c id r.2) = reference canonicalize u so c w.
Proof.
  intros Hc. cbv zeta. destruct c as [| | | | | | |path f|path cur lim|r|t|t|t|path ws|path|path|src dst ow]; try (exfalso; discriminate Hc);
   cbn [call_command serve_file reference fst snd]; unfold acked.
  - read_answer tt.
  - destruct (stat _ _ _ _ _) as [m|e|]; cbn [file_served served_answer of_file mbind outcome_bind]; read_answer tt.
  - read_answer (fun l : FileListResponse => l).
  - read_answer (fun l : UploadStatusResponse => l).
  - read_answer (fun l : UploadStatusResponse => l).
  - read_answer (fun l : UploadStatusResponse => l).
  - read_answer (fun l : UploadStatusResponse => l).
  - read_answer (fun l : BeginDownloadResponse => l).
  - read_answer (fun _ : () => "directory created"%string).
  - read_answer (fun _ : () => "file removed"%string).
  - read_answer (fun _ : () => "file renamed"%string).
Qed.
Lemma serve_session_reference {A} u (c : Call A) so id w :
  file_command (call_command c) = false ->
  let r := serve_session u so (call_command c) w in
  served_answer r.2 = true /\ (r.1, read_served c id r.2) = reference canonicalize u so c w.
Proof.
  intros Hc. cbv zeta. destruct c as [|r| |n|ws ex|ws t| | | | | | | | | | |]; try (exfalso; discriminate Hc);
   cbn [call_command serve_session serve_objects reference fst snd lt_workspace_id lt_include_exited cl_workspace_id cl_terminal_id];
   unfold gated, of_session, domain_error_served, error_served.
  - read_answer tt.
  - destruct (spawn _ _ _ _) as [m [t|e]]; cbn [fst snd served_answer]; read_answer tt.
  - destruct so; [|read_answer tt]. destruct (workspace _ _); read_answer tt.
  - destruct so; read_answer tt.
  - destruct so; [|read_answer tt]. destruct (list_terminals _ _ _); read_answer tt.
  - destruct (get_terminal _ _ _ _) as [[t'|]|e]; [destruct (su_kill u) as [[]|e]; cbn [mbind result_bind]| |]; read_answer tt.
Qed.
Lemma serve_reference {A} u np (c : Call A) id w :
  let r := serve_command canonicalize u np (Some (call_command c)) w in
  served_answer r.2 = true /\
  (r.1, read_served c id r.2) = reference canonicalize u (negotiated_has np CAPABILITY_SESSION_OBJECTS 1) c w.
Proof.
  cbv zeta. assert (Hs : serve_command canonicalize u np (Some (call_command c)) w =
    if file_command (call_command c) then serve_file canonicalize u (negotiated_has np CAPABILITY_PAYLOAD_ZSTD 1) (call_command c) w
    else serve_session u (negotiated_has np CAPABILITY_SESSION_OBJECTS 1) (call_command c) w) by (by destruct c).
  rewrite Hs. destruct (file_command (call_command c)) eqn:Hc; [by apply serve_file_reference|by apply serve_session_reference].
Qed.
Lemma observes_same {A} u so (c : Call A) w : observes c = true -> (reference canonicalize u so c w).1 = w.
Proof. by destruct c. Qed.

(** ** The reservations of the handler *)

Definition QUOTA : string := "resource quota exceeded".
Lemma reserve_session_spec claim m live :
  reservable (sm_pools m) (sm_account m) live ->
  match reserve_session claim m with
  | (m', Ok rs) => (exists s, m' = set_manager_pools s m /\ reservable s (sm_account m) (rs ++ live)) /\ release rs m' = Ok m
  | (m', Err e) => m' = m /\ e = QUOTA
  end.
Proof.
  intros Hr. pose proof (reserve_session_inv claim m live Hr) as Hi. destruct Hr as (Hnd & Hex & _). revert Hi. unfold reserve_session.
  pose proof (account_reserve_spec (sm_pools m) (sm_account m) claim Hnd Hex) as Hs.
  destruct (account_reserve _ _ _) as [s [rs|q|]]; cbn in Hs; [|by intros [-> _]|done].
  intros [_ Hi]. split; [done|]. unfold release. cbn [sm_pools set_manager_pools]. destruct Hs as (_ & _ & _ & ->). by destruct m.
Qed.
(** All or nothing, and releasing them restores the pools. *)
Lemma reserve_handler_spec file m live :
  reservable (sm_pools m) (sm_account m) live ->
  match reserve_handler file m with
  | (m', Ok held) => (exists s, m' = set_manager_pools s m) /\ release held m' = Ok m
  | (m', Err e) => m' = m /\ e = QUOTA
  end.
Proof.
  intros Hr. unfold reserve_handler. pose proof (reserve_session_spec claim_stream m live Hr) as Hone.
  destruct (reserve_session claim_stream m) as [m1 [rs1|e1]]; [|done]. destruct Hone as [(s1 & -> & Hr1) Hrel1].
  destruct file; [|split; [by eexists|done]].
  pose proof (reserve_session_spec claim_file_handle (set_manager_pools s1 m) (rs1 ++ live) Hr1) as H2.
  destruct (reserve_session claim_file_handle _) as [m2 [rs2|e2]].
  - destruct H2 as [(s2 & -> & _) Hrel2]. split; [by exists s2|]. unfold release in *.
    cbn [sm_pools set_manager_pools] in *. rewrite drop_reservations_app. destruct (drop_reservations s2 rs2) as [s|]; [|done].
    injection Hrel2 as ->. cbn [mbind option_bind]. destruct (drop_reservations s1 rs1); [|done]. done.
  - destruct H2 as [-> ->]. unfold fail_released. by rewrite Hrel1.
Qed.

(** ** The handler *)

#[local] Transparent read_served.

Lemma handler_exact {A} u first context (c : Call A) id file w live :
  reservable (sm_pools (wk_manager w)) (sm_account (wk_manager w)) live ->
  accept_request first context = Ok (mkRequest id (Some (call_command c)), file) ->
  let '(w', responses, rest) := handle_worker_message canonicalize u first context w in
  match reserve_handler file (wk_manager w) with
  | (_, Err e) => w' = w /\ rest = Finished /\ call_result c id responses = inl (CallRefused "quota" e)
  | (m, Ok held) =>
      let r := reference canonicalize u (negotiated_has (cx_negotiated context) CAPABILITY_SESSION_OBJECTS 1) c (with_manager m w) in
      call_result c id responses = r.2 /\ w' = settle held r.1 /\ (observes c = true -> w' = w)
  end.
Proof.
  intros Hr Ha. unfold handle_worker_message. rewrite Ha. pose proof (reserve_handler_spec file _ _ Hr) as Hh.
  destruct (reserve_handler file (wk_manager w)) as [m [held|e]].
  - destruct Hh as [(s & ->) Hrel]. cbn [rq_request_id rq_command].
    destruct (serve_reference u (cx_negotiated context) c id (with_manager (set_manager_pools s (wk_manager w)) w)) as [Hs Href].
    set (r := serve_command _ _ _ _ _) in *. clearbody r. cbv zeta in Href. rewrite <- Href. cbn [fst snd].
    assert (Hobs : observes c = true -> r.1 = with_manager (set_manager_pools s (wk_manager w)) w).
    { intros Ho%(observes_same u (negotiated_has (cx_negotiated context) CAPABILITY_SESSION_OBJECTS 1) c
        (with_manager (set_manager_pools s (wk_manager w)) w)). by rewrite <- Href in Ho. }
    assert (Hset : observes c = true -> settle held r.1 = w).
    { intros ->%Hobs. unfold settle. cbn [wk_manager with_manager]. rewrite Hrel, with_manager_twice. apply with_manager_id. }
    destruct r as [w1 served]. cbn [fst snd] in *. unfold finish_served, settle in *.
    destruct served; try done; destruct (release held (wk_manager w1)); (split; [done|]); (split; [done|]); exact Hset.
  - destruct Hh as [-> ->]. unfold is_quota. rewrite bool_decide_eq_true_2 by done. cbn [rq_request_id]. rewrite with_manager_id.
    split; [done|]. split; [done|]. exact (read_replied c id (RError "quota" QUOTA)).
Qed.

(** ** Properties *)

End spec.

(** ** Witness *)

Definition ex_surroundings : Surroundings := mkSurroundings io_reliable (fun b => b) demo_host (Ok tt) (fun _ _ => GitTimeout) [].
Definition ex_worker : WorkerState := mkWorkerState demo_attached [] ∅ (fun _ => mkAttributes 0 0 0 0 0 0) ∅.
Definition ex_call : Call (list TerminalInfo) := CallListTerminals "w-1" false.

Definition ex_demo_stream : list WireMessage :=
  [Some (BStreamHello (mkStreamHello 1 1 "" 42 "r1")); Some (BRequest (mkRequest "r1" (Some (call_command ex_call))))].
Definition ex_admission : Admission :=
  mkAdmission (Some 20%Z) (Some (mkStreamHello 1 1 "" 42 "r1")) (Some (BRequest (mkRequest "r1" (Some (call_command ex_call))))) [].
Lemma demo_reservable : reservable (sm_pools demo_attached) (sm_account demo_attached) (held demo_attached ++ []).
Proof. exact (proj2 (proj2 (proj2 (@session_invariant demo_lib demo_laws _ demo_reachable)))). Qed.
