(* ===== verification/Policy.v ===== *)
(** * Command lines of the daemon ([astrad.rs], [worker.rs])

    The limits of [astrad serve] are options in mebibytes and counts.  The gateway turns them into a
    [ResourcePolicy], and tells each worker it starts the policy of its user by the command line of
    [astrad worker].  The two conversions are translated here, and shown to be inverse to each other where it matters. *)
From stdpp Require Import strings pretty.
From S2P Require Import Prelude Text Resources Files FileReads Sessions SessionsSpec Authentication.
Open Scope N_scope.

(** ** Options ([astrad.rs]) *)

(** [GlobalResourceArgs], [UserResourceArgs] and [TerminalResourceArgs] *)
Record GlobalResourceArgs := mkGlobalArgs {
  max_global_connections : N; max_global_streams : N; max_global_workers : N; max_global_terminals : N; max_global_attachments : N;
  max_global_terminal_memory_mib : N; max_global_history_mib : N; max_global_file_handles : N; max_global_forward_connections : N;
  max_global_uploads : N; max_global_upload_mib : N }.
Record UserResourceArgs := mkUserArgs {
  max_user_connections : N; max_user_streams : N; max_user_terminals : N; max_user_attachments : N; max_user_terminal_memory_mib : N;
  max_user_history_mib : N; max_user_file_handles : N; max_user_forward_connections : N; max_user_uploads : N; max_user_upload_mib : N }.
Record TerminalResourceArgs := mkTerminalArgs {
  terminal_base_memory_mib : N; terminal_cell_memory_bytes : N; terminal_history_rows : N; terminal_history_mib : N }.
Definition global_args_default : GlobalResourceArgs := mkGlobalArgs 1024 8192 64 4096 16384 16384 32768 16384 256 1024 524288.
Definition user_args_default : UserResourceArgs := mkUserArgs 8 256 64 256 256 512 256 32 16 8192.
Definition terminal_args_default : TerminalResourceArgs := mkTerminalArgs 4 64 DEFAULT_TERMINAL_HISTORY_ROWS 8.

Definition to_bytes (mebibytes : N) : result N := ok_or (checked_mul U64_MAX mebibytes MIB) "limit overflows bytes".

Definition global_limits (a : GlobalResourceArgs) : result ResourceLimits :=
  terminal_memory ← to_bytes (max_global_terminal_memory_mib a);
  history ← to_bytes (max_global_history_mib a);
  forward_buffer ← ok_or (checked_mul U64_MAX (max_global_forward_connections a) (256 * 1024)) "forward buffer quota overflow";
  upload ← to_bytes (max_global_upload_mib a);
  Ok (mkLimits (max_global_connections a) (max_global_streams a) (max_global_workers a) (max_global_terminals a) (max_global_attachments a)
        terminal_memory history (max_global_forward_connections a) forward_buffer (max_global_file_handles a) (max_global_uploads a) upload).
Definition user_limits (a : UserResourceArgs) : result ResourceLimits :=
  terminal_memory ← to_bytes (max_user_terminal_memory_mib a);
  history ← to_bytes (max_user_history_mib a);
  forward_buffer ← ok_or (checked_mul U64_MAX (max_user_forward_connections a) (256 * 1024)) "forward buffer quota overflow";
  upload ← to_bytes (max_user_upload_mib a);
  Ok (mkLimits (max_user_connections a) (max_user_streams a) 1 (max_user_terminals a) (max_user_attachments a)
        terminal_memory history (max_user_forward_connections a) forward_buffer (max_user_file_handles a) (max_user_uploads a) upload).

(** [ResourceArgs::policy] *)
Record ResourceArgs := mkResourceArgs { ra_global : GlobalResourceArgs; ra_user : UserResourceArgs; ra_terminal : TerminalResourceArgs }.
Definition args_policy (a : ResourceArgs) : result ResourcePolicy :=
  global ← global_limits (ra_global a);
  user ← user_limits (ra_user a);
  base_memory ← to_bytes (terminal_base_memory_mib (ra_terminal a));
  history ← to_bytes (terminal_history_mib (ra_terminal a));
  let policy := mkPolicy global user base_memory (terminal_cell_memory_bytes (ra_terminal a)) (terminal_history_rows (ra_terminal a)) history in
  _ ← policy_validate policy;
  Ok policy.
Definition worker_policy (u : UserResourceArgs) (t : TerminalResourceArgs) : result ResourcePolicy :=
  user ← user_limits u;
  base_memory ← to_bytes (terminal_base_memory_mib t);
  history ← to_bytes (terminal_history_mib t);
  let policy := mkPolicy user user base_memory (terminal_cell_memory_bytes t) (terminal_history_rows t) history in
  _ ← policy_validate policy;
  Ok policy.

(** ** The command line of a worker *)

(** The options of a command line, by name, as [clap] reads them. *)
Class ClapLib := { clap_options : list bytes -> result (gmap bytes bytes) }.
Definition worker_options : list bytes :=
  lit <$> ["--socket"; "--state-dir"; "--session-root"; "--expected-uid"; "--idle-timeout-seconds"; "--max-user-connections"; "--max-user-streams";
           "--max-user-terminals"; "--max-user-attachments"; "--max-user-terminal-memory-mib"; "--max-user-history-mib"; "--max-user-file-handles";
           "--max-user-forward-connections"; "--max-user-uploads"; "--max-user-upload-mib"; "--terminal-base-memory-mib";
           "--terminal-cell-memory-bytes"; "--terminal-history-rows"; "--terminal-history-mib"]%string.
Definition arguments (given : list (bytes * bytes)) : list bytes := concat ((fun '(name, value) => [name; value]) <$> given).
Definition hyphenated (value : bytes) : bool := match value with c :: _ => c =? 45 | [] => false end.
(** Every option takes the argument that follows it; each is given once, and a value does not look like an option. *)
Class ClapLaws `{ClapLib} := {
  clap_reads given :
    NoDup given.*1 -> Forall (fun '(name, value) => name ∈ worker_options /\ hyphenated value = false) given ->
    clap_options (arguments given) = Ok (list_to_map given)
}.

Definition required (options : gmap bytes bytes) (name : string) : result bytes := ok_or (options !! lit name) "a required option is missing".
Definition u64_option (options : gmap bytes bytes) (name : string) (default_value : N) : result N :=
  match options !! lit name with None => Ok default_value | Some v => ok_or (parse_u64 v) "invalid number" end.

Section command_lines.
Context `{ClapLib}.

(** [Command::Worker] *)
Record WorkerCommand := mkWorkerCommand {
  wcm_socket : bytes; wcm_state_dir : bytes; wcm_session_root : bytes; wcm_expected_uid : N; wcm_idle_timeout_seconds : N;
  wcm_resources : UserResourceArgs; wcm_terminal_resources : TerminalResourceArgs }.
Definition parse_user_args (o : gmap bytes bytes) : result UserResourceArgs :=
  connections ← u64_option o "--max-user-connections" (max_user_connections user_args_default);
  streams ← u64_option o "--max-user-streams" (max_user_streams user_args_default);
  terminals ← u64_option o "--max-user-terminals" (max_user_terminals user_args_default);
  attachments ← u64_option o "--max-user-attachments" (max_user_attachments user_args_default);
  memory ← u64_option o "--max-user-terminal-memory-mib" (max_user_terminal_memory_mib user_args_default);
  history ← u64_option o "--max-user-history-mib" (max_user_history_mib user_args_default);
  file_handles ← u64_option o "--max-user-file-handles" (max_user_file_handles user_args_default);
  forward ← u64_option o "--max-user-forward-connections" (max_user_forward_connections user_args_default);
  uploads ← u64_option o "--max-user-uploads" (max_user_uploads user_args_default);
  upload ← u64_option o "--max-user-upload-mib" (max_user_upload_mib user_args_default);
  Ok (mkUserArgs connections streams terminals attachments memory history file_handles forward uploads upload).
Definition parse_terminal_args (o : gmap bytes bytes) : result TerminalResourceArgs :=
  base_memory ← u64_option o "--terminal-base-memory-mib" (terminal_base_memory_mib terminal_args_default);
  cell_memory ← u64_option o "--terminal-cell-memory-bytes" (terminal_cell_memory_bytes terminal_args_default);
  rows ← u64_option o "--terminal-history-rows" (terminal_history_rows terminal_args_default);
  history ← u64_option o "--terminal-history-mib" (terminal_history_mib terminal_args_default);
  Ok (mkTerminalArgs base_memory cell_memory rows history).
Definition parse_worker_command (args : list bytes) : result WorkerCommand :=
  o ← clap_options args;
  socket ← required o "--socket";
  state_dir ← required o "--state-dir";
  session_root ← required o "--session-root";
  uid ← required o "--expected-uid";
  uid ← ok_or (parse_u64 uid) "invalid number";
  ensure! uid <=? U32_MAX, "invalid number";
  idle ← required o "--idle-timeout-seconds";
  idle ← ok_or (parse_u64 idle) "invalid number";
  user ← parse_user_args o;
  terminal ← parse_terminal_args o;
  Ok (mkWorkerCommand socket state_dir session_root uid idle user terminal).

(** [append_worker_resource_policy] *)
Definition decimal (n : N) : bytes := lit (pretty n).
Definition append_worker_resource_policy (policy : ResourcePolicy) : list (bytes * bytes) :=
  let user := rp_user policy in
  prod_map lit decimal <$>
    [("--max-user-connections", rl_connections user); ("--max-user-forward-connections", rl_forward_connections user);
     ("--max-user-streams", rl_streams user); ("--max-user-terminals", rl_terminals user); ("--max-user-attachments", rl_attachments user);
     ("--max-user-terminal-memory-mib", rl_terminal_memory_bytes user / MIB); ("--max-user-history-mib", rl_history_bytes user / MIB);
     ("--max-user-file-handles", rl_file_handles user); ("--max-user-uploads", rl_uploads user);
     ("--max-user-upload-mib", rl_upload_bytes user / MIB); ("--terminal-base-memory-mib", rp_terminal_base_memory_bytes policy / MIB);
     ("--terminal-cell-memory-bytes", rp_terminal_cell_memory_bytes policy); ("--terminal-history-rows", rp_terminal_history_rows policy);
     ("--terminal-history-mib", rp_terminal_history_bytes policy / MIB)]%string.

(** [spawn_worker]: the arguments of [setpriv] up to the executable, and those of the worker. *)
Definition setpriv_arguments (account : SystemAccount) : list bytes :=
  [lit "--reuid=" ++ decimal (ac_uid account); lit "--regid=" ++ decimal (ac_gid account);
   lit "--groups=" ++ flat_map id (foldr (fun g l => match l with [] => [g] | _ => g :: [44] :: l end) [] (decimal <$> ac_supplementary_groups account));
   lit "--"].
Definition spawn_worker (current_uid : N) (account : SystemAccount) (session_root_override : option Path) (idle_timeout_seconds : N)
    (policy : ResourcePolicy) (user_state socket : Path) : result (list bytes * list bytes) :=
  ensure! negb (negb (current_uid =? 0) && negb (current_uid =? ac_uid account)), "managed mode must run as root";
  let session_root := default (ac_home account) session_root_override in
  Ok (setpriv_arguments account,
      lit "worker" ::
      arguments ([(lit "--socket", path_bytes socket); (lit "--state-dir", path_bytes user_state); (lit "--session-root", path_bytes session_root);
                  (lit "--expected-uid", decimal (ac_uid account)); (lit "--idle-timeout-seconds", decimal idle_timeout_seconds)]
                 ++ append_worker_resource_policy policy)).
End command_lines.

(** ** Lemmas *)

Lemma parse_u64_decimal n : n <= U64_MAX -> parse_u64 (decimal n) = Some n.
Proof.
  intros Hn. destruct (decide (n = 0)) as [->|Hne]; [done|].
  pose proof (parse_display_id_pretty n ltac:(lia)) as Hp. unfold parse_display_id in Hp. fold (decimal n) in Hp.
  destruct (parse_u64 (decimal n)) as [m|]; [|done]. cbn in Hp. by destruct (m =? 0).
Qed.
Lemma decimal_not_hyphenated n : hyphenated (decimal n) = false.
Proof.
  destruct (decide (n = 0)) as [->|Hne]; [done|]. unfold decimal, pretty, pretty_N. rewrite decide_False by done.
  assert (Hgo : forall s, hyphenated (lit s) = false -> hyphenated (lit (pretty_N_go n s)) = false); [|by apply Hgo].
  clear Hne. induction (N.lt_wf_0 n) as [x _ IH]. intros s Hs.
  destruct (decide (x = 0)) as [->|Hx]; [by rewrite pretty_N_go_0|]. rewrite pretty_N_go_step by lia.
  apply IH; [apply N.div_lt; lia|]. unfold lit. cbn [String.list_ascii_of_string fmap list_fmap hyphenated].
  rewrite pretty_N_char_digit by (by apply N.mod_lt). apply N.eqb_neq. generalize (x `mod` 10). intros k. lia.
Qed.
Lemma path_not_hyphenated p : hyphenated (path_bytes p) = false.
Proof. by destruct p. Qed.

Lemma to_bytes_Ok m b : to_bytes m = Ok b -> b / MIB = m.
Proof.
  unfold to_bytes, checked_mul. destruct (_ <=? _); [|done]. intros [= <-]. by apply N.div_mul.
Qed.
Lemma u64_option_given o name n d : o !! lit name = Some (decimal n) -> n <= U64_MAX -> u64_option o name d = Ok n.
Proof. intros Ho Hn. unfold u64_option. by rewrite Ho, parse_u64_decimal. Qed.
Lemma required_given o name v : o !! lit name = Some v -> required o name = Ok v.
Proof. intros Ho. unfold required. by rewrite Ho. Qed.

(** Numbers of the command line are [u64]. *)
Definition user_args_u64 (a : UserResourceArgs) : Prop :=
  Forall (fun n => n <= U64_MAX)
    [max_user_connections a; max_user_streams a; max_user_terminals a; max_user_attachments a; max_user_terminal_memory_mib a;
     max_user_history_mib a; max_user_file_handles a; max_user_forward_connections a; max_user_uploads a; max_user_upload_mib a].
Definition terminal_args_u64 (a : TerminalResourceArgs) : Prop :=
  Forall (fun n => n <= U64_MAX) [terminal_base_memory_mib a; terminal_cell_memory_bytes a; terminal_history_rows a; terminal_history_mib a].

Lemma user_limits_Ok a l :
  user_limits a = Ok l ->
  rl_connections l = max_user_connections a /\ rl_streams l = max_user_streams a /\ rl_workers l = 1 /\ rl_terminals l = max_user_terminals a /\
  rl_attachments l = max_user_attachments a /\ rl_terminal_memory_bytes l / MIB = max_user_terminal_memory_mib a /\
  rl_history_bytes l / MIB = max_user_history_mib a /\ rl_forward_connections l = max_user_forward_connections a /\
  rl_file_handles l = max_user_file_handles a /\ rl_uploads l = max_user_uploads a /\ rl_upload_bytes l / MIB = max_user_upload_mib a.
Proof.
  unfold user_limits. intros Hl. ok_inv Hl. cbn. split_and!; try done; by apply to_bytes_Ok.
Qed.

(** Limits within other limits, checked once more against themselves. *)
Lemma value_in_dimensions c r n : (r, n) ∈ dimensions c -> value c r = Some n.
Proof. intros Hin. by destruct (value_dimension c c r n Hin). Qed.
Lemma policy_validate_worker p :
  policy_validate p = Ok tt ->
  policy_validate (mkPolicy (rp_user p) (rp_user p) (rp_terminal_base_memory_bytes p) (rp_terminal_cell_memory_bytes p)
                     (rp_terminal_history_rows p) (rp_terminal_history_bytes p)) = Ok tt.
Proof.
  unfold policy_validate. intros H. ok_step H. ok_step H. cbn [rp_global rp_user rp_terminal_base_memory_bytes rp_terminal_cell_memory_bytes
    rp_terminal_history_rows rp_terminal_history_bytes].
  destruct a0. rewrite Hr0. cbn [mbind result_bind].
  repeat match goal with
  | |- (if ?b then _ else _) = _ => destruct b; [|discriminate H]
  end.
  apply try_fold_unit_Ok, Forall_forall. intros [r n] Hin. rewrite (value_in_dimensions _ _ _ Hin). cbn [ok_or mbind result_bind].
  by rewrite N.leb_refl.
Qed.

Lemma args_policy_Ok a p :
  args_policy a = Ok p ->
  user_limits (ra_user a) = Ok (rp_user p) /\ to_bytes (terminal_base_memory_mib (ra_terminal a)) = Ok (rp_terminal_base_memory_bytes p) /\
  to_bytes (terminal_history_mib (ra_terminal a)) = Ok (rp_terminal_history_bytes p) /\
  rp_terminal_cell_memory_bytes p = terminal_cell_memory_bytes (ra_terminal a) /\
  rp_terminal_history_rows p = terminal_history_rows (ra_terminal a) /\ policy_validate p = Ok tt.
Proof. unfold args_policy. intros Hp. ok_inv Hp. repeat match goal with u : () |- _ => destruct u end. cbn. by split_and!. Qed.

Section properties.
Context `{ClapLaws}.

(** The options that a worker is given, by name. *)
Definition given_options (account : SystemAccount) (session_root : Path) (idle : N) (policy : ResourcePolicy) (user_state socket : Path)
    : list (bytes * bytes) :=
  [(lit "--socket", path_bytes socket); (lit "--state-dir", path_bytes user_state); (lit "--session-root", path_bytes session_root);
   (lit "--expected-uid", decimal (ac_uid account)); (lit "--idle-timeout-seconds", decimal idle)] ++ append_worker_resource_policy policy.
Lemma options_read account session_root idle policy user_state socket :
  let given := given_options account session_root idle policy user_state socket in
  exists o, clap_options (arguments given) = Ok o /\ forall name v, (lit name, v) ∈ given -> o !! lit name = Some v.
Proof.
  cbv zeta. set (given := given_options _ _ _ _ _ _).
  assert (Hnames : given.*1 = (given_options account [] 0 policy [] []).*1) by done.
  assert (Hnd : NoDup given.*1) by (rewrite Hnames; apply (bool_decide_unpack _); vm_compute; exact I).
  assert (Hvalues : Forall (fun kv => hyphenated kv.2 = false) given).
  { unfold given, given_options, append_worker_resource_policy. cbn [app fmap list_fmap prod_map fst snd].
    repeat (apply Forall_cons; split; [first [apply path_not_hyphenated | apply decimal_not_hyphenated]|]). by apply Forall_nil. }
  exists (list_to_map given). split.
  - apply clap_reads; [exact Hnd|]. apply Forall_forall. intros [name v] Hin. split.
    + apply (proj1 (Forall_forall (.∈ worker_options) given.*1)); [|apply list_elem_of_fmap; by exists (name, v)].
      rewrite Hnames. apply (bool_decide_unpack _). vm_compute. exact I.
    + revert Hin. apply (proj1 (Forall_forall (fun kv => hyphenated kv.2 = false) given) Hvalues).
  - intros name v Hin. by apply elem_of_list_to_map_1.
Qed.

Ltac member := repeat first [apply list_elem_of_here | apply list_elem_of_further].
Lemma parse_given a p account root idle user_state socket o :
  user_args_u64 (ra_user a) -> terminal_args_u64 (ra_terminal a) -> idle <= U64_MAX -> ac_uid account <= U32_MAX -> args_policy a = Ok p ->
  let given := given_options account root idle p user_state socket in
  clap_options (arguments given) = Ok o -> (forall name v, (lit name, v) ∈ given -> o !! lit name = Some v) ->
  parse_worker_command (arguments given) =
    Ok (mkWorkerCommand (path_bytes socket) (path_bytes user_state) (path_bytes root) (ac_uid account) idle (ra_user a) (ra_terminal a)).
Proof.
  intros Hu Ht Hidle Huid Hp given Ho Hget. unfold parse_worker_command. rewrite Ho. cbn [mbind result_bind].
  destruct (args_policy_Ok _ _ Hp) as (Hlim & Hbase & Hhist & Hcell & Hrows & _). apply to_bytes_Ok in Hbase, Hhist.
  destruct (user_limits_Ok _ _ Hlim) as (H1 & H2 & _ & H4 & H5 & H6 & H7 & H8 & H9 & H10 & H11).
  unfold given, given_options, append_worker_resource_policy in Hget. cbn [app fmap list_fmap prod_map fst snd] in Hget.
  rewrite H1, H2, H4, H5, H6, H7, H8, H9, H10, H11, Hbase, Hhist, Hcell, Hrows in Hget. clear H1 H2 H4 H5 H6 H7 H8 H9 H10 H11.
  unfold user_args_u64, terminal_args_u64 in *. repeat rewrite Forall_cons in Hu. repeat rewrite Forall_cons in Ht. destruct_and! Hu. destruct_and! Ht.
  unfold parse_user_args, parse_terminal_args.
  repeat first
    [ erewrite required_given by (apply Hget; member)
    | erewrite u64_option_given by first [apply Hget; member | done]
    | rewrite parse_u64_decimal by (unfold U64_MAX, U32_MAX in *; lia)
    | progress cbn [mbind result_bind ok_or]
    | rewrite (proj2 (N.leb_le (ac_uid account) U32_MAX)) by done ].
  by destruct (ra_user a), (ra_terminal a).
Qed.
(** C26: a worker works with the limits of the daemon.  Whatever options [astrad serve] was started with,
    as long as it accepted them, the command line with which it starts a worker is read back exactly: the socket, the
    state directory, the session root, the user and the idle timeout are those of the gateway, and the policy is accepted again and gives
    the worker the user limits and the terminal capacities of the gateway to the byte. *)
Theorem worker_command_exact a p current_uid account over idle user_state socket prefix args :
  user_args_u64 (ra_user a) -> terminal_args_u64 (ra_terminal a) -> idle <= U64_MAX -> ac_uid account <= U32_MAX ->
  args_policy a = Ok p ->
  spawn_worker current_uid account over idle p user_state socket = Ok (prefix, args) ->
  exists rest w p', args = lit "worker" :: rest /\ parse_worker_command rest = Ok w /\
    wcm_socket w = path_bytes socket /\ wcm_state_dir w = path_bytes user_state /\
    wcm_session_root w = path_bytes (default (ac_home account) over) /\ wcm_expected_uid w = ac_uid account /\ wcm_idle_timeout_seconds w = idle /\
    wcm_resources w = ra_user a /\ wcm_terminal_resources w = ra_terminal a /\
    worker_policy (wcm_resources w) (wcm_terminal_resources w) = Ok p' /\
    rp_user p' = rp_user p /\ rp_global p' = rp_user p /\ rp_terminal_base_memory_bytes p' = rp_terminal_base_memory_bytes p /\
    rp_terminal_cell_memory_bytes p' = rp_terminal_cell_memory_bytes p /\ rp_terminal_history_rows p' = rp_terminal_history_rows p /\
    rp_terminal_history_bytes p' = rp_terminal_history_bytes p.
Proof.
  intros Hu Ht Hidle Huid Hp Hs. unfold spawn_worker in Hs. ok_step Hs. injection Hs as <- <-.
  destruct (args_policy_Ok _ _ Hp) as (Hlim & Hbase & Hhist & Hcell & Hrows & Hval).
  set (root := default (ac_home account) over).
  destruct (options_read account root idle p user_state socket) as (o & Ho & Hget).
  exists (arguments (given_options account root idle p user_state socket)),
    (mkWorkerCommand (path_bytes socket) (path_bytes user_state) (path_bytes root) (ac_uid account) idle (ra_user a) (ra_terminal a)),
    (mkPolicy (rp_user p) (rp_user p) (rp_terminal_base_memory_bytes p) (rp_terminal_cell_memory_bytes p) (rp_terminal_history_rows p)
       (rp_terminal_history_bytes p)).
  split; [reflexivity|]. split; [by apply (parse_given a p _ _ _ _ _ o)|]. split_and!; try done.
  unfold worker_policy. cbn [wcm_resources wcm_terminal_resources]. rewrite Hlim. cbn [mbind result_bind]. rewrite Hbase. cbn [mbind result_bind].
  rewrite Hhist. cbn [mbind result_bind]. rewrite <- Hcell, <- Hrows. by rewrite (policy_validate_worker _ Hval).
Qed.
End properties.

(** ** Witness *)

Fixpoint ex_pairs (args : list bytes) : gmap bytes bytes :=
  match args with name :: value :: args => <[name := value]> (ex_pairs args) | _ => ∅ end.
#[local] Instance ex_clap : ClapLib := {| clap_options args := Ok (ex_pairs args) |}.
#[local] Instance ex_clap_laws : ClapLaws.
Proof.
  constructor. intros given _ _. cbn. f_equal. induction given as [|[name v] given IH]; [done|]. cbn. by rewrite <- IH.
Qed.
Definition ex_args : ResourceArgs := mkResourceArgs global_args_default user_args_default terminal_args_default.
Definition ex_account : SystemAccount := mkAccount "ann" 1000 1000 [lit "home"; lit "ann"] [lit "bin"; lit "sh"] [27; 100].

Lemma worker_command_exact_witness :
  args_policy ex_args = Ok policy_default /\
  exists prefix args w, spawn_worker 0 ex_account None 600 policy_default [lit "s"] [lit "s"; lit "session.sock"] = Ok (prefix, args) /\
    nth_error prefix 2 = Some (lit "--groups=27,100") /\
    parse_worker_command (drop 1 args) = Ok w /\ wcm_idle_timeout_seconds w = 600 /\
    worker_policy (wcm_resources w) (wcm_terminal_resources w) = Ok (mkPolicy user_defaults user_defaults (4 * MIB) 64 10000 (8 * MIB)).
Proof.
  assert (Hp : args_policy ex_args = Ok policy_default) by (vm_compute; reflexivity). split; [exact Hp|].
  destruct (spawn_worker 0 ex_account None 600 policy_default [lit "s"] [lit "s"; lit "session.sock"]) as [[prefix args]|e] eqn:Es;
    [|vm_compute in Es; discriminate Es].
  destruct (@worker_command_exact ex_clap ex_clap_laws ex_args policy_default 0 ex_account None 600 [lit "s"] [lit "s"; lit "session.sock"] prefix args)
    as (rest & w & p' & Ha & Hw & _ & _ & _ & _ & Hi & Hres & Hter & Hpol & _).
  - repeat (apply Forall_cons; split; [vm_compute; discriminate|]). apply Forall_nil. exact I.
  - repeat (apply Forall_cons; split; [vm_compute; discriminate|]). apply Forall_nil. exact I.
  - vm_compute; discriminate.
  - vm_compute; discriminate.
  - exact Hp.
  - exact Es.
  - exists prefix, args, w. split; [reflexivity|]. split; [vm_compute in Es; injection Es as <- _; vm_compute; reflexivity|].
    rewrite Ha. split; [exact Hw|]. split; [exact Hi|]. rewrite Hres, Hter. vm_compute. reflexivity.
Defined.
