(* ===== verification/WorkerRouter.v ===== *)
(** * The workers of the gateway ([worker.rs])

    The gateway reserves the capacity of a whole worker for every user that has one.  A connection to a worker
    is an atomic admission ([ensure_worker_capacity], under the lock of the map), a probe that may start a worker, and an
    atomic conclusion; probes of one user exclude each other, those of different users interleave. *)
From S2P Require Import Prelude Text Resources Gateway Files Authentication.
Open Scope N_scope.

(** [WorkerCapacity] and the part of [WorkerRouter] that changes. *)
Record WorkerCapacity := mkCapacity {
  wc_reservation : list PoolReservation; wc_identity : option WorkerIdentity; wc_peer_pid : option Z }.
Record WorkerRouter := mkRouter {
  wr_capacities : gmap N WorkerCapacity; wr_pools : PoolStore; wr_governor : ResourceGovernor; wr_policy : ResourcePolicy }.
Definition with_capacities (cs : gmap N WorkerCapacity) (s : PoolStore) (r : WorkerRouter) : WorkerRouter :=
  mkRouter cs s (wr_governor r) (wr_policy r).
Definition with_governor (g : ResourceGovernor) (r : WorkerRouter) : WorkerRouter :=
  mkRouter (wr_capacities r) (wr_pools r) g (wr_policy r).

(** ** Admission *)

(** The capacity belongs to a process that the kernel no longer knows. *)
Definition dead (process_exists : Z -> bool) (c : WorkerCapacity) : bool :=
  match wc_peer_pid c with Some pid => negb (process_exists pid) | None => false end.
Definition reap (process_exists : Z -> bool) (r : WorkerRouter) : option WorkerRouter :=
  let gone := filter (fun kv : N * WorkerCapacity => dead process_exists kv.2 = true) (wr_capacities r) in
  let left := filter (fun kv : N * WorkerCapacity => ~ (dead process_exists kv.2 = true)) (wr_capacities r) in
  s ← drop_reservations (wr_pools r) (bag wc_reservation gone);
  Some (with_capacities left s r).

(** [ensure_worker_capacity]; [fresh] is the handle of a new pool. *)
Definition ensure_worker_capacity (process_exists : Z -> bool) (fresh : N) (account : SystemAccount) (r : WorkerRouter)
    : WorkerRouter * result () :=
  match reap process_exists r with
  | None => (r, panic)
  | Some r =>
      match wr_capacities r !! ac_uid account with
      | Some _ => (r, Ok tt)
      | None =>
          match governor_account (wr_pools r) (wr_governor r) fresh (ac_username account) with
          | Err e => (r, Err e)
          | Ok (s, g, pools) =>
              let r := with_governor g (with_capacities (wr_capacities r) s r) in
              match account_reserve s pools (worker_capacity_claim (wr_policy r)) with
              | (s, Returned reservation) =>
                  (with_capacities (<[ac_uid account := mkCapacity reservation None None]> (wr_capacities r)) s r, Ok tt)
              | (s, Failed e) => (with_capacities (wr_capacities r) s r, Err "resource quota exceeded")
              | (s, Panicked) => (with_capacities (wr_capacities r) s r, panic)
              end
          end
      end
  end.

(** ** Probing *)

(** The credentials of the peer of a socket. *)
Record Peer := mkPeer { pe_uid : N; pe_pid : option Z }.
(** What [symlink_metadata] finds at the path of the socket, and the outcome of connecting to it. *)
Inductive SocketAt := SocketPresent (is_socket : bool) (uid mode : N) | SocketMissing | SocketError (e : string).
Inductive ConnectOutcome := Connected (peer : Peer) | Refused | ConnectFailed (e : string).
Definition connect_existing (uid : N) (socket : SocketAt) (attempt : ConnectOutcome) : result (option Peer) :=
  match socket with
  | SocketMissing => Ok None
  | SocketError e => Err e
  | SocketPresent is_socket owner mode =>
      ensure! is_socket && (owner =? uid) && (N.land mode 63 =? 0), "unsafe worker socket";
      match attempt with
      | Connected peer => ensure! pe_uid peer =? uid, "worker peer UID mismatch"; Ok (Some peer)
      | Refused => Ok None
      | ConnectFailed e => Err e
      end
  end.

(** What [connect_with_capacity] does, and the answers it gets: the [k]-th connection attempt, the [k]-th attempt to take the
    lock of the start, whether the file of the lock exists then, and the start of the process. *)
Inductive Action := Probed | LockTried | Spawned | Slept.
Record Answers := mkAnswers {
  an_prepare : result (); an_existing : nat -> result (option Peer); an_lock : nat -> result (); an_lock_path : nat -> bool;
  an_spawn : result () }.
Definition START_ATTEMPTS : nat := 100.

(** The loop for the lock: a worker that another gateway started meanwhile, or the lock. [k] counts the probes, [i] the
    attempts. *)
Fixpoint arbitrate (fuel : nat) (a : Answers) (k i : nat) : list Action * nat * result (option Peer) :=
  match fuel with
  | O => ([], k, Err "worker startup arbitration timed out")
  | S fuel =>
      match an_lock a i with
      | Ok _ => ([LockTried], k, Ok None)
      | Err e =>
          match an_existing a k with
          | Err e => ([LockTried; Probed], S k, Err e)
          | Ok (Some peer) => ([LockTried; Probed], S k, Ok (Some peer))
          | Ok None =>
              if an_lock_path a i then
                let '(actions, k', outcome) := arbitrate fuel a (S k) (S i) in
                (LockTried :: Probed :: Slept :: actions, k', outcome)
              else ([LockTried; Probed], S k, Err e)
          end
      end
  end.
(** The loop that waits for the socket of the new worker. *)
Fixpoint await_socket (fuel : nat) (a : Answers) (k : nat) : list Action * result Peer :=
  match fuel with
  | O => ([], Err "user worker did not create its control socket")
  | S fuel =>
      match an_existing a k with
      | Err e => ([Probed], Err e)
      | Ok (Some peer) => ([Probed], Ok peer)
      | Ok None => let '(actions, outcome) := await_socket fuel a (S k) in (Probed :: Slept :: actions, outcome)
      end
  end.
(** Under the lock: a last look, the start and the wait. *)
Definition start_worker (a : Answers) (k : nat) : list Action * result Peer :=
  match an_existing a k with
  | Err e => ([Probed], Err e)
  | Ok (Some peer) => ([Probed], Ok peer)
  | Ok None =>
      match an_spawn a with
      | Err e => ([Probed; Spawned], Err e)
      | Ok _ => let '(actions, outcome) := await_socket START_ATTEMPTS a (S k) in (Probed :: Spawned :: actions, outcome)
      end
  end.
Definition connect_with_capacity (a : Answers) : list Action * result Peer :=
  match an_prepare a with
  | Err e => ([], Err e)
  | Ok _ =>
      match an_existing a 0 with
      | Err e => ([Probed], Err e)
      | Ok (Some peer) => ([Probed], Ok peer)
      | Ok None =>
          let '(actions, k, outcome) := arbitrate START_ATTEMPTS a 1 0 in
          match outcome with
          | Err e => (Probed :: actions, Err e)
          | Ok (Some peer) => (Probed :: actions, Ok peer)
          | Ok None => let '(more, outcome) := start_worker a k in (Probed :: actions ++ more, outcome)
          end
      end
  end.

(** The probe of [connect]: the worker behind the socket is one of this user, and the process that
    answers the challenge. *)
Definition probe (uid : N) (stream : result Peer) (discovered : result WorkerIdentity) : result (WorkerIdentity * option Z) :=
  peer ← stream;
  ensure! pe_uid peer =? uid, "worker peer UID mismatch";
  identity ← discovered;
  ensure! match pe_pid peer with Some pid => (0 <? pid)%Z && (Z.to_N pid =? wi_pid identity) | None => true end, "worker peer PID mismatch";
  Ok (identity, pe_pid peer).

(** The end of [connect]. *)
Definition connect_end (uid : N) (outcome : result (WorkerIdentity * option Z)) (r : WorkerRouter) : WorkerRouter * result WorkerIdentity :=
  match outcome with
  | Ok (identity, pid) =>
      (with_capacities (alter (fun c => mkCapacity (wc_reservation c) (Some identity) pid) uid (wr_capacities r)) (wr_pools r) r, Ok identity)
  | Err e =>
      match wr_capacities r !! uid with
      | Some (mkCapacity reservation None _) =>
          match drop_reservations (wr_pools r) reservation with
          | Some s => (with_capacities (delete uid (wr_capacities r)) s r, Err e)
          | None => (r, panic)
          end
      | _ => (r, Err e)
      end
  end.
(** [connect] when no other user connects meanwhile. *)
Definition connect (process_exists : Z -> bool) (fresh : N) (account : SystemAccount) (outcome : result (WorkerIdentity * option Z))
    (r : WorkerRouter) : WorkerRouter * result WorkerIdentity :=
  match ensure_worker_capacity process_exists fresh account r with
  | (r, Err e) => (r, Err e)
  | (r, Ok _) => connect_end (ac_uid account) outcome r
  end.

(** ** Recovery *)

(** An entry of the directory of the users: what its name parses to, the check of the directory, the worker behind its socket, the account
    of the user and the identity that the worker proves. *)
Record UserEntry := mkUserEntry {
  ue_uid : option N; ue_directory : result (); ue_existing : result (option Peer); ue_account : result SystemAccount;
  ue_discovered : result WorkerIdentity; ue_fresh : N; ue_process_exists : Z -> bool }.
Definition recover_entry (r : WorkerRouter) (entry : UserEntry) : WorkerRouter * result () :=
  match ue_uid entry with
  | None => (r, Ok tt)
  | Some uid =>
      match (_ ← ue_directory entry; ue_existing entry) with
      | Err e => (r, Err e)
      | Ok None => (r, Ok tt)
      | Ok (Some peer) =>
          match (account ← ue_account entry; identity ← ue_discovered entry;
                 ensure! match pe_pid peer with Some pid => (0 <? pid)%Z && (Z.to_N pid =? wi_pid identity) | None => true end,
                   "worker peer PID mismatch";
                 Ok (account, identity)) with
          | Err e => (r, Err e)
          | Ok (account, identity) =>
              match ensure_worker_capacity (ue_process_exists entry) (ue_fresh entry) account r with
              | (r, Err e) => (r, Err e)
              | (r, Ok _) =>
                  match wr_capacities r !! uid with
                  | None => (r, Err "missing worker reservation")
                  | Some c => (with_capacities (<[uid := mkCapacity (wc_reservation c) (Some identity) (pe_pid peer)]> (wr_capacities r)) (wr_pools r) r, Ok tt)
                  end
              end
          end
      end
  end.
Fixpoint recover_existing (entries : list UserEntry) (r : WorkerRouter) : WorkerRouter * result () :=
  match entries with
  | [] => (r, Ok tt)
  | entry :: entries =>
      match recover_entry r entry with
      | (r, Err e) => (r, Err e)
      | (r, Ok _) => recover_existing entries r
      end
  end.
