(* ===== verification/WorkerRouterSpec.v ===== *)
(** * The workers of the gateway: accounting and start

    Admissions, conclusions and the other reservations of the gateway interleave; the invariant says what the pools
    hold in between. *)
From S2P Require Import Prelude Resources Gateway Authentication WorkerRouter.
Open Scope N_scope.

(** ** Steps *)

(** The router, and the reservations that the rest of the gateway holds. *)
Abbreviation world := (WorkerRouter * list PoolReservation)%type.
Inductive router_step : world -> world -> Prop :=
| step_ensure r o process_exists fresh account :
    wr_pools r !! fresh = None -> router_step (r, o) ((ensure_worker_capacity process_exists fresh account r).1, o)
| step_end r o uid outcome : router_step (r, o) ((connect_end uid outcome r).1, o)
| step_recover r o entry : wr_pools r !! ue_fresh entry = None -> router_step (r, o) ((recover_entry r entry).1, o)
| step_account r o fresh user s g account :
    wr_pools r !! fresh = None -> governor_account (wr_pools r) (wr_governor r) fresh user = Ok (s, g, account) ->
    router_step (r, o) (with_governor g (with_capacities (wr_capacities r) s r), o)
| step_take r o fresh user account claim s rs :
    governor_account (wr_pools r) (wr_governor r) fresh user = Ok (wr_pools r, wr_governor r, account) ->
    account_reserve (wr_pools r) account claim = (s, Returned rs) ->
    router_step (r, o) (with_capacities (wr_capacities r) s r, rs ++ o)
| step_give r o rs rest s :
    o ≡ₚ rs ++ rest -> drop_reservations (wr_pools r) rs = Some s ->
    router_step (r, o) (with_capacities (wr_capacities r) s r, rest).
Inductive router_reachable (policy : ResourcePolicy) : world -> Prop :=
| reach_start s g : governor_new ∅ 0 policy = Ok (s, g) -> router_reachable policy (mkRouter ∅ s g policy, [])
| reach_more w w' : router_reachable policy w -> router_step w w' -> router_reachable policy w'.

(** ** The invariant *)

Definition of_worker (policy : ResourcePolicy) (g : ResourceGovernor) (c : WorkerCapacity) : Prop :=
  exists user pool, gov_users g !! user = Some pool /\
    wc_reservation c = (fun id => mkReservation id (worker_capacity_claim policy)) <$> [gov_global g; pool].
Definition limits_kept (policy : ResourcePolicy) (s : PoolStore) (g : ResourceGovernor) : Prop :=
  exists p, s !! gov_global g = Some p /\ pool_limits p = rp_global policy.
Definition router_inv (policy : ResourcePolicy) (w : world) : Prop :=
  let '(r, o) := w in
  wr_policy r = policy /\ governor_wf (wr_pools r) (wr_governor r) /\ limits_kept policy (wr_pools r) (wr_governor r) /\
  pool_inv (mkPoolSystem (wr_pools r) (bag wc_reservation (wr_capacities r) ++ o)) /\
  map_Forall (fun _ c => of_worker policy (wr_governor r) c) (wr_capacities r).

(** *** Pools *)

Lemma governor_wf_dom s s' g : (forall id, is_Some (s' !! id) <-> is_Some (s !! id)) -> governor_wf s g -> governor_wf s' g.
Proof. intros Hd (Hg & Hu & Hi). split_and!; [by apply Hd| |done]. intros u id Hid. destruct (Hu u id Hid). split; [by apply Hd|done]. Qed.
Definition same_limits (s s' : PoolStore) : Prop :=
  forall id p, s !! id = Some p -> exists p', s' !! id = Some p' /\ pool_limits p' = pool_limits p.
Lemma same_limits_trans s1 s2 s3 : same_limits s1 s2 -> same_limits s2 s3 -> same_limits s1 s3.
Proof. intros H1 H2 id p Hp. destruct (H1 _ _ Hp) as (p' & Hp' & <-). by apply H2. Qed.
Lemma drop_same_limits s rs s' : drop_reservations s rs = Some s' -> same_limits s s'.
Proof.
  revert s. induction rs as [|r rs IH]; intros s Hd; cbn [drop_reservations] in Hd; [injection Hd as <-; intros id p; eauto|].
  opt_inv Hd. eapply same_limits_trans; [|by apply IH]. unfold pool_drop in *.
  intros id p Hp. destruct (decide (res_pool r = id)) as [<-|Hne]; [|rewrite lookup_insert_ne by done; eauto].
  rewrite lookup_insert_eq. eexists. split; [done|]. destruct (claim_checked_sub _ _); [|done]. by simplify_eq/=.
Qed.
Lemma reserve_same_limits s account claim s' rs :
  account_reserve_post s account claim (s', Returned rs) -> same_limits s s'.
Proof.
  intros (_ & Hin & Hout & _) id p Hp. destruct (decide (id ∈ account)) as [Hid|Hid]; [|rewrite Hout by done; eauto].
  destruct (Hin _ Hid) as (p0 & Hp0 & -> & _). assert (p0 = p) as -> by congruence. by eexists.
Qed.
Lemma limits_kept_same policy s s' g : same_limits s s' -> limits_kept policy s g -> limits_kept policy s' g.
Proof. intros Hs (p & Hp & Hl). destruct (Hs _ _ Hp) as (p' & Hp' & Hl'). exists p'. split; [done|congruence]. Qed.

Lemma subseteq_same_limits (s s' : PoolStore) : s ⊆ s' -> same_limits s s'.
Proof. intros Hs id p Hp. exists p. split; [by eapply lookup_weaken|done]. Qed.

(** Accounts: the global pool and the one of the user, which may be new. *)
Lemma governor_account_inv s g fresh user s' g' account live :
  governor_wf s g -> s !! fresh = None -> pool_inv (mkPoolSystem s live) -> governor_account s g fresh user = Ok (s', g', account) ->
  governor_wf s' g' /\ pool_inv (mkPoolSystem s' live) /\ s ⊆ s' /\ gov_global g' = gov_global g /\
  (forall u id, gov_users g !! u = Some id -> gov_users g' !! u = Some id) /\
  exists pool, gov_users g' !! user = Some pool /\ account = [gov_global g'; pool].
Proof.
  intros Hwf Hf Hinv Ha. destruct (governor_account_wf _ _ _ _ _ _ _ Hwf Hf Ha) as (Hwf' & pool & Hpool & ->).
  split; [done|]. unfold governor_account in Ha. destruct (negb _); [|done]. destruct (gov_users g !! user) as [p|] eqn:Hu.
  - injection Ha as <- <- _. split; [done|]. split; [done|]. split; [done|]. split; [done|]. by exists pool.
  - destruct (pool_new _ _) as [p|e] eqn:Hn; cbn [mbind result_bind] in Ha; [|done]. injection Ha as <- <- _. cbn [gov_global gov_users] in *.
    split; [|split; [|split; [done|split]]].
    + exact (pool_inv_step (mkPoolSystem s live) _ Hinv (Resources.step_create (mkPoolSystem s live) fresh _ _ p Hf Hn)).
    + by apply insert_subseteq.
    + intros u id Hid. rewrite lookup_insert_ne; [done|]. intros ->. congruence.
    + by exists pool.
Qed.
Lemma account_reservable s g user pool :
  governor_wf s g -> gov_users g !! user = Some pool ->
  NoDup [gov_global g; pool] /\ forall id, id ∈ [gov_global g; pool] -> is_Some (s !! id).
Proof.
  intros (Hg & Hu & _) Hp. destruct (Hu _ _ Hp) as [Hs Hne]. split.
  - apply NoDup_cons. split; [|apply NoDup_singleton]. by intros ?%list_elem_of_singleton.
  - intros id [->|Hid%list_elem_of_singleton]%elem_of_cons; by subst.
Qed.
Lemma of_worker_mono policy g g' c :
  gov_global g' = gov_global g -> (forall u id, gov_users g !! u = Some id -> gov_users g' !! u = Some id) ->
  of_worker policy g c -> of_worker policy g' c.
Proof. intros Hg Hu (user & pool & Hp & Hc). exists user, pool. rewrite Hg. split; [by apply Hu|done]. Qed.

(** *** Admission *)

Definition survivors (process_exists : Z -> bool) (r : WorkerRouter) : gmap N WorkerCapacity :=
  filter (fun kv : N * WorkerCapacity => ~ (dead process_exists kv.2 = true)) (wr_capacities r).
Lemma reap_inv policy process_exists r o :
  router_inv policy (r, o) ->
  exists s, reap process_exists r = Some (with_capacities (survivors process_exists r) s r) /\
    router_inv policy (with_capacities (survivors process_exists r) s r, o) /\ forall id, is_Some (s !! id) <-> is_Some (wr_pools r !! id).
Proof.
  intros (Hp & Hwf & Hl & Hinv & Hw). unfold reap.
  set (gone := filter (fun kv : N * WorkerCapacity => dead process_exists kv.2 = true) (wr_capacities r)).
  destruct (drop_reservations_inv (wr_pools r) (bag wc_reservation gone) (bag wc_reservation (survivors process_exists r) ++ o)) as (s & Hs & Hi & Hd).
  { eapply pool_inv_perm; [|exact Hinv]. rewrite app_assoc. f_equiv.
    apply (bag_filter wc_reservation (fun kv : N * WorkerCapacity => dead process_exists kv.2 = true)). }
  exists s. rewrite Hs. cbn [mbind option_bind]. split; [done|]. split; [|exact Hd]. split_and!; cbn.
  - done.
  - by eapply governor_wf_dom.
  - eapply limits_kept_same; [by eapply drop_same_limits|done].
  - exact Hi.
  - intros uid c Hc. apply map_lookup_filter_Some in Hc as [Hc _]. by apply (Hw uid).
Qed.

Lemma governor_account_no_panic s g fresh user : governor_account s g fresh user <> panic.
Proof. unfold governor_account, pool_new, limits_validate. no_panic. Qed.

Lemma ensure_inv policy process_exists fresh account r o :
  wr_pools r !! fresh = None -> router_inv policy (r, o) ->
  let '(r', outcome) := ensure_worker_capacity process_exists fresh account r in
  router_inv policy (r', o) /\ outcome <> panic /\
  match outcome with
  | Ok _ => exists c, wr_capacities r' !! ac_uid account = Some c /\
      match survivors process_exists r !! ac_uid account with
      | Some c' => c = c'
      | None => wc_identity c = None /\ exists s r0, drop_reservations (wr_pools r') (wc_reservation c) = Some s /\
          reap process_exists r = Some r0 /\ wr_pools r0 ⊆ s
      end /\ delete (ac_uid account) (wr_capacities r') = delete (ac_uid account) (survivors process_exists r)
  | Err _ => wr_capacities r' = survivors process_exists r /\ survivors process_exists r !! ac_uid account = None /\ exists r0, reap process_exists r = Some r0 /\ wr_pools r0 ⊆ wr_pools r'
  end.
Proof.
  intros Hf Hinv. destruct (reap_inv _ process_exists _ _ Hinv) as (s0 & Hr & (Hp & Hwf & Hl & Hi & Hw) & Hd). unfold ensure_worker_capacity. rewrite Hr.
  cbn [with_capacities with_governor wr_capacities wr_pools wr_governor wr_policy] in *.
  destruct (survivors process_exists r !! ac_uid account) as [c|] eqn:Hc.
  { split; [by split_and!|]. split; [done|]. by exists c. }
  assert (Hf0 : s0 !! fresh = None).
  { destruct (s0 !! fresh) eqn:E; [|done]. destruct (proj1 (Hd fresh)) as [? Hx]; [by rewrite E|]. congruence. }
  pose proof (governor_account_no_panic s0 (wr_governor r) fresh (ac_username account)) as Hnp.
  destruct (governor_account s0 _ fresh _) as [[[s g] pools]|e] eqn:Ha.
  2:{ split; [by split_and!|]. split; [intros [= ->]; by apply Hnp|]. split; [done|]. split; [done|]. by eexists. }
  destruct (governor_account_inv _ _ _ _ _ _ _ _ Hwf Hf0 Hi Ha) as (Hwf' & Hi' & Hsl & Hgg & Hmono & pool & Hpool & ->).
  destruct (account_reservable _ _ _ _ Hwf' Hpool) as [Hnd Hex].
  assert (Hl' : limits_kept policy s g).
  { destruct Hl as (p & Hp0 & Hp1). destruct (subseteq_same_limits _ _ Hsl _ _ Hp0) as (p' & Hp' & Hlim). exists p'. rewrite Hgg. split; [done|congruence]. }
  assert (Hw' : map_Forall (fun _ c => of_worker policy g c) (survivors process_exists r)).
  { intros uid c Hcu. eapply of_worker_mono; [exact Hgg|exact Hmono|]. by apply (Hw uid). }
  pose proof (account_reserve_inv s _ (worker_capacity_claim (wr_policy r)) _ Hnd Hex Hi') as Hres.
  pose proof (account_reserve_spec s _ (worker_capacity_claim (wr_policy r)) Hnd Hex) as Hspec.
  destruct (account_reserve s _ _) as [s1 [rs|q|]]; [| |done].
  - destruct Hres as [Hi1 Hdom]. split; [|split; [done|]].
    + split_and!; cbn; [done|by eapply governor_wf_dom|eapply limits_kept_same; [by eapply reserve_same_limits|done]| |].
      * eapply pool_inv_perm; [|exact Hi1]. rewrite bag_insert by done. cbn. solve_Permutation.
      * apply map_Forall_insert_2; [|done]. exists (ac_username account), pool. split; [done|]. destruct Hspec as [-> _]. by rewrite Hp.
    + eexists. split; [apply lookup_insert_eq|]. split; [|cbn; by rewrite delete_insert_eq].
      split; [done|]. destruct Hspec as (_ & _ & _ & Hback). exists s. by eexists.
  - subst s1. split; [by split_and!|]. split; [done|]. split; [done|]. split; [done|]. by eexists.
Qed.

(** *** Conclusion *)

Lemma identify_inv policy r o uid c identity pid :
  router_inv policy (r, o) -> wr_capacities r !! uid = Some c ->
  router_inv policy (with_capacities (<[uid := mkCapacity (wc_reservation c) identity pid]> (wr_capacities r)) (wr_pools r) r, o).
Proof.
  intros (Hp & Hwf & Hl & Hi & Hw) Hc. split_and!; cbn; [done..| |].
  - eapply pool_inv_perm; [|exact Hi]. by rewrite (bag_update wc_reservation _ _ c) by done.
  - apply map_Forall_insert_2; [exact (Hw uid c Hc)|done].
Qed.
Lemma connect_end_inv policy uid outcome r o :
  router_inv policy (r, o) ->
  let '(r', result) := connect_end uid outcome r in
  router_inv policy (r', o) /\ result = (fst <$> outcome) /\
  match outcome with
  | Ok (identity, pid) =>
      wr_capacities r' = alter (fun c => mkCapacity (wc_reservation c) (Some identity) pid) uid (wr_capacities r) /\ wr_pools r' = wr_pools r
  | Err _ =>
      match wr_capacities r !! uid with
      | Some (mkCapacity reservation None _) =>
          wr_capacities r' = delete uid (wr_capacities r) /\ drop_reservations (wr_pools r) reservation = Some (wr_pools r')
      | _ => r' = r
      end
  end.
Proof.
  intros Hinv. assert (Hinv' := Hinv). destruct Hinv' as (Hp & Hwf & Hl & Hi & Hw). unfold connect_end. destruct outcome as [[identity pid]|e].
  - split; [|done]. destruct (wr_capacities r !! uid) as [c|] eqn:Hc.
    + assert (Ha : alter (fun c => mkCapacity (wc_reservation c) (Some identity) pid) uid (wr_capacities r) =
                   <[uid := mkCapacity (wc_reservation c) (Some identity) pid]> (wr_capacities r)).
      { apply map_eq. intros i. destruct (decide (i = uid)) as [->|Hne]; [by rewrite lookup_alter_eq, lookup_insert_eq, Hc|].
        by rewrite lookup_alter_ne, lookup_insert_ne. }
      rewrite Ha. by apply identify_inv.
    + split_and!; cbn; [done..| |]; rewrite (alter_id' _ _ _) by (intros; congruence); done.
  - destruct (wr_capacities r !! uid) as [[reservation [identity|] pid]|] eqn:Hc; [by split|..|by split].
    destruct (drop_reservations_inv (wr_pools r) reservation (bag wc_reservation (delete uid (wr_capacities r)) ++ o)) as (s & Hs & Hi' & Hd).
    { eapply pool_inv_perm; [|exact Hi]. rewrite (bag_delete wc_reservation _ _ _ Hc). by rewrite app_assoc. }
    rewrite Hs. split; [|done]. split_and!; cbn; [done|by eapply governor_wf_dom|eapply limits_kept_same; [by eapply drop_same_limits|done]|done|].
    by apply map_Forall_delete.
Qed.

(** *** Recovery *)

Lemma recover_inv policy r o entry :
  wr_pools r !! ue_fresh entry = None -> router_inv policy (r, o) ->
  let '(r', outcome) := recover_entry r entry in
  router_inv policy (r', o) /\ (outcome = Ok tt -> forall uid peer account identity,
    ue_uid entry = Some uid -> ue_existing entry = Ok (Some peer) -> ue_account entry = Ok account -> ac_uid account = uid ->
    ue_discovered entry = Ok identity ->
    exists reservation, wr_capacities r' !! uid = Some (mkCapacity reservation (Some identity) (pe_pid peer)) /\
      delete uid (wr_capacities r') = delete uid (survivors (ue_process_exists entry) r)).
Proof.
  intros Hf Hinv. unfold recover_entry. destruct (ue_uid entry) as [uid|]; [|done].
  destruct (ue_directory entry) as [[]|e]; cbn [mbind result_bind]; [|done].
  destruct (ue_existing entry) as [[peer|]|e]; [|done..].
  destruct (ue_account entry) as [account|e]; cbn [mbind result_bind]; [|done].
  destruct (ue_discovered entry) as [identity|e]; cbn [mbind result_bind]; [|done].
  destruct (match pe_pid peer with Some _ => _ | None => _ end); [|done].
  pose proof (ensure_inv policy (ue_process_exists entry) (ue_fresh entry) account r o Hf Hinv) as H.
  destruct (ensure_worker_capacity _ _ _ _) as [r1 [[]|e]]; destruct H as (Hinv1 & _ & Hcaps); [|done].
  destruct (wr_capacities r1 !! uid) as [c|] eqn:Hc; [|done]. split; [by apply identify_inv|].
  intros _ u p a i [= <-] [= <-] [= <-] Hu [= <-]. exists (wc_reservation c). cbn [wr_capacities with_capacities]. rewrite lookup_insert_eq.
  split; [done|]. rewrite delete_insert_eq. destruct Hcaps as (_ & _ & _ & Hdel). by rewrite <- Hu.
Qed.

(** *** Every reachable state *)

Lemma pools_inv policy r o s o' :
  router_inv policy (r, o) -> (forall id, is_Some (s !! id) <-> is_Some (wr_pools r !! id)) -> same_limits (wr_pools r) s ->
  pool_inv (mkPoolSystem s (bag wc_reservation (wr_capacities r) ++ o')) -> router_inv policy (with_capacities (wr_capacities r) s r, o').
Proof.
  intros (Hp & Hwf & Hl & _ & Hw) Hd Hs Hi. split_and!; cbn; [done|by eapply governor_wf_dom|by eapply limits_kept_same|done|done].
Qed.
Lemma router_inv_step policy w w' : router_inv policy w -> router_step w w' -> router_inv policy w'.
Proof.
  intros Hinv Hs. destruct Hs as [r o process_exists fresh account Hf|r o uid outcome|r o entry Hf|r o fresh user s g account Hf Ha|r o fresh user account claim s rs Ha Hr|r o rs rest s Ho Hd].
  - pose proof (ensure_inv policy process_exists fresh account r o Hf Hinv) as H. destruct (ensure_worker_capacity _ _ _ _). by destruct H.
  - pose proof (connect_end_inv policy uid outcome r o Hinv) as H. destruct (connect_end _ _ _). by destruct H.
  - pose proof (recover_inv policy r o entry Hf Hinv) as H. destruct (recover_entry r entry). by destruct H.
  - destruct Hinv as (Hp & Hwf & (p & Hg & Hl) & Hi & Hw).
    destruct (governor_account_inv _ _ _ _ _ _ _ _ Hwf Hf Hi Ha) as (Hwf' & Hi' & Hsl & Hgg & Hmono & _).
    split_and!; cbn; [done|done| |done|].
    + destruct (subseteq_same_limits _ _ Hsl _ _ Hg) as (p' & Hp' & Hlim). exists p'. rewrite Hgg. split; [done|congruence].
    + intros uid c Hc. eapply of_worker_mono; [done|done|]. by apply (Hw uid).
  - assert (Hinv' := Hinv). destruct Hinv' as (_ & Hwf & _ & Hi & _).
    assert (Hacc : exists pool, gov_users (wr_governor r) !! user = Some pool /\ account = [gov_global (wr_governor r); pool]).
    { unfold governor_account in Ha. destruct (negb _); [|done]. destruct (gov_users _ !! user) as [pool|] eqn:Hu; [injection Ha as <-; by exists pool|].
      destruct (pool_new _ _); cbn [mbind result_bind] in Ha; [|done]. injection Ha as _ Hg _.
      exfalso. assert (Hx : gov_users (wr_governor r) !! user = Some fresh) by (rewrite <- Hg; cbn; apply lookup_insert_eq). congruence. }
    destruct Hacc as (pool & Hpool & ->). destruct (account_reservable _ _ _ _ Hwf Hpool) as [Hnd Hex].
    pose proof (account_reserve_inv (wr_pools r) _ claim _ Hnd Hex Hi) as Hres.
    pose proof (account_reserve_spec (wr_pools r) _ claim Hnd Hex) as Hspec. rewrite Hr in Hres, Hspec. destruct Hres as [Hi' Hdom].
    apply (pools_inv policy r o); [done|exact Hdom|by eapply reserve_same_limits|]. eapply pool_inv_perm; [|exact Hi']. solve_Permutation.
  - assert (Hinv' := Hinv). destruct Hinv' as (_ & _ & _ & Hi & _).
    destruct (drop_reservations_inv (wr_pools r) rs (bag wc_reservation (wr_capacities r) ++ rest)) as (s' & Hs' & Hi' & Hdom).
    { eapply pool_inv_perm; [|exact Hi]. rewrite Ho. solve_Permutation. }
    assert (s' = s) as -> by congruence. by apply (pools_inv policy r o); [|exact Hdom|eapply drop_same_limits|].
Qed.
Lemma router_invariant policy w : router_reachable policy w -> router_inv policy w.
Proof.
  induction 1 as [s g Hn|w w' _ IH Hs]; [|by eapply router_inv_step]. unfold governor_new in Hn. ok_inv Hn. split_and!; cbn.
  - done.
  - split_and!; [apply lookup_insert_is_Some'; by left| |]; cbn; intros u id; [by rewrite lookup_empty|]. intros id' Hid. by rewrite lookup_empty in Hid.
  - eexists. rewrite lookup_insert_eq. split; [done|]. match goal with H : pool_new _ _ = Ok _ |- _ => unfold pool_new in H; ok_inv H; done end.
  - match goal with H : pool_new _ _ = Ok ?p |- _ => exact (pool_inv_step pool_init _ pool_inv_init (Resources.step_create pool_init 0 _ _ p (lookup_empty 0) H)) end.
  - apply map_Forall_empty.
Qed.

(** Workers are counted by the global pool. *)
Lemma workers_bounded policy r o :
  router_inv policy (r, o) -> N.of_nat (size (wr_capacities r)) <= rl_workers (rp_global policy).
Proof.
  intros (Hp & Hwf & (p & Hg & Hl) & [Hu _] & Hw). cbn [ps_pools ps_live] in Hu. destruct (Hu _ _ Hg) as [Husage Hle].
  rewrite Husage, live_claims_app in Hle. assert (Hadd : additive rc_workers) by done.
  assert (Hworkers := proj1 (proj2 (proj2 Hle))). rewrite additive_sum_app in Hworkers by done.
  rewrite (bag_count wc_reservation rc_workers 1 (gov_global (wr_governor r))) in Hworkers.
  - cbn in Hworkers. rewrite Hl in Hworkers. lia.
  - done.
  - intros uid c Hc. destruct (Hw uid c Hc) as (user & pool & Hpool & Hres).
    destruct (account_reservable _ _ _ _ Hwf Hpool) as [Hnd _]. exists [gov_global (wr_governor r); pool]. split; [done|]. split; [left|].
    exists (worker_capacity_claim policy). by split.
Qed.

(** *** Recovery of every worker *)

(** Each entry names the account of its directory, nobody dies during the recovery, and the handles of new pools are
    new. *)
Definition entry_ok (entry : UserEntry) : Prop :=
  (forall uid account, ue_uid entry = Some uid -> ue_account entry = Ok account -> ac_uid account = uid) /\
  forall pid, ue_process_exists entry pid = true.
Fixpoint fresh_pools (entries : list UserEntry) (r : WorkerRouter) : Prop :=
  match entries with
  | [] => True
  | entry :: entries => wr_pools r !! ue_fresh entry = None /\ fresh_pools entries (recover_entry r entry).1
  end.
Lemma survivors_all process_exists r : (forall pid, process_exists pid = true) -> survivors process_exists r = wr_capacities r.
Proof.
  intros Hall. apply map_filter_id. intros uid c _. unfold dead. cbn. destruct (wc_peer_pid c) as [pid|]; [|done]. by rewrite Hall.
Qed.
Lemma recover_others policy r o entry r' other :
  wr_pools r !! ue_fresh entry = None -> router_inv policy (r, o) -> entry_ok entry ->
  recover_entry r entry = (r', Ok tt) -> ue_uid entry <> Some other -> wr_capacities r' !! other = wr_capacities r !! other.
Proof.
  intros Hf Hinv [Huid Hall] Hr Hne. pose proof (recover_inv policy r o entry Hf Hinv) as H. rewrite Hr in H. destruct H as [_ Hc].
  unfold recover_entry in Hr. destruct (ue_uid entry) as [uid|] eqn:Hu; [|by injection Hr as <-].
  destruct (ue_directory entry) as [[]|e]; cbn [mbind result_bind] in Hr; [|done].
  destruct (ue_existing entry) as [[peer|]|e] eqn:He; [|by injection Hr as <-|done].
  destruct (ue_account entry) as [account|e] eqn:Ha; cbn [mbind result_bind] in Hr; [|done].
  destruct (ue_discovered entry) as [identity|e] eqn:Hd; cbn [mbind result_bind] in Hr; [|done].
  destruct (Hc eq_refl uid peer account identity eq_refl eq_refl eq_refl (Huid _ _ eq_refl eq_refl) eq_refl) as (_ & _ & Hdel).
  rewrite survivors_all in Hdel by done. rewrite <- (lookup_delete_ne _ uid other), Hdel by congruence. by apply lookup_delete_ne; congruence.
Qed.
Lemma recovery_complete policy r o entries r' :
  router_reachable policy (r, o) -> fresh_pools entries r -> Forall entry_ok entries -> NoDup (omap ue_uid entries) ->
  recover_existing entries r = (r', Ok tt) ->
  router_reachable policy (r', o) /\
  (forall other, other ∉ omap ue_uid entries -> wr_capacities r' !! other = wr_capacities r !! other) /\
  forall entry uid peer account identity, entry ∈ entries -> ue_uid entry = Some uid -> ue_existing entry = Ok (Some peer) ->
    ue_account entry = Ok account -> ue_discovered entry = Ok identity ->
    exists reservation, wr_capacities r' !! uid = Some (mkCapacity reservation (Some identity) (pe_pid peer)).
Proof.
  revert r. induction entries as [|entry entries IH]; intros r Hr Hf Hok Hnd Hrec; cbn [recover_existing] in Hrec.
  { injection Hrec as <-. split_and!; [done|done|]. intros entry ? ? ? ? Hin. by apply elem_of_nil in Hin. }
  destruct Hf as [Hf Hfs]. apply Forall_cons in Hok as [Hentry Hok]. pose proof (router_invariant _ _ Hr) as Hinv.
  pose proof (recover_inv policy r o entry Hf Hinv) as Hone. pose proof (reach_more policy _ _ Hr (step_recover r o entry Hf)) as Hr1.
  pose proof (fun r1 other => recover_others policy r o entry r1 other Hf Hinv Hentry) as Hothers.
  destruct (recover_entry r entry) as [r1 [[]|e]]; [|done]. cbn [fst] in *. destruct Hone as [_ Hone].
  assert (Hnd' : NoDup (omap ue_uid entries) /\ forall uid, ue_uid entry = Some uid -> uid ∉ omap ue_uid entries).
  { cbn in Hnd. destruct (ue_uid entry) as [uid|]; [|by split]. apply NoDup_cons in Hnd as [Hn Hnd]. split; [done|]. by intros ? [= <-]. }
  destruct Hnd' as [Hnd' Hnot]. destruct (IH r1 Hr1 Hfs Hok Hnd' Hrec) as (Hr' & Hsame & Hall). split_and!; [done| |].
  - intros other Hother. cbn in Hother. rewrite Hsame.
    + apply Hothers; [done|]. intros Hu. rewrite Hu in Hother. apply Hother. left.
    + intros Hin. apply Hother. destruct (ue_uid entry); [by right|done].
  - intros e uid peer account identity [->|Hin]%elem_of_cons Hu He Ha Hd; [|by eapply Hall].
    destruct (Hone eq_refl _ _ _ _ Hu He Ha (proj1 Hentry _ _ Hu Ha) Hd) as (reservation & Hc & _).
    exists reservation. rewrite Hsame; [done|by apply Hnot].
Qed.

(** ** Starting a worker *)

Section start.
Variable a : Answers.

Definition is_spawned (x : Action) : bool := match x with Spawned => true | _ => false end.
Definition spawns (l : list Action) : nat := length (List.filter is_spawned l).
Lemma spawns_app l k : spawns (l ++ k) = (spawns l + spawns k)%nat.
Proof. unfold spawns. by rewrite List.filter_app, length_app. Qed.

(** The lock was taken at attempt [i], after as many probes that found no worker. *)
Lemma arbitrate_spec fuel k i :
  let '(actions, k', outcome) := arbitrate fuel a k i in
  spawns actions = 0%nat /\ (length actions <= 3 * fuel + 1)%nat /\ (k <= k')%nat /\
  match outcome with
  | Ok (Some peer) => exists j, an_existing a j = Ok (Some peer)
  | Ok None => exists j, (j < fuel)%nat /\ an_lock a (i + j) = Ok tt /\ k' = (k + j)%nat /\ last actions = Some LockTried
  | Err _ => True
  end.
Proof.
  revert k i. induction fuel as [|fuel IH]; intros k i; cbn [arbitrate]; [by split_and!; cbn; try lia|].
  destruct (an_lock a i) as [[]|e] eqn:Hl.
  { split_and!; cbn; try lia. exists 0%nat. split_and!; try lia; [by rewrite Nat.add_0_r|done]. }
  destruct (an_existing a k) as [[peer|]|e'] eqn:He; [split_and!; cbn; try lia; by exists k| |by split_and!; cbn; try lia].
  destruct (an_lock_path a i); [|by split_and!; cbn; try lia].
  specialize (IH (S k) (S i)). destruct (arbitrate fuel a (S k) (S i)) as [[actions k'] outcome].
  destruct IH as (Hs & Hlen & Hk & Ho). split_and!; [done|cbn; lia|lia|].
  destruct outcome as [[peer|]|]; [done| |done]. destruct Ho as (j & Hj & Hlock & -> & Hlast). exists (S j).
  replace (i + S j)%nat with (S i + j)%nat by lia. split_and!; [lia|done|lia|]. by destruct actions.
Qed.
Lemma await_spec fuel k :
  let '(actions, outcome) := await_socket fuel a k in
  spawns actions = 0%nat /\ (length actions <= 2 * fuel)%nat /\
  match outcome with Ok peer => exists j, an_existing a j = Ok (Some peer) | Err _ => True end.
Proof.
  revert k. induction fuel as [|fuel IH]; intros k; cbn [await_socket]; [by split_and!|].
  destruct (an_existing a k) as [[peer|]|e] eqn:He; [split_and!; cbn; try lia; by exists k| |split_and!; cbn; try lia; done].
  specialize (IH (S k)). destruct (await_socket fuel a (S k)) as [actions outcome]. destruct IH as (? & ? & ?). split_and!; [done|cbn; lia|done].
Qed.
(** A worker that appears in time is found. *)
Lemma await_finds fuel k j peer :
  (j < fuel)%nat -> (forall i, (i < j)%nat -> an_existing a (k + i) = Ok None) -> an_existing a (k + j) = Ok (Some peer) ->
  (await_socket fuel a k).2 = Ok peer.
Proof.
  revert k j. induction fuel as [|fuel IH]; intros k j Hj Hn Hf; [lia|]. cbn [await_socket]. destruct j as [|j].
  { rewrite Nat.add_0_r in Hf. by rewrite Hf. }
  pose proof (Hn 0%nat ltac:(lia)) as H0. rewrite Nat.add_0_r in H0. rewrite H0.
  specialize (IH (S k) j ltac:(lia)). destruct (await_socket fuel a (S k)) as [actions outcome]. apply IH.
  - intros i Hi. replace (S k + i)%nat with (k + S i)%nat by lia. apply Hn. lia.
  - by replace (S k + j)%nat with (k + S j)%nat by lia.
Qed.
Lemma start_spec k :
  let '(actions, outcome) := start_worker a k in
  (length actions <= 202)%nat /\ (spawns actions <= 1)%nat /\ (forall peer, outcome = Ok peer -> exists j, an_existing a j = Ok (Some peer)) /\
  (spawns actions = 1%nat -> exists after, actions = [Probed; Spawned] ++ after /\ an_existing a k = Ok None).
Proof.
  unfold start_worker. destruct (an_existing a k) as [[peer|]|e] eqn:He; [split_and!; cbn; try lia; naive_solver| |split_and!; cbn; try lia; done].
  destruct (an_spawn a) as [[]|e]; [|split_and!; cbn; [lia|lia|done|eauto]].
  pose proof (await_spec START_ATTEMPTS (S k)) as Ha. destruct (await_socket START_ATTEMPTS a (S k)) as [actions outcome].
  destruct Ha as (Hs & Hl & Ho). unfold START_ATTEMPTS in Hl. unfold spawns in *. split_and!; [cbn; lia|cbn; lia| |eauto].
  intros peer ->. exact Ho.
Qed.
End start.

(** ** Properties *)

(** C17: capacities are accounted for.  However admissions, conclusions, new accounts and the other reservations
    of the gateway interleave, and whichever processes die meanwhile: there are never more workers on the books than the global limit allows;
    every pool holds exactly the sum of what workers and connections hold and stays within its limits; no admission and
    no conclusion panics; a probe that fails leaves the capacity of an established worker alone; and an admission takes
    away only the capacities of processes that are gone. *)
Theorem workers_accounted policy r o :
  router_reachable policy (r, o) ->
  N.of_nat (size (wr_capacities r)) <= rl_workers (rp_global policy) /\
  (forall id p, wr_pools r !! id = Some p ->
     pool_usage p = claim_sum (live_claims id (bag wc_reservation (wr_capacities r) ++ o)) /\ claim_le (pool_usage p) (as_claim (pool_limits p))) /\
  (forall process_exists fresh account, wr_pools r !! fresh = None ->
     let '(r', outcome) := ensure_worker_capacity process_exists fresh account r in
     outcome <> panic /\
     forall uid c, uid <> ac_uid account -> wr_capacities r' !! uid = Some c <-> wr_capacities r !! uid = Some c /\ dead process_exists c = false) /\
  (forall uid e, (connect_end uid (Err e) r).2 = Err e /\
     forall c, wr_capacities r !! uid = Some c -> wc_identity c <> None -> (connect_end uid (Err e) r).1 = r).
Proof.
  intros Hinv%router_invariant. split; [by eapply workers_bounded|]. split.
  { destruct Hinv as (_ & _ & _ & [Hu _] & _). exact Hu. }
  split.
  - intros process_exists fresh account Hf. pose proof (ensure_inv _ process_exists _ account _ _ Hf Hinv) as H.
    destruct (ensure_worker_capacity _ _ _ _) as [r' outcome]. destruct H as (_ & Hnp & Hc). split; [done|].
    assert (Hs : forall uid, uid <> ac_uid account -> wr_capacities r' !! uid = survivors process_exists r !! uid).
    { intros uid Hne. destruct outcome as [[]|e].
      - destruct Hc as (c & _ & _ & Hdel). rewrite <- (lookup_delete_ne _ (ac_uid account)), Hdel by done. by apply lookup_delete_ne.
      - by destruct Hc as (-> & _). }
    intros uid c Hne. rewrite Hs by done. unfold survivors. rewrite map_lookup_filter_Some. cbn. by rewrite not_true_iff_false.
  - intros uid e. pose proof (connect_end_inv _ uid (Err e) _ _ Hinv) as H. destruct (connect_end uid (Err e) r) as [r' result]. cbn [fst snd].
    destruct H as (_ & -> & Hc). split; [done|]. intros c Hcap Hid. rewrite Hcap in Hc. by destruct c as [? [?|] ?].
Qed.

(** A connection to a worker is all or nothing.  When no other user connects meanwhile, a connection that
    succeeds leaves the worker on the books under the identity it proved and the process the kernel named; one that fails leaves an
    established worker as it was, and otherwise nothing: what it reserved is returned to the unit; and nobody else's
    capacity changes, except that of processes that are gone. *)
Theorem connect_exact policy r o process_exists fresh account outcome :
  router_reachable policy (r, o) -> wr_pools r !! fresh = None ->
  let '(r', result) := connect process_exists fresh account outcome r in
  (forall uid c, uid <> ac_uid account -> wr_capacities r' !! uid = Some c <-> wr_capacities r !! uid = Some c /\ dead process_exists c = false) /\
  match result with
  | Ok identity => exists pid reservation, outcome = Ok (identity, pid) /\
      wr_capacities r' !! ac_uid account = Some (mkCapacity reservation (Some identity) pid)
  | Err _ =>
      match survivors process_exists r !! ac_uid account with
      | Some (mkCapacity reservation (Some identity) pid) => wr_capacities r' !! ac_uid account = Some (mkCapacity reservation (Some identity) pid)
      | Some _ => wr_capacities r' !! ac_uid account = None
      | None => wr_capacities r' !! ac_uid account = None /\ exists r0, reap process_exists r = Some r0 /\ wr_pools r0 ⊆ wr_pools r'
      end
  end.
Proof.
  intros Hr Hf. assert (Hinv := router_invariant _ _ Hr). unfold connect.
  pose proof (ensure_inv _ process_exists _ account _ _ Hf Hinv) as H.
  destruct (ensure_worker_capacity _ _ _ _) as [r1 [[]|e]]; destruct H as (Hinv1 & _ & Hc).
  2:{ destruct Hc as (Hs & Hn & r0 & Hr0 & Hsub). rewrite Hn, Hs. split; [|by eauto].
      intros uid c Hne. unfold survivors. rewrite map_lookup_filter_Some. cbn. by rewrite not_true_iff_false. }
  destruct Hc as (c1 & Hc1 & Hold & Hdel).
  assert (Hothers : forall uid c, uid <> ac_uid account -> wr_capacities r1 !! uid = Some c <-> wr_capacities r !! uid = Some c /\ dead process_exists c = false).
  { intros uid c Hne. rewrite <- (lookup_delete_ne _ (ac_uid account)), Hdel, lookup_delete_ne by done. unfold survivors.
    rewrite map_lookup_filter_Some. cbn. by rewrite not_true_iff_false. }
  pose proof (connect_end_inv _ (ac_uid account) outcome _ _ Hinv1) as H. destruct (connect_end _ _ _) as [r' result]. destruct H as (_ & -> & Hend).
  destruct outcome as [[identity pid]|e]; cbn.
  - destruct Hend as [Hcaps _]. rewrite Hcaps. split.
    + intros uid c Hne. rewrite lookup_alter_ne by done. by apply Hothers.
    + exists pid, (wc_reservation c1). split; [done|]. by rewrite lookup_alter_eq, Hc1.
  - rewrite Hc1 in Hend. destruct c1 as [reservation [identity|] pid].
    + subst r'. split; [done|]. destruct (survivors process_exists r !! ac_uid account) as [c'|]; [|by destruct Hold]. by subst c'.
    + destruct Hend as [Hcaps Hdrop]. rewrite Hcaps. split; [intros uid c Hne; rewrite lookup_delete_ne by done; by apply Hothers|].
      rewrite lookup_delete_eq. destruct (survivors process_exists r !! ac_uid account) as [c'|]; [by subst c'|].
      split; [done|]. destruct Hold as (_ & s & r0 & Hd & Hr0 & Hsub). cbn [wc_reservation] in Hd. exists r0. split; [done|]. assert (s = wr_pools r') as -> by congruence. exact Hsub.
Qed.

(** C27: at most one worker is started, and only under the lock.  Connecting to a worker ends after a bounded number of steps;
    it starts a process at most once, directly after a probe under the lock that found none; the peer it returns
    is one that a probe found; and a worker that was started and opens its socket within the hundred probes is
    returned. *)
Theorem worker_start_exact a :
  let '(actions, outcome) := connect_with_capacity a in
  (length actions <= 504)%nat /\ (spawns actions <= 1)%nat /\
  (forall peer, outcome = Ok peer -> exists k, an_existing a k = Ok (Some peer)) /\
  (spawns actions = 1%nat -> exists before after i, actions = before ++ [LockTried; Probed; Spawned] ++ after /\ spawns before = 0%nat /\
     an_lock a i = Ok tt /\ an_existing a (S i) = Ok None) /\
  (forall j peer, an_prepare a = Ok tt -> an_lock a 0 = Ok tt -> an_spawn a = Ok tt -> (j < START_ATTEMPTS)%nat ->
     (forall i, (i < 2 + j)%nat -> an_existing a i = Ok None) -> an_existing a (2 + j) = Ok (Some peer) -> outcome = Ok peer).
Proof.
  unfold connect_with_capacity. destruct (an_prepare a) as [[]|e] eqn:Hprep; [|split_and!; cbn; try lia; done].
  destruct (an_existing a 0) as [[peer|]|e] eqn:H0.
  { split_and!; cbn; try lia; [naive_solver|]. intros j p _ _ _ _ Hn _. specialize (Hn 0%nat ltac:(lia)). congruence. }
  2:{ split_and!; cbn; try lia; [done|]. intros j p _ _ _ _ Hn _. specialize (Hn 0%nat ltac:(lia)). congruence. }
  pose proof (arbitrate_spec a START_ATTEMPTS 1 0) as Harb.
  assert (Hfirst : an_lock a 0 = Ok tt -> arbitrate START_ATTEMPTS a 1 0 = ([LockTried], 1%nat, Ok None)) by (intros Hl; unfold START_ATTEMPTS; cbn [arbitrate]; by rewrite Hl).
  destruct (arbitrate START_ATTEMPTS a 1 0) as [[actions k] [[peer|]|e]]; destruct Harb as (Hs & Hlen & _ & Ho); unfold START_ATTEMPTS in Hlen.
  - change (spawns (Probed :: actions)) with (spawns actions). rewrite Hs. split_and!; [cbn; lia|lia|naive_solver|done|].
    intros j p _ Hl. specialize (Hfirst Hl). done.
  - destruct Ho as (i & Hi & Hlock & -> & Hlast). pose proof (start_spec a (1 + i)) as Hstart.
    assert (Htail : forall j peer, an_spawn a = Ok tt -> (j < START_ATTEMPTS)%nat -> (forall i, (i < 2 + j)%nat -> an_existing a i = Ok None) ->
              an_existing a (2 + j) = Ok (Some peer) -> (start_worker a 1).2 = Ok peer).
    { intros j p Hsp Hj Hn Hf. unfold start_worker. rewrite (Hn 1%nat) by lia. rewrite Hsp.
      pose proof (await_finds a START_ATTEMPTS 2 j p Hj) as Hfound. destruct (await_socket START_ATTEMPTS a 2) as [? ?]. apply Hfound; [|done].
      intros i' Hi'. apply Hn. lia. }
    destruct (start_worker a (1 + i)) as [more outcome] eqn:Hst. destruct Hstart as (Hl & Hsp & Hok & Hone).
    assert (Hcount : spawns (Probed :: actions ++ more) = spawns more) by (change (spawns (Probed :: ?l)) with (spawns l); rewrite spawns_app; lia).
    rewrite Hcount. split_and!; [cbn; rewrite length_app; lia|done|done| |].
    + intros (after & -> & Hk)%Hone. apply last_Some in Hlast as (before & ->). exists (Probed :: before), after, i.
      rewrite spawns_app in Hs. split_and!; [cbn; by rewrite <- app_assoc|unfold spawns in *; cbn; lia|done|done].
    + intros j p _ Hl0 Hspawn Hj Hn Hf. specialize (Hfirst Hl0). injection Hfirst as _ Hi0. assert (i = 0%nat) as -> by lia.
      specialize (Htail j p Hspawn Hj Hn Hf). cbn [Nat.add] in Hst. by rewrite Hst in Htail.
  - change (spawns (Probed :: actions)) with (spawns actions). rewrite Hs. split_and!; [cbn; lia|lia|done|done|].
    intros j p _ Hl. specialize (Hfirst Hl). done.
Qed.

(** ** Witnesses *)

Definition demo_limits : ResourceLimits :=
  mkLimits 1024 8192 1 4096 16384 (16 * GIB) (32 * GIB) 256 (64 * MIB) 16384 1024 (512 * GIB).
Definition demo_policy : ResourcePolicy := mkPolicy demo_limits user_defaults (4 * MIB) 64 DEFAULT_TERMINAL_HISTORY_ROWS (8 * MIB).
Definition demo_router : WorkerRouter :=
  match governor_new ∅ 0 demo_policy with Ok (s, g) => mkRouter ∅ s g demo_policy | Err _ => mkRouter ∅ ∅ (mkGovernor 0 ∅ user_defaults) demo_policy end.
Definition demo_ann : SystemAccount := mkAccount "ann" 1 1 [] [] [].
Definition demo_bob : SystemAccount := mkAccount "bob" 2 2 [] [] [].
Definition demo_id (pid : N) : WorkerIdentity := mkIdentity 1 pid [7].
Definition demo_pending : WorkerRouter := (ensure_worker_capacity (fun _ => true) 1 demo_ann demo_router).1.
Definition demo_running : WorkerRouter := (connect_end 1 (Ok (demo_id 10, Some 10%Z)) demo_pending).1.
Lemma demo_running_reachable : router_reachable demo_policy (demo_running, []).
Proof.
  eapply reach_more; [eapply reach_more; [apply (reach_start demo_policy (wr_pools demo_router) (wr_governor demo_router))|]|].
  - vm_compute. reflexivity.
  - apply (step_ensure demo_router [] (fun _ => true) 1 demo_ann). vm_compute. reflexivity.
  - apply (step_end demo_pending [] 1 (Ok (demo_id 10, Some 10%Z))).
Qed.

Lemma workers_accounted_witness :
  size (wr_capacities demo_running) = 1%nat /\ rl_workers (rp_global demo_policy) = 1 /\
  (connect_end 1 (Err "connection reset") demo_running).1 = demo_running.
Proof.
  split; [vm_compute; reflexivity|]. split; [reflexivity|].
  apply (proj2 (proj2 (proj2 (proj2 (workers_accounted demo_policy demo_running [] demo_running_reachable))) 1 "connection reset"%string)
           (mkCapacity [mkReservation 0 (worker_capacity_claim demo_policy); mkReservation 1 (worker_capacity_claim demo_policy)] (Some (demo_id 10)) (Some 10%Z))).
  - vm_compute. reflexivity.
  - discriminate.
Defined.

(** The worker of the first user is gone, the probe of the second fails. *)
Lemma connect_exact_witness :
  wr_capacities (connect (fun _ => false) 2 demo_bob (Err "user worker did not create its control socket") demo_running).1 !! 1 = None /\
  wr_capacities (connect (fun _ => false) 2 demo_bob (Err "user worker did not create its control socket") demo_running).1 !! 2 = None.
Proof.
  pose proof (connect_exact demo_policy demo_running [] (fun _ => false) 2 demo_bob (Err "user worker did not create its control socket"%string)
                demo_running_reachable ltac:(vm_compute; reflexivity)) as H.
  assert (Hfail : is_ok (connect (fun _ => false) 2 demo_bob (Err "user worker did not create its control socket") demo_running).2 = false)
    by (vm_compute; reflexivity).
  destruct (connect _ _ _ _ _) as [r [identity|e]]; [discriminate Hfail|]. cbn [fst]. destruct H as [Hothers Hmine]. split.
  - destruct (wr_capacities r !! 1) as [c|] eqn:Hc; [|reflexivity]. apply Hothers in Hc as [Hc Hdead]; [|discriminate].
    vm_compute in Hc. injection Hc as <-. discriminate Hdead.
  - assert (Hs : survivors (fun _ => false) demo_running !! ac_uid demo_bob = None) by (vm_compute; reflexivity).
    rewrite Hs in Hmine. exact (proj1 Hmine).
Defined.

Definition demo_answers : Answers :=
  mkAnswers (Ok tt) (fun k => if (k <? 5)%nat then Ok None else Ok (Some (mkPeer 1 (Some 11%Z)))) (fun _ => Ok tt) (fun _ => true) (Ok tt).
Lemma worker_start_exact_witness : (connect_with_capacity demo_answers).2 = Ok (mkPeer 1 (Some 11%Z)).
Proof.
  pose proof (worker_start_exact demo_answers) as H. destruct (connect_with_capacity demo_answers) as [actions outcome].
  destruct H as (_ & _ & _ & _ & H). apply (H 3%nat); try reflexivity.
  - unfold START_ATTEMPTS. lia.
  - intros i Hi. unfold an_existing, demo_answers. rewrite (proj2 (Nat.ltb_lt i 5)) by lia. reflexivity.
Defined.

(** An admission of another user can reap the capacity of a worker between the admission of its user and
    the conclusion: the worker that is started instead then runs without a capacity, and with a limit of one
    worker two of them run. *)
Lemma reaped_while_probing :
  let admitted := (ensure_worker_capacity (fun _ => true) 2 demo_ann demo_running).1 in
  let other := ensure_worker_capacity (fun pid => negb (pid =? 10)%Z) 2 demo_bob admitted in
  let first := connect_end 1 (Ok (demo_id 11, Some 11%Z)) other.1 in
  let second := connect_end 2 (Ok (demo_id 12, Some 12%Z)) first.1 in
  other.2 = Ok tt /\ first.2 = Ok (demo_id 11) /\ second.2 = Ok (demo_id 12) /\
  wr_capacities second.1 !! 1 = None /\ is_Some (wr_capacities second.1 !! 2) /\ rl_workers (rp_global demo_policy) = 1.
Proof. cbv zeta. split_and!; [vm_compute; reflexivity..| |reflexivity]. eexists. vm_compute. reflexivity. Qed.
