(* ===== verification/WorkerProcess.v ===== *)
(** * The life of a worker ([worker.rs], [process_lock.rs])

    The processes of one user share a state directory.  A process that holds the lock of the directory replaces the
    socket and serves; it exits when it was empty for the idle timeout.  Processes may start at any time, several at once, and
    die at any point.  The steps of [serve_worker] are those of its system calls. *)
From S2P Require Import Prelude.
Open Scope N_scope.

(** ** The lock ([process_lock.rs]) *)

(** What [metadata] says of the file that was opened without following links. *)
Record LockFile := mkLockFile { lf_is_file : bool; lf_nlink : N; lf_uid : N; lf_mode : N }.
(** [ProcessLock::acquire]; [locked] says whether [flock] succeeds. *)
Definition acquire (effective_uid : N) (opened : result LockFile) (locked : bool) : result () :=
  metadata ← opened;
  ensure! lf_is_file metadata && (lf_nlink metadata =? 1) && (lf_uid metadata =? effective_uid) && (N.land (lf_mode metadata) 18 =? 0),
    "unsafe process lock";
  ensure! locked, "process lock is already held";
  Ok tt.

(** ** Idleness *)

(** [WorkerIdleState]; times in nanoseconds. *)
Definition WorkerIdleState : Type := option N.
Definition mark_active (idle : WorkerIdleState) : WorkerIdleState := None.
Definition observe (empty : bool) (now : N) (idle : WorkerIdleState) : WorkerIdleState :=
  if empty then match idle with Some since => Some since | None => Some now end else mark_active idle.
Definition should_exit (empty : bool) (now timeout : N) (idle : WorkerIdleState) : WorkerIdleState * bool :=
  if timeout =? 0 then (mark_active idle, false)
  else
    let idle := observe empty now idle in
    (idle, match idle with Some since => timeout <=? now - since | None => false end).
Definition MAX_WORKER_IDLE_CHECK_INTERVAL : N := 1000000000.
Definition check_interval (timeout : N) : N := N.min timeout MAX_WORKER_IDLE_CHECK_INTERVAL.

(** The loop of [serve_worker]: the running requests, the active terminals, the idle state and the clock.  [lp_busy] is the
    last moment at which the worker was not empty. *)
Record Loop := mkLoop { lp_requests : N; lp_terminals : N; lp_idle : WorkerIdleState; lp_now : N; lp_busy : option N; lp_exited : bool }.
Definition loop_start (now : N) : Loop := mkLoop 0 0 None now None false.
Definition lp_empty (l : Loop) : bool := (lp_requests l =? 0) && (lp_terminals l =? 0).
(** Whatever happens, the moment is remembered when the worker is busy. *)
Definition tracked (l : Loop) : Loop :=
  mkLoop (lp_requests l) (lp_terminals l) (lp_idle l) (lp_now l) (if lp_empty l then lp_busy l else Some (lp_now l)) (lp_exited l).
Inductive LoopEvent := Elapse (n : N) | Accept (peer_uid : N) | Completed | Tick | TerminalStarts | TerminalEnds.
Definition loop_event (expected_uid maximum_requests timeout : N) (l : Loop) (event : LoopEvent) : Loop :=
  match event with
  | Elapse n => mkLoop (lp_requests l) (lp_terminals l) (lp_idle l) (lp_now l + n) (lp_busy l) (lp_exited l)
  | Accept peer_uid =>
      if maximum_requests <=? lp_requests l then l
      else if negb (peer_uid =? 0) && negb (peer_uid =? expected_uid) then l
      else mkLoop (lp_requests l + 1) (lp_terminals l) (mark_active (lp_idle l)) (lp_now l) (lp_busy l) (lp_exited l)
  | Completed =>
      if lp_requests l =? 0 then l
      else
        let l := mkLoop (lp_requests l - 1) (lp_terminals l) (lp_idle l) (lp_now l) (lp_busy l) (lp_exited l) in
        mkLoop (lp_requests l) (lp_terminals l) (observe (lp_empty l) (lp_now l) (lp_idle l)) (lp_now l) (lp_busy l) (lp_exited l)
  | Tick =>
      let '(idle, exit) := should_exit (lp_empty l) (lp_now l) timeout (lp_idle l) in
      mkLoop (lp_requests l) (lp_terminals l) idle (lp_now l) (lp_busy l) exit
  | TerminalStarts =>
      (* a terminal is spawned by a request *)
      if lp_requests l =? 0 then l else mkLoop (lp_requests l) (lp_terminals l + 1) (lp_idle l) (lp_now l) (lp_busy l) (lp_exited l)
  | TerminalEnds => mkLoop (lp_requests l) (lp_terminals l - 1) (lp_idle l) (lp_now l) (lp_busy l) (lp_exited l)
  end.
Definition loop_step (expected_uid maximum_requests timeout : N) (l : Loop) (event : LoopEvent) : Loop :=
  if lp_exited l then l else tracked (loop_event expected_uid maximum_requests timeout (tracked l) event).

(** ** Processes *)

(** How far a process is in [serve_worker]. *)
Inductive Phase := Starting | Locked | PidWritten | Unlinked | Serving | SocketRemoved | FilesRemoved.
#[global] Instance Phase_eq_dec : EqDecision Phase.
Proof. solve_decision. Defined.
(** The holder of the lock, the process that bound what is at the path of the socket, the content of the PID file, and the
    processes. *)
Record Runtime := mkRuntime { rt_lock : option N; rt_socket : option N; rt_pid_file : option N; rt_processes : gmap N Phase }.
Definition goes (pid : N) (phase : Phase) (r : Runtime) : Runtime :=
  mkRuntime (rt_lock r) (rt_socket r) (rt_pid_file r) (<[pid := phase]> (rt_processes r)).
(** The kernel releases the lock of a process that ends; its socket stays. *)
Definition ends (pid : N) (r : Runtime) : Runtime :=
  mkRuntime (if bool_decide (rt_lock r = Some pid) then None else rt_lock r) (rt_socket r) (rt_pid_file r) (delete pid (rt_processes r)).
Definition with_lock (l : option N) (r : Runtime) : Runtime := mkRuntime l (rt_socket r) (rt_pid_file r) (rt_processes r).
Definition with_socket (s : option N) (r : Runtime) : Runtime := mkRuntime (rt_lock r) s (rt_pid_file r) (rt_processes r).
Definition with_pid_file (p : option N) (r : Runtime) : Runtime := mkRuntime (rt_lock r) (rt_socket r) p (rt_processes r).

(** One system call of the process [pid]; [None] when it has nothing to do next, which for [Serving] is up to its loop. *)
Definition advance (pid : N) (r : Runtime) : option Runtime :=
  phase ← rt_processes r !! pid;
  match phase with
  | Starting =>
      match rt_lock r with
      | None => Some (goes pid Locked (with_lock (Some pid) r))
      | Some _ => Some (ends pid r)
      end
  | Locked => Some (goes pid PidWritten (with_pid_file (Some pid) r))
  | PidWritten => Some (goes pid Unlinked (with_socket None r))
  | Unlinked =>
      match rt_socket r with
      | None => Some (goes pid Serving (with_socket (Some pid) r))
      | Some _ => Some (ends pid r)
      end
  | Serving => None
  | SocketRemoved => Some (goes pid FilesRemoved (with_pid_file None r))
  | FilesRemoved => Some (ends pid r)
  end.
Definition idle_exit (pid : N) (r : Runtime) : option Runtime :=
  phase ← rt_processes r !! pid;
  if bool_decide (phase = Serving) then Some (goes pid SocketRemoved (with_socket None r)) else None.
Inductive process_step : Runtime -> Runtime -> Prop :=
| step_start r pid : rt_processes r !! pid = None -> process_step r (goes pid Starting r)
| step_advance r pid r' : advance pid r = Some r' -> process_step r r'
| step_idle r pid r' : idle_exit pid r = Some r' -> process_step r r'
| step_dies r pid : process_step r (ends pid r).
(** What was left behind by processes that are gone may be at the path of the socket. *)
Inductive process_reachable : Runtime -> Prop :=
| reach_boot socket pid_file : process_reachable (mkRuntime None socket pid_file ∅)
| reach_later r r' : process_reachable r -> process_step r r' -> process_reachable r'.

(** Whom a connection to the socket reaches. *)
Definition reached (r : Runtime) : option N :=
  pid ← rt_socket r;
  phase ← rt_processes r !! pid;
  if bool_decide (phase = Serving) then Some pid else None.

(** ** Properties of processes *)

Definition process_inv (r : Runtime) : Prop :=
  (forall pid phase, rt_processes r !! pid = Some phase -> phase <> Starting -> rt_lock r = Some pid) /\
  (forall pid, rt_processes r !! pid = Some Unlinked -> rt_socket r = None) /\
  (forall pid, rt_processes r !! pid = Some Serving -> rt_socket r = Some pid /\ rt_pid_file r = Some pid) /\
  (forall pid phase, rt_processes r !! pid = Some phase -> phase = PidWritten \/ phase = Unlinked \/ phase = SocketRemoved -> rt_pid_file r = Some pid) /\
  (forall pid, rt_lock r = Some pid -> exists phase, rt_processes r !! pid = Some phase /\ phase <> Starting).

Lemma holder_unique r p q fp fq :
  process_inv r -> rt_processes r !! p = Some fp -> rt_processes r !! q = Some fq -> fp <> Starting -> fq <> Starting -> p = q.
Proof. intros (Hl & _) Hp Hq Hfp Hfq. pose proof (Hl _ _ Hp Hfp). pose proof (Hl _ _ Hq Hfq). congruence. Qed.

(** The holder of the lock moves on and may change the files; the others have not begun. *)
Lemma goes_inv pid phase old r lock socket pid_file :
  process_inv r -> rt_processes r !! pid = Some old -> phase <> Starting ->
  (forall q f, q <> pid -> rt_processes r !! q = Some f -> f = Starting) ->
  lock = Some pid -> (phase = Unlinked -> socket = None) -> (phase = Serving -> socket = Some pid) ->
  (phase = Serving \/ phase = PidWritten \/ phase = Unlinked \/ phase = SocketRemoved -> pid_file = Some pid) ->
  process_inv (goes pid phase (mkRuntime lock socket pid_file (rt_processes r))).
Proof.
  intros Hinv Hold Hns Hothers -> Hun Hserv Hpid.
  assert (Hcase : forall q f, rt_processes (goes pid phase (mkRuntime (Some pid) socket pid_file (rt_processes r))) !! q = Some f ->
            (q = pid /\ f = phase) \/ f = Starting).
  { intros q f. cbn. destruct (decide (q = pid)) as [->|Hne]; [rewrite lookup_insert_eq; intros [= <-]; by left|].
    rewrite lookup_insert_ne by done. intros Hq. right. by eapply Hothers. }
  split_and!.
  - intros q f Hq Hf. destruct (Hcase q f Hq) as [[-> ->]| ->]; done.
  - intros q Hq. destruct (Hcase q _ Hq) as [[-> <-]|[=]]. by apply Hun.
  - intros q Hq. destruct (Hcase q _ Hq) as [[-> <-]|[=]]. split; [by apply Hserv|by apply Hpid; left].
  - intros q f Hq Hf. destruct (Hcase q f Hq) as [[-> ->]| ->]; [apply Hpid; tauto|]. by destruct Hf as [?|[?|?]].
  - intros q. cbn. intros [= <-]. exists phase. by rewrite lookup_insert_eq.
Qed.
Lemma ends_inv pid r : process_inv r -> process_inv (ends pid r).
Proof.
  intros (H1 & H2 & H3 & H4 & H5). unfold ends. split_and!; cbn.
  - intros q f Hq Hf. apply lookup_delete_Some in Hq as [Hne Hq]. rewrite bool_decide_eq_false_2; [by eapply H1|].
    rewrite (H1 q f Hq Hf). congruence.
  - intros q Hq. apply lookup_delete_Some in Hq as [_ Hq]. by eapply H2.
  - intros q Hq. apply lookup_delete_Some in Hq as [_ Hq]. by apply H3.
  - intros q f Hq Hf. apply lookup_delete_Some in Hq as [_ Hq]. by eapply H4.
  - intros q Hq. case_bool_decide; [done|]. destruct (H5 q Hq) as (f & Hf & Hn). exists f. rewrite lookup_delete_ne by congruence. done.
Qed.
Lemma process_inv_step r r' : process_inv r -> process_step r r' -> process_inv r'.
Proof.
  intros Hinv Hs. assert (Hinv' := Hinv). destruct Hinv' as (H1 & H2 & H3 & H4 & H5).
  assert (Halone : forall pid f, rt_processes r !! pid = Some f -> f <> Starting ->
            forall q g, q <> pid -> rt_processes r !! q = Some g -> g = Starting).
  { intros pid f Hp Hf q g Hne Hq. destruct (decide (g = Starting)) as [|Hg]; [done|].
    destruct Hne. by eapply holder_unique. }
  destruct Hs as [r pid Hn|r pid r' Ha|r pid r' Hi|r pid]; [| | |by apply ends_inv].
  - split_and!; cbn.
    + intros q f. rewrite lookup_insert. case_decide; [by intros [= <-]|]. apply H1.
    + intros q. rewrite lookup_insert. case_decide; [done|]. apply H2.
    + intros q. rewrite lookup_insert. case_decide; [done|]. apply H3.
    + intros q f. rewrite lookup_insert. case_decide; [intros [= <-] [?|[?|?]]; done|]. apply H4.
    + intros q Hq. destruct (H5 q Hq) as (f & Hf & Hne). exists f. rewrite lookup_insert_ne; [done|]. intros ->. congruence.
  - unfold advance in Ha. destruct (rt_processes r !! pid) as [phase|] eqn:Hp; cbn [mbind option_bind] in Ha; [|done].
    destruct phase.
    + destruct (rt_lock r) as [l|] eqn:Hl; injection Ha as <-; [by apply ends_inv|].
      eapply goes_inv; try done; [|naive_solver]. intros q g _ Hq. destruct (decide (g = Starting)) as [|Hg]; [done|].
      pose proof (H1 q g Hq Hg). congruence.
    + injection Ha as <-. eapply goes_inv; try done; [by eapply Halone|by apply (H1 pid Locked)].
    + injection Ha as <-. eapply goes_inv; try done; [by eapply Halone|by apply (H1 pid PidWritten)|]. intros _. apply (H4 pid PidWritten); [done|by left].
    + rewrite (H2 pid Hp) in Ha. injection Ha as <-. eapply goes_inv; try done; [by eapply Halone|by apply (H1 pid Unlinked)|].
      intros _. apply (H4 pid Unlinked); [done|by right; left].
    + done.
    + injection Ha as <-. eapply goes_inv; try done; [by eapply Halone|by apply (H1 pid SocketRemoved)|naive_solver].
    + injection Ha as <-. by apply ends_inv.
  - unfold idle_exit in Hi. destruct (rt_processes r !! pid) as [phase|] eqn:Hp; cbn [mbind option_bind] in Hi; [|done].
    case_bool_decide; [|done]. subst phase. injection Hi as <-.
    eapply goes_inv; try done; [by eapply Halone|by apply (H1 pid Serving)|]. intros _. by apply (H3 pid).
Qed.
Lemma process_invariant r : process_reachable r -> process_inv r.
Proof.
  induction 1 as [socket pid_file|r r' _ IH Hs]; [|by eapply process_inv_step].
  split_and!; cbn; intros q; try rewrite lookup_empty; done.
Qed.

(** C18: one worker serves, and it is the one that is found.  However processes of a user start, race, exit
    and die, at most one of them is past the lock; the one that serves is at the path of the socket and in the PID file, so no other
    process removed or replaced its socket; a connection reaches only the holder of the lock; and whenever nobody holds
    the lock, a process that starts becomes the worker that is found, whatever was left behind. *)
Theorem single_worker r :
  process_reachable r ->
  (forall p q fp fq, rt_processes r !! p = Some fp -> rt_processes r !! q = Some fq -> fp <> Starting -> fq <> Starting -> p = q) /\
  (forall p, rt_processes r !! p = Some Serving -> reached r = Some p /\ rt_pid_file r = Some p) /\
  (forall p, reached r = Some p -> rt_lock r = Some p) /\
  (forall p, rt_processes r !! p = Some Starting -> rt_lock r = None ->
     exists r', (r1 ← advance p r; r2 ← advance p r1; r3 ← advance p r2; advance p r3) = Some r' /\ process_reachable r' /\ reached r' = Some p).
Proof.
  intros Hreach. pose proof (process_invariant _ Hreach) as Hinv. split; [by intros; eapply holder_unique|].
  assert (Hserving : forall r p, process_inv r -> rt_processes r !! p = Some Serving -> reached r = Some p /\ rt_pid_file r = Some p).
  { intros r0 p (_ & _ & H3 & _) Hp. destruct (H3 p Hp) as [Hs Hf]. split; [|done]. unfold reached. rewrite Hs. cbn. rewrite Hp. cbn.
    by rewrite bool_decide_eq_true_2. }
  split; [by intros p Hp; apply Hserving|]. split.
  - intros p Hr. unfold reached in Hr. destruct (rt_socket r) as [s|]; cbn in Hr; [|done]. destruct (rt_processes r !! s) as [phase|] eqn:Hp; cbn in Hr; [|done].
    case_bool_decide; [|done]. injection Hr as ->. subst phase. by apply (proj1 Hinv p Serving).
  - intros p Hp Hl.
    assert (H1 : advance p r = Some (goes p Locked (with_lock (Some p) r))) by (unfold advance; rewrite Hp; cbn; by rewrite Hl).
    rewrite H1. cbn [mbind option_bind]. set (r1 := goes p Locked _) in *.
    assert (H2 : advance p r1 = Some (goes p PidWritten (with_pid_file (Some p) r1))) by (unfold advance, r1, goes; cbn; by rewrite lookup_insert_eq).
    rewrite H2. cbn [mbind option_bind]. set (r2 := goes p PidWritten _) in *.
    assert (H3 : advance p r2 = Some (goes p Unlinked (with_socket None r2))) by (unfold advance, r2, goes; cbn; by rewrite lookup_insert_eq).
    rewrite H3. cbn [mbind option_bind]. set (r3 := goes p Unlinked _) in *.
    assert (H4 : advance p r3 = Some (goes p Serving (with_socket (Some p) r3))) by (unfold advance, r3, goes; cbn; by rewrite lookup_insert_eq).
    eexists. split; [exact H4|].
    assert (Hreach' : process_reachable (goes p Serving (with_socket (Some p) r3)))
      by (do 4 (eapply reach_later; [|eapply step_advance; eassumption]); exact Hreach).
    split; [done|]. apply Hserving; [by apply process_invariant|]. cbn. apply lookup_insert_eq.
Qed.

(** ** Properties of the loop *)

Section loop.
Variables expected_uid maximum_requests timeout : N.

Definition loop_inv (l : Loop) : Prop :=
  match lp_idle l with
  | Some since => since <= lp_now l /\ lp_empty l = true /\ (forall b, lp_busy l = Some b -> b <= since)
  | None => True
  end /\
  (forall b, lp_busy l = Some b -> b <= lp_now l) /\
  (lp_exited l = true -> 0 < timeout /\ lp_empty l = true /\ exists since, lp_idle l = Some since /\ timeout <= lp_now l - since).
Lemma tracked_empty l : lp_empty l = true -> tracked l = l.
Proof. intros He. unfold tracked. rewrite He. by destruct l. Qed.
Lemma lp_empty_true l : lp_empty l = true <-> lp_requests l = 0 /\ lp_terminals l = 0.
Proof. unfold lp_empty. by rewrite andb_true_iff, !N.eqb_eq. Qed.
Lemma loop_inv_tracked l : loop_inv l -> loop_inv (tracked l).
Proof.
  intros Hinv. destruct (lp_empty l) eqn:E; [by rewrite tracked_empty|]. destruct Hinv as (Hi & Hb & He). rewrite E in He. unfold tracked. rewrite E. split_and!; cbn.
  - destruct (lp_idle l); [|done]. destruct Hi as (_ & Hi & _). congruence.
  - intros b [= <-]. lia.
  - intros Hx. destruct (He Hx) as (_ & Hx' & _). done.
Qed.
Lemma loop_event_inv l event : lp_exited l = false -> loop_inv l -> loop_inv (loop_event expected_uid maximum_requests timeout l event).
Proof.
  intros Hx (Hi & Hb & He). destruct event as [n|peer| | | |]; cbn [loop_event].
  - split_and!; cbn; [|intros b Hbb; specialize (Hb b Hbb); lia|by rewrite Hx]. destruct (lp_idle l) as [since|]; [|done].
    destruct Hi as (? & ? & ?). split_and!; [lia|done|done].
  - destruct (_ <=? _); [by split_and!|]. destruct (_ && _); [by split_and!|]. split_and!; cbn; [done|done|by rewrite Hx].
  - destruct (N.eqb_spec (lp_requests l) 0) as [Hr|Hr]; [by split_and!|]. split_and!; cbn; [|done|by rewrite Hx].
    assert (Hidle : lp_idle l = None).
    { destruct (lp_idle l) as [since|]; [|done]. destruct Hi as (_ & Hemp & _). by apply lp_empty_true in Hemp as [? _]. }
    rewrite Hidle. unfold observe, lp_empty. cbn. destruct (_ && _) eqn:Hemp; [|done]. split_and!; [lia|done|exact Hb].
  - unfold should_exit. destruct (N.eqb_spec timeout 0) as [Ht|Ht]; [by split_and!; cbn|]. split_and!; cbn.
    + unfold observe. destruct (lp_empty l) eqn:Hemp; [|done]. destruct (lp_idle l) as [since|].
      * destruct Hi as (? & _ & ?). by split_and!.
      * split_and!; [lia|exact Hemp|exact Hb].
    + exact Hb.
    + unfold observe. destruct (lp_empty l) eqn:Hemp; [|done]. intros Hexit. split; [lia|]. split; [exact Hemp|].
      destruct (lp_idle l) as [since|]; (eexists; split; [done|]); by apply N.leb_le.
  - destruct (N.eqb_spec (lp_requests l) 0) as [Hr|Hr]; [by split_and!|]. split_and!; cbn; [|done|by rewrite Hx].
    destruct (lp_idle l) as [since|]; [|done]. destruct Hi as (_ & Hemp & _). by apply lp_empty_true in Hemp as [? _].
  - split_and!; cbn; [|done|by rewrite Hx]. destruct (lp_idle l) as [since|]; [|done]. destruct Hi as (? & Hemp & ?). split_and!; [done| |done].
    apply lp_empty_true in Hemp as [Hr Ht]. apply lp_empty_true. cbn. split; [done|lia].
Qed.
Lemma loop_step_inv l event : loop_inv l -> loop_inv (loop_step expected_uid maximum_requests timeout l event).
Proof.
  intros Hinv. unfold loop_step. destruct (lp_exited l) eqn:Hx; [done|]. apply loop_inv_tracked, loop_event_inv; [done|by apply loop_inv_tracked].
Qed.
Definition run_loop (l : Loop) (events : list LoopEvent) : Loop := foldl (loop_step expected_uid maximum_requests timeout) l events.
Lemma run_loop_inv l events : loop_inv l -> loop_inv (run_loop l events).
Proof. revert l. induction events as [|e events IH]; intros l Hinv; [done|]. cbn. apply IH. by apply loop_step_inv. Qed.

(** Ticks and time, with refused connections in between. *)
Definition quiet (event : LoopEvent) : Prop :=
  match event with Elapse _ | Tick => True | Accept peer => peer <> 0 /\ peer <> expected_uid | _ => False end.
Definition elapsed (events : list LoopEvent) : N := foldr (fun e n => match e with Elapse m => m + n | _ => n end) 0 events.
Lemma elapsed_cons e events : elapsed (e :: events) = elapsed [e] + elapsed events.
Proof. unfold elapsed. cbn [foldr]. destruct e; lia. Qed.
(** An empty worker that has been counting since [since] at the latest. *)
Definition counting (since : N) (l : Loop) : Prop :=
  lp_exited l = true \/ lp_exited l = false /\ lp_empty l = true /\ exists s, lp_idle l = Some s /\ s <= since.
Lemma quiet_step since l event :
  0 < timeout -> quiet event -> since <= lp_now l -> counting since l ->
  counting since (loop_step expected_uid maximum_requests timeout l event) /\
  (lp_exited (loop_step expected_uid maximum_requests timeout l event) = false ->
   lp_now (loop_step expected_uid maximum_requests timeout l event) = lp_now l + elapsed [event] /\
   (event = Tick -> lp_now l - since < timeout)).
Proof.
  intros Ht Hq Hle [Hx|(Hx & Hemp & s & Hs & Hss)]; unfold loop_step; rewrite Hx; [split; [by left|congruence]|].
  rewrite (tracked_empty l Hemp). destruct event as [n|peer| | | |]; try done; cbn [loop_event elapsed foldr].
  - rewrite tracked_empty by exact Hemp. split; [right; split_and!; cbn; [done|exact Hemp|by exists s]|]. intros _. cbn. split; [lia|done].
  - assert (Hsame : (if maximum_requests <=? lp_requests l then l
      else if negb (peer =? 0) && negb (peer =? expected_uid) then l
      else mkLoop (lp_requests l + 1) (lp_terminals l) (mark_active (lp_idle l)) (lp_now l) (lp_busy l) (lp_exited l)) = l).
    { destruct Hq as [H1 H2]. rewrite (proj2 (N.eqb_neq _ _) H1), (proj2 (N.eqb_neq _ _) H2). cbn. by destruct (_ <=? _). }
    rewrite Hsame, tracked_empty by exact Hemp. split; [right; split_and!; [done|done|by exists s]|]. intros _. split; [lia|done].
  - unfold should_exit. rewrite (proj2 (N.eqb_neq timeout 0)) by lia. rewrite Hemp. cbn [observe]. rewrite Hs.
    rewrite tracked_empty by exact Hemp. cbn. destruct (N.leb_spec timeout (lp_now l - s)).
    + split; [by left|done].
    + split; [right; split_and!; [done|exact Hemp|by exists s]|]. intros _. split; [lia|]. intros _. lia.
Qed.
Lemma quiet_run since l events :
  0 < timeout -> Forall quiet events -> since <= lp_now l -> counting since l ->
  counting since (run_loop l events) /\ (lp_exited (run_loop l events) = false -> lp_now (run_loop l events) = lp_now l + elapsed events).
Proof.
  intros Ht. revert l. induction events as [|e events IH]; intros l Hq Hle Hc; [split; [done|]; cbn; lia|].
  apply Forall_cons in Hq as [He Hq]. destruct (quiet_step since l e Ht He Hle Hc) as [Hc1 Hn1]. cbn [run_loop foldl].
  set (l1 := loop_step expected_uid maximum_requests timeout l e) in *. fold (run_loop l1 events).
  destruct (lp_exited l1) eqn:Hx1.
  - assert (Hrun : run_loop l1 events = l1).
    { clear -Hx1. induction events as [|e' events IH]; [done|]. cbn. unfold loop_step at 2. by rewrite Hx1. }
    rewrite Hrun. split; [done|congruence].
  - destruct (Hn1 eq_refl) as [Hn _]. destruct (IH l1 Hq ltac:(lia) Hc1) as [Hc2 Hn2]. split; [done|].
    intros Hx2. rewrite (Hn2 Hx2), Hn, (elapsed_cons e events). lia.
Qed.

(** A worker exits when it is idle, and only then.  Whatever connections, requests, terminals and ticks
    do, a worker that exits has had no request and no terminal at any moment of the last [timeout]; with a
    timeout of zero it never exits; and an empty worker exits at a tick that comes a timeout after a first tick, whatever
    ticks and refused connections are in between. *)
Theorem idle_exit_exact now events :
  let l := run_loop (loop_start now) events in
  (lp_exited l = true -> 0 < timeout /\ lp_requests l = 0 /\ lp_terminals l = 0 /\ forall b, lp_busy l = Some b -> b + timeout <= lp_now l) /\
  (forall between, 0 < timeout -> lp_empty l = true -> Forall quiet between -> timeout <= elapsed between ->
     lp_exited (run_loop l (Tick :: between ++ [Tick])) = true).
Proof.
  cbv zeta. assert (Hinv : loop_inv (run_loop (loop_start now) events)) by (apply run_loop_inv; by split_and!).
  set (l := run_loop (loop_start now) events) in *. clearbody l. destruct Hinv as (Hi & Hb & He). split.
  - intros Hx. destruct (He Hx) as (Ht & Hemp & since & Hs & Hle). rewrite Hs in Hi. destruct Hi as (Hnow & _ & Hbusy).
    apply lp_empty_true in Hemp as [Hr Htm]. split_and!; [done..|]. intros b Hbb. specialize (Hbusy b Hbb). lia.
  - intros between Ht Hemp Hq Hel. destruct (lp_exited l) eqn:Hx.
    { clear -Hx. generalize (Tick :: between ++ [Tick]) as es. induction es as [|e es IH]; [done|]. cbn. unfold loop_step at 2. by rewrite Hx. }
    assert (Hfirst : exists s x, loop_step expected_uid maximum_requests timeout l Tick = mkLoop (lp_requests l) (lp_terminals l) (Some s) (lp_now l) (lp_busy l) x /\ s <= lp_now l).
    { unfold loop_step. rewrite Hx, (tracked_empty l Hemp). cbn [loop_event]. unfold should_exit. rewrite (proj2 (N.eqb_neq timeout 0)) by lia.
      rewrite Hemp. cbn [observe]. rewrite tracked_empty by exact Hemp.
      destruct (lp_idle l) as [s|]; (eexists _, _; split; [reflexivity|]); [by destruct Hi|lia]. }
    destruct Hfirst as (s & x & Hfirst & Hs). cbn [run_loop foldl]. rewrite Hfirst. set (l1 := mkLoop _ _ _ _ _ _) in *.
    rewrite foldl_app. cbn [foldl]. fold (run_loop l1 between).
    assert (Hc1 : counting (lp_now l) l1) by (destruct x; [by left|right; split_and!; [done|exact Hemp|by exists s]]).
    destruct (quiet_run (lp_now l) l1 between Ht Hq ltac:(done) Hc1) as [Hc2 Hn2].
    set (l2 := run_loop l1 between) in *. clearbody l2. destruct (lp_exited l2) eqn:Hx2; [unfold loop_step; by rewrite Hx2|].
    specialize (Hn2 eq_refl). cbn in Hn2.
    destruct (quiet_step (lp_now l) l2 Tick Ht I ltac:(lia) Hc2) as [_ Hn3].
    destruct (lp_exited (loop_step expected_uid maximum_requests timeout l2 Tick)); [done|]. destruct (Hn3 eq_refl) as [_ Hlt].
    specialize (Hlt eq_refl). lia.
Qed.
End loop.

(** ** Witnesses *)

(** A stale socket was left behind; the first process serves, the second has just started. *)
Fixpoint advances (n : nat) (pid : N) (r : Runtime) : option Runtime :=
  match n with O => Some r | S n => r ← advance pid r; advances n pid r end.
Lemma advances_reachable n pid r r' : process_reachable r -> advances n pid r = Some r' -> process_reachable r'.
Proof.
  revert r. induction n as [|n IH]; intros r Hr Ha; [by injection Ha as <-|]. cbn in Ha.
  destruct (advance pid r) as [r1|] eqn:E; [|done]. apply (IH r1); [|done]. eapply reach_later; [exact Hr|by eapply step_advance].
Qed.
Definition demo_boot : Runtime := mkRuntime None (Some 9) None ∅.
Definition demo_runtime : Runtime := default demo_boot (advances 4 1 (goes 1 Starting demo_boot)).
Lemma demo_runtime_reachable : process_reachable (goes 2 Starting demo_runtime).
Proof.
  eapply reach_later; [|apply (step_start demo_runtime 2); vm_compute; reflexivity].
  apply (advances_reachable 4 1 (goes 1 Starting demo_boot)); [|vm_compute; reflexivity].
  eapply reach_later; [apply (reach_boot (Some 9) None)|apply (step_start demo_boot 1); vm_compute; reflexivity].
Qed.
Lemma single_worker_witness :
  rt_processes (goes 2 Starting demo_runtime) !! 2 = Some Starting /\ reached (goes 2 Starting demo_runtime) = Some 1 /\
  rt_pid_file (goes 2 Starting demo_runtime) = Some 1.
Proof.
  split; [vm_compute; reflexivity|].
  exact (proj1 (proj2 (single_worker _ demo_runtime_reachable)) 1 ltac:(vm_compute; reflexivity)).
Defined.

Lemma idle_exit_exact_witness :
  lp_exited (run_loop 5 2 100 (run_loop 5 2 100 (loop_start 7) [Accept 5; TerminalStarts; Elapse 30; Completed; TerminalEnds]) (Tick :: [Accept 6; Elapse 100] ++ [Tick])) = true /\
  lp_exited (run_loop 5 2 100 (loop_start 7) [Accept 5; TerminalStarts; Elapse 300; Completed; Tick; Elapse 300; Tick]) = false.
Proof.
  split; [|vm_compute; reflexivity].
  apply (proj2 (idle_exit_exact 5 2 100 7 [Accept 5; TerminalStarts; Elapse 30; Completed; TerminalEnds]) [Accept 6; Elapse 100]).
  - reflexivity.
  - vm_compute. reflexivity.
  - apply Forall_cons; split; [split; discriminate|]. apply Forall_cons; split; [exact I|]. apply Forall_nil. exact I.
  - vm_compute. discriminate.
Defined.
