(* ===== verification/StateDir.v ===== *)
(** * State directories ([server.rs], [worker.rs])

    The host identity is created once by [astrad init] and checked by [astrad serve]; the managed gateway adds a directory
    for the users and one for each of them.  Every system call may fail, and a process that is killed leaves what the calls before have
    done. *)
From S2P Require Import Prelude Text TerminalState Files Authentication.
Open Scope N_scope.

(** ** Files with owners and modes *)

(** [en_live]: what a link points to exists. *)
Record Entry := mkEntry { en_kind : PathKind; en_uid : N; en_mode : N; en_content : bytes; en_live : bool }.
Abbreviation Disk := (gmap Path Entry).
Record Sys := mkSys { sy_disk : Disk; sy_calls : nat }.
Definition SysM (A : Type) : Type := Sys -> Sys * result A.
#[global] Instance sys_ret : MRet SysM := fun A a s => (s, Ok a).
#[global] Instance sys_bind : MBind SysM := fun A B f m s =>
  match m s with (s, Ok a) => f a s | (s, Err e) => (s, Err e) end.

(** [Path::exists] follows links. *)
Definition exists_at (d : Disk) (p : Path) : bool :=
  match d !! p with Some e => negb (bool_decide (en_kind e = PkSymlink)) || en_live e | None => false end.
Definition is_dir_at (d : Disk) (p : Path) : bool :=
  match d !! p with Some e => bool_decide (en_kind e = PkDirectory) || (bool_decide (en_kind e = PkSymlink) && en_live e) | None => false end.

Section state.
(** The error of the [k]-th system call, how much of its data a failed write leaves, the umask and the user of the process. *)
Variables (fault : nat -> option string) (partial : nat) (umask euid : N).

Definition syscall {A : Type} (f : Disk -> result (Disk * A)) : SysM A := fun s =>
  let s' := mkSys (sy_disk s) (S (sy_calls s)) in
  match fault (sy_calls s) with
  | Some e => (s', Err e)
  | None => match f (sy_disk s) with
            | Ok (d, a) => (mkSys d (S (sy_calls s)), Ok a)
            | Err e => (s', Err e)
            end
  end.
Definition sys_require (b : bool) (e : string) : SysM () := fun s => (s, ensure! b, e; Ok tt).
Definition sys_exists (p : Path) : SysM bool := fun s => (s, Ok (exists_at (sy_disk s) p)).
Definition umasked (mode : N) : N := N.ldiff mode umask.

Definition symlink_metadata (p : Path) : SysM Entry := syscall (fun d => e ← ok_or (d !! p) "not found"; Ok (d, e)).
Definition set_mode (mode : N) (e : Entry) : Entry := mkEntry (en_kind e) (en_uid e) mode (en_content e) (en_live e).
Definition set_permissions (p : Path) (mode : N) : SysM () :=
  syscall (fun d => _ ← ok_or (d !! p) "not found"; Ok (alter (set_mode mode) p d, tt)).
Definition create_dir (p : Path) : SysM bool :=
  syscall (fun d => Ok (match d !! p with
                        | Some _ => (d, false)
                        | None => (<[p := mkEntry PkDirectory euid (umasked 511) [] true]> d, true)
                        end)).
(** [create_dir_all]: the missing ancestors, from the top. *)
Fixpoint create_dir_all (above : Path) (rest : Path) : SysM () :=
  match rest with
  | [] => mret tt
  | name :: rest =>
      let p := above ++ [name] in
      _ ← create_dir p;
      present ← (fun s => (s, Ok (is_dir_at (sy_disk s) p)));
      _ ← sys_require present "failed to create";
      create_dir_all p rest
  end.
(** [write_new_file]: the file is created exclusively, written and given its mode. *)
Definition write_new_file (p : Path) (contents : bytes) (mode : N) : SysM () :=
  _ ← syscall (fun d => ensure! is_none (d !! p), "file exists"; Ok (<[p := mkEntry PkFile euid (umasked mode) [] true]> d, tt));
  _ ← (fun s =>
         let write data := alter (fun e => mkEntry (en_kind e) (en_uid e) (en_mode e) data (en_live e)) p (sy_disk s) in
         match fault (sy_calls s) with
         | Some e => (mkSys (write (take partial contents)) (S (sy_calls s)), Err e)
         | None => (mkSys (write contents) (S (sy_calls s)), Ok tt)
         end);
  set_permissions p mode.

(** ** [astrad init] ([server.rs]) *)

(** [ServerPaths] *)
Record ServerPaths := mkPaths { sp_state_dir : Path; sp_cert : Path; sp_key : Path; sp_authorized_keys : Path; sp_instance_id : Path }.
Definition server_paths (state_dir : Path) : ServerPaths :=
  mkPaths state_dir (state_dir ++ [lit "host-cert.der"]) (state_dir ++ [lit "host-key.der"]) (state_dir ++ [lit "authorized_keys"])
    (state_dir ++ [lit "instance-id"]).

Definition secure_state_directory (p : Path) : SysM () :=
  metadata ← symlink_metadata p;
  _ ← sys_require (bool_decide (en_kind metadata = PkDirectory)) "state path must be a real directory";
  _ ← sys_require (en_uid metadata =? euid) "state directory is owned by another UID";
  set_permissions p 448.
Definition AUTHORIZED_KEYS_NOTE : bytes := lit "# Rootless mode only. Managed mode reads each Unix user's authorized_keys." ++ [10].
(** [generated] is the certificate with its private key, [instance] the random identifier. *)
Definition initialize_state (paths : ServerPaths) (generated : result (bytes * bytes)) (instance : bytes) : SysM () :=
  _ ← create_dir_all [] (sp_state_dir paths);
  _ ← secure_state_directory (sp_state_dir paths);
  has_cert ← sys_exists (sp_cert paths);
  has_key ← sys_exists (sp_key paths);
  _ ← (match has_cert, has_key with
       | false, false =>
           '(cert, key) ← (fun s => (s, generated));
           _ ← write_new_file (sp_cert paths) cert 420;
           write_new_file (sp_key paths) key 384
       | true, true => mret tt
       | _, _ => sys_require false "incomplete host identity"
       end);
  has_keys ← sys_exists (sp_authorized_keys paths);
  _ ← (if has_keys : bool then mret tt else write_new_file (sp_authorized_keys paths) AUTHORIZED_KEYS_NOTE 384);
  has_id ← sys_exists (sp_instance_id paths);
  if has_id : bool then mret tt else write_new_file (sp_instance_id paths) (instance ++ [10]) 420.

(** ** The checks of [astrad serve] *)

Definition ensure_initialized (paths : ServerPaths) : SysM () := fun s =>
  (s, ensure! forallb (exists_at (sy_disk s)) [sp_cert paths; sp_key paths; sp_instance_id paths], "server state is incomplete"; Ok tt).
Definition validate_managed_gateway_state (paths : ServerPaths) : SysM () :=
  state ← symlink_metadata (sp_state_dir paths);
  _ ← sys_require (bool_decide (en_kind state = PkDirectory)) "managed gateway state must be a real directory";
  _ ← sys_require (en_uid state =? euid) "managed gateway state is owned by another UID";
  _ ← sys_require (N.land (en_mode state) 18 =? 0) "managed gateway state must not be writable by group or other users";
  key ← symlink_metadata (sp_key paths);
  _ ← sys_require (bool_decide (en_kind key = PkFile)) "managed gateway host key must be a regular file";
  _ ← sys_require (en_uid key =? euid) "managed gateway host key is owned by another UID";
  sys_require (N.land (en_mode key) 63 =? 0) "managed gateway host key must not be accessible by group or other users".

(** ** The directories of the users ([worker.rs]) *)

Definition validate_directory (p : Path) (uid forbidden : N) : SysM () :=
  metadata ← symlink_metadata p;
  sys_require (bool_decide (en_kind metadata = PkDirectory) && (en_uid metadata =? uid) && (N.land (en_mode metadata) forbidden =? 0))
    "unsafe worker directory".
Definition users_root (state_dir : Path) : Path := state_dir ++ [lit "users"].
(** [WorkerRouter::new] *)
Definition prepare_users_root (state_dir : Path) : SysM () :=
  _ ← validate_directory state_dir euid 18;
  _ ← create_dir (users_root state_dir);
  _ ← validate_directory (users_root state_dir) euid 18;
  _ ← set_permissions state_dir 457;
  set_permissions (users_root state_dir) 457.
Definition chown (p : Path) (uid : N) : SysM () :=
  syscall (fun d => _ ← ok_or (d !! p) "not found"; Ok (alter (fun e => mkEntry (en_kind e) uid (en_mode e) (en_content e) (en_live e)) p d, tt)).
(** [WorkerRouter::prepare_user_state]; [name] is the decimal name of [uid]. *)
Definition prepare_user_state (root : Path) (name : bytes) (uid : N) : SysM Path :=
  _ ← validate_directory root euid 18;
  let p := root ++ [name] in
  found ← syscall (fun d => Ok (d, d !! p));
  match found with
  | Some metadata =>
      _ ← sys_require (bool_decide (en_kind metadata = PkDirectory)) "is not a safe user state directory";
      _ ← sys_require (en_uid metadata =? uid) "is owned by another UID";
      _ ← sys_require (N.land (en_mode metadata) 63 =? 0) "must have mode 0700";
      mret p
  | None =>
      created ← create_dir p;
      _ ← sys_require created "file exists";
      _ ← set_permissions p 448;
      _ ← (if euid =? 0 then chown p uid else mret tt);
      mret p
  end.
End state.
