(* ===== verification/StateDirSpec.v ===== *)
(** * State directories: nothing is lost, nothing is exposed *)
From S2P Require Import Prelude Text TerminalState Files Authentication StateDir.
Open Scope N_scope.

Section spec.
Variables (fault : nat -> option string) (partial : nat) (umask euid : N).

(** ** Single calls *)

(** Every step relates the disk before to the disk after. *)
Definition moves {A : Type} (R : Disk -> Disk -> Prop) (m : SysM A) : Prop := forall s, R (sy_disk s) (sy_disk (m s).1).
Lemma moves_bind {A B : Type} (R : Disk -> Disk -> Prop) `{!Transitive R} (m : SysM A) (f : A -> SysM B) :
  moves R m -> (forall a, moves R (f a)) -> moves R (m ≫= f).
Proof.
  intros Hm Hf s. unfold mbind, sys_bind. specialize (Hm s). destruct (m s) as [s1 [a|e]]; cbn in *; [|done]. etrans; [exact Hm|apply Hf].
Qed.
Lemma moves_pure {A : Type} (R : Disk -> Disk -> Prop) `{!Reflexive R} (f : Disk -> result A) : moves R (fun s => (s, f (sy_disk s))).
Proof. intros s. cbn. reflexivity. Qed.
Lemma moves_syscall {A : Type} (R : Disk -> Disk -> Prop) `{!Reflexive R} (f : Disk -> result (Disk * A)) :
  (forall d d' a, f d = Ok (d', a) -> R d d') -> moves R (syscall fault f).
Proof.
  intros Hf s. unfold syscall. destruct (fault _); [reflexivity|]. destruct (f (sy_disk s)) as [[d a]|e] eqn:E; [|reflexivity]. by apply (Hf _ _ a).
Qed.
Lemma syscall_Ok {A : Type} (f : Disk -> result (Disk * A)) s s' a :
  syscall fault f s = (s', Ok a) -> f (sy_disk s) = Ok (sy_disk s', a).
Proof. unfold syscall. destruct (fault _); [done|]. destruct (f (sy_disk s)) as [[d b]|e]; [|done]. by intros [= <- <-]. Qed.
Lemma sys_bind_Ok {A B} (m : SysM A) (f : A -> SysM B) s s' b :
  (m ≫= f) s = (s', Ok b) -> exists s1 a, m s = (s1, Ok a) /\ f a s1 = (s', Ok b).
Proof. unfold mbind, sys_bind. destruct (m s) as [s1 [a|e]]; [|done]. eauto. Qed.
Lemma sys_require_Ok b e s s' : sys_require b e s = (s', Ok tt) -> s' = s /\ b = true.
Proof. unfold sys_require. destruct b; [|done]. by intros [= <-]. Qed.

(** What a new file is, whole or not. *)
Definition fresh_file (mode : N) (e : Entry) : Prop :=
  en_kind e = PkFile /\ en_uid e = euid /\ (en_mode e = mode \/ en_mode e = umasked umask mode).
Lemma write_new_file_spec p contents mode s :
  let '(s', r) := write_new_file fault partial umask euid p contents mode s in
  (sy_disk s' = sy_disk s \/ sy_disk s !! p = None /\ exists e, fresh_file mode e /\ sy_disk s' = <[p := e]> (sy_disk s)) /\
  (r = Ok tt -> sy_disk s !! p = None /\ sy_disk s' = <[p := mkEntry PkFile euid mode contents true]> (sy_disk s)).
Proof.
  unfold write_new_file. unfold mbind, sys_bind at 1. destruct (syscall fault _ s) as [s1 [[]|e]] eqn:E1.
  2:{ split; [left|done]. unfold syscall in E1. destruct (fault _); [by injection E1 as <- _|]. destruct (is_none _); [done|by injection E1 as <- _]. }
  apply syscall_Ok in E1. destruct (sy_disk s !! p) eqn:Hp; cbn [is_none] in E1; [done|]. injection E1 as E1.
  set (e0 := mkEntry PkFile euid (umasked umask mode) [] true) in *.
  assert (Halter : forall g : Entry -> Entry, alter g p (sy_disk s1) = <[p := g e0]> (sy_disk s)).
  { intros g. rewrite <- E1. apply map_eq. intros i. destruct (decide (i = p)) as [->|Hne].
    - by rewrite lookup_alter_eq, !lookup_insert_eq.
    - by rewrite lookup_alter_ne, !lookup_insert_ne. }
  unfold sys_bind at 1. destruct (fault (sy_calls s1)).
  { split; [right|done]. split; [done|]. eexists. cbn [sy_disk]. rewrite Halter. split; [|reflexivity]. by split_and!; [..|right]. }
  cbn [sy_disk]. unfold set_permissions, syscall. cbn [sy_disk sy_calls]. rewrite Halter. destruct (fault (S (sy_calls s1))).
  { split; [right|done]. split; [done|]. eexists. cbn [sy_disk]. split; [|reflexivity]. by split_and!; [..|right]. }
  rewrite lookup_insert_eq. cbn [ok_or mbind result_bind]. split.
  - right. split; [done|]. eexists. cbn [sy_disk]. rewrite alter_insert_eq. split; [|reflexivity]. by split_and!; [..|left].
  - intros _. split; [done|]. cbn [sy_disk]. by rewrite alter_insert_eq.
Qed.

(** ** [astrad init] *)

Variable sd : Path.
Abbreviation paths := (server_paths sd).

Definition secured (e : Entry) : Prop := en_kind e = PkDirectory /\ en_uid e = euid /\ en_mode e = 448.
(** What [init] may do to a disk: nothing to what is there, except that it secures its own directory; and the private key it
    creates belongs to the daemon and is closed to everybody else. *)
Definition init_change (d d' : Disk) : Prop :=
  (forall p e, d !! p = Some e -> p <> sd -> d' !! p = Some e) /\
  (forall e, d !! sd = Some e -> exists e', d' !! sd = Some e' /\ (e' = e \/ en_kind e = PkDirectory /\ en_uid e = euid /\ e' = set_mode 448 e)) /\
  (forall e, d !! sp_key paths = None -> d' !! sp_key paths = Some e -> en_kind e = PkFile /\ en_uid e = euid /\ N.land (en_mode e) 63 = 0).
Lemma child_ne name : sd ++ [name] <> sd.
Proof. intros Hc. apply (f_equal length) in Hc. rewrite length_app in Hc. cbn in Hc. lia. Qed.
#[local] Instance init_change_refl : Reflexive init_change.
Proof. intros d. split_and!; [done|eauto|congruence]. Qed.
#[local] Instance init_change_trans : Transitive init_change.
Proof.
  intros d1 d2 d3 (Ha & Hb & Hc) (Ha' & Hb' & Hc'). split_and!.
  - intros p e Hp Hne. apply Ha'; [by apply Ha|done].
  - intros e He. destruct (Hb e He) as (e2 & He2 & H2). destruct (Hb' e2 He2) as (e3 & He3 & H3). exists e3. split; [done|].
    destruct H2 as [->|(? & ? & ->)]; destruct H3 as [->|(? & ? & ->)]; auto 6.
  - intros e Hn He. destruct (d2 !! sp_key paths) as [e2|] eqn:E; [|by apply Hc'].
    rewrite (Ha' _ _ E) in He by apply child_ne. injection He as <-. by apply Hc.
Qed.

Lemma land_umasked mode bits : N.land mode bits = 0 -> N.land (umasked umask mode) bits = 0.
Proof.
  intros Hm. unfold umasked. apply N.bits_inj. intros k. apply (f_equal (fun n => N.testbit n k)) in Hm.
  rewrite N.land_spec, N.bits_0 in *. rewrite N.ldiff_spec. destruct (N.testbit mode k), (N.testbit bits k); try done. by rewrite andb_false_r.
Qed.
(** A new entry, other than an open private key. *)
Lemma init_change_insert d p e :
  d !! p = None -> (p = sp_key paths -> en_kind e = PkFile /\ en_uid e = euid /\ N.land (en_mode e) 63 = 0) -> init_change d (<[p := e]> d).
Proof.
  intros Hp Hk. split_and!.
  - intros q x Hq _. rewrite lookup_insert_ne by congruence. done.
  - intros x Hx. exists x. rewrite lookup_insert_ne by congruence. by split; [|left].
  - intros x Hn. rewrite lookup_insert. case_decide as Heq; [intros [= <-]; by apply Hk|]. congruence.
Qed.
Lemma write_new_file_change p contents mode :
  (p = sp_key paths -> mode = 384) -> moves init_change (write_new_file fault partial umask euid p contents mode).
Proof.
  intros Hmode s. pose proof (write_new_file_spec p contents mode s) as H. destruct (write_new_file _ _ _ _ _ _ _ s) as [s' r]. cbn.
  destruct H as [[->|(Hp & e & (Hk & Hu & Hm) & ->)] _]; [reflexivity|]. apply init_change_insert; [done|]. intros Heq. specialize (Hmode Heq). subst mode.
  split_and!; [done|done|]. destruct Hm as [->| ->]; [done|]. by apply land_umasked.
Qed.

Definition prefix_of_sd (p : Path) : Prop := exists rest, p ++ rest = sd.
Lemma key_not_prefix p : prefix_of_sd p -> p <> sp_key paths.
Proof. intros [rest Hr] ->. apply (f_equal length) in Hr. cbn in Hr. rewrite !length_app in Hr. cbn in Hr. lia. Qed.
Lemma create_dir_change p : prefix_of_sd p -> moves init_change (create_dir fault umask euid p).
Proof.
  intros Hpre. apply moves_syscall; [apply _|]. intros d d' a Hd. destruct (d !! p) eqn:E; injection Hd as <- _; [reflexivity|].
  apply init_change_insert; [done|]. intros Heq. by destruct (key_not_prefix p Hpre).
Qed.
Lemma create_dir_all_change above rest : above ++ rest = sd -> moves init_change (create_dir_all fault umask euid above rest).
Proof.
  revert above. induction rest as [|name rest IH]; intros above Heq; cbn [create_dir_all]; [intros s; reflexivity|].
  apply moves_bind; [apply _|apply create_dir_change; exists rest; by rewrite <- app_assoc|intros _].
  apply moves_bind; [apply _|intros s; reflexivity|intros b]. apply moves_bind; [apply _|intros s; unfold sys_require; by destruct b|intros _].
  apply IH. by rewrite <- app_assoc.
Qed.
Lemma secure_change : moves init_change (secure_state_directory fault euid sd).
Proof.
  intros s. unfold secure_state_directory, mbind, sys_bind. destruct (symlink_metadata fault sd s) as [s1 [e|e]] eqn:E1.
  2:{ assert (Hs : moves init_change (symlink_metadata fault sd)); [|specialize (Hs s); by rewrite E1 in Hs].
      apply moves_syscall; [apply _|]. intros d d' a. destruct (d !! sd); [|done]. intros [= -> _]. reflexivity. }
  apply syscall_Ok in E1. destruct (sy_disk s !! sd) as [e1|] eqn:He; [|done]. cbn in E1. injection E1 as Hs1 ->. unfold sys_require.
  case_bool_decide as Hk; [|cbn; by rewrite <- Hs1]. destruct (N.eqb_spec (en_uid e) euid) as [Hu|]; [|cbn; by rewrite <- Hs1].
  rewrite Hs1 in He |- *. unfold set_permissions. destruct (syscall fault _ s1) as [s2 [[]|err]] eqn:E2; cbn.
  - apply syscall_Ok in E2. rewrite He in E2. cbn in E2. injection E2 as E2. rewrite <- E2. split_and!.
    + intros p x Hp Hne. by rewrite lookup_alter_ne.
    + intros x Hx. assert (x = e) as -> by congruence. exists (set_mode 448 e). rewrite lookup_alter_eq, He. split; [done|]. right. done.
    + intros x Hn. rewrite lookup_alter_ne by (intros Hc; by apply (child_ne (lit "host-key.der"))). congruence.
  - assert (Hs : sy_disk s2 = sy_disk s1); [|by rewrite Hs]. unfold syscall in E2. destruct (fault _); [by injection E2 as <- _|].
    rewrite He in E2. done.
Qed.
Lemma secure_Ok s s' :
  secure_state_directory fault euid sd s = (s', Ok tt) -> exists e, sy_disk s' !! sd = Some e /\ secured e.
Proof.
  unfold secure_state_directory. intros (s1 & e & E1 & H)%sys_bind_Ok. apply sys_bind_Ok in H as (s2 & [] & [-> Hk]%sys_require_Ok & H).
  apply sys_bind_Ok in H as (s3 & [] & [-> Hu]%sys_require_Ok & H). apply syscall_Ok in E1, H. bool_prop.
  destruct (sy_disk s !! sd) as [e1|] eqn:He; [|done]. cbn in E1. injection E1 as Hs1 ->. rewrite <- Hs1, He in H. cbn in H. injection H as <-.
  exists (set_mode 448 e). rewrite lookup_alter_eq, He. done.
Qed.
Definition identity_step generated has_cert has_key : SysM () :=
  match has_cert, has_key with
  | false, false =>
      '(cert, key) ← (fun s => (s, generated));
      _ ← write_new_file fault partial umask euid (sp_cert paths) cert 420;
      write_new_file fault partial umask euid (sp_key paths) key 384
  | true, true => mret tt
  | _, _ => sys_require false "incomplete host identity"
  end.
Lemma identity_step_change generated has_cert has_key : moves init_change (identity_step generated has_cert has_key).
Proof.
  assert (Hne : sp_cert paths <> sp_key paths) by (intros Hc; apply (app_inv_head sd) in Hc; discriminate Hc).
  destruct has_cert, has_key; try (intros s; reflexivity). apply moves_bind; [apply _|intros s; reflexivity|intros [cert key]].
  apply moves_bind; [apply _|by apply write_new_file_change|intros _]. by apply write_new_file_change.
Qed.
Lemma initialize_change generated instance :
  moves init_change (initialize_state fault partial umask euid paths generated instance).
Proof.
  unfold initialize_state. apply moves_bind; [apply _|by apply create_dir_all_change|intros _].
  apply moves_bind; [apply _|apply secure_change|intros _]. apply moves_bind; [apply _|intros s; reflexivity|intros has_cert].
  apply moves_bind; [apply _|intros s; reflexivity|intros has_key].
  assert (Hne : forall name, name <> lit "host-key.der" -> sd ++ [name] <> sp_key paths) by (intros name Hn Hc; apply (app_inv_head sd) in Hc; congruence).
  apply moves_bind; [apply _|exact (identity_step_change generated has_cert has_key)|intros _].
  apply moves_bind; [apply _|intros s; reflexivity|intros has_keys]. apply moves_bind; [apply _| |intros _].
  - destruct has_keys; [intros s; reflexivity|]. by apply write_new_file_change.
  - apply moves_bind; [apply _|intros s; reflexivity|intros has_id]. destruct has_id; [intros s; reflexivity|].
      apply write_new_file_change. intros Hc. by destruct (Hne (lit "instance-id")).
Qed.

(** What exists stays. *)
Lemma exists_change d d' p : init_change d d' -> exists_at d p = true -> exists_at d' p = true.
Proof.
  intros (Ha & Hb & _) He. unfold exists_at in *. destruct (d !! p) as [e|] eqn:Hp; [|done]. destruct (decide (p = sd)) as [->|Hne].
  - destruct (Hb e Hp) as (e' & -> & [->|(Hk & _ & ->)]); [done|]. cbn. by rewrite Hk.
  - by rewrite (Ha p e Hp Hne).
Qed.
Lemma is_dir_change d d' p : init_change d d' -> is_dir_at d p = true -> is_dir_at d' p = true.
Proof.
  intros (Ha & Hb & _) He. unfold is_dir_at in *. destruct (d !! p) as [e|] eqn:Hp; [|done]. destruct (decide (p = sd)) as [->|Hne].
  - destruct (Hb e Hp) as (e' & -> & [->|(Hk & _ & ->)]); [done|]. cbn. by rewrite Hk.
  - by rewrite (Ha p e Hp Hne).
Qed.
Fixpoint dirs_ok (d : Disk) (above rest : Path) : Prop :=
  match rest with [] => True | name :: rest => is_dir_at d (above ++ [name]) = true /\ dirs_ok d (above ++ [name]) rest end.
Lemma dirs_change d d' above rest : init_change d d' -> dirs_ok d above rest -> dirs_ok d' above rest.
Proof. intros Hc. revert above. induction rest as [|name rest IH]; intros above; [done|]. intros [? ?]. split; [by eapply is_dir_change|by apply IH]. Qed.
Lemma create_dir_all_Ok above rest s s' :
  above ++ rest = sd -> create_dir_all fault umask euid above rest s = (s', Ok tt) -> dirs_ok (sy_disk s') above rest.
Proof.
  revert above s. induction rest as [|name rest IH]; intros above s Heq Hc; [done|]. cbn [create_dir_all] in Hc.
  apply sys_bind_Ok in Hc as (s1 & b & _ & Hc). apply sys_bind_Ok in Hc as (s2 & present & Hp & Hc). injection Hp as <- <-.
  apply sys_bind_Ok in Hc as (s3 & [] & [-> Hdir]%sys_require_Ok & Hc). assert (Heq' : (above ++ [name]) ++ rest = sd) by (by rewrite <- app_assoc).
  split; [|by eapply IH]. eapply is_dir_change; [|exact Hdir].
  pose proof (create_dir_all_change (above ++ [name]) rest Heq' s1) as Hk. by rewrite Hc in Hk.
Qed.

(** *** The files of a successful run *)

Definition initialized (d : Disk) : Prop :=
  (exists e, d !! sd = Some e /\ secured e) /\ dirs_ok d [] sd /\
  forallb (exists_at d) [sp_cert paths; sp_key paths; sp_authorized_keys paths; sp_instance_id paths] = true.

Lemma ensure_file_Ok p contents mode s s' :
  (p = sp_key paths -> mode = 384) ->
  (if exists_at (sy_disk s) p then mret tt else write_new_file fault partial umask euid p contents mode) s = (s', Ok tt) ->
  exists_at (sy_disk s') p = true /\ init_change (sy_disk s) (sy_disk s').
Proof.
  intros Hmode. destruct (exists_at (sy_disk s) p) eqn:E; [by intros [= <-]|]. intros Hw.
  pose proof (write_new_file_change p contents mode Hmode s) as Hc. pose proof (write_new_file_spec p contents mode s) as H. rewrite Hw in H, Hc.
  destruct H as [_ H]. destruct (H eq_refl) as [_ Hd]. split; [|done]. unfold exists_at. by rewrite Hd, lookup_insert_eq.
Qed.
Lemma secure_exists s s' p :
  secure_state_directory fault euid sd s = (s', Ok tt) -> exists_at (sy_disk s') p = exists_at (sy_disk s) p.
Proof.
  unfold secure_state_directory. intros (s1 & e & E1 & H)%sys_bind_Ok. apply sys_bind_Ok in H as (s2 & [] & [-> _]%sys_require_Ok & H).
  apply sys_bind_Ok in H as (s3 & [] & [-> _]%sys_require_Ok & H). apply syscall_Ok in E1, H.
  destruct (sy_disk s !! sd) as [e1|] eqn:He; [|done]. cbn in E1. injection E1 as Hs1 ->. rewrite <- Hs1, He in H. cbn in H. injection H as <-.
  unfold exists_at. rewrite lookup_alter. case_decide as Hp; [|done]. subst p. by rewrite He.
Qed.
(** The directories do not touch what is below them. *)
Lemma create_dir_all_below name above rest :
  above ++ rest = sd -> moves (fun d d' => d' !! (sd ++ [name]) = d !! (sd ++ [name])) (create_dir_all fault umask euid above rest).
Proof.
  set (R := fun d d' : Disk => d' !! (sd ++ [name]) = d !! (sd ++ [name])).
  assert (HT : Transitive R) by (intros d1 d2 d3; unfold R; congruence). assert (HR : Reflexive R) by done.
  revert above. induction rest as [|x rest IH]; intros above Heq; cbn [create_dir_all]; [by intros s|].
  apply moves_bind; [done| |intros _; apply moves_bind; [done|by intros s|intros b]].
  - apply moves_syscall; [done|]. intros d d' a Hd. destruct (d !! (above ++ [x])); injection Hd as <- _; [done|]. unfold R.
    rewrite lookup_insert_ne; [done|]. intros Hc. apply (f_equal length) in Hc. subst sd. rewrite !length_app in Hc. cbn in Hc. lia.
  - apply moves_bind; [done|intros s; unfold sys_require; by destruct b|intros _]. apply IH. by rewrite <- app_assoc.
Qed.

Lemma identity_step_Ok generated s s' :
  let present := exists_at (sy_disk s) in
  identity_step generated (present (sp_cert paths)) (present (sp_key paths)) s = (s', Ok tt) ->
  present (sp_cert paths) = present (sp_key paths) /\ forallb (exists_at (sy_disk s')) [sp_cert paths; sp_key paths] = true /\
  (present (sp_key paths) = false ->
   exists cert key, generated = Ok (cert, key) /\ sy_disk s' !! sp_cert paths = Some (mkEntry PkFile euid 420 cert true) /\
     sy_disk s' !! sp_key paths = Some (mkEntry PkFile euid 384 key true)).
Proof.
  cbn zeta. assert (Hne : sp_key paths <> sp_cert paths) by (intros Hc; apply (app_inv_head sd) in Hc; discriminate Hc).
  destruct (exists_at (sy_disk s) (sp_cert paths)) eqn:Ec, (exists_at (sy_disk s) (sp_key paths)) eqn:Ek; try done; cbn [identity_step].
  - intros [= <-]. cbn [forallb]. by rewrite Ec, Ek.
  - intros (s1 & [cert key] & [= -> ->] & H)%sys_bind_Ok. apply sys_bind_Ok in H as (s2 & [] & H1 & H2).
    pose proof (write_new_file_spec (sp_cert paths) cert 420 s1) as W1. rewrite H1 in W1. destruct W1 as [_ W1]. destruct (W1 eq_refl) as [_ D1].
    pose proof (write_new_file_spec (sp_key paths) key 384 s2) as W2. rewrite H2 in W2. destruct W2 as [_ W2]. destruct (W2 eq_refl) as [_ D2].
    assert (Hkey : sy_disk s' !! sp_key paths = Some (mkEntry PkFile euid 384 key true)) by (rewrite D2; by rewrite lookup_insert_eq).
    assert (Hcert : sy_disk s' !! sp_cert paths = Some (mkEntry PkFile euid 420 cert true))
      by (rewrite D2, lookup_insert_ne by done; rewrite D1; by rewrite lookup_insert_eq).
    split; [done|]. split; [|eauto]. cbn [forallb]. unfold exists_at. by rewrite Hcert, Hkey.
Qed.
(** *** Another run *)

Lemma create_dir_all_again um above rest s :
  dirs_ok (sy_disk s) above rest ->
  exists s', create_dir_all (fun _ => None) um euid above rest s = (s', Ok tt) /\ sy_disk s' = sy_disk s.
Proof.
  revert above s. induction rest as [|name rest IH]; intros above s Hd; [by exists s|]. destruct Hd as [Hd Hr]. cbn [create_dir_all].
  assert (Hp : is_Some (sy_disk s !! (above ++ [name]))) by (unfold is_dir_at in Hd; by destruct (_ !! _)). destruct Hp as [e He].
  unfold create_dir, syscall, mbind, sys_bind. rewrite He. cbn [sy_disk]. rewrite Hd. cbn [sys_require].
  destruct (IH (above ++ [name]) (mkSys (sy_disk s) (S (sy_calls s))) Hr) as (s' & -> & Hs). by exists s'.
Qed.
Lemma secure_again s e :
  sy_disk s !! sd = Some e -> secured e ->
  exists s', secure_state_directory (fun _ => None) euid sd s = (s', Ok tt) /\ sy_disk s' = sy_disk s.
Proof.
  intros He (Hk & Hu & Hm). unfold secure_state_directory, symlink_metadata, set_permissions, syscall, mbind, sys_bind. rewrite He.
  cbn [ok_or result_bind sy_disk sy_calls mbind]. unfold sys_require. rewrite Hk, Hu, N.eqb_refl. cbn [bool_decide]. rewrite bool_decide_true by done.
  cbn [sy_disk sy_calls]. rewrite He. cbn. eexists. split; [reflexivity|]. cbn. apply map_eq. intros q. rewrite lookup_alter. case_decide as Hq; [|done].
  subst q. rewrite He. cbn. by destruct e; cbn in *; subst.
Qed.
Lemma initialize_again part um generated instance d n :
  initialized d ->
  let '(s', r) := initialize_state (fun _ => None) part um euid paths generated instance (mkSys d n) in r = Ok tt /\ sy_disk s' = d.
Proof.
  intros ((e & He & Hsec) & Hdirs & Hall). unfold initialize_state.
  destruct (create_dir_all_again um [] sd (mkSys d n) Hdirs) as (s1 & H1 & D1). unfold mbind, sys_bind at 1. cbn [sp_state_dir server_paths].
  rewrite H1. destruct (secure_again s1 e) as (s2 & H2 & D2); [by rewrite D1|done|]. unfold sys_bind at 1. rewrite H2. cbn [sy_disk] in D1.
  unfold sys_exists, sys_bind. rewrite D2, D1. cbn [forallb] in Hall. bool_prop. rewrite H, H0. cbv beta iota zeta.
  unfold mret, sys_ret. cbv beta iota zeta. rewrite D2, D1, H3. cbv beta iota. rewrite D2, D1, H4. cbv beta iota. by rewrite D2, D1.
Qed.
Lemma initialize_Ok generated instance s s' :
  initialize_state fault partial umask euid paths generated instance s = (s', Ok tt) ->
  initialized (sy_disk s') /\ exists_at (sy_disk s) (sp_cert paths) = exists_at (sy_disk s) (sp_key paths) /\
  (exists_at (sy_disk s) (sp_key paths) = false ->
   exists cert key, generated = Ok (cert, key) /\ sy_disk s' !! sp_cert paths = Some (mkEntry PkFile euid 420 cert true) /\
     sy_disk s' !! sp_key paths = Some (mkEntry PkFile euid 384 key true)).
Proof.
  unfold initialize_state. intros (s1 & [] & H1 & H)%sys_bind_Ok. apply sys_bind_Ok in H as (s2 & [] & H2 & H).
  apply sys_bind_Ok in H as (s2' & hc & [= <- <-] & H). apply sys_bind_Ok in H as (s2' & hk & [= <- <-] & H).
  apply sys_bind_Ok in H as (s3 & [] & H3 & H). pose proof H3 as H3'. apply (identity_step_Ok generated s2 s3) in H3 as (Hsame & Hid & Hnew).
  cbn [sp_state_dir server_paths] in H1, H2.
  apply sys_bind_Ok in H as (s3' & hk & [= <- <-] & H). apply sys_bind_Ok in H as (s4 & [] & H4 & H).
  apply sys_bind_Ok in H as (s4' & hi & [= <- <-] & H5).
  assert (Hne : forall name, name <> lit "host-key.der" -> sd ++ [name] <> sp_key paths)
    by (intros name Hn Hc; apply (app_inv_head sd) in Hc; congruence).
  apply ensure_file_Ok in H4 as [E4 C4]; [|done]. apply ensure_file_Ok in H5 as [E5 C5]; [|intros Hc; by destruct (Hne (lit "instance-id"))].
  pose proof (create_dir_all_Ok [] sd s s1 eq_refl H1) as Hdirs. apply secure_Ok in H2 as Hsec. destruct Hsec as (e & He & Hsec).
  assert (C2 : init_change (sy_disk s1) (sy_disk s2)) by (pose proof (secure_change s1) as Hc; by rewrite H2 in Hc).
  assert (C3 : init_change (sy_disk s2) (sy_disk s3)).
  { pose proof (identity_step_change generated (exists_at (sy_disk s2) (sp_cert paths)) (exists_at (sy_disk s2) (sp_key paths)) s2) as Hc.
    change (identity_step generated (exists_at (sy_disk s2) (sp_cert paths)) (exists_at (sy_disk s2) (sp_key paths)) s2 = (s3, Ok tt)) in H3'.
    by rewrite H3' in Hc. }
  assert (C35 : init_change (sy_disk s3) (sy_disk s')) by (etrans; [exact C4|exact C5]).
  assert (Hbelow : forall name, exists_at (sy_disk s2) (sd ++ [name]) = exists_at (sy_disk s) (sd ++ [name])).
  { intros name. rewrite (secure_exists _ _ _ H2). unfold exists_at. pose proof (create_dir_all_below name [] sd eq_refl s) as Hb. rewrite H1 in Hb.
    cbn in Hb. by rewrite Hb. }
  cbn [sp_cert sp_key server_paths] in *. rewrite <- !Hbelow. split_and!; [|done|].
  - split_and!.
    + assert (Hk : init_change (sy_disk s2) (sy_disk s')) by (etrans; [exact C3|exact C35]). destruct Hk as (_ & Hk & _).
      destruct (Hk e He) as (e' & He' & Hor). exists e'. split; [done|]. destruct Hor as [->|(Hk1 & Hk2 & ->)]; [done|]. by split_and!.
    + apply (dirs_change (sy_disk s1)); [|done]. etrans; [exact C2|]. etrans; [exact C3|exact C35].
    + cbn [forallb sp_cert sp_key server_paths] in Hid |- *. bool_prop. cbn [sp_authorized_keys sp_instance_id server_paths] in *.
      rewrite (exists_change _ _ _ C35 H), (exists_change _ _ _ C35 H0).
      by rewrite (exists_change _ _ _ C5 E4), E5.
  - intros Hk. destruct (Hnew Hk) as (c & k & -> & Hcf & Hkf). exists c, k. destruct C35 as (Ha & _). split; [done|].
    split; apply Ha; try done; apply child_ne.
Qed.
(** C28: [astrad init] under any failing system calls, or cut short after any of them, changes nothing that exists but the mode of its own
    directory, which has to be a real directory of the daemon's user, and a private key it creates is never open to anybody else.  When
    it succeeds the directory is closed to others, the four files of the state are there, a certificate and its key that were both
    missing are written whole, with the generated contents, a half of an identity was refused, and any later run succeeds and
    changes nothing. *)
Theorem init_safe generated instance s :
  let '(s', r) := initialize_state fault partial umask euid paths generated instance s in
  init_change (sy_disk s) (sy_disk s') /\
  (r = Ok tt ->
   initialized (sy_disk s') /\ exists_at (sy_disk s) (sp_cert paths) = exists_at (sy_disk s) (sp_key paths) /\
   (exists_at (sy_disk s) (sp_key paths) = false ->
    exists cert key, generated = Ok (cert, key) /\ sy_disk s' !! sp_cert paths = Some (mkEntry PkFile euid 420 cert true) /\
      sy_disk s' !! sp_key paths = Some (mkEntry PkFile euid 384 key true)) /\
   forall part' umask' generated' instance' n,
     let '(s2, r2) := initialize_state (fun _ => None) part' umask' euid paths generated' instance' (mkSys (sy_disk s') n) in
     r2 = Ok tt /\ sy_disk s2 = sy_disk s').
Proof.
  pose proof (initialize_change generated instance s) as Hc. destruct (initialize_state _ _ _ _ _ _ _ s) as [s' r] eqn:H. split; [exact Hc|].
  intros ->. apply initialize_Ok in H as (Hi & Hsame & Hnew). split_and!; [done..|]. intros. by apply initialize_again.
Qed.
(** ** The directory of a user *)

Section user.
Variables (root : Path) (name : bytes) (uid : N).
Abbreviation user_dir := (root ++ [name]).
Definition private_to (owner : N) (e : Entry) : Prop := en_kind e = PkDirectory /\ en_uid e = owner /\ N.land (en_mode e) 63 = 0.

Lemma symlink_metadata_Ok p s s' e : symlink_metadata fault p s = (s', Ok e) -> sy_disk s' = sy_disk s /\ sy_disk s !! p = Some e.
Proof. intros H%syscall_Ok. destruct (sy_disk s !! p) eqn:E; [|done]. cbn in H. by injection H as <- <-. Qed.
Definition only_user_dir (d d' : Disk) : Prop := forall q, q <> user_dir -> d' !! q = d !! q.
#[local] Instance elsewhere_refl : Reflexive only_user_dir. Proof. by intros d q. Qed.
#[local] Instance elsewhere_trans : Transitive only_user_dir.
Proof. intros d1 d2 d3 H1 H2 q Hq. rewrite (H2 q Hq). by apply H1. Qed.
Lemma alter_elsewhere (f : Entry -> Entry) :
  moves only_user_dir (syscall fault (fun d => _ ← ok_or (d !! user_dir) "not found"; Ok (alter f user_dir d, tt))).
Proof. apply moves_syscall; [apply _|]. intros d d' a Hd q Hq. destruct (d !! user_dir); [|done]. injection Hd as <- _. by rewrite lookup_alter_ne. Qed.
Lemma validate_directory_keeps p forbidden s owner : sy_disk (validate_directory fault p owner forbidden s).1 = sy_disk s.
Proof.
  unfold validate_directory, symlink_metadata, syscall, mbind, sys_bind. destruct (fault _); [done|]. destruct (sy_disk s !! p); [|done].
  cbn [ok_or mbind result_bind]. unfold sys_require. by destruct (_ && _ && _).
Qed.
(** The tail of the call, once the directory is seen to be missing. *)
Definition create_user_dir : SysM Path :=
  created ← create_dir fault umask euid user_dir;
  _ ← sys_require created "file exists";
  _ ← set_permissions fault user_dir 448;
  _ ← (if euid =? 0 then chown fault user_dir uid else mret tt);
  mret user_dir.
Lemma create_user_dir_elsewhere : moves only_user_dir create_user_dir.
Proof.
  assert (Hp : forall A (a : A), moves only_user_dir (mret (M := SysM) a)) by (intros A a s q; done).
  apply moves_bind; [apply _| |intros b].
  { apply moves_syscall; [apply _|]. intros d d' a Hd q Hq. destruct (d !! user_dir); injection Hd as <- _; [done|]. by rewrite lookup_insert_ne. }
  apply moves_bind; [apply _|intros s q; by destruct b|intros _]. apply moves_bind; [apply _|apply alter_elsewhere|intros _].
  apply moves_bind; [apply _| |intros _; apply Hp]. destruct (euid =? 0); [apply alter_elsewhere|apply Hp].
Qed.
Lemma create_user_dir_Ok s s' p :
  create_user_dir s = (s', Ok p) -> sy_disk s !! user_dir = None /\ p = user_dir /\
  sy_disk s' !! user_dir = Some (mkEntry PkDirectory (if euid =? 0 then uid else euid) 448 [] true).
Proof.
  intros (s1 & b & H1%syscall_Ok & H)%sys_bind_Ok. apply sys_bind_Ok in H as (s2 & [] & [-> ->]%sys_require_Ok & H).
  apply sys_bind_Ok in H as (s3 & [] & H2%syscall_Ok & H). apply sys_bind_Ok in H as (s4 & [] & H3 & [= <- <-]).
  destruct (sy_disk s !! user_dir); [done|]. injection H1 as H1. rewrite <- H1, lookup_insert_eq in H2. cbn in H2. injection H2 as H2.
  assert (Hd3 : sy_disk s3 !! user_dir = Some (mkEntry PkDirectory euid 448 [] true)) by (rewrite <- H2, lookup_alter_eq, lookup_insert_eq; done).
  split_and!; [done..|]. destruct (N.eqb_spec euid 0); [|by injection H3 as <-]. apply syscall_Ok in H3. rewrite Hd3 in H3. cbn in H3.
  injection H3 as H3. by rewrite <- H3, lookup_alter_eq, Hd3.
Qed.

(** The gateway gives out the directory of a user, under any failing system calls, only when it is a real directory that nobody but
    its owner can enter and that belongs to the user (for a gateway without privileges a new one is its own); a directory that exists
    is never changed, and nothing else on the disk ever is. *)
Theorem user_directory_safe s :
  let '(s', r) := prepare_user_state fault umask euid root name uid s in
  (forall q, q <> user_dir -> sy_disk s' !! q = sy_disk s !! q) /\
  (forall e, sy_disk s !! user_dir = Some e -> sy_disk s' = sy_disk s) /\
  (forall p, r = Ok p -> p = user_dir /\ exists e, sy_disk s' !! p = Some e /\
     (private_to uid e \/ sy_disk s !! user_dir = None /\ euid <> 0 /\ private_to euid e)).
Proof.
  unfold prepare_user_state. unfold mbind, sys_bind at 1. pose proof (validate_directory_keeps root 18 s euid) as Hv.
  destruct (validate_directory fault root euid 18 s) as [s1 [[]|e]]; cbn in Hv; [|by rewrite Hv; split_and!]. rewrite <- Hv. clear s Hv.
  unfold sys_bind at 1, syscall at 1. destruct (fault _); [by split_and!|]. set (s2 := mkSys (sy_disk s1) (S (sy_calls s1))).
  destruct (sy_disk s1 !! user_dir) as [m|] eqn:Hm.
  - unfold sys_bind, sys_require. destruct (bool_decide _) eqn:Hk; cbn; [|by split_and!]. destruct (N.eqb_spec (en_uid m) uid); cbn; [|by split_and!].
    destruct (N.eqb_spec (N.land (en_mode m) 63) 0); cbn; [|by split_and!]. split_and!; [done..|]. intros p [= <-]. split; [done|].
    exists m. split; [done|]. left. by apply bool_decide_eq_true in Hk.
  - change (let '(s', r) := create_user_dir s2 in only_user_dir (sy_disk s2) (sy_disk s') /\ (forall e : Entry, None = Some e -> sy_disk s' = sy_disk s1) /\
      (forall p, r = Ok p -> p = user_dir /\ exists e, sy_disk s' !! p = Some e /\
        (private_to uid e \/ @None Entry = None /\ euid <> 0 /\ private_to euid e))).
    pose proof (create_user_dir_elsewhere s2) as He. destruct (create_user_dir s2) as [s' r] eqn:E. split_and!; [exact He|done|].
    intros p ->. apply create_user_dir_Ok in E as (_ & -> & Hd). split; [done|]. eexists. split; [exact Hd|].
    destruct (N.eqb_spec euid 0); [left|right]; by split_and!.
Qed.
End user.
End spec.

(** The first [init] below an existing [/srv]. *)
Definition first_disk : Disk := {[ [lit "srv"] := mkEntry PkDirectory 0 493 [] true ]}.
Lemma init_safe_witness :
  let '(s', r) := initialize_state (fun _ => None) 0 18 1000 (server_paths [lit "srv"; lit "astra"]) (Ok ([1; 2], [3])) [7] (mkSys first_disk 0) in
  r = Ok tt /\ sy_disk s' !! [lit "srv"; lit "astra"; lit "host-key.der"] = Some (mkEntry PkFile 1000 384 [3] true).
Proof.
  pose proof (init_safe (fun _ => None) 0 18 1000 [lit "srv"; lit "astra"] (Ok ([1; 2], [3])) [7] (mkSys first_disk 0)) as H.
  destruct (initialize_state _ _ _ _ _ _ _ _) as [s' r] eqn:E.
  assert (r = Ok tt) as ->.
  { transitivity (initialize_state (fun _ => None) 0 18 1000 (server_paths [lit "srv"; lit "astra"]) (Ok ([1; 2], [3])) [7] (mkSys first_disk 0)).2;
      [by rewrite E|vm_compute; reflexivity]. }
  split; [done|].
  destruct H as [_ H]. destruct (H eq_refl) as (_ & _ & Hnew & _). destruct Hnew as (c & k & [= <- <-] & _ & Hk); [done|]. exact Hk.
Defined.

(** The root gateway meets a new user. *)
Definition gateway_disk : Disk := {[ [lit "users"] := mkEntry PkDirectory 0 457 [] true ]}.
Lemma user_directory_safe_witness :
  let '(s', r) := prepare_user_state (fun _ => None) 18 0 [lit "users"] (lit "1000") 1000 (mkSys gateway_disk 0) in
  r = Ok [lit "users"; lit "1000"] /\ exists e, sy_disk s' !! [lit "users"; lit "1000"] = Some e /\ private_to 1000 e.
Proof.
  pose proof (user_directory_safe (fun _ => None) 18 0 [lit "users"] (lit "1000") 1000 (mkSys gateway_disk 0)) as H.
  destruct (prepare_user_state _ _ _ _ _ _ _) as [s' r] eqn:E.
  assert (r = Ok [lit "users"; lit "1000"]) as ->.
  { transitivity (prepare_user_state (fun _ => None) 18 0 [lit "users"] (lit "1000") 1000 (mkSys gateway_disk 0)).2;
      [by rewrite E|vm_compute; reflexivity]. }
  split; [done|]. destruct H as (_ & _ & H). destruct (H _ eq_refl) as (_ & e & He & [Hp|(_ & Hc & _)]); [by exists e|done].
Defined.
(** A gateway that is stopped before the directory is handed over leaves one that it refuses from then on. *)
Example interrupted_user_directory :
  let fault k := if Nat.eqb k 4 then Some "stopped" else None in
  let '(s', r) := prepare_user_state fault 18 0 [lit "users"] (lit "1000") 1000 (mkSys gateway_disk 0) in
  r = Err "stopped" /\
  (prepare_user_state (fun _ => None) 18 0 [lit "users"] (lit "1000") 1000 s').2 = Err "is owned by another UID".
Proof. vm_compute. done. Qed.
