(* ===== verification/Forwarding.v ===== *)
(** * Forwarded TCP connections ([forwarding.rs])

    A request to open a connection reserves it, connects to the target and acknowledges; then two concurrent loops
    copy frames of the client to the socket of the target, and bytes of the target to frames for
    the client.  The end of one direction is a frame of its own; the end of the stream in between cancels the connection. *)
From S2P Require Import Prelude Text Resources Negotiation Messages Authentication.
Open Scope N_scope.

Definition MAX_DATA : N := 32 * 1024.
Definition MAX_WIRE : N := MAX_DATA + 64.
Definition BUFFER_RESERVATION : N := 256 * 1024.
Record ForwardFrame := mkForwardFrame { ff_data : bytes; ff_eof : bool }.

Section forwarding.
(** [Uuid::parse_str] *)
Variable parse_uuid : string -> option string.

(** ** Opening *)

Definition validate_open (r : OpenTcpForwardRequest) : result () :=
  ensure! from_option (fun _ => true) false (parse_uuid (of_mapping_id r)), "invalid mapping ID";
  let host := lit (of_host r) in
  ensure! negb (bool_decide (host = [])) && (text_len host <=? 253) && negb (existsb (fun c => is_whitespace c || is_control c) host),
    "invalid target host";
  ensure! (1 <=? of_port r) && (of_port r <=? 65535), "invalid target port";
  Ok tt.

(** What comes first: the outcome of the connection to the target, or something on the stream of the client. *)
Inductive Target := TargetConnected | TargetUnavailable (e : string) | TargetTimeout | ClientFirst.
(** A response with an error; the acknowledgement, with the reservation; or the end of the stream without a response. *)
Inductive Opening := Rejected (code message : string) | Established (held : list PoolReservation) | OpenAborted (e : string).

Definition forward_claim : ResourceClaim := mkClaim 0 0 0 0 0 0 0 1 BUFFER_RESERVATION 0 0 0.
(** An end with the reservation dropped. *)
Definition dropped (held : list PoolReservation) (o : Opening) (s : PoolStore) : PoolStore * Opening :=
  match drop_reservations s held with Some s => (s, o) | None => (s, OpenAborted "panic") end.
(** [serve], up to the acknowledgement *)
Definition open_forward (negotiated : NegotiatedProtocol) (r : OpenTcpForwardRequest) (account : ResourceAccount) (target : Target) (s : PoolStore)
    : PoolStore * Opening :=
  if negb (negotiated_has negotiated CAPABILITY_TCP_FORWARD 1) || negb (negotiated_has negotiated CAPABILITY_STREAM_CHANNELS 1) then
    (s, Rejected "unsupported" "TCP forwarding was not negotiated")
  else
    match validate_open r with
    | Err e => (s, Rejected "invalid_target" e)
    | Ok _ =>
        match account_reserve s account forward_claim with
        | (s, Failed q) => (s, Rejected "quota" (quota_message q))
        | (s, Panicked) => (s, OpenAborted "panic")
        | (s, Returned held) =>
            match target with
            | TargetConnected => (s, Established held)
            | TargetUnavailable e => dropped held (Rejected "target_unavailable" e) s
            | TargetTimeout => dropped held (Rejected "target_timeout" "Target connection timed out") s
            | ClientFirst => dropped held (OpenAborted "forward cancelled or data sent before acknowledgment") s
            end
        end
    end.
End forwarding.

(** ** Copying *)

(** What the reader of the client's stream returns. *)
Inductive ClientItem := ItemFrame (f : ForwardFrame) | ItemOther | ItemEnd | ItemError (e : string).
(** The loop from the client: about to read, writing the rest of a frame to the target, or only listening for a cancellation. *)
Inductive Incoming := ReadingClient | WritingTarget (rest : bytes) | Listening.
(** The loop to the client: about to read the target, writing a frame, or waiting for the other direction. *)
Inductive Outgoing := ReadingTarget | WritingClient (f : ForwardFrame) | AwaitingEof.
(** [br_target] and [br_client] are what was written; [br_read] and [br_given] what was read from client and target. *)
Record Bridge := mkBridge {
  br_incoming : Incoming; br_outgoing : Outgoing;
  br_target : bytes; br_target_shut : bool; br_client : list ForwardFrame; br_client_shut : bool;
  br_read : list ForwardFrame; br_given : bytes; br_end : option (result ()) }.
Definition bridge_start : Bridge := mkBridge ReadingClient ReadingTarget [] false [] false [] [] None.

(** One completed operation of one of the loops.  [ClientSends] has the outcome of shutting the target
    down, [TargetGives] what [read] returns, [TargetTakes] how much [write_all] has written at once; a write that is not possible
    or times out is refused. *)
Inductive BridgeEvent :=
| ClientSends (item : ClientItem) (shutdown : result ())
| TargetTakes (n : nat)
| TargetRefuses (e : string)
| TargetGives (data : result bytes)
| ClientTakes
| ClientRefuses (e : string)
| EofSeen.

Definition set_incoming (i : Incoming) (b : Bridge) : Bridge :=
  mkBridge i (br_outgoing b) (br_target b) (br_target_shut b) (br_client b) (br_client_shut b) (br_read b) (br_given b) (br_end b).
Definition set_outgoing (o : Outgoing) (b : Bridge) : Bridge :=
  mkBridge (br_incoming b) o (br_target b) (br_target_shut b) (br_client b) (br_client_shut b) (br_read b) (br_given b) (br_end b).
(** The end of [select!]; after a success the stream to the client is shut down. *)
Definition finish_bridge (r : result ()) (b : Bridge) : Bridge :=
  mkBridge (br_incoming b) (br_outgoing b) (br_target b) (br_target_shut b) (br_client b)
    (match r with Ok _ => true | Err _ => br_client_shut b end) (br_read b) (br_given b) (Some r).

Definition valid_frame (f : ForwardFrame) : bool :=
  (N.of_nat (length (ff_data f)) <=? MAX_DATA) && Bool.eqb (ff_eof f) (bool_decide (ff_data f = [])).
(** The loop [incoming] gets [item] from the client. *)
Definition incoming_item (item : ClientItem) (shutdown : result ()) (b : Bridge) : Bridge :=
  match br_incoming b with
  | ReadingClient =>
      match item with
      | ItemError e => finish_bridge (Err e) b
      | ItemEnd => finish_bridge (Err "forward ended without EOF") b
      | ItemOther => finish_bridge (Err "expected ForwardFrame") b
      | ItemFrame f =>
          if valid_frame f then
            let b := mkBridge (br_incoming b) (br_outgoing b) (br_target b) (br_target_shut b) (br_client b) (br_client_shut b)
                       (br_read b ++ [f]) (br_given b) (br_end b) in
            if ff_eof f then
              match shutdown with
              | Ok _ => mkBridge Listening (br_outgoing b) (br_target b) true (br_client b) (br_client_shut b) (br_read b) (br_given b) (br_end b)
              | Err e => finish_bridge (Err e) b
              end
            else set_incoming (WritingTarget (ff_data f)) b
          else finish_bridge (Err "invalid forwarding frame") b
      end
  | Listening =>
      match item with
      | ItemError e => finish_bridge (Err e) b
      | _ => finish_bridge (Err "forward ended or sent data after EOF") b
      end
  | WritingTarget _ => b
  end.
Definition bridge_event (b : Bridge) (event : BridgeEvent) : Bridge :=
  match event with
  | ClientSends item shutdown => incoming_item item shutdown b
  | TargetTakes n =>
      match br_incoming b with
      | WritingTarget rest =>
          mkBridge (match drop n rest with [] => ReadingClient | rest => WritingTarget rest end) (br_outgoing b) (br_target b ++ take n rest)
            (br_target_shut b) (br_client b) (br_client_shut b) (br_read b) (br_given b) (br_end b)
      | _ => b
      end
  | TargetRefuses e => match br_incoming b with WritingTarget _ => finish_bridge (Err e) b | _ => b end
  | TargetGives data =>
      match br_outgoing b with
      | ReadingTarget =>
          match data with
          | Err e => finish_bridge (Err e) b
          | Ok data =>
              let data := take (N.to_nat MAX_DATA) data in
              mkBridge (br_incoming b) (WritingClient (mkForwardFrame data (bool_decide (data = [])))) (br_target b) (br_target_shut b)
                (br_client b) (br_client_shut b) (br_read b) (br_given b ++ data) (br_end b)
          end
      | _ => b
      end
  | ClientTakes =>
      match br_outgoing b with
      | WritingClient f =>
          mkBridge (br_incoming b) (if ff_eof f then AwaitingEof else ReadingTarget) (br_target b) (br_target_shut b) (br_client b ++ [f])
            (br_client_shut b) (br_read b) (br_given b) (br_end b)
      | _ => b
      end
  | ClientRefuses e => match br_outgoing b with WritingClient _ => finish_bridge (Err e) b | _ => b end
  | EofSeen =>
      match br_outgoing b, br_incoming b with
      | AwaitingEof, Listening => finish_bridge (Ok tt) b
      | _, _ => b
      end
  end.
Definition bridge_step (b : Bridge) (event : BridgeEvent) : Bridge := if br_end b then b else bridge_event b event.
Definition run_bridge (b : Bridge) (events : list BridgeEvent) : Bridge := foldl bridge_step b events.
