(* ===== verification/ForwardingSpec.v ===== *)
(** * Forwarded TCP connections: both directions are exact and accounted for *)
From S2P Require Import Prelude Text Resources Negotiation Messages Authentication Forwarding.
Open Scope N_scope.

(** ** Copying *)

Definition payload (frames : list ForwardFrame) : bytes := concat (ff_data <$> frames).
Definition data_frame (f : ForwardFrame) : Prop := ff_eof f = false /\ ff_data f <> [] /\ N.of_nat (length (ff_data f)) <= MAX_DATA.
Definition eof_frame : ForwardFrame := mkForwardFrame [] true.
(** Frames of one direction: data, and at most one end. *)
Definition direction (ended : bool) (frames : list ForwardFrame) : Prop :=
  exists l, Forall data_frame l /\ frames = l ++ if ended then [eof_frame] else [].

Definition unwritten (i : Incoming) : bytes := match i with WritingTarget rest => rest | _ => [] end.
Definition listening (i : Incoming) : bool := match i with Listening => true | _ => false end.
Definition unsent (o : Outgoing) : list ForwardFrame := match o with WritingClient f => [f] | _ => [] end.
Definition last_frame (o : Outgoing) : bool := match o with WritingClient f => ff_eof f | AwaitingEof => true | ReadingTarget => false end.
Definition bridge_inv (b : Bridge) : Prop :=
  br_target b ++ unwritten (br_incoming b) = payload (br_read b) /\
  (exists ended, direction ended (br_read b) /\ (listening (br_incoming b) = true -> ended = true) /\
     (br_end b = None -> ended = listening (br_incoming b))) /\
  (listening (br_incoming b) = true -> br_target_shut b = true) /\
  br_given b = payload (br_client b ++ unsent (br_outgoing b)) /\
  direction (last_frame (br_outgoing b)) (br_client b ++ unsent (br_outgoing b)) /\
  (br_client_shut b = true -> br_end b = Some (Ok tt)) /\
  (br_end b = Some (Ok tt) -> br_incoming b = Listening /\ br_outgoing b = AwaitingEof /\ br_client_shut b = true).

Lemma payload_app l k : payload (l ++ k) = payload l ++ payload k.
Proof. unfold payload. by rewrite fmap_app, concat_app. Qed.
Lemma valid_frame_cases f : valid_frame f = true -> f = eof_frame \/ data_frame f.
Proof.
  destruct f as [data eof]. unfold valid_frame. cbn. intros [Hl%N.leb_le He%eqb_prop]%andb_true_iff.
  destruct (decide (data = [])) as [->|Hne]; subst eof; [by left|right]. rewrite bool_decide_eq_false_2 by done. done.
Qed.
Lemma direction_snoc frames f : direction false frames -> data_frame f -> direction false (frames ++ [f]).
Proof. intros (l & Hl & ->) Hf. exists (l ++ [f]). rewrite !app_nil_r. split; [|done]. apply Forall_app. by split; [|apply Forall_singleton]. Qed.
Lemma direction_end frames : direction false frames -> direction true (frames ++ [eof_frame]).
Proof. intros (l & Hl & ->). exists l. by rewrite app_nil_r. Qed.
Lemma direction_start : direction false [].
Proof. by exists []. Qed.

Lemma bridge_inv_start : bridge_inv bridge_start.
Proof.
  unfold bridge_inv. cbn. split; [done|]. split; [exists false; split; [apply direction_start|done]|].
  repeat (split; [first [done|apply direction_start]|]). done.
Qed.
(** An end that is an error changes nothing that was copied. *)
Lemma finish_error_inv e b : br_end b = None -> bridge_inv b -> bridge_inv (finish_bridge (Err e) b).
Proof.
  intros Hn (H1 & (ended & H2 & H2' & _) & H3 & H4 & H5 & H6 & _). split_and!; cbn; try done; [exists ended; by split_and!|].
  intros Hs. specialize (H6 Hs). congruence.
Qed.
Lemma running_not_shut b : br_end b = None -> bridge_inv b -> br_client_shut b = false.
Proof. intros Hn (_ & _ & _ & _ & _ & H6 & _). destruct (br_client_shut b); [|done]. specialize (H6 eq_refl). congruence. Qed.
Ltac bridge_solve := split_and!; cbn; try done; try (intros; exfalso; congruence).
Lemma incoming_item_inv item shutdown b : br_end b = None -> bridge_inv b -> bridge_inv (incoming_item item shutdown b).
Proof.
  intros Hn Hinv. pose proof Hinv as (H1 & (ended & H2 & H2' & H2'') & H3 & H4 & H5 & H6 & H7). specialize (H2'' Hn).
  pose proof (running_not_shut b Hn Hinv) as Hns.
  unfold incoming_item. destruct (br_incoming b) eqn:Hi; [|done|by destruct item; apply finish_error_inv].
  destruct item as [f| | |e]; try by apply finish_error_inv. destruct (valid_frame f) eqn:Hv; [|by apply finish_error_inv].
  cbn [unwritten listening] in *. subst ended. rewrite app_nil_r in H1. destruct (valid_frame_cases f Hv) as [->|Hf].
  - cbn [ff_eof eof_frame]. pose proof (direction_end _ H2) as Hend.
    assert (Hp : br_target b ++ [] = payload (br_read b ++ [eof_frame])) by (rewrite payload_app, H1; done).
    destruct shutdown as [[]|e]; bridge_solve; try (by exists true); rewrite ?Hi; cbn; try done; by intros.
  - pose proof Hf as (-> & Hne & Hlen). pose proof (direction_snoc _ _ H2 Hf) as Hd.
    bridge_solve; [|by exists false]. fold (payload (br_read b ++ [f])). rewrite payload_app, <- H1. cbn. by rewrite app_nil_r.
Qed.
Lemma bridge_event_inv b event : br_end b = None -> bridge_inv b -> bridge_inv (bridge_event b event).
Proof.
  intros Hn Hinv. pose proof Hinv as (H1 & (ended & H2 & H2' & H2'') & H3 & H4 & H5 & H6 & H7). specialize (H2'' Hn).
  pose proof (running_not_shut b Hn Hinv) as Hns. destruct event as [item shutdown|n|e|[data|e]| |e|]; cbn [bridge_event].
  - by apply incoming_item_inv.
  - destruct (br_incoming b) eqn:Hi; try done. cbn [unwritten listening] in *.
    assert (Hw : unwritten (match drop n rest with [] => ReadingClient | rest => WritingTarget rest end) = drop n rest) by by destruct (drop n rest).
    assert (Hl : listening (match drop n rest with [] => ReadingClient | rest => WritingTarget rest end) = false) by by destruct (drop n rest).
    bridge_solve; rewrite ?Hw, ?Hl; try done; [|by exists ended; subst ended]. by rewrite <- app_assoc, take_drop.
  - destruct (br_incoming b) eqn:Hi; try done. by apply finish_error_inv.
  - destruct (br_outgoing b) eqn:Ho; try done. cbn [unsent last_frame] in *. rewrite app_nil_r in *.
    set (d := take (N.to_nat MAX_DATA) data). assert (Hd : N.of_nat (length d) <= MAX_DATA) by (unfold d; rewrite length_take; lia).
    bridge_solve; [by exists ended| |].
    + fold (payload (br_client b ++ [mkForwardFrame d (bool_decide (d = []))])). rewrite payload_app, H4. cbn. by rewrite app_nil_r.
    + destruct (decide (d = [])) as [->|Hne]; [by apply direction_end|]. rewrite bool_decide_eq_false_2 by done. by apply direction_snoc.
  - destruct (br_outgoing b) eqn:Ho; try done. by apply finish_error_inv.
  - destruct (br_outgoing b) eqn:Ho; try done. cbn [unsent last_frame] in *.
    assert (Hu : unsent (if ff_eof f then AwaitingEof else ReadingTarget) = []) by by destruct (ff_eof f).
    assert (Hl : last_frame (if ff_eof f then AwaitingEof else ReadingTarget) = ff_eof f) by by destruct (ff_eof f).
    bridge_solve; rewrite ?Hu, ?Hl, ?app_nil_r; try done. by exists ended.
  - destruct (br_outgoing b) eqn:Ho; try done. by apply finish_error_inv.
  - destruct (br_outgoing b) eqn:Ho, (br_incoming b) eqn:Hi; try done. cbn [unsent last_frame listening] in *.
    bridge_solve; rewrite ?Hi, ?Ho; cbn; try done. exists ended. by split_and!.
Qed.
Lemma run_bridge_inv b events : bridge_inv b -> bridge_inv (run_bridge b events).
Proof.
  revert b. induction events as [|event events IH]; intros b Hinv; [done|]. cbn. apply IH. unfold bridge_step.
  destruct (br_end b) eqn:Hn; [done|]. by apply bridge_event_inv.
Qed.

(** ** Completion *)

Definition piece (d : bytes) : Prop := d <> [] /\ N.of_nat (length d) <= MAX_DATA.
(** The client sends [l] and its end, and the target takes everything. *)
Definition client_events (l : list bytes) : list BridgeEvent :=
  flat_map (fun d => [ClientSends (ItemFrame (mkForwardFrame d false)) (Ok tt); TargetTakes (length d)]) l ++
  [ClientSends (ItemFrame eof_frame) (Ok tt)].
(** The target answers [l] and its end, and the client takes everything. *)
Definition target_events (l : list bytes) : list BridgeEvent :=
  flat_map (fun d => [TargetGives (Ok d); ClientTakes]) (l ++ [[]]).

Lemma run_bridge_app b l k : run_bridge b (l ++ k) = run_bridge (run_bridge b l) k.
Proof. apply foldl_app. Qed.
Lemma piece_frame d : piece d -> valid_frame (mkForwardFrame d false) = true.
Proof.
  intros [Hne Hl]. unfold valid_frame. cbn. rewrite bool_decide_eq_false_2 by done. apply andb_true_iff. split; [by apply N.leb_le|done].
Qed.
Lemma client_piece d b :
  piece d -> br_end b = None -> br_incoming b = ReadingClient ->
  run_bridge b [ClientSends (ItemFrame (mkForwardFrame d false)) (Ok tt); TargetTakes (length d)] =
  mkBridge ReadingClient (br_outgoing b) (br_target b ++ d) (br_target_shut b) (br_client b) (br_client_shut b)
    (br_read b ++ [mkForwardFrame d false]) (br_given b) None.
Proof.
  intros Hd Hn Hi. destruct b as [i o t ts c cs r g e]. cbn in *. subst. unfold bridge_step. cbn. rewrite (piece_frame d Hd). cbn.
  by rewrite drop_ge, take_ge by lia.
Qed.
Lemma target_piece d b :
  N.of_nat (length d) <= MAX_DATA -> br_end b = None -> br_outgoing b = ReadingTarget ->
  run_bridge b [TargetGives (Ok d); ClientTakes] =
  mkBridge (br_incoming b) (if bool_decide (d = []) then AwaitingEof else ReadingTarget) (br_target b) (br_target_shut b)
    (br_client b ++ [mkForwardFrame d (bool_decide (d = []))]) (br_client_shut b) (br_read b) (br_given b ++ d) None.
Proof.
  intros Hd Hn Ho. destruct b as [i o t ts c cs r g e]. cbn in *. subst. unfold bridge_step. cbn [br_end bridge_event br_outgoing].
  by rewrite take_ge by lia.
Qed.
Lemma client_run l b :
  Forall piece l -> br_end b = None -> br_incoming b = ReadingClient ->
  run_bridge b (client_events l) =
  mkBridge Listening (br_outgoing b) (br_target b ++ concat l) true (br_client b) (br_client_shut b)
    (br_read b ++ ((fun d => mkForwardFrame d false) <$> l) ++ [eof_frame]) (br_given b) None.
Proof.
  intros Hl. revert b. induction Hl as [|d l Hd _ IH]; intros b Hn Hi; unfold client_events; cbn [flat_map].
  - destruct b as [i o t ts c cs r g e]. cbn in *. subst. by rewrite app_nil_r.
  - rewrite <- app_assoc, run_bridge_app, client_piece by done. fold (client_events l). rewrite IH by done. cbn. by rewrite <- !app_assoc.
Qed.
Lemma target_run l b :
  Forall piece l -> br_end b = None -> br_outgoing b = ReadingTarget ->
  run_bridge b (target_events l) =
  mkBridge (br_incoming b) AwaitingEof (br_target b) (br_target_shut b) (br_client b ++ ((fun d => mkForwardFrame d false) <$> l) ++ [eof_frame])
    (br_client_shut b) (br_read b) (br_given b ++ concat l) None.
Proof.
  intros Hl. revert b. induction Hl as [|d l [Hd Hlen] _ IH]; intros b Hn Ho; unfold target_events; cbn [flat_map app].
  - rewrite target_piece by done. cbn. by rewrite !app_nil_r.
  - fold (target_events l).
    change (TargetGives (Ok d) :: ClientTakes :: target_events l) with ([TargetGives (Ok d); ClientTakes] ++ target_events l).
    rewrite run_bridge_app, target_piece by done. rewrite bool_decide_eq_false_2 by done. rewrite IH by done. cbn. by rewrite <- !app_assoc.
Qed.

(** From any running state. *)
Definition flush_in (b : Bridge) : list BridgeEvent := match br_incoming b with WritingTarget rest => [TargetTakes (length rest)] | _ => [] end.
Definition flush_out (b : Bridge) : list BridgeEvent := match br_outgoing b with WritingClient _ => [ClientTakes] | _ => [] end.
Lemma flushed b :
  br_end b = None ->
  run_bridge b (flush_in b ++ flush_out b) =
  mkBridge (if listening (br_incoming b) then Listening else ReadingClient) (if last_frame (br_outgoing b) then AwaitingEof else ReadingTarget)
    (br_target b ++ unwritten (br_incoming b)) (br_target_shut b) (br_client b ++ unsent (br_outgoing b)) (br_client_shut b)
    (br_read b) (br_given b) None.
Proof.
  intros Hn. destruct b as [i o t ts c cs r g e]. cbn in Hn. subst e. unfold flush_in, flush_out.
  destruct i as [|rest|], o as [|f|]; cbn; rewrite ?drop_ge, ?take_ge, ?app_nil_r by lia; cbn; by rewrite ?app_nil_r.
Qed.
#[local] Arguments payload : simpl never.
(** The rest of what both peers say goes through, if the peers take it. *)
Lemma bridge_completes b l k :
  br_end b = None -> bridge_inv b -> Forall piece l -> Forall piece k ->
  exists events, let b' := run_bridge b events in
    br_end b' = Some (Ok tt) /\ br_target_shut b' = true /\
    br_target b' = payload (br_read b) ++ (if listening (br_incoming b) then [] else concat l) /\
    payload (br_client b') = br_given b ++ (if last_frame (br_outgoing b) then [] else concat k).
Proof.
  intros Hn (H1 & _ & H3 & H4 & _ & _) Hl Hk.
  exists ((flush_in b ++ flush_out b) ++ (if listening (br_incoming b) then [] else client_events l) ++
          (if last_frame (br_outgoing b) then [] else target_events k) ++ [EofSeen]).
  cbv zeta. rewrite run_bridge_app, flushed by done. rewrite !run_bridge_app.
  assert (Hp : forall k, payload (((fun d => mkForwardFrame d false) <$> k) ++ [eof_frame]) = concat k).
  { intros k'. rewrite payload_app. unfold payload. cbn. rewrite app_nil_r, <- list_fmap_compose. f_equal. by rewrite <- (list_fmap_id k') at 2. }
  destruct (listening (br_incoming b)) eqn:Hi.
  - change (run_bridge ?b []) with b. destruct (last_frame (br_outgoing b)).
    + cbn. rewrite !app_nil_r, H1, H4. by rewrite H3.
    + rewrite target_run by done. cbn. rewrite payload_app, Hp, H1, H4, app_nil_r. by rewrite H3.
  - rewrite client_run by done. cbn [br_outgoing br_incoming]. destruct (last_frame (br_outgoing b)).
    + cbn. by rewrite app_nil_r, H1, H4.
    + rewrite target_run by done. cbn. by rewrite payload_app, Hp, H1, H4.
Qed.

(** C25: a forwarded connection is two pipes.  Whatever the client, the target and the network do and however the two
    loops interleave: what the target received is, in order, what the data frames of the client carried, up to the part
    still being written, and what the client received is exactly what the target wrote, in frames of at most [MAX_DATA] bytes
    that carry data, except for one last frame that ends the direction; the connection ends without an error only when both directions
    have ended and everything is delivered; and from any running state it can end so, delivering all that the peers still
    have to say. *)
Theorem forward_exact events :
  let b := run_bridge bridge_start events in
  br_target b ++ unwritten (br_incoming b) = payload (br_read b) /\
  br_given b = payload (br_client b ++ unsent (br_outgoing b)) /\
  direction (last_frame (br_outgoing b)) (br_client b ++ unsent (br_outgoing b)) /\
  (br_end b = Some (Ok tt) ->
   direction true (br_read b) /\ direction true (br_client b) /\ br_target_shut b = true /\ br_client_shut b = true /\
   br_target b = payload (br_read b) /\ payload (br_client b) = br_given b) /\
  (forall l k, br_end b = None -> Forall piece l -> Forall piece k ->
   exists more, let b' := run_bridge b more in
     br_end b' = Some (Ok tt) /\ br_target_shut b' = true /\
     br_target b' = payload (br_read b) ++ (if listening (br_incoming b) then [] else concat l) /\
     payload (br_client b') = br_given b ++ (if last_frame (br_outgoing b) then [] else concat k)).
Proof.
  cbv zeta. pose proof (run_bridge_inv _ events bridge_inv_start) as Hinv. set (b := run_bridge bridge_start events) in *. clearbody b.
  pose proof Hinv as (H1 & (ended & H2 & H2' & _) & H3 & H4 & H5 & H6 & H7). split_and!; [done..| |].
  - intros He. destruct (H7 He) as (Hi & Ho & Hs). rewrite Hi, Ho in *. cbn in *. rewrite app_nil_r in *.
    rewrite (H2' eq_refl) in H2. split_and!; try done. by apply H3.
  - intros l k Hn Hl Hk. by apply bridge_completes.
Qed.
Lemma forward_exact_witness :
  let b := run_bridge bridge_start (client_events [[1; 2]; [3]] ++ target_events [[4]] ++ [EofSeen]) in
  br_end b = Some (Ok tt) /\ br_target b = [1; 2; 3] /\ payload (br_client b) = [4].
Proof.
  pose proof (forward_exact (client_events [[1; 2]; [3]] ++ target_events [[4]] ++ [EofSeen])) as (_ & _ & _ & H & _).
  split; [reflexivity|]. destruct (H eq_refl) as (_ & _ & _ & _ & H1 & H2). split; [exact H1|exact H2].
Defined.

(** ** Resources *)

(** The connections of a server by number, with their reservations, and the reservations of everything else. *)
Record ForwardSystem := mkForwards { fw_pools : PoolStore; fw_bridges : gmap N (list PoolReservation * Bridge); fw_others : list PoolReservation }.
Definition end_forward (i : N) (held : list PoolReservation) (w : ForwardSystem) : option ForwardSystem :=
  s ← drop_reservations (fw_pools w) held; Some (mkForwards s (delete i (fw_bridges w)) (fw_others w)).
Definition account_in (s : PoolStore) (account : ResourceAccount) : Prop :=
  NoDup account /\ forall id, id ∈ account -> is_Some (s !! id).

Lemma claim_le_forward a l :
  claim_le a (as_claim l) -> rc_forward_connections a <= rl_forward_connections l /\ rc_forward_buffer_bytes a <= rl_forward_buffer_bytes l.
Proof. claim_crush. intuition lia. Qed.

Section system.
Variable parse_uuid : string -> option string.
(** Requests are served, loops run, connections are lost; and the rest of the server reserves and returns. *)
Inductive forward_step : ForwardSystem -> ForwardSystem -> Prop :=
| step_open w i negotiated r account target s o :
    fw_bridges w !! i = None -> account_in (fw_pools w) account ->
    open_forward parse_uuid negotiated r account target (fw_pools w) = (s, o) ->
    forward_step w (mkForwards s (match o with Established held => <[i := (held, bridge_start)]> (fw_bridges w) | _ => fw_bridges w end) (fw_others w))
| step_event w i held b event :
    fw_bridges w !! i = Some (held, b) -> br_end (bridge_step b event) = None ->
    forward_step w (mkForwards (fw_pools w) (<[i := (held, bridge_step b event)]> (fw_bridges w)) (fw_others w))
| step_end w i held b event w' :
    fw_bridges w !! i = Some (held, b) -> br_end (bridge_step b event) <> None -> end_forward i held w = Some w' -> forward_step w w'
| step_lost w i held b w' :
    fw_bridges w !! i = Some (held, b) -> end_forward i held w = Some w' -> forward_step w w'
| step_take w account claim s rs :
    account_in (fw_pools w) account -> account_reserve (fw_pools w) account claim = (s, Returned rs) ->
    forward_step w (mkForwards s (fw_bridges w) (rs ++ fw_others w))
| step_give w rs rest s :
    fw_others w ≡ₚ rs ++ rest -> drop_reservations (fw_pools w) rs = Some s -> forward_step w (mkForwards s (fw_bridges w) rest).
Inductive forward_reachable : ForwardSystem -> Prop :=
| forward_boot s : pool_inv (mkPoolSystem s []) -> forward_reachable (mkForwards s ∅ [])
| forward_later w w' : forward_reachable w -> forward_step w w' -> forward_reachable w'.

Definition forward_live (w : ForwardSystem) : list PoolReservation := bag fst (fw_bridges w) ++ fw_others w.
Definition forward_inv (w : ForwardSystem) : Prop :=
  pool_inv (mkPoolSystem (fw_pools w) (forward_live w)) /\
  map_Forall (fun _ e => bridge_inv e.2 /\ br_end e.2 = None /\ exists account, NoDup account /\
    e.1 = (fun id => mkReservation id forward_claim) <$> account) (fw_bridges w).

(** What a request to open a connection does to the pools. *)
Lemma open_forward_inv negotiated r account target s live :
  account_in s account -> pool_inv (mkPoolSystem s live) ->
  match open_forward parse_uuid negotiated r account target s with
  | (s', Established held) =>
      target = TargetConnected /\ held = (fun id => mkReservation id forward_claim) <$> account /\ pool_inv (mkPoolSystem s' (held ++ live))
  | (s', OpenAborted e) => s' = s /\ target = ClientFirst /\ e <> "panic"%string
  | (s', Rejected _ _) => s' = s
  end.
Proof.
  intros [Hnd Hex] Hinv. unfold open_forward. destruct (negb _ || negb _); [done|]. destruct (validate_open parse_uuid r) as [[]|]; [|done].
  pose proof (account_reserve_spec s account forward_claim Hnd Hex) as Hs. pose proof (account_reserve_inv s account forward_claim live Hnd Hex Hinv) as Hi.
  destruct (account_reserve s account forward_claim) as [s' [held|q|]]; cbn in Hs; [|by destruct Hs|done].
  destruct Hs as (-> & _ & _ & Hdrop). destruct Hi as [Hi _]. unfold dropped. rewrite Hdrop. by destruct target.
Qed.
Lemma end_forward_inv i held b w :
  forward_inv w -> fw_bridges w !! i = Some (held, b) -> exists w', end_forward i held w = Some w' /\ forward_inv w'.
Proof.
  intros [Hp Hm] Hi. unfold forward_live in Hp.
  assert (Hperm : bag fst (fw_bridges w) ++ fw_others w ≡ₚ held ++ (bag fst (delete i (fw_bridges w)) ++ fw_others w))
    by (rewrite (bag_delete fst _ _ _ Hi); cbn; by rewrite app_assoc).
  destruct (drop_reservations_inv _ _ _ (pool_inv_perm _ _ _ Hperm Hp)) as (s' & Hs & Hp' & _).
  eexists. unfold end_forward. rewrite Hs. split; [done|]. split; [done|]. by apply map_Forall_delete.
Qed.
Lemma forward_inv_step w w' : forward_inv w -> forward_step w w' -> forward_inv w'.
Proof.
  intros Hinv Hstep. pose proof Hinv as [Hp Hm]. destruct Hstep.
  - pose proof (open_forward_inv negotiated r account target _ _ H0 Hp) as Ho. rewrite H1 in Ho. destruct o as [c m|held|e].
    + by subst s.
    + destruct Ho as (_ & -> & Hp'). split; cbn.
      * eapply pool_inv_perm; [|exact Hp']. unfold forward_live. cbn. rewrite bag_insert by done. cbn. by rewrite app_assoc.
      * apply map_Forall_insert; [done|]. split; [|done]. split_and!; cbn; [apply bridge_inv_start|done|]. exists account. by destruct H0.
    + by destruct Ho as (-> & _).
  - destruct (Hm _ _ H) as (Hb & Hn & Ha). cbn in *. split; cbn.
    + eapply pool_inv_perm; [|exact Hp]. unfold forward_live. cbn. by rewrite (bag_update fst _ i (held, b)).
    + intros j e. rewrite lookup_insert. case_decide; [|apply Hm]. intros [= <-]. split_and!; cbn; [|done|done].
      unfold bridge_step. rewrite Hn. by apply bridge_event_inv.
  - destruct (end_forward_inv i held b w Hinv H) as (w2 & Hw & Hi). congruence.
  - destruct (end_forward_inv i held b w Hinv H) as (w2 & Hw & Hi). congruence.
  - destruct H as [Hnd Hex]. pose proof (account_reserve_inv _ account claim _ Hnd Hex Hp) as Hr. rewrite H0 in Hr. destruct Hr as [Hr _].
    split; cbn; [|done]. eapply pool_inv_perm; [|exact Hr]. unfold forward_live. cbn. solve_Permutation.
  - split; cbn; [|done]. assert (Hperm : bag fst (fw_bridges w) ++ fw_others w ≡ₚ rs ++ (bag fst (fw_bridges w) ++ rest))
      by (rewrite H; solve_Permutation).
    destruct (drop_reservations_inv _ _ _ (pool_inv_perm _ _ _ Hperm Hp)) as (s' & Hs & Hp' & _). assert (s' = s) as -> by congruence. done.
Qed.
Lemma forward_invariant w : forward_reachable w -> forward_inv w.
Proof. induction 1 as [s Hs|w w' _ IH Hstep]; [|by eapply forward_inv_step]. split; cbn; [done|apply map_Forall_empty]. Qed.
(** The connections that are charged to a pool. *)
Definition charged (id : N) (w : ForwardSystem) : gmap N (list PoolReservation * Bridge) :=
  filter (fun kv : N * (list PoolReservation * Bridge) => id ∈ res_pool <$> kv.2.1) (fw_bridges w).
Lemma charged_claims w id (g : ResourceClaim -> N) :
  forward_inv w -> additive g -> g forward_claim * N.of_nat (size (charged id w)) <= g (claim_sum (live_claims id (forward_live w))).
Proof.
  intros [_ Hm] Hg. unfold forward_live, charged.
  set (P := fun kv : N * (list PoolReservation * Bridge) => id ∈ res_pool <$> kv.2.1).
  assert (Hp : bag fst (fw_bridges w) ++ fw_others w ≡ₚ
    bag fst (filter P (fw_bridges w)) ++ (bag fst (filter (fun kv => ~ P kv) (fw_bridges w)) ++ fw_others w)).
  { rewrite app_assoc. f_equiv. apply bag_filter. }
  rewrite (claim_sum_perm _ _ (live_claims_perm id _ _ Hp)), live_claims_app, additive_sum_app by done.
  rewrite (bag_count fst g (g forward_claim) id); [lia|done|]. intros i [held b] (Hb & HP)%map_lookup_filter_Some.
  destruct (Hm _ _ Hb) as (_ & _ & account & Hnd & Heq). cbn in *. subst held. exists account. split_and!; [done| |by exists forward_claim].
  unfold P in HP. cbn in HP. apply list_elem_of_fmap in HP as (r & -> & Hr). apply list_elem_of_fmap in Hr as (id' & -> & Hid). done.
Qed.

(** Forwarded connections are accounted for.  However requests, loops, losses and the rest of the server interleave:
    every pool holds exactly what is live and stays within its limits; so no more connections than the limit run for any user and for
    the server; a connection that ends or is lost gives back what it reserved, without a panic; and a request is acknowledged
    only when forwarding was negotiated, the target is well-formed and reached, and reserves nothing otherwise. *)
Theorem forwards_accounted w :
  forward_reachable w ->
  (forall id p, fw_pools w !! id = Some p ->
     pool_usage p = claim_sum (live_claims id (forward_live w)) /\ claim_le (pool_usage p) (as_claim (pool_limits p)) /\
     N.of_nat (size (charged id w)) <= rl_forward_connections (pool_limits p) /\
     BUFFER_RESERVATION * N.of_nat (size (charged id w)) <= rl_forward_buffer_bytes (pool_limits p)) /\
  (forall i held b, fw_bridges w !! i = Some (held, b) -> bridge_inv b /\ exists w', end_forward i held w = Some w' /\ forward_reachable w') /\
  (forall negotiated r account target, account_in (fw_pools w) account ->
     match open_forward parse_uuid negotiated r account target (fw_pools w) with
     | (_, Established held) =>
         negotiated_has negotiated CAPABILITY_TCP_FORWARD 1 = true /\ negotiated_has negotiated CAPABILITY_STREAM_CHANNELS 1 = true /\
         validate_open parse_uuid r = Ok tt /\ target = TargetConnected /\ held = (fun id => mkReservation id forward_claim) <$> account
     | (s, Rejected _ _) | (s, OpenAborted _) => s = fw_pools w
     end).
Proof.
  intros Hreach. pose proof (forward_invariant w Hreach) as Hinv. pose proof Hinv as [[Hu Hl] Hm]. cbn [ps_pools ps_live] in Hu, Hl. split_and!.
  - intros id p Hp. destruct (Hu id p Hp) as [Hus Hle]. split_and!; [done..| |].
    + pose proof (charged_claims w id rc_forward_connections Hinv ltac:(by split)) as Hc. rewrite <- Hus in Hc.
      assert (Hf : rc_forward_connections (pool_usage p) <= rl_forward_connections (pool_limits p)) by (apply claim_le_forward in Hle; tauto).
      change (rc_forward_connections forward_claim) with 1 in Hc. lia.
    + pose proof (charged_claims w id rc_forward_buffer_bytes Hinv ltac:(by split)) as Hc. rewrite <- Hus in Hc.
      assert (Hf : rc_forward_buffer_bytes (pool_usage p) <= rl_forward_buffer_bytes (pool_limits p)) by (apply claim_le_forward in Hle; tauto).
      change (rc_forward_buffer_bytes forward_claim) with BUFFER_RESERVATION in Hc. lia.
  - intros i held b Hi. destruct (Hm _ _ Hi) as (Hb & _). split; [done|]. destruct (end_forward_inv i held b w Hinv Hi) as (w' & Hw & _).
    exists w'. split; [done|]. eapply forward_later; [done|]. by eapply step_lost.
  - intros negotiated r account target Ha. pose proof (open_forward_inv negotiated r account target _ _ Ha (proj1 Hinv)) as Ho.
    unfold open_forward in *. destruct (negotiated_has negotiated CAPABILITY_TCP_FORWARD 1) eqn:E1; [|done].
    destruct (negotiated_has negotiated CAPABILITY_STREAM_CHANNELS 1) eqn:E2; [|done]. cbn [negb orb] in *.
    destruct (validate_open parse_uuid r) as [[]|] eqn:Ev; [|done].
    destruct (match account_reserve _ _ _ with (s, Returned held) => _ | (s, Failed _) => _ | (s, Panicked) => _ end) as [s [c m|held|e]]; [done| |tauto].
    tauto.
Qed.
End system.

(** A user with a limit of one connection opens one. *)
Definition forward_pools : PoolStore :=
  {[ 0 := mkPool "global" (mkLimits 9 9 9 9 9 9 9 9 9000000 9 9 9) claim_default; 1 := mkPool "ann" (mkLimits 9 9 9 9 9 9 9 1 262144 9 9 9) claim_default ]}.
Definition demo_open : OpenTcpForwardRequest := mkOpenForward "m" "localhost" 8080.
Definition demo_negotiated : NegotiatedProtocol := mkNegotiated 3 {[CAPABILITY_TCP_FORWARD := 1; CAPABILITY_STREAM_CHANNELS := 1]}.
Definition demo_uuid (id : string) : option string := Some id.
Definition demo_opened : PoolStore * Opening := open_forward demo_uuid demo_negotiated demo_open [0; 1] TargetConnected forward_pools.
Definition demo_forwards : ForwardSystem :=
  mkForwards demo_opened.1 (match demo_opened.2 with Established held => {[7 := (held, bridge_start)]} | _ => ∅ end) [].
Lemma forward_pools_inv : pool_inv (mkPoolSystem forward_pools []).
Proof.
  split; cbn [ps_pools ps_live]; [|intros r Hr; by apply elem_of_nil in Hr]. unfold forward_pools. intros id p [[<- <-]|[_ [<- <-]%lookup_singleton_Some]]%lookup_insert_Some; split; try done; apply claim_default_le.
Qed.
Lemma demo_accounts : account_in forward_pools [0; 1].
Proof. split; [apply (bool_decide_unpack _); by vm_compute|]. intros id [->| ->%list_elem_of_singleton]%elem_of_cons; by eexists. Qed.
Lemma demo_forwards_reachable : forward_reachable demo_uuid demo_forwards.
Proof.
  eapply forward_later; [exact (forward_boot _ _ forward_pools_inv)|].
  exact (step_open demo_uuid (mkForwards forward_pools ∅ []) 7 demo_negotiated demo_open [0; 1] TargetConnected demo_opened.1 demo_opened.2
           eq_refl demo_accounts (surjective_pairing _)).
Qed.
Lemma forwards_accounted_witness :
  forward_reachable demo_uuid demo_forwards /\ size (charged 1 demo_forwards) = 1%nat /\
  (open_forward demo_uuid demo_negotiated demo_open [0; 1] TargetConnected (fw_pools demo_forwards)).2 =
    Rejected "quota" (quota_message (mkQuota "ann" "forward_connections" 1 1 1)) /\
  forall p, fw_pools demo_forwards !! 1 = Some p -> N.of_nat (size (charged 1 demo_forwards)) <= rl_forward_connections (pool_limits p).
Proof.
  split; [exact demo_forwards_reachable|]. split; [vm_compute; reflexivity|]. split; [vm_compute; reflexivity|]. intros p Hp.
  pose proof (forwards_accounted demo_uuid demo_forwards demo_forwards_reachable) as [H _]. exact (proj1 (proj2 (proj2 (H 1 p Hp)))).
Defined.
