(* ===== verification/AnsiClient.v ===== *)
(** * The attachment of the command line ([bin/astra.rs], [attach_terminal])

    Without [--streaming] a terminal is shown as the bytes it prints.  The client is a loop over events of
    the server, the keyboard and the window; when the stream breaks it connects again until the terminal
    can be attached.  A step of the model is one arm of a [select!]; [outcome] is that of the write the arm makes. *)
From S2P Require Import Prelude Text TerminalState Lease Messages Sessions AttachServer.
Open Scope N_scope.

(** [TerminalSnapshot] as far as it is shown. *)
Record TerminalSnapshot := mkSnapshot { sn_alternate_screen : bool; sn_normal_contents : bytes; sn_contents : bytes }.
(** The response to an attachment, with the history of a server that sends no snapshot. *)
Record Answered := mkAnswered { aw_response : AttachResponse; aw_history : bytes }.

Definition RESET : bytes := [27; 99].
Definition ENTER_ALTERNATE : bytes := lit (String (Ascii.ascii_of_N 27) "[?1049h").
(** Ctrl-] detaches; Ctrl-C gives up waiting for a connection. *)
Definition DETACH_KEY : N := 29.
Definition INTERRUPT_KEY : N := 3.
Definition FIRST_DELAY : N := 250.
Definition LAST_DELAY : N := 5000.

Inductive AnsiPhase :=
| AnsiAttached
| AnsiReconnecting (delay : N) (read_only : bool)
| AnsiLeft (r : result ()).
(** [ac_attachments] are the attachments so far, each with its response and the commands given to its stream; the last is the current
    one.  [ac_requests] are the requests to attach, each with the number of attachments before it, [ac_slept] the pauses between attempts. *)
Record AnsiClient := mkAnsi {
  ac_terminal : string; ac_interactive : bool; ac_writable : bool; ac_lease : string; ac_sequence : N; ac_token : string;
  ac_phase : AnsiPhase; ac_screen : bytes; ac_attachments : list (AttachResponse * list TerminalCommand);
  ac_requests : list (nat * AttachRequest);
  ac_slept : list N }.
Definition with_ansi_phase (p : AnsiPhase) (c : AnsiClient) : AnsiClient :=
  mkAnsi (ac_terminal c) (ac_interactive c) (ac_writable c) (ac_lease c) (ac_sequence c) (ac_token c) p (ac_screen c) (ac_attachments c)
    (ac_requests c) (ac_slept c).
Definition leave (r : result ()) (c : AnsiClient) : AnsiClient := with_ansi_phase (AnsiLeft r) c.
Definition show (b : bytes) (c : AnsiClient) : AnsiClient :=
  mkAnsi (ac_terminal c) (ac_interactive c) (ac_writable c) (ac_lease c) (ac_sequence c) (ac_token c) (ac_phase c) (ac_screen c ++ b)
    (ac_attachments c) (ac_requests c) (ac_slept c).
Definition set_writable (b : bool) (c : AnsiClient) : AnsiClient :=
  mkAnsi (ac_terminal c) (ac_interactive c) b (ac_lease c) (ac_sequence c) (ac_token c) (ac_phase c) (ac_screen c) (ac_attachments c)
    (ac_requests c) (ac_slept c).

(** The break of the stream: the start of [reconnect_terminal]. *)
Definition disconnect (c : AnsiClient) : AnsiClient := with_ansi_phase (AnsiReconnecting FIRST_DELAY (negb (ac_writable c))) c.

(** A numbered command on the current stream: [Some] when it was written. *)
Definition command_of (command : CommandKind) (c : AnsiClient) : TerminalCommand :=
  mkCommand (ac_terminal c) (ac_lease c) (ac_sequence c) "" (Some command).
Definition on_stream (m : TerminalCommand) (l : list (AttachResponse * list TerminalCommand)) : list (AttachResponse * list TerminalCommand) :=
  alter (fun a => (a.1, a.2 ++ [m])) (pred (length l)) l.
Definition numbered (command : CommandKind) (outcome : result ()) (c : AnsiClient) : AnsiClient :=
  match outcome with
  | Ok _ =>
      mkAnsi (ac_terminal c) (ac_interactive c) (ac_writable c) (ac_lease c) (ac_sequence c + 1) (ac_token c) (ac_phase c) (ac_screen c)
        (on_stream (command_of command c) (ac_attachments c)) (ac_requests c) (ac_slept c)
  | Err _ => disconnect c
  end.
Definition window_size (size : option (N * N)) : Size :=
  let '(cols, rows) := default (80, 24) size in mkSize rows cols 0 0.
(** The start of an iteration of ['attachment]. *)
Definition begin_attachment (size : option (N * N)) (outcome : result ()) (c : AnsiClient) : AnsiClient :=
  if ac_writable c then numbered (CResize (window_size size)) outcome c else c.

Section ansi.
Variable decode_snapshot : bytes -> TerminalSnapshot.

Definition render_snapshot (s : TerminalSnapshot) (reset : bool) : bytes :=
  (if reset then RESET else []) ++ (if sn_alternate_screen s then sn_normal_contents s ++ ENTER_ALTERNATE else []) ++ sn_contents s.
Definition render_attached_screen (a : Answered) (reset : bool) : bytes :=
  match ar_snapshot (aw_response a) with
  | Some encoded => render_snapshot (decode_snapshot encoded) true
  | None => (if reset then RESET else []) ++ aw_history a
  end.

(** ** Attaching *)

Definition attach_request (terminal token : string) (read_only takeover : bool) : AttachRequest :=
  mkAttach "" terminal read_only takeover token "".
(** The attachment [answer] is the current one. *)
Definition adopt (answer : Answered) (request : AttachRequest) (c : AnsiClient) : AnsiClient :=
  let r := aw_response answer in
  mkAnsi (ac_terminal c) (ac_interactive c) (ac_writable c) (ar_lease_id r) 1
    (if bool_decide (ar_resume_token r = "") then ac_token c else ar_resume_token r) AnsiAttached (ac_screen c)
    (ac_attachments c ++ [(r, [])]) (ac_requests c ++ [(length (ac_attachments c), request)]) (ac_slept c).
(** [attach_terminal], up to its loop; [tty] says whether the standard input is a terminal. *)
Definition attach_terminal (selector : string) (read_only takeover tty : bool) (answer : result Answered) (size : option (N * N)) (outcome : result ())
    : result AnsiClient :=
  a ← answer;
  info ← ok_or (ar_terminal (aw_response a)) "server returned an attach response without terminal identity";
  let request := attach_request selector "" read_only takeover in
  let start := mkAnsi (ti_id info) (tty && negb read_only) (negb read_only) "" 1 "" AnsiAttached [] [] [] [] in
  Ok (begin_attachment size outcome (show (render_attached_screen a false) (adopt a request start))).

(** ** Events *)

(** One round of [reconnect_terminal]: the connection, the list of terminals with their identifiers, the attachment. *)
Inductive Attempt := ReconnectFailed | ListFailed | Listed (terminals : list string) (attach : result Answered).
(** What [reader.read] gives: an error, the end, another message, or an event. *)
Inductive AnsiMessage := MessageOther | MessageEvent (e : TerminalEvent).
Inductive AnsiEvent :=
| Received (r : result (option AnsiMessage)) (outcome : result ())
| Typed (r : result bytes) (outcome : result ())
| WindowChanged (size : option (N * N)) (outcome : result ())
| Attempted (attempt : Attempt) (size : option (N * N)) (outcome : result ()).

(** What an event of the server shows on the standard output. *)
Definition shown (e : EventKind) : option bytes :=
  match e with
  | EOutput data => Some data
  | ESnapshot encoded => Some (render_snapshot (decode_snapshot encoded) true)
  | _ => None
  end.
Definition receive_event (e : EventKind) (outcome : result ()) (c : AnsiClient) : AnsiClient :=
  match e with
  | EOutput _ | ESnapshot _ =>
      match outcome with
      | Ok _ => show (default [] (shown e)) c
      | Err error => leave (Err error) c
      end
  | EExited _ => leave (Ok tt) c
  | EError _ | EInteractive _ => c
  | ELeaseChanged change => set_writable (negb (lc_read_only change)) c
  | ESemanticStateChunk _ => leave (Err "server sent semantic terminal state to the ANSI command-line client") c
  | ESemanticStateDiffChunk _ => leave (Err "server sent semantic terminal diff to the ANSI command-line client") c
  | EViewportDatagram _ => leave (Err "server forwarded an internal terminal datagram on the reliable stream") c
  | EClipboardWrite _ => leave (Err "server sent an unnegotiated clipboard host effect") c
  | EHistoryPageChunk _ => leave (Err "server sent unnegotiated terminal history") c
  end.
Definition receive (r : result (option AnsiMessage)) (outcome : result ()) (c : AnsiClient) : AnsiClient :=
  match r with
  | Err _ | Ok None => disconnect c
  | Ok (Some MessageOther) => leave (Err "unexpected message on attach stream") c
  | Ok (Some (MessageEvent e)) =>
      if bool_decide (te_terminal_id e = ac_terminal c) then
        match te_event e with Some e => receive_event e outcome c | None => c end
      else leave (Err "server sent an event for the wrong terminal") c
  end.
Definition pressed (keys : list N) (data : bytes) : bool := existsb (fun b => existsb (N.eqb b) keys) data.
(** The keyboard while attached; the command that detaches is written if possible. *)
Definition type_keys (r : result bytes) (outcome : result ()) (c : AnsiClient) : AnsiClient :=
  match r with
  | Err e => leave (Err e) c
  | Ok data =>
      if bool_decide (data = []) || (ac_interactive c && pressed [DETACH_KEY] data) then
        leave (Ok tt) match outcome with Ok _ => numbered (CDetach true) outcome c | Err _ => c end
      else numbered (CInput data) outcome c
  end.
(** The keyboard while disconnected. *)
Definition type_offline (r : result bytes) (c : AnsiClient) : AnsiClient :=
  match r with
  | Err e => leave (Err e) c
  | Ok data =>
      if bool_decide (data = []) || (ac_interactive c && pressed [DETACH_KEY; INTERRUPT_KEY] data) then leave (Ok tt) c else c
  end.
Definition pause (delay : N) (read_only : bool) (c : AnsiClient) : AnsiClient :=
  mkAnsi (ac_terminal c) (ac_interactive c) (ac_writable c) (ac_lease c) (ac_sequence c) (ac_token c)
    (AnsiReconnecting (N.min (delay * 2) LAST_DELAY) read_only) (ac_screen c) (ac_attachments c) (ac_requests c) (ac_slept c ++ [delay]).
Definition attempt (a : Attempt) (delay : N) (read_only : bool) (size : option (N * N)) (outcome : result ()) (c : AnsiClient) : AnsiClient :=
  match a with
  | ReconnectFailed | ListFailed => pause delay read_only c
  | Listed terminals answer =>
      if bool_decide (ac_terminal c ∈ terminals) then
        let request := attach_request (ac_terminal c) (ac_token c) read_only false in
        match answer with
        | Err _ =>
            pause delay read_only
              (mkAnsi (ac_terminal c) (ac_interactive c) (ac_writable c) (ac_lease c) (ac_sequence c) (ac_token c) (ac_phase c) (ac_screen c)
                 (ac_attachments c) (ac_requests c ++ [(length (ac_attachments c), request)]) (ac_slept c))
        | Ok answer => begin_attachment size outcome (show (render_attached_screen answer (ac_interactive c)) (adopt answer request c))
        end
      else leave (Err "terminal is no longer active on the server") c
  end.

(** An arm that is not enabled is not taken. *)
Definition ansi_step (c : AnsiClient) (event : AnsiEvent) : AnsiClient :=
  match ac_phase c, event with
  | AnsiAttached, Received r outcome => receive r outcome c
  | AnsiAttached, Typed r outcome => if ac_writable c then type_keys r outcome c else c
  | AnsiAttached, WindowChanged size outcome =>
      if ac_interactive c && ac_writable c then numbered (CResize (window_size size)) outcome c else c
  | AnsiReconnecting _ read_only, Typed r _ => if read_only then c else type_offline r c
  | AnsiReconnecting delay read_only, Attempted a size outcome => attempt a delay read_only size outcome c
  | _, _ => c
  end.
Definition ansi_run (c : AnsiClient) (events : list AnsiEvent) : AnsiClient := foldl ansi_step c events.
End ansi.
