(* ===== verification/AnsiSpec.v ===== *)
(** * The attachment of the command line: what reaches the terminal *)
From S2P Require Import Prelude Text TerminalState Lease Messages Sessions AttachServer AnsiClient.
Open Scope N_scope.

Definition numbered_from (terminal lease : string) (l : list TerminalCommand) : Prop :=
  forall i m, l !! i = Some m -> cm_terminal_id m = terminal /\ cm_lease_id m = lease /\ cm_attachment_id m = ""%string /\
    cm_sequence m = N.of_nat i + 1.
Definition newest_token (l : list AttachResponse) : string :=
  foldl (fun token r => if bool_decide (ar_resume_token r = ""%string) then token else ar_resume_token r) ""%string l.
Definition input_of (m : TerminalCommand) : option bytes := match cm_command m with Some (CInput data) => Some data | _ => None end.
Definition inputs (c : AnsiClient) : list bytes := omap input_of (concat (ac_attachments c).*2).

(** The bytes that the user types while they go to the terminal. *)
Definition live_key (c : AnsiClient) (event : AnsiEvent) : list bytes :=
  match ac_phase c, event with
  | AnsiAttached, Typed (Ok data) (Ok _) =>
      if ac_writable c && negb (bool_decide (data = []) || (ac_interactive c && pressed [DETACH_KEY] data)) then [data] else []
  | _, _ => []
  end.

Section spec.
Variable decode_snapshot : bytes -> TerminalSnapshot.
Abbreviation step := (ansi_step decode_snapshot).
Abbreviation run := (ansi_run decode_snapshot).
Fixpoint live_keys (c : AnsiClient) (events : list AnsiEvent) : list bytes :=
  match events with [] => [] | e :: events => live_key c e ++ live_keys (step c e) events end.

Record ansi_inv (selector : string) (c : AnsiClient) : Prop := {
  ai_current : exists before r l, ac_attachments c = before ++ [(r, l)] /\ ac_lease c = ar_lease_id r /\ ac_sequence c = N.of_nat (length l) + 1;
  ai_numbered : Forall (fun a => numbered_from (ac_terminal c) (ar_lease_id a.1) a.2) (ac_attachments c);
  ai_token : ac_token c = newest_token (ac_attachments c).*1;
  ai_phase : match ac_phase c with AnsiReconnecting delay ro => ro = negb (ac_writable c) /\ FIRST_DELAY <= delay <= LAST_DELAY | _ => True end;
  ai_requests : exists ro takeover later, ac_requests c = (0%nat, attach_request selector "" ro takeover) :: later /\
    Forall (fun q => exists ro, q.2 = attach_request (ac_terminal c) (newest_token (take q.1 (ac_attachments c).*1)) ro false /\
                                (q.1 <= length (ac_attachments c))%nat) later;
  ai_slept : Forall (fun d => FIRST_DELAY <= d <= LAST_DELAY) (ac_slept c)
}.

(** *** Commands *)

Lemma numbered_snoc terminal lease l m :
  numbered_from terminal lease l -> cm_terminal_id m = terminal -> cm_lease_id m = lease -> cm_attachment_id m = ""%string ->
  cm_sequence m = N.of_nat (length l) + 1 -> numbered_from terminal lease (l ++ [m]).
Proof.
  intros Hl H1 H2 H3 H4 i x [Hi|[Hi Hx]]%lookup_app_Some; [by apply Hl|]. apply list_lookup_singleton_Some in Hx as [Hz <-].
  assert (i = length l) as -> by lia. done.
Qed.
Lemma on_stream_snoc m before r l : on_stream m (before ++ [(r, l)]) = before ++ [(r, l ++ [m])].
Proof. unfold on_stream. rewrite length_app. cbn. rewrite Nat.add_1_r. cbn. by rewrite alter_app_r_alt, Nat.sub_diag by lia. Qed.
Lemma newest_token_snoc l r : newest_token (l ++ [r]) = if bool_decide (ar_resume_token r = ""%string) then newest_token l else ar_resume_token r.
Proof. unfold newest_token. by rewrite foldl_app. Qed.

Lemma ansi_leave_inv selector r c : ansi_inv selector c -> ansi_inv selector (leave r c).
Proof. by intros []. Qed.
Lemma ansi_disconnect_inv selector c : ansi_inv selector c -> ansi_inv selector (disconnect c).
Proof. intros []. by split. Qed.
Lemma ansi_show_inv selector b c : ansi_inv selector c -> ansi_inv selector (show b c).
Proof. by intros []. Qed.
Lemma ansi_numbered_inv selector command outcome c : ac_phase c = AnsiAttached -> ansi_inv selector c -> ansi_inv selector (numbered command outcome c).
Proof.
  intros Hp Hinv. destruct outcome as [[]|e]; [|by apply ansi_disconnect_inv]. destruct Hinv as [(before & r & l & Ha & Hl & Hs) Hn Ht _ (ro & tk & later & Hq & Hlater) Hd].
  assert (Ha' : on_stream (command_of command c) (ac_attachments c) = before ++ [(r, l ++ [command_of command c])]) by (rewrite Ha; apply on_stream_snoc).
  assert (Hfst : (before ++ [(r, l ++ [command_of command c])]).*1 = (ac_attachments c).*1) by (rewrite Ha, !fmap_app; done).
  assert (Hlen : length (before ++ [(r, l ++ [command_of command c])]) = length (ac_attachments c)) by (rewrite Ha, !length_app; done).
  unfold numbered. rewrite Ha'. split; cbn.
  - exists before, r, (l ++ [command_of command c]). rewrite length_app. cbn. split_and!; [done..|]. lia.
  - rewrite Ha in Hn. apply Forall_app in Hn as [Hn1 Hn2]. apply Forall_app. split; [done|]. apply Forall_singleton. rewrite Forall_singleton in Hn2.
    cbn [fst snd] in *. by apply numbered_snoc.
  - by rewrite Hfst.
  - by rewrite Hp.
  - exists ro, tk, later. split; [done|]. eapply Forall_impl; [exact Hlater|]. intros q (ro' & Hq' & Hle). exists ro'. by rewrite Hlen, Hfst.
  - done.
Qed.
Lemma ansi_adopt_inv selector answer ro c :
  ansi_inv selector c -> ansi_inv selector (adopt answer (attach_request (ac_terminal c) (ac_token c) ro false) c).
Proof.
  intros [(before & r & l & Ha & Hl & Hs) Hn Ht _ (ro0 & tk & later & Hq & Hlater) Hd]. split; cbn.
  - by eexists _, _, [].
  - apply Forall_app. split; [done|]. apply Forall_singleton. intros i m Hm. done.
  - rewrite fmap_app. cbn [fmap list_fmap fst]. by rewrite newest_token_snoc, <- Ht.
  - done.
  - exists ro0, tk, (later ++ [(length (ac_attachments c), attach_request (ac_terminal c) (ac_token c) ro false)]). rewrite Hq. split; [done|].
    apply Forall_app. rewrite length_app. split.
    + eapply Forall_impl; [exact Hlater|]. intros q (ro' & Hq' & Hle). exists ro'. rewrite fmap_app, take_app_le by (by rewrite length_fmap). split; [done|lia].
    + apply Forall_singleton. exists ro. cbn. rewrite fmap_app, take_app_length', Ht by (by rewrite length_fmap). split; [done|lia].
  - done.
Qed.
Lemma ansi_begin_inv selector size outcome c : ac_phase c = AnsiAttached -> ansi_inv selector c -> ansi_inv selector (begin_attachment size outcome c).
Proof. intros Hp Hinv. unfold begin_attachment. destruct (ac_writable c); [by apply ansi_numbered_inv|done]. Qed.
Lemma ansi_pause_inv selector delay ro c :
  FIRST_DELAY <= delay <= LAST_DELAY -> ro = negb (ac_writable c) -> ansi_inv selector c -> ansi_inv selector (pause delay ro c).
Proof.
  intros Hd Hro []. split; cbn; try done.
  - split; [done|]. unfold FIRST_DELAY, LAST_DELAY in *. lia.
  - apply Forall_app. split; [done|]. by apply Forall_singleton.
Qed.
Lemma ansi_receive_inv selector r outcome c : ac_phase c = AnsiAttached -> ansi_inv selector c -> ansi_inv selector (receive decode_snapshot r outcome c).
Proof.
  intros Hp Hinv. destruct r as [[[|e]|]|e]; cbn; [by apply ansi_leave_inv| |by apply ansi_disconnect_inv..].
  case_bool_decide; [|by apply ansi_leave_inv]. destruct (te_event e) as [k|]; [|done].
  destruct k; cbn; try (by apply ansi_leave_inv); try done; try (destruct outcome; [by apply ansi_show_inv|by apply ansi_leave_inv]).
  destruct Hinv as [? ? ? _ ? ?]. split; cbn; try done. by rewrite Hp.
Qed.
Lemma ansi_step_inv selector c event : ansi_inv selector c -> ansi_inv selector (step c event).
Proof.
  intros Hinv. unfold ansi_step. destruct (ac_phase c) as [|delay ro|r] eqn:Hp; [|destruct event as [| | |a size outcome]; try done|done].
  - destruct event as [r outcome|r outcome|size outcome|a size outcome]; [by apply ansi_receive_inv| | |done].
    + destruct (ac_writable c); [|done]. unfold type_keys. destruct r as [data|e]; [|by apply ansi_leave_inv].
      destruct (_ || _); [apply ansi_leave_inv; destruct outcome; [|done]|]; by apply ansi_numbered_inv.
    + destruct (_ && _); [by apply ansi_numbered_inv|done].
  - destruct ro; [done|]. unfold type_offline. destruct r as [data|e]; [|by apply ansi_leave_inv]. destruct (_ || _); [by apply ansi_leave_inv|done].
  - pose proof (ai_phase _ _ Hinv) as Hph. rewrite Hp in Hph. destruct Hph as [Hro Hd].
    destruct a as [| |terminals answer]; cbn [attempt]; [by apply ansi_pause_inv..|]. case_bool_decide; [|by apply ansi_leave_inv].
    destruct answer as [answer|e].
    + apply ansi_begin_inv; [done|]. apply ansi_show_inv. by apply ansi_adopt_inv.
    + apply ansi_pause_inv; [done..|]. destruct Hinv as [Hc Hn Ht Hp' (ro0 & tk & later & Hq & Hlater) Hs].
      split; cbn; [done|done|done|by rewrite Hp in *| |done].
      exists ro0, tk, (later ++ [(length (ac_attachments c), attach_request (ac_terminal c) (ac_token c) ro false)]). rewrite Hq. split; [done|].
      apply Forall_app. split; [done|]. apply Forall_singleton. exists ro. cbn. rewrite take_ge, Ht by (by rewrite length_fmap). split; [done|lia].
Qed.
Lemma ansi_start_inv selector read_only takeover tty answer size outcome c :
  attach_terminal decode_snapshot selector read_only takeover tty answer size outcome = Ok c -> ansi_inv selector c.
Proof.
  unfold attach_terminal. intros H. ok_inv H. apply ansi_begin_inv; [done|]. apply ansi_show_inv. split; cbn.
  - by eexists [], _, [].
  - apply Forall_singleton. by intros i m Hm.
  - done.
  - done.
  - by exists read_only, takeover, [].
  - done.
Qed.
Lemma ansi_run_inv selector c events : ansi_inv selector c -> ansi_inv selector (run c events).
Proof. revert c. induction events as [|e events IH]; intros c Hinv; [done|]. cbn. apply IH. by apply ansi_step_inv. Qed.

(** *** Typed bytes *)

Lemma inputs_numbered selector command outcome c :
  ansi_inv selector c ->
  inputs (numbered command outcome c) = inputs c ++ match outcome, command with Ok _, CInput data => [data] | _, _ => [] end.
Proof.
  intros [(before & r & l & Ha & _) _ _ _ _ _]. destruct outcome as [[]|e]; cbn [numbered]; [|by rewrite app_nil_r].
  unfold inputs. cbn [ac_attachments]. rewrite Ha, on_stream_snoc, !fmap_app, !concat_app. cbn. rewrite !app_nil_r, !omap_app, <- app_assoc.
  do 2 f_equal. by destruct command.
Qed.
Lemma inputs_begin selector size outcome c : ansi_inv selector c -> inputs (begin_attachment size outcome c) = inputs c.
Proof.
  intros Hinv. unfold begin_attachment. destruct (ac_writable c); [|done]. rewrite (inputs_numbered selector) by done.
  by destruct outcome; rewrite app_nil_r.
Qed.
Lemma inputs_adopt answer request c : inputs (adopt answer request c) = inputs c.
Proof. unfold inputs. cbn. by rewrite fmap_app, concat_app, omap_app, app_nil_r. Qed.
Lemma inputs_step selector c event : ansi_inv selector c -> inputs (step c event) = inputs c ++ live_key c event.
Proof.
  intros Hinv. unfold ansi_step, live_key. destruct (ac_phase c) as [|delay ro|r] eqn:Hp.
  - destruct event as [r outcome|r outcome|size outcome|a size outcome]; [| | |by rewrite app_nil_r].
    + rewrite app_nil_r. destruct r as [[[|e]|]|e]; cbn; try done. case_bool_decide; [|done]. destruct (te_event e) as [k|]; [|done].
      destruct k; cbn; try done; by destruct outcome.
    + destruct (ac_writable c); [|by destruct r, outcome; rewrite app_nil_r]. unfold type_keys. destruct r as [data|e]; [|by rewrite app_nil_r].
      destruct (_ || _); [destruct outcome as [[]|e]; rewrite app_nil_r; [|done]|].
      * change (inputs (leave (Ok tt) ?c)) with (inputs c). rewrite (inputs_numbered selector) by done. by rewrite app_nil_r.
      * rewrite (inputs_numbered selector) by done. by destruct outcome as [[]|e].
    + rewrite app_nil_r. destruct (_ && _); [|done]. rewrite (inputs_numbered selector) by done. destruct outcome; by rewrite app_nil_r.
  - destruct event as [r outcome|r outcome|size outcome|a size outcome]; rewrite app_nil_r; try done.
    + destruct ro; [done|]. unfold type_offline. destruct r as [data|e]; [|done]. by destruct (_ || _).
    + destruct a as [| |terminals answer]; try done. cbn [attempt]. case_bool_decide; [|done]. destruct answer as [answer|e]; [|done].
      rewrite (inputs_begin selector); [apply inputs_adopt|]. apply ansi_show_inv. by apply ansi_adopt_inv.
  - by destruct event as [| |[]|]; rewrite app_nil_r.
Qed.
Lemma inputs_run selector c events : ansi_inv selector c -> inputs (run c events) = inputs c ++ live_keys c events.
Proof.
  revert c. induction events as [|e events IH]; intros c Hinv; cbn; [by rewrite app_nil_r|].
  fold (run (step c e) events). rewrite IH by (by apply ansi_step_inv). by rewrite (inputs_step selector), app_assoc by done.
Qed.

(** C5: what the user types arrives once or not at all.  In any course of a session, with the stream breaking anywhere, the input given to
    the streams is exactly what was typed while the terminal was attached and writable, once and in order, and nothing typed while
    disconnected; the commands of each attachment carry its lease and are numbered from one without gaps; every later request
    is for the terminal that was shown, with the newest token and never with a takeover, after pauses between a quarter of a second
    and five; and as long as the terminal is writable the user can leave at any moment. *)
Theorem ansi_session_exact selector read_only takeover tty answer size outcome c0 events :
  attach_terminal decode_snapshot selector read_only takeover tty answer size outcome = Ok c0 ->
  let c := run c0 events in
  inputs c = live_keys c0 events /\
  Forall (fun a => numbered_from (ac_terminal c) (ar_lease_id a.1) a.2) (ac_attachments c) /\
  (exists ro takeover later, ac_requests c = (0%nat, attach_request selector "" ro takeover) :: later /\
     Forall (fun q => exists ro, q.2 = attach_request (ac_terminal c) (newest_token (take q.1 (ac_attachments c).*1)) ro false) later) /\
  Forall (fun d => FIRST_DELAY <= d <= LAST_DELAY) (ac_slept c) /\
  (forall before after outcome, ac_writable c = true -> ac_interactive c = true -> (forall r, ac_phase c <> AnsiLeft r) ->
     ac_phase (step c (Typed (Ok (before ++ DETACH_KEY :: after)) outcome)) = AnsiLeft (Ok tt)).
Proof.
  intros Hstart. cbv zeta. pose proof (ansi_start_inv _ _ _ _ _ _ _ _ Hstart) as Hinv0. pose proof (ansi_run_inv _ _ events Hinv0) as Hinv.
  split_and!.
  - rewrite (inputs_run selector) by done. enough (inputs c0 = []) as -> by done. unfold attach_terminal in Hstart. ok_inv Hstart.
    unfold begin_attachment. cbn [ac_writable show adopt]. destruct read_only; cbn [negb]; [done|]. by destruct outcome as [[]|].
  - apply Hinv.
  - destruct (ai_requests _ _ Hinv) as (ro & tk & later & Hq & Hl). exists ro, tk, later. split; [done|].
    eapply Forall_impl; [exact Hl|]. intros q (ro' & Hq' & _). by exists ro'.
  - apply Hinv.
  - intros before after outcome' Hw Hi Hleft. clear Hinv0. set (c := run c0 events) in *. clearbody c.
    assert (Hk : forall keys, DETACH_KEY ∈ keys -> pressed keys (before ++ DETACH_KEY :: after) = true).
    { intros keys Hk. unfold pressed. rewrite existsb_app. apply orb_true_iff. right. cbn [existsb]. apply orb_true_iff. left.
      apply existsb_exists. exists DETACH_KEY. split; [by apply list_elem_of_In|apply N.eqb_refl]. }
    unfold ansi_step. destruct (ac_phase c) as [|delay ro|r] eqn:Hp; [| |by destruct (Hleft r)].
    + rewrite Hw. unfold type_keys. rewrite Hi, Hk by set_solver. cbn [andb]. rewrite orb_true_r. by destruct outcome'.
    + pose proof (ai_phase _ _ Hinv) as Hph. rewrite Hp, Hw in Hph. destruct Hph as [-> _]. cbn [negb]. unfold type_offline.
      rewrite Hi, Hk by set_solver. cbn [andb]. by rewrite orb_true_r.
Qed.

(** A client that lost its lease to somebody else does not read the keyboard at all. *)
Lemma viewer_ignores_keys c r outcome : ac_phase c = AnsiAttached -> ac_writable c = false -> step c (Typed r outcome) = c.
Proof. intros Hp Hw. unfold ansi_step. by rewrite Hp, Hw. Qed.
End spec.

(** ** The server's side *)

(** What the attachment handler does with a command, when the PTY takes it. *)
Definition serve_command (terminal attachment lease : string) (t : Lease.Terminal) (m : TerminalCommand) (now : N) : Lease.Terminal * result () :=
  match validate_terminal_command_target m terminal attachment false lease with
  | Err e => (t, Err e)
  | Ok _ =>
      match cm_command m with
      | Some (CInput data) => write_input t (cm_lease_id m) (cm_sequence m) data now IoOk
      | Some (CResize size) => resize t (cm_lease_id m) (cm_sequence m) size now IoOk
      | _ => (t, Ok tt)
      end
  end.
Fixpoint serve_commands (terminal attachment lease : string) (t : Lease.Terminal) (l : list (TerminalCommand * N)) : Lease.Terminal * result () :=
  match l with
  | [] => (t, Ok tt)
  | (m, now) :: l =>
      match serve_command terminal attachment lease t m now with
      | (t, Err e) => (t, Err e)
      | (t, Ok _) => serve_commands terminal attachment lease t l
      end
  end.
Definition fits (m : TerminalCommand) : Prop := match cm_command m with Some (CResize s) => is_ok (check_size s) = true | _ => True end.

Lemma serve_numbered terminal attachment lease l k t token :
  lease <> ""%string -> (exists s, tm_lease t = Some (mkLease lease token s None) /\ s <= N.of_nat k) ->
  (forall i m, l.*1 !! i = Some m -> cm_terminal_id m = terminal /\ cm_lease_id m = lease /\ cm_sequence m = N.of_nat (k + i) + 1) ->
  Forall fits l.*1 ->
  let '(t', r) := serve_commands terminal attachment lease t l in
  r = Ok tt /\ tm_written t' = tm_written t ++ concat (omap input_of l.*1).
Proof.
  intros Hlease. revert k t. induction l as [|[m now] l IH]; intros k t (s & Hs & Hle) Hl Hfit; cbn [serve_commands]; [by rewrite app_nil_r|].
  destruct (Hl 0%nat m eq_refl) as (Ht & Hid & Hseq). rewrite Nat.add_0_r in Hseq. cbn in Hfit. apply Forall_cons in Hfit as [Hm Hfit].
  assert (Hvalid : validate_terminal_command_target m terminal attachment false lease = Ok tt).
  { unfold validate_terminal_command_target. rewrite Ht, Hid, (bool_decide_eq_true_2 (terminal = terminal)), (bool_decide_eq_true_2 (lease = lease)),
      (bool_decide_eq_false_2 (lease = ""%string)) by done. cbn.
    by destruct (cm_command m) as [[]|]. }
  assert (Hexp : (expire_lease_if_due_at t lease now).1 = t).
  { unfold expire_lease_if_due_at. rewrite Hs. cbn. by rewrite bool_decide_eq_true_2, andb_false_r. }
  assert (Hcheck : check_lease t lease (cm_sequence m) = Ok (mkLease lease token s None)).
  { unfold check_lease. rewrite Hs. cbn. rewrite bool_decide_eq_true_2 by done. cbn. rewrite Hseq. replace (_ <=? s) with false by (symmetry; apply N.leb_gt; lia).
    done. }
  assert (Hrest : forall i m, l.*1 !! i = Some m -> cm_terminal_id m = terminal /\ cm_lease_id m = lease /\ cm_sequence m = N.of_nat (S k + i) + 1)
    by (intros i m' Hi; rewrite Nat.add_succ_comm; by apply Hl).
  assert (Hstep : exists t', serve_command terminal attachment lease t m now = (t', Ok tt) /\ tm_written t' = tm_written t ++ default [] (input_of m) /\
    exists s, tm_lease t' = Some (mkLease lease token s None) /\ s <= N.of_nat (S k)).
  { unfold serve_command. rewrite Hvalid. unfold input_of. unfold fits in Hm. destruct (cm_command m) as [[data|size| | | | |]|];
      try (exists t; rewrite app_nil_r; split; [done|]; split; [done|]; exists s; split; [done|lia]).
    - unfold write_input, write_input_locked. rewrite Hid, Hexp, Hcheck. eexists. split; [done|]. cbn. split; [done|]. exists (cm_sequence m). split; [done|lia].
    - unfold resize, resize_locked. destruct (check_size size) as [[]|] eqn:Hsz; [|done]. rewrite Hid, Hexp, Hcheck.
      unfold engine_resize. change MAX_DIMENSION with 1000.
      unfold check_size in Hsz. destruct ((1 <=? sz_rows size) && _ && _) in Hsz |- *; [|done]. cbn. eexists. split; [done|]. cbn. rewrite app_nil_r. split; [done|].
      exists (cm_sequence m). split; [done|lia].
    }
  destruct Hstep as (t' & -> & Hw & Hlease'). specialize (IH (S k) t' Hlease' Hrest Hfit).
  destruct (serve_commands terminal attachment lease t' l) as [t2 r]. destruct IH as [-> ->]. split; [done|]. rewrite Hw, <- app_assoc. f_equal.
  cbn. by destruct (input_of m); cbn; rewrite ?app_nil_r.
Qed.


(** ** A connection that the server loses first

    When the attachment ends on the server, its lease is released.  A client without a durable identity then has no
    authority that its token could prove. *)
Lemma released_never_resumed canonical_uuid t lease token now fresh_token fresh_id ttl :
  lease <> ""%string -> token <> ""%string -> slen token <= 128 ->
  tm_recovery t = None -> (exists l, tm_lease t = Some l /\ ls_id l = lease) ->
  acquire_resumable_lease_at canonical_uuid (release_lease t lease) false false token ttl None now fresh_token fresh_id =
  (release_lease t lease, Err "input recovery eligibility is missing or revoked").
Proof.
  intros Hl Ht Hlen Hr (l & Htl & Hid). unfold release_lease. rewrite bool_decide_eq_false_2, Htl, bool_decide_eq_true_2 by done.
  unfold acquire_resumable_lease_at. rewrite (proj2 (N.leb_le _ _) Hlen). cbn [negb]. unfold take_expired. cbn [tm_lease set_lease].
  rewrite (bool_decide_eq_false_2 (token = ""%string)) by done. cbn. by rewrite Hr.
Qed.
(** The client asks with that token for ever. *)
Lemma locked_out decode_snapshot c delay n :
  ac_phase c = AnsiReconnecting delay false ->
  exists delay', ac_phase (ansi_run decode_snapshot c
    (replicate n (Attempted (Listed [ac_terminal c] (Err "input recovery eligibility is missing or revoked")) None (Ok tt)))) = AnsiReconnecting delay' false.
Proof.
  revert c delay. induction n as [|n IH]; intros c delay Hp; [by exists delay|]. cbn. unfold ansi_step at 2. rewrite Hp. cbn [attempt].
  rewrite bool_decide_eq_true_2 by (by apply list_elem_of_singleton).
  match goal with |- context [foldl _ ?c' _] => destruct (IH c' (N.min (delay * 2) LAST_DELAY) eq_refl) as [d Hd]; by exists d end.
Qed.

(** ** A session *)

Definition demo_decode (b : bytes) : TerminalSnapshot := mkSnapshot false [] b.
Definition demo_shown_terminal : TerminalInfo :=
  mkTerminalInfo "t-1" [] [] [] "running" None 24 80 1 None None "w-1" 1.
Definition demo_answer (lease token : string) : Answered := mkAnswered (mkAttachResponse (Some demo_shown_terminal) lease false token (Some [36]) None 0 0) [].
Definition demo_ansi : result AnsiClient :=
  attach_terminal demo_decode "1" false false true (Ok (demo_answer "l-1" "k")) (Some (100, 30)) (Ok tt).
Definition demo_client : AnsiClient := default (mkAnsi "" false false "" 1 "" AnsiAttached [] [] [] []) (match demo_ansi with Ok c => Some c | Err _ => None end).
(** Typing, a break, typing that is lost, a recovery and more typing. *)
Definition demo_keys : list AnsiEvent :=
  [Typed (Ok [108; 115]) (Ok tt); Received (Ok None) (Ok tt); Typed (Ok [120]) (Ok tt); Attempted ReconnectFailed None (Ok tt);
   Attempted (Listed ["t-1"%string] (Ok (demo_answer "l-2" ""))) (Some (100, 30)) (Ok tt); Typed (Ok [10]) (Ok tt)].
Lemma ansi_session_exact_witness :
  demo_ansi = Ok demo_client /\ inputs (ansi_run demo_decode demo_client demo_keys) = [[108; 115]; [10]] /\
  ac_slept (ansi_run demo_decode demo_client demo_keys) = [250].
Proof.
  split; [vm_compute; reflexivity|]. split; [|vm_compute; reflexivity].
  destruct (ansi_session_exact demo_decode "1" false false true (Ok (demo_answer "l-1" "k")) (Some (100, 30)) (Ok tt) demo_client demo_keys) as [H _].
  - vm_compute. reflexivity.
  - rewrite H. vm_compute. reflexivity.
Defined.
