(* ===== verification/CommandLine.v ===== *)
(** * The command line of [astra] ([bin/astra.rs])

    What the arguments say about the connection; how terminals are named, shown and found; and which calls a
    command makes.  [attach_terminal] is [AnsiClient], the transfers of files are [FileClient]. *)
From S2P Require Import Prelude Text Resources TerminalState Negotiation Messages Environment Sessions Files FileReads Requests KnownHosts.
From stdpp Require Import pretty.
Open Scope N_scope.

(** ** The destination *)

(** [rsplit_once(c)] *)
Fixpoint rsplit_once (c : N) (t : text) : option (text * text) :=
  match t with
  | [] => None
  | x :: rest =>
      match rsplit_once c rest with
      | Some (a, b) => Some (x :: a, b)
      | None => if x =? c then Some ([], rest) else None
      end
  end.
Definition strip_prefix (c : N) (t : text) : option text :=
  match t with x :: rest => if x =? c then Some rest else None | [] => None end.
Definition strip_suffix (c : N) (t : text) : option text := (fun r => rev r) <$> strip_prefix c (rev t).

Record Destination := mkDestination { de_username : option text; de_host : text }.
Definition parse_destination (value : text) : result Destination :=
  '(username, host) ← (match rsplit_once 64 value with
                       | Some (username, host) =>
                           ensure! negb (bool_decide (username = [])), "destination username cannot be empty"; Ok (Some username, host)
                       | None => Ok (None, value)
                       end);
  let host := default host (inner ← strip_prefix 91 host; strip_suffix 93 inner) in
  ensure! negb (bool_decide (host = [])), "destination host cannot be empty";
  Ok (mkDestination username host).

(** ** Options in the style of [ssh] *)

Record SshOptions := mkSshOptions { so_strict : StrictHostKeyChecking; so_known_hosts : option text }.
Definition ssh_default : SshOptions := mkSshOptions Ask None.
(** [find('=')] or [find(char::is_whitespace)]: what is before the separator, the separator and what follows. *)
Fixpoint find_split (p : N -> bool) (t : text) : option (text * N * text) :=
  match t with
  | [] => None
  | c :: rest =>
      if p c then Some ([], c, rest)
      else match find_split p rest with Some (a, s, b) => Some (c :: a, s, b) | None => None end
  end.
Definition split_option (given : text) : option (text * N * text) :=
  match find_split (N.eqb 61) given with Some x => Some x | None => find_split is_whitespace given end.
(** One option; [option[separator + 1..]] panics when the separator has more than one byte. *)
Definition apply_option (parsed : SshOptions) (given : text) : outcome string SshOptions :=
  match split_option (trim given) with
  | None => Failed "SSH-style option must be KEY=VALUE"
  | Some (before, separator, after) =>
      if negb (len_utf8 separator =? 1) then Panicked
      else
        let key := to_ascii_lowercase <$> trim before in
        let value := trim after in
        if bool_decide (value = []) then Failed "SSH-style option has an empty value"
        else if bool_decide (key = lit "stricthostkeychecking") then
          match parse_policy value with Ok policy => Returned (mkSshOptions policy (so_known_hosts parsed)) | Err e => Failed e end
        else if bool_decide (key = lit "userknownhostsfile") then Returned (mkSshOptions (so_strict parsed) (Some value))
        else Failed "unsupported SSH-style option"
  end.
Fixpoint parse_options_from (parsed : SshOptions) (options : list text) : outcome string SshOptions :=
  match options with
  | [] => Returned parsed
  | given :: options =>
      match apply_option parsed given with
      | Returned parsed => parse_options_from parsed options
      | Failed e => Failed e
      | Panicked => Panicked
      end
  end.
Definition parse_ssh_options (options : list text) : outcome string SshOptions := parse_options_from ssh_default options.

(** ** Defaults *)

(** The environment: [None] for a variable that is not set, [Some None] for a value that is not UTF-8. *)
Abbreviation Env := (string -> option (option string)).
Definition default_username (env : Env) : string :=
  match env "USER" with
  | Some (Some u) => u
  | _ => match env "LOGNAME" with
         | Some (Some u) => u
         | _ => match env "USERNAME" with Some (Some u) => u | _ => "unknown" end
         end
  end.
Definition client_term (env : Env) : result string :=
  match env "TERM" with Some value => ok_or value "TERM is not valid UTF-8" | None => Ok "xterm-256color" end.
Fixpoint locale_environment (env : Env) (names : list string) : result (list EnvironmentVariable) :=
  match names with
  | [] => Ok []
  | name :: names =>
      match env name with
      | None => locale_environment env names
      | Some None => Err "is not valid UTF-8"
      | Some (Some value) =>
          rest ← locale_environment env names;
          Ok (if bool_decide (value = "") then rest else mkVariable name value :: rest)
      end
  end.
Definition client_locale_environment (env : Env) : result (list EnvironmentVariable) := locale_environment env LOCALE_ENVIRONMENT_VARIABLES.
(** An address with whether it is IPv4. *)
Definition resolve_address {A : Type} (addresses : result (list (bool * A))) : result A :=
  addresses ← addresses;
  ok_or (match find_map (fun a : bool * A => if a.1 then Some a.2 else None) addresses with
         | Some a => Some a
         | None => snd <$> head addresses
         end) "did not resolve to an IP address".
Definition select_identity (home : option Path) (is_file : Path -> bool) (explicit : option Path) : result Path :=
  match explicit with
  | Some path => Ok path
  | None =>
      home ← ok_or home "cannot locate the user home directory";
      ok_or (find_map (fun name => let identity := home ++ [lit ".ssh"; lit name] in if is_file identity then Some identity else None)
               ["id_ed25519"; "id_rsa"]%string)
        "no supported default SSH identity found"
  end.

(** [default_known_hosts_file]; [config_home] is [XDG_CONFIG_HOME] unless it is empty, a value of the environment is a path. *)
Definition default_known_hosts_file (config_home home profile : option Path) : result Path :=
  match config_home with
  | Some directory => Ok (directory ++ [lit "astra"; lit "known_hosts"])
  | None =>
      home ← ok_or (match home with Some h => Some h | None => profile end) "cannot locate the user configuration directory";
      Ok (home ++ [lit ".config"; lit "astra"; lit "known_hosts"])
  end.

Record Cli := mkCli {
  cl_port : N; cl_server_cert : option Path; cl_ssh_options : list text; cl_known_hosts_file : option Path; cl_user : option text;
  cl_destination : text }.
Inductive ServerTrust :=
| PinnedCertificate (certificate : Path)
| KnownHosts (host : text) (port : N) (file : Path) (policy : StrictHostKeyChecking).
(** The user and the trust that [run] connects with; [expand] is [expand_home_path] after [PathBuf::from]. *)
Definition connection_of (fallback_user : text) (default_file : result Path) (expand : text + Path -> result Path) (c : Cli)
    : outcome string (text * ServerTrust) :=
  match parse_ssh_options (cl_ssh_options c) with
  | Panicked => Panicked
  | Failed e => Failed e
  | Returned options =>
      match (destination ← parse_destination (cl_destination c);
             let username := match cl_user c with Some u => u | None => default fallback_user (de_username destination) end in
             trust ← (match cl_server_cert c with
                      | Some certificate => Ok (PinnedCertificate certificate)
                      | None =>
                          let configured := match cl_known_hosts_file c with Some p => Some (inr p) | None => inl <$> so_known_hosts options end in
                          file ← match configured with Some path => expand path | None => default_file end;
                          Ok (KnownHosts (de_host destination) (cl_port c) file (so_strict options))
                      end);
             Ok (username, trust)) with
      | Ok r => Returned r
      | Err e => Failed e
      end
  end.

(** ** Terminals *)

Definition display_id (t : TerminalInfo) : string := if ti_display_id t =? 0 then "-" else pretty (ti_display_id t).
Definition terminal_reference (t : TerminalInfo) : string := if ti_display_id t =? 0 then ti_id t else pretty (ti_display_id t).
Definition truncate (value : text) (width : nat) : text := take width value.

Section commands.
(** [Uuid::parse_str] with [to_string], and the [Debug] form of a string. *)
Variable parse_uuid : string -> option string.
Variable debug : text -> text.

Definition is_canonical_uuid (value : string) : bool := bool_decide (parse_uuid value = Some value).
Definition resolve_terminal_reference (terminals : list TerminalInfo) (selector : string) : result string :=
  if is_canonical_uuid selector then Ok selector
  else ok_or (find_map (fun t => if bool_decide (terminal_reference t = selector) then Some (ti_id t) else None) terminals)
         "no active terminal matches reference".

Definition is_ascii_alphanumeric (c : N) : bool := ((48 <=? c) && (c <=? 57)) || ((65 <=? c) && (c <=? 90)) || ((97 <=? c) && (c <=? 122)).
Definition shell_word (argument : text) : text :=
  if forallb (fun c => is_ascii_alphanumeric c || bool_decide (c ∈ lit "_./-")) argument then argument else debug argument.
Definition shell_join (arguments : list text) : text :=
  match shell_word <$> arguments with [] => [] | word :: words => word ++ flat_map (fun w => 32 :: w) words end.
(** A column of the table. *)
Definition column (width : nat) (t : text) : text := t ++ replicate (width - length t) 32.
Definition table_line (cells : list text) : text :=
  match cells with [] => [] | cell :: cells => cell ++ flat_map (fun c => 32 :: 32 :: c) cells end.
Definition list_lines (long : bool) (terminals : list TerminalInfo) : list text :=
  if bool_decide (terminals = []) then [lit "No terminals."]
  else
    let row first t := table_line (first ++ [column 12 (truncate (ti_name t) 12); column 8 (lit (ti_status t)); shell_join (lit <$> ti_argv t)]) in
    if long then
      table_line [column 6 (lit "ID"); column 36 (lit "UUID"); column 12 (lit "NAME"); column 8 (lit "STATUS"); lit "COMMAND"] ::
      ((fun t => row [column 6 (lit (display_id t)); column 36 (lit (ti_id t))] t) <$> terminals)
    else
      table_line [column 6 (lit "ID"); column 12 (lit "NAME"); column 8 (lit "STATUS"); lit "COMMAND"] ::
      ((fun t => row [column 6 (lit (terminal_reference t))] t) <$> terminals).

(** ** Commands *)

Inductive FileCommand :=
| FcCapabilities | FcLs (path : bytes) | FcStat (path : bytes) (no_follow : bool)
| FcPut (local_path remote : bytes) (overwrite : bool) | FcGet (remote : bytes) (local_path : option bytes) (overwrite : bool)
| FcMkdir (path : bytes) | FcRm (path : bytes) | FcMv (source destination : bytes) (overwrite : bool).
Inductive CliCommand :=
| CliSpawn
| CliList (long : bool)
| CliNew (name cwd : string) (rows cols : N) (attach : bool) (argv : list string)
| CliAttach (terminal_id : string) (read_only takeover : bool)
| CliClose (terminal_id : string)
| CliFiles (command : FileCommand).
(** Where the command goes on after its calls. *)
Inductive Conclusion :=
| Finished
| Stopped (e : CallError)
| AttachAnsi (terminal_id : string) (read_only takeover : bool)
| AttachStreaming (workspace_id terminal_id : string) (read_only takeover : bool)
| TransferFiles (command : FileCommand).

(** The server: a call changes its state and gives an answer.  [negotiated] is the protocol of the connection. *)
Context {W : Type} (call : forall A, Call A -> W -> W * (CallError + A)) (negotiated : NegotiatedProtocol) (env : Env).
Definition CliM (A : Type) : Type := W -> W * (list text * (Conclusion + A)).
Definition cli_ret {A} (a : A) : CliM A := fun w => (w, ([], inr a)).
Definition cli_bind {A B} (m : CliM A) (f : A -> CliM B) : CliM B := fun w =>
  match m w with
  | (w, (out, inl c)) => (w, (out, inl c))
  | (w, (out, inr a)) => let '(w, (more, r)) := f a w in (w, (out ++ more, r))
  end.
Definition cli_call {A} (c : Call A) : CliM A := fun w =>
  let '(w, r) := call A c w in (w, ([], match r with inl e => inl (Stopped e) | inr a => inr a end)).
Definition cli_lift {A} (r : result A) : CliM A := fun w => (w, ([], match r with Ok a => inr a | Err e => inl (Stopped (CallFailed e)) end)).
Definition println (line : text) : CliM () := fun w => (w, ([line], inr tt)).
Definition print_lines (lines : list text) : CliM () := fun w => (w, (lines, inr tt)).
Definition conclude (c : Conclusion) : CliM () := fun w => (w, ([], inl c)).
#[local] Notation "x <- m ;; k" := (cli_bind m (fun x => k)) (at level 60, m at next level, right associativity).
#[local] Notation "m ;;; k" := (cli_bind m (fun _ => k)) (at level 60, right associativity).

Definition resolve_terminal_uuid (selector : string) : CliM string :=
  if negotiated_has negotiated CAPABILITY_SESSION_OBJECTS 1 then
    terminals <- cli_call CallList;; cli_lift (resolve_terminal_reference terminals selector)
  else cli_ret selector.
Definition attach_to (streaming : bool) (workspace_id terminal_id : string) (read_only takeover : bool) : CliM () :=
  conclude (if streaming then AttachStreaming workspace_id terminal_id read_only takeover else AttachAnsi terminal_id read_only takeover).
Definition spawn_request (name cwd : string) (rows cols : N) (argv : list string) (workspace_id : string) : CliM SpawnRequest :=
  term <- cli_lift (client_term env);;
  environment <- cli_lift (client_locale_environment env);;
  cli_ret (mkSpawn name argv cwd rows cols term environment workspace_id).
(** The default workspace, which only [--streaming] asks for. *)
Definition cli_workspace (streaming : bool) : CliM string :=
  if streaming then
    cli_lift (ensure! negotiated_has negotiated CAPABILITY_DATAGRAM_STATE 2, "server does not support terminal.datagram_state v2"; Ok tt);;;
    workspaces <- cli_call CallListWorkspaces;;
    cli_lift (ok_or (find_map (fun w => if ws_is_default w then Some (ws_id w) else None) workspaces) "server has no default workspace")
  else cli_ret "".
Definition run_connected (streaming : bool) (command : CliCommand) : CliM () :=
  workspace_id <- cli_workspace streaming;;
  match command with
  | CliSpawn =>
      request <- spawn_request "" "" 24 80 [] workspace_id;;
      terminal <- cli_call (CallSpawn request);;
      attach_to streaming workspace_id (ti_id terminal) false false
  | CliList long => terminals <- cli_call CallList;; print_lines (list_lines long terminals)
  | CliNew name cwd rows cols attach argv =>
      request <- spawn_request name cwd rows cols argv workspace_id;;
      terminal <- cli_call (CallSpawn request);;
      println (lit (terminal_reference terminal));;;
      if attach then attach_to streaming workspace_id (ti_id terminal) false false else cli_ret tt
  | CliAttach selector read_only takeover =>
      terminal_id <- resolve_terminal_uuid selector;; attach_to streaming workspace_id terminal_id read_only takeover
  | CliClose selector =>
      terminal_id <- resolve_terminal_uuid selector;;
      message <- cli_call (CallClose workspace_id terminal_id);;
      println (lit message)
  | CliFiles command => conclude (TransferFiles command)
  end.
End commands.
