(* ===== verification/CommandLineSpec.v ===== *)
(** * The command line of [astra]: what its arguments mean *)
From stdpp Require Import pretty.
From S2P Require Import Prelude Text Resources TerminalState Negotiation Payload Messages StreamChannels Environment Sessions SessionsSpec SessionsInv Files FileReads Requests RequestsSpec KnownHosts CommandLine.
Open Scope N_scope.

(** ** Destinations *)

Lemma rsplit_once_None c t : c ∉ t -> rsplit_once c t = None.
Proof.
  induction t as [|x t IH]; intros Hc; [done|]. cbn. rewrite IH by (intros ?; apply Hc; by right). destruct (N.eqb_spec x c) as [->|]; [|done].
  destruct Hc. by left.
Qed.
Lemma rsplit_once_app c a b : c ∉ b -> rsplit_once c (a ++ c :: b) = Some (a, b).
Proof.
  intros Hb. induction a as [|x a IH]; cbn; [by rewrite rsplit_once_None, N.eqb_refl|]. by rewrite IH.
Qed.
Lemma rsplit_once_Some c t a b : rsplit_once c t = Some (a, b) -> t = a ++ c :: b /\ c ∉ b.
Proof.
  revert a b. induction t as [|x t IH]; intros a b; cbn; [done|]. destruct (rsplit_once c t) as [[a' b']|] eqn:E.
  - intros [= <- <-]. destruct (IH _ _ eq_refl) as [-> Hb]. done.
  - destruct (N.eqb_spec x c) as [->|]; [|done]. intros [= <- <-]. split; [done|]. intros Hc.
    apply list_elem_of_split in Hc as (l & k & ->). enough (rsplit_once c (l ++ c :: k) <> None) by done.
    clear. induction l as [|y l IH]; cbn; [|by destruct (rsplit_once c (l ++ c :: k)) as [[]|]].
    rewrite N.eqb_refl. by destruct (rsplit_once c k) as [[]|].
Qed.
(** A host as it may be written: bare or in brackets. *)
Definition written_host (host written : text) : Prop := written = 91 :: host ++ [93] \/ written = host /\ ~ (exists h, written = 91 :: h ++ [93]).
Lemma strip_brackets written : written_host (default written (inner ← strip_prefix 91 written; strip_suffix 93 inner)) written.
Proof.
  destruct written as [|x rest]; cbn; [right; split; [done|by intros (h & ?)]|]. destruct (N.eqb_spec x 91) as [->|Hx].
  - cbn. unfold strip_suffix. destruct (rev rest) as [|y r] eqn:E; cbn.
    + right. split; [done|]. intros (h & [= ->]). by rewrite rev_app_distr in E.
    + destruct (N.eqb_spec y 93) as [->|Hy]; cbn.
      * left. f_equal. rewrite <- (rev_involutive rest), E. done.
      * right. split; [done|]. intros (h & [= ->]). rewrite rev_app_distr in E. by injection E as <- _.
  - right. split; [done|]. by intros (h & [= -> _]).
Qed.
Lemma written_host_unique h h' w : written_host h w -> written_host h' w -> h = h'.
Proof.
  intros [H1|[H1 Hn]] [H2|[H2 Hn']]; subst; try done.
  - injection H2 as H2. by apply app_inj_tail in H2 as [-> _].
  - destruct Hn'. by exists h.
  - destruct Hn. by exists h'.
Qed.

(** A destination means one thing.  What is read is the user before the last [@] and the host after it, without
    brackets; whoever writes a user and a host without an [@], in brackets or not, gets them back; and only an empty user before
    an [@] or an empty host is refused. *)
Theorem destination_exact value :
  match parse_destination value with
  | Ok d => de_host d <> [] /\ exists written, written_host (de_host d) written /\
      match de_username d with Some u => u <> [] /\ (64 ∉ written) /\ value = u ++ 64 :: written | None => (64 ∉ value) /\ value = written end
  | Err _ => (exists written, (64 ∉ written) /\ value = 64 :: written) \/
      exists written, written_host [] written /\ (value = written \/ exists u, value = u ++ 64 :: written)
  end /\
  forall user host written, host <> [] -> 64 ∉ written -> written_host host written ->
    (value = written -> parse_destination value = Ok (mkDestination None host)) /\
    (user <> [] -> value = user ++ 64 :: written -> parse_destination value = Ok (mkDestination (Some user) host)).
Proof.
  split.
  - unfold parse_destination. destruct (rsplit_once 64 value) as [[u written]|] eqn:E.
    + apply rsplit_once_Some in E as [-> Hw]. destruct (decide (u = [])) as [->|Hu].
      * rewrite bool_decide_eq_true_2 by done. left. by exists written.
      * rewrite bool_decide_eq_false_2 by done. cbn [negb mbind result_bind]. pose proof (strip_brackets written) as Hs.
        set (h := default written _) in *. clearbody h. destruct (decide (h = [])) as [->|Hh].
        -- rewrite bool_decide_eq_true_2 by done. right. exists written. split; [done|]. right. by exists u.
        -- rewrite bool_decide_eq_false_2 by done. cbn. split; [done|]. by exists written.
    + cbn [mbind result_bind]. pose proof (strip_brackets value) as Hs. set (h := default value _) in *. clearbody h.
      destruct (decide (h = [])) as [->|Hh].
      * rewrite bool_decide_eq_true_2 by done. right. exists value. split; [done|by left].
      * rewrite bool_decide_eq_false_2 by done. cbn. split; [done|]. exists value. split; [done|]. split; [|done]. intros Hin.
        apply list_elem_of_split in Hin as (l & k & ->). clear -E. induction l as [|y l IH]; cbn in E.
        -- by destruct (rsplit_once 64 k) as [[]|].
        -- by destruct (rsplit_once 64 (l ++ 64 :: k)) as [[]|]; [|apply IH].
  - intros user host written Hh Hw Hwr. unfold parse_destination.
    assert (Hs : default written (inner ← strip_prefix 91 written; strip_suffix 93 inner) = host)
      by (eapply written_host_unique; [apply strip_brackets|done]).
    split; [intros ->|intros Hu ->].
    + rewrite rsplit_once_None by done. cbn [mbind result_bind]. rewrite Hs, bool_decide_eq_false_2 by done. done.
    + rewrite rsplit_once_app by done. rewrite (bool_decide_eq_false_2 (user = [])) by done. cbn [negb mbind result_bind].
      rewrite Hs, bool_decide_eq_false_2 by done. done.
Qed.
Lemma destination_exact_witness :
  parse_destination (lit "ann@corp@[::1]") = Ok (mkDestination (Some (lit "ann@corp")) (lit "::1")) /\ lit "::1" <> [].
Proof.
  split; [|discriminate]. apply (proj2 (destination_exact (lit "ann@corp@[::1]")) (lit "ann@corp") (lit "::1") (lit "[::1]")).
  - discriminate.
  - apply (bool_decide_unpack _). vm_compute. exact I.
  - left. reflexivity.
  - discriminate.
  - reflexivity.
Defined.

(** ** Options *)

Lemma parse_options_app parsed l k :
  parse_options_from parsed (l ++ k) = match parse_options_from parsed l with Returned parsed => parse_options_from parsed k | o => o end.
Proof. revert parsed. induction l as [|o l IH]; intros parsed; cbn; [done|]. by destruct (apply_option parsed o). Qed.
Lemma find_split_Some p t a s b : find_split p t = Some (a, s, b) -> t = a ++ s :: b /\ p s = true /\ Forall (fun c => p c = false) a.
Proof.
  revert a. induction t as [|c t IH]; intros a; cbn; [done|]. destruct (p c) eqn:E; [by intros [= <- <- <-]|].
  destruct (find_split p t) as [[[a' s'] b']|]; [|done]. intros [= <- <- <-]. destruct (IH _ eq_refl) as (-> & Hs & Ha). split_and!; [done..|by constructor].
Qed.
(** An option panics exactly when it has no [=] and its first white space is not ASCII. *)
Lemma option_panics parsed given :
  apply_option parsed given = Panicked <->
  find_split (N.eqb 61) (trim given) = None /\ exists before c after, find_split is_whitespace (trim given) = Some (before, c, after) /\ 128 <= c.
Proof.
  unfold apply_option, split_option. destruct (find_split (N.eqb 61) (trim given)) as [[[a s] b]|] eqn:E.
  - apply find_split_Some in E as (_ & Hs & _). apply N.eqb_eq in Hs as <-. cbn. split; [|by intros [? _]].
    destruct (bool_decide _); [done|]. case_bool_decide; [by destruct (parse_policy _)|]. by case_bool_decide.
  - destruct (find_split is_whitespace (trim given)) as [[[a s] b]|] eqn:E2; [|split; [done|by intros (_ & ? & ? & ? & ? & _)]].
    unfold len_utf8. destruct (N.ltb_spec s 128) as [Hs|Hs]; cbn [N.eqb Pos.eqb negb].
    + split; [|intros (_ & ? & ? & ? & [= <- <- <-] & ?); lia]. cbn. destruct (bool_decide _); [done|].
      case_bool_decide; [by destruct (parse_policy _)|]. by case_bool_decide.
    + split; [|by destruct (s <? 2048), (s <? 65536)]. intros _. split; [done|]. by exists a, s, b.
Qed.
Example option_with_wide_space : parse_ssh_options [lit "StrictHostKeyChecking" ++ 160 :: lit "yes"] = Panicked.
Proof. reflexivity. Qed.
(** The last setting wins, and each setting is read whatever its case and the space around it. *)
Example options_override :
  parse_ssh_options [lit "StrictHostKeyChecking=no"; lit " userknownhostsfile ~/hosts"; lit "STRICTHOSTKEYCHECKING = yes "] =
  Returned (mkSshOptions Yes (Some (lit "~/hosts"))).
Proof. reflexivity. Qed.

(** ** References *)

Section references.
Context `{SessionLaws} `{PayloadLib}.

Lemma canonical_valid s : is_canonical_uuid parse_uuid s = true <-> validate_uuid s = Ok tt.
Proof.
  unfold is_canonical_uuid, validate_uuid. rewrite bool_decide_eq_true. destruct (parse_uuid s) as [p|]; cbn; [|done].
  destruct (decide (p = s)) as [->|Hne]; [by rewrite bool_decide_eq_true_2|]. rewrite bool_decide_eq_false_2 by done. split; [congruence|done].
Qed.
Lemma listed m t : t ∈ list_running m <-> (exists id e, sm_terminals m !! id = Some e /\ t = te_info e) /\ ti_status t = "running"%string.
Proof. unfold list_running, sort_terminals. rewrite merge_sort_Permutation, list_elem_of_filter, elem_of_terminal_infos. tauto. Qed.
Lemma shown_reference m o t :
  session_reachable (m, o) -> t ∈ list_running m ->
  terminal_reference t = pretty (ti_display_id t) /\ validate_uuid (ti_id t) = Ok tt /\
  resolve_terminal_reference parse_uuid (list_running m) (ti_id t) = Ok (ti_id t) /\
  resolve_terminal_reference parse_uuid (list_running m) (terminal_reference t) = Ok (ti_id t) /\
  get_by_selector (ti_id t) m = Some t /\ get_by_selector (terminal_reference t) m = Some t.
Proof.
  intros (_ & Ht & _)%session_invariant Hin. cbn [fst] in Ht. pose proof Hin as [(id & e & Hid & ->) _]%listed.
  destruct (select_terminal _ _ _ Ht Hid) as [Hs1 Hs2]. destruct Ht as (Hwf & Hinj & _ & Hmax & _).
  destruct (Hwf _ _ Hid) as (Hti & Hv & Hd & _). assert (Href : terminal_reference (te_info e) = pretty (ti_display_id (te_info e))).
  { unfold terminal_reference. by destruct (N.eqb_spec (ti_display_id (te_info e)) 0) as [Hz|]; [lia|]. }
  rewrite Hti, Href. split_and!; try done.
  - unfold resolve_terminal_reference. by rewrite (proj2 (canonical_valid id) Hv).
  - unfold resolve_terminal_reference. destruct (is_canonical_uuid parse_uuid (pretty (ti_display_id (te_info e)))) eqn:Hc.
    { apply canonical_valid in Hc. by destruct (pretty_not_uuid (ti_display_id (te_info e)) _ ltac:(lia) Hc). }
    erewrite find_map_unique; [done|exact Hin|by rewrite Href, bool_decide_eq_true_2, Hti|].
    intros z w [(j & u & Hj & ->) _]%listed. destruct (Hwf _ _ Hj) as (Hui & _ & Hud & _). unfold terminal_reference.
    destruct (N.eqb_spec (ti_display_id (te_info u)) 0); [lia|]. case_bool_decide as Heq; [|done]. intros [= <-].
    apply (inj pretty) in Heq. assert (j = id) as -> by (by eapply Hinj). congruence.
Qed.

(** ** Commands *)

Variable canonicalize : FileSystem -> Path -> FileServiceError + Path.
Variables (u : Surroundings) (negotiated : NegotiatedProtocol) (env : string -> option (option string)) (debug : text -> text).
Abbreviation session_objects := (negotiated_has negotiated CAPABILITY_SESSION_OBJECTS 1).
Abbreviation served := (fun A (c : Call A) w => reference canonicalize u session_objects c w).
Abbreviation astra := (run_connected parse_uuid debug served negotiated env).

Lemma default_workspace_listed m o :
  session_reachable (m, o) ->
  exists w, workspace (sc_default_workspace_id (sm_catalog m)) m = Ok w /\ ws_is_default w = true /\ ws_id w = sc_default_workspace_id (sm_catalog m).
Proof.
  intros ((Hv & _) & _)%session_invariant. cbn [fst] in Hv. destruct Hv as (_ & Hd & _ & Hnd & _ & w & Hw & Hid).
  assert (Hin : w ∈ sc_workspaces (sm_catalog m) /\ ws_is_default w = true).
  { assert (w ∈ default_workspaces (sm_catalog m)) as Hin by (rewrite Hw; by apply list_elem_of_singleton).
    unfold default_workspaces in Hin. apply list_elem_of_filter in Hin. tauto. }
  destruct Hin as [Hin Hdef]. exists w. split; [|done]. unfold workspace. rewrite Hd. cbn [mbind result_bind].
  erewrite find_map_unique; [done|exact Hin|by rewrite Hid, bool_decide_eq_true_2|].
  intros z y Hz. case_bool_decide as Hzi; [|done]. intros [= <-].
  apply list_elem_of_lookup in Hz as [i Hi], Hin as [j Hj]. enough (i = j) by (subst; congruence).
  eapply (NoDup_lookup (ws_id <$> sc_workspaces (sm_catalog m))); [done|by rewrite list_lookup_fmap, Hi|].
  rewrite list_lookup_fmap, Hj. cbn. congruence.
Qed.
Lemma astra_workspace streaming m o w :
  session_reachable (m, o) -> wk_manager w = m -> session_objects = streaming -> (streaming = true -> negotiated_has negotiated CAPABILITY_DATAGRAM_STATE 2 = true) ->
  cli_workspace served negotiated streaming w = (w, ([], inr (if streaming then sc_default_workspace_id (sm_catalog m) else ""%string))).
Proof.
  intros Hr Hm Hs Hd. destruct streaming; [|done]. unfold cli_workspace, cli_bind, cli_lift, cli_call. rewrite Hd by done. cbn.
  destruct (default_workspace_listed m o Hr) as (ws & Hw & Hdef & Hid). rewrite Hm, Hw, Hs. cbn. by rewrite Hdef, Hid.
Qed.
Lemma astra_resolves streaming m o w t selector :
  session_reachable (m, o) -> wk_manager w = m -> t ∈ list_running m -> session_objects = streaming ->
  selector = terminal_reference t \/ selector = ti_id t ->
  exists id, resolve_terminal_uuid parse_uuid served negotiated selector w = (w, ([], inr id)) /\ get_by_selector id m = Some t /\
    (streaming = true -> id = ti_id t /\ validate_uuid id = Ok tt).
Proof.
  intros Hr Hm Hin Hs Hsel. destruct (shown_reference m o t Hr Hin) as (_ & Hv & Hi & Href & Hgi & Hgr).
  unfold resolve_terminal_uuid. rewrite Hs. destruct streaming.
  - exists (ti_id t). split; [|done]. unfold cli_bind, cli_lift, cli_call. cbn. rewrite Hm. by destruct Hsel as [->| ->]; rewrite ?Href, ?Hi.
  - exists selector. split; [done|]. split; [|done]. by destruct Hsel as [->| ->].
Qed.

(** What [astra list] shows is what the other commands act on.  In a session in any reachable state, with or without [--streaming],
    the references of the running terminals are distinct; naming one of them, or its identifier, [astra attach] goes
    to that terminal and no other, in a form that the server accepts, and [astra close] signals it; and the list prints one line
    for each, beginning with its reference. *)
Theorem shown_terminals_reachable streaming m o w t selector read_only takeover :
  session_reachable (m, o) -> wk_manager w = m -> t ∈ list_running m -> session_objects = streaming ->
  (streaming = true -> negotiated_has negotiated CAPABILITY_DATAGRAM_STATE 2 = true /\ ti_workspace_id t = sc_default_workspace_id (sm_catalog m)) ->
  selector = terminal_reference t \/ selector = ti_id t ->
  let workspace_id := if streaming then sc_default_workspace_id (sm_catalog m) else ""%string in
  (forall t', t' ∈ list_running m -> terminal_reference t' = terminal_reference t -> t' = t) /\
  (exists id, astra streaming (CliAttach selector read_only takeover) w =
     (w, ([], inl (if streaming then AttachStreaming workspace_id id read_only takeover else AttachAnsi id read_only takeover))) /\
     get_terminal workspace_id id streaming m = Ok (Some t)) /\
  (su_kill u = Ok tt -> astra streaming (CliClose selector) w = (w, ([lit "terminal process signalled"], inr tt))) /\
  (exists header lines, astra streaming (CliList false) w = (w, (header :: lines, inr tt)) /\ length lines = length (list_running m) /\
     exists line, column 6 (lit (terminal_reference t)) ++ line ∈ lines).
Proof.
  intros Hr Hm Hin Hs Hstream Hsel. cbv zeta.
  pose proof (astra_workspace streaming m o w Hr Hm Hs (fun H => proj1 (Hstream H))) as Hws.
  destruct (astra_resolves streaming m o w t selector Hr Hm Hin Hs Hsel) as (id & Hid & Hget & Hcanon).
  assert (Hterm : get_terminal (if streaming then sc_default_workspace_id (sm_catalog m) else ""%string) id streaming m = Ok (Some t)).
  { unfold get_terminal. rewrite Hget. destruct streaming; [|done]. destruct (Hcanon eq_refl) as [-> Hv]. cbn [negb]. rewrite Hv. cbn [mbind result_bind].
    destruct (default_workspace_listed m o Hr) as (ws & Hw & _). rewrite Hw. cbn. rewrite bool_decide_eq_true_2; [done|]. by apply Hstream. }
  split_and!.
  - intros t' Hin' Heq. destruct (shown_reference m o t Hr Hin) as (_ & _ & _ & _ & _ & Hx).
    destruct (shown_reference m o t' Hr Hin') as (_ & _ & _ & _ & _ & Hy). congruence.
  - exists id. split; [|exact Hterm]. unfold run_connected, cli_bind. rewrite Hws, Hid. by destruct streaming.
  - intros Hkill. unfold run_connected, cli_bind. rewrite Hws, Hid. cbn. rewrite Hm, Hs, Hterm, Hkill. done.
  - unfold run_connected, cli_bind. rewrite Hws. cbn. rewrite Hm. unfold list_lines. rewrite bool_decide_eq_false_2 by (intros Hn; rewrite Hn in Hin; by apply elem_of_nil in Hin).
    eexists _, _. split; [done|]. split; [by rewrite length_fmap|]. eexists. apply list_elem_of_fmap. exists t. split; [|done].
    cbn [table_line app]. reflexivity.
Qed.
End references.

Definition ex_cli_protocol : NegotiatedProtocol := mkNegotiated 3 ∅.
Lemma shown_terminals_reachable_witness :
  terminal_reference demo_info = "1"%string /\
  (exists id, @run_connected (@parse_uuid demo_lib) (fun t => t) _ (fun A c w => @reference ex_payload_lib demo_lib (fun _ p => inr p) A ex_surroundings
       (negotiated_has ex_cli_protocol CAPABILITY_SESSION_OBJECTS 1) c w) ex_cli_protocol (fun _ => None) false (CliAttach "1" false true) ex_worker =
     (ex_worker, ([], inl (AttachAnsi id false true))) /\ @get_terminal demo_lib "" id false demo_attached = Ok (Some demo_info)).
Proof.
  split; [vm_compute; reflexivity|].
  destruct (@shown_terminals_reachable demo_lib demo_laws ex_payload_lib (fun _ p => inr p) ex_surroundings ex_cli_protocol (fun _ => None) (fun t => t)
    false demo_attached [] ex_worker demo_info "1" false true demo_reachable eq_refl) as (_ & H & _).
  - assert (Hl : list_running demo_attached = [demo_info]) by (vm_compute; reflexivity). rewrite Hl. left.
  - vm_compute. reflexivity.
  - discriminate.
  - left. vm_compute. reflexivity.
  - exact H.
Defined.
