(* ===== verification/StreamingCli.v ===== *)
(** * The streaming attachment of the command line ([bin/astra.rs], [attach_streaming_terminal])

    With [--streaming] the client draws the states of a [LiveTerminal] and gives it what the user types.  Its own messages go to
    the same screen, so it forgets what it has drawn after each of them.  A step is one arm of the [select!]. *)
From S2P Require Import Prelude Text TerminalState Lease Messages Sessions AttachServer AnsiClient TerminalStateSpec Renderer.
Open Scope N_scope.

(** What [next_event] gives. *)
Inductive LiveTerminalEvent :=
| LiveState (state : State)
| LiveExited (code : Z)
| LiveError (message : string)
| LiveLeaseChanged (change : LeaseChanged)
| LiveOther
| LiveRecovering (attempt retry_after : N) (reason : string)
| LiveConnection.
(** What the client asks of the [LiveTerminal]. *)
Inductive LiveCall := SendInput (data : bytes) | ResizeTo (size : Size) | DetachTerminal.
(** [sc_display] is the screen, [sc_calls] the calls so far. *)
Record StreamingCli := mkStreamingCli {
  sc_writable : bool; sc_renderer : ViewportRenderer; sc_display : display; sc_calls : list LiveCall; sc_left : option (result ()) }.
Definition leave_cli (r : result ()) (c : StreamingCli) : StreamingCli :=
  mkStreamingCli (sc_writable c) (sc_renderer c) (sc_display c) (sc_calls c) (Some r).
Definition call_live (m : LiveCall) (c : StreamingCli) : StreamingCli :=
  mkStreamingCli (sc_writable c) (sc_renderer c) (sc_display c) (sc_calls c ++ [m]) (sc_left c).
Definition set_cli_writable (b : bool) (c : StreamingCli) : StreamingCli :=
  mkStreamingCli b (sc_renderer c) (sc_display c) (sc_calls c) (sc_left c).
(** Something is drawn that the renderer does not know of. *)
Definition disturbed (noise : display -> display) (c : StreamingCli) : StreamingCli :=
  mkStreamingCli (sc_writable c) (invalidate (sc_renderer c)) (noise (sc_display c)) (sc_calls c) (sc_left c).

(** [outcome] is that of the write to the screen or of the call, [noise] what a message or a new size does to
    the screen. *)
Inductive StreamingCliEvent :=
| FromTerminal (e : result LiveTerminalEvent) (outcome : result ()) (noise : display -> display)
| FromKeyboard (r : result bytes) (outcome : result ()) (noise : display -> display)
| FromWindow (size : option (N * N)) (outcome : result ()) (noise : display -> display).
Section streaming_cli.
Context `{SL : StateLib}.

Definition draw_state (state : State) (outcome : result ()) (c : StreamingCli) : StreamingCli :=
  match render_items state (sc_renderer c) with
  | (r, Err e) => leave_cli (Err e) (mkStreamingCli (sc_writable c) r (sc_display c) (sc_calls c) (sc_left c))
  | (r, Ok items) =>
      match outcome with
      | Ok _ => mkStreamingCli (sc_writable c) r (show_items items (sc_display c)) (sc_calls c) (sc_left c)
      | Err e => leave_cli (Err e) (mkStreamingCli (sc_writable c) r (sc_display c) (sc_calls c) (sc_left c))
      end
  end.
Definition streaming_cli_event (c : StreamingCli) (event : StreamingCliEvent) : StreamingCli :=
  match event with
  | FromTerminal (Err e) _ _ => leave_cli (Err e) c
  | FromTerminal (Ok e) outcome noise =>
      match e with
      | LiveState state => draw_state state outcome c
      | LiveExited _ => leave_cli (Ok tt) c
      | LiveError _ | LiveRecovering _ _ _ | LiveConnection => disturbed noise c
      | LiveLeaseChanged change => disturbed noise (set_cli_writable (negb (lc_read_only change)) c)
      | LiveOther => c
      end
  | FromKeyboard (Err e) _ _ => leave_cli (Err e) c
  | FromKeyboard (Ok data) outcome noise =>
      if bool_decide (data = []) || pressed [DETACH_KEY] data then leave_cli outcome (call_live DetachTerminal c)
      else if sc_writable c then
        let c := call_live (SendInput data) c in
        match outcome with Ok _ => c | Err _ => disturbed noise c end
      else c
  | FromWindow size outcome noise =>
      match (if sc_writable c then outcome else Ok tt) with
      | Ok _ => disturbed noise (if sc_writable c then call_live (ResizeTo (window_size size)) c else c)
      | Err e => leave_cli (Err e) (call_live (ResizeTo (window_size size)) c)
      end
  end.
Definition streaming_cli_step (c : StreamingCli) (event : StreamingCliEvent) : StreamingCli :=
  match sc_left c with Some _ => c | None => streaming_cli_event c event end.
Definition streaming_cli_run (c : StreamingCli) (events : list StreamingCliEvent) : StreamingCli := foldl streaming_cli_step c events.
(** The start of the loop, on a screen in any condition. *)
Definition attach_streaming_terminal (tty read_only : bool) (size : option (N * N)) (outcome : result ()) (screen : display) : result StreamingCli :=
  ensure! tty, "--streaming requires an interactive TTY";
  let c := mkStreamingCli (negb read_only) (mkRenderer None) screen [] None in
  if negb read_only then _ ← outcome; Ok (call_live (ResizeTo (window_size size)) c) else Ok c.

(** ** The screen and the keys *)

(** What is typed while the terminal is writable. *)
Definition writable_keys (c : StreamingCli) (event : StreamingCliEvent) : list bytes :=
  match sc_left c, event with
  | None, FromKeyboard (Ok data) _ _ => if sc_writable c && negb (bool_decide (data = []) || pressed [DETACH_KEY] data) then [data] else []
  | _, _ => []
  end.
Fixpoint all_writable_keys (c : StreamingCli) (events : list StreamingCliEvent) : list bytes :=
  match events with [] => [] | e :: events => writable_keys c e ++ all_writable_keys (streaming_cli_step c e) events end.
Definition sent_inputs (c : StreamingCli) : list bytes := omap (fun m => match m with SendInput data => Some data | _ => None end) (sc_calls c).

Lemma renderer_step_reachable r d w : renderer_reachable (r, d) -> renderer_step (r, d) w -> renderer_reachable w.
Proof. intros [d0 Hs] Hstep. exists d0. eapply rtc_r; [exact Hs|exact Hstep]. Qed.
Lemma disturbed_reachable noise c :
  renderer_reachable (sc_renderer c, sc_display c) -> renderer_reachable (sc_renderer (disturbed noise c), sc_display (disturbed noise c)).
Proof. intros Hr. eapply renderer_step_reachable; [exact Hr|]. apply step_invalidate. Qed.
Definition screen_inv (c : StreamingCli) : Prop := sc_left c = None -> renderer_reachable (sc_renderer c, sc_display c).
Lemma cli_step_screen c event : screen_inv c -> screen_inv (streaming_cli_step c event).
Proof.
  intros Hinv. unfold streaming_cli_step. destruct (sc_left c) eqn:Hl; [exact Hinv|]. pose proof (Hinv Hl) as Hr.
  destruct event as [[e|e] outcome noise|[data|e] outcome noise|size outcome noise]; cbn [streaming_cli_event]; try done.
  - destruct e; try done; try (intros _; by apply disturbed_reachable).
    unfold draw_state. destruct (render_items state (sc_renderer c)) as [r [items|e]] eqn:E; [destruct outcome|]; try done.
    intros _. eapply renderer_step_reachable; [exact Hr|]. by apply (step_render _ _ state).
  - destruct (_ || _); [done|]. destruct (sc_writable c); [|done].
    destruct outcome; intros _; [exact Hr|]. by apply (disturbed_reachable noise (call_live (SendInput data) c)).
  - destruct (sc_writable c); [destruct outcome; [|done]|]; intros _.
    + by apply (disturbed_reachable noise (call_live (ResizeTo (window_size size)) c)).
    + by apply disturbed_reachable.
Qed.
Lemma sent_app c m : sent_inputs (call_live m c) = sent_inputs c ++ match m with SendInput data => [data] | _ => [] end.
Proof. unfold sent_inputs. cbn. rewrite omap_app. by destruct m. Qed.
Lemma cli_step_sent c event : sent_inputs (streaming_cli_step c event) = sent_inputs c ++ writable_keys c event.
Proof.
  unfold streaming_cli_step, writable_keys. destruct (sc_left c); [by rewrite app_nil_r|].
  destruct event as [[e|e] outcome noise|[data|e] outcome noise|size outcome noise]; cbn [streaming_cli_event]; rewrite ?app_nil_r; try done.
  - destruct e; try done. unfold draw_state. destruct (render_items state (sc_renderer c)) as [r [items|e]]; by destruct outcome.
  - destruct (_ || _) eqn:E; cbn [negb].
    + rewrite andb_false_r, app_nil_r. change (sent_inputs (leave_cli outcome ?x)) with (sent_inputs x). by rewrite sent_app, app_nil_r.
    + destruct (sc_writable c); cbn; [|by rewrite app_nil_r]. destruct outcome; [by rewrite sent_app|].
      change (sent_inputs (disturbed noise ?x)) with (sent_inputs x). by rewrite sent_app.
  - destruct (sc_writable c); [destruct outcome|]; try done.
    + change (sent_inputs (disturbed noise ?x)) with (sent_inputs x). by rewrite sent_app, app_nil_r.
    + change (sent_inputs (leave_cli ?r ?x)) with (sent_inputs x). by rewrite sent_app, app_nil_r.
Qed.
Lemma run_streaming c events :
  screen_inv c -> screen_inv (streaming_cli_run c events) /\
  sent_inputs (streaming_cli_run c events) = sent_inputs c ++ all_writable_keys c events.
Proof.
  revert c. induction events as [|e events IH]; intros c Hr; [by rewrite app_nil_r|]. cbn.
  destruct (IH (streaming_cli_step c e) (cli_step_screen c e Hr)) as [H1 H2]. split; [exact H1|].
  change (foldl streaming_cli_step (streaming_cli_step c e) events) with (streaming_cli_run (streaming_cli_step c e) events).
  by rewrite H2, cli_step_sent, app_assoc.
Qed.

End streaming_cli.

Definition cli_screen : display := mkDisplay {[0 := [(3, [Sequence [65]])]]} None ∅.
#[local] Existing Instance ex_lib.
Definition cli_events : list StreamingCliEvent :=
  [FromTerminal (Ok (LiveState (ex_state 1 ex_rows1))) (Ok tt) (fun d => d);
   FromTerminal (Ok (LiveRecovering 1 250 "lost")) (Ok tt) (fun _ => cli_screen); FromKeyboard (Ok [108]) (Err "offline") (fun d => d)].
