(* ===== verification/TerminalProcess.v ===== *)
(** * A running terminal ([terminal.rs]: [Terminal], [start_reader], [start_child_monitor], [start_foreground_monitor])

    A thread feeds what the process prints to the engine and to a broadcast channel, a task waits for the process to
    end, another one watches which process is in the foreground, and attachments subscribe with a picture of
    the engine, all concurrently.  A step of the model is what one of them does while it holds the locks it takes. *)
From S2P Require Import Prelude Text TerminalState Engine Environment Lease Sessions AttachServer Renderer.
Open Scope N_scope.

(** The buffer of the reader. *)
Definition READ_BUFFER : nat := 16 * 1024.
Definition MAX_CLIPBOARD_WRITE_BYTES : N := 256 * 1024.

(** [start_child_monitor]: waiting for the child, for the reader, about to record and to announce the status, and then
    until the terminal is forgotten. *)
Inductive Monitor :=
| Polling
| AwaitingReader (status : result Z)
| Recording (status : result Z)
| Announcing (status : result Z)
| Retaining (status : result Z)
| Forgotten (status : result Z).
(** [start_foreground_monitor]: the points of its loop. *)
Inductive ForegroundMonitor := CheckingStatus | ReadingLeader | PublishingChange (interactive : bool) | Sleeping | MonitorEnded.

(** What the engine was told; the exports leave the emulator as it is. *)
Inductive EngineOperation := Advanced (data : bytes) | Resized (size : TerminalSize).
(** What an attachment starts from. *)
Inductive SnapshotKind := LegacyKind | StateKind | ViewportKind.
Inductive Snapshot := LegacySnapshot (s : TerminalSnapshot) | StateSnapshot (s : State) | ViewportSnapshot (s : State).

Section process.
Context `{StateLib} {T : Type} `{Emulator T}.
(** What the emulator hands to [set_contents] while it parses: whether the primary selection, and the contents. *)
Variable clipboard : bytes -> T -> list (bool * option bytes).

(** A subscription: the place in the channel it starts at, the engine and its picture at that moment, and how often the
    engine had been told something. *)
Record Subscription := mkSubscription { su_from : nat; su_told : nat; su_engine : TerminalEngine T; su_snapshot : Snapshot }.
(** [tp_events] is everything the channel was sent, [tp_told] everything the engine was told. *)
Record TerminalProcess := mkProcess {
  tp_engine : TerminalEngine T; tp_info : TerminalInfo; tp_events : list PtyEvent; tp_reader_done : bool; tp_monitor : Monitor;
  tp_foreground : ForegroundMonitor; tp_registered : bool; tp_told : list EngineOperation; tp_subscriptions : list Subscription }.
Definition with_engine (e : TerminalEngine T) (told : list EngineOperation) (p : TerminalProcess) : TerminalProcess :=
  mkProcess e (tp_info p) (tp_events p) (tp_reader_done p) (tp_monitor p) (tp_foreground p) (tp_registered p) (tp_told p ++ told) (tp_subscriptions p).
Definition with_info (i : TerminalInfo) (p : TerminalProcess) : TerminalProcess :=
  mkProcess (tp_engine p) i (tp_events p) (tp_reader_done p) (tp_monitor p) (tp_foreground p) (tp_registered p) (tp_told p) (tp_subscriptions p).
(** [events.send] *)
Definition broadcast (l : list PtyEvent) (p : TerminalProcess) : TerminalProcess :=
  mkProcess (tp_engine p) (tp_info p) (tp_events p ++ l) (tp_reader_done p) (tp_monitor p) (tp_foreground p) (tp_registered p) (tp_told p)
    (tp_subscriptions p).
Definition reader_ends (p : TerminalProcess) : TerminalProcess :=
  mkProcess (tp_engine p) (tp_info p) (tp_events p) true (tp_monitor p) (tp_foreground p) (tp_registered p) (tp_told p) (tp_subscriptions p).
Definition with_monitor (m : Monitor) (p : TerminalProcess) : TerminalProcess :=
  mkProcess (tp_engine p) (tp_info p) (tp_events p) (tp_reader_done p) m (tp_foreground p) (tp_registered p) (tp_told p) (tp_subscriptions p).
Definition with_foreground (f : ForegroundMonitor) (p : TerminalProcess) : TerminalProcess :=
  mkProcess (tp_engine p) (tp_info p) (tp_events p) (tp_reader_done p) (tp_monitor p) f (tp_registered p) (tp_told p) (tp_subscriptions p).
Definition forget (p : TerminalProcess) : TerminalProcess :=
  mkProcess (tp_engine p) (tp_info p) (tp_events p) (tp_reader_done p) (tp_monitor p) (tp_foreground p) false (tp_told p) (tp_subscriptions p).

(** ** The reader *)

(** [HostClipboard::set_contents]: contents that are too large are an error for the emulator. *)
Definition set_contents (write : bool * option bytes) : option PtyEvent :=
  match write.2 with
  | Some contents => if MAX_CLIPBOARD_WRITE_BYTES <? llen contents then None else Some (PtyClipboardWrite write.1 (Some contents))
  | None => Some (PtyClipboardWrite write.1 None)
  end.
(** A turn of the loop of [start_reader]; the lock of the engine is held until the chunk is published. *)
Definition reader_turn (read : result bytes) (p : TerminalProcess) : TerminalProcess :=
  if tp_reader_done p then p
  else
    match read with
    | Err e => reader_ends (broadcast [PtyError e] p)
    | Ok data =>
        let chunk := take READ_BUFFER data in
        if bool_decide (chunk = []) then reader_ends p
        else
          let writes := omap set_contents (clipboard chunk (en_terminal (tp_engine p))) in
          broadcast (writes ++ [PtyOutput chunk]) (with_engine (advance chunk (tp_engine p)) [Advanced chunk] p)
    end.

(** ** The end of the process *)

Definition exited_info (status : result Z) (i : TerminalInfo) : TerminalInfo :=
  mkTerminalInfo (ti_id i) (ti_name i) (ti_argv i) (ti_cwd i) (match status with Ok _ => "exited" | Err _ => "lost" end)
    (match status with Ok code => Some code | Err _ => ti_exit_code i end)
    (ti_rows i) (ti_cols i) (ti_display_id i) (ti_custom_name i) (ti_interactive i) (ti_workspace_id i) LIFECYCLE_EXITED.
(** [try_wait] *)
Definition poll_child (polled : result (option Z)) (p : TerminalProcess) : TerminalProcess :=
  match tp_monitor p with
  | Polling =>
      match polled with
      | Ok None => p
      | Ok (Some code) => with_monitor (AwaitingReader (Ok code)) p
      | Err e => with_monitor (AwaitingReader (Err e)) p
      end
  | _ => p
  end.
(** The bounded wait for the reader; [timeout] says that 250 milliseconds have passed. *)
Definition drain_wait (timeout : bool) (p : TerminalProcess) : TerminalProcess :=
  match tp_monitor p with
  | AwaitingReader status => if timeout || tp_reader_done p then with_monitor (Recording status) p else p
  | _ => p
  end.
(** The next of the three last steps. *)
Definition monitor_turn (p : TerminalProcess) : TerminalProcess :=
  match tp_monitor p with
  | Recording status => with_monitor (Announcing status) (with_info (exited_info status (tp_info p)) p)
  | Announcing status =>
      with_monitor (Retaining status) (broadcast [match status with Ok code => PtyExited code | Err message => PtyError message end] p)
  | Retaining status => with_monitor (Forgotten status) (forget p)
  | _ => p
  end.

(** ** The foreground process *)

Definition with_interactive (b : bool) (i : TerminalInfo) : TerminalInfo :=
  mkTerminalInfo (ti_id i) (ti_name i) (ti_argv i) (ti_cwd i) (ti_status i) (ti_exit_code i) (ti_rows i) (ti_cols i) (ti_display_id i)
    (ti_custom_name i) (Some b) (ti_workspace_id i) (ti_lifecycle i).
(** A step of [start_foreground_monitor]; [leader] says whether the shell leads the foreground process group. *)
Definition foreground_turn (leader : bool) (p : TerminalProcess) : TerminalProcess :=
  match tp_foreground p with
  | CheckingStatus => with_foreground (if bool_decide (ti_status (tp_info p) = "running") then ReadingLeader else MonitorEnded) p
  | ReadingLeader =>
      with_foreground (if bool_decide (ti_interactive (tp_info p) = Some leader) then Sleeping else PublishingChange leader)
        (with_info (with_interactive leader (tp_info p)) p)
  | PublishingChange interactive => with_foreground Sleeping (broadcast [PtyInteractive interactive] p)
  | Sleeping => with_foreground CheckingStatus p
  | MonitorEnded => p
  end.

(** ** The operations of [Terminal] *)

(** [info()]: the title that the program has set is the name. *)
Definition shown_info (p : TerminalProcess) : TerminalInfo :=
  let i := tp_info p in
  match (title ← program_title (tp_engine p); clean_program_title (lit title)) with
  | Some name => mkTerminalInfo (ti_id i) name (ti_argv i) (ti_cwd i) (ti_status i) (ti_exit_code i) (ti_rows i) (ti_cols i) (ti_display_id i)
                   (ti_custom_name i) (ti_interactive i) (ti_workspace_id i) (ti_lifecycle i)
  | None => i
  end.
Definition take_snapshot (kind : SnapshotKind) (fresh : bytes) (e : TerminalEngine T) : TerminalEngine T * result Snapshot :=
  match kind with
  | LegacyKind => let '(e, r) := legacy_snapshot fresh e in (e, LegacySnapshot <$> r)
  | StateKind => let '(e, r) := semantic_state fresh e in (e, StateSnapshot <$> r)
  | ViewportKind => let '(e, r) := semantic_viewport fresh e in (e, ViewportSnapshot <$> r)
  end.
(** [snapshot_and_subscribe], [semantic_state_and_subscribe] and [semantic_viewport_and_subscribe]: the receiver is
    made before the picture, under the lock of the engine. *)
Definition subscribe (kind : SnapshotKind) (fresh : bytes) (p : TerminalProcess) : TerminalProcess * result Subscription :=
  let from := length (tp_events p) in
  let '(e, r) := take_snapshot kind fresh (tp_engine p) in
  let p := with_engine e [] p in
  match r with
  | Err error => (p, Err error)
  | Ok snapshot =>
      let s := mkSubscription from (length (tp_told p)) e snapshot in
      (mkProcess (tp_engine p) (tp_info p) (tp_events p) (tp_reader_done p) (tp_monitor p) (tp_foreground p) (tp_registered p) (tp_told p)
         (tp_subscriptions p ++ [s]), Ok s)
  end.
(** [resize], behind the checks of the size and the lease; [pty] is the outcome of the call to the PTY. *)
Definition resize_process (size : Lease.Size) (pty : result ()) (p : TerminalProcess) : TerminalProcess * result () :=
  let '(e, r) := resize_engine (sz_rows size) (sz_cols size) (sz_pixel_width size) (sz_pixel_height size) (tp_engine p) in
  match r with
  | Err error => (with_engine e [] p, Err error)
  | Ok _ =>
      let p := with_engine e [Resized (terminal_size (sz_rows size) (sz_cols size) (sz_pixel_width size) (sz_pixel_height size))] p in
      match pty with
      | Err error => (p, Err error)
      | Ok _ =>
          let i := tp_info p in
          (with_info (mkTerminalInfo (ti_id i) (ti_name i) (ti_argv i) (ti_cwd i) (ti_status i) (ti_exit_code i) (sz_rows size) (sz_cols size)
                        (ti_display_id i) (ti_custom_name i) (ti_interactive i) (ti_workspace_id i) (ti_lifecycle i)) p, Ok tt)
      end
  end.
Definition rename_process (name : text) (p : TerminalProcess) : TerminalProcess :=
  let i := tp_info p in
  let cleaned := trim name in
  with_info (mkTerminalInfo (ti_id i) (ti_name i) (ti_argv i) (ti_cwd i) (ti_status i) (ti_exit_code i) (ti_rows i) (ti_cols i) (ti_display_id i)
               (if bool_decide (cleaned = []) then None else Some cleaned) (ti_interactive i) (ti_workspace_id i) (ti_lifecycle i)) p.
(** Exports for attachments that already run. *)
Definition export_process (kind : SnapshotKind) (fresh : bytes) (p : TerminalProcess) : TerminalProcess * result Snapshot :=
  let '(e, r) := take_snapshot kind fresh (tp_engine p) in (with_engine e [] p, r).
Definition history_process (request_id : N) (request : HistoryPageRequest) (fresh : bytes) (p : TerminalProcess)
    : TerminalProcess * result HistoryPage :=
  let '(e, r) := history_page request_id request fresh (tp_engine p) in (with_engine e [] p, r).

(** ** Interleavings *)

Inductive ProcessEvent :=
| ReaderTurn (read : result bytes)
| ChildPolled (polled : result (option Z))
| DrainWaited (timeout : bool)
| MonitorTurn
| ForegroundTurn (leader : bool)
| Subscribes (kind : SnapshotKind) (fresh : bytes)
| Exports (kind : SnapshotKind) (fresh : bytes)
| Pages (request_id : N) (request : HistoryPageRequest) (fresh : bytes)
| Resizes (size : Lease.Size) (pty : result ())
| Renames (name : text).
Definition terminal_step (p : TerminalProcess) (event : ProcessEvent) : TerminalProcess :=
  match event with
  | ReaderTurn read => reader_turn read p
  | ChildPolled polled => poll_child polled p
  | DrainWaited timeout => drain_wait timeout p
  | MonitorTurn => monitor_turn p
  | ForegroundTurn leader => foreground_turn leader p
  | Subscribes kind fresh => (subscribe kind fresh p).1
  | Exports kind fresh => (export_process kind fresh p).1
  | Pages request_id request fresh => (history_process request_id request fresh p).1
  | Resizes size pty => (resize_process size pty p).1
  | Renames name => rename_process name p
  end.
Definition run_terminal (p : TerminalProcess) (events : list ProcessEvent) : TerminalProcess := foldl terminal_step p events.
(** The end of [spawn]: the reader and the monitors start; [banner] is the greeting of a default shell, [shell] whether the
    process has an identifier. *)
Definition start_process (e : TerminalEngine T) (banner : option bytes) (shell : bool) (info : TerminalInfo) : TerminalProcess :=
  let e := match banner with Some banner => advance banner e | None => e end in
  mkProcess e info [] false Polling (if shell then CheckingStatus else MonitorEnded) true [] [].
End process.
