(* ===== verification/TerminalProcessSpec.v ===== *)
(** * Properties of a running terminal

    Nothing the process prints is lost or shown twice between the picture an attachment starts from and what it
    is then told, and the end of the process is told once, after the terminal is marked, to everyone who saw it running when
    subscribing. *)
From S2P Require Import Prelude Text TerminalState Engine EngineSpec Environment Lease Sessions AttachServer Renderer TerminalProcess.
Open Scope N_scope.

(** What the events carry. *)
Definition output_of (e : PtyEvent) : option bytes := match e with PtyOutput data => Some data | _ => None end.
Definition exit_of (e : PtyEvent) : option Z := match e with PtyExited code => Some code | _ => None end.
Definition interactive_of (e : PtyEvent) : option bool := match e with PtyInteractive b => Some b | _ => None end.
Definition advanced (op : EngineOperation) : option bytes := match op with Advanced data => Some data | Resized _ => None end.
Definition outputs (l : list PtyEvent) : list bytes := omap output_of l.
Definition exits (l : list PtyEvent) : list Z := omap exit_of l.
Definition interactives (l : list PtyEvent) : list bool := omap interactive_of l.

Lemma set_contents_event w e : set_contents w = Some e -> exists primary contents, e = PtyClipboardWrite primary contents.
Proof. unfold set_contents. destruct w as [b [c|]]; cbn; [destruct (_ <? _); [done|]|]; intros [= <-]; eauto. Qed.
Lemma clipboard_silent {A} (f : PtyEvent -> option A) writes :
  (forall primary contents, f (PtyClipboardWrite primary contents) = None) -> omap f (omap set_contents writes) = [].
Proof.
  intros Hf. induction writes as [|w writes IH]; [done|]. cbn. destruct (set_contents w) as [e|] eqn:E; [|exact IH]. cbn.
  destruct (set_contents_event _ _ E) as (b & c & ->). by rewrite Hf.
Qed.
Lemma omap_drop {A B} (f : A -> option B) n l : exists k, omap f (drop n l) = drop k (omap f l).
Proof.
  exists (length (omap f (take n l))). rewrite <- (take_drop n l) at 3. rewrite omap_app. by rewrite drop_app_length.
Qed.
(** Two logs that agree up to a point and as a whole agree after it. *)
Lemma omap_tails {A B C} (f : A -> option C) (g : B -> option C) l k n m :
  omap f l = omap g k -> omap f (take n l) = omap g (take m k) -> omap f (drop n l) = omap g (drop m k).
Proof.
  intros Hall Hhead. rewrite <- (take_drop n l), <- (take_drop m k), !omap_app, Hhead in Hall. by apply app_inv_head in Hall.
Qed.

Section spec.
Context `{StateLib} {T : Type} `{Emulator T}.
Variable clipboard : bytes -> T -> list (bool * option bytes).
Abbreviation Process := (TerminalProcess (T := T)).
Abbreviation step := (terminal_step clipboard).
Abbreviation run := (run_terminal clipboard).

(** ** Pictures *)

Definition tell (t : T) (op : EngineOperation) : T :=
  match op with Advanced data => advance_bytes data t | Resized size => emulator_resize size t end.
Definition replay (ops : list EngineOperation) (t : T) : T := foldl tell t ops.
Definition cache_valid (e : TerminalEngine T) : Prop :=
  forall st, en_cached_viewport e = Some st ->
    vw_identity_epoch (astra_view (en_terminal e)) = en_identity_epoch e /\ export_engine true e = Ok st.
(** [s] shows the engine. *)
Definition pictures (e : TerminalEngine T) (s : Snapshot) : Prop :=
  match s with
  | LegacySnapshot l => (state ← export_engine false e; snapshot_of state) = Ok l
  | StateSnapshot s => export_engine false e = Ok s
  | ViewportSnapshot s => export_engine true e = Ok s
  end.

Lemma refresh_terminal fresh (e : TerminalEngine T) : en_terminal (refresh_identity_epoch fresh e) = en_terminal e.
Proof. unfold refresh_identity_epoch. by case_bool_decide. Qed.
Lemma refresh_valid fresh (e : TerminalEngine T) : cache_valid e -> cache_valid (refresh_identity_epoch fresh e).
Proof.
  intros Hc. unfold refresh_identity_epoch. case_bool_decide as Hid; [done|]. intros st Hst. by destruct (Hc st Hst).
Qed.
Lemma take_snapshot_spec kind fresh (e : TerminalEngine T) :
  cache_valid e ->
  let e' := (take_snapshot kind fresh e).1 in
  en_terminal e' = en_terminal e /\ cache_valid e' /\ forall s, (take_snapshot kind fresh e).2 = Ok s -> pictures e' s.
Proof.
  intros Hc. pose proof (refresh_terminal fresh e) as Ht. pose proof (refresh_valid fresh e Hc) as Hr.
  destruct kind; cbn [take_snapshot].
  - unfold legacy_snapshot, semantic_state, export_state. cbn. split_and!; [done|done|].
    destruct (export_engine false _) as [st|] eqn:E; cbn; [|done]. intros s.
    destruct (snapshot_of st) as [l|] eqn:El; cbn; [|done]. intros [= <-]. cbn. by rewrite E.
  - unfold semantic_state, export_state. cbn. split_and!; [done|done|].
    destruct (export_engine false _) as [st|] eqn:E; cbn; [|done]. by intros s [= <-].
  - unfold semantic_viewport. destruct (en_cached_viewport e) as [st|] eqn:E; cbn.
    + split_and!; [done|done|]. intros s [= <-]. by apply Hc.
    + unfold export_state. destruct (export_engine true (refresh_identity_epoch fresh e)) as [st|] eqn:Ex; cbn.
      * split_and!; [done| |by intros s [= <-]]. intros s [= <-]. split; [apply refreshed|exact Ex].
      * by split_and!.
Qed.
Lemma history_page_spec id request fresh (e : TerminalEngine T) :
  cache_valid e -> en_terminal (history_page id request fresh e).1 = en_terminal e /\ cache_valid (history_page id request fresh e).1.
Proof.
  intros Hc. unfold history_page. destruct (if 0 <? id then _ else _); cbn [fst]; [|done].
  split; [apply refresh_terminal|by apply refresh_valid].
Qed.

(** ** Output *)

Record subscribed (t0 : T) (p : Process) (s : Subscription) : Prop := {
  sb_from : (su_from s <= length (tp_events p))%nat;
  sb_told : (su_told s <= length (tp_told p))%nat;
  sb_terminal : en_terminal (su_engine s) = replay (take (su_told s) (tp_told p)) t0;
  sb_pictures : pictures (su_engine s) (su_snapshot s);
  sb_outputs : outputs (take (su_from s) (tp_events p)) = omap advanced (take (su_told s) (tp_told p)) }.
Record feed_inv (t0 : T) (p : Process) : Prop := {
  fi_terminal : en_terminal (tp_engine p) = replay (tp_told p) t0;
  fi_cache : cache_valid (tp_engine p);
  fi_outputs : outputs (tp_events p) = omap advanced (tp_told p);
  fi_subscribed : Forall (subscribed t0 p) (tp_subscriptions p) }.

(** The logs grow. *)
Lemma subscribed_grow t0 p p' s events told :
  tp_events p' = tp_events p ++ events -> tp_told p' = tp_told p ++ told -> subscribed t0 p s -> subscribed t0 p' s.
Proof.
  intros He Ho [Hf Ht Hterm Hp Hout]. split; rewrite ?He, ?Ho, ?length_app, ?take_app_le by done; try lia; done.
Qed.
Lemma feed_grow t0 p p' events told :
  tp_events p' = tp_events p ++ events -> tp_told p' = tp_told p ++ told -> tp_subscriptions p' = tp_subscriptions p ->
  en_terminal (tp_engine p') = replay told (en_terminal (tp_engine p)) -> cache_valid (tp_engine p') -> outputs events = omap advanced told ->
  feed_inv t0 p -> feed_inv t0 p'.
Proof.
  intros He Ho Hs Ht Hc Hout [Hterm _ Houts Hsub]. split; [|done| |].
  - rewrite Ht, Hterm, Ho. unfold replay. by rewrite foldl_app.
  - unfold outputs in *. by rewrite He, Ho, !omap_app, Houts, Hout.
  - rewrite Hs. eapply Forall_impl; [exact Hsub|]. intros s. by eapply subscribed_grow.
Qed.
(** The engine, what it was told and the subscriptions are as before. *)
Lemma feed_silent t0 p p' events :
  tp_engine p' = tp_engine p -> tp_told p' = tp_told p -> tp_events p' = tp_events p ++ events -> outputs events = [] ->
  tp_subscriptions p' = tp_subscriptions p -> feed_inv t0 p -> feed_inv t0 p'.
Proof.
  intros Hen Ho He Hout Hs Hinv. apply (feed_grow t0 p p' events []); rewrite ?Hen, ?app_nil_r; try done. apply Hinv.
Qed.
Lemma feed_engine t0 p e : en_terminal e = en_terminal (tp_engine p) -> cache_valid e -> feed_inv t0 p -> feed_inv t0 (with_engine e [] p).
Proof. intros Ht Hc. apply (feed_grow t0 p _ [] []); cbn; rewrite ?app_nil_r; done. Qed.

Lemma feed_step t0 p event : feed_inv t0 p -> feed_inv t0 (step p event).
Proof.
  intros Hinv. pose proof (fi_cache _ _ Hinv) as Hc.
  assert (Hsame : forall p' l, tp_engine p' = tp_engine p -> tp_told p' = tp_told p -> tp_subscriptions p' = tp_subscriptions p ->
            tp_events p' = tp_events p ++ l -> outputs l = [] -> feed_inv t0 p') by (intros; by eapply feed_silent).
  destruct event as [read|polled|timeout| |leader|kind fresh|kind fresh|id request fresh|size pty|name]; cbn [terminal_step].
  - unfold reader_turn. destruct (tp_reader_done p); [done|]. destruct read as [data|e]; [|by eapply Hsame].
    case_bool_decide; [apply (Hsame _ []); cbn; by rewrite ?app_nil_r|].
    eapply (feed_grow t0 p _ _ [Advanced (take READ_BUFFER data)]); try done; cbn.
    unfold outputs. rewrite omap_app, clipboard_silent by done. done.
  - unfold poll_child. destruct (tp_monitor p); try done. destruct polled as [[code|]|e]; try done; apply (Hsame _ []); cbn; by rewrite ?app_nil_r.
  - unfold drain_wait. destruct (tp_monitor p); try done. destruct (_ || _); [|done]. apply (Hsame _ []); cbn; by rewrite ?app_nil_r.
  - unfold monitor_turn. destruct (tp_monitor p) as [| | |[code|e]| |]; try done; try (apply (Hsame _ []); cbn; by rewrite ?app_nil_r); by eapply Hsame.
  - unfold foreground_turn. destruct (tp_foreground p); try done; try (apply (Hsame _ []); cbn; by rewrite ?app_nil_r); by eapply Hsame.
  - unfold subscribe. destruct (take_snapshot_spec kind fresh (tp_engine p) Hc) as (Ht & Hc' & Hp).
    destruct (take_snapshot kind fresh (tp_engine p)) as [e [s|err]]; cbn [fst snd] in *; [|by apply feed_engine].
    pose proof (feed_engine t0 p e Ht Hc' Hinv) as [Hf1 Hf2 Hf3 Hf4]. split; [done|done|done|]. cbn [tp_subscriptions].
    apply Forall_app. split; [eapply Forall_impl; [exact Hf4|]; intros x Hx; apply (subscribed_grow t0 (with_engine e [] p) _ x [] []); cbn; rewrite ?app_nil_r; done|].
    cbn in Hf1, Hf3. rewrite app_nil_r in Hf1, Hf3.
    apply Forall_singleton. split; [done|by cbn; rewrite app_nil_r| |by apply Hp|]; cbn; by rewrite ?app_nil_r, !firstn_all.
  - unfold export_process. destruct (take_snapshot_spec kind fresh (tp_engine p) Hc) as (Ht & Hc' & _).
    destruct (take_snapshot kind fresh (tp_engine p)) as [e r]. by apply feed_engine.
  - unfold history_process. destruct (history_page_spec id request fresh (tp_engine p) Hc) as [Ht Hc'].
    destruct (history_page id request fresh (tp_engine p)) as [e r]. by apply feed_engine.
  - unfold resize_process, resize_engine. destruct (_ && _); cbn; [|by apply feed_engine].
    destruct pty as [[]|e]; by apply (feed_grow t0 p _ [] [Resized (terminal_size (sz_rows size) (sz_cols size) (sz_pixel_width size) (sz_pixel_height size))]);
      cbn; rewrite ?app_nil_r.
  - apply (Hsame _ []); cbn; by rewrite ?app_nil_r.
Qed.
Lemma feed_run t0 p events : feed_inv t0 p -> feed_inv t0 (run p events).
Proof. revert p. induction events as [|e events IH]; [done|]. intros p Hp. apply IH. by apply feed_step. Qed.

(** What the reader reads: chunks, up to the end or an error. *)
Fixpoint chunks_read (events : list ProcessEvent) : list bytes :=
  match events with
  | [] => []
  | ReaderTurn (Ok data) :: events =>
      let chunk := take READ_BUFFER data in if bool_decide (chunk = []) then [] else chunk :: chunks_read events
  | ReaderTurn (Err _) :: _ => []
  | _ :: events => chunks_read events
  end.
Definition of_reader (event : ProcessEvent) : bool := match event with ReaderTurn _ => true | _ => false end.
Lemma other_step p event :
  of_reader event = false ->
  tp_reader_done (step p event) = tp_reader_done p /\ outputs (tp_events (step p event)) = outputs (tp_events p).
Proof.
  assert (Hone : forall l e, output_of e = None -> outputs (l ++ [e]) = outputs l).
  { intros l e He. unfold outputs. rewrite omap_app. cbn. by rewrite He, app_nil_r. }
  destruct event as [read|polled|timeout| |leader|kind fresh|kind fresh|id request fresh|size pty|name]; intros Hr; try done; cbn [terminal_step].
  - unfold poll_child. destruct (tp_monitor p); try done. by destruct polled as [[code|]|e].
  - unfold drain_wait. destruct (tp_monitor p); try done. by destruct (_ || _).
  - unfold monitor_turn. destruct (tp_monitor p) as [| | |[code|e]| |]; cbn; try done; by rewrite Hone.
  - unfold foreground_turn. destruct (tp_foreground p); cbn; try done; by rewrite Hone.
  - unfold subscribe. by destruct (take_snapshot _ _ _) as [e [s|err]].
  - unfold export_process. by destruct (take_snapshot _ _ _) as [e r].
  - unfold history_process. by destruct (history_page _ _ _ _) as [e r].
  - unfold resize_process, resize_engine. destruct (_ && _); cbn; [|done]. by destruct pty.
Qed.
Lemma outputs_run p events :
  outputs (tp_events (run p events)) = outputs (tp_events p) ++ (if tp_reader_done p then [] else chunks_read events).
Proof.
  revert p. induction events as [|event events IH]; intros p; cbn; [by destruct (tp_reader_done p); rewrite app_nil_r|].
  change (foldl step (step p event) events) with (run (step p event) events). rewrite IH.
  destruct (of_reader event) eqn:Hr.
  - destruct event as [read| | | | | | | | |]; try done. cbn [terminal_step]. unfold reader_turn. destruct (tp_reader_done p) eqn:Hd; [by rewrite Hd|].
    destruct read as [data|e]; cbn; [|unfold outputs; rewrite omap_app; cbn; by rewrite !app_nil_r].
    case_bool_decide; cbn; [by rewrite !app_nil_r|].
    rewrite Hd. unfold outputs. rewrite !omap_app, clipboard_silent by done. cbn. by rewrite <- app_assoc.
  - destruct (other_step p event Hr) as [-> ->]. f_equal. destruct (tp_reader_done p); [done|]. by destruct event.
Qed.

(** C7: between the picture an attachment starts from and what it is told afterwards nothing is lost or shown twice.  However
    the reader, the monitors, attachments and resizes interleave: the channel carries exactly what the reader has read,
    and for every subscription, its picture is that of the terminal that was told everything published before, and the terminal is now what
    becomes of that one when it is told the rest, whose output is, in order, exactly the output that the subscriber is offered. *)
Theorem subscription_exact e banner shell info events :
  en_cached_viewport e = None ->
  let p0 := start_process e banner shell info in
  let p := run p0 events in
  outputs (tp_events p) = chunks_read events /\
  Forall (fun s =>
    pictures (su_engine s) (su_snapshot s) /\
    en_terminal (su_engine s) = replay (take (su_told s) (tp_told p)) (en_terminal (tp_engine p0)) /\
    omap advanced (take (su_told s) (tp_told p)) = outputs (take (su_from s) (tp_events p)) /\
    en_terminal (tp_engine p) = replay (drop (su_told s) (tp_told p)) (en_terminal (su_engine s)) /\
    omap advanced (drop (su_told s) (tp_told p)) = outputs (drop (su_from s) (tp_events p))) (tp_subscriptions p).
Proof.
  intros He p0 p. split; [unfold p; by rewrite outputs_run|].
  assert (Hstart : feed_inv (en_terminal (tp_engine p0)) p0).
  { split; [done| |done|constructor]. intros st Hst. destruct banner; cbn in Hst; [done|]. by rewrite He in Hst. }
  destruct (feed_run _ _ events Hstart) as [Ht _ Ho Hs]. fold p in Ht, Ho, Hs.
  eapply Forall_impl; [exact Hs|]. intros s [Hf Htold Hterm Hp Hout]. split_and!; try done.
  - rewrite Ht, Hterm. unfold replay. by rewrite <- foldl_app, take_drop.
  - symmetry. by apply omap_tails.
Qed.

(** ** The end of the process *)

Definition marked (status : result Z) (i : TerminalInfo) : Prop :=
  ti_lifecycle i = LIFECYCLE_EXITED /\
  match status with Ok code => ti_status i = "exited" /\ ti_exit_code i = Some code | Err _ => ti_status i = "lost" /\ ti_exit_code i = None end%string.
Definition announced (status : result Z) : list Z := match status with Ok code => [code] | Err _ => [] end.
Definition exit_inv (p : Process) : Prop :=
  match tp_monitor p with
  | Polling | AwaitingReader _ | Recording _ =>
      ti_status (tp_info p) = "running"%string /\ ti_exit_code (tp_info p) = None /\ exits (tp_events p) = [] /\ tp_registered p = true
  | Announcing status => marked status (tp_info p) /\ exits (tp_events p) = [] /\ tp_registered p = true
  | Retaining status => marked status (tp_info p) /\ exits (tp_events p) = announced status /\ tp_registered p = true
  | Forgotten status => marked status (tp_info p) /\ exits (tp_events p) = announced status /\ tp_registered p = false
  end.
Definition of_monitor (event : ProcessEvent) : bool :=
  match event with ChildPolled _ | DrainWaited _ | MonitorTurn => true | _ => false end.

(** What concerns the end of the process is only touched by its monitor. *)
Lemma beside_monitor p event :
  of_monitor event = false ->
  let p' := step p event in
  tp_monitor p' = tp_monitor p /\ ti_status (tp_info p') = ti_status (tp_info p) /\ ti_exit_code (tp_info p') = ti_exit_code (tp_info p) /\
  ti_lifecycle (tp_info p') = ti_lifecycle (tp_info p) /\ exits (tp_events p') = exits (tp_events p) /\ tp_registered p' = tp_registered p.
Proof.
  assert (Hone : forall l e, exit_of e = None -> exits (l ++ [e]) = exits l).
  { intros l e He. unfold exits. rewrite omap_app. cbn. by rewrite He, app_nil_r. }
  destruct event as [read|polled|timeout| |leader|kind fresh|kind fresh|id request fresh|size pty|name]; intros Hr; try done; cbn [terminal_step].
  - unfold reader_turn. destruct (tp_reader_done p); [by split_and!|]. destruct read as [data|e]; cbn; [|by rewrite Hone].
    case_bool_decide; cbn; [by split_and!|]. unfold exits. rewrite !omap_app, clipboard_silent by done. cbn. by rewrite app_nil_r.
  - unfold foreground_turn. destruct (tp_foreground p); cbn; try by split_and!. by rewrite Hone.
  - unfold subscribe. by destruct (take_snapshot _ _ _) as [e [s|err]].
  - unfold export_process. by destruct (take_snapshot _ _ _) as [e r].
  - unfold history_process. by destruct (history_page _ _ _ _) as [e r].
  - unfold resize_process, resize_engine. destruct (_ && _); cbn; [|by split_and!]. by destruct pty.
Qed.
Lemma exit_step p event : exit_inv p -> exit_inv (step p event).
Proof.
  intros Hinv. destruct (of_monitor event) eqn:Hm.
  - destruct event; try done; cbn [terminal_step].
    + unfold poll_child. destruct (tp_monitor p) eqn:E; try done. destruct polled as [[code|]|e]; try done; by unfold exit_inv in *; rewrite E in Hinv.
    + unfold drain_wait. destruct (tp_monitor p) eqn:E; try done. destruct (_ || _); [|done]. by unfold exit_inv in *; rewrite E in Hinv.
    + unfold monitor_turn. destruct (tp_monitor p) eqn:E; try done; unfold exit_inv in *; rewrite E in Hinv; cbn.
      * destruct Hinv as (_ & Hc & He & Hr). split_and!; try done. split; [done|]. by destruct status.
      * destruct Hinv as (Hmark & He & Hr). split_and!; try done. unfold exits in *. rewrite omap_app, He. by destruct status.
      * destruct Hinv as (Hmark & He & Hr). by split_and!.
  - destruct (beside_monitor p event Hm) as (Hmon & Hs & Hc & Hl & He & Hr). unfold exit_inv, marked in *. by rewrite Hmon, Hs, Hc, Hl, He, Hr.
Qed.
Lemma exit_run p events : exit_inv p -> exit_inv (run p events).
Proof. revert p. induction events as [|e events IH]; [done|]. intros p Hp. apply IH. by apply exit_step. Qed.
Lemma events_grow p event : exists l, tp_events (step p event) = tp_events p ++ l.
Proof.
  assert (Hsame : exists l, tp_events p = tp_events p ++ l) by (exists []; by rewrite app_nil_r).
  destruct event as [read|polled|timeout| |leader|kind fresh|kind fresh|id request fresh|size pty|name]; cbn [terminal_step]; try done.
  - unfold reader_turn. destruct (tp_reader_done p); [done|]. destruct read as [data|e]; [|by eexists]. case_bool_decide; [done|by eexists].
  - unfold poll_child. destruct (tp_monitor p); try done. by destruct polled as [[code|]|e].
  - unfold drain_wait. destruct (tp_monitor p); try done. by destruct (_ || _).
  - unfold monitor_turn. destruct (tp_monitor p) as [| | |[code|e]| |]; try done; by eexists.
  - unfold foreground_turn. destruct (tp_foreground p); try done; by eexists.
  - unfold subscribe. by destruct (take_snapshot _ _ _) as [e [s|err]].
  - unfold export_process. by destruct (take_snapshot _ _ _) as [e r].
  - unfold history_process. by destruct (history_page _ _ _ _) as [e r].
  - unfold resize_process, resize_engine. destruct (_ && _); cbn; [|done]. by destruct pty.
Qed.
Lemma events_run p events : exists l, tp_events (run p events) = tp_events p ++ l.
Proof.
  revert p. induction events as [|e events IH]; intros p; [exists []; by rewrite app_nil_r|]. cbn.
  destruct (IH (step p e)) as [l Hl]. destruct (events_grow p e) as [k Hk]. exists (k ++ l). unfold run_terminal in Hl. by rewrite Hl, Hk, app_assoc.
Qed.
Lemma exits_later p events : exits (tp_events (run p events)) = exits (tp_events p) ++ exits (drop (length (tp_events p)) (tp_events (run p events))).
Proof. destruct (events_run p events) as [l Hl]. rewrite Hl, drop_app_length. unfold exits. by rewrite omap_app. Qed.

(** What is left for the monitor to do. *)
Definition left_to_do (code : Z) (m : Monitor) : list ProcessEvent :=
  let last := [MonitorTurn; MonitorTurn; MonitorTurn] in
  match m with
  | Polling => ChildPolled (Ok (Some code)) :: DrainWaited true :: last
  | AwaitingReader _ => DrainWaited true :: last
  | Recording _ => last
  | Announcing _ => [MonitorTurn; MonitorTurn]
  | Retaining _ => [MonitorTurn]
  | Forgotten _ => []
  end.
Definition ends_with_code (code : Z) (m : Monitor) : Prop :=
  match m with Polling => True | AwaitingReader s | Recording s | Announcing s | Retaining s | Forgotten s => s = Ok code end.
Lemma monitor_runs code p events :
  ends_with_code code (tp_monitor p) -> List.filter of_monitor events = left_to_do code (tp_monitor p) ->
  tp_monitor (run p events) = Forgotten (Ok code).
Proof.
  revert p. induction events as [|event events IH]; intros p Hc Hf.
  - cbn in *. destruct (tp_monitor p); cbn in *; congruence.
  - cbn. change (foldl step (step p event) events) with (run (step p event) events). cbn in Hf. destruct (of_monitor event) eqn:Hm.
    + apply IH; destruct (tp_monitor p) eqn:E; cbn in Hf, Hc; try done; injection Hf as -> Hf; subst; cbn [terminal_step];
        unfold poll_child, drain_wait, monitor_turn; rewrite E; cbn; done.
    + destruct (beside_monitor p event Hm) as (Hmon & _). apply IH; by rewrite Hmon.
Qed.

(** C8: the end of the process is told once and missed by nobody who saw the terminal running.  The exit is announced at most once, after the
    terminal is marked with the same code and before it is forgotten; a subscription made while the terminal is marked as
    running is offered it; when the reader is done no output follows; and once the child is found to have ended, the monitor
    gets there in its five steps, whatever the rest does in between. *)
Theorem exit_told e banner shell info events :
  ti_status info = "running"%string -> ti_exit_code info = None ->
  let p := run (start_process e banner shell info) events in
  exit_inv p /\
  (tp_reader_done p = true -> forall later, outputs (tp_events (run p later)) = outputs (tp_events p)) /\
  forall later, let p' := run p later in
    (ti_status (tp_info p) = "running"%string -> exits (drop (length (tp_events p)) (tp_events p')) = exits (tp_events p')) /\
    forall code, tp_monitor p = Polling -> List.filter of_monitor later = left_to_do code Polling ->
      marked (Ok code) (tp_info p') /\ exits (drop (length (tp_events p)) (tp_events p')) = [code] /\ tp_registered p' = false.
Proof.
  intros Hs Hc p. assert (Hp : exit_inv p) by (by apply exit_run). split; [done|]. split; [intros Hd later; by rewrite outputs_run, Hd, app_nil_r|].
  intros later p'. pose proof (exit_run p later Hp) as Hp'. pose proof (exits_later p later) as Hl. fold p' in Hp', Hl.
  split.
  - intros Hr. enough (exits (tp_events p) = []) as Hn by (by rewrite Hl, Hn). unfold exit_inv, marked in Hp.
    destruct (tp_monitor p) as [|?|?|[?|?]|[?|?]|[?|?]]; try apply Hp; destruct Hp as ((_ & Hst & _) & _); congruence.
  - intros code Hm Hf. pose proof (monitor_runs code p later) as Hend. rewrite Hm in Hend. fold p' in Hend. specialize (Hend I Hf).
    unfold exit_inv in Hp, Hp'. rewrite Hm in Hp. rewrite Hend in Hp'. destruct Hp as (_ & _ & Hn & _), Hp' as (Hmark & He & Hreg).
    split_and!; try done. by rewrite Hl, Hn in He.
Qed.

(** What [terminal_exited] does to the registry is what the monitor does to the terminal. *)
Lemma registry_marked id (status : result Z) m t :
  sm_terminals m !! id = Some t ->
  sm_terminals (terminal_exited id (match status with Ok code => Some code | Err _ => None end) m) !! id =
  Some (mkEntry (exited_info status (te_info t)) (te_resources t)).
Proof. intros Ht. unfold terminal_exited. rewrite Ht. cbn. rewrite lookup_insert_eq. by destruct status. Qed.

(** A subscription that is made after the announcement is told nothing, also when the terminal was looked at before: an
    attachment that reads the information of a running terminal and subscribes after the exit never hears of it. *)
Lemma subscribed_too_late p status later :
  exit_inv p -> tp_monitor p = Retaining status -> exits (drop (length (tp_events p)) (tp_events (run p later))) = [].
Proof.
  intros Hp Hm. pose proof (exit_run p later Hp) as Hp'. pose proof (exits_later p later) as Hl.
  assert (Hnext : forall events q, tp_monitor q = Retaining status \/ tp_monitor q = Forgotten status ->
            tp_monitor (run q events) = Retaining status \/ tp_monitor (run q events) = Forgotten status).
  { induction events as [|event events IH]; [done|]. intros q Hq. cbn. apply IH. destruct (of_monitor event) eqn:Hmon.
    - destruct event; try done; cbn [terminal_step]; unfold poll_child, drain_wait, monitor_turn; destruct Hq as [Hq|Hq]; rewrite Hq; cbn; auto.
    - by destruct (beside_monitor q event Hmon) as (-> & _). }
  assert (He : exits (tp_events p) = announced status) by (unfold exit_inv in Hp; rewrite Hm in Hp; apply Hp).
  assert (He' : exits (tp_events (run p later)) = announced status).
  { unfold exit_inv in Hp'. destruct (Hnext later p (or_introl Hm)) as [Hm'|Hm']; rewrite Hm' in Hp'; apply Hp'. }
  rewrite He, He' in Hl. destruct status; cbn in *; [|done]. by injection Hl.
Qed.

(** ** The foreground process *)

(** [n] alternating values. *)
Fixpoint alternating (b : bool) (n : nat) : list bool := match n with O => [] | S n => b :: alternating (negb b) n end.
Lemma alternating_snoc b n : alternating b n ++ [if Nat.even n then b else negb b] = alternating b (S n).
Proof.
  revert b. induction n as [|n IH]; intros b; [done|]. cbn [alternating app]. f_equal. specialize (IH (negb b)). cbn [alternating] in IH. rewrite <- IH.
  rewrite Nat.even_succ, <- Nat.negb_even. destruct (Nat.even n); cbn; by rewrite ?negb_involutive.
Qed.
(** What is told of the foreground are changes only, and after the last one the terminal says what was told. *)
Definition foreground_inv (p : Process) : Prop :=
  exists n, interactives (tp_events p) = alternating false n /\
    match tp_foreground p with
    | PublishingChange b => b = negb (Nat.even n) /\ ti_interactive (tp_info p) = Some b
    | _ => ti_interactive (tp_info p) = Some (Nat.even n)
    end.
Definition of_foreground (event : ProcessEvent) : bool := match event with ForegroundTurn _ => true | _ => false end.
Lemma beside_foreground p event :
  of_foreground event = false ->
  tp_foreground (step p event) = tp_foreground p /\ ti_interactive (tp_info (step p event)) = ti_interactive (tp_info p) /\
  interactives (tp_events (step p event)) = interactives (tp_events p).
Proof.
  assert (Hone : forall l e, interactive_of e = None -> interactives (l ++ [e]) = interactives l).
  { intros l e He. unfold interactives. rewrite omap_app. cbn. by rewrite He, app_nil_r. }
  destruct event as [read|polled|timeout| |leader|kind fresh|kind fresh|id request fresh|size pty|name]; intros Hr; try done; cbn [terminal_step].
  - unfold reader_turn. destruct (tp_reader_done p); [done|]. destruct read as [data|e]; cbn; [|by rewrite Hone].
    case_bool_decide; [done|]. cbn. unfold interactives. rewrite !omap_app, clipboard_silent by done. cbn. by rewrite app_nil_r.
  - unfold poll_child. destruct (tp_monitor p); try done. by destruct polled as [[code|]|e].
  - unfold drain_wait. destruct (tp_monitor p); try done. by destruct (_ || _).
  - unfold monitor_turn. destruct (tp_monitor p) as [| | |[code|e]| |]; cbn; try done; by rewrite Hone.
  - unfold subscribe. by destruct (take_snapshot _ _ _) as [e [s|err]].
  - unfold export_process. by destruct (take_snapshot _ _ _) as [e r].
  - unfold history_process. by destruct (history_page _ _ _ _) as [e r].
  - unfold resize_process, resize_engine. destruct (_ && _); cbn; [|done]. by destruct pty.
Qed.
Lemma foreground_step p event : foreground_inv p -> foreground_inv (step p event).
Proof.
  intros (n & Hn & Hf). destruct (of_foreground event) eqn:E.
  - destruct event as [| | | |leader| | | | |]; try done. cbn [terminal_step]. unfold foreground_turn.
    destruct (tp_foreground p) eqn:Hfg; cbn.
    + exists n. split; [done|]. by case_bool_decide.
    + exists n. split; [done|]. cbn. rewrite Hf. case_bool_decide as Hb; [done|]. split; [|done]. destruct leader, (Nat.even n); done.
    + destruct Hf as [-> Hi]. exists (S n). split.
      * rewrite <- alternating_snoc. unfold interactives in *. cbn [broadcast with_foreground tp_events]. rewrite omap_app, Hn. cbn. by destruct (Nat.even n).
      * rewrite Nat.even_succ, <- Nat.negb_even. exact Hi.
    + by exists n.
    + exists n. by rewrite Hfg.
  - destruct (beside_foreground p event E) as (Hfg & Hi & He). exists n. by rewrite He, Hfg, Hi.
Qed.
Lemma foreground_changes e banner shell info events :
  ti_interactive info = Some true -> foreground_inv (run (start_process e banner shell info) events).
Proof.
  intros Hi. assert (Hstart : foreground_inv (start_process e banner shell info)) by (exists 0%nat; by destruct shell).
  revert Hstart. generalize (start_process e banner shell info). induction events as [|event events IH]; intros p Hp; [done|].
  apply IH. by apply foreground_step.
Qed.
End spec.

(** ** A process *)

#[local] Existing Instance demo_state_lib.
#[local] Existing Instance demo_emulator.
Definition demo_clipboard (data : bytes) (v : TerminalView) : list (bool * option bytes) := if bool_decide (data = [7]) then [(false, Some [120])] else [].
Definition demo_process_info : TerminalInfo := mkTerminalInfo "t-1" [] ["sh"%string] [] "running" None 24 80 1 None (Some true) "w-1" LIFECYCLE_RUNNING.
Definition demo_fresh : bytes := replicate 16 2.
Definition demo_process_events : list ProcessEvent :=
  [ReaderTurn (Ok [65]); Subscribes StateKind demo_fresh; ForegroundTurn false; ReaderTurn (Ok [7]); ChildPolled (Ok None); ReaderTurn (Ok [])].
Lemma subscription_exact_witness :
  let p := run_terminal demo_clipboard (start_process demo_engine None true demo_process_info) demo_process_events in
  outputs (tp_events p) = [[65]; [7]] /\ exists s, s ∈ tp_subscriptions p /\ outputs (drop (su_from s) (tp_events p)) = [[7]].
Proof.
  destruct (subscription_exact demo_clipboard demo_engine None true demo_process_info demo_process_events eq_refl) as [Ho Hs].
  split; [exact Ho|]. rewrite Forall_forall in Hs.
  assert (Hin : exists s, tp_subscriptions (run_terminal demo_clipboard (start_process demo_engine None true demo_process_info) demo_process_events) = [s] /\
                  su_told s = 1%nat) by (eexists; split; vm_compute; reflexivity).
  destruct Hin as (s & Hin & Ht). exists s. split; [rewrite Hin; by left|].
  destruct (Hs s ltac:(rewrite Hin; by left)) as (_ & _ & _ & _ & Hlast). rewrite <- Hlast, Ht. reflexivity.
Defined.

(** The end of the process while the rest goes on. *)
Definition demo_end : list ProcessEvent :=
  [ChildPolled (Ok (Some 3%Z)); ForegroundTurn true; DrainWaited true; Renames (lit "x"); MonitorTurn; ReaderTurn (Ok [66]); MonitorTurn; MonitorTurn].
Lemma exit_told_witness :
  let p := run_terminal demo_clipboard (start_process demo_engine None true demo_process_info) demo_process_events in
  let p' := run_terminal demo_clipboard p demo_end in
  ti_exit_code (tp_info p') = Some 3%Z /\ exits (drop (length (tp_events p)) (tp_events p')) = [3%Z] /\ tp_registered p' = false.
Proof.
  intros p p'.
  destruct (exit_told demo_clipboard demo_engine None true demo_process_info demo_process_events eq_refl eq_refl) as (_ & _ & Hend).
  destruct (Hend demo_end) as [_ Hc]. destruct (Hc 3%Z eq_refl eq_refl) as ((_ & _ & Hcode) & He & Hr). by split_and!.
Defined.

(** An attachment looks at a running terminal, the process ends, and the attachment subscribes: nothing tells it of the exit. *)
Example exit_missed :
  let p := start_process demo_engine None true demo_process_info in
  let p' := run_terminal demo_clipboard p [ChildPolled (Ok (Some 3%Z)); DrainWaited true; MonitorTurn; MonitorTurn] in
  ti_status (shown_info p) = "running"%string /\
  exists p'' s, subscribe LegacyKind demo_fresh p' = (p'', Ok s) /\
    forall later, exits (drop (su_from s) (tp_events (run_terminal demo_clipboard p'' later))) = [].
Proof.
  intros p p'. split; [reflexivity|].
  assert (Hs : exists p'' s, subscribe LegacyKind demo_fresh p' = (p'', Ok s) /\ su_from s = length (tp_events p'') /\ tp_monitor p'' = Retaining (Ok 3%Z))
    by (eexists _, _; split_and!; vm_compute; reflexivity).
  destruct Hs as (p'' & s & Hs & Hfrom & Hm). exists p'', s. split; [exact Hs|]. intros later. rewrite Hfrom.
  apply (subscribed_too_late _ _ (Ok 3%Z)); [|exact Hm].
  assert (Hp'' : p'' = run_terminal demo_clipboard p [ChildPolled (Ok (Some 3%Z)); DrainWaited true; MonitorTurn; MonitorTurn; Subscribes LegacyKind demo_fresh])
    by (cbn [run_terminal foldl terminal_step]; fold p'; unfold p' in Hs; cbn [run_terminal foldl terminal_step] in Hs; by rewrite Hs).
  rewrite Hp''. by apply exit_run.
Qed.
