(* ===== verification/Connections.v ===== *)
(** * Connections of the gateway ([server.rs]: [handle_connection], [accept_authentication_stream]; [worker.rs]: [proxy_stream])

    A connection authenticates and then accepts streams, each served by a task of its own: the task reserves the
    stream, checks its request, connects to the worker of the user, pins the identity of that worker for
    the connection and relays.  Tasks of all connections interleave, on one router and one set of pools. *)
From S2P Require Import Prelude Text Resources Negotiation TerminalState Gateway Messages StreamChannels Authentication Requests WorkerRouter.
Open Scope N_scope.

Definition MAX_PENDING_STREAMS : nat := 8.
(** The code of a connection that is closed because its worker is not available or not the same. *)
Definition WORKER_CLOSED : N := 261.

(** ** The stream of the authentication *)

(** Another stream is accepted, or one of those that wait has read something. *)
Inductive CandidateEvent := CandidateAccepted (r : result ()) | CandidateRead (r : result (option WireMessage)).
(** [accept_authentication_stream] with [pending] streams that wait: the first message on any of them.  An arm that is not enabled is not taken; [None]
    while it goes on. *)
Fixpoint accept_authentication_stream (pending : nat) (events : list CandidateEvent) : option (result WireMessage) :=
  match events with
  | [] => None
  | CandidateAccepted r :: events =>
      if (pending <? MAX_PENDING_STREAMS)%nat then
        match r with Ok _ => accept_authentication_stream (S pending) events | Err e => Some (Err e) end
      else accept_authentication_stream pending events
  | CandidateRead r :: events =>
      match pending with
      | O => accept_authentication_stream O events
      | S rest =>
          match r with
          | Err e => Some (Err e)
          | Ok (Some message) => Some (Ok message)
          | Ok None => accept_authentication_stream rest events
          end
      end
  end.

(** ** One stream *)

Section connections.
Context `{AdmissionLib} `{SshLib}.

(** The declared channel with its priority, and the first message. *)
Definition first_message (negotiated : NegotiatedProtocol) (epoch : N) (stream : list WireMessage)
    : result (option StreamHello * option Z * WireMessage * list WireMessage) :=
  '(hello, p, stream) ←
    (if negotiated_has negotiated CAPABILITY_STREAM_CHANNELS 1 then
       '(hello, stream) ← read_hello stream epoch;
       kind ← validate_hello hello epoch;
       Ok (Some hello, Some (priority kind), stream)
     else Ok (None, None, stream));
  '(first, stream) ← next_message MAX_FRAME stream;
  first ← ok_or first "request stream ended before its first message";
  Ok (hello, p, first, stream).
Definition check_request (negotiated : NegotiatedProtocol) (epoch : N) (hello : option StreamHello) (p : option Z) (first : WireMessage)
    (rest : list WireMessage) : result Admission :=
  _ ← validate_stream_request negotiated epoch hello first;
  Ok (mkAdmission (if is_none hello && is_file_request first then Some (-10)%Z else p) hello first rest).
Definition reject_request_for_quota (message : WireMessage) (error : QuotaExceeded) : list Response :=
  match message with Some (BRequest request) => [mkResponse (rq_request_id request) (RError "quota" (quota_message error))] | _ => [] end.

(** The task of a stream up to its dispatch: with a reservation for a worker, without one for the requests served here. *)
Inductive StreamOpening := StreamOpened (held : list PoolReservation) (a : Admission) | StreamRejected (answer : list Response) | StreamFailed (e : string).
Definition open_stream (c : Authenticated) (stream : list WireMessage) (s : PoolStore) : PoolStore * StreamOpening :=
  match first_message (au_negotiated c) (au_stream_epoch c) stream with
  | Err e => (s, StreamFailed e)
  | Ok (hello, p, first, rest) =>
      match au_backend c with
      | LocalBackend =>
          (s, match check_request (au_negotiated c) (au_stream_epoch c) hello p first rest with Ok a => StreamOpened [] a | Err e => StreamFailed e end)
      | WorkerBackend _ =>
          match account_reserve s (au_resources c) claim_stream with
          | (s, Failed q) => (s, StreamRejected (reject_request_for_quota first q))
          | (s, Panicked) => (s, StreamFailed "panic")
          | (s, Returned held) =>
              match check_request (au_negotiated c) (au_stream_epoch c) hello p first rest with
              | Ok a => (s, StreamOpened held a)
              | Err e => match drop_reservations s held with Some s => (s, StreamFailed e) | None => (s, StreamFailed "panic") end
              end
          end
      end
  end.

(** ** Connections and tasks *)

(** [cn_held] is returned when the loop of the connection ends; [cn_pin] is shared by its tasks, [cn_closed] the code it was
    closed with. *)
Record Connection := mkConnection {
  cn_auth : Authenticated; cn_id : string; cn_max_datagram : option N; cn_held : list PoolReservation; cn_pin : option WorkerIdentity;
  cn_closed : option N }.
Inductive TaskPhase :=
| TaskAdmitted
| TaskProbing
| TaskPinning (identity : WorkerIdentity)
| TaskWriting (identity : WorkerIdentity)
| TaskRelaying (identity : WorkerIdentity) (preamble : list WireMessage)
| TaskLocal.
Record StreamTask := mkTask { tk_connection : N; tk_held : list PoolReservation; tk_admission : Admission; tk_phase : TaskPhase }.
Record Gateway := mkGateway { gw_router : WorkerRouter; gw_connections : gmap N Connection; gw_tasks : gmap N StreamTask }.

Definition with_router (r : WorkerRouter) (g : Gateway) : Gateway := mkGateway r (gw_connections g) (gw_tasks g).
Definition with_pools (s : PoolStore) (g : Gateway) : Gateway := with_router (with_capacities (wr_capacities (gw_router g)) s (gw_router g)) g.
Definition with_tasks (tasks : gmap N StreamTask) (g : Gateway) : Gateway := mkGateway (gw_router g) (gw_connections g) tasks.
Definition with_connections (cs : gmap N Connection) (g : Gateway) : Gateway := mkGateway (gw_router g) cs (gw_tasks g).
Definition set_phase (phase : TaskPhase) (t : StreamTask) : StreamTask := mkTask (tk_connection t) (tk_held t) (tk_admission t) phase.
Definition in_phase (j : N) (phase : TaskPhase) (g : Gateway) : Gateway := with_tasks (alter (set_phase phase) j (gw_tasks g)) g.

(** [connection.close(code, ..)]; only the first one counts. *)
Definition close_connection (code : N) (c : Connection) : Connection :=
  mkConnection (cn_auth c) (cn_id c) (cn_max_datagram c) (cn_held c) (cn_pin c) (match cn_closed c with Some code => Some code | None => Some code end).
Definition pin_connection (pinned : option WorkerIdentity) (c : Connection) : Connection :=
  mkConnection (cn_auth c) (cn_id c) (cn_max_datagram c) (cn_held c) pinned (cn_closed c).

(** The start of [handle_connection]. *)
Definition accept_connection (i : N) (server : ServerState) (h : Host) (max_datagram : option N) (d : Draw) (writes : nat -> bool)
    (incoming : list WireMessage) (id : string) (g : Gateway) : Gateway * result () :=
  let r := gw_router g in
  let '(pools, _, outcome) := authenticate_connection server h (negb (is_none max_datagram)) d (mkPools (wr_pools r) (wr_governor r)) writes incoming in
  let g := with_router (with_governor (po_governor pools) (with_capacities (wr_capacities r) (po_store pools) r)) g in
  match outcome with
  | Err e => (g, Err e)
  | Ok a => (with_connections (<[i := mkConnection a id max_datagram (au_reservation a) None None]> (gw_connections g)) g, Ok tt)
  end.
(** A stream [j] of connection [i] is accepted and its task runs up to the dispatch. *)
Definition accept_stream (i j : N) (stream : list WireMessage) (g : Gateway) : Gateway * option StreamOpening :=
  match gw_connections g !! i with
  | Some c =>
      if is_none (cn_closed c) then
        let '(s, opening) := open_stream (cn_auth c) stream (wr_pools (gw_router g)) in
        let g := with_pools s g in
        (match opening with
         | StreamOpened held a =>
             with_tasks (<[j := mkTask i held a (match au_backend (cn_auth c) with LocalBackend => TaskLocal | WorkerBackend _ => TaskAdmitted end)]>
                           (gw_tasks g)) g
         | _ => g
         end, Some opening)
      else (g, None)
  | None => (g, None)
  end.
(** The end of a task; [None] is a panic. *)
Definition end_task (j : N) (g : Gateway) : option Gateway :=
  match gw_tasks g !! j with
  | Some t => s ← drop_reservations (wr_pools (gw_router g)) (tk_held t); Some (with_tasks (delete j (gw_tasks g)) (with_pools s g))
  | None => Some g
  end.
Definition fail_task (i j : N) (g : Gateway) : option Gateway :=
  end_task j (with_connections (alter (close_connection WORKER_CLOSED) i (gw_connections g)) g).

(** The steps of [proxy_stream]: the two halves of [connect], the pin and the preamble. *)
Definition task_step (j : N) (process_exists : Z -> bool) (fresh : N) (outcome : result (WorkerIdentity * option Z)) (g : Gateway) : option Gateway :=
  match gw_tasks g !! j with
  | None => Some g
  | Some t =>
      let i := tk_connection t in
      match gw_connections g !! i with
      | None => Some g
      | Some c =>
          match au_backend (cn_auth c), tk_phase t with
          | WorkerBackend account, TaskAdmitted =>
              let '(r, admitted) := ensure_worker_capacity process_exists fresh account (gw_router g) in
              let g := with_router r g in
              match admitted with Ok _ => Some (in_phase j TaskProbing g) | Err _ => fail_task i j g end
          | WorkerBackend account, TaskProbing =>
              let '(r, connected) := connect_end (ac_uid account) outcome (gw_router g) in
              let g := with_router r g in
              match connected with Ok identity => Some (in_phase j (TaskPinning identity) g) | Err _ => fail_task i j g end
          | WorkerBackend _, TaskPinning identity =>
              let '(pinned, same) := pin (cn_pin c) identity in
              let g := with_connections (<[i := pin_connection pinned c]> (gw_connections g)) g in
              match same with Ok _ => Some (in_phase j (TaskWriting identity) g) | Err _ => fail_task i j g end
          | WorkerBackend _, TaskWriting identity =>
              match worker_preamble (au_negotiated (cn_auth c)) (au_stream_epoch (cn_auth c)) (cn_id c) (cn_max_datagram c) (tk_admission t) with
              | Ok preamble => Some (in_phase j (TaskRelaying identity preamble) g)
              | Err _ => end_task j g
              end
          | _, _ => Some g
          end
      end
  end.
(** The loop of connection [i] ends, when it is closed or lost: its reservation is returned, its tasks go on. *)
Definition end_connection (i : N) (g : Gateway) : option Gateway :=
  match gw_connections g !! i with
  | Some c =>
      s ← drop_reservations (wr_pools (gw_router g)) (cn_held c);
      let closed := close_connection 0 c in
      Some (with_connections (<[i := mkConnection (cn_auth c) (cn_id c) (cn_max_datagram c) [] (cn_pin c) (cn_closed closed)]> (gw_connections g))
              (with_pools s g))
  | None => Some g
  end.
End connections.

(** ** The relay *)

(** The shutdown of the writing side of a socket. *)
Inductive Shutdown := ShutDown | NotConnected | ShutdownFailed (e : string).
(** [relay_worker_input], after [copy]: a worker that has already closed is not an error. *)
Definition relay_worker_input (copied : result ()) (shutdown : Shutdown) : result () :=
  _ ← copied;
  match shutdown with ShutDown | NotConnected => Ok tt | ShutdownFailed e => Err e end.
(** [try_join!] of the two directions, given what has ended: the first failure, or both. *)
Definition try_join (input output : option (result ())) : option (result ()) :=
  match input, output with
  | Some (Err e), _ | _, Some (Err e) => Some (Err e)
  | Some (Ok _), Some (Ok _) => Some (Ok tt)
  | _, _ => None
  end.
