(* ===== verification/ConnectionsSpec.v ===== *)
(** * Connections of the gateway: accounting, and one worker for each

    What connections and streams hold is exactly what the pools have counted, and all streams of a connection
    go to the same worker of the same user. *)
From S2P Require Import Prelude Text Resources Negotiation TerminalState Gateway Messages StreamChannels StreamChannelsSpec Authentication AuthenticationSpec Requests Policy WorkerRouter WorkerRouterSpec Connections.
Open Scope N_scope.

(** ** The stream of the authentication *)

(** Streams that stay empty are passed over; the first frame on any stream is the one. *)
Lemma first_frame_wins pending n message events :
  (pending + n < MAX_PENDING_STREAMS)%nat ->
  accept_authentication_stream pending
    (replicate n (CandidateAccepted (Ok tt)) ++ CandidateAccepted (Ok tt) :: CandidateRead (Ok (Some message)) :: events) = Some (Ok message) /\
  accept_authentication_stream (pending + n) (replicate n (CandidateRead (Ok None)) ++ events) = accept_authentication_stream pending events.
Proof.
  assert (Hroom : forall k, (k < MAX_PENDING_STREAMS)%nat -> (k <? MAX_PENDING_STREAMS)%nat = true) by (intros; by apply Nat.ltb_lt).
  revert pending. induction n as [|n IH]; intros pending Hn; cbn [replicate app accept_authentication_stream].
  - rewrite Nat.add_0_r in *. by rewrite Hroom.
  - rewrite Hroom by lia. rewrite Nat.add_succ_r in *. destruct (IH (S pending)) as [H1 _]; [lia|]. destruct (IH pending) as [_ H2]; [lia|]. by split.
Qed.

(** ** The pools *)

Definition governor_grows (g g' : ResourceGovernor) : Prop :=
  gov_global g' = gov_global g /\ forall u id, gov_users g !! u = Some id -> gov_users g' !! u = Some id.
#[global] Instance governor_grows_preorder : PreOrder governor_grows.
Proof. split; [by intros g|]. intros g1 g2 g3 [H1 H2] [H3 H4]. split; [congruence|auto]. Qed.
(** The account that a connection was given. *)
Definition known (g : ResourceGovernor) (a : Authenticated) : Prop :=
  exists pool, gov_users g !! au_username a = Some pool /\ au_resources a = [gov_global g; pool].
Lemma known_grows g g' a : governor_grows g g' -> known g a -> known g' a.
Proof. intros [Hg Hu] (pool & Hp & Ha). exists pool. rewrite Hg. split; [by apply Hu|done]. Qed.
Definition claimed (a : Authenticated) (claim : ResourceClaim) : list PoolReservation := (fun id => mkReservation id claim) <$> au_resources a.

Lemma router_inv_perm policy r o o' : o ≡ₚ o' -> router_inv policy (r, o) -> router_inv policy (r, o').
Proof. intros Ho (Hp & Hwf & Hl & Hi & Hw). split_and!; [done..| |done]. eapply pool_inv_perm; [|exact Hi]. by rewrite Ho. Qed.
Lemma governor_account_grows s g fresh user s' g' account : governor_account s g fresh user = Ok (s', g', account) -> governor_grows g g'.
Proof.
  unfold governor_account. intros Ha. do 2 ok_step Ha; [by simplify_eq|]. ok_step Ha. injection Ha as _ <- _. split; [done|]. cbn. intros u id Hu.
  rewrite lookup_insert_ne; [done|]. intros ->. congruence.
Qed.
Lemma router_take policy r o a claim :
  router_inv policy (r, o) -> known (wr_governor r) a ->
  match account_reserve (wr_pools r) (au_resources a) claim with
  | (s, Returned rs) => rs = claimed a claim /\ router_inv policy (with_capacities (wr_capacities r) s r, rs ++ o) /\
      exists s', drop_reservations s rs = Some s' /\ router_inv policy (with_capacities (wr_capacities r) s' r, o)
  | (s, Failed _) => s = wr_pools r
  | (_, Panicked) => False
  end.
Proof.
  intros Hinv (pool & Hp & Ha). rewrite Ha. pose proof Hinv as (_ & Hwf & _ & Hi & _). destruct (account_reservable _ _ _ _ Hwf Hp) as [Hnd Hex].
  pose proof (account_reserve_inv (wr_pools r) _ claim _ Hnd Hex Hi) as Hres. pose proof (account_reserve_spec (wr_pools r) _ claim Hnd Hex) as Hspec.
  destruct (account_reserve (wr_pools r) _ claim) as [s [rs|q|]]; [|done..]. destruct Hres as [Hi' Hdom].
  assert (Htaken : router_inv policy (with_capacities (wr_capacities r) s r, rs ++ o)).
  { apply (pools_inv policy r o); [done|exact Hdom|by eapply reserve_same_limits|]. eapply pool_inv_perm; [|exact Hi']. solve_Permutation. }
  assert (Hrs : rs = (fun id => mkReservation id claim) <$> [gov_global (wr_governor r); pool]) by by destruct Hspec as (-> & _).
  split; [|split; [exact Htaken|]].
  - unfold claimed. rewrite Ha. exact Hrs.
  - destruct Htaken as (_ & _ & _ & Ht & _). cbn [wr_pools wr_capacities with_capacities] in Ht.
    destruct (drop_reservations_inv s rs (bag wc_reservation (wr_capacities r) ++ o)) as (s' & Hs' & Hi2 & Hdom2).
    { eapply pool_inv_perm; [|exact Ht]. solve_Permutation. }
    exists s'. split; [done|]. apply (pools_inv policy r o); [done| | |exact Hi2].
    + intros id. by rewrite Hdom2, Hdom.
    + eapply same_limits_trans; [by eapply reserve_same_limits|by eapply drop_same_limits].
Qed.
Lemma router_give policy r rs rest :
  router_inv policy (r, rs ++ rest) ->
  exists s, drop_reservations (wr_pools r) rs = Some s /\ router_inv policy (with_capacities (wr_capacities r) s r, rest).
Proof.
  intros Hinv. pose proof Hinv as (_ & _ & _ & Hi & _).
  destruct (drop_reservations_inv (wr_pools r) rs (bag wc_reservation (wr_capacities r) ++ rest)) as (s & Hs & Hi' & Hdom).
  { eapply pool_inv_perm; [|exact Hi]. solve_Permutation. }
  exists s. split; [done|]. by apply (pools_inv policy r (rs ++ rest)); [|exact Hdom|eapply drop_same_limits|].
Qed.
Lemma ensure_grows process_exists fresh account r :
  governor_grows (wr_governor r) (wr_governor (ensure_worker_capacity process_exists fresh account r).1).
Proof.
  unfold ensure_worker_capacity. destruct (reap process_exists r) as [r1|] eqn:Hr; [|by split].
  assert (Hg : wr_governor r1 = wr_governor r) by (unfold reap in Hr; opt_inv Hr; done). rewrite <- Hg.
  destruct (wr_capacities r1 !! _); [by split|]. destruct (governor_account _ _ _ _) as [[[s g] pools]|e] eqn:Ha; [|by split].
  apply governor_account_grows in Ha. cbn. by destruct (account_reserve _ _ _) as [s' [rs|q|]].
Qed.
Lemma connect_end_governor uid outcome r : wr_governor (connect_end uid outcome r).1 = wr_governor r.
Proof.
  unfold connect_end. destruct outcome as [[identity pid]|e]; [done|]. destruct (wr_capacities r !! uid) as [[reservation [identity|] pid]|]; try done.
  by destruct (drop_reservations _ _).
Qed.

Section spec.
Context `{AdmissionLib} `{SshLib}.

(** ** What authentication and the opening of a stream leave behind *)

Definition admits (policy : ResourcePolicy) (r : WorkerRouter) (o : list PoolReservation) (x : Pools * list WireMessage * result Authenticated) : Prop :=
  let r' := with_governor (po_governor x.1.1) (with_capacities (wr_capacities r) (po_store x.1.1) r) in
  governor_grows (wr_governor r) (wr_governor r') /\
  match x.2 with
  | Ok a => known (wr_governor r') a /\ au_reservation a = claimed a claim_connection /\ router_inv policy (r', au_reservation a ++ o)
  | Err _ => router_inv policy (r', o)
  end.
Lemma admits_none policy r o sent e :
  router_inv policy (r, o) -> admits policy r o (mkPools (wr_pools r) (wr_governor r), sent, Err e).
Proof. intros Hinv. split; [by split|]. destruct r. exact Hinv. Qed.
Lemma finish_admits policy s h d writes username negotiated incoming r o :
  wr_pools r !! dr_pool d = None -> router_inv policy (r, o) ->
  admits policy r o (finish_authentication s h d (mkPools (wr_pools r) (wr_governor r)) writes username negotiated incoming).
Proof.
  intros Hf Hinv. unfold finish_authentication. cbv zeta. cbn [po_store po_governor].
  destruct incoming as [|[[|public_key signature_pem| | | | | | | | |]|] incoming]; try by apply admits_none.
  destruct (authenticate_user _ _ _ _ _ _) as [[fingerprint backend]|e]; [|by apply admits_none].
  destruct (governor_account _ _ _ _) as [[[store governor] account]|e] eqn:Ha; [|by apply admits_none].
  pose proof (governor_account_grows _ _ _ _ _ _ _ Ha) as Hgrows.
  pose proof (router_inv_step policy _ _ Hinv (step_account r o _ _ _ _ _ Hf Ha)) as Hinv1. pose proof Hinv as (_ & Hwf & _ & Hi & _).
  destruct (governor_account_inv _ _ _ _ _ _ _ _ Hwf Hf Hi Ha) as (_ & _ & _ & _ & _ & pool & Hpool & Haccount).
  set (r1 := with_governor governor (with_capacities (wr_capacities r) store r)) in *.
  set (a reservation := mkAuthenticated username fingerprint backend negotiated (choose_epoch negotiated (dr_epoch d)) account reservation).
  assert (Hknown : known (wr_governor r1) (a [])) by by exists pool.
  pose proof (router_take policy r1 o (a []) claim_connection Hinv1 Hknown) as Ht.
  change (au_resources (a [])) with account in Ht. change (wr_pools r1) with store in Ht.
  destruct (account_reserve store account claim_connection) as [s1 [rs|q|]]; [| |done].
  - destruct Ht as (Hrs & Htaken & s' & Hd & Hback). destruct (writes 1%nat).
    + split; [exact Hgrows|]. split; [by exists pool|]. split; [exact Hrs|exact Htaken].
    + rewrite Hd. split; [exact Hgrows|exact Hback].
  - subst s1. split; [exact Hgrows|exact Hinv1].
Qed.
Lemma authenticate_admits policy s h datagrams d writes incoming r o :
  wr_pools r !! dr_pool d = None -> router_inv policy (r, o) ->
  admits policy r o (authenticate_connection s h datagrams d (mkPools (wr_pools r) (wr_governor r)) writes incoming).
Proof.
  intros Hf Hinv. unfold authenticate_connection.
  destruct incoming as [|[[| | | | | | |hello| | |]|] incoming]; try by apply admits_none.
  destruct (bool_decide (ch_username hello = ""%string)); [by apply admits_none|].
  destruct (negotiate_client_hello _ _) as [negotiated|e]; [|by apply admits_none]. destruct (writes 0%nat); [|by apply admits_none].
  pose proof (finish_admits policy s h d writes (ch_username hello) negotiated incoming r o Hf Hinv) as Hfin.
  destruct (finish_authentication _ _ _ _ _ _ _ _) as [[pools sent] outcome]. exact Hfin.
Qed.

(** The opening of a stream admits what [admit_stream] admits. *)
Lemma first_message_admits negotiated epoch stream :
  admit_stream negotiated epoch true stream =
  ('(hello, p, first, rest) ← first_message negotiated epoch stream; check_request negotiated epoch hello p first rest).
Proof.
  unfold admit_stream, first_message, check_request.
  destruct (negotiated_has _ _ _).
  - destruct (read_hello stream epoch) as [[hello rest]|e]; cbn; [|done]. destruct (validate_hello hello epoch) as [kind|e]; cbn; [|done].
    destruct (next_message MAX_FRAME rest) as [[first rest']|e]; cbn; [|done]. by destruct first.
  - cbn. destruct (next_message MAX_FRAME stream) as [[first rest']|e]; cbn; [|done]. by destruct first.
Qed.
Lemma open_stream_inv policy r o c stream :
  router_inv policy (r, o) -> known (wr_governor r) c ->
  let '(s, opening) := open_stream c stream (wr_pools r) in
  let r' := with_capacities (wr_capacities r) s r in
  match opening with
  | StreamOpened held a => router_inv policy (r', held ++ o) /\ admit_stream (au_negotiated c) (au_stream_epoch c) true stream = Ok a /\
      held = match au_backend c with LocalBackend => [] | WorkerBackend _ => claimed c claim_stream end
  | StreamRejected _ => router_inv policy (r', o)
  | StreamFailed e => router_inv policy (r', o)
  end.
Proof.
  intros Hinv Hk. assert (Hr : with_capacities (wr_capacities r) (wr_pools r) r = r) by by destruct r.
  pose proof (first_message_admits (au_negotiated c) (au_stream_epoch c) stream) as Hadmit. unfold open_stream.
  destruct (first_message _ _ _) as [[[[hello p] first] rest]|e]; [|by rewrite Hr]. cbn [mbind result_bind] in Hadmit.
  destruct (au_backend c) as [|account].
  - rewrite Hr. destruct (check_request _ _ _ _ _ _) as [a|e]; [|done]. by split_and!.
  - pose proof (router_take policy r o c claim_stream Hinv Hk) as Ht.
    destruct (account_reserve _ _ _) as [s [rs|q|]]; [| |done].
    + destruct Ht as (Hrs & Htaken & s' & Hd & Hback). destruct (check_request _ _ _ _ _ _) as [a|e]; [by split_and!|]. by rewrite Hd.
    + subst s. by rewrite Hr.
Qed.
(** ** Steps *)

(** The gateway, and the reservations of the sessions it serves itself. *)
Abbreviation gateway_world := (Gateway * list PoolReservation)%type.
(** The outcome of a probe of the worker of a user. *)
Definition probed (account : SystemAccount) (outcome : result (WorkerIdentity * option Z)) : Prop :=
  exists stream challenge response, outcome = probe (ac_uid account) stream (discover challenge (ac_uid account) response).
Inductive gateway_step : gateway_world -> gateway_world -> Prop :=
| gateway_connects g o i server h max_datagram d writes incoming id :
    gw_connections g !! i = None -> wr_pools (gw_router g) !! dr_pool d = None ->
    gateway_step (g, o) ((accept_connection i server h max_datagram d writes incoming id g).1, o)
| gateway_streams g o i j stream : gw_tasks g !! j = None -> gateway_step (g, o) ((accept_stream i j stream g).1, o)
| gateway_proxies g o j process_exists fresh outcome g' :
    wr_pools (gw_router g) !! fresh = None ->
    (forall t c account, gw_tasks g !! j = Some t -> gw_connections g !! tk_connection t = Some c ->
       au_backend (cn_auth c) = WorkerBackend account -> probed account outcome) ->
    task_step j process_exists fresh outcome g = Some g' -> gateway_step (g, o) (g', o)
| gateway_task_ends g o j g' : end_task j g = Some g' -> gateway_step (g, o) (g', o)
| gateway_connection_ends g o i g' : end_connection i g = Some g' -> gateway_step (g, o) (g', o)
| gateway_takes g o fresh user account claim s rs :
    governor_account (wr_pools (gw_router g)) (wr_governor (gw_router g)) fresh user = Ok (wr_pools (gw_router g), wr_governor (gw_router g), account) ->
    account_reserve (wr_pools (gw_router g)) account claim = (s, Returned rs) -> gateway_step (g, o) (with_pools s g, rs ++ o)
| gateway_gives g o rs rest s :
    o ≡ₚ rs ++ rest -> drop_reservations (wr_pools (gw_router g)) rs = Some s -> gateway_step (g, o) (with_pools s g, rest).
(** Listening starts after the workers of earlier runs are recovered. *)
Inductive gateway_reachable (policy : ResourcePolicy) : gateway_world -> Prop :=
| gateway_boots r : router_reachable policy (r, []) -> gateway_reachable policy (mkGateway r ∅ ∅, [])
| gateway_goes_on w w' : gateway_reachable policy w -> gateway_step w w' -> gateway_reachable policy w'.

(** ** The invariant *)

Definition gateway_live (g : Gateway) : list PoolReservation := bag cn_held (gw_connections g) ++ bag tk_held (gw_tasks g).
Definition connection_ok (gov : ResourceGovernor) (c : Connection) : Prop :=
  known gov (cn_auth c) /\ (cn_held c = [] \/ cn_held c = claimed (cn_auth c) claim_connection) /\
  forall identity account, cn_pin c = Some identity -> au_backend (cn_auth c) = WorkerBackend account -> wi_uid identity = ac_uid account.
Definition phase_ok (account : SystemAccount) (c : Connection) (t : StreamTask) : Prop :=
  match tk_phase t with
  | TaskAdmitted | TaskProbing => True
  | TaskPinning identity => wi_uid identity = ac_uid account
  | TaskWriting identity => cn_pin c = Some identity
  | TaskRelaying identity preamble => cn_pin c = Some identity /\
      worker_preamble (au_negotiated (cn_auth c)) (au_stream_epoch (cn_auth c)) (cn_id c) (cn_max_datagram c) (tk_admission t) = Ok preamble
  | TaskLocal => False
  end.
Definition task_ok (c : Connection) (t : StreamTask) : Prop :=
  (exists stream, admit_stream (au_negotiated (cn_auth c)) (au_stream_epoch (cn_auth c)) true stream = Ok (tk_admission t)) /\
  match au_backend (cn_auth c) with
  | LocalBackend => tk_held t = [] /\ tk_phase t = TaskLocal
  | WorkerBackend account => tk_held t = claimed (cn_auth c) claim_stream /\ phase_ok account c t
  end.
Definition gateway_inv (policy : ResourcePolicy) (w : gateway_world) : Prop :=
  let '(g, o) := w in
  router_inv policy (gw_router g, gateway_live g ++ o) /\
  map_Forall (fun _ c => connection_ok (wr_governor (gw_router g)) c) (gw_connections g) /\
  map_Forall (fun _ t => exists c, gw_connections g !! tk_connection t = Some c /\ task_ok c t) (gw_tasks g).

Lemma connection_ok_grows gov gov' c : governor_grows gov gov' -> connection_ok gov c -> connection_ok gov' c.
Proof. intros Hg (Hk & Hrest). split; [by eapply known_grows|done]. Qed.
(** Only the router changes. *)
Lemma gateway_router policy g o r :
  gateway_inv policy (g, o) -> router_inv policy (r, gateway_live g ++ o) -> governor_grows (wr_governor (gw_router g)) (wr_governor r) ->
  gateway_inv policy (with_router r g, o).
Proof.
  intros (_ & Hc & Ht) Hr Hg. split; [exact Hr|]. split; [|exact Ht]. eapply map_Forall_impl; [exact Hc|]. intros i c. by apply connection_ok_grows.
Qed.
(** A connection is replaced by one that holds the same, keeps its pin and serves the same user. *)
Definition same_service (c c' : Connection) : Prop :=
  cn_auth c' = cn_auth c /\ cn_id c' = cn_id c /\ cn_max_datagram c' = cn_max_datagram c /\
  forall identity, cn_pin c = Some identity -> cn_pin c' = Some identity.
Lemma task_ok_same c c' t : same_service c c' -> task_ok c t -> task_ok c' t.
Proof.
  intros (Ha & Hi & Hm & Hp) (Hadm & Hb). split; [by rewrite Ha|]. rewrite Ha. destruct (au_backend (cn_auth c)); [done|].
  destruct Hb as [Hh Hph]. split; [done|]. unfold phase_ok in *. destruct (tk_phase t) as [| |?|?|? ?|]; try done; [by apply Hp|].
  rewrite Ha, Hi, Hm. destruct Hph as [Hpin Hpre]. split; [by apply Hp|done].
Qed.
Lemma gateway_replace policy g o i c c' :
  gateway_inv policy (g, o) -> gw_connections g !! i = Some c -> cn_held c' = cn_held c -> same_service c c' ->
  (forall identity account, cn_pin c' = Some identity -> au_backend (cn_auth c') = WorkerBackend account -> wi_uid identity = ac_uid account) ->
  gateway_inv policy (with_connections (<[i := c']> (gw_connections g)) g, o).
Proof.
  intros (Hr & Hc & Ht) Hi Hh Hsame Hpin. split; [|split].
  - eapply router_inv_perm; [|exact Hr]. unfold gateway_live. cbn. by rewrite (bag_update cn_held _ i c c').
  - cbn. apply map_Forall_insert_2; [|exact Hc]. destruct (Hc i c Hi) as (Hk & Hheld & _). destruct Hsame as (Ha & _).
    split; [by rewrite Ha|]. split; [by rewrite Ha, Hh|exact Hpin].
  - cbn. intros j t Hj. destruct (Ht j t Hj) as (c0 & Hc0 & Hok). destruct (decide (tk_connection t = i)) as [<-|Hne].
    + exists c'. rewrite lookup_insert_eq. split; [done|]. assert (c0 = c) as -> by congruence. by eapply task_ok_same.
    + exists c0. by rewrite lookup_insert_ne.
Qed.
Lemma close_same code c : same_service c (close_connection code c).
Proof. by split_and!. Qed.
Lemma gateway_close policy g o code i :
  gateway_inv policy (g, o) -> gateway_inv policy (with_connections (alter (close_connection code) i (gw_connections g)) g, o).
Proof.
  intros Hinv. destruct (gw_connections g !! i) as [c|] eqn:Hi.
  - assert (Ha : alter (close_connection code) i (gw_connections g) = <[i := close_connection code c]> (gw_connections g)).
    { apply map_eq. intros k. destruct (decide (k = i)) as [->|]; [by rewrite lookup_alter_eq, lookup_insert_eq, Hi|by rewrite lookup_alter_ne, lookup_insert_ne]. }
    rewrite Ha. eapply gateway_replace; [done|done|done|apply close_same|]. destruct Hinv as (_ & Hc & _). by destruct (Hc i c Hi) as (_ & _ & Hp).
  - rewrite alter_id' by (intros; congruence). by destruct g.
Qed.
Lemma gateway_phase policy g o j t c phase account :
  gateway_inv policy (g, o) -> gw_tasks g !! j = Some t -> gw_connections g !! tk_connection t = Some c ->
  au_backend (cn_auth c) = WorkerBackend account -> phase_ok account c (set_phase phase t) -> gateway_inv policy (in_phase j phase g, o).
Proof.
  intros (Hr & Hc & Ht) Hj Hi Hb Hph.
  assert (Ha : alter (set_phase phase) j (gw_tasks g) = <[j := set_phase phase t]> (gw_tasks g)).
  { apply map_eq. intros k. destruct (decide (k = j)) as [->|]; [by rewrite lookup_alter_eq, lookup_insert_eq, Hj|by rewrite lookup_alter_ne, lookup_insert_ne]. }
  unfold in_phase. rewrite Ha. split; [|split; [exact Hc|]].
  - eapply router_inv_perm; [|exact Hr]. unfold gateway_live. cbn. by rewrite (bag_update tk_held _ j t).
  - cbn. apply map_Forall_insert_2; [|exact Ht]. exists c. split; [done|]. destruct (Ht j t Hj) as (c0 & Hc0 & Hadm & Hok).
    assert (c0 = c) as -> by congruence. split; [done|]. rewrite Hb in *. by destruct Hok.
Qed.
Lemma end_task_inv policy g o j :
  gateway_inv policy (g, o) -> exists g', end_task j g = Some g' /\ gateway_inv policy (g', o) /\ gw_connections g' = gw_connections g /\
    gw_tasks g' = delete j (gw_tasks g).
Proof.
  intros (Hr & Hc & Ht). unfold end_task. destruct (gw_tasks g !! j) as [t|] eqn:Hj.
  - destruct (router_give policy (gw_router g) (tk_held t) (bag cn_held (gw_connections g) ++ bag tk_held (delete j (gw_tasks g)) ++ o)) as (s & -> & Hr').
    { eapply router_inv_perm; [|exact Hr]. unfold gateway_live. rewrite (bag_delete tk_held _ j t Hj). solve_Permutation. }
    eexists. split; [done|]. split; [|done]. split; [|split; [exact Hc|by apply map_Forall_delete]].
    eapply router_inv_perm; [|exact Hr']. unfold gateway_live. cbn. by rewrite app_assoc.
  - exists g. split; [done|]. split; [by split_and!|]. split; [done|]. by rewrite delete_id.
Qed.
Lemma end_connection_inv policy g o i :
  gateway_inv policy (g, o) -> exists g', end_connection i g = Some g' /\ gateway_inv policy (g', o).
Proof.
  intros Hinv. pose proof Hinv as (Hr & Hc & Ht). unfold end_connection. destruct (gw_connections g !! i) as [c|] eqn:Hi; [|by exists g].
  destruct (router_give policy (gw_router g) (cn_held c) (bag cn_held (delete i (gw_connections g)) ++ bag tk_held (gw_tasks g) ++ o)) as (s & -> & Hr').
  { eapply router_inv_perm; [|exact Hr]. unfold gateway_live. rewrite (bag_delete cn_held _ i c Hi). solve_Permutation. }
  eexists. split; [done|]. set (c' := mkConnection _ _ _ _ _ _). destruct (Hc i c Hi) as (Hk & _ & Hp). split; [|split].
  - eapply router_inv_perm; [|exact Hr']. unfold gateway_live. cbn.
    rewrite <- insert_delete_eq, (bag_insert cn_held _ i c') by apply lookup_delete_eq. cbn. by rewrite app_assoc.
  - cbn. apply map_Forall_insert_2; [|exact Hc]. split; [done|]. split; [by left|done].
  - cbn. intros j t Hj. destruct (Ht j t Hj) as (c0 & Hc0 & Hok). destruct (decide (tk_connection t = i)) as [<-|Hne].
    + exists c'. rewrite lookup_insert_eq. split; [done|]. assert (c0 = c) as -> by congruence. eapply task_ok_same; [|exact Hok]. by split_and!.
    + exists c0. by rewrite lookup_insert_ne.
Qed.
Lemma fail_task_inv policy g o i j :
  gateway_inv policy (g, o) -> exists g', fail_task i j g = Some g' /\ gateway_inv policy (g', o) /\ gw_tasks g' = delete j (gw_tasks g) /\
    gw_connections g' = alter (close_connection WORKER_CLOSED) i (gw_connections g).
Proof.
  intros Hinv%(gateway_close _ _ _ WORKER_CLOSED i). unfold fail_task. destruct (end_task_inv _ _ _ j Hinv) as (g' & Hg & Hi & Hc & Ht). by exists g'.
Qed.
Lemma discover_uid challenge expected_uid response identity : discover challenge expected_uid response = Ok identity -> wi_uid identity = expected_uid.
Proof.
  unfold discover. destruct (60 <=? length response)%nat; [|done]. intros Hd.
  repeat match type of Hd with (if ?b then _ else _) = _ => destruct b eqn:?; [|done] end. injection Hd as <-. bool_prop. done.
Qed.
Lemma probed_uid account identity pid : probed account (Ok (identity, pid)) -> wi_uid identity = ac_uid account.
Proof.
  intros (stream & challenge & response & Hp). symmetry in Hp. unfold probe in Hp. destruct stream as [peer|e]; [|done]. cbn [mbind result_bind] in Hp.
  destruct (pe_uid peer =? ac_uid account); [|done]. destruct (discover _ _ _) as [identity'|e] eqn:Hd; [|done]. apply discover_uid in Hd.
  cbn [mbind result_bind] in Hp. match type of Hp with context [if ?b then _ else _] => destruct b end; [|done]. by injection Hp as <- _.
Qed.
Lemma pin_keeps current identity pinned same :
  pin current identity = (pinned, same) ->
  (forall id, current = Some id -> pinned = Some id) /\ (same = Ok tt -> pinned = Some identity) /\
  (forall id, pinned = Some id -> current = Some id \/ id = identity).
Proof.
  unfold pin. destruct current as [id|]; intros [= <- <-]; split_and!; try done; try congruence.
  - case_bool_decide as Hi; [|done]. by subst.
  - intros id' [= ->]. by left.
  - intros id' [= ->]. by right.
Qed.
Lemma task_step_inv policy g o j process_exists fresh outcome :
  gateway_inv policy (g, o) -> wr_pools (gw_router g) !! fresh = None ->
  (forall t c account, gw_tasks g !! j = Some t -> gw_connections g !! tk_connection t = Some c ->
     au_backend (cn_auth c) = WorkerBackend account -> probed account outcome) ->
  exists g', task_step j process_exists fresh outcome g = Some g' /\ gateway_inv policy (g', o).
Proof.
  intros Hinv Hf Hprobed. pose proof Hinv as (Hr & Hc & Ht). unfold task_step. destruct (gw_tasks g !! j) as [t|] eqn:Hj; [|by exists g].
  destruct (Ht j t Hj) as (c & Hi & Hadm & Hok). rewrite Hi. destruct (au_backend (cn_auth c)) as [|account] eqn:Hb; [by exists g|].
  destruct Hok as [Hheld Hph]. unfold phase_ok in Hph. destruct (tk_phase t) as [| |identity|identity|identity preamble|] eqn:Hp; try by exists g.
  - pose proof (ensure_inv policy process_exists fresh account _ _ Hf Hr) as He. pose proof (ensure_grows process_exists fresh account (gw_router g)) as Hg.
    destruct (ensure_worker_capacity _ _ _ _) as [r [[]|e]]; destruct He as (Hr' & _); pose proof (gateway_router _ _ _ r Hinv Hr' Hg) as Hinv'.
    + eexists. split; [done|]. by apply (gateway_phase policy _ o j t c TaskProbing account).
    + destruct (fail_task_inv policy (with_router r g) o (tk_connection t) j Hinv') as (g' & -> & Hg' & _). by exists g'.
  - pose proof (connect_end_inv policy (ac_uid account) outcome _ _ Hr) as He. pose proof (connect_end_governor (ac_uid account) outcome (gw_router g)) as Hg.
    destruct (connect_end _ _ _) as [r connected]. destruct He as (Hr' & -> & _).
    assert (Hinv' : gateway_inv policy (with_router r g, o)) by (apply gateway_router; [done|done|]; cbn in Hg; by rewrite Hg).
    destruct outcome as [[identity pid]|e]; cbn [fmap result_fmap fst].
    + eexists. split; [done|]. apply (gateway_phase policy _ o j t c (TaskPinning identity) account); try done. eapply probed_uid. by eapply Hprobed.
    + destruct (fail_task_inv policy (with_router r g) o (tk_connection t) j Hinv') as (g' & -> & Hg' & _). by exists g'.
  - destruct (pin (cn_pin c) identity) as [pinned same] eqn:Hpin. destruct (pin_keeps _ _ _ _ Hpin) as (Hkeep & Hset & Hfrom).
    assert (Hinv' : gateway_inv policy (with_connections (<[tk_connection t := pin_connection pinned c]> (gw_connections g)) g, o)).
    { eapply gateway_replace; [done|done|done|by split_and!|]. intros id account' Hid Hb'. cbn in Hid, Hb'. assert (account' = account) as -> by congruence.
      destruct (Hfrom _ Hid) as [Hcur| ->]; [|done]. destruct (Hc _ c Hi) as (_ & _ & Hcp). by eapply Hcp. }
    destruct same as [[]|e].
    + eexists. split; [done|]. apply (gateway_phase policy _ o j t (pin_connection pinned c) (TaskWriting identity) account); try done.
      * apply lookup_insert_eq.
      * by apply Hset.
    + destruct (fail_task_inv policy _ o (tk_connection t) j Hinv') as (g' & -> & Hg' & _). by exists g'.
  - destruct (worker_preamble _ _ _ _ _) as [preamble|e] eqn:Hw.
    + eexists. split; [done|]. by apply (gateway_phase policy _ o j t c (TaskRelaying identity preamble) account).
    + destruct (end_task_inv policy g o j Hinv) as (g' & -> & Hg' & _). by exists g'.
Qed.
Lemma gateway_inv_step policy w w' : gateway_inv policy w -> gateway_step w w' -> gateway_inv policy w'.
Proof.
  intros Hinv Hstep. destruct Hstep as [g o i server h max_datagram d writes incoming id Hi Hf|g o i j stream Hj|g o j pe fresh outcome g' Hf Hpr Hs|g o j g' Hs|g o i g' Hs
    |g o fresh user account claim s rs Ha Hr|g o rs rest s Ho Hd].
  - pose proof Hinv as (Hr & Hc & Ht). unfold accept_connection.
    pose proof (authenticate_admits policy server h (negb (is_none max_datagram)) d writes incoming _ _ Hf Hr) as Hadm.
    destruct (authenticate_connection _ _ _ _ _ _ _) as [[pools sent] outcome]. destruct Hadm as [Hgrows Hout]. cbn [fst snd] in *.
    destruct outcome as [a|e]; cbn [fst]; [|by apply gateway_router]. destruct Hout as (Hk & Hres & Hr').
    split; [|split].
    + eapply router_inv_perm; [|exact Hr']. unfold gateway_live. cbn. rewrite bag_insert by done. cbn. by rewrite !app_assoc.
    + cbn. apply map_Forall_insert_2; [|eapply map_Forall_impl; [exact Hc|]; intros k c; by apply connection_ok_grows]. split; [done|]. split; [by right|done].
    + cbn. intros j t Hj. destruct (Ht j t Hj) as (c & Hc0 & Hok). exists c. rewrite lookup_insert_ne; [done|]. intros Heq. congruence.
  - pose proof Hinv as (Hr & Hc & Ht). unfold accept_stream. destruct (gw_connections g !! i) as [c|] eqn:Hi; [|done].
    destruct (is_none (cn_closed c)); [|done]. destruct (Hc i c Hi) as (Hk & _).
    pose proof (open_stream_inv policy (gw_router g) _ (cn_auth c) stream Hr Hk) as Ho.
    destruct (open_stream (cn_auth c) stream _) as [s [held a|answer|e]]; cbn [fst].
    + destruct Ho as (Hr' & Hadm & ->). split; [|split; [exact Hc|]].
      * eapply router_inv_perm; [|exact Hr']. unfold gateway_live. cbn. rewrite (bag_insert tk_held) by done. cbn. solve_Permutation.
      * cbn. apply map_Forall_insert_2; [|exact Ht]. exists c. split; [done|]. split; [by exists stream|]. cbn. by destruct (au_backend (cn_auth c)).
    + by apply gateway_router.
    + by apply gateway_router.
  - destruct (task_step_inv policy g o j pe fresh outcome Hinv Hf Hpr) as (g2 & Hg2 & Hi2). congruence.
  - destruct (end_task_inv policy g o j Hinv) as (g2 & Hg2 & Hi2 & _). congruence.
  - destruct (end_connection_inv policy g o i Hinv) as (g2 & Hg2 & Hi2). congruence.
  - destruct Hinv as (Hri & Hc & Ht). split; [|by split].
    pose proof (router_inv_step policy _ _ Hri (step_take _ _ fresh user account claim s rs Ha Hr)) as Hr'.
    eapply router_inv_perm; [|exact Hr']. unfold gateway_live. cbn. solve_Permutation.
  - destruct Hinv as (Hri & Hc & Ht). split; [|by split].
    apply (router_inv_step policy _ _ Hri). apply (step_give _ _ rs (gateway_live g ++ rest) s); [rewrite Ho; unfold gateway_live; solve_Permutation|done].
Qed.
Lemma gateway_invariant policy w : gateway_reachable policy w -> gateway_inv policy w.
Proof.
  induction 1 as [r Hr|w w' _ IH Hs]; [|by eapply gateway_inv_step]. apply router_invariant in Hr.
  split; [exact Hr|]. split; apply map_Forall_empty.
Qed.

(** The entries that are charged to a pool. *)
Definition charged_to {A} (f : A -> list PoolReservation) (id : N) (m : gmap N A) : gmap N A := filter (fun kv : N * A => id ∈ res_pool <$> f kv.2) m.
Lemma charged_count {A} (f : A -> list PoolReservation) (g : ResourceClaim -> N) claim id (m : gmap N A) :
  additive g -> g claim = 1 ->
  map_Forall (fun _ x => f x = [] \/ exists account, NoDup account /\ f x = (fun id => mkReservation id claim) <$> account) m ->
  N.of_nat (size (charged_to f id m)) <= g (claim_sum (live_claims id (bag f m))).
Proof.
  intros Hg Hc Hm. unfold charged_to. set (P := fun kv : N * A => id ∈ res_pool <$> f kv.2).
  rewrite (claim_sum_perm _ _ (live_claims_perm id _ _ (bag_filter f P m))), live_claims_app, additive_sum_app by done.
  rewrite (bag_count f g 1 id); [lia|done|]. intros i x [Hi HP]%map_lookup_filter_Some. unfold P in HP. cbn in HP.
  destruct (Hm i x Hi) as [Hnil|(account & Hnd & Hx)]; [rewrite Hnil in HP; by apply elem_of_nil in HP|].
  exists account. split_and!; [done| |by exists claim]. rewrite Hx in HP.
  apply list_elem_of_fmap in HP as (r & -> & Hr). apply list_elem_of_fmap in Hr as (id' & -> & Hid). done.
Qed.
Lemma claim_le_connection a l : claim_le a (as_claim l) -> rc_connections a <= rl_connections l /\ rc_streams a <= rl_streams l.
Proof. unfold claim_le. cbn. tauto. Qed.
Lemma known_distinct policy r o a claim :
  router_inv policy (r, o) -> known (wr_governor r) a -> exists account, NoDup account /\ claimed a claim = (fun id => mkReservation id claim) <$> account.
Proof.
  intros (_ & Hwf & _) (pool & Hp & Ha). destruct (account_reservable _ _ _ _ Hwf Hp) as [Hnd _]. exists (au_resources a). split; [by rewrite Ha|done].
Qed.
Lemma gateway_counts policy g o id p :
  gateway_inv policy (g, o) -> wr_pools (gw_router g) !! id = Some p ->
  N.of_nat (size (charged_to cn_held id (gw_connections g))) <= rl_connections (pool_limits p) /\
  N.of_nat (size (charged_to tk_held id (gw_tasks g))) <= rl_streams (pool_limits p).
Proof.
  intros (Hr & Hc & Ht) Hp. pose proof Hr as (_ & _ & _ & [Hu _] & _). cbn [ps_pools ps_live] in Hu. destruct (Hu id p Hp) as [Hus Hle].
  apply claim_le_connection in Hle as [Hconn Hstr]. rewrite Hus in Hconn, Hstr. unfold gateway_live in Hconn, Hstr.
  rewrite !live_claims_app, !additive_sum_app in Hconn, Hstr by done. split.
  - etransitivity; [apply (charged_count cn_held rc_connections claim_connection); try done|lia]. intros i c Hi.
    destruct (Hc i c Hi) as (Hk & [->| ->] & _); [by left|right; by eapply known_distinct].
  - etransitivity; [apply (charged_count tk_held rc_streams claim_stream); try done|lia]. intros j t Hj.
    destruct (Ht j t Hj) as (c & Hi & _ & Hok). destruct (au_backend (cn_auth c)); destruct Hok as [-> _]; [by left|right].
    eapply known_distinct; [done|]. by destruct (Hc _ _ Hi).
Qed.

(** ** A connection is never replaced, and keeps its worker *)

#[local] Instance same_service_preorder : PreOrder same_service.
Proof.
  split; [intros c; unfold same_service; by split_and!|]. intros c1 c2 c3 (Ha & Hi & Hm & Hp) (Ha' & Hi' & Hm' & Hp').
  unfold same_service. split_and!; [congruence..|]. intros identity Hid. by apply Hp', Hp.
Qed.
Definition kept (cs cs' : gmap N Connection) : Prop := forall i c, cs !! i = Some c -> exists c', cs' !! i = Some c' /\ same_service c c'.
#[local] Instance kept_preorder : PreOrder kept.
Proof.
  split; [intros cs i c Hi; by exists c|]. intros cs1 cs2 cs3 H1 H2 i c Hi.
  destruct (H1 i c Hi) as (c2 & Hi2 & Hs). destruct (H2 i c2 Hi2) as (c3 & Hi3 & Hs'). exists c3. split; [done|]. by etransitivity.
Qed.
Lemma kept_insert cs i c c' : cs !! i = Some c -> same_service c c' -> kept cs (<[i := c']> cs).
Proof.
  intros Hi Hs k x Hk. destruct (decide (i = k)) as [->|Hne].
  - exists c'. rewrite lookup_insert_eq. split; [done|]. by assert (x = c) as -> by congruence.
  - exists x. by rewrite lookup_insert_ne.
Qed.
Lemma kept_close cs i code : kept cs (alter (close_connection code) i cs).
Proof.
  intros k x Hk. destruct (decide (i = k)) as [->|Hne].
  - exists (close_connection code x). rewrite lookup_alter_eq, Hk. split; [done|]. apply close_same.
  - exists x. by rewrite lookup_alter_ne.
Qed.
Lemma end_task_kept j g g' : end_task j g = Some g' -> gw_connections g' = gw_connections g.
Proof. unfold end_task. destruct (gw_tasks g !! j); [|by intros [= <-]]. destruct (drop_reservations _ _); [by intros [= <-]|done]. Qed.
Lemma fail_task_kept i j g g' : fail_task i j g = Some g' -> kept (gw_connections g) (gw_connections g').
Proof. unfold fail_task. intros ->%end_task_kept. apply kept_close. Qed.
Lemma task_step_kept j process_exists fresh outcome g g' :
  task_step j process_exists fresh outcome g = Some g' -> kept (gw_connections g) (gw_connections g').
Proof.
  unfold task_step. destruct (gw_tasks g !! j) as [t|]; [|by intros [= <-]]. destruct (gw_connections g !! tk_connection t) as [c|] eqn:Hi; [|by intros [= <-]].
  destruct (au_backend (cn_auth c)) as [|account]; [by intros [= <-]|]. destruct (tk_phase t) as [| |identity|identity|identity preamble|]; try by intros [= <-].
  - destruct (ensure_worker_capacity _ _ _ _) as [r [[]|e]]; [by intros [= <-]|]. by intros Hf%fail_task_kept.
  - destruct (connect_end _ _ _) as [r [identity|e]]; [by intros [= <-]|]. by intros Hf%fail_task_kept.
  - destruct (pin (cn_pin c) identity) as [pinned same] eqn:Hpin. destruct (pin_keeps _ _ _ _ Hpin) as (Hkeep & _).
    assert (Hk : kept (gw_connections g) (<[tk_connection t := pin_connection pinned c]> (gw_connections g))) by (by eapply kept_insert).
    destruct same as [[]|e]; [by intros [= <-]|]. intros Hf%fail_task_kept. by etransitivity.
  - destruct (worker_preamble _ _ _ _ _) as [preamble|e]; [by intros [= <-]|]. by intros ->%end_task_kept.
Qed.
Lemma gateway_step_kept w w' : gateway_step w w' -> kept (gw_connections w.1) (gw_connections w'.1).
Proof.
  intros Hstep. destruct Hstep as [g o i server h max_datagram d writes incoming id Hi Hf|g o i j stream Hj|g o j pe fresh outcome g' Hf Hpr Hs|g o j g' Hs|g o i g' Hs
    |g o fresh user account claim s rs Ha Hr|g o rs rest s Ho Hd]; cbn [fst]; try done.
  - unfold accept_connection. destruct (authenticate_connection _ _ _ _ _ _ _) as [[pools sent] [a|e]]; [|done]. cbn.
    intros k c Hk. exists c. rewrite lookup_insert_ne; [done|]. intros ->. congruence.
  - unfold accept_stream. destruct (gw_connections g !! i) as [c|]; [|done]. destruct (is_none _); [|done]. by destruct (open_stream _ _ _) as [s [held a|answer|e]].
  - by eapply task_step_kept.
  - by rewrite (end_task_kept _ _ _ Hs).
  - unfold end_connection in Hs. destruct (gw_connections g !! i) as [c|] eqn:Hi; [|by simplify_eq].
    destruct (drop_reservations _ _); [|done]. injection Hs as <-. cbn. eapply kept_insert; [done|]. by split_and!.
Qed.
(** A worker that is not the one of the connection ends the task and the connection. *)
Lemma other_worker policy g o j t c account identity pinned process_exists fresh outcome :
  gateway_inv policy (g, o) -> gw_tasks g !! j = Some t -> gw_connections g !! tk_connection t = Some c ->
  au_backend (cn_auth c) = WorkerBackend account -> tk_phase t = TaskPinning identity -> cn_pin c = Some pinned -> identity <> pinned ->
  exists g', task_step j process_exists fresh outcome g = Some g' /\ gw_tasks g' = delete j (gw_tasks g) /\
    forall k stream, accept_stream (tk_connection t) k stream g' = (g', None).
Proof.
  intros Hinv Hj Hi Hb Hp Hpin Hne. unfold task_step. rewrite Hj, Hi, Hb, Hp, Hpin. cbn [pin]. rewrite bool_decide_false by congruence.
  set (g1 := with_connections _ g). assert (Hinv' : gateway_inv policy (g1, o)).
  { eapply gateway_replace; [done|done|done|split_and!; try done; cbn; congruence|]. cbn. rewrite <- Hpin. destruct Hinv as (_ & Hc & _). by destruct (Hc _ c Hi) as (_ & _ & Hcp). }
  destruct (fail_task_inv policy g1 o (tk_connection t) j Hinv') as (g' & Hg' & _ & Ht & Hc). exists g'. split; [exact Hg'|]. split; [exact Ht|].
  intros k stream. unfold accept_stream. rewrite Hc. unfold g1. cbn. rewrite lookup_alter_eq, lookup_insert_eq. cbn. by destruct (cn_closed c).
Qed.

(** ** The properties *)


(** C9: one worker serves a connection.  A task relays only a request that was admitted, behind a preamble made for it, to the
    worker that its connection is pinned to, which runs for the user that was authenticated; two tasks of a connection never relay to
    different workers; the connection keeps its user and its worker whatever happens; and a task that finds another worker ends,
    and its connection accepts no more streams. *)
Theorem one_worker policy g o i c account :
  gateway_reachable policy (g, o) -> gw_connections g !! i = Some c -> au_backend (cn_auth c) = WorkerBackend account ->
  (forall j t identity preamble, gw_tasks g !! j = Some t -> tk_connection t = i -> tk_phase t = TaskRelaying identity preamble ->
     cn_pin c = Some identity /\ wi_uid identity = ac_uid account /\ tk_held t = claimed (cn_auth c) claim_stream /\
     (exists stream, admit_stream (au_negotiated (cn_auth c)) (au_stream_epoch (cn_auth c)) true stream = Ok (tk_admission t)) /\
     worker_preamble (au_negotiated (cn_auth c)) (au_stream_epoch (cn_auth c)) (cn_id c) (cn_max_datagram c) (tk_admission t) = Ok preamble) /\
  (forall w', rtc gateway_step (g, o) w' -> exists c', gw_connections w'.1 !! i = Some c' /\
     cn_auth c' = cn_auth c /\ forall identity, cn_pin c = Some identity -> cn_pin c' = Some identity) /\
  (forall j t identity pinned process_exists fresh outcome, gw_tasks g !! j = Some t -> tk_connection t = i -> tk_phase t = TaskPinning identity ->
     cn_pin c = Some pinned -> identity <> pinned ->
     exists g', task_step j process_exists fresh outcome g = Some g' /\ gw_tasks g' = delete j (gw_tasks g) /\
       forall k stream, accept_stream i k stream g' = (g', None)).
Proof.
  intros Hreach Hi Hb. pose proof (gateway_invariant _ _ Hreach) as Hinv. pose proof Hinv as (_ & Hc & Ht). split_and!.
  - intros j t identity preamble Hj <- Hp. destruct (Ht j t Hj) as (c0 & Hc0 & Hadm & Hok). assert (c0 = c) as -> by congruence.
    rewrite Hb in Hok. destruct Hok as [Hheld Hph]. unfold phase_ok in Hph. rewrite Hp in Hph. destruct Hph as [Hpin Hpre].
    split_and!; [done| |done..]. destruct (Hc _ c Hi) as (_ & _ & Hcp). by eapply Hcp.
  - intros w' Hsteps. assert (Hk : kept (gw_connections (g, o).1) (gw_connections w'.1)).
    { clear -Hsteps. induction Hsteps as [w|w1 w2 w3 Hs _ IH]; [done|]. etransitivity; [by apply gateway_step_kept|exact IH]. }
    destruct (Hk i c Hi) as (c' & Hc' & Ha & _ & _ & Hp). by exists c'.
  - intros j t identity pinned process_exists fresh outcome Hj <- Hp Hpin Hne. by eapply other_worker.
Qed.
End spec.

(** ** Witnesses *)

#[local] Existing Instance ex_admission_lib.
#[local] Existing Instance ex_ssh_lib.
(** A user signs in, and the first stream goes to the worker with process 7; the second finds another one. *)
Definition demo_hello : list WireMessage :=
  (client_authenticate ex_client_identity "alice" support_runtime
     [server_hello ex_server (default (mkNegotiated 0 ∅) (match negotiate_client_hello (client_hello "alice" support_runtime) (server_protocol_support true true) with Ok np => Some np | Err _ => None end)) ex_draw]).1.
Definition demo_request (id : string) : list WireMessage :=
  [Some (BStreamHello (mkStreamHello 1 1 "" 99 id)); Some (BRequest (mkRequest id (Some (ListWorkspaces))))].
Definition demo_challenge : bytes := replicate 16 9.
Definition demo_worker_identity (pid : N) : WorkerIdentity := mkIdentity 1000 pid (replicate 16 (pid + 1)).
Definition demo_response (pid : N) : bytes :=
  match introduce (demo_worker_identity pid) (discover_request demo_challenge) with Ok b => b | Err _ => [] end.
Definition demo_probe (pid : N) : result (WorkerIdentity * option Z) := probe 1000 (Ok (mkPeer 1000 (Some (Z.of_N pid)))) (discover demo_challenge 1000 (demo_response pid)).
Definition demo_steps (j : N) (outcome : result (WorkerIdentity * option Z)) (g : Gateway) : Gateway := default g (task_step j (fun _ => true) (100 + j) outcome g).
Definition demo_gateway : Gateway := mkGateway demo_router ∅ ∅.
Definition demo_connected : Gateway := (accept_connection 1 ex_server ex_host (Some 1200) ex_draw (fun _ => true) demo_hello "c-1" demo_gateway).1.
Definition demo_accepted : Gateway := (accept_stream 1 1 (demo_request "r1") demo_connected).1.
Definition demo_relaying : Gateway := Nat.iter 4 (demo_steps 1 (demo_probe 7)) demo_accepted.
Definition demo_second : Gateway := (accept_stream 1 2 (demo_request "r2") demo_relaying).1.
Definition demo_pinning : Gateway := Nat.iter 2 (demo_steps 2 (demo_probe 8)) demo_second.
Definition demo_ready (j : N) (g : Gateway) : bool :=
  is_none (wr_pools (gw_router g) !! (100 + j)) &&
  forallb (fun kv : N * Connection => match au_backend (cn_auth kv.2) with WorkerBackend account => ac_uid account =? 1000 | LocalBackend => true end)
    (map_to_list (gw_connections g)).
Lemma demo_steps_reachable policy g o j pid :
  demo_ready j g = true -> gateway_reachable policy (g, o) -> gateway_reachable policy (demo_steps j (demo_probe pid) g, o).
Proof.
  intros Hready Hreach. unfold demo_steps. destruct (task_step j (fun _ => true) (100 + j) (demo_probe pid) g) as [g'|] eqn:Hs; [|exact Hreach].
  cbn [default]. eapply gateway_goes_on; [exact Hreach|]. unfold demo_ready in Hready. apply andb_true_iff in Hready as [Hfresh Huids].
  apply (gateway_proxies g o j (fun _ => true) (100 + j) (demo_probe pid)); [by destruct (wr_pools (gw_router g) !! (100 + j))| |exact Hs].
  intros t c account _ Hc Hb. rewrite forallb_forall in Huids. specialize (Huids (tk_connection t, c)). cbn [snd] in Huids. rewrite Hb in Huids.
  apply elem_of_map_to_list in Hc. apply list_elem_of_In in Hc. apply Huids in Hc. apply N.eqb_eq in Hc. unfold probed. rewrite Hc.
  by exists (Ok (mkPeer 1000 (Some (Z.of_N pid)))), demo_challenge, (demo_response pid).
Qed.
Lemma demo_pinning_reachable : gateway_reachable demo_policy (demo_pinning, []).
Proof.
  unfold demo_pinning. cbn [Nat.iter nat_rect]. do 2 (apply demo_steps_reachable; [vm_compute; reflexivity|]).
  unfold demo_second. eapply gateway_goes_on; [|apply gateway_streams; vm_compute; reflexivity].
  unfold demo_relaying. cbn [Nat.iter nat_rect]. do 4 (apply demo_steps_reachable; [vm_compute; reflexivity|]).
  unfold demo_accepted. eapply gateway_goes_on; [|apply gateway_streams; vm_compute; reflexivity].
  unfold demo_connected. eapply gateway_goes_on; [|apply gateway_connects; vm_compute; reflexivity].
  apply gateway_boots. apply (reach_start demo_policy (wr_pools demo_router) (wr_governor demo_router)). vm_compute. reflexivity.
Qed.

Lemma one_worker_witness :
  (cn_pin <$> gw_connections demo_pinning !! 1) = Some (Some (demo_worker_identity 7)) /\
  (tk_phase <$> gw_tasks demo_pinning !! 2) = Some (TaskPinning (demo_worker_identity 8)) /\
  exists g', task_step 2 (fun _ => true) 102 (demo_probe 8) demo_pinning = Some g' /\ gw_tasks g' = delete 2 (gw_tasks demo_pinning) /\
    forall k stream, accept_stream 1 k stream g' = (g', None).
Proof.
  assert (Hpin : (cn_pin <$> gw_connections demo_pinning !! 1) = Some (Some (demo_worker_identity 7))) by (vm_compute; reflexivity).
  assert (Hphase : (tk_phase <$> gw_tasks demo_pinning !! 2) = Some (TaskPinning (demo_worker_identity 8))) by (vm_compute; reflexivity).
  assert (Hof : (tk_connection <$> gw_tasks demo_pinning !! 2) = Some 1) by (vm_compute; reflexivity).
  assert (Hback : ((fun c => match au_backend (cn_auth c) with WorkerBackend account => ac_uid account | LocalBackend => 0 end) <$> gw_connections demo_pinning !! 1) = Some 1000)
    by (vm_compute; reflexivity).
  split; [exact Hpin|]. split; [exact Hphase|].
  destruct (gw_connections demo_pinning !! 1) as [c|] eqn:Hc; [|discriminate Hpin]. destruct (gw_tasks demo_pinning !! 2) as [t|] eqn:Ht; [|discriminate Hphase].
  cbn [fmap option_fmap option_map] in Hpin, Hphase, Hof, Hback. injection Hpin as Hpin. injection Hphase as Hphase. injection Hof as Hof.
  destruct (au_backend (cn_auth c)) as [|account] eqn:Hb; [discriminate Hback|].
  apply (proj2 (proj2 (one_worker demo_policy demo_pinning [] 1 c account demo_pinning_reachable Hc Hb)) 2 t (demo_worker_identity 8) (demo_worker_identity 7)); try assumption.
  discriminate.
Defined.
