(* ===== verification/ClientConnect.v ===== *)
(** * Connecting to a gateway ([client.rs], [connect_with_config])

    A client connects with a configuration that it keeps for every reconnection.  Either TLS accepts exactly one
    certificate, or any, and the certificate is then compared with the known hosts before anything is sent.
    What the transport and the files answer in one attempt is an [ConnectAttempt]. *)
From S2P Require Import Prelude Text Resources TerminalState Negotiation Messages StreamChannels StreamChannelsSpec Files KnownHosts Authentication AuthenticationSpec CommandLine AttachClient.
Open Scope N_scope.

Section client.
Context `{SshLib} `{HostLib} {SocketAddr : Type}.
Variable is_ipv4 : SocketAddr -> bool.

Record ReconnectConfig := mkReconnectConfig {
  rn_remote : SocketAddr; rn_server_name : text; rn_trust : ServerTrust; rn_identity : Path; rn_username : string; rn_support : ProtocolSupport }.
Record AstraClient := mkAstraClient { at_reconnect : ReconnectConfig; at_negotiated : NegotiatedProtocol; at_stream_epoch : N; at_datagrams : Routes }.

(** The certificate verifier that the TLS configuration is built with. *)
Inductive Verifier := RootCertificate (certificate : bytes) | DeferredServerVerification.
(** [an_handshake] is [connect] of the endpoint and the certificates of the peer; [an_root] says whether a root store takes a certificate; the
    last four are the circumstances of a verification ([KnownHosts.call]). *)
Record ConnectAttempt := mkConnectAttempt {
  an_certificate : Path -> result bytes; an_root : bytes -> bool; an_bind : bool -> result ();
  an_handshake : SocketAddr -> text -> Verifier -> result (option (list bytes));
  an_identity : Path -> Identity; an_incoming : list WireMessage;
  an_prepared : result (); an_readable : bool; an_confirm : result bool; an_fault : option nat }.
(** An attempt leaves the known hosts, what was sent, the code the connection was closed with, and its result. *)
Abbreviation HostFiles := (gmap Path KnownHostsFile).
Record Dialed := mkDialed { di_hosts : HostFiles; di_sent : list WireMessage; di_closed : option N; di_result : AuthError + AstraClient }.

Definition tls_verifier (trust : ServerTrust) (a : ConnectAttempt) : result Verifier :=
  match trust with
  | PinnedCertificate path =>
      certificate ← with_context (an_certificate a path) "failed to read server certificate";
      ensure! an_root a certificate, "invalid server certificate";
      Ok (RootCertificate certificate)
  | KnownHosts _ _ _ _ => Ok DeferredServerVerification
  end.
Definition verify_connection_certificate (peer : option (list bytes)) (host : text) (port : N) (policy : StrictHostKeyChecking) (a : ConnectAttempt)
    (file : option KnownHostsFile) : option KnownHostsFile * result HostTrustResult :=
  match peer with
  | None => (file, Err "server did not present a TLS certificate")
  | Some [] => (file, Err "server presented an empty TLS certificate chain")
  | Some (leaf :: _) =>
      verify_server_certificate_with_confirmation (mkCall host port leaf policy (an_prepared a) (an_readable a) (an_confirm a) (an_fault a)) file
  end.
Definition verify_peer (trust : ServerTrust) (peer : option (list bytes)) (a : ConnectAttempt) (hosts : HostFiles) : HostFiles * result () :=
  match trust with
  | PinnedCertificate _ => (hosts, Ok tt)
  | KnownHosts host port file policy =>
      let '(contents, trusted) := verify_connection_certificate peer host port policy a (hosts !! file) in
      (partial_alter (fun _ => contents) file hosts, _ ← trusted; Ok tt)
  end.
Definition connect_with_config (c : ReconnectConfig) (a : ConnectAttempt) (hosts : HostFiles) : Dialed :=
  match (verifier ← tls_verifier (rn_trust c) a;
         _ ← an_bind a (is_ipv4 (rn_remote c));
         with_context (an_handshake a (rn_remote c) (rn_server_name c) verifier) "failed to connect") with
  | Err e => mkDialed hosts [] None (inl (AuthFailure e))
  | Ok peer =>
      match verify_peer (rn_trust c) peer a hosts with
      | (hosts, Err e) => mkDialed hosts [] (Some 1) (inl (AuthFailure e))
      | (hosts, Ok _) =>
          let '(sent, outcome) := client_authenticate (an_identity a (rn_identity c)) (rn_username c) (rn_support c) (an_incoming a) in
          mkDialed hosts sent None
            (match outcome with inl e => inl e | inr (negotiated, stream_epoch) => inr (mkAstraClient c negotiated stream_epoch ∅) end)
      end
  end.
Definition connect (remote : SocketAddr) (server_name : text) (trust : ServerTrust) (identity : Path) (username : string) : ReconnectConfig :=
  mkReconnectConfig remote server_name trust identity username command_line_client.
Definition reconnect (client : AstraClient) (a : ConnectAttempt) (hosts : HostFiles) : Dialed := connect_with_config (at_reconnect client) a hosts.

(** Programs connect, and the clients they have reconnect, one after the other. *)
Inductive ClientCall := Connects (c : ReconnectConfig) | Reconnects (k : nat).
Definition dial (clients : list AstraClient) (call : ClientCall) (a : ConnectAttempt) (hosts : HostFiles) : option (ReconnectConfig * Dialed) :=
  match call with
  | Connects c => Some (c, connect_with_config c a hosts)
  | Reconnects k => match clients !! k with Some client => Some (at_reconnect client, reconnect client a hosts) | None => None end
  end.
Fixpoint history (clients : list AstraClient) (calls : list (ClientCall * ConnectAttempt)) (hosts : HostFiles) : list (ReconnectConfig * ConnectAttempt * Dialed) :=
  match calls with
  | [] => []
  | (call, a) :: calls =>
      match dial clients call a hosts with
      | Some (c, d) => (c, a, d) :: history (match di_result d with inr client => clients ++ [client] | inl _ => clients end) calls (di_hosts d)
      | None => history clients calls hosts
      end
  end.
End client.
Arguments ReconnectConfig : clear implicits.
Arguments AstraClient : clear implicits.
Arguments Dialed : clear implicits.
Arguments ClientCall : clear implicits.
Arguments ConnectAttempt {_} SocketAddr : assert.

(** ** Credentials go to one server *)

Section spec.
Context `{SshLib} `{HostLaws} {SocketAddr : Type}.
Variable is_ipv4 : SocketAddr -> bool.
Abbreviation disclosed := (fun d : Dialed SocketAddr => di_sent d <> []).

(** A certificate that was trusted, but not with [No], is recorded afterwards. *)
Lemma trusted_recorded c file :
  let '(file', r) := verify_server_certificate_with_confirmation c file in
  match host_key (ca_host c) (ca_port c) with
  | Ok key =>
      (forall k, recorded k file' = recorded k file \/ (recorded k file = [] /\ exists fp, recorded k file' = [Some fp])) /\
      (is_ok r = true -> ca_policy c = No \/ Some (certificate_fingerprint (ca_certificate c)) ∈ recorded key file')
  | Err _ => file' = file /\ is_ok r = false
  end.
Proof.
  pose proof (verify_spec c file) as Hv. destruct (verify_server_certificate_with_confirmation c file) as [file' r].
  destruct (host_key (ca_host c) (ca_port c)) as [key|e]; [|done]. set (fp := certificate_fingerprint (ca_certificate c)) in *.
  destruct Hv as [[Hsame Hr]|(Hnil & Hpol & Hr & Happ)].
  - split; [intros k; left; apply Hsame|]. intros Hok. destruct r as [[]|]; [right; by rewrite Hsame|done|by left|done].
  - split.
    + intros k. rewrite Happ. destruct (decide (key = k)) as [<-|Hne]; [right|left; by rewrite bool_decide_false, app_nil_r].
      rewrite Hnil, bool_decide_true by done. by eauto.
    + intros _. right. rewrite Happ, bool_decide_true by done. apply elem_of_app. right. by left.
Qed.

(** What an attempt discloses, and to whom. *)
Definition server_trusted (c : ReconnectConfig SocketAddr) (a : ConnectAttempt SocketAddr) (d : Dialed SocketAddr) : Prop :=
  match rn_trust c with
  | PinnedCertificate path => exists certificate peer, an_certificate a path = Ok certificate /\ an_root a certificate = true /\
      an_handshake a (rn_remote c) (rn_server_name c) (RootCertificate certificate) = Ok peer
  | KnownHosts host port file policy => exists key leaf chain, host_key host port = Ok key /\
      an_handshake a (rn_remote c) (rn_server_name c) DeferredServerVerification = Ok (Some (leaf :: chain)) /\
      (policy = No \/ Some (certificate_fingerprint leaf) ∈ recorded key (di_hosts d !! file))
  end.
Definition records_kept (hosts hosts' : gmap Path KnownHostsFile) : Prop :=
  forall key file, recorded key (hosts' !! file) = recorded key (hosts !! file) \/
    (recorded key (hosts !! file) = [] /\ exists fp, recorded key (hosts' !! file) = [Some fp]).
Lemma context_Ok {A} (r : result A) e a : with_context r e = Ok a -> r = Ok a.
Proof. destruct r as [x|x]; cbn; [done|]. by case_decide. Qed.
Lemma connect_spec c a hosts :
  let d := connect_with_config is_ipv4 c a hosts in
  records_kept hosts (di_hosts d) /\
  (disclosed d -> server_trusted c a d /\ di_closed d = None /\
     di_sent d = (client_authenticate (an_identity a (rn_identity c)) (rn_username c) (rn_support c) (an_incoming a)).1) /\
  (forall client, di_result d = inr client -> at_reconnect client = c /\
     (client_authenticate (an_identity a (rn_identity c)) (rn_username c) (rn_support c) (an_incoming a)).2 = inr (at_negotiated client, at_stream_epoch client)).
Proof.
  assert (Hrefl : records_kept hosts hosts) by (intros key file; by left).
  unfold connect_with_config, server_trusted. set (auth := client_authenticate _ _ _ _).
  destruct (tls_verifier (rn_trust c) a) as [verifier|e] eqn:Htls; cbn [mbind result_bind]; [|by split_and!].
  destruct (an_bind a _) as [[]|e]; cbn [mbind result_bind]; [|by split_and!].
  destruct (with_context _ _) as [peer|e] eqn:Hpeer; [apply context_Ok in Hpeer|by split_and!].
  destruct (rn_trust c) as [path|host port file policy] eqn:Htrust; cbn [verify_peer tls_verifier] in *.
  - destruct (with_context (an_certificate a path) _) as [certificate|] eqn:Hcert; [apply context_Ok in Hcert|done]. cbn [mbind result_bind] in Htls.
    destruct (an_root a certificate) eqn:Hroot; [|done]. injection Htls as <-.
    destruct auth as [sent [e|[np epoch]]] eqn:Ha; cbn; (split; [done|split; [intros _; split; [by exists certificate, peer|done]|]]); intros client Hc; [done|].
    by injection Hc as <-.
  - injection Htls as <-.
    destruct (verify_connection_certificate peer host port policy a (hosts !! file)) as [contents trusted] eqn:Hv.
    assert (Hkept : records_kept hosts (partial_alter (fun _ => contents) file hosts) /\
      (is_ok trusted = true -> exists key leaf chain, host_key host port = Ok key /\ peer = Some (leaf :: chain) /\
         (policy = No \/ Some (certificate_fingerprint leaf) ∈ recorded key contents))).
    { assert (Hsame : records_kept hosts (partial_alter (fun _ => hosts !! file) file hosts)).
      { intros k f. left. destruct (decide (f = file)) as [->|]; [by rewrite lookup_partial_alter_eq|by rewrite lookup_partial_alter_ne]. }
      destruct peer as [[|leaf chain]|]; cbn in Hv; [by injection Hv as <- <-| |by injection Hv as <- <-].
      pose proof (trusted_recorded (mkCall host port leaf policy (an_prepared a) (an_readable a) (an_confirm a) (an_fault a)) (hosts !! file)) as Ht.
      rewrite Hv in Ht. cbn [ca_host ca_port ca_policy ca_certificate] in Ht. destruct (host_key host port) as [key|e].
      - destruct Ht as [Hk Hr]. split; [|intros Hok; exists key, leaf, chain; auto]. intros k f. destruct (decide (f = file)) as [->|].
        + rewrite lookup_partial_alter_eq. apply Hk.
        + left. by rewrite lookup_partial_alter_ne.
      - destruct Ht as [-> Hr]. split; [exact Hsame|congruence]. }
    destruct Hkept as [Hkept Htrusted]. destruct trusted as [t|e]; cbn [mbind result_bind]; [|by split_and!].
    destruct (Htrusted eq_refl) as (key & leaf & chain & Hkey & -> & Hrec).
    destruct auth as [sent [e|[np epoch]]] eqn:Ha; cbn; (split; [done|split; [intros _; split; [exists key, leaf, chain; by rewrite lookup_partial_alter_eq|done]|]]);
      intros client Hc; [done|]. by injection Hc as <-.
Qed.

Lemma dial_spec clients call a hosts c d :
  dial is_ipv4 clients call a hosts = Some (c, d) ->
  d = connect_with_config is_ipv4 c a hosts /\ (call = Connects c \/ exists client, client ∈ clients /\ at_reconnect client = c).
Proof.
  destruct call as [c'|k]; cbn; [intros [= -> <-]; by auto|]. destruct (clients !! k) as [client|] eqn:Hk; [|done]. intros [= <- <-].
  split; [done|]. right. exists client. split; [by eapply list_elem_of_lookup_2|done].
Qed.
(** Every attempt of a history is one of a configuration that was given. *)
Lemma history_spec calls : forall clients hosts,
  Forall (fun '(c, a, d) => (Connects c ∈ calls.*1 \/ exists client, client ∈ clients /\ at_reconnect client = c) /\
    exists hosts', d = connect_with_config is_ipv4 c a hosts') (history is_ipv4 clients calls hosts).
Proof.
  induction calls as [|[call a] calls IH]; intros clients hosts; [constructor|]. cbn [history].
  destruct (dial is_ipv4 clients call a hosts) as [[c d]|] eqn:Hd.
  - apply dial_spec in Hd as [-> Hc].
    assert (Hcfg : Connects c ∈ ((call, a) :: calls).*1 \/ exists client, client ∈ clients /\ at_reconnect client = c) by (destruct Hc as [->|]; [left; by left|by right]).
    constructor; [split; [exact Hcfg|by exists hosts]|]. eapply Forall_impl; [apply IH|]. intros [[c' a'] d'] [[Hin|(client & Hin & Heq)] Hrun].
    + split; [left; by right|exact Hrun].
    + split; [|exact Hrun]. destruct (connect_spec c a hosts) as (_ & _ & Hresult). destruct (di_result _) as [e|client'] eqn:Hres.
      * right. by exists client.
      * apply elem_of_app in Hin as [Hin|Hin]; [right; by exists client|]. apply list_elem_of_singleton in Hin as ->.
        destruct (Hresult _ eq_refl) as [Hsame _]. by rewrite <- Heq, Hsame.
  - eapply Forall_impl; [apply IH|]. intros [[c' a'] d'] [[Hin|Hin] Hrun]; (split; [|exact Hrun]); [left; by right|by right].
Qed.
(** Whom the disclosures of a host went to, given what is recorded of it. *)
Definition only_to (key : text) (file : Path) (fp : text) (x : ReconnectConfig SocketAddr * ConnectAttempt SocketAddr * Dialed SocketAddr) : Prop :=
  let '(c, a, d) := x in
  forall host port policy leaf chain, rn_trust c = KnownHosts host port file policy -> policy <> No -> host_key host port = Ok key -> disclosed d ->
    an_handshake a (rn_remote c) (rn_server_name c) DeferredServerVerification = Ok (Some (leaf :: chain)) -> certificate_fingerprint leaf = fp.
Lemma only_to_recorded key file fp c a hosts :
  recorded key (di_hosts (connect_with_config is_ipv4 c a hosts) !! file) ⊆ [Some fp] -> only_to key file fp (c, a, connect_with_config is_ipv4 c a hosts).
Proof.
  intros Hrec host port policy leaf chain Htrust Hpol Hkey Hsent Hpeer. destruct (connect_spec c a hosts) as (_ & Hd & _). destruct (Hd Hsent) as (Ht & _).
  unfold server_trusted in Ht. rewrite Htrust in Ht. destruct Ht as (key' & leaf' & chain' & Hkey' & Hpeer' & Hin).
  rewrite Hkey in Hkey'. injection Hkey' as <-. rewrite Hpeer in Hpeer'. injection Hpeer' as <- <-. destruct Hin as [Hno|Hin]; [done|].
  apply Hrec, list_elem_of_singleton in Hin. by injection Hin.
Qed.
Lemma history_only key file fp calls : forall clients hosts,
  recorded key (hosts !! file) = [Some fp] -> Forall (only_to key file fp) (history is_ipv4 clients calls hosts).
Proof.
  induction calls as [|[call a] calls IH]; intros clients hosts Hrec; [constructor|]. cbn [history].
  destruct (dial is_ipv4 clients call a hosts) as [[c d]|] eqn:Hd; [|by apply IH]. apply dial_spec in Hd as [-> _].
  destruct (connect_spec c a hosts) as (Hkept & _). assert (Hrec' : recorded key (di_hosts (connect_with_config is_ipv4 c a hosts) !! file) = [Some fp]).
  { destruct (Hkept key file) as [->|[Hnil _]]; congruence. }
  constructor; [apply only_to_recorded; by rewrite Hrec'|by apply IH].
Qed.
Lemma history_first key file calls : forall clients hosts,
  recorded key (hosts !! file) = [] -> exists fp, Forall (only_to key file fp) (history is_ipv4 clients calls hosts).
Proof.
  induction calls as [|[call a] calls IH]; intros clients hosts Hrec; [exists []; constructor|]. cbn [history].
  destruct (dial is_ipv4 clients call a hosts) as [[c d]|] eqn:Hd; [|by apply IH]. apply dial_spec in Hd as [-> _].
  destruct (connect_spec c a hosts) as (Hkept & _). destruct (Hkept key file) as [Hsame|[_ [fp Hfp]]].
  - rewrite Hrec in Hsame. edestruct IH as [fp Hfp]; [exact Hsame|]. exists fp. constructor; [|exact Hfp]. apply only_to_recorded. rewrite Hsame. apply list_subseteq_nil.
  - exists fp. constructor; [apply only_to_recorded; by rewrite Hfp|by apply history_only].
Qed.

End spec.

(** ** Witness *)

#[local] Existing Instance ex_ssh_lib.
#[local] Existing Instance demo_hosts.
#[local] Existing Instance demo_host_laws.
(** The first connection adds the certificate; then another server answers a reconnection, and a program that does not ask connects to it. *)
Definition dial_config (policy : StrictHostKeyChecking) : ReconnectConfig N :=
  connect 7 (lit "gateway") (KnownHosts (lit "example.org") 4433 [lit "known_hosts"] policy) [lit "id_ed25519"] "alice".
Definition dial_attempt (leaf : bytes) : ConnectAttempt N :=
  mkConnectAttempt (fun _ => Err "not found") (fun _ => true) (fun _ => Ok tt) (fun _ _ _ => Ok (Some [leaf])) (fun _ => ex_client_identity)
    [server_hello ex_server (default (mkNegotiated 0 ∅) (match negotiate_client_hello (client_hello "alice" command_line_client) (server_protocol_support true true) with Ok np => Some np | Err _ => None end)) ex_draw;
     Some (BAuthResult true "" "" 99)] (Ok tt) true (Ok true) None.
Definition dial_calls : list (ClientCall N * ConnectAttempt N) :=
  [(Connects (dial_config AcceptNew), dial_attempt [1]); (Reconnects 0, dial_attempt [2]); (Reconnects 0, dial_attempt [1]); (Connects (dial_config Yes), dial_attempt [2])].
Definition dial_history : list (ReconnectConfig N * ConnectAttempt N * Dialed N) := history (fun _ => true) [] dial_calls ∅.
