(* ===== verification/Startup.v ===== *)
(** * The start of the daemon ([server.rs], [serve])

    [astrad serve] checks its policy and its state directory, takes the lock of the daemon, makes the pools, and then
    either opens the sessions of its own user or, as a managed gateway, finds the workers that still run.  What follows is
    the loop that accepts connections ([Connections]). *)
From S2P Require Import Prelude Text Utf8 Resources TerminalState Files Authentication AuthenticationSpec Sessions SessionsInv WorkerRouter WorkerRouterSpec StateDir StateDirSpec StreamChannels StreamChannelsSpec Connections ConnectionsSpec.
Open Scope N_scope.

(** [fs::read_to_string] of what was read: it is UTF-8 when the scalar values it is read as are written as it. *)
Definition read_string (raw : bytes) : result text :=
  let t := from_utf8_lossy raw in
  ensure! bool_decide (encode_utf8 t = raw), "stream did not contain valid UTF-8";
  Ok t.

(** The overrides that a managed gateway hands to its workers are in [Policy]. *)
Inductive ServerMode := RootlessMode (session_root : Path) | ManagedMode (authorized_keys_directory : option Path).
(** What the rest of the system answers: the lock, the account of the process, whether the session root is a directory, the catalog of the
    sessions with its draw and failures, the entries of the directory of the users, and the endpoint for a certificate and key. *)
Record StartAnswers := mkStartAnswers {
  sa_lock : result (); sa_current : result SystemAccount; sa_root_is_dir : Path -> bool;
  sa_catalog : option bytes; sa_catalog_readable : bool; sa_catalog_id : string; sa_now : result N; sa_catalog_fault : option nat;
  sa_users : result (list UserEntry); sa_endpoint : bytes -> bytes -> result () }.
(** The state of a running server beside its [ServerState]; [files] is the root of the file service. *)
Inductive ServerRuntime := RootlessServer (manager : SessionManager) (files : Path) | ManagedServer (router : WorkerRouter).

Section serve.
Context `{SessionLib}.
Variables (fault : nat -> option string) (umask euid : N).

Definition sys_lift {A : Type} (r : result A) : SysM A := fun s => (s, r).
Definition read_file (p : Path) : SysM bytes := syscall fault (fun d => e ← ok_or (d !! p) "not found"; Ok (d, en_content e)).

(** [FileService::with_resources] *)
Definition file_root (a : StartAnswers) (root : Path) : result Path :=
  root ← ok_or (canonicalize_cwd root) "invalid file root";
  ensure! sa_root_is_dir a root, "file root is not a directory";
  Ok root.
(** The two branches over the mode, on new pools. *)
Definition start_rootless (policy : ResourcePolicy) (paths : ServerPaths) (session_root : Path) (a : StartAnswers) (s : PoolStore) (g : ResourceGovernor)
    : result (ModeState * ResourceGovernor * ServerRuntime) :=
  account ← sa_current a;
  '(s, g, resources) ← governor_account s g 1 (ac_username account);
  files ← file_root a session_root;
  manager ← (with_resources session_root (sa_catalog a) (sa_catalog_readable a) (sa_catalog_id a) (sa_now a) (sa_catalog_fault a) resources policy s).2;
  Ok (Rootless account (sp_authorized_keys paths), g, RootlessServer manager files).
Definition start_managed (policy : ResourcePolicy) (paths : ServerPaths) (authorized_keys_directory : option Path) (a : StartAnswers) (s : PoolStore)
    (g : ResourceGovernor) : SysM (ModeState * ResourceGovernor * ServerRuntime) :=
  _ ← sys_lift (policy_validate policy);
  _ ← prepare_users_root fault umask euid (sp_state_dir paths);
  entries ← sys_lift (sa_users a);
  router ← sys_lift (match recover_existing entries (mkRouter ∅ s g policy) with (router, Ok _) => Ok router | (_, Err e) => Err e end);
  mret (Managed authorized_keys_directory, wr_governor router, ManagedServer router).
Definition tcp_forwarding_enabled (policy : ResourcePolicy) : bool :=
  (0 <? rl_forward_connections (rp_global policy)) && (0 <? rl_forward_connections (rp_user policy)).
Definition serve (policy : ResourcePolicy) (paths : ServerPaths) (mode : ServerMode) (terminal_datagrams : bool) (a : StartAnswers)
    : SysM (ServerState * ServerRuntime) :=
  _ ← sys_lift (policy_validate policy);
  _ ← ensure_initialized paths;
  _ ← match mode with ManagedMode _ => validate_managed_gateway_state fault euid paths | RootlessMode _ => mret tt end;
  _ ← sys_lift (sa_lock a);
  '(s, g) ← sys_lift (governor_new ∅ 0 policy);
  '(mode, g, runtime) ← match mode with
                        | RootlessMode root => sys_lift (start_rootless policy paths root a s g)
                        | ManagedMode directory => start_managed policy paths directory a s g
                        end;
  raw ← read_file (sp_instance_id paths);
  instance ← sys_lift (read_string raw);
  certificate ← read_file (sp_cert paths);
  private_key ← read_file (sp_key paths);
  _ ← sys_lift (sa_endpoint a certificate private_key);
  mret (mkServer mode (bytes_string (encode_utf8 (trim instance))) (tcp_forwarding_enabled policy) terminal_datagrams g, runtime).
End serve.

(** ** A server that starts *)

Section spec.
Context `{AdmissionLib} `{SshLib} `{SessionLaws}.
Variables (fault : nat -> option string) (umask euid : N).

Lemma sys_lift_Ok {A : Type} (r : result A) s s' a : sys_lift r s = (s', Ok a) -> s' = s /\ r = Ok a.
Proof. unfold sys_lift. by intros [= -> ->]. Qed.
Lemma recover_reachable policy entries : forall r r',
  router_reachable policy (r, []) -> fresh_pools entries r -> recover_existing entries r = (r', Ok tt) -> router_reachable policy (r', []).
Proof.
  induction entries as [|entry entries IH]; intros r r' Hr Hf Hrec; cbn [recover_existing] in Hrec; [by injection Hrec as <-|].
  destruct Hf as [Hf Hfs]. pose proof (reach_more policy _ _ Hr (step_recover r [] entry Hf)) as Hr1.
  destruct (recover_entry r entry) as [r1 [[]|e]]; [|done]. by eapply IH.
Qed.
(** The directories of the gateway apart, nothing on the disk changes. *)
Definition start_change (state_dir : Path) (d d' : Disk) : Prop := forall p, p <> state_dir -> p <> users_root state_dir -> d' !! p = d !! p.
#[local] Instance start_change_refl state_dir : Reflexive (start_change state_dir).
Proof. by intros d p. Qed.
#[local] Instance start_change_trans state_dir : Transitive (start_change state_dir).
Proof. intros d1 d2 d3 H1' H2' p Hp Hq. rewrite (H2' p Hp Hq). by apply H1'. Qed.
Abbreviation starts state_dir := (moves (start_change state_dir)).

Lemma sys_lift_moves {A : Type} state_dir (r : result A) : starts state_dir (sys_lift r).
Proof. by intros s p. Qed.
Lemma ret_moves {A : Type} state_dir (a : A) : starts state_dir (mret (M := SysM) a).
Proof. by intros s p. Qed.
Lemma require_moves state_dir b e : starts state_dir (sys_require b e).
Proof. by intros s p. Qed.
Lemma read_moves state_dir p : starts state_dir (read_file fault p).
Proof. apply moves_syscall; [apply _|]. intros d d' a Hd. destruct (d !! p); [|done]. by injection Hd as -> _. Qed.
Lemma inspect_moves state_dir p : starts state_dir (symlink_metadata fault p).
Proof. apply moves_syscall; [apply _|]. intros d d' a Hd. destruct (d !! p); [|done]. by injection Hd as -> _. Qed.
Lemma chmod_moves state_dir p mode : p = state_dir \/ p = users_root state_dir -> starts state_dir (set_permissions fault p mode).
Proof.
  intros Hp. apply moves_syscall; [apply _|]. intros d d' a Hd q Hq Hq'. destruct (d !! p); [|done]. injection Hd as <- _.
  rewrite lookup_alter_ne; [done|]. intros ->. by destruct Hp.
Qed.
Lemma mkdir_moves state_dir : starts state_dir (create_dir fault umask euid (users_root state_dir)).
Proof.
  apply moves_syscall; [apply _|]. intros d d' a Hd q Hq Hq'. destruct (d !! users_root state_dir); injection Hd as <- _; [done|].
  by rewrite lookup_insert_ne.
Qed.
Lemma directory_moves state_dir p forbidden : starts state_dir (validate_directory fault p euid forbidden).
Proof. apply moves_bind; [apply _|apply inspect_moves|intros e; apply require_moves]. Qed.
Create HintDb starts.
#[local] Hint Resolve sys_lift_moves ret_moves require_moves read_moves inspect_moves chmod_moves mkdir_moves directory_moves : starts.
Ltac walk := repeat first [match goal with x : (_ * _)%type |- _ => destruct x end | apply moves_bind; [apply _| |intros ?]]; auto with starts.

Lemma serve_moves policy paths mode terminal_datagrams a : starts (sp_state_dir paths) (serve fault umask euid policy paths mode terminal_datagrams a).
Proof.
  assert (Hinit : starts (sp_state_dir paths) (ensure_initialized paths)) by by intros s p.
  assert (Hmanaged : starts (sp_state_dir paths) (validate_managed_gateway_state fault euid paths)) by (unfold validate_managed_gateway_state; walk).
  assert (Hstart : forall directory s g, starts (sp_state_dir paths) (start_managed fault umask euid policy paths directory a s g))
    by (intros directory s g; unfold start_managed, prepare_users_root; walk).
  unfold serve. destruct mode; walk.
Qed.

Definition managed_state (paths : ServerPaths) (d : Disk) : Prop := exists e key, d !! sp_state_dir paths = Some e /\ d !! sp_key paths = Some key /\
  en_kind e = PkDirectory /\ en_uid e = euid /\ N.land (en_mode e) 18 = 0 /\ en_kind key = PkFile /\ en_uid key = euid /\ N.land (en_mode key) 63 = 0.
Lemma managed_Ok paths s s' : validate_managed_gateway_state fault euid paths s = (s', Ok tt) -> sy_disk s' = sy_disk s /\ managed_state paths (sy_disk s).
Proof.
  unfold validate_managed_gateway_state. intros (s1 & e & [D1 He]%symlink_metadata_Ok & Hx)%sys_bind_Ok.
  do 3 (apply sys_bind_Ok in Hx as (? & [] & [-> ?]%sys_require_Ok & Hx)). apply sys_bind_Ok in Hx as (s2 & key & [D2 Hk]%symlink_metadata_Ok & Hx).
  do 2 (apply sys_bind_Ok in Hx as (? & [] & [-> ?]%sys_require_Ok & Hx)). apply sys_require_Ok in Hx as [-> ?]. bool_prop.
  split; [congruence|]. exists e, key. rewrite D1 in Hk. by split_and!.
Qed.
Lemma read_file_Ok p s s' raw : read_file fault p s = (s', Ok raw) -> sy_disk s' = sy_disk s /\ exists e, sy_disk s !! p = Some e /\ en_content e = raw.
Proof. intros Hr%syscall_Ok. destruct (sy_disk s !! p) as [e|]; [|done]. cbn in Hr. injection Hr as -> <-. split; [done|by exists e]. Qed.
(** The handles of the pools are new. *)
Definition handles_fresh (policy : ResourcePolicy) (a : StartAnswers) : Prop :=
  forall entries s g, sa_users a = Ok entries -> governor_new ∅ 0 policy = Ok (s, g) -> fresh_pools entries (mkRouter ∅ s g policy).
Lemma managed_starts policy paths directory a s g st st' mode g' runtime :
  handles_fresh policy a -> governor_new ∅ 0 policy = Ok (s, g) ->
  start_managed fault umask euid policy paths directory a s g st = (st', Ok (mode, g', runtime)) ->
  mode = Managed directory /\ exists router, runtime = ManagedServer router /\ g' = wr_governor router /\ router_reachable policy (router, []).
Proof.
  intros Hf Hg. unfold start_managed. intros (s1 & [] & [-> _]%sys_lift_Ok & Hx)%sys_bind_Ok. apply sys_bind_Ok in Hx as (s2 & [] & _ & Hx).
  apply sys_bind_Ok in Hx as (s3 & entries & [-> Hu]%sys_lift_Ok & Hx). apply sys_bind_Ok in Hx as (s4 & router & [-> Hr]%sys_lift_Ok & [= <- <- <- <-]).
  split; [done|]. exists router. split_and!; [done..|].
  destruct (recover_existing entries _) as [router' [[]|e]] eqn:Hrec; [|done]. injection Hr as ->.
  eapply recover_reachable; [by eapply reach_start|by eapply Hf|exact Hrec].
Qed.
Lemma rootless_starts policy paths root a s g mode g' runtime :
  governor_new ∅ 0 policy = Ok (s, g) -> start_rootless policy paths root a s g = Ok (mode, g', runtime) ->
  exists account m files, sa_current a = Ok account /\ mode = Rootless account (sp_authorized_keys paths) /\ runtime = RootlessServer m files /\
    canonicalize_cwd root = Some files /\ sa_root_is_dir a files = true /\
    (sa_catalog_readable a = true -> validate_uuid (sa_catalog_id a) = Ok tt -> session_reachable (m, [])).
Proof.
  intros Hg. unfold start_rootless. intros Hs. ok_step Hs. rename a0 into account. ok_step Hs. destruct a0 as [[s1 g1] resources].
  ok_step Hs. rename a0 into files. destruct (with_resources _ _ _ _ _ _ _ _ _) as [file [m|e]] eqn:Hm; [|done]. cbn in Hs. injection Hs as <- <- <-.
  assert (Hfiles : canonicalize_cwd root = Some files /\ sa_root_is_dir a files = true).
  { match goal with Hf : file_root a root = Ok files |- _ => rename Hf into Hroot end. unfold file_root in Hroot.
    destruct (canonicalize_cwd root) as [r|]; [|done]. cbn [ok_or mbind result_bind] in Hroot. destruct (sa_root_is_dir a r) eqn:Hd; [|done]. by injection Hroot as <-. }
  destruct Hfiles as [Hcan Hdir]. exists account, m, files. split_and!; [done..|]. intros Hread Huuid. rewrite Hread in Hm.
  pose proof (router_invariant _ _ (reach_start policy _ _ Hg)) as (_ & Hwf & _ & Hi & _). cbn [wr_pools wr_governor wr_capacities] in *.
  rewrite bag_empty in Hi. match goal with Ha : governor_account _ _ _ _ = _ |- _ => rename Ha into Hacc end.
  assert (Hfresh : s !! 1 = None) by (unfold governor_new in Hg; ok_inv Hg; by rewrite lookup_insert_ne).
  destruct (governor_account_inv _ _ _ _ _ _ _ _ Hwf Hfresh Hi Hacc) as (Hwf' & Hi' & _ & _ & _ & pool & Hpool & ->).
  destruct (account_reservable _ _ _ _ Hwf' Hpool) as [Hnd Hex]. eapply reach_new; [exact Huuid|by split_and!|exact Hm].
Qed.

Lemma serve_tail_Ok paths st0 (a : StartAnswers) (f : text -> ServerState * ServerRuntime) s' x :
  (raw ← read_file fault (sp_instance_id paths); instance ← sys_lift (read_string raw); certificate ← read_file fault (sp_cert paths);
   private_key ← read_file fault (sp_key paths); _ ← sys_lift (sa_endpoint a certificate private_key); mret (M := SysM) (f instance)) st0 = (s', Ok x) ->
  sy_disk s' = sy_disk st0 /\ exists instance id certificate key, x = f instance /\ sy_disk s' !! sp_instance_id paths = Some id /\
    read_string (en_content id) = Ok instance /\ sy_disk s' !! sp_cert paths = Some certificate /\ sy_disk s' !! sp_key paths = Some key /\
    sa_endpoint a (en_content certificate) (en_content key) = Ok tt.
Proof.
  intros (s1 & raw & [D1 (id & Hid & <-)]%read_file_Ok & Hx)%sys_bind_Ok. apply sys_bind_Ok in Hx as (s2 & instance & [-> Hread]%sys_lift_Ok & Hx).
  apply sys_bind_Ok in Hx as (s3 & c & [D3 (certificate & Hcert & <-)]%read_file_Ok & Hx).
  apply sys_bind_Ok in Hx as (s4 & k & [D4 (key & Hkey & <-)]%read_file_Ok & Hx).
  apply sys_bind_Ok in Hx as (s5 & [] & [-> Hend]%sys_lift_Ok & [= <- <-]). rewrite D4, D3, D1 in *.
  split; [done|]. exists instance, id, certificate, key. by split_and!.
Qed.
End spec.

(** ** Witness *)

#[local] Existing Instance ex_admission_lib.
#[local] Existing Instance ex_ssh_lib.
#[local] Existing Instance demo_lib.
#[local] Existing Instance demo_laws.
(** A first [init], and a managed gateway on what it has left. *)
Definition start_paths : ServerPaths := server_paths [lit "srv"; lit "astra"].
Definition start_initialized : Sys := (initialize_state (fun _ => None) 0 18 0 start_paths (Ok ([1; 2], [3])) (lit "7f") (mkSys first_disk 0)).1.
Definition start_answers : StartAnswers :=
  mkStartAnswers (Ok tt) (Err "no account") (fun _ => true) None true "w-0" (Ok 5) None (Ok []) (fun certificate key => ensure! bool_decide (key = [3]), "no key"; Ok tt).
